(* ===== verification/_CoqProject ===== *)
-Q . S2P
Prelude.v
Strings.v
Os.v
Protocol.v
Lease.v
Control.v
Renew.v
Supervisor.v
Maintain.v
LogFormat.v
LogSpool.v
LogCapture.v
LogAssembler.v
LogSummary.v
LogLive.v
Execution.v
Uploads.v
Phase.v
LogRegistration.v
Completion.v
RecordStore.v
JournalFiles.v
JournalRefinement.v
JournalRecord.v
Codec.v
Journal.v
JournalUploads.v
JournalLogs.v
JournalSession.v
JournalEvidence.v
JournalFacts.v
Delivery.v
ProjectIds.v
DatasetCache.v
Net.v
DatasetInputs.v
Work.v
RuntimeConfig.v
DatasetStage.v
CacheStore.v
Quota.v
Workspaces.v
Outputs.v
Async.v
Docker.v
Recovery.v
Transfer.v
Effects.v
UploadDelivery.v
Launch.v
LaunchFacts.v
Finalize.v
FinalizeFacts.v
Acquisition.v
AcquisitionFacts.v
Progress.v
Agent.v
AgentFacts.v
SpecJob.v
Store.v
StoreLeases.v
StoreRecovery.v
StoreSessions.v
StoreAcquire.v
StoreComplete.v
Ledger.v
LedgerFacts.v
StoreRun.v
StoreSessionRun.v
StoreWorkRun.v
StoreFacts.v
StoreAssign.v
StoreDecide.v
WorkerApi.v
EndToEnd.v
StoreExample.v
