(* ===== verification/Prelude.v ===== *)
(** * A verification of the Dispatch worker and of its control plane

    Dispatch runs batch jobs on independent machines.  A Go control plane
    ([internal], with its schema in [migrations]) owns jobs, attempts and leases
    in a database; on each machine a Rust worker ([rust/worker/src]) acquires
    assignments, launches containers, keeps its authority renewed, records
    evidence in a local journal, captures logs and reports completions.  This
    development models the worker's decision logic: everything it accepts from
    the control plane, what it may still do as time passes, and what it leaves on
    disk when calls fail or the machine stops.  Of the control plane it models
    the transactions that decide who owns a job, and the handlers that answer a
    worker.  The two meet in [EndToEnd]: a worker's authority is over before
    another attempt of its job exists.

    ** Conventions

    - [&str] and [String] are Stdlib's [string] (bytes), [Vec<u8>] is
      [list byte], unsigned integers are [N] with wrap-around or checked
      operations written out, signed ones are [Z], maps are [gmap].
    - [Result] is [result]; [?] is [let?].  A [&mut self] method is a function
      of type [st S E A]; [let!] keeps the state reached when an error returns.
    - A clock reading, the reply of a call, the answer of a system call and a
      random draw are arguments (or a stream in the state): theorems quantify
      over all of them.  Concurrency is a step relation whose environment may
      act between any two steps of the operation at hand.
    - An [async fn] is a task ([Async]): a function of an environment, which
      answers every awaited call, and of an execution, which has the shared
      state, the number of awaits left before the future is dropped, and the log
      of calls and answers.  A theorem over all environments and all numbers of
      awaits covers every failure, every interleaving at an await and
      cancellation at every await.  The other tasks of the worker act on the
      journal between two awaits in any way that keeps evidence
      ([Effects.tame]); [JournalEvidence] shows that all journal operations do.
    - A Go function that returns an error returns [result]; a transaction body
      is a function [tx] of the database, and [Store.transact] says what a caller
      sees of it: applied, rolled back, or an answer that got lost either way.
    - Code outside the repository is a parameter: SHA-256, the prost encoding,
      serde_json, the URL parser, HTTP, tar and the Docker daemon; for the control
      plane [encoding/json] and [crypto/sha256] (class [Store.GoLib], without
      laws) and the object store.  What is
      assumed of it is a named hypothesis or a law of the class
      [JournalRecord.LibraryLaws]; [Codec] instantiates that class with an
      executable codec, which the witnesses use.

    ** Components, in dependency order

    - [Prelude], [Strings], [Os], [Net]: results, state, sorting, integers,
      bytes; [str] methods; error kinds and metadata; internet addresses.
    - [Protocol]: the messages of [proto/dispatch/worker/v1/worker.proto].
    - [Lease] ([lease.rs]): authority windows and phase deadlines.  A window
      ends five seconds before the server's lease, whatever the delays.
    - [Control] ([control.rs], [control/work.rs]): client errors, canonical
      identifiers, registration and heartbeat checks.
    - [Renew], [Maintain] ([control/renew.rs], [control/renew/maintain.rs]):
      one renewal call, and the renewal loop as [prepare] and [finish] with the
      supervisors acting while a call is in flight.  A refresh request is
      satisfied only by a batch sent after it; an ambiguous failure is resent
      unchanged; the loop leaves every controller stopped.
    - [Supervisor] ([supervisor.rs]): the authority channel as a step relation
      and the supervision of one container.  Lapsed authority is never
      resurrected, the first stop wins, an exit is reported only under live
      authority, and the calls of a requested stop fit what is left.
    - [LogFormat], [LogSpool], [LogCapture], [LogAssembler], [LogSummary]
      ([log_format.rs], [log_spool.rs], [log_capture.rs], [log_assembler.rs],
      [log_summary.rs]): segments and their decoder (the decoder is that of
      [internal/logformat/logformat.go]), the bounded spool, the capture queue,
      assembly into segments, and the summary of loss.  A segment round-trips,
      every captured number is in exactly one stored range, and the summary's
      gaps are exactly what was lost.
    - [Execution] ([execution.rs]): the job document and its agreement with the
      wire.  Outputs and mounts of a validated job never overlap.
    - [Uploads], [Phase], [LogRegistration], [Completion] ([control/uploads.rs],
      [control/phase.rs], [control/logs.rs], [control/completion.rs],
      [control/completion_payload.rs]): request and response checks.  A sealed
      segment always makes a valid registration; the completion digest covers all
      the evidence and no presentation; an acknowledgement binds the request.
    - [RecordStore], [JournalFiles] ([journal/files.rs]): the record directory
      over a disk whose files may be unsynced, with a crash relation.
      [RecordStore] is the interface journal code uses and [Directory_laws] the
      proof that the directory implements it.  An interrupted write is atomic,
      a failed one poisons the writer, limits hold on disk.
    - [JournalRecord], [Codec], [Journal], [JournalUploads], [JournalLogs],
      [JournalSession] ([journal.rs], [journal/uploads.rs],
      [journal/uploads/multipart.rs], [journal/logs.rs], [journal/session.rs],
      and the launch claims of [journal/asynchronous.rs]): stored records, their
      validity, and every operation on them, generic in the record store.
    - [JournalEvidence], [JournalFacts]: the invariant [sound] and the order
      [evolves]; any sequence of journal operations keeps evidence append-only,
      seals a completed attempt, backs a stored success with a clean exit, and
      gives a retried event or upload its first identity.
    - [Delivery] ([completion.rs]): delivery of a stored completion; a returned
      reply is durable, whatever other tasks do to the journal meanwhile.
    - [ProjectIds] ([journal/project_ids.rs]): identifiers are never reused over
      failed writes, crashes and restarts.
    - [DatasetCache] ([dataset_cache.rs]): the cache index; accounting and
      eviction plans that work.
    - [DatasetInputs] ([dataset_assignment.rs], [validate_manifest] of
      [dataset_staging.rs], [validate_grant] of [dataset_download.rs]): granted
      inputs; manifest files never collide and a replay refreshes only the
      capability.
    - [Work] ([control/work.rs]): acquisition and listing of assignments.
    - [RuntimeConfig] ([PreparedWorkspace] of [runtime.rs], [runtime/config.rs]):
      workspaces, input mounts, the container document and its check.  What is
      accepted is isolated and within the reservation.
    - [DatasetStage], [CacheStore] ([dataset_download.rs], [dataset_staging.rs],
      [dataset_prepare.rs], [dataset_cache_store.rs]): download, extraction and
      the cache.  A prepared tree is the registered one, and a pinned tree stays.
    - [Quota], [Workspaces] ([project_quota.rs], [agent/quota.rs],
      [agent/workspace.rs] and the file checks of [agent.rs]): strict and soft
      scratch storage.  A strict workspace has the kernel's limits of its
      reservation, inherited by what is created in it, as read back.
    - [Outputs] ([outputs.rs]), [Transfer] ([transfer.rs]), [LogLive]
      ([log_live.rs]): declared outputs, the PUT of one object, live collection.
    - [Async]: tasks, their logic ([spec], [keeps]), their bounds ([within]) and
      the agreement of [while_live] with [Supervisor].
    - [Docker], [Recovery] ([runtime.rs], [runtime/image.rs],
      [runtime/recovery.rs]): the runtime over the daemon's calls.  The log shows
      that only verified, never started containers are started, that removal is
      never forced on a running container, and that recovery spares live work.
    - [Effects]: the calls of the worker's tasks and the state they share.
    - [UploadDelivery] ([upload.rs], [log_delivery.rs]): an output gets one object
      version however often its delivery is interrupted.
    - [Launch], [LaunchFacts] ([launch.rs], [launch/run.rs] and the waits of
      [supervisor.rs]): an attempt runs at most once, over any number of
      interrupted executions.
    - [Finalize], [FinalizeFacts] ([finalization.rs], [log_publish.rs],
      [summarize] of [log_summary.rs]): finalization takes a bounded number of
      awaits, success references every required output, a cancellation needs
      confirmed cleanup.
    - [Acquisition], [AcquisitionFacts], [Progress] ([agent/acquisition.rs]): one
      assignment from its claim to the removal of its workspace.  One that ends
      well left nothing behind; its terminal delivery outlasts an outage.
    - [Agent], [AgentFacts] ([agent.rs], [acquire_and_run] of
      [agent/acquisition.rs], [endpoint] of [control.rs], the command line of
      [main.rs]): configuration, start-up, registration, the health loop and the
      delivery of completions of earlier sessions.  The worker is set ready only
      on a host in order whose report was agreed to; reports are numbered without
      gaps and repeated unchanged; recovery leaves no completion unanswered;
      start-up does not panic, and a decoded configuration can be registered.
    - [JournalRefinement]: the record directory refines a map with atomic writes.
    - [SpecJob] ([internal/spec/job.go]): the job document as the control plane
      checks it.  It admits exactly the jobs the worker's [validate] accepts.
    - [Store] ([migrations], the request types of [internal/store]): tables,
      rows, transactions, and the checks every call starts with.
    - [StoreLeases] ([leases.go], [phases.go]), [StoreRecovery] ([recovery.go],
      [reaper.go], [sweep_failure.go]), [StoreSessions] ([sessions.go],
      [heartbeat.go], take-over and recovery of sessions), [StoreAcquire]
      ([jobs.go], [job_inputs.go], [queue_blockers.go],
      [acquisition_selection.go], [acquisition.go], [assignments.go],
      [cancellation.go], [worker_drain.go]), [StoreComplete] ([completion.go],
      [completion_contract.go]): the transactions, with replays and refusals.
    - [Ledger], [LedgerFacts]: the abstract specification, the steps ownership of
      a job may take; the constraints and triggers of the schema as functions of
      rows, and that the steps keep them.
    - [StoreRun], [StoreSessionRun], [StoreWorkRun]: what a run of each
      transaction did, as steps of the ledger.
    - [StoreFacts]: any sequence of calls refines the ledger, satisfies the
      schema after each and its row triggers at each change, and never undoes an
      outcome.
    - [StoreAssign], [StoreDecide]: an assignment fits worker, project and sweep;
      acquisitions are idempotent; a completion is decided once; retries wait
      within their policy.
    - [WorkerApi] ([internal/workerapi]): the handlers of the worker protocol.
    - [EndToEnd]: worker and control plane composed.
    - [StoreExample]: a run of the control plane, on which its theorems are
      applied, and a dataset it registers that the worker refuses.

    ** Fuel and bounds

    Three recursions are not structural.  [LogCapture.chunks] takes the length
    of the frame as fuel (each chunk takes a byte; [chunks_fuel_spec] shows that
    the chunks cover the frame).  [LogFormat.decode_records] takes the length of
    the body (a record takes at least 21 bytes; the round trip shows that no
    written segment runs out).  [Codec.des_list] decodes with the length of its
    input ([des_ser_list]).  A [loop] of a task has the awaits left as fuel:
    a turn that goes round completes an await ([Async.advances]; shown of the
    loops of the process in [AgentFacts]), and [Async.loop_unfold] is the equation
    of the Rust loop.  [Supervisor.supervise_loop] recurs on the polls the
    environment grants it.  In the control plane [StoreRecovery.backoff] recurs on
    the number of the attempt and [reap_loop] on the limit of a batch, as the
    loops of the source count.  Limits of the sources (bytes, counts, durations) are
    kept as they are.

    ** Limits of the model

    When the future that waits for an operation of the journal is dropped, the
    operation had not started, or it runs to its end as its blocking thread does
    ([AsyncJournal::apply]); the environment decides which.  A panic ends a task
    like a drop, and its poisoning of a lock is not modelled.  The health,
    recovery and admission tasks are joined in the source; here each is a task
    with the others in its environment.  The inventory of a journal that is
    listed is the one of the instant of the call.  The calls of the two futures of a [select!] are logged one
    future after the other.  The mutex of the cache index is never poisoned.  The
    recursive walks over directories ([seal_directories], [reopen_directories],
    [remove_dir_all]) are single answers of the file system.

    Transactions of the control plane take effect one after the other: each
    locks the rows it decides on (the cluster lock, or the jobs and attempts in
    order) before it reads them, so that the order of the locks is the order of
    the model.  Clock readings of the database do not go backwards from one
    transaction to the next.  A JSON column holds the value it decodes to, and
    the query that scans the queue is modelled by what it returns.  Durations
    of the retry policy are unbounded integers: an admitted policy waits at most an
    hour, far from the end of Go's [int64].
    [EndToEnd] compares clocks of two machines: it takes the worker's clock to
    run at the rate of the database's, at an unknown offset.

    ** Not modelled

    The join of the three tasks of [run_profile], and the texts that are printed
    ([agent.rs], [main.rs]): the events are named calls; TLS set-up
    ([ControlClient::connect], a call whose answer is its outcome); the methods of
    [journal/asynchronous.rs] that only apply a modelled journal operation;
    [stage_inputs] ([dataset_assignment.rs]), which only tests call; formatting
    and conversion of errors for display.

    Of the control plane: uploads, log segments and multipart parts ([uploads.go],
    [artifacts.go], [log_segments.go], [multipart_parts.go],
    [multipart_completion.go] and their handlers).  Of the tables of ownership
    they change one column: recording an upload, a stored object or an artifact takes the next
    event number of its job, which histories admit as a step of any job at any
    time.  Nor are modelled: creation of sweeps, datasets and workers ([sweeps.go],
    [sweep_retry.go], [dataset_registration.go] but for the manifest's check,
    [workers.go]), which histories admit as steps that only add rows; the strict
    decoder [DecodeJob]; the TLS server ([NewServer]); the project API, CLI,
    client, listings and start-up ([api], [cli], [client], [cmd]), which decide
    nothing about ownership; the object store, a service. *)

From Stdlib Require Export NArith ZArith Lia String Ascii Strings.Byte.
From stdpp Require Export base tactics numbers list option strings gmap sorting.

Declare Scope dispatch_scope.
Delimit Scope dispatch_scope with dispatch.
Open Scope dispatch_scope.

(** * Fallible code

    Rust's [Result<A, E>]: every fallible function of the worker returns one,
    and [?] is [rbind]. *)

Inductive result (E A : Type) : Type :=
| Ok (a : A)
| Err (e : E).
Arguments Ok {E A} a.
Arguments Err {E A} e.

Definition rbind {E A B : Type} (m : result E A) (k : A -> result E B) : result E B :=
  match m with
  | Ok a => k a
  | Err e => Err e
  end.

Notation "'let?' x ':=' m 'in' k" := (rbind m (fun x => k))
  (at level 10, x name, m at level 100, k at level 200)
  : dispatch_scope.

Notation "'let?' ' p ':=' m 'in' k" := (rbind m (fun p => k))
  (at level 10, p strict pattern, m at level 100, k at level 200)
  : dispatch_scope.

(** [Option::ok_or] and [Result::map_err]. *)
Definition ok_or {E A : Type} (o : option A) (e : E) : result E A :=
  match o with
  | Some a => Ok a
  | None => Err e
  end.

Definition map_err {E F A : Type} (f : E -> F) (m : result E A) : result F A :=
  match m with
  | Ok a => Ok a
  | Err e => Err (f e)
  end.

Definition is_ok {E A : Type} (m : result E A) : bool :=
  match m with
  | Ok _ => true
  | Err _ => false
  end.

#[global] Instance result_eq_dec {E A : Type} `{EqDecision E} `{EqDecision A} :
  EqDecision (result E A).
Proof. solve_decision. Defined.

Lemma Ok_inj {E A : Type} (a b : A) : @Ok E A a = Ok b -> a = b.
Proof. by intros [= ->]. Qed.

Lemma rbind_Ok_inv {E A B : Type} (m : result E A) (k : A -> result E B) (b : B) :
  rbind m k = Ok b -> exists a, m = Ok a /\ k a = Ok b.
Proof. destruct m as [a|e]; simpl; intros H; [by exists a | done]. Qed.

Lemma ok_or_Ok_inv {E A : Type} (o : option A) (e : E) (a : A) :
  ok_or o e = Ok a -> o = Some a.
Proof. destruct o; simpl; congruence. Qed.

Lemma map_err_Ok_inv {E F A : Type} (f : E -> F) (m : result E A) (a : A) :
  map_err f m = Ok a -> m = Ok a.
Proof. destruct m; simpl; congruence. Qed.

(** [iter().map(f).collect::<Result<Vec<_>, _>>()] and a [for] loop whose body
    uses [?]: the first error ends both. *)
Fixpoint rmap {E A B : Type} (f : A -> result E B) (l : list A) : result E (list B) :=
  match l with
  | [] => Ok []
  | a :: l' => let? b := f a in let? bs := rmap f l' in Ok (b :: bs)
  end.

Fixpoint rfold {E A S : Type} (f : S -> A -> result E S) (s : S) (l : list A) : result E S :=
  match l with
  | [] => Ok s
  | a :: l' => let? s' := f s a in rfold f s' l'
  end.

Lemma rmap_Ok {E A B : Type} (f : A -> result E B) (l : list A) (bs : list B) :
  rmap f l = Ok bs <-> Forall2 (fun a b => f a = Ok b) l bs.
Proof.
  revert bs. induction l as [|a l IH]; intros bs; simpl; split.
  - intros [= <-]. constructor.
  - intros H. by inversion H.
  - intros H. apply rbind_Ok_inv in H as (b & Hb & H).
    apply rbind_Ok_inv in H as (bs' & Hbs & [= <-]). constructor; [done|]. by apply IH.
  - intros H. inversion H as [|? b ? bs' Hb Hbs]; subst. rewrite Hb. simpl.
    apply IH in Hbs. by rewrite Hbs.
Qed.

(** [&mut self] methods that return a [Result]: the state reached so far stays
    when an error is returned. *)
Definition st (S E A : Type) : Type := S -> result E A * S.

Definition st_ret {S E A : Type} (a : A) : st S E A := fun s => (Ok a, s).
Definition st_err {S E A : Type} (e : E) : st S E A := fun s => (Err e, s).
Definition st_lift {S E A : Type} (m : result E A) : st S E A := fun s => (m, s).
Definition st_gets {S E A : Type} (f : S -> A) : st S E A := fun s => (Ok (f s), s).
Definition st_modify {S E : Type} (f : S -> S) : st S E unit := fun s => (Ok tt, f s).

Definition st_bind {S E A B : Type} (m : st S E A) (k : A -> st S E B) : st S E B :=
  fun s =>
    match m s with
    | (Ok a, s') => k a s'
    | (Err e, s') => (Err e, s')
    end.

Notation "'let!' x ':=' m 'in' k" := (st_bind m (fun x => k))
  (at level 10, x name, m at level 100, k at level 200)
  : dispatch_scope.

Notation "'let!' ' p ':=' m 'in' k" := (st_bind m (fun p => k))
  (at level 10, p strict pattern, m at level 100, k at level 200)
  : dispatch_scope.

(** Hoare triples for [st]: from [P], an [Ok] result satisfies [Q] and an error
    leaves a state in [X]. *)
Definition triple {S E A : Type} (P : S -> Prop) (m : st S E A) (Q : A -> S -> Prop)
  (X : S -> Prop) : Prop :=
  forall s r s', P s -> m s = (r, s') -> match r with Ok a => Q a s' | Err _ => X s' end.

Lemma st_bind_Ok {S E A B : Type} (m : st S E A) (k : A -> st S E B) (s s' : S) (b : B) :
  st_bind m k s = (Ok b, s') -> exists a s1, m s = (Ok a, s1) /\ k a s1 = (Ok b, s').
Proof. unfold st_bind. destruct (m s) as [[a|e] s1]; [|done]. intros Hk. by exists a, s1. Qed.

Lemma triple_bind {S E A B : Type} (P : S -> Prop) (m : st S E A) (k : A -> st S E B)
  (R : A -> S -> Prop) (Q : B -> S -> Prop) (X : S -> Prop) :
  triple P m R X -> (forall a, triple (R a) (k a) Q X) -> triple P (st_bind m k) Q X.
Proof.
  intros Hm Hk s r s' Hs. unfold st_bind. destruct (m s) as [[a|e] s1] eqn:Hm1.
  - apply (Hm _ _ _ Hs) in Hm1. by apply Hk.
  - apply (Hm _ _ _ Hs) in Hm1. by intros [= <- <-].
Qed.

Lemma triple_conseq {S E A : Type} (P P' : S -> Prop) (m : st S E A) (Q Q' : A -> S -> Prop)
  (X : S -> Prop) :
  triple P' m Q' X -> (forall s, P s -> P' s) -> (forall a s, Q' a s -> Q a s) -> triple P m Q X.
Proof.
  intros Hm HP HQ s r s' Hs H. specialize (Hm s r s' (HP s Hs) H). destruct r; auto.
Qed.

Lemma triple_ret {S E A : Type} (P X : S -> Prop) (a : A) :
  triple P (st_ret a : st S E A) (fun b s => b = a /\ P s) X.
Proof. intros s r s' Hs [= <- <-]. done. Qed.

Lemma triple_err {S E A : Type} (P X : S -> Prop) (e : E) (Q : A -> S -> Prop) :
  (forall s, P s -> X s) -> triple P (st_err e) Q X.
Proof. intros HX s r s' Hs [= <- <-]. auto. Qed.

Lemma triple_lift {S E A : Type} (P X : S -> Prop) (m : result E A) :
  (forall s, P s -> X s) -> triple P (st_lift m) (fun a s => m = Ok a /\ P s) X.
Proof. intros HX s r s' Hs [= <- <-]. destruct m; auto. Qed.

Lemma triple_gets {S E A : Type} (P X : S -> Prop) (f : S -> A) :
  triple P (st_gets f : st S E A) (fun a s => a = f s /\ P s) X.
Proof. intros s r s' Hs [= <- <-]. done. Qed.

Lemma triple_modify {S E : Type} (P X : S -> Prop) (Q : S -> Prop) (f : S -> S) :
  (forall s, P s -> Q (f s)) -> triple P (st_modify f : st S E unit) (fun _ s => Q s) X.
Proof. intros Hf s r s' Hs [= <- <-]. auto. Qed.

(** * Stable sorting

    [sort_by] and [sort_by_key] are stable; insertion before the first element
    that is not smaller keeps equal elements in their order. *)
Section Sorting.
Context {A : Type} (leb : A -> A -> bool).

Fixpoint insert_by (x : A) (l : list A) : list A :=
  match l with
  | [] => [x]
  | y :: l' => if leb x y then x :: l else y :: insert_by x l'
  end.

Definition sort_by (l : list A) : list A := foldr insert_by [] l.

Lemma insert_by_Permutation (x : A) (l : list A) : insert_by x l ≡ₚ x :: l.
Proof.
  induction l as [|y l IH]; simpl; [done|]. destruct (leb x y); [done|].
  rewrite IH. apply Permutation_swap.
Qed.

Lemma sort_by_Permutation (l : list A) : sort_by l ≡ₚ l.
Proof.
  induction l as [|x l IH]; simpl; [done|]. rewrite insert_by_Permutation. by f_equiv.
Qed.

Context (leb_total : forall x y, leb x y = true \/ leb y x = true).
Context (leb_trans : forall x y z, leb x y = true -> leb y z = true -> leb x z = true).

Definition leb_rel (x y : A) : Prop := leb x y = true.

Lemma insert_by_Sorted (x : A) (l : list A) :
  StronglySorted leb_rel l -> StronglySorted leb_rel (insert_by x l).
Proof.
  induction 1 as [|y l Hs IH Hall]; simpl; [by repeat constructor|].
  destruct (leb x y) eqn:Hxy.
  - constructor; [by constructor|]. constructor; [done|].
    eapply Forall_impl; [exact Hall|]. intros z Hz. by eapply leb_trans.
  - constructor; [done|]. rewrite insert_by_Permutation. constructor; [|done].
    destruct (leb_total x y) as [H|H]; [congruence|done].
Qed.

Lemma sort_by_Sorted (l : list A) : StronglySorted leb_rel (sort_by l).
Proof. induction l as [|x l IH]; simpl; [constructor|]. by apply insert_by_Sorted. Qed.

(** Sorting equal multisets gives the same list when the order is antisymmetric. *)
Lemma sort_by_canonical (l k : list A) :
  (forall x y, x ∈ l -> y ∈ l -> leb x y = true -> leb y x = true -> x = y) ->
  l ≡ₚ k -> sort_by l = sort_by k.
Proof.
  intros Hanti Hp. pose proof (sort_by_Sorted l) as Hl. pose proof (sort_by_Sorted k) as Hk.
  assert (Hperm : sort_by l ≡ₚ sort_by k) by (by rewrite !sort_by_Permutation).
  assert (Hin : forall x, x ∈ sort_by l -> x ∈ l) by (intros x; by rewrite sort_by_Permutation).
  revert Hl Hk Hperm Hin. generalize (sort_by l) as a. generalize (sort_by k) as b.
  intros b a. revert b. induction a as [|x a IH]; intros b Ha Hb Hperm Hin.
  - by apply Permutation_nil_l in Hperm.
  - destruct b as [|y b]; [by apply Permutation_nil_r in Hperm|].
    apply StronglySorted_inv in Ha as [Ha1 Ha2]. apply StronglySorted_inv in Hb as [Hb1 Hb2].
    assert (Hx : x = y).
    { assert (x ∈ y :: b) as Hx by (rewrite <- Hperm; left).
      assert (y ∈ x :: a) as Hy by (rewrite Hperm; left).
      apply elem_of_cons in Hx as [->|Hx]; [done|]. apply elem_of_cons in Hy as [->|Hy]; [done|].
      rewrite Forall_forall in Ha2, Hb2.
      apply Hanti; [apply Hin; left|apply Hin; by right|by apply Ha2|by apply Hb2]. }
    subst y. f_equal. apply IH; try done.
    + by apply (inj (cons x)) in Hperm.
    + intros z Hz. apply Hin. by right.
Qed.
End Sorting.

(** * Machine integers

    Unsigned integers are [N], signed ones [Z].  Operators that can leave the
    width are written with their wrap-around or their checked form. *)

Definition U64_MAX : N := 18446744073709551615.
Definition U32_MAX : N := 4294967295.
Definition I64_MAX : N := 9223372036854775807.
Definition I32_MAX : N := 2147483647.

Definition wrap64 (x : N) : N := N.modulo x 18446744073709551616.
Definition wrap32 (x : N) : N := N.modulo x 4294967296.

(** [a + b] and [a - b] on [u64] in a release build. *)
Definition u64_add (a b : N) : N := wrap64 (a + b).
Definition u64_sub (a b : N) : N := wrap64 (a + 18446744073709551616 - b).

Definition u64_checked_add (a b : N) : option N :=
  if (a + b <=? U64_MAX)%N then Some (a + b)%N else None.

Definition checked_sub (a b : N) : option N :=
  if (b <=? a)%N then Some (a - b)%N else None.

Definition u64_saturating_add (a b : N) : N := N.min (a + b) U64_MAX.

(** [saturating_sub] on an unsigned type is [N]'s truncated subtraction. *)
Definition saturating_sub (a b : N) : N := (a - b)%N.

(** [u32::try_from] of a [u64]. *)
Definition u32_try_from (x : N) : option N :=
  if (x <=? U32_MAX)%N then Some x else None.

Lemma wrap64_small (x : N) : (x <= U64_MAX)%N -> wrap64 x = x.
Proof. unfold wrap64, U64_MAX. intros H. apply N.mod_small. lia. Qed.

Lemma u64_add_small (a b : N) : (a + b <= U64_MAX)%N -> u64_add a b = (a + b)%N.
Proof. apply wrap64_small. Qed.

Lemma u64_sub_small (a b : N) :
  (b <= a)%N -> (a <= U64_MAX)%N -> u64_sub a b = (a - b)%N.
Proof.
  unfold u64_sub, wrap64, U64_MAX. intros Hle Ha.
  replace (a + 18446744073709551616 - b)%N
    with ((a - b) + 1 * 18446744073709551616)%N by lia.
  rewrite N.Div0.mod_add. apply N.mod_small. lia.
Qed.

Lemma u64_checked_add_Some (a b c : N) :
  u64_checked_add a b = Some c <-> c = (a + b)%N /\ (a + b <= U64_MAX)%N.
Proof.
  unfold u64_checked_add. destruct (N.leb_spec (a + b) U64_MAX); split; try intros [-> ?]; try done; try lia.
  by intros [= <-].
Qed.

Lemma checked_sub_Some (a b c : N) :
  checked_sub a b = Some c <-> c = (a - b)%N /\ (b <= a)%N.
Proof. unfold checked_sub. destruct (N.leb_spec b a); split; try intros [-> ?]; try done; try lia.
  by intros [= <-]. Qed.

(** * Guards

    The sources write a validation as one disjunction of failing conditions.
    [bools] turns such boolean hypotheses and goals into propositions. *)

Lemma negb_eqb_false_N (a b : N) : negb (a =? b)%N = false <-> a = b.
Proof. rewrite negb_false_iff. apply N.eqb_eq. Qed.

Lemma bool_decide_negb_false (P : Prop) `{Decision P} :
  negb (bool_decide P) = false <-> P.
Proof. rewrite negb_false_iff. apply bool_decide_eq_true. Qed.

Create HintDb dispatch.
Create Rewrite HintDb dispatch.
Create Rewrite HintDb bools.

#[export] Hint Rewrite orb_false_iff orb_true_iff andb_true_iff andb_false_iff
  negb_true_iff negb_false_iff N.eqb_eq N.eqb_neq N.ltb_lt N.ltb_ge N.leb_le N.leb_gt
  Z.eqb_eq Z.eqb_neq Z.ltb_lt Z.ltb_ge Z.leb_le Z.leb_gt
  Nat.eqb_eq Nat.eqb_neq Nat.ltb_lt Nat.ltb_ge Nat.leb_le Nat.leb_gt
  String.eqb_eq String.eqb_neq @bool_decide_eq_true @bool_decide_eq_false
  : bools.

Ltac bools := autorewrite with bools in *.
Ltac bools_in H := autorewrite with bools in H.

(** [mono_step] inverts one level of a computation that returned [Ok]. *)
Ltac ok_inv :=
  repeat match goal with
  | H : rbind _ _ = Ok _ |- _ =>
      apply rbind_Ok_inv in H; destruct H as (? & ? & H)
  | H : ok_or _ _ = Ok _ |- _ => apply ok_or_Ok_inv in H
  | H : map_err _ _ = Ok _ |- _ => apply map_err_Ok_inv in H
  | H : Ok _ = Ok _ |- _ => apply Ok_inj in H
  | H : Err _ = Ok _ |- _ => discriminate H
  | H : Ok _ = Err _ |- _ => discriminate H
  end.

(** [guards] additionally splits the [if]s of a computation that returned [Ok]. *)
Ltac guards :=
  repeat (ok_inv;
    match goal with
    | H : (if ?b then Err _ else _) = Ok _ |- _ =>
        let E := fresh "Hguard" in destruct b eqn:E; [discriminate H|]
    | H : (if ?b then _ else Err _) = Ok _ |- _ =>
        let E := fresh "Hguard" in destruct b eqn:E; [|discriminate H]
    end); ok_inv.

(** * Two-element arrays

    [[A; 2]], indexed by the two output streams. *)
Record two (A : Type) : Type := Two { at0 : A; at1 : A }.
Arguments Two {A} at0 at1.
Arguments at0 {A} t.
Arguments at1 {A} t.

Definition get2 {A : Type} (second : bool) (t : two A) : A := if second then at1 t else at0 t.
Definition set2 {A : Type} (second : bool) (a : A) (t : two A) : two A :=
  if second then Two (at0 t) a else Two a (at1 t).

Lemma get2_set2 {A : Type} (i : bool) (a : A) (t : two A) : get2 i (set2 i a t) = a.
Proof. by destruct i. Qed.

Lemma get2_set2_ne {A : Type} (i j : bool) (a : A) (t : two A) :
  i <> j -> get2 i (set2 j a t) = get2 i t.
Proof. by destruct i, j. Qed.

(** * Bytes and strings

    A Rust [&str] or [String] is its bytes: Stdlib's [string].  A [Vec<u8>] is
    [list byte]. *)

Abbreviation bytes := (list byte).

Definition str_bytes (s : string) : bytes := list_byte_of_string s.
Definition str_len (s : string) : N := N.of_nat (String.length s).
Definition len {A : Type} (l : list A) : N := N.of_nat (List.length l).

Lemma len_app {A : Type} (l k : list A) : len (l ++ k) = (len l + len k)%N.
Proof. unfold len. rewrite length_app. lia. Qed.

Definition is_empty_str (s : string) : bool := bool_decide (s = EmptyString).

Definition byte_val (b : byte) : N := Byte.to_N b.

Definition in_range (lo hi x : N) : bool := ((lo <=? x) && (x <=? hi))%N.

Definition is_ascii_digit (b : byte) : bool := in_range 48 57 (byte_val b).
Definition is_ascii_lower_hex (b : byte) : bool := in_range 97 102 (byte_val b).
Definition is_ascii_alphabetic (b : byte) : bool :=
  in_range 65 90 (byte_val b) || in_range 97 122 (byte_val b).
Definition is_ascii_alphanumeric (b : byte) : bool :=
  is_ascii_digit b || is_ascii_alphabetic b.

Definition byte_of_N (x : N) : byte := default "000"%byte (Byte.of_N (N.modulo x 256)).

Lemma byte_val_bound (b : byte) : (byte_val b < 256)%N.
Proof. unfold byte_val. pose proof (Byte.to_N_bounded b). lia. Qed.

Lemma byte_val_of_N (x : N) : byte_val (byte_of_N x) = N.modulo x 256.
Proof.
  unfold byte_val, byte_of_N.
  destruct (Byte.of_N (N.modulo x 256)) as [b|] eqn:E; simpl.
  - by apply Byte.to_of_N.
  - apply Byte.of_N_None_iff in E.
    pose proof (N.mod_lt x 256 ltac:(done)). lia.
Qed.

(** [to_be_bytes] of a [k]-byte unsigned integer and its inverse. *)
Fixpoint to_be_bytes (k : nat) (x : N) : bytes :=
  match k with
  | O => []
  | S k' => byte_of_N (x / 256 ^ N.of_nat k') :: to_be_bytes k' x
  end.

Definition from_be_bytes (l : bytes) : N :=
  fold_left (fun acc b => (acc * 256 + byte_val b)%N) l 0%N.

Lemma length_to_be_bytes (k : nat) (x : N) : List.length (to_be_bytes k x) = k.
Proof. induction k; simpl; congruence. Qed.

Lemma from_be_bytes_acc (l : bytes) (acc : N) :
  fold_left (fun a b => (a * 256 + byte_val b)%N) l acc
  = (acc * 256 ^ N.of_nat (List.length l) + from_be_bytes l)%N.
Proof.
  unfold from_be_bytes. revert acc.
  induction l as [|b l IH]; intros acc; cbn [fold_left List.length].
  - simpl. lia.
  - rewrite IH, (IH (0 * 256 + byte_val b)%N), Nat2N.inj_succ, N.pow_succ_r'. lia.
Qed.

Lemma from_to_be_bytes (k : nat) (x : N) :
  from_be_bytes (to_be_bytes k x) = N.modulo x (256 ^ N.of_nat k).
Proof.
  induction k as [|k IH]; [simpl; by rewrite N.mod_1_r|].
  cbn [to_be_bytes]. unfold from_be_bytes. cbn [fold_left].
  rewrite from_be_bytes_acc, IH, length_to_be_bytes, byte_val_of_N.
  rewrite Nat2N.inj_succ, N.pow_succ_r', (N.mul_comm 256).
  rewrite (N.Div0.mod_mul_r x). lia.
Qed.

Lemma from_to_be_bytes_small (k : nat) (x : N) :
  (x < 256 ^ N.of_nat k)%N -> from_be_bytes (to_be_bytes k x) = x.
Proof. intros H. rewrite from_to_be_bytes. by apply N.mod_small. Qed.

#[export] Hint Rewrite length_to_be_bytes : dispatch.

(** [format!("{byte:02x}")] of each byte: the hexadecimal digest strings. *)
Definition hex_digit (x : N) : ascii :=
  ascii_of_N (if (x <? 10)%N then 48 + x else 87 + x)%N.

Fixpoint hex (l : bytes) : string :=
  match l with
  | [] => EmptyString
  | b :: l' =>
      String (hex_digit (byte_val b / 16)) (String (hex_digit (N.modulo (byte_val b) 16)) (hex l'))
  end.
