(* ===== verification/Strings.v ===== *)
(** Facts on [&str] methods the validators use: [split] on a character, the
    byte order of strings, and characters allowed in names. *)

From S2P Require Import Prelude.

(** [str::split(char)] on an ASCII separator: never empty, the pieces between. *)
Fixpoint split_on (c : ascii) (s : string) : list string :=
  match s with
  | EmptyString => [EmptyString]
  | String a s' =>
      if bool_decide (a = c) then EmptyString :: split_on c s'
      else match split_on c s' with
           | [] => [String a EmptyString]
           | p :: ps => String a p :: ps
           end
  end.

(** The inverse: pieces joined by the separator. *)
Fixpoint join_with (c : ascii) (parts : list string) : string :=
  match parts with
  | [] => EmptyString
  | [p] => p
  | p :: ps => p +:+ String c (join_with c ps)
  end.

Fixpoint contains (c : ascii) (s : string) : bool :=
  match s with
  | EmptyString => false
  | String a s' => bool_decide (a = c) || contains c s'
  end.

Lemma split_on_nonempty (c : ascii) (s : string) : split_on c s <> [].
Proof. destruct s as [|a s]; simpl; [done|]. case_bool_decide; [done|]. by destruct (split_on c s). Qed.

Lemma join_split (c : ascii) (s : string) : join_with c (split_on c s) = s.
Proof.
  induction s as [|a s IH]; [done|]. cbn [split_on].
  pose proof (split_on_nonempty c s). case_bool_decide as Hc.
  - subst a. destruct (split_on c s) as [|p ps]; [done|]. cbn [join_with] in *. by rewrite IH.
  - destruct (split_on c s) as [|p ps]; [done|].
    assert (join_with c (String a p :: ps) = String a (join_with c (p :: ps))) as -> by (by destruct ps).
    by rewrite IH.
Qed.

Lemma split_on_plain (c : ascii) (p : string) : contains c p = false -> split_on c p = [p].
Proof.
  induction p as [|a p IH]; simpl; [done|]. intros H. bools. destruct H as [Ha Hp].
  rewrite bool_decide_false by done. by rewrite IH.
Qed.

Lemma split_on_app (c : ascii) (p s : string) :
  contains c p = false -> split_on c (p +:+ String c s) = p :: split_on c s.
Proof.
  induction p as [|a p IH]; simpl; intros H.
  - by rewrite bool_decide_true.
  - bools. destruct H as [Ha Hp]. rewrite bool_decide_false by done. by rewrite IH.
Qed.

Lemma split_join (c : ascii) (parts : list string) :
  parts <> [] -> Forall (fun p => contains c p = false) parts ->
  split_on c (join_with c parts) = parts.
Proof.
  induction parts as [|p ps IH]; [done|]. intros _ Hall. apply Forall_cons in Hall as [Hp Hps].
  destruct ps as [|q ps]; [by apply split_on_plain|].
  change (join_with c (p :: q :: ps)) with (p +:+ String c (join_with c (q :: ps))).
  rewrite split_on_app by done. by rewrite IH.
Qed.

(** A byte predicate that rejects [c] keeps [c] out. *)
Lemma forallb_bytes_contains (f : byte -> bool) (c : ascii) (s : string) :
  forallb f (str_bytes s) = true -> f (byte_of_ascii c) = false -> contains c s = false.
Proof.
  intros Hall Hc. induction s as [|a s IH]; [done|].
  unfold str_bytes, list_byte_of_string in *. simpl in *. apply andb_true_iff in Hall as [Ha Hs].
  rewrite IH by done. rewrite orb_false_r. apply bool_decide_eq_false. congruence.
Qed.

(** * The order of strings *)

Lemma string_compare_refl (s : string) : String.compare s s = Eq.
Proof. induction s as [|a s IH]; simpl; [done|]. unfold Ascii.compare. by rewrite N.compare_refl. Qed.

Lemma ascii_compare_trans (c : comparison) (x y z : ascii) :
  Ascii.compare x y = c -> Ascii.compare y z = c -> Ascii.compare x z = c.
Proof.
  unfold Ascii.compare. destruct c; rewrite ?N.compare_eq_iff, ?N.compare_lt_iff, ?N.compare_gt_iff; lia.
Qed.

Lemma string_compare_lt_trans (x y z : string) :
  String.compare x y = Lt -> String.compare y z = Lt -> String.compare x z = Lt.
Proof.
  revert y z. induction x as [|a x IH]; intros [|b y] [|c z]; simpl; try done.
  destruct (Ascii.compare a b) eqn:E1; try done; destruct (Ascii.compare b c) eqn:E2; try done;
    intros H1 H2.
  - apply Ascii.compare_eq_iff in E1 as ->. rewrite E2. by eapply IH.
  - apply Ascii.compare_eq_iff in E1 as ->. by rewrite E2.
  - apply Ascii.compare_eq_iff in E2 as ->. by rewrite E1.
  - by rewrite (ascii_compare_trans Lt a b c).
Qed.

Definition str_leb (x y : string) : bool := String.leb x y.
Definition str_ltb (x y : string) : bool := String.ltb x y.

Lemma str_ltb_compare (x y : string) : str_ltb x y = true <-> String.compare x y = Lt.
Proof. unfold str_ltb, String.ltb. by destruct (String.compare x y). Qed.

Lemma str_leb_compare (x y : string) : str_leb x y = true <-> String.compare x y = Lt \/ x = y.
Proof.
  unfold str_leb, String.leb. destruct (String.compare x y) eqn:E.
  - apply String.compare_eq_iff in E. naive_solver.
  - naive_solver.
  - split; [done|]. intros [?| ->]; [done|]. by rewrite string_compare_refl in E.
Qed.

Lemma str_ltb_trans (x y z : string) : str_ltb x y = true -> str_ltb y z = true -> str_ltb x z = true.
Proof. rewrite !str_ltb_compare. apply string_compare_lt_trans. Qed.

Lemma str_ltb_irrefl (x : string) : str_ltb x x = false.
Proof. unfold str_ltb, String.ltb. by rewrite string_compare_refl. Qed.

Lemma str_leb_total (x y : string) : str_leb x y = true \/ str_leb y x = true.
Proof.
  rewrite !str_leb_compare. destruct (String.compare x y) eqn:E.
  - apply String.compare_eq_iff in E. auto.
  - auto.
  - right. left. rewrite String.compare_antisym, E. done.
Qed.

Lemma str_leb_trans (x y z : string) : str_leb x y = true -> str_leb y z = true -> str_leb x z = true.
Proof.
  rewrite !str_leb_compare. intros [H1| ->] [H2| ->]; auto.
  left. by eapply string_compare_lt_trans.
Qed.

Lemma str_leb_antisym (x y : string) : str_leb x y = true -> str_leb y x = true -> x = y.
Proof.
  rewrite !str_leb_compare. intros [H1|H1] [H2|H2]; try congruence.
  by rewrite String.compare_antisym, H1 in H2.
Qed.

Lemma str_ltb_leb (x y : string) : str_ltb x y = negb (str_leb y x).
Proof.
  unfold str_ltb, str_leb, String.ltb, String.leb. rewrite (String.compare_antisym x y).
  by destruct (String.compare y x).
Qed.

(** * Adjacent pairs: [slice::windows(2)] *)
Definition windows2 {A : Type} (l : list A) : list (A * A) := zip l (tail l).

Lemma windows2_cons {A : Type} (x y : A) (l : list A) :
  windows2 (x :: y :: l) = (x, y) :: windows2 (y :: l).
Proof. done. Qed.

(** A sorted list none of whose neighbours clash has no clash at all. *)
Lemma windows2_Sorted {A : Type} (R : A -> A -> Prop) (clash : A * A -> bool) (l : list A) :
  StronglySorted R l -> existsb clash (windows2 l) = false ->
  Sorted (fun x y => R x y /\ clash (x, y) = false) l.
Proof.
  induction l as [|x l IH]; intros Hs Hw; [constructor|].
  apply StronglySorted_inv in Hs as [Hs Hall]. destruct l as [|y l]; [by repeat constructor|].
  rewrite windows2_cons in Hw. simpl in Hw. apply orb_false_iff in Hw as [Hxy Hw].
  apply Forall_cons in Hall as [Hx _]. constructor; [by apply IH|]. by constructor.
Qed.

Lemma Sorted_weaken {A : Type} (R T : A -> A -> Prop) (l : list A) :
  (forall x y, x ∈ l -> y ∈ l -> R x y -> T x y) -> Sorted R l -> Sorted T l.
Proof.
  intros HRT. induction 1 as [|x l Hs IH Hhd]; constructor.
  - apply IH. intros y z Hy Hz. apply HRT; by right.
  - destruct Hhd as [|y l Hy]; constructor. apply HRT; [left|right; left|done].
Qed.

(** * Characters

    [str::chars]: the code points of a valid UTF-8 string. *)
Fixpoint chars (l : bytes) : list N :=
  match l with
  | [] => []
  | b :: l1 =>
      if byte_val b <? 128 then byte_val b :: chars l1
      else match l1 with
      | [] => []
      | c1 :: l2 =>
          if byte_val b <? 224 then
            ((byte_val b - 192) * 64 + (byte_val c1 - 128)) :: chars l2
          else match l2 with
          | [] => []
          | c2 :: l3 =>
              if byte_val b <? 240 then
                ((byte_val b - 224) * 4096 + (byte_val c1 - 128) * 64 + (byte_val c2 - 128))
                :: chars l3
              else match l3 with
              | [] => []
              | c3 :: l4 =>
                  ((byte_val b - 240) * 262144 + (byte_val c1 - 128) * 4096
                   + (byte_val c2 - 128) * 64 + (byte_val c3 - 128)) :: chars l4
              end
          end
      end
  end%N.

(** [char::is_control]: general category Cc; [char::is_whitespace]: the
    Unicode property White_Space. *)
Definition is_control (c : N) : bool := in_range 0 31 c || in_range 127 159 c.

Definition is_whitespace (c : N) : bool :=
  in_range 9 13 c || bool_decide (c ∈ [32; 133; 160; 5760; 8232; 8233; 8239; 8287; 12288]%N)
  || in_range 8192 8202 c.

(** [str::strip_prefix] and [str::rsplit_once]. *)
Fixpoint strip_prefix (p s : string) : option string :=
  match p, s with
  | EmptyString, _ => Some s
  | String a p', String b s' => if bool_decide (a = b) then strip_prefix p' s' else None
  | String _ _, EmptyString => None
  end.

Definition starts_with (p s : string) : bool :=
  match strip_prefix p s with
  | Some _ => true
  | None => false
  end.

Fixpoint rsplit_once (p s : string) : option (string * string) :=
  match (match s with
         | EmptyString => None
         | String a s' =>
             match rsplit_once p s' with
             | Some (before, after) => Some (String a before, after)
             | None => None
             end
         end) with
  | Some r => Some r
  | None =>
      match strip_prefix p s with
      | Some rest => Some (EmptyString, rest)
      | None => None
      end
  end.

Lemma strip_prefix_Some (p s rest : string) : strip_prefix p s = Some rest <-> s = p +:+ rest.
Proof.
  revert s. induction p as [|a p IH]; intros s.
  - split; [by intros [= ->]|by intros ->].
  - destruct s as [|b s]; [done|]. cbn [strip_prefix].
    change (String a p +:+ rest) with (String a (p +:+ rest)).
    case_bool_decide as Hab; [subst b; rewrite IH|]; naive_solver.
Qed.

(** * Paths as component lists *)

Lemma append_assoc_str (a b c : string) : (a +:+ b) +:+ c = a +:+ (b +:+ c).
Proof. induction a as [|x a IH]; [done|]. exact (f_equal (String x) IH). Qed.

Lemma split_on_join_app (c : ascii) (a b : string) :
  split_on c (a +:+ String c b) = split_on c a ++ split_on c b.
Proof.
  induction a as [|x a IH]; simpl.
  - by rewrite bool_decide_true.
  - pose proof (split_on_nonempty c a). rewrite IH. case_bool_decide; [done|].
    by destruct (split_on c a).
Qed.

Lemma join_with_app (c : ascii) (l k : list string) :
  l <> [] -> k <> [] -> join_with c (l ++ k) = join_with c l +:+ String c (join_with c k).
Proof.
  induction l as [|p l IH]; [done|]. intros _ Hk. destruct l as [|q l].
  - simpl. by destruct k.
  - change (join_with c ((p :: q :: l) ++ k)) with (p +:+ String c (join_with c ((q :: l) ++ k))).
    rewrite IH by done.
    change (join_with c (p :: q :: l)) with (p +:+ String c (join_with c (q :: l))).
    by rewrite append_assoc_str.
Qed.

(** [b] names an ancestor of [a] (or [a] itself) exactly when its components
    are a prefix of those of [a]. *)
Lemma split_prefix (c : ascii) (a b : string) :
  split_on c b `prefix_of` split_on c a <-> a = b \/ exists r, a = b +:+ String c r.
Proof.
  split.
  - intros [k Hk]. pose proof (split_on_nonempty c b).
    rewrite <- (join_split c a), Hk. destruct k as [|p k].
    + left. by rewrite app_nil_r, join_split.
    + right. exists (join_with c (p :: k)). by rewrite join_with_app, join_split.
  - intros [-> | [r ->]]; [done|]. rewrite split_on_join_app. by exists (split_on c r).
Qed.

(** [str::strip_suffix]. *)
Fixpoint strip_suffix (suffix s : string) : option string :=
  if bool_decide (s = suffix) then Some EmptyString
  else match s with
  | EmptyString => None
  | String a s' =>
      match strip_suffix suffix s' with
      | Some rest => Some (String a rest)
      | None => None
      end
  end.

Lemma strip_suffix_Some (suffix s rest : string) :
  strip_suffix suffix s = Some rest -> s = rest +:+ suffix.
Proof.
  revert rest. induction s as [|a s IH]; intros rest; cbn [strip_suffix]; case_bool_decide as Heq.
  - intros [= <-]. by rewrite <- Heq.
  - done.
  - intros [= <-]. by rewrite <- Heq.
  - destruct (strip_suffix suffix s) as [r|]; [|done]. intros [= <-].
    exact (f_equal (String a) (IH r eq_refl)).
Qed.

Lemma append_length_str (a b : string) :
  String.length (a +:+ b) = (String.length a + String.length b)%nat.
Proof. induction a as [|x a IH]; [done|]. exact (f_equal S IH). Qed.

Lemma strip_suffix_app (suffix s : string) : strip_suffix suffix (s +:+ suffix) = Some s.
Proof.
  induction s as [|a s IH].
  - change (EmptyString +:+ suffix) with suffix. destruct suffix; cbn [strip_suffix]; by rewrite bool_decide_true.
  - change (String a s +:+ suffix) with (String a (s +:+ suffix)). cbn [strip_suffix].
    rewrite bool_decide_false, IH; [done|]. intros H.
    apply (f_equal String.length) in H. simpl in H. rewrite append_length_str in H. lia.
Qed.

Lemma append_inj_r (suffix a b : string) : a +:+ suffix = b +:+ suffix -> a = b.
Proof.
  intros H. apply (f_equal (strip_suffix suffix)) in H. rewrite !strip_suffix_app in H.
  by injection H.
Qed.
