(* ===== verification/Os.v ===== *)
(** What the worker sees of the operating system: error kinds and file
    metadata ([std::io::ErrorKind], [std::fs::Metadata]).  The answer of a
    system call is always an argument of the operation that makes it. *)

From S2P Require Import Prelude.

(** [std::io::ErrorKind], as far as the worker's own calls produce one. *)
Inductive ErrorKind : Type :=
| NotFound | AlreadyExists | PermissionDenied | WouldBlock | StorageFull | OtherKind.

#[global] Instance ErrorKind_eq_dec : EqDecision ErrorKind.
Proof. solve_decision. Defined.

Abbreviation files := (gmap string bytes).
Abbreviation io := (result ErrorKind unit).

(** What [fstat] reports. *)
Record Metadata := {
  is_file : bool;
  is_dir : bool;
  uid : N;
  mode : N;
  nlink : N;
  st_size : N;
}.
