(* ===== verification/Protocol.v ===== *)
(** The wire messages of [proto/dispatch/worker/v1/worker.proto] as the Rust
    worker sees them (prost's generated structs, crate [dispatch-protocol]): a
    message is a record, an enumeration field is the raw [i32] of the wire with
    its [try_from], [repeated] is a list, [optional] and sub-messages are
    options, [map<string,string>] is a finite map. *)

From S2P Require Import Prelude.

(** * Enumerations *)

Module AttemptState.
Inductive t : Type :=
| Unspecified | Assigned | Starting | Running | Finalizing
| Succeeded | Failed | Lost | Cancelled.

#[global] Instance eq_dec : EqDecision t.
Proof. solve_decision. Defined.

Definition to_i32 (s : t) : Z :=
  match s with
  | Unspecified => 0 | Assigned => 1 | Starting => 2 | Running => 3 | Finalizing => 4
  | Succeeded => 5 | Failed => 6 | Lost => 7 | Cancelled => 8
  end.

Definition try_from (x : Z) : option t :=
  match x with
  | 0 => Some Unspecified | 1 => Some Assigned | 2 => Some Starting | 3 => Some Running
  | 4 => Some Finalizing | 5 => Some Succeeded | 6 => Some Failed | 7 => Some Lost
  | 8 => Some Cancelled | _ => None
  end%Z.

Lemma state_try_from_Some (x : Z) (s : t) : try_from x = Some s -> x = to_i32 s.
Proof. unfold try_from, to_i32. intros H. repeat case_match; simplify_eq; lia. Qed.

#[global] Instance to_i32_inj : Inj (=) (=) to_i32.
Proof. intros [] []; done. Qed.
End AttemptState.

Module FailureReason.
Inductive t : Type :=
| Unspecified | WorkerLost | RuntimeUnavailable | TransferFailed | ApplicationExit | Oom
| StartupTimeout | ExecutionTimeout | OutputInvalid | UserCancelled | FinalizationTimeout.

#[global] Instance eq_dec : EqDecision t.
Proof. solve_decision. Defined.

Definition to_i32 (r : t) : Z :=
  match r with
  | Unspecified => 0 | WorkerLost => 1 | RuntimeUnavailable => 2 | TransferFailed => 3
  | ApplicationExit => 4 | Oom => 5 | StartupTimeout => 6 | ExecutionTimeout => 7
  | OutputInvalid => 8 | UserCancelled => 9 | FinalizationTimeout => 10
  end.

Definition try_from (x : Z) : option t :=
  match x with
  | 0 => Some Unspecified | 1 => Some WorkerLost | 2 => Some RuntimeUnavailable
  | 3 => Some TransferFailed | 4 => Some ApplicationExit | 5 => Some Oom
  | 6 => Some StartupTimeout | 7 => Some ExecutionTimeout | 8 => Some OutputInvalid
  | 9 => Some UserCancelled | 10 => Some FinalizationTimeout | _ => None
  end%Z.

(** [as_str_name]: the name of the enumerator in the proto file. *)
Definition as_str_name (r : t) : string :=
  match r with
  | Unspecified => "FAILURE_REASON_UNSPECIFIED"
  | WorkerLost => "WORKER_LOST"
  | RuntimeUnavailable => "RUNTIME_UNAVAILABLE"
  | TransferFailed => "TRANSFER_FAILED"
  | ApplicationExit => "APPLICATION_EXIT"
  | Oom => "OOM"
  | StartupTimeout => "STARTUP_TIMEOUT"
  | ExecutionTimeout => "EXECUTION_TIMEOUT"
  | OutputInvalid => "OUTPUT_INVALID"
  | UserCancelled => "USER_CANCELLED"
  | FinalizationTimeout => "FINALIZATION_TIMEOUT"
  end%string.

End FailureReason.

Module Decision_.
Inductive t : Type := Unspecified | Accepted | Fenced | StopRequested | AlreadyTerminal.

#[global] Instance eq_dec : EqDecision t.
Proof. solve_decision. Defined.

Definition to_i32 (d : t) : Z :=
  match d with
  | Unspecified => 0 | Accepted => 1 | Fenced => 2 | StopRequested => 3 | AlreadyTerminal => 4
  end.

Definition try_from (x : Z) : option t :=
  match x with
  | 0 => Some Unspecified | 1 => Some Accepted | 2 => Some Fenced
  | 3 => Some StopRequested | 4 => Some AlreadyTerminal | _ => None
  end%Z.

Lemma decision_try_from_Some (x : Z) (d : t) : try_from x = Some d -> x = to_i32 d.
Proof. unfold try_from, to_i32. intros H. repeat case_match; simplify_eq; lia. Qed.
End Decision_.

Module NoWorkReason.
Inductive t : Type :=
| Unspecified | QueueEmpty | NoResourceFit | ProjectQuota | SweepConcurrency
| PlacementMismatch | WorkerNotReady.

#[global] Instance eq_dec : EqDecision t.
Proof. solve_decision. Defined.

Definition try_from (x : Z) : option t :=
  match x with
  | 0 => Some Unspecified | 1 => Some QueueEmpty | 2 => Some NoResourceFit
  | 3 => Some ProjectQuota | 4 => Some SweepConcurrency | 5 => Some PlacementMismatch
  | 6 => Some WorkerNotReady | _ => None
  end%Z.
End NoWorkReason.

Module ArtifactKind.
Inductive t : Type := Unspecified | Output | Log | Manifest.

#[global] Instance eq_dec : EqDecision t.
Proof. solve_decision. Defined.

Definition to_i32 (k : t) : Z :=
  match k with
  | Unspecified => 0 | Output => 1 | Log => 2 | Manifest => 3
  end.

Definition try_from (x : Z) : option t :=
  match x with
  | 0 => Some Unspecified | 1 => Some Output | 2 => Some Log | 3 => Some Manifest
  | _ => None
  end%Z.
End ArtifactKind.

Module LogStream.
Inductive t : Type := Unspecified | Stdout | Stderr.

#[global] Instance eq_dec : EqDecision t.
Proof. solve_decision. Defined.

Definition to_i32 (s : t) : Z :=
  match s with
  | Unspecified => 0 | Stdout => 1 | Stderr => 2
  end.

Definition try_from (x : Z) : option t :=
  match x with
  | 0 => Some Unspecified | 1 => Some Stdout | 2 => Some Stderr | _ => None
  end%Z.

Lemma stream_try_from_to_i32 (s : t) : try_from (to_i32 s) = Some s.
Proof. by destruct s. Qed.

#[global] Instance to_i32_inj : Inj (=) (=) to_i32.
Proof. intros [] []; done. Qed.
End LogStream.

(** * Messages *)

Record WorkerSession := {
  ws_worker_id : string;
  ws_session_id : string;
}.

Record AttemptAuthority := {
  aa_job_id : string;
  aa_attempt_id : string;
  aa_generation : N;
  aa_worker_id : string;
  aa_session_id : string;
}.

Record Resources := {
  rs_cpu_millis : N;
  rs_memory_bytes : N;
  rs_scratch_bytes : N;
}.

Record MutationResponse := {
  mr_decision : Z;
  mr_state : Z;
}.

Record ObjectVersion := {
  ov_key : string;
  ov_version_id : string;
  ov_size_bytes : N;
  ov_sha256 : string;
}.

Record InputManifest := {
  im_dataset_id : string;
  im_mount_path : string;
  im_archive : option ObjectVersion;
  im_file_manifest_json : bytes;
  im_download_url : string;
  im_expires_unix_ms : Z;
  im_dataset_name : string;
}.

Record Assignment := {
  as_authority : option AttemptAuthority;
  as_image_digest : string;
  as_argv : list string;
  as_resources : option Resources;
  as_canonical_job_spec_json : bytes;
  as_spec_sha256 : string;
  as_lease_duration_ms : N;
  as_server_time_unix_ms : Z;
  as_phase_remaining_ms : N;
  as_inputs : list InputManifest;
}.

Record RegisterWorkerRequest := {
  rw_worker_id : string;
  rw_request_id : string;
  rw_requested_session_id : string;
  rw_protocol_version : N;
  rw_allocatable : option Resources;
  rw_execution_slots : N;
  rw_labels : gmap string string;
  rw_capabilities : list string;
}.

Record RegisterWorkerResponse := {
  rr_session : option WorkerSession;
  rr_session_generation : N;
  rr_protocol_version : N;
  rr_cleanup_required : bool;
}.

Record ExecutionInventory := {
  ei_authority : option AttemptAuthority;
  ei_container_id : string;
  ei_running : bool;
}.

Record HeartbeatRequest := {
  hb_session : option WorkerSession;
  hb_request_id : string;
  hb_runtime_healthy : bool;
  hb_disk_pressure : bool;
  hb_reconciliation_complete : bool;
  hb_inventory : list ExecutionInventory;
  hb_report_sequence : N;
}.

Record HeartbeatResponse := {
  hr_drain : bool;
  hr_reconcile : bool;
  hr_stop : list AttemptAuthority;
}.

Record AcquireWorkRequest := {
  aw_session : option WorkerSession;
  aw_request_id : string;
}.

Inductive AcquireOutcome : Type :=
| OutcomeAssignment (a : Assignment)
| OutcomeNoWork (reason : Z)
| OutcomeRejected (decision : Z).

Record ListAssignmentsRequest := {
  la_session : option WorkerSession;
  la_page_size : N;
  la_after_job_id : string;
}.

Record ListAssignmentsResponse := {
  lr_assignments : list Assignment;
  lr_next_after_job_id : string;
}.

Record ReportPhaseRequest := {
  rp_authority : option AttemptAuthority;
  rp_event_id : string;
  rp_phase : Z;
  rp_container_id : string;
  rp_exit_code : option Z;
}.

Record RenewLeasesRequest := {
  rl_session : option WorkerSession;
  rl_request_id : string;
  rl_attempts : list AttemptAuthority;
}.

Record LeaseResult := {
  lres_authority : option AttemptAuthority;
  lres_decision : Z;
  lres_remaining_ms : N;
  lres_server_time_unix_ms : Z;
  lres_phase_remaining_ms : N;
}.

Record CreateUploadRequest := {
  cu_authority : option AttemptAuthority;
  cu_request_id : string;
  cu_name : string;
  cu_kind : Z;
  cu_size_bytes : N;
  cu_sha256 : string;
  cu_part_count : N;
  cu_part_size_bytes : N;
}.

Record GrantUploadPartRequest := {
  gp_authority : option AttemptAuthority;
  gp_upload_id : string;
  gp_number : N;
  gp_sha256 : string;
}.

Record UploadPart := {
  up_number : N;
  up_url : string;
  up_required_headers : gmap string string;
  up_expires_unix_ms : Z;
}.

Record CreateUploadResponse := {
  cr_upload_id : string;
  cr_object_key : string;
  cr_upload_url : string;
  cr_required_headers : gmap string string;
  cr_expires_unix_ms : Z;
  cr_parts : list UploadPart;
  cr_part_size_bytes : N;
  cr_part_count : N;
}.

Record CompletedPart := {
  cp_number : N;
  cp_etag : string;
  cp_sha256 : string;
}.

Record FinalizeUploadRequest := {
  fu_authority : option AttemptAuthority;
  fu_request_id : string;
  fu_upload_id : string;
  fu_object : option ObjectVersion;
  fu_parts : list CompletedPart;
}.

Record FinalizeUploadResponse := {
  fr_artifact_id : string;
  fr_object : option ObjectVersion;
}.

Record LogGap := {
  lg_stream : Z;
  lg_first_sequence : N;
  lg_last_sequence : N;
}.

Record RegisterLogSegmentRequest := {
  rg_authority : option AttemptAuthority;
  rg_request_id : string;
  rg_artifact_id : string;
  rg_stream : Z;
  rg_first_sequence : N;
  rg_last_sequence : N;
  rg_gaps : list LogGap;
}.

Record OutputReference := {
  or_name : string;
  or_artifact_id : string;
}.

Record CompleteAttemptRequest := {
  ca_authority : option AttemptAuthority;
  ca_completion_id : string;
  ca_payload_sha256 : string;
  ca_exit_code : option Z;
  ca_reason : Z;
  ca_stopped : bool;
  ca_outputs : list OutputReference;
  ca_logs_complete : bool;
  ca_gaps : list LogGap;
  ca_metrics_json : bytes;
}.

Record CompleteAttemptResponse := {
  cs_decision : Z;
  cs_state : Z;
  cs_accepted_manifest_json : bytes;
}.

#[global] Instance byte_eq_dec : EqDecision byte := Byte.byte_eq_dec.
#[global] Instance WorkerSession_eq_dec : EqDecision WorkerSession.
Proof. solve_decision. Defined.
#[global] Instance AttemptAuthority_eq_dec : EqDecision AttemptAuthority.
Proof. solve_decision. Defined.
#[global] Instance Resources_eq_dec : EqDecision Resources.
Proof. solve_decision. Defined.
#[global] Instance ObjectVersion_eq_dec : EqDecision ObjectVersion.
Proof. solve_decision. Defined.
#[global] Instance InputManifest_eq_dec : EqDecision InputManifest.
Proof. solve_decision. Defined.
#[global] Instance Assignment_eq_dec : EqDecision Assignment.
Proof. solve_decision. Defined.
#[global] Instance ReportPhaseRequest_eq_dec : EqDecision ReportPhaseRequest.
Proof. solve_decision. Defined.
#[global] Instance RenewLeasesRequest_eq_dec : EqDecision RenewLeasesRequest.
Proof. solve_decision. Defined.
#[global] Instance CreateUploadRequest_eq_dec : EqDecision CreateUploadRequest.
Proof. solve_decision. Defined.
#[global] Instance CompletedPart_eq_dec : EqDecision CompletedPart.
Proof. solve_decision. Defined.
#[global] Instance FinalizeUploadRequest_eq_dec : EqDecision FinalizeUploadRequest.
Proof. solve_decision. Defined.
#[global] Instance FinalizeUploadResponse_eq_dec : EqDecision FinalizeUploadResponse.
Proof. solve_decision. Defined.
#[global] Instance LogGap_eq_dec : EqDecision LogGap.
Proof. solve_decision. Defined.
#[global] Instance RegisterLogSegmentRequest_eq_dec : EqDecision RegisterLogSegmentRequest.
Proof. solve_decision. Defined.
#[global] Instance OutputReference_eq_dec : EqDecision OutputReference.
Proof. solve_decision. Defined.
#[global] Instance CompleteAttemptRequest_eq_dec : EqDecision CompleteAttemptRequest.
Proof. solve_decision. Defined.
#[global] Instance CompleteAttemptResponse_eq_dec : EqDecision CompleteAttemptResponse.
Proof. solve_decision. Defined.

(** The protocol constants of [rust/protocol/src/lib.rs]. *)
Definition VERSION : N := 1.
