(* ===== verification/Lease.v ===== *)
(** Local execution authority ([rust/worker/src/lease.rs]).

    A [MonoTime] or a [Duration] is its total number of nanoseconds, bounded by
    [Duration::MAX].  A reading of the operating-system clock is an argument of
    the operation that calls [MonoTime::now]. *)

From S2P Require Import Prelude.
Open Scope N_scope.

Definition MonoTime := N.
Definition Duration := N.

Inductive LeaseError : Type := Invalid | Clock | Expired.

#[global] Instance LeaseError_eq_dec : EqDecision LeaseError.
Proof. solve_decision. Defined.

(** [std::time::Duration]: seconds fit [u64], nanoseconds are below 10^9. *)
Definition DURATION_MAX : N := 18446744073709551616 * 1000000000 - 1.
Definition from_secs (s : N) : Duration := s * 1000000000.
Definition from_millis (ms : N) : Duration := ms * 1000000.
Definition as_secs (d : Duration) : N := d / 1000000000.
Definition duration_checked_add (a b : Duration) : option Duration :=
  if a + b <=? DURATION_MAX then Some (a + b) else None.

(** One [clock_gettime(CLOCK_BOOTTIME)]: its return value and the timespec. *)
Record clock_reading := {
  ret : Z;
  tv_sec : Z;
  tv_nsec : Z;
}.

(** [MonoTime::now] on Linux. *)
Definition now (value : clock_reading) : result LeaseError MonoTime :=
  if (negb (ret value =? 0) || (tv_sec value <? 0)
      || negb ((0 <=? tv_nsec value) && (tv_nsec value <? 1000000000)))%Z
  then Err Clock
  else Ok (from_secs (Z.to_N (tv_sec value)) + Z.to_N (tv_nsec value)).

Record AuthorityWindow := {
  sent : MonoTime;
  deadline : MonoTime;
}.

#[global] Instance AuthorityWindow_eq_dec : EqDecision AuthorityWindow.
Proof. solve_decision. Defined.

Definition remaining_at (w : AuthorityWindow) (t : MonoTime) : result LeaseError Duration :=
  if t <? sent w then Err Clock
  else if deadline w <=? t then Err Expired
  else Ok (deadline w - t).

(** [AuthorityWindow::remaining] with the clock reading it takes. *)
Definition remaining (w : AuthorityWindow) (clock : result LeaseError MonoTime)
  : result LeaseError Duration :=
  let? t := clock in remaining_at w t.

Definition from_grant (sent received : MonoTime) (lease_ms phase_ms : N)
  : result LeaseError AuthorityWindow :=
  if received <? sent then Err Clock
  else if (lease_ms =? 0) || (30000 <? lease_ms) || (phase_ms =? 0) || (604800000 <? phase_ms)
  then Err Invalid
  else
    let? usable_lease := ok_or (checked_sub lease_ms 5000) Expired in
    let duration := from_millis (N.min usable_lease phase_ms) in
    let? deadline := ok_or (duration_checked_add sent duration) Invalid in
    let window := {| sent := sent; deadline := deadline |} in
    let? _ := remaining_at window received in
    Ok window.

(** [PhaseDeadline]: the additional bound of an uncertain phase mutation. *)
Definition PhaseDeadline := AuthorityWindow.

Definition phase_at (sent : MonoTime) (seconds : N) : result LeaseError PhaseDeadline :=
  if negb (in_range 1 604800 seconds) then Err Invalid
  else
    let? deadline := ok_or (duration_checked_add sent (from_secs seconds)) Invalid in
    Ok {| sent := sent; deadline := deadline |}.

Definition phase_start (clock : result LeaseError MonoTime) (seconds : N)
  : result LeaseError PhaseDeadline :=
  let? t := clock in phase_at t seconds.

Definition phase_remaining (d : PhaseDeadline) (clock : result LeaseError MonoTime)
  : result LeaseError Duration :=
  remaining d clock.

(** * Lemmas *)

Lemma duration_checked_add_Some (a b c : N) :
  duration_checked_add a b = Some c <-> c = a + b /\ a + b <= DURATION_MAX.
Proof.
  unfold duration_checked_add. destruct (N.leb_spec (a + b) DURATION_MAX); split;
    try intros [-> ?]; try done; try lia. by intros [= <-].
Qed.

Lemma remaining_at_Ok (w : AuthorityWindow) (t d : N) :
  remaining_at w t = Ok d <-> sent w <= t /\ t < deadline w /\ d = deadline w - t.
Proof.
  unfold remaining_at. destruct (N.ltb_spec t (sent w)); [split; [done|lia]|].
  destruct (N.leb_spec (deadline w) t); split; try done; try lia.
  - intros [= <-]. lia.
  - by intros (_ & _ & ->).
Qed.

Lemma remaining_Ok (w : AuthorityWindow) (clock : result LeaseError MonoTime) (d : N) :
  remaining w clock = Ok d <-> exists t, clock = Ok t /\ remaining_at w t = Ok d.
Proof.
  unfold remaining. destruct clock as [t|e]; simpl; split.
  - intros H. by exists t.
  - by intros (? & [= <-] & H).
  - done.
  - by intros (? & ? & ?).
Qed.

Lemma from_grant_Ok (s r l p : N) (w : AuthorityWindow) :
  from_grant s r l p = Ok w <->
  s <= r /\ 5000 <= l <= 30000 /\ 1 <= p <= 604800000 /\
  s + from_millis (N.min (l - 5000) p) <= DURATION_MAX /\
  r < s + from_millis (N.min (l - 5000) p) /\
  w = {| sent := s; deadline := s + from_millis (N.min (l - 5000) p) |}.
Proof.
  unfold from_grant. split.
  - intros H. guards. bools.
    match goal with H : checked_sub _ _ = Some _ |- _ => apply checked_sub_Some in H as [-> ?] end.
    match goal with H : duration_checked_add _ _ = Some _ |- _ =>
      apply duration_checked_add_Some in H as [-> ?] end.
    match goal with H : remaining_at _ _ = Ok _ |- _ =>
      apply remaining_at_Ok in H as (? & ? & ?) end.
    simpl in *. subst w. repeat split; lia.
  - intros (Hsr & Hl & Hp & Hmax & Hr & ->).
    destruct (N.ltb_spec r s); [lia|].
    destruct (_ || _) eqn:E; [bools; lia|].
    assert (checked_sub l 5000 = Some (l - 5000)) as -> by (apply checked_sub_Some; lia). simpl.
    set (m := from_millis _) in *.
    assert (duration_checked_add s m = Some (s + m)) as ->
      by (apply duration_checked_add_Some; lia). simpl.
    assert (remaining_at {| sent := s; deadline := s + m |} r = Ok (s + m - r)) as ->
      by (apply remaining_at_Ok; simpl; lia). done.
Qed.

(** C15: local authority ends before the server's lease does.  Whatever instant
    [g] at or after the send sample the server granted the lease at, as long as
    the worker's window reports [d] left at [t], [t + d] is at least five seconds
    before the end of the server's lease and not after the end of its phase. *)
Theorem grant_ends_before_server_lease (s r l p g t d : N) (w : AuthorityWindow) :
  s <= g -> from_grant s r l p = Ok w -> remaining_at w t = Ok d ->
  t + d + from_secs 5 <= g + from_millis l /\ t + d <= g + from_millis p.
Proof.
  intros Hg Hw Hd. apply from_grant_Ok in Hw as (? & ? & ? & ? & ? & ->).
  apply remaining_at_Ok in Hd as (? & ? & ->). simpl in *. unfold from_millis, from_secs in *. lia.
Qed.

Lemma grant_ends_before_server_lease_witness :
  100000000000 + 25000000000 + from_secs 5 <= 101000000000 + from_millis 30000
  /\ 100000000000 + 25000000000 <= 101000000000 + from_millis 300000.
Proof.
  apply (grant_ends_before_server_lease 100000000000 104000000000 30000 300000
    101000000000 100000000000 25000000000 {| sent := 100000000000; deadline := 125000000000 |});
    [lia | vm_compute; reflexivity | vm_compute; reflexivity].
Defined.

(** Receipt time never shapes a grant.  If one receipt of a grant produced a
    window, any other receipt of the same grant at or after the send sample
    produces the same window, or [Expired] when it comes at or after its
    deadline: neither retries nor queued responses start a fresh lease. *)
Theorem receipt_never_starts_a_fresh_lease (s r r' l p : N) (w : AuthorityWindow) :
  s <= r' -> from_grant s r l p = Ok w ->
  from_grant s r' l p = if r' <? deadline w then Ok w else Err Expired.
Proof.
  intros Hs Hw. apply from_grant_Ok in Hw as (? & ? & ? & ? & ? & ->). simpl.
  destruct (N.ltb_spec r' (s + from_millis (N.min (l - 5000) p))) as [Hlt|Hge].
  - by apply from_grant_Ok.
  - unfold from_grant. destruct (N.ltb_spec r' s); [lia|].
    destruct (_ || _) eqn:E; [bools; lia|].
    assert (checked_sub l 5000 = Some (l - 5000)) as -> by (apply checked_sub_Some; lia). simpl.
    set (m := from_millis _) in *.
    assert (duration_checked_add s m = Some (s + m)) as ->
      by (apply duration_checked_add_Some; lia). simpl.
    unfold remaining_at; simpl. destruct (N.ltb_spec r' s); [lia|].
    by destruct (N.leb_spec (s + m) r'); [|lia].
Qed.

Lemma receipt_never_starts_a_fresh_lease_witness :
  from_grant 100000000000 124000000000 30000 300000
  = Ok {| sent := 100000000000; deadline := 125000000000 |}.
Proof.
  apply (receipt_never_starts_a_fresh_lease 100000000000 101000000000 124000000000 30000 300000
    {| sent := 100000000000; deadline := 125000000000 |}); [lia | vm_compute; reflexivity].
Defined.
