(* ===== verification/Control.v ===== *)
(** The control-plane client ([rust/worker/src/control.rs] and the identity
    checks of [control/work.rs]): error categories and which of them may be
    retried, canonical identifiers, and the validation of registration and
    heartbeat responses.

    The transport is a parameter of each call: [rpc_reply] is what tonic
    delivers within the five-second deadline. *)

From S2P Require Import Prelude Protocol Lease.
Open Scope N_scope.

(** The gRPC status codes of [tonic::Code]. *)
Inductive Code : Type :=
| CodeOk | Cancelled | Unknown | InvalidArgument | DeadlineExceeded | NotFound | AlreadyExists
| PermissionDenied | ResourceExhausted | FailedPrecondition | Aborted | OutOfRange
| Unimplemented | Internal | Unavailable | DataLoss | Unauthenticated.

#[global] Instance Code_eq_dec : EqDecision Code.
Proof. solve_decision. Defined.

Record Status := {
  code : Code;
  message : string;
}.

#[global] Instance Status_eq_dec : EqDecision Status.
Proof. solve_decision. Defined.

Inductive ClientError : Type :=
| Configuration
| Connection
| Deadline
| Response
| ClockFailed
| Random
| Rpc (status : Status).

#[global] Instance ClientError_eq_dec : EqDecision ClientError.
Proof. solve_decision. Defined.

Definition retryable (e : ClientError) : bool :=
  match e with
  | Connection | Deadline => true
  | Rpc status =>
      match code status with
      | Unavailable | DeadlineExceeded => true
      | _ => false
      end
  | _ => false
  end.

Definition upload_stop_requested (e : ClientError) : bool :=
  match e with
  | Rpc status =>
      bool_decide (code status = FailedPrecondition)
      && bool_decide (message status = "UPLOAD_STOP_REQUESTED"%string)
  | _ => false
  end.

(** What one bounded call delivers: the outer timeout elapsed, the peer or the
    transport reported a status, or a decoded message arrived. *)
Inductive rpc_reply (A : Type) : Type :=
| Elapsed
| Refused (status : Status)
| Delivered (a : A).
Arguments Elapsed {A}.
Arguments Refused {A} status.
Arguments Delivered {A} a.

Definition into_inner {A : Type} (reply : rpc_reply A) : result ClientError A :=
  match reply with
  | Elapsed => Err Deadline
  | Refused status => Err (Rpc status)
  | Delivered a => Ok a
  end.

(** * Identifiers *)

Definition hex_or_digit (b : byte) : bool := is_ascii_digit b || is_ascii_lower_hex b.

Definition lower_hash (value : string) : bool :=
  (str_len value =? 64) && forallb hex_or_digit (str_bytes value).

Definition nil_uuid : string := "00000000-0000-0000-0000-000000000000".

Definition uuid_byte (n : nat) (b : byte) : bool :=
  if bool_decide (n ∈ [8; 13; 18; 23]%nat) then byte_val b =? 45 else hex_or_digit b.

Definition canonical_uuid (value : string) : bool :=
  (str_len value =? 36)
  && negb (bool_decide (value = nil_uuid))
  && forallb (fun '(n, b) => uuid_byte n b) (imap pair (str_bytes value)).

Definition valid_session (session : option WorkerSession) : result ClientError WorkerSession :=
  ok_or (match session with
         | Some s =>
             if canonical_uuid (ws_worker_id s) && canonical_uuid (ws_session_id s)
             then Some s else None
         | None => None
         end) Configuration.

(** * Registration and heartbeat *)

Definition validate_registration (request : RegisterWorkerRequest)
  (response : RegisterWorkerResponse) : result ClientError unit :=
  let? session := ok_or (rr_session response) Response in
  if negb (bool_decide (ws_worker_id session = rw_worker_id request))
     || negb (bool_decide (ws_session_id session = rw_requested_session_id request))
     || is_empty_str (ws_worker_id session)
     || is_empty_str (ws_session_id session)
     || (rr_session_generation response =? 0)
     || (I64_MAX <? rr_session_generation response)
     || negb (rr_protocol_version response =? VERSION)
  then Err Response
  else Ok tt.

Definition validate_heartbeat (request : HeartbeatRequest) (response : HeartbeatResponse)
  : result ClientError unit :=
  let? session := ok_or (hb_session request) Configuration in
  if (2048 <? len (hr_stop response))
     || existsb (fun authority =>
          negb (bool_decide (aa_worker_id authority = ws_worker_id session))
          || (aa_generation authority =? 0)
          || (I64_MAX <? aa_generation authority)
          || is_empty_str (aa_job_id authority)
          || is_empty_str (aa_attempt_id authority)
          || is_empty_str (aa_session_id authority)) (hr_stop response)
  then Err Response
  else Ok tt.

Definition register (request : RegisterWorkerRequest) (reply : rpc_reply RegisterWorkerResponse)
  : result ClientError RegisterWorkerResponse :=
  let? response := into_inner reply in
  let? _ := validate_registration request response in
  Ok response.

Definition heartbeat (request : HeartbeatRequest) (reply : rpc_reply HeartbeatResponse)
  : result ClientError HeartbeatResponse :=
  let? response := into_inner reply in
  let? _ := validate_heartbeat request response in
  Ok response.

(** * Lemmas *)

Lemma valid_session_Ok (session : option WorkerSession) (s : WorkerSession) :
  valid_session session = Ok s <->
  session = Some s /\ canonical_uuid (ws_worker_id s) = true
  /\ canonical_uuid (ws_session_id s) = true.
Proof.
  unfold valid_session. destruct session as [s'|]; simpl; [|split; [done|by intros [? _]]].
  destruct (_ && _) eqn:E; simpl; split.
  - intros [= <-]. apply andb_true_iff in E as []. done.
  - by intros ([= ->] & _).
  - done.
  - intros ([= ->] & H1 & H2). by rewrite H1, H2 in E.
Qed.

Lemma length_str_bytes (s : string) : List.length (str_bytes s) = String.length s.
Proof.
  unfold str_bytes. induction s as [|a s IH]; [done|].
  unfold list_byte_of_string in *; simpl. by rewrite IH.
Qed.

Lemma canonical_uuid_len (s : string) : canonical_uuid s = true -> str_len s = 36.
Proof. unfold canonical_uuid. intros H. bools. naive_solver. Qed.

Lemma canonical_uuid_nonempty (s : string) : canonical_uuid s = true -> s <> EmptyString.
Proof. intros H ->. by apply canonical_uuid_len in H. Qed.

#[export] Hint Resolve canonical_uuid_len canonical_uuid_nonempty : dispatch.
