(* ===== verification/Renew.v ===== *)
(** Lease renewal batches ([rust/worker/src/control/renew.rs]): validation of a
    batch request, the member-by-member decoding of the response, and the call
    that joins them with the clock readings it takes. *)

From S2P Require Import Prelude Protocol Lease Control.
Open Scope N_scope.

Record RenewedLease := {
  rn_identity : AttemptAuthority;
  rn_authority : AuthorityWindow;
}.

Inductive RenewalOutcome : Type :=
| Renewed (grant : RenewedLease)
| Rejected (identity : AttemptAuthority) (decision : Decision_.t)
| ExpiredLease (identity : AttemptAuthority).

(** One iteration of the member loop: [seen] is the set of attempt ids so far. *)
Definition check_member (session : WorkerSession) (seen : list string) (a : AttemptAuthority)
  : result ClientError (list string) :=
  if negb (bool_decide (aa_worker_id a = ws_worker_id session))
     || negb (bool_decide (aa_session_id a = ws_session_id session))
     || negb (canonical_uuid (aa_job_id a))
     || negb (canonical_uuid (aa_attempt_id a))
     || (aa_generation a =? 0)
     || (I64_MAX <? aa_generation a)
     || bool_decide (aa_attempt_id a ∈ seen)
  then Err Configuration
  else Ok (aa_attempt_id a :: seen).

Definition validate_request (request : RenewLeasesRequest) : result ClientError unit :=
  let? session := valid_session (rl_session request) in
  if negb (canonical_uuid (rl_request_id request))
     || bool_decide (rl_attempts request = [])
     || (64 <? len (rl_attempts request))
  then Err Configuration
  else let? _ := rfold (check_member session) [] (rl_attempts request) in Ok tt.

(** The closure of [decode_renewals] on one result and the member it answers. *)
Definition decode_member (sent received : MonoTime) (g : LeaseResult) (expected : AttemptAuthority)
  : result ClientError RenewalOutcome :=
  let? identity := ok_or (lres_authority g) Response in
  if negb (bool_decide (identity = expected)) then Err Response
  else match Decision_.try_from (lres_decision g) with
       | Some Decision_.Accepted =>
           match from_grant sent received (lres_remaining_ms g) (lres_phase_remaining_ms g) with
           | Ok authority => Ok (Renewed {| rn_identity := identity; rn_authority := authority |})
           | Err Expired => Ok (ExpiredLease identity)
           | Err Clock => Err ClockFailed
           | Err Invalid => Err Response
           end
       | Some ((Decision_.Fenced | Decision_.StopRequested | Decision_.AlreadyTerminal) as decision) =>
           if (lres_remaining_ms g =? 0) && (lres_phase_remaining_ms g =? 0)
           then Ok (Rejected identity decision)
           else Err Response
       | _ => Err Response
       end.

Definition decode_renewals (request : RenewLeasesRequest) (results : list LeaseResult)
  (sent received : MonoTime) : result ClientError (list RenewalOutcome) :=
  if negb (len results =? len (rl_attempts request)) then Err Response
  else rmap (fun '(g, expected) => decode_member sent received g expected)
         (zip results (rl_attempts request)).

(** The last loop of [renew]: processing time consumes authority too.  [late n] is
    the clock reading taken for member [n]. *)
Definition recheck (late : nat -> result LeaseError MonoTime) (member : nat * RenewalOutcome)
  : result ClientError RenewalOutcome :=
  match member with
  | (n, Renewed grant) =>
      match remaining (rn_authority grant) (late n) with
      | Ok _ => Ok (Renewed grant)
      | Err Expired => Ok (ExpiredLease (rn_identity grant))
      | Err Clock => Err ClockFailed
      | Err Invalid => Err Response
      end
  | (_, outcome) => Ok outcome
  end.

Definition renew (request : RenewLeasesRequest)
  (send_clock : result LeaseError MonoTime)
  (reply : rpc_reply (list LeaseResult))
  (receive_clock : result LeaseError MonoTime)
  (late : nat -> result LeaseError MonoTime)
  : result ClientError (list RenewalOutcome) :=
  let? _ := validate_request request in
  let? sent := map_err (fun _ => ClockFailed) send_clock in
  let? response := into_inner reply in
  let? received := map_err (fun _ => ClockFailed) receive_clock in
  let? outcomes := decode_renewals request response sent received in
  rmap (recheck late) (imap pair outcomes).

(** [maintain.rs]'s [outcome_identity]. *)
Definition outcome_identity (outcome : RenewalOutcome) : AttemptAuthority :=
  match outcome with
  | Renewed grant => rn_identity grant
  | Rejected identity _ => identity
  | ExpiredLease identity => identity
  end.

(** * Lemmas *)

Definition refusal (d : Decision_.t) : Prop :=
  d = Decision_.Fenced \/ d = Decision_.StopRequested \/ d = Decision_.AlreadyTerminal.

(** What a member outcome may be, given the result the server sent for it. *)
Inductive outcome_of (sent received : MonoTime) (g : LeaseResult) : RenewalOutcome -> Prop :=
| of_renewed (id : AttemptAuthority) (w : AuthorityWindow) :
    lres_authority g = Some id ->
    lres_decision g = Decision_.to_i32 Decision_.Accepted ->
    from_grant sent received (lres_remaining_ms g) (lres_phase_remaining_ms g) = Ok w ->
    outcome_of sent received g (Renewed {| rn_identity := id; rn_authority := w |})
| of_expired (id : AttemptAuthority) :
    lres_authority g = Some id ->
    lres_decision g = Decision_.to_i32 Decision_.Accepted ->
    outcome_of sent received g (ExpiredLease id)
| of_rejected (id : AttemptAuthority) (d : Decision_.t) :
    lres_authority g = Some id ->
    lres_decision g = Decision_.to_i32 d -> refusal d ->
    lres_remaining_ms g = 0 -> lres_phase_remaining_ms g = 0 ->
    outcome_of sent received g (Rejected id d).

Lemma decode_member_Ok (s r : MonoTime) (g : LeaseResult) (e : AttemptAuthority)
  (o : RenewalOutcome) :
  decode_member s r g e = Ok o -> outcome_of s r g o /\ outcome_identity o = e.
Proof.
  unfold decode_member. intros H. guards. bools.
  match goal with H : lres_authority _ = Some _ |- _ => rename H into Hid end. subst x.
  destruct (Decision_.try_from _) as [d|] eqn:Hd; [|done].
  apply Decision_.decision_try_from_Some in Hd.
  destruct d; try done;
    try (destruct (_ && _) eqn:Hz; [|done]; bools; destruct Hz; injection H as <-;
         split; [|done]; by constructor; unfold refusal; auto).
  destruct (from_grant _ _ _ _) as [w|[]] eqn:Hw; try done; injection H as <-;
    (split; [|done]); by constructor.
Qed.

Lemma recheck_Ok (late : nat -> result LeaseError MonoTime) (n : nat) (o o' : RenewalOutcome) :
  recheck late (n, o) = Ok o' ->
  outcome_identity o' = outcome_identity o /\
  (o' = o \/ exists g, o = Renewed g /\ o' = ExpiredLease (rn_identity g)) /\
  forall g, o' = Renewed g -> is_ok (remaining (rn_authority g) (late n)) = true.
Proof.
  destruct o as [g|i d|i]; simpl; intros H.
  - destruct (remaining _ _) as [x|[]] eqn:E; try done; injection H as <-; split_and!; eauto.
    + intros g' [= <-]. by rewrite E.
    + done.
  - injection H as <-. split_and!; eauto. done.
  - injection H as <-. split_and!; eauto. done.
Qed.

Lemma check_member_Ok (session : WorkerSession) (seen seen' : list string) (a : AttemptAuthority) :
  check_member session seen a = Ok seen' ->
  seen' = aa_attempt_id a :: seen /\ (aa_attempt_id a ∉ seen) /\
  aa_worker_id a = ws_worker_id session /\ aa_session_id a = ws_session_id session.
Proof. unfold check_member. intros H. guards. bools. naive_solver. Qed.

Lemma rfold_check_member (session : WorkerSession) (l : list AttemptAuthority)
  (seen seen' : list string) :
  rfold (check_member session) seen l = Ok seen' -> NoDup seen ->
  NoDup seen' /\ seen' = reverse (aa_attempt_id <$> l) ++ seen /\
  Forall (fun a => aa_worker_id a = ws_worker_id session
                   /\ aa_session_id a = ws_session_id session) l.
Proof.
  revert seen. induction l as [|a l IH]; intros seen H Hnd; simpl in H.
  - injection H as <-. by split_and!.
  - apply rbind_Ok_inv in H as (s1 & H1 & H2).
    apply check_member_Ok in H1 as (-> & Hn & Hw & Hs).
    apply IH in H2 as (Hnd' & -> & Hall); [|by constructor].
    split_and!; [done| |by constructor].
    rewrite fmap_cons, reverse_cons. by rewrite <- (assoc_L (++)).
Qed.

Lemma validate_request_Ok (request : RenewLeasesRequest) :
  validate_request request = Ok tt ->
  exists session, rl_session request = Some session /\
    NoDup (aa_attempt_id <$> rl_attempts request) /\
    1 <= len (rl_attempts request) <= 64 /\
    Forall (fun a => aa_worker_id a = ws_worker_id session
                     /\ aa_session_id a = ws_session_id session) (rl_attempts request).
Proof.
  unfold validate_request. intros H. guards. bools.
  match goal with H : valid_session _ = Ok ?s |- _ =>
    apply valid_session_Ok in H as (? & _ & _); exists s end.
  match goal with H : rfold _ _ _ = Ok _ |- _ =>
    apply rfold_check_member in H as (Hnd & -> & ?); [|constructor] end.
  rewrite app_nil_r in Hnd. rewrite reverse_Permutation in Hnd.
  split_and!; [done|done| |naive_solver|done].
  destruct (rl_attempts request); [naive_solver|]. unfold len; simpl. lia.
Qed.

Lemma Forall2_decode_members (s r : MonoTime) (results : list LeaseResult)
  (attempts : list AttemptAuthority) (outcomes : list RenewalOutcome) :
  List.length results = List.length attempts ->
  rmap (fun '(g, expected) => decode_member s r g expected) (zip results attempts) = Ok outcomes ->
  outcome_identity <$> outcomes = attempts /\ Forall2 (outcome_of s r) results outcomes.
Proof.
  rewrite rmap_Ok. revert attempts outcomes.
  induction results as [|g results IH]; intros [|a attempts] outcomes Hlen H; try done;
    simpl in *; inversion H as [|? o ? os Ho Hos]; subst; [by split; [|constructor]|].
  apply decode_member_Ok in Ho as [Ho <-].
  destruct (IH attempts os ltac:(lia) Hos) as [<- Hall]. by split; [|constructor].
Qed.

Lemma recheck_outcome_of (late : nat -> result LeaseError MonoTime) (s r : MonoTime)
  (g : LeaseResult) (n : nat) (o o' : RenewalOutcome) :
  outcome_of s r g o -> recheck late (n, o) = Ok o' -> outcome_of s r g o'.
Proof.
  intros Ho H. apply recheck_Ok in H as (_ & [->|(l & -> & ->)] & _); [done|].
  inversion Ho; subst; simpl. by constructor.
Qed.

(** The recheck keeps order, identities and provenance, member by member. *)
Lemma rmap_recheck (late : nat -> result LeaseError MonoTime) (s r : MonoTime)
  (results : list LeaseResult) (decoded outcomes : list RenewalOutcome) :
  Forall2 (outcome_of s r) results decoded ->
  rmap (recheck late) (imap pair decoded) = Ok outcomes ->
  map outcome_identity outcomes = map outcome_identity decoded /\
  Forall2 (outcome_of s r) results outcomes /\
  forall n g, outcomes !! n = Some (Renewed g) -> is_ok (remaining (rn_authority g) (late n)) = true.
Proof.
  rewrite rmap_Ok. intros Hall H.
  assert (Hp : forall n o', outcomes !! n = Some o' ->
            exists o, decoded !! n = Some o /\ recheck late (n, o) = Ok o').
  { intros n o' Ho'. eapply Forall2_lookup_r in H as ((n' & o) & Hl & Hr); [|done].
    apply list_lookup_imap_Some in Hl as (o1 & Ho1 & [= <- <-]). eauto. }
  assert (Hlen : List.length outcomes = List.length decoded).
  { apply Forall2_length in H. by rewrite length_imap in H. }
  split_and!.
  - apply list_eq_same_length with (List.length decoded); rewrite ?length_map; try done.
    intros n x y _. rewrite !(list_lookup_fmap outcome_identity), !fmap_Some.
    intros (o' & Ho' & ->) (o & Ho & ->). destruct (Hp n o' Ho') as (o1 & Ho1 & Hr).
    rewrite Ho in Ho1. injection Ho1 as <-. by apply recheck_Ok in Hr as (-> & _).
  - apply Forall2_same_length_lookup. split.
    { apply Forall2_length in Hall. congruence. }
    intros n g o' Hg Ho'. destruct (Hp n o' Ho') as (o & Ho & Hr).
    eapply recheck_outcome_of; [|done]. by eapply Forall2_lookup_lr.
  - intros n g Hg. destruct (Hp n _ Hg) as (o & Ho & Hr). by apply recheck_Ok in Hr as (_ & _ & ?); auto.
Qed.

(** A renewal answers exactly the batch it was asked for.  When [renew]
    returns, the outcomes carry the identities of the request's members, in
    order and without repetition, every one of the request's own session; each
    outcome follows from the server's result at the same position (a live window
    only from an ACCEPTED result and from the send sample of this very call), and
    a window handed out was still live when the batch was published. *)
Theorem renew_binds_every_member (request : RenewLeasesRequest)
  (send_clock : result LeaseError MonoTime) (reply : rpc_reply (list LeaseResult))
  (receive_clock : result LeaseError MonoTime) (late : nat -> result LeaseError MonoTime)
  (outcomes : list RenewalOutcome) :
  renew request send_clock reply receive_clock late = Ok outcomes ->
  outcome_identity <$> outcomes = rl_attempts request /\
  NoDup (aa_attempt_id <$> rl_attempts request) /\
  (exists session, rl_session request = Some session /\
     Forall (fun a => aa_worker_id a = ws_worker_id session
                      /\ aa_session_id a = ws_session_id session) (rl_attempts request)) /\
  (exists s r results, send_clock = Ok s /\ receive_clock = Ok r /\ reply = Delivered results /\
     Forall2 (outcome_of s r) results outcomes) /\
  (forall n g, outcomes !! n = Some (Renewed g) ->
     is_ok (remaining (rn_authority g) (late n)) = true).
Proof.
  unfold renew, decode_renewals. intros H. guards. bools.
  match goal with H : validate_request _ = Ok ?u |- _ => destruct u;
    apply validate_request_Ok in H as (session & ? & ? & ? & ?) end.
  match goal with H : rmap _ (zip _ _) = Ok _ |- _ =>
    apply Forall2_decode_members in H as [Hids Hall]; [|unfold len in *; lia] end.
  eapply rmap_recheck in H as (Hids' & Hall' & Hlive); [|done].
  split_and!; [by rewrite <- Hids; apply Hids'|done|by exists session| |done].
  destruct reply as [|status|results]; simpl in *; try done.
  match goal with H : Ok ?a = Ok ?b |- _ => injection H as -> end.
  repeat eexists; eauto.
Qed.

Definition member_fixture : AttemptAuthority :=
  {| aa_job_id := "00000000-0000-0000-0000-000000000004";
     aa_attempt_id := "00000000-0000-0000-0000-000000000005";
     aa_generation := 1;
     aa_worker_id := "00000000-0000-0000-0000-000000000001";
     aa_session_id := "00000000-0000-0000-0000-000000000002" |}.

Definition request_fixture : RenewLeasesRequest :=
  {| rl_session := Some {| ws_worker_id := "00000000-0000-0000-0000-000000000001";
                           ws_session_id := "00000000-0000-0000-0000-000000000002" |};
     rl_request_id := "00000000-0000-0000-0000-000000000003";
     rl_attempts := [member_fixture] |}.

Definition accepted_fixture : LeaseResult :=
  {| lres_authority := Some member_fixture;
     lres_decision := 1; lres_remaining_ms := 30000; lres_server_time_unix_ms := 1;
     lres_phase_remaining_ms := 300000 |}.

Definition renewed_fixture : RenewalOutcome :=
  Renewed {| rn_identity := member_fixture;
             rn_authority := {| sent := 100000000000; deadline := 125000000000 |} |}.

Lemma renew_binds_every_member_witness :
  renew request_fixture (Ok 100000000000) (Delivered [accepted_fixture]) (Ok 101000000000)
    (fun _ => Ok 102000000000) = Ok [renewed_fixture]
  /\ outcome_identity <$> [renewed_fixture] = rl_attempts request_fixture.
Proof.
  assert (H : renew request_fixture (Ok 100000000000) (Delivered [accepted_fixture])
    (Ok 101000000000) (fun _ => Ok 102000000000) = Ok [renewed_fixture]) by (vm_compute; reflexivity).
  split; [exact H|].
  exact (proj1 (renew_binds_every_member _ _ _ _ _ _ H)).
Defined.
