(* ===== verification/Supervisor.v ===== *)
(** Live-container authority enforcement ([rust/worker/src/supervisor.rs]).

    The watch channel and the refresh counters that an [AuthorityController] and
    its [SupervisedAuthority] share are one record, [Shared]; an operation of
    either side reads or updates it and receives the clock readings it takes as
    arguments.  Futures that are polled in a loop ([while_live],
    [supervise_running], [refresh]) are functions of the finite sequence of
    observations the executor has delivered so far. *)

From S2P Require Import Prelude Protocol Lease Control Renew.
Open Scope N_scope.

(** * Runtime vocabulary ([runtime.rs]) *)

Module RuntimeError.
Inductive t : Type :=
| Configuration | Unsupported | Identity | Authority | Deadline | Transport
| Daemon (status : N) | Terminal | InventoryLimit.

#[global] Instance eq_dec : EqDecision t.
Proof. solve_decision. Defined.
End RuntimeError.

Module ContainerState.
Inductive t : Type :=
| Created | Running | Paused | Restarting | Removing | Stopping | Exited | Dead.

#[global] Instance eq_dec : EqDecision t.
Proof. solve_decision. Defined.
End ContainerState.

Record ContainerStatus := {
  running : bool;
  exit_code : option Z;
  oom_killed : bool;
  container_state : ContainerState.t;
}.

(** * Channel state *)

Definition OBSERVATION_TICK : Duration := from_millis 100.
Definition CLEANUP_BUDGET : Duration := from_secs 5.

Inductive StopReason : Type :=
| AuthorityExpired
| StopRejected (decision : Decision_.t)
| ControllerLost
| RenewalFailed
| RuntimeUnavailable.

#[global] Instance StopReason_eq_dec : EqDecision StopReason.
Proof. solve_decision. Defined.

Inductive AuthorityState : Type :=
| Live (window : AuthorityWindow)
| Stop (reason : StopReason).

(** What the controller's clones and the receivers share: the identity, the watch
    value, the refresh counters, and how many handles of each side are alive. *)
Record Shared := {
  sh_identity : AttemptAuthority;
  sh_state : AuthorityState;
  sh_requested : N;
  sh_acknowledged : N;
  sh_senders : nat;
  sh_receivers : nat;
}.

Definition with_state (s : AuthorityState) (sh : Shared) : Shared :=
  {| sh_identity := sh_identity sh; sh_state := s; sh_requested := sh_requested sh;
     sh_acknowledged := sh_acknowledged sh; sh_senders := sh_senders sh;
     sh_receivers := sh_receivers sh |}.

Record SupervisedAuthority := {
  sa_identity : AttemptAuthority;
  sa_last_window : AuthorityWindow;
}.

Inductive AuthorityUpdateError : Type := Identity | InvalidDecision | UpdateExpired.

Definition live (state : AuthorityState) (clock : result LeaseError MonoTime)
  : result StopReason Duration :=
  match state with
  | Stop reason => Err reason
  | Live window => map_err (fun _ => AuthorityExpired) (remaining window clock)
  end.

Definition authority_channel (identity : AttemptAuthority) (window : AuthorityWindow)
  (clock : result LeaseError MonoTime)
  : result AuthorityUpdateError (Shared * SupervisedAuthority) :=
  if existsb (fun v => negb (canonical_uuid v))
       [aa_worker_id identity; aa_session_id identity; aa_job_id identity; aa_attempt_id identity]
     || (aa_generation identity =? 0)
     || (I64_MAX <? aa_generation identity)
  then Err Identity
  else
    let? _ := map_err (fun _ => UpdateExpired) (remaining window clock) in
    Ok ({| sh_identity := identity; sh_state := Live window; sh_requested := 0;
           sh_acknowledged := 0; sh_senders := 1; sh_receivers := 1 |},
        {| sa_identity := identity; sa_last_window := window |}).

(** * The controller *)

Definition refresh_revision (sh : Shared) : N := sh_requested sh.

Definition active (sh : Shared) (clock : result LeaseError MonoTime) : bool :=
  negb (bool_decide (sh_receivers sh = 0%nat)) && is_ok (live (sh_state sh) clock).

Definition needs_refresh (sh : Shared) (clock : result LeaseError MonoTime) : bool :=
  active sh clock && (sh_acknowledged sh <? refresh_revision sh).

Definition acknowledge_refresh (sh : Shared) (revision : N) : Shared :=
  {| sh_identity := sh_identity sh; sh_state := sh_state sh; sh_requested := sh_requested sh;
     sh_acknowledged := N.max (sh_acknowledged sh) revision;
     sh_senders := sh_senders sh; sh_receivers := sh_receivers sh |}.

Definition is_live (state : AuthorityState) : bool :=
  match state with
  | Live _ => true
  | Stop _ => false
  end.

(** [update]: the closure of [send_if_modified] runs under the channel's lock; it
    reads the clock for the current value ([c1]) and, for a grant, for the next
    one ([c2]). *)
Definition update (sh : Shared) (identity : AttemptAuthority) (next : AuthorityState)
  (c1 c2 : result LeaseError MonoTime) : result AuthorityUpdateError unit * Shared :=
  if negb (bool_decide (identity = sh_identity sh)) then (Err Identity, sh)
  else
    (Ok tt,
     match sh_state sh with
     | Stop _ => sh
     | Live _ =>
         with_state
           (if negb (is_ok (live (sh_state sh) c1))
               || negb (is_ok (live next c2)) && is_live next
            then Stop AuthorityExpired
            else next) sh
     end).

Definition stop (sh : Shared) (reason : StopReason) (c1 : result LeaseError MonoTime) : Shared :=
  snd (update sh (sh_identity sh) (Stop reason) c1 (Err Clock)).

Definition apply (sh : Shared) (outcome : RenewalOutcome) (c1 c2 : result LeaseError MonoTime)
  : result AuthorityUpdateError unit * Shared :=
  match outcome with
  | Renewed grant => update sh (rn_identity grant) (Live (rn_authority grant)) c1 c2
  | ExpiredLease identity => update sh identity (Stop AuthorityExpired) c1 c2
  | Rejected identity decision =>
      match decision with
      | Decision_.Fenced | Decision_.StopRequested | Decision_.AlreadyTerminal =>
          update sh identity (Stop (StopRejected decision)) c1 c2
      | _ => (Err InvalidDecision, sh)
      end
  end.

(** * The supervised side *)

Definition observer (sh : Shared) (sa : SupervisedAuthority) : Shared * SupervisedAuthority :=
  ({| sh_identity := sh_identity sh; sh_state := sh_state sh; sh_requested := sh_requested sh;
      sh_acknowledged := sh_acknowledged sh; sh_senders := sh_senders sh;
      sh_receivers := S (sh_receivers sh) |}, sa).

Definition remaining_for_cleanup (sa : SupervisedAuthority) (clock : result LeaseError MonoTime)
  : Duration :=
  match remaining (sa_last_window sa) clock with
  | Ok d => d
  | Err _ => 0
  end.

(** [check]: the value seen, and the window kept for cleanup when it is a grant. *)
Definition check (sh : Shared) (sa : SupervisedAuthority) (clock : result LeaseError MonoTime)
  : result StopReason Duration * SupervisedAuthority :=
  let sa' := match sh_state sh with
             | Live window => {| sa_identity := sa_identity sa; sa_last_window := window |}
             | Stop _ => sa
             end in
  (match sh_state sh with
   | Stop reason => Err reason
   | Live _ =>
       if bool_decide (sh_senders sh = 0%nat) then Err ControllerLost
       else live (sh_state sh) clock
   end, sa').

(** One look of the supervised side: the channel it sees and the clock it reads. *)
Record look := {
  lk_shared : Shared;
  lk_clock : result LeaseError MonoTime;
}.

Definition check_at (l : look) (sa : SupervisedAuthority)
  : result StopReason Duration * SupervisedAuthority :=
  check (lk_shared l) sa (lk_clock l).

(** [window]: a check, and a second borrow that may see a later channel value. *)
Definition window (first second : look) (sa : SupervisedAuthority)
  : result StopReason AuthorityWindow * SupervisedAuthority :=
  let '(checked, sa') := check_at first sa in
  (let? _ := checked in
   match sh_state (lk_shared second) with
   | Live w =>
       let? _ := map_err (fun _ => AuthorityExpired) (remaining w (lk_clock second)) in Ok w
   | Stop reason => Err reason
   end, sa').

(** The first part of [refresh]: check, then count the request. *)
Definition refresh_request (l : look) (sa : SupervisedAuthority)
  : result StopReason (N * Shared) * SupervisedAuthority :=
  let '(checked, sa') := check_at l sa in
  let sh := lk_shared l in
  (let? _ := checked in
   let? revision := ok_or (u64_checked_add (sh_requested sh) 1) RenewalFailed in
   Ok (revision,
       {| sh_identity := sh_identity sh; sh_state := sh_state sh; sh_requested := revision;
          sh_acknowledged := sh_acknowledged sh; sh_senders := sh_senders sh;
          sh_receivers := sh_receivers sh |}), sa').

(** One turn of the loop of [refresh]: [None] is another wait. *)
Definition refresh_poll (revision : N) (l w1 w2 : look) (sa : SupervisedAuthority)
  : option (result StopReason AuthorityWindow) * SupervisedAuthority :=
  let '(checked, sa') := check_at l sa in
  match checked with
  | Err reason => (Some (Err reason), sa')
  | Ok _ =>
      if revision <=? sh_acknowledged (lk_shared l)
      then let '(res, sa'') := window w1 w2 sa' in (Some res, sa'')
      else (None, sa')
  end.

(** What ends one [select!] of [while_live]: the operation, with the look of the
    check that follows it, or a wake-up of the channel or of the timer. *)
Inductive wake (T : Type) : Type :=
| Completed (t : T) (after : look)
| Woken.
Arguments Completed {T} t after.
Arguments Woken {T}.

Fixpoint while_live {T : Type} (turns : list (look * wake T)) (sa : SupervisedAuthority)
  : option (result StopReason T) * SupervisedAuthority :=
  match turns with
  | [] => (None, sa)
  | (l, event) :: turns' =>
      let '(checked, sa1) := check_at l sa in
      match checked with
      | Err reason => (Some (Err reason), sa1)
      | Ok _ =>
          match event with
          | Woken => while_live turns' sa1
          | Completed t after =>
              let '(checked2, sa2) := check_at after sa1 in
              match checked2 with
              | Err reason => (Some (Err reason), sa2)
              | Ok _ => (Some (Ok t), sa2)
              end
          end
      end
  end.

(** * Termination *)

(** A runtime call with the timeout that bounds it. *)
Inductive runtime_call : Type :=
| CallStop (grace : N) (timeout : Duration)
| CallKill (timeout : Duration)
| CallInspect (timeout : Duration).

Definition call_timeout (c : runtime_call) : Duration :=
  match c with
  | CallStop _ t | CallKill t | CallInspect t => t
  end.

Definition at_rest (s : ContainerState.t) : bool :=
  match s with
  | ContainerState.Exited | ContainerState.Dead => true
  | _ => false
  end.

(** [None] is an elapsed timeout. *)
Definition terminate (inspected : option (result RuntimeError.t ContainerStatus))
  : bool * list runtime_call :=
  (match inspected with
   | Some (Ok status) => negb (running status) && at_rest (container_state status)
   | Some (Err (RuntimeError.Daemon 404)) => true
   | _ => false
   end, [CallKill CLEANUP_BUDGET; CallInspect CLEANUP_BUDGET]).

Definition terminate_requested (requested_grace : N) (remaining : Duration)
  (stopped : option (result RuntimeError.t unit))
  (inspected : option (result RuntimeError.t ContainerStatus)) : bool * list runtime_call :=
  let available := saturating_sub remaining (CLEANUP_BUDGET * 3) in
  let grace := N.min requested_grace (N.min (as_secs available) 300) in
  if 0 <? grace then
    let call := CallStop grace (from_secs grace + CLEANUP_BUDGET) in
    match stopped with
    | Some (Ok tt) => (true, [call])
    | _ => let '(confirmed, calls) := terminate inspected in (confirmed, call :: calls)
    end
  else terminate inspected.

(** * [supervise_running] *)

Inductive SupervisionOutcome : Type :=
| ExitedWith (status : ContainerStatus)
| Stopped (reason : StopReason) (confirmed : bool).

(** One round of the loop: the turns of the inspection and of the tick. *)
Record round := {
  inspecting : list (look * wake (result RuntimeError.t ContainerStatus));
  sleeping : list (look * wake unit);
}.

Definition exited (status : ContainerStatus) : bool :=
  at_rest (container_state status) && negb (running status)
  && match exit_code status with
     | Some code => ((0 <=? code) && (code <=? 255))%Z
     | None => false
     end.

(** The loop up to its [return] (left) or its [break] (right). *)
Fixpoint supervise_loop (rounds : list round) (sa : SupervisedAuthority)
  : option (ContainerStatus + StopReason) * SupervisedAuthority :=
  match rounds with
  | [] => (None, sa)
  | r :: rounds' =>
      let tick sa1 :=
        match while_live (sleeping r) sa1 with
        | (None, sa2) => (None, sa2)
        | (Some (Err reason), sa2) => (Some (inr reason), sa2)
        | (Some (Ok _), sa2) => supervise_loop rounds' sa2
        end in
      match while_live (inspecting r) sa with
      | (None, sa1) => (None, sa1)
      | (Some (Ok (Ok status)), sa1) =>
          if exited status then (Some (inl status), sa1)
          else if running status then tick sa1
          else (Some (inr RuntimeUnavailable), sa1)
      | (Some (Ok (Err _)), sa1) => (Some (inr RuntimeUnavailable), sa1)
      | (Some (Err reason), sa1) => (Some (inr reason), sa1)
      end
  end.

Definition supervise_running (rounds : list round) (sa : SupervisedAuthority)
  (cleanup_clock : result LeaseError MonoTime)
  (stopped : option (result RuntimeError.t unit))
  (inspected : option (result RuntimeError.t ContainerStatus))
  : option (SupervisionOutcome * list runtime_call) :=
  match supervise_loop rounds sa with
  | (None, _) => None
  | (Some (inl status), _) => Some (ExitedWith status, [])
  | (Some (inr reason), sa') =>
      let '(confirmed, calls) :=
        if bool_decide (reason = StopRejected Decision_.StopRequested)
        then terminate_requested 10 (remaining_for_cleanup sa' cleanup_clock) stopped inspected
        else terminate inspected in
      Some (Stopped reason confirmed, calls)
  end.

(** * The channel over time

    [chan_step] is every way the shared value evolves: the clock advances, the
    controller applies a renewal outcome or stops, the renewal loop acknowledges
    a refresh, the supervised side requests one, and handles of either side are
    cloned or dropped.  Readings never run backwards ([CLOCK_BOOTTIME]). *)

Record chan := {
  ch_clock : MonoTime;
  ch_shared : Shared;
}.

Definition with_handles (senders receivers : nat) (sh : Shared) : Shared :=
  {| sh_identity := sh_identity sh; sh_state := sh_state sh; sh_requested := sh_requested sh;
     sh_acknowledged := sh_acknowledged sh; sh_senders := senders; sh_receivers := receivers |}.

Inductive chan_step : chan -> chan -> Prop :=
| step_time (c : chan) (t : MonoTime) :
    ch_clock c <= t -> chan_step c {| ch_clock := t; ch_shared := ch_shared c |}
| step_apply (c : chan) (o : RenewalOutcome) (t1 t2 : MonoTime) :
    ch_clock c <= t1 -> t1 <= t2 ->
    chan_step c {| ch_clock := t2; ch_shared := snd (apply (ch_shared c) o (Ok t1) (Ok t2)) |}
| step_stop (c : chan) (r : StopReason) (t1 : MonoTime) :
    ch_clock c <= t1 ->
    chan_step c {| ch_clock := t1; ch_shared := stop (ch_shared c) r (Ok t1) |}
| step_acknowledge (c : chan) (n : N) :
    chan_step c {| ch_clock := ch_clock c; ch_shared := acknowledge_refresh (ch_shared c) n |}
| step_request (c : chan) (sa sa' : SupervisedAuthority) (t n : N) (sh : Shared) :
    ch_clock c <= t ->
    refresh_request {| lk_shared := ch_shared c; lk_clock := Ok t |} sa = (Ok (n, sh), sa') ->
    chan_step c {| ch_clock := t; ch_shared := sh |}
| step_handles (c : chan) (senders receivers : nat) :
    chan_step c {| ch_clock := ch_clock c;
                   ch_shared := with_handles senders receivers (ch_shared c) |}.

(** Authority has lapsed: stopped, or past the deadline of its window. *)
Definition lapsed (c : chan) : Prop :=
  match sh_state (ch_shared c) with
  | Stop _ => True
  | Live w => deadline w <= ch_clock c
  end.

Definition stopped_for (r : StopReason) (c : chan) : Prop := sh_state (ch_shared c) = Stop r.

Lemma live_lapsed (w : AuthorityWindow) (t : N) :
  deadline w <= t -> live (Live w) (Ok t) = Err AuthorityExpired.
Proof.
  intros H. simpl. unfold remaining, remaining_at; simpl.
  destruct (N.ltb_spec t (sent w)); [done|]. by destruct (N.leb_spec (deadline w) t); [|lia].
Qed.

Lemma update_state (sh : Shared) (id : AttemptAuthority) (next : AuthorityState)
  (c1 c2 : result LeaseError MonoTime) :
  sh_state (snd (update sh id next c1 c2)) =
  if bool_decide (id = sh_identity sh) then
    match sh_state sh with
    | Stop r => Stop r
    | Live w => if negb (is_ok (live (Live w) c1)) || negb (is_ok (live next c2)) && is_live next
                then Stop AuthorityExpired else next
    end
  else sh_state sh.
Proof.
  unfold update. case_bool_decide; simpl; [|done].
  by destruct (sh_state sh) eqn:E; simpl; rewrite ?E.
Qed.

Lemma apply_update (sh : Shared) (o : RenewalOutcome) (c1 c2 : result LeaseError MonoTime) :
  snd (apply sh o c1 c2) = sh \/
  exists id next, snd (apply sh o c1 c2) = snd (update sh id next c1 c2).
Proof.
  destruct o as [g|i d|i]; simpl; [right; eauto| |right; eauto].
  destruct d; simpl; eauto.
Qed.

(** An update of a lapsed channel at a later reading can only stop it. *)
Lemma update_lapsed (sh : Shared) (id : AttemptAuthority) (next : AuthorityState)
  (t t1 t2 : N) (c2 : result LeaseError MonoTime) :
  t <= t1 -> t1 <= t2 ->
  lapsed {| ch_clock := t; ch_shared := sh |} ->
  lapsed {| ch_clock := t2; ch_shared := snd (update sh id next (Ok t1) c2) |}.
Proof.
  unfold lapsed; simpl. intros H1 H2 Hl. rewrite update_state.
  case_bool_decide; destruct (sh_state sh) as [w|r]; try done; [|simpl in *; lia].
  by rewrite live_lapsed by lia.
Qed.

Lemma refresh_request_Ok (l : look) (sa sa' : SupervisedAuthority) (n : N) (sh : Shared) :
  refresh_request l sa = (Ok (n, sh), sa') ->
  n = sh_requested (lk_shared l) + 1 /\ n <= U64_MAX /\
  sh_state sh = sh_state (lk_shared l) /\ sh_requested sh = n /\
  sh_acknowledged sh = sh_acknowledged (lk_shared l) /\
  sh_identity sh = sh_identity (lk_shared l).
Proof.
  unfold refresh_request. destruct (check_at l sa) as [checked sa1]. intros [= H _].
  ok_inv. apply u64_checked_add_Some in H1 as [-> ?]. by simplify_eq/=.
Qed.

Lemma chan_step_lapsed (c c' : chan) : chan_step c c' -> lapsed c -> lapsed c'.
Proof.
  intros Hs Hl. destruct Hs as [c t|c o t1 t2|c r t1|c n|c sa sa' t n sh Ht H|c ss rr].
  - unfold lapsed in *; simpl in *. destruct (sh_state _); [lia|done].
  - destruct (apply_update (ch_shared c) o (Ok t1) (Ok t2)) as [->|(id & next & ->)].
    + unfold lapsed in *; simpl in *. destruct (sh_state _); [lia|done].
    + by eapply update_lapsed; [..|destruct c].
  - unfold stop. by eapply update_lapsed; [| |destruct c].
  - done.
  - apply refresh_request_Ok in H as (_ & _ & Hst & _). simpl in Hst.
    unfold lapsed in *; simpl in *. rewrite Hst. destruct (sh_state (ch_shared c)); [lia|done].
  - done.
Qed.

Lemma chan_step_stopped (r : StopReason) (c c' : chan) :
  chan_step c c' -> stopped_for r c -> stopped_for r c'.
Proof.
  unfold stopped_for. intros Hs Hl.
  destruct Hs as [c t|c o t1 t2|c r' t1|c n|c sa sa' t n sh Ht H|c ss rr]; simpl; try done.
  - destruct (apply_update (ch_shared c) o (Ok t1) (Ok t2)) as [->|(id & next & ->)]; [done|].
    rewrite update_state, Hl. by case_bool_decide.
  - unfold stop. rewrite update_state, Hl. by case_bool_decide.
  - apply refresh_request_Ok in H as (_ & _ & Hst & _). simpl in Hst. congruence.
Qed.

Lemma chan_steps_preserve (P : chan -> Prop) (c c' : chan) :
  (forall a b, chan_step a b -> P a -> P b) -> rtc chan_step c c' -> P c -> P c'.
Proof. intros Hp. induction 1; eauto. Qed.

Lemma lapsed_check (c : chan) (sa : SupervisedAuthority) (t : N) :
  lapsed c -> ch_clock c <= t ->
  active (ch_shared c) (Ok t) = false /\ exists r, fst (check (ch_shared c) sa (Ok t)) = Err r.
Proof.
  unfold lapsed, active, check. intros Hl Ht. destruct (sh_state (ch_shared c)) as [w|r]; simpl.
  - pose proof (live_lapsed w t ltac:(lia)) as Hw. simpl in Hw. rewrite Hw, andb_false_r.
    split; [done|]. case_bool_decide; eauto.
  - rewrite andb_false_r. eauto.
Qed.

(** C5: authority that has lapsed once is never resurrected.  From a channel
    that is stopped or past its deadline, no sequence of renewals, stops,
    refreshes, clones and clock advances leads to one that the controller sees
    active or that the supervised side can check successfully. *)
Theorem lapsed_authority_is_never_resurrected (c c' : chan) (sa : SupervisedAuthority) (t : N) :
  lapsed c -> rtc chan_step c c' -> ch_clock c' <= t ->
  active (ch_shared c') (Ok t) = false /\ exists r, fst (check (ch_shared c') sa (Ok t)) = Err r.
Proof.
  intros Hl Hs Ht. apply lapsed_check; [|done].
  eapply chan_steps_preserve; [|done..]. apply chan_step_lapsed.
Qed.

(** A stop permanently wins.  Whatever follows the first stop of a channel,
    later renewals included, every check of the supervised side reports the reason
    of that stop. *)
Theorem first_stop_permanently_wins (c c' : chan) (r : StopReason) (sa : SupervisedAuthority)
  (clock : result LeaseError MonoTime) :
  stopped_for r c -> rtc chan_step c c' -> fst (check (ch_shared c') sa clock) = Err r.
Proof.
  intros Hl Hs. assert (Hst : stopped_for r c').
  { eapply chan_steps_preserve; [|done..]. apply chan_step_stopped. }
  unfold stopped_for in Hst. unfold check. by rewrite Hst.
Qed.

Definition lapsed_fixture : chan :=
  {| ch_clock := 126000000000;
     ch_shared := {| sh_identity := member_fixture;
                     sh_state := Live {| sent := 100000000000; deadline := 125000000000 |};
                     sh_requested := 0; sh_acknowledged := 0; sh_senders := 1; sh_receivers := 1 |} |}.

Definition late_grant_fixture : RenewalOutcome :=
  Renewed {| rn_identity := member_fixture;
             rn_authority := {| sent := 125500000000; deadline := 150500000000 |} |}.

Lemma lapsed_authority_is_never_resurrected_witness :
  let c' := {| ch_clock := 127000000000;
               ch_shared := snd (apply (ch_shared lapsed_fixture) late_grant_fixture
                                   (Ok 126500000000) (Ok 127000000000)) |} in
  active (ch_shared c') (Ok 128000000000) = false
  /\ exists r, fst (check (ch_shared c')
       {| sa_identity := member_fixture; sa_last_window := {| sent := 0; deadline := 0 |} |}
       (Ok 128000000000)) = Err r.
Proof.
  apply (lapsed_authority_is_never_resurrected lapsed_fixture _ _ 128000000000).
  - unfold lapsed; simpl. lia.
  - apply rtc_once. apply (step_apply lapsed_fixture late_grant_fixture); simpl; lia.
  - simpl. lia.
Defined.

Definition stopped_fixture : chan :=
  {| ch_clock := 101000000000;
     ch_shared := stop (ch_shared lapsed_fixture) (StopRejected Decision_.Fenced) (Ok 101000000000) |}.

Lemma first_stop_permanently_wins_witness :
  fst (check (snd (apply (ch_shared stopped_fixture) late_grant_fixture
                     (Ok 126500000000) (Ok 127000000000)))
         {| sa_identity := member_fixture; sa_last_window := {| sent := 0; deadline := 0 |} |}
         (Ok 128000000000)) = Err (StopRejected Decision_.Fenced).
Proof.
  apply (first_stop_permanently_wins stopped_fixture
    {| ch_clock := 127000000000;
       ch_shared := snd (apply (ch_shared stopped_fixture) late_grant_fixture
                           (Ok 126500000000) (Ok 127000000000)) |}).
  - vm_compute; reflexivity.
  - apply rtc_once. apply (step_apply stopped_fixture late_grant_fixture); simpl; lia.
Defined.

(** * Supervision *)

Definition look_live (l : look) : Prop :=
  exists w t, sh_state (lk_shared l) = Live w /\ lk_clock l = Ok t /\
    sent w <= t < deadline w /\ sh_senders (lk_shared l) <> 0%nat.

Lemma check_at_live (l : look) (sa sa' : SupervisedAuthority) (d : Duration) :
  check_at l sa = (Ok d, sa') -> look_live l.
Proof.
  unfold check_at, check. destruct (sh_state (lk_shared l)) as [w|r] eqn:E; intros [= H _].
  case_bool_decide as Hs; [done|]. simpl in H. ok_inv.
  apply remaining_Ok in H as (t & Ht & Hr). apply remaining_at_Ok in Hr as (? & ? & _).
  exists w, t. by split_and!.
Qed.

(** A value that leaves [while_live] was completed by one of its turns, and the
    authority was live when that turn started and when the value was returned. *)
Lemma while_live_Ok {T : Type} (turns : list (look * wake T)) (sa sa' : SupervisedAuthority) (t : T) :
  while_live turns sa = (Some (Ok t), sa') ->
  exists before after, (before, Completed t after) ∈ turns /\ look_live before /\ look_live after.
Proof.
  revert sa. induction turns as [|[l e] turns IH]; intros sa H; cbn [while_live] in H; [done|].
  destruct (check_at l sa) as [[d|r] sa1] eqn:E1; [|by simplify_eq]. apply check_at_live in E1.
  destruct e as [t' after|].
  - destruct (check_at after sa1) as [[d2|r] sa2] eqn:E2; [|by simplify_eq]. apply check_at_live in E2.
    injection H as -> ->. exists l, after. by split_and!; [left|..].
  - apply IH in H as (b & a & Hin & Hb & Ha). exists b, a. by split_and!; [right|..].
Qed.

Lemma supervise_loop_exit (rounds : list round) (sa sa' : SupervisedAuthority)
  (status : ContainerStatus) :
  supervise_loop rounds sa = (Some (inl status), sa') ->
  exited status = true /\
  exists r before after, r ∈ rounds /\ (before, Completed (Ok status) after) ∈ inspecting r /\
    look_live before /\ look_live after.
Proof.
  revert sa. induction rounds as [|r rounds IH]; intros sa H; cbn [supervise_loop] in H; [done|].
  destruct (while_live (inspecting r) sa) as [[[[st|e]|reason]|] sa1] eqn:E1; try done.
  destruct (exited st) eqn:Hx.
  - injection H as -> ->. apply while_live_Ok in E1 as (b & a & ? & ? & ?).
    split; [done|]. exists r, b, a. by split_and!; [left|..].
  - destruct (running st); [|done].
    destruct (while_live (sleeping r) sa1) as [[[u|reason]|] sa2]; try done.
    apply IH in H as (? & r' & b & a & Hr & ?). split; [done|].
    exists r', b, a. split; [by right|done].
Qed.

(** An exit is reported only under live authority.  When supervision reports
    a container's exit, some inspection of the supervised container returned that
    very status, the status is at rest with an exit code in 0..255, the window
    was live both before the inspection and after it, and nothing was killed. *)
Theorem exit_reported_only_under_live_authority (rounds : list round) (sa : SupervisedAuthority)
  (clock : result LeaseError MonoTime) (stopped : option (result RuntimeError.t unit))
  (inspected : option (result RuntimeError.t ContainerStatus)) (status : ContainerStatus)
  (calls : list runtime_call) :
  supervise_running rounds sa clock stopped inspected = Some (ExitedWith status, calls) ->
  calls = [] /\ running status = false /\ at_rest (container_state status) = true /\
  (exists code, exit_code status = Some code /\ (0 <= code <= 255)%Z) /\
  exists r before after, r ∈ rounds /\ (before, Completed (Ok status) after) ∈ inspecting r /\
    look_live before /\ look_live after.
Proof.
  unfold supervise_running. destruct (supervise_loop rounds sa) as [[[st|reason]|] sa'] eqn:E; try done.
  - intros [= -> <-]. apply supervise_loop_exit in E as [Hx Hr].
    unfold exited in Hx. destruct (exit_code status) as [code|]; bools; [|naive_solver].
    destruct Hx as [[? ?] [? ?]]. by split_and!; [..|exists code|].
  - by destruct (if bool_decide _ then _ else _).
Qed.

Definition open_shared_fixture : Shared :=
  {| sh_identity := member_fixture;
     sh_state := Live {| sent := 100000000000; deadline := 125000000000 |};
     sh_requested := 0; sh_acknowledged := 0; sh_senders := 1; sh_receivers := 1 |}.

Definition look_fixture (t : N) : look :=
  {| lk_shared := open_shared_fixture; lk_clock := Ok t |}.

Definition exit_fixture : ContainerStatus :=
  {| running := false; exit_code := Some 3%Z; oom_killed := false;
     container_state := ContainerState.Exited |}.

Definition round_fixture : round :=
  {| inspecting := [(look_fixture 101000000000, Woken);
                    (look_fixture 101100000000,
                     Completed (Ok exit_fixture) (look_fixture 101200000000))];
     sleeping := [] |}.

Lemma exit_reported_only_under_live_authority_witness :
  @nil runtime_call = [] /\ running exit_fixture = false.
Proof.
  pose proof (exit_reported_only_under_live_authority [round_fixture]
    {| sa_identity := member_fixture; sa_last_window := {| sent := 0; deadline := 0 |} |}
    (Ok 0) None None exit_fixture [] eq_refl) as (H1 & H2 & _).
  exact (conj H1 H2).
Defined.

Definition budget (calls : list runtime_call) : Duration :=
  fold_right (fun c acc => call_timeout c + acc) 0 calls.

(** A requested stop never outlives the authority it runs under.  All
    runtime calls of [terminate_requested], timeouts included, fit the remaining
    authority, or are only the immediate kill and inspection; the grace given to
    the user is at most what was asked and at most 300 s; and a confirmation
    rests on a confirmed stop, a container seen at rest, or one that is gone. *)
Theorem requested_stop_fits_authority (grace : N) (left : Duration)
  (stopped : option (result RuntimeError.t unit))
  (inspected : option (result RuntimeError.t ContainerStatus))
  (confirmed : bool) (calls : list runtime_call) :
  terminate_requested grace left stopped inspected = (confirmed, calls) ->
  (budget calls <= left \/ calls = [CallKill CLEANUP_BUDGET; CallInspect CLEANUP_BUDGET]) /\
  Forall (fun c => match c with CallStop g _ => 0 < g <= N.min grace 300 | _ => True end) calls /\
  (confirmed = true ->
     stopped = Some (Ok tt) \/ inspected = Some (Err (RuntimeError.Daemon 404)) \/
     exists status, inspected = Some (Ok status) /\ running status = false
       /\ at_rest (container_state status) = true).
Proof.
  unfold terminate_requested, saturating_sub.
  set (g := N.min grace (N.min (as_secs (left - CLEANUP_BUDGET * 3)) 300)).
  assert (Hg : from_secs g <= left - CLEANUP_BUDGET * 3).
  { subst g. unfold from_secs, as_secs.
    pose proof (N.Div0.mul_div_le (left - CLEANUP_BUDGET * 3) 1000000000). lia. }
  assert (Hev : fst (terminate inspected) = true ->
    inspected = Some (Err (RuntimeError.Daemon 404)) \/
    exists status, inspected = Some (Ok status) /\ running status = false
       /\ at_rest (container_state status) = true).
  { unfold terminate; simpl. destruct inspected as [[st|[| | | | | |n| |]]|]; try done.
    - intros H. bools. right. exists st. naive_solver.
    - intros H. left. destruct n as [|n]; [done|]. repeat (destruct n as [n|n|]; try done). }
  unfold from_secs, CLEANUP_BUDGET in *.
  destruct (N.ltb_spec 0 g) as [Hpos|Hz].
  - destruct stopped as [[[]|e]|]; intros [= <- <-];
      (split_and!; [left; simpl; unfold CLEANUP_BUDGET, from_secs in *; lia
                   |repeat (apply Forall_cons_2; [first [exact I | subst g; lia]|]);
                    apply Forall_nil_2
                   |auto]); intros; right; by apply Hev.
  - intros H. pose proof (f_equal snd H) as H2. pose proof (f_equal fst H) as H1. simpl in H1, H2.
    subst calls. split_and!; [by right|by repeat constructor|].
    intros Hc. rewrite <- H1 in Hc. right. by apply Hev.
Qed.

Lemma requested_stop_fits_authority_witness :
  budget [CallStop 5 10000000000; CallKill CLEANUP_BUDGET; CallInspect CLEANUP_BUDGET]
    <= 20500000000
  \/ [CallStop 5 10000000000; CallKill CLEANUP_BUDGET; CallInspect CLEANUP_BUDGET]
     = [CallKill CLEANUP_BUDGET; CallInspect CLEANUP_BUDGET].
Proof.
  exact (proj1 (requested_stop_fits_authority 10 20500000000 None (Some (Ok exit_fixture)) true
    [CallStop 5 10000000000; CallKill CLEANUP_BUDGET; CallInspect CLEANUP_BUDGET] eq_refl)).
Defined.
