(* ===== verification/Maintain.v ===== *)
(** The lease-maintenance loop ([rust/worker/src/control/renew/maintain.rs]).

    A [Batch] is the list of channels of its controllers.  One turn of the loop
    is [prepare] (up to the RPC) and [finish] (from its reply to the wait); the
    channels may change between them.  Each function takes the clock readings of
    its [active] checks and updates, by controller or by outcome position. *)

From S2P Require Import Prelude Protocol Lease Control Renew Supervisor.
Open Scope N_scope.

Abbreviation Batch := (list Shared).
Definition readings := nat -> result LeaseError MonoTime.

Record Timing := {
  period : Duration;
  retry : Duration;
}.

(** The timing of [maintain_leases]. *)
Definition lease_timing : Timing := {| period := from_secs 5; retry := from_secs 1 |}.

Record Pending := {
  pd_request : RenewLeasesRequest;
  pd_revisions : list N;
}.

Definition stop_all (batch : Batch) (reason : StopReason) (clk : readings) : Batch :=
  imap (fun n c => stop c reason (clk n)) batch.

Definition any_active (batch : Batch) (clk : readings) : bool :=
  existsb (fun '(n, c) => active c (clk n)) (imap pair batch).

(** [Batch::request]; [uuid] is what [new_uuid] returned. *)
Definition batch_request (batch : Batch) (active_only : bool) (clk : readings)
  (uuid : option string) : result ClientError RenewLeasesRequest :=
  let? first := ok_or (head batch) Configuration in
  let? request_id := ok_or uuid Random in
  Ok {| rl_session := Some {| ws_worker_id := aa_worker_id (sh_identity first);
                              ws_session_id := aa_session_id (sh_identity first) |};
        rl_request_id := request_id;
        rl_attempts := map (fun '(_, c) => sh_identity c)
          (List.filter (fun '(n, c) => negb active_only || active c (clk n)) (imap pair batch)) |}.

(** The checks before the loop. *)
Definition maintain_start (batch : Batch) (uuid : option string) : result ClientError unit :=
  if bool_decide (batch = []) || (64 <? len batch) then Err Configuration
  else
    let? request := batch_request batch false (fun _ => Err Clock) uuid in
    Renew.validate_request request.

(** From the top of the loop to the RPC: a return value, or the batch to send. *)
Definition prepare (batch : Batch) (pending : option Pending) (clk1 clk2 : readings)
  (uuid : option string) : result ClientError unit + Pending :=
  if negb (any_active batch clk1) then inl (Ok tt)
  else
    match (match pending with
           | Some p => Ok p
           | None =>
               let refresh_revisions := map refresh_revision batch in
               let? request := batch_request batch true clk2 uuid in
               Ok {| pd_request := request; pd_revisions := refresh_revisions |}
           end) with
    | Err e => inl (Err e)
    | Ok p =>
        if bool_decide (rl_attempts (pd_request p) = []) then inl (Ok tt) else inr p
    end.

Definition is_renewed (o : RenewalOutcome) : bool :=
  match o with
  | Renewed _ => true
  | _ => false
  end.

(** The readings of one outcome: two of the update, one of [active]. *)
Record apply_readings := {
  ar_current : result LeaseError MonoTime;
  ar_next : result LeaseError MonoTime;
  ar_active : result LeaseError MonoTime;
}.

(** The loop over the outcomes.  [pd_revisions] has one entry per controller, so
    the index of the captured revision is always in range. *)
Fixpoint apply_outcomes (revisions : list N) (clk : nat -> apply_readings) (stop_clk : readings)
  (n : nat) (outcomes : list RenewalOutcome) (batch : Batch) : result ClientError unit * Batch :=
  match outcomes with
  | [] => (Ok tt, batch)
  | outcome :: outcomes' =>
      match list_find (fun c => sh_identity c = outcome_identity outcome) batch with
      | None => (Err Response, batch)
      | Some (index, controller) =>
          let r := clk n in
          match apply controller outcome (ar_current r) (ar_next r) with
          | (Err _, c) => (Err Response, stop_all (<[index := c]> batch) RenewalFailed stop_clk)
          | (Ok _, c) =>
              let c' := if is_renewed outcome && active c (ar_active r)
                        then acknowledge_refresh c (default 0 (revisions !! index))
                        else c in
              apply_outcomes revisions clk stop_clk (S n) outcomes' (<[index := c']> batch)
          end
      end
  end.

Inductive turn : Type :=
| Return (value : result ClientError unit) (batch : Batch)
| Continue (batch : Batch) (pending : option Pending) (delay : Duration).

(** The second test for activity, and the wait. *)
Definition after_reply (batch : Batch) (pending : option Pending) (delay : Duration)
  (clk : readings) : turn :=
  if negb (any_active batch clk) then Return (Ok tt) batch else Continue batch pending delay.

Definition mismatched (request : RenewLeasesRequest) (outcomes : list RenewalOutcome) : bool :=
  negb (len outcomes =? len (rl_attempts request))
  || existsb (fun '(outcome, expected) => negb (bool_decide (outcome_identity outcome = expected)))
       (zip outcomes (rl_attempts request)).

(** From the reply ([Err Deadline] when the timeout elapsed) to the wait. *)
Definition finish (timing : Timing) (batch : Batch) (p : Pending)
  (reply : result ClientError (list RenewalOutcome)) (elapsed : Duration)
  (clk : nat -> apply_readings) (stop_clk active_clk : readings) : turn :=
  match reply with
  | Ok outcomes =>
      if mismatched (pd_request p) outcomes
      then Return (Err Response) (stop_all batch RenewalFailed stop_clk)
      else
        match apply_outcomes (pd_revisions p) clk stop_clk 0 outcomes batch with
        | (Err e, batch') => Return (Err e) batch'
        | (Ok _, batch') =>
            after_reply batch' None (saturating_sub (period timing) elapsed) active_clk
        end
  | Err error =>
      if retryable error then after_reply batch (Some p) (retry timing) active_clk
      else Return (Err error) (stop_all batch RenewalFailed stop_clk)
  end.

(** [Drop for Batch]: runs on every return and on cancellation of the future. *)
Definition drop_batch (batch : Batch) (clk : readings) : Batch := stop_all batch ControllerLost clk.

(** One test of [wait_for_period_or_refresh]. *)
Definition wait_over (batch : Batch) (clk : readings) (deadline_passed : bool) : bool :=
  existsb (fun '(n, c) => needs_refresh c (clk n)) (imap pair batch) || deadline_passed.

(** * Lemmas *)

Definition same_counters (c c' : Shared) : Prop :=
  sh_identity c' = sh_identity c /\ sh_requested c' = sh_requested c
  /\ sh_acknowledged c' = sh_acknowledged c.

Lemma update_counters (sh : Shared) (id : AttemptAuthority) (next : AuthorityState)
  (c1 c2 : result LeaseError MonoTime) : same_counters sh (snd (update sh id next c1 c2)).
Proof. unfold update. case_bool_decide; simpl; [by destruct (sh_state sh)|done]. Qed.

Lemma apply_counters (sh : Shared) (o : RenewalOutcome) (c1 c2 : result LeaseError MonoTime) :
  same_counters sh (snd (apply sh o c1 c2)).
Proof.
  destruct (apply_update sh o c1 c2) as [->|(id & next & ->)]; [done|]. apply update_counters.
Qed.

Lemma stop_counters (sh : Shared) (r : StopReason) (c1 : result LeaseError MonoTime) :
  same_counters sh (stop sh r c1).
Proof. apply update_counters. Qed.

Lemma stop_stopped (sh : Shared) (r : StopReason) (c1 : result LeaseError MonoTime) :
  exists r', sh_state (stop sh r c1) = Stop r'.
Proof.
  unfold stop. rewrite update_state, bool_decide_true by done.
  destruct (sh_state sh); simpl; [|eauto].
  destruct (negb _); simpl; eauto.
Qed.

(** What the application of a reply may do to the channels of a batch: counters
    move only by acknowledging the captured revision of that controller. *)
Definition advanced (revisions : list N) (b b' : Batch) : Prop :=
  List.length b' = List.length b /\
  forall n c', b' !! n = Some c' -> exists c, b !! n = Some c /\
    sh_identity c' = sh_identity c /\ sh_requested c' = sh_requested c /\
    (sh_acknowledged c' = sh_acknowledged c \/
     sh_acknowledged c' = N.max (sh_acknowledged c) (default 0 (revisions !! n))).

#[global] Instance advanced_preorder (revisions : list N) : PreOrder (advanced revisions).
Proof.
  split.
  - intros b. split; [done|]. intros n c H. exists c. auto.
  - intros b1 b2 b3 [Hl1 H1] [Hl2 H2]. split; [congruence|]. intros n c3 Hc3.
    destruct (H2 n c3 Hc3) as (c2 & Hc2 & Hi2 & Hr2 & Ha2).
    destruct (H1 n c2 Hc2) as (c1 & Hc1 & Hi1 & Hr1 & Ha1).
    exists c1. split_and!; [done|congruence|congruence|].
    destruct Ha1 as [Ha1|Ha1], Ha2 as [Ha2|Ha2]; rewrite Ha2, Ha1; auto. right. lia.
Qed.

Lemma advanced_insert (revisions : list N) (b : Batch) (n : nat) (c c' : Shared) :
  b !! n = Some c -> sh_identity c' = sh_identity c -> sh_requested c' = sh_requested c ->
  (sh_acknowledged c' = sh_acknowledged c \/
   sh_acknowledged c' = N.max (sh_acknowledged c) (default 0 (revisions !! n))) ->
  advanced revisions b (<[n := c']> b).
Proof.
  intros Hc Hi Hr Ha. split; [apply length_insert|]. intros m x Hx.
  destruct (decide (n = m)) as [<-|Hne].
  - rewrite list_lookup_insert_eq in Hx by (by eapply lookup_lt_Some). injection Hx as <-. eauto.
  - rewrite list_lookup_insert_ne in Hx by done. exists x. auto.
Qed.

Lemma advanced_stop_all (revisions : list N) (b : Batch) (r : StopReason) (clk : readings) :
  advanced revisions b (stop_all b r clk).
Proof.
  unfold stop_all. split; [apply length_imap|]. intros n c' H.
  apply list_lookup_imap_Some in H as (c & Hc & ->).
  destruct (stop_counters c r (clk n)) as (-> & -> & ->). exists c. auto.
Qed.

Lemma apply_outcomes_advanced (revisions : list N) (clk : nat -> apply_readings)
  (stop_clk : readings) (outcomes : list RenewalOutcome) (n : nat) (b b' : Batch)
  (r : result ClientError unit) :
  apply_outcomes revisions clk stop_clk n outcomes b = (r, b') -> advanced revisions b b'.
Proof.
  revert n b. induction outcomes as [|o os IH]; intros n b H; cbn [apply_outcomes] in H.
  - by injection H as _ <-.
  - destruct (list_find _ b) as [[i c]|] eqn:Hf; [|by injection H as _ <-].
    apply list_find_Some in Hf as (Hc & _).
    destruct (apply_counters c o (ar_current (clk n)) (ar_next (clk n))) as (Hi & Hr & Ha).
    destruct (apply c o _ _) as [[u|e] c1]; simpl in *.
    + etrans; [|by eapply IH]. 
      destruct (_ && _); apply advanced_insert with c; simpl; rewrite ?Ha; auto.
    + injection H as _ <-. etrans; [|apply advanced_stop_all].
      by apply advanced_insert with c; auto.
Qed.

(** * The loop and its environment *)

Record system := {
  sy_batch : Batch;
  sy_pending : option Pending;
}.

(** What the rest of the worker may do to a channel meanwhile: request a refresh,
    stop it through a cloned controller, clone or drop handles.  Only the loop
    acknowledges. *)
Definition evolves (c c' : Shared) : Prop :=
  sh_identity c' = sh_identity c /\ sh_requested c <= sh_requested c'
  /\ sh_acknowledged c' = sh_acknowledged c.

(** Steps while a given batch is in flight: the environment, a resend, a reply. *)
Inductive inflight_step (timing : Timing) : system -> system -> Prop :=
| if_env (s : system) (b : Batch) :
    Forall2 evolves (sy_batch s) b ->
    inflight_step timing s {| sy_batch := b; sy_pending := sy_pending s |}
| if_resend (s : system) (p q : Pending) (clk1 clk2 : readings) (uuid : option string) :
    sy_pending s = Some p -> prepare (sy_batch s) (Some p) clk1 clk2 uuid = inr q ->
    inflight_step timing s {| sy_batch := sy_batch s; sy_pending := Some q |}
| if_reply (s : system) (p : Pending) (reply : result ClientError (list RenewalOutcome))
    (elapsed delay : Duration) (clk : nat -> apply_readings) (stop_clk active_clk : readings)
    (b : Batch) (pending : option Pending) :
    sy_pending s = Some p ->
    finish timing (sy_batch s) p reply elapsed clk stop_clk active_clk = Continue b pending delay ->
    inflight_step timing s {| sy_batch := b; sy_pending := pending |}.

(** All steps: also a fresh batch when none is pending. *)
Inductive system_step (timing : Timing) : system -> system -> Prop :=
| sy_inflight (s s' : system) : inflight_step timing s s' -> system_step timing s s'
| sy_prepare (s : system) (p : Pending) (clk1 clk2 : readings) (uuid : option string) :
    sy_pending s = None -> prepare (sy_batch s) None clk1 clk2 uuid = inr p ->
    system_step timing s {| sy_batch := sy_batch s; sy_pending := Some p |}.

(** Nothing is acknowledged, nor captured for acknowledgement, that was not requested. *)
Definition system_ok (s : system) : Prop :=
  (forall n c, sy_batch s !! n = Some c -> sh_acknowledged c <= sh_requested c) /\
  (forall p n c, sy_pending s = Some p -> sy_batch s !! n = Some c ->
     default 0 (pd_revisions p !! n) <= sh_requested c).

(** Controller [n] has not been acknowledged up to [revision], nor can the batch in
    flight do so. *)
Definition unsatisfied (n : nat) (revision : N) (s : system) : Prop :=
  (forall c, sy_batch s !! n = Some c -> sh_acknowledged c < revision) /\
  (forall p, sy_pending s = Some p -> default 0 (pd_revisions p !! n) < revision).

Lemma prepare_resend (b : Batch) (p q : Pending) (clk1 clk2 : readings) (uuid : option string) :
  prepare b (Some p) clk1 clk2 uuid = inr q -> q = p.
Proof.
  unfold prepare. destruct (negb _); [done|]. case_bool_decide; [done|]. by intros [= <-].
Qed.

Lemma prepare_fresh (b : Batch) (p : Pending) (clk1 clk2 : readings) (uuid : option string) :
  prepare b None clk1 clk2 uuid = inr p -> pd_revisions p = map sh_requested b.
Proof.
  unfold prepare. destruct (negb _); [done|].
  destruct (batch_request _ _ _ _); simpl; [|done]. case_bool_decide; [done|]. by intros [= <-].
Qed.

Lemma finish_Continue (timing : Timing) (b b' : Batch) (p : Pending)
  (reply : result ClientError (list RenewalOutcome)) (elapsed delay : Duration)
  (clk : nat -> apply_readings) (stop_clk active_clk : readings) (pending : option Pending) :
  finish timing b p reply elapsed clk stop_clk active_clk = Continue b' pending delay ->
  advanced (pd_revisions p) b b' /\ (pending = None \/ pending = Some p /\ b' = b).
Proof.
  unfold finish, after_reply. destruct reply as [outcomes|e].
  - destruct (mismatched _ _); [done|].
    destruct (apply_outcomes _ _ _ _ _ _) as [[u|e] b1] eqn:E; [|done].
    apply apply_outcomes_advanced in E. destruct (negb _); [done|]. intros [= <- <- _]. auto.
  - destruct (retryable e); [|done]. destruct (negb _); [done|]. intros [= <- <- _].
    split; [reflexivity|auto].
Qed.

Lemma inflight_step_ok (timing : Timing) (s s' : system) :
  inflight_step timing s s' -> system_ok s -> system_ok s'.
Proof.
  intros Hs [Hack Hcap]. destruct Hs as [s b Hb|s p q c1 c2 u Hp Hq|s p reply e d k1 k2 k3 b q Hp Hf].
  - split; simpl.
    + intros n c Hc. eapply Forall2_lookup_r in Hb as (c0 & Hc0 & _ & Hr & ->); [|done].
      specialize (Hack n c0 Hc0). lia.
    + intros p n c Hp Hc. eapply Forall2_lookup_r in Hb as (c0 & Hc0 & _ & Hr & _); [|done].
      specialize (Hcap p n c0 Hp Hc0). lia.
  - apply prepare_resend in Hq as ->. split; simpl; [done|]. intros p' n c [= <-]. by apply Hcap.
  - apply finish_Continue in Hf as [[_ Hadv] Hq]. split; simpl.
    + intros n c' Hc'. destruct (Hadv n c' Hc') as (c & Hc & _ & Hr & Ha).
      specialize (Hack n c Hc). specialize (Hcap p n c Hp Hc). destruct Ha; lia.
    + intros p' n c' Hp' Hc'. destruct (Hadv n c' Hc') as (c & Hc & _ & -> & _).
      destruct Hq as [->|[-> ->]]; [done|]. injection Hp' as <-. by apply Hcap with (n := n).
Qed.

Lemma system_step_ok (timing : Timing) (s s' : system) :
  system_step timing s s' -> system_ok s -> system_ok s'.
Proof.
  intros Hs Hok. destruct Hs as [s s' Hs|s p c1 c2 u Hn Hp]; [by eapply inflight_step_ok|].
  destruct Hok as [Hack Hcap]. split; simpl; [done|]. intros p' n c [= <-] Hc.
  apply prepare_fresh in Hp as ->. rewrite (list_lookup_fmap sh_requested), Hc. simpl. lia.
Qed.

Lemma inflight_step_unsatisfied (timing : Timing) (n : nat) (revision : N) (s s' : system) :
  inflight_step timing s s' -> unsatisfied n revision s -> unsatisfied n revision s'.
Proof.
  intros Hs [Hack Hcap]. destruct Hs as [s b Hb|s p q c1 c2 u Hp Hq|s p reply e d k1 k2 k3 b q Hp Hf].
  - split; simpl; [|done]. intros c Hc.
    eapply Forall2_lookup_r in Hb as (c0 & Hc0 & _ & _ & ->); [|done]. by apply Hack.
  - apply prepare_resend in Hq as ->. split; simpl; [done|]. intros p' [= <-]. by apply Hcap.
  - apply finish_Continue in Hf as [[_ Hadv] Hq]. split; simpl.
    + intros c' Hc'. destruct (Hadv n c' Hc') as (c & Hc & _ & _ & Ha).
      specialize (Hack c Hc). specialize (Hcap p Hp). destruct Ha; lia.
    + intros p' Hp'. destruct Hq as [->|[-> _]]; [done|]. injection Hp' as <-. by apply Hcap.
Qed.

Lemma steps_preserve (P : system -> Prop) (R : system -> system -> Prop) (s s' : system) :
  (forall a b, R a b -> P a -> P b) -> rtc R s s' -> P s -> P s'.
Proof. intros Hp. induction 1; eauto. Qed.

(** A batch as [authority_channel] hands it out. *)
Definition fresh_system (s : system) : Prop :=
  sy_pending s = None /\
  forall n c, sy_batch s !! n = Some c -> sh_acknowledged c <= sh_requested c.

Definition with_channel (s : system) (n : nat) (c : Shared) : system :=
  {| sy_batch := <[n := c]> (sy_batch s); sy_pending := sy_pending s |}.

(** C22: a refresh is satisfied only by a batch built after it.  If controller [n]
    of a running batch requests revision [rev], then however many replies and
    resends of the batch in flight follow, the request stays unacknowledged: only
    a batch prepared afterwards can satisfy the barrier of [refresh]. *)
Theorem refresh_waits_for_a_later_batch (timing : Timing) (s0 s s' : system) (n : nat)
  (c c1 c' : Shared) (sa sa' : SupervisedAuthority) (clock : result LeaseError MonoTime) (rev : N) :
  fresh_system s0 -> rtc (system_step timing) s0 s -> sy_batch s !! n = Some c ->
  refresh_request {| lk_shared := c; lk_clock := clock |} sa = (Ok (rev, c1), sa') ->
  rtc (inflight_step timing) (with_channel s n c1) s' -> sy_batch s' !! n = Some c' ->
  sh_acknowledged c' < rev.
Proof.
  intros [Hn Hack] Hreach Hc Hreq Hrun Hc'.
  assert (Hok : system_ok s).
  { eapply (steps_preserve system_ok); [apply system_step_ok|done|]. split; [done|]. by rewrite Hn. }
  apply refresh_request_Ok in Hreq as (-> & _ & _ & Hr1 & Ha1 & _). simpl in *.
  assert (Hun : unsatisfied n (sh_requested c + 1) (with_channel s n c1)).
  { destruct Hok as [Hok1 Hok2]. split; simpl.
    - intros x Hx. rewrite list_lookup_insert_eq in Hx by (by eapply lookup_lt_Some).
      injection Hx as <-. specialize (Hok1 n c Hc). lia.
    - intros p Hp. specialize (Hok2 p n c Hp Hc). lia. }
  eapply (steps_preserve (unsatisfied n _)) in Hun; [|apply inflight_step_unsatisfied|done].
  destruct Hun as [Hun _]. by apply Hun.
Qed.

Definition system_fixture (c : Shared) : system := {| sy_batch := [c]; sy_pending := None |}.

Definition requested_fixture : Shared :=
  {| sh_identity := member_fixture;
     sh_state := Live {| sent := 100000000000; deadline := 125000000000 |};
     sh_requested := 1; sh_acknowledged := 0; sh_senders := 1; sh_receivers := 1 |}.

Definition now_fixture : readings := fun _ => Ok 101000000000.

Lemma refresh_waits_for_a_later_batch_witness :
  sh_acknowledged requested_fixture < 1.
Proof.
  pose (p := {| pd_request := request_fixture; pd_revisions := [0] |}).
  apply (refresh_waits_for_a_later_batch lease_timing (system_fixture open_shared_fixture)
    {| sy_batch := [open_shared_fixture]; sy_pending := Some p |}
    {| sy_batch := [requested_fixture]; sy_pending := Some p |} 0
    open_shared_fixture requested_fixture requested_fixture
    {| sa_identity := member_fixture; sa_last_window := {| sent := 0; deadline := 0 |} |}
    {| sa_identity := member_fixture;
       sa_last_window := {| sent := 100000000000; deadline := 125000000000 |} |} (Ok 101000000000)).
  - split; [done|]. intros [|n] c; [|done]. intros [= <-]. done.
  - apply rtc_once. eapply (sy_prepare lease_timing (system_fixture open_shared_fixture) p
      now_fixture now_fixture (Some "00000000-0000-0000-0000-000000000003"%string)); reflexivity.
  - reflexivity.
  - reflexivity.
  - apply rtc_once. eapply (if_reply lease_timing
      (with_channel {| sy_batch := [open_shared_fixture]; sy_pending := Some p |} 0 requested_fixture)
      p (Err Connection) 0 (retry lease_timing)
      (fun _ => {| ar_current := Err Clock; ar_next := Err Clock; ar_active := Err Clock |})
      now_fixture now_fixture); reflexivity.
  - reflexivity.
Defined.

(** Renewal never ends with live authority left behind.  Whatever reply makes
    the loop return, after the batch is dropped every controller of it is stopped;
    and a reply whose identities do not match the request stops all of them
    before any grant of it is applied. *)
Theorem maintenance_ends_stopped (timing : Timing) (batch b : Batch) (p : Pending)
  (reply : result ClientError (list RenewalOutcome)) (elapsed : Duration)
  (clk : nat -> apply_readings) (stop_clk active_clk drop_clk : readings)
  (value : result ClientError unit) :
  finish timing batch p reply elapsed clk stop_clk active_clk = Return value b ->
  Forall (fun c => exists r, sh_state c = Stop r) (drop_batch b drop_clk) /\
  (forall outcomes, reply = Ok outcomes -> mismatched (pd_request p) outcomes = true ->
     value = Err Response /\ Forall (fun c => exists r, sh_state c = Stop r) b).
Proof.
  assert (Hall : forall b r k, Forall (fun c => exists r, sh_state c = Stop r) (stop_all b r k)).
  { intros b0 r k. apply Forall_lookup_2. intros n c Hc.
    apply list_lookup_imap_Some in Hc as (c0 & _ & ->). apply stop_stopped. }
  intros H. split; [apply Hall|]. intros outcomes -> Hm. unfold finish in H. rewrite Hm in H.
  injection H as <- <-. split; [done|]. apply Hall.
Qed.

Lemma maintenance_ends_stopped_witness :
  Forall (fun c => exists r, sh_state c = Stop r)
    (drop_batch (stop_all [open_shared_fixture] RenewalFailed now_fixture) now_fixture).
Proof.
  exact (proj1 (maintenance_ends_stopped lease_timing [open_shared_fixture] _
    {| pd_request := request_fixture; pd_revisions := [0] |} (Ok []) 0
    (fun _ => {| ar_current := Err Clock; ar_next := Err Clock; ar_active := Err Clock |})
    now_fixture now_fixture now_fixture _ eq_refl)).
Defined.

(** An ambiguous renewal is retried unchanged.  After a retryable failure the
    windows of the batch are untouched and the pending request is kept, and as
    long as some member is active the next turn sends exactly that request again,
    whatever has happened to the channels meanwhile. *)
Theorem ambiguous_renewal_is_retried_unchanged (timing : Timing) (batch later : Batch)
  (p : Pending) (error : ClientError) (elapsed : Duration) (clk : nat -> apply_readings)
  (stop_clk active_clk clk1 clk2 : readings) (uuid : option string) :
  retryable error = true -> rl_attempts (pd_request p) <> [] ->
  finish timing batch p (Err error) elapsed clk stop_clk active_clk =
    (if any_active batch active_clk then Continue batch (Some p) (retry timing)
     else Return (Ok tt) batch) /\
  prepare later (Some p) clk1 clk2 uuid =
    (if any_active later clk1 then inr p else inl (Ok tt)).
Proof.
  intros Hr Hne. unfold finish, after_reply, prepare. rewrite Hr. split.
  - by destruct (any_active batch active_clk).
  - destruct (any_active later clk1); simpl; [|done]. by rewrite bool_decide_false.
Qed.

Lemma ambiguous_renewal_is_retried_unchanged_witness :
  prepare [requested_fixture] (Some {| pd_request := request_fixture; pd_revisions := [0] |})
    now_fixture now_fixture None = inr {| pd_request := request_fixture; pd_revisions := [0] |}.
Proof.
  exact (proj2 (ambiguous_renewal_is_retried_unchanged lease_timing [open_shared_fixture]
    [requested_fixture] {| pd_request := request_fixture; pd_revisions := [0] |} Connection 0
    (fun _ => {| ar_current := Err Clock; ar_next := Err Clock; ar_active := Err Clock |})
    now_fixture now_fixture now_fixture now_fixture None eq_refl ltac:(discriminate))).
Defined.
