(* ===== verification/LogFormat.v ===== *)
(** The log segment format: the Rust writer ([rust/worker/src/log_format.rs]) and
    the control plane's decoder ([internal/logformat/logformat.go]).

    The writer is the record of its buffer and counters; a failed [append]
    leaves it unchanged, so it returns the new writer or an error.  The decoder
    calls [uuid.Parse]; that third-party check is the parameter [uuid_ok]. *)

From S2P Require Import Prelude Protocol Lease Control.
Open Scope N_scope.

Definition MAX_SEGMENT_BYTES : N := 1048576.
Definition HEADER_BYTES : N := 48.
Definition RECORD_HEADER_BYTES : N := 20.
Definition MAX_GAPS : N := 1024.

Inductive LogFormatError : Type := FormatInvalid | Sequence | Full | GapLimit.

Record SequenceGap := {
  sg_first : N;
  sg_last : N;
}.

#[global] Instance SequenceGap_eq_dec : EqDecision SequenceGap.
Proof. solve_decision. Defined.

Record LogSegment := {
  seg_bytes : bytes;
  seg_attempt_id : string;
  seg_stream : LogStream.t;
  seg_first_sequence : N;
  seg_last_sequence : N;
  seg_gaps : list SequenceGap;
}.

Record LogSegmentWriter := {
  wr_bytes : bytes;
  wr_attempt_id : string;
  wr_stream : LogStream.t;
  wr_first_sequence : N;
  wr_last_sequence : option N;
  wr_gaps : list SequenceGap;
}.

Definition MAGIC : bytes := str_bytes "DSPLOG01".

(** [i64::to_be_bytes]. *)
Definition i64_to_be_bytes (x : Z) : bytes :=
  to_be_bytes 8 (Z.to_N (x mod 18446744073709551616)).

Definition writer_new (attempt_id : string) (stream : LogStream.t) (first_sequence : N)
  : result LogFormatError LogSegmentWriter :=
  let? stream_byte := match stream with
                      | LogStream.Stdout => Ok "001"%byte
                      | LogStream.Stderr => Ok "002"%byte
                      | _ => Err FormatInvalid
                      end in
  if negb (canonical_uuid attempt_id) || (first_sequence =? 0) || (I64_MAX <? first_sequence)
  then Err FormatInvalid
  else
    Ok {| wr_bytes := MAGIC ++ str_bytes attempt_id ++ [stream_byte; "000"; "000"; "000"]%byte;
          wr_attempt_id := attempt_id;
          wr_stream := stream;
          wr_first_sequence := first_sequence;
          wr_last_sequence := None;
          wr_gaps := [] |}.

Definition append (w : LogSegmentWriter) (sequence : N) (capture_unix_nanos : Z) (payload : bytes)
  : result LogFormatError LogSegmentWriter :=
  if (sequence =? 0) || (I64_MAX <? sequence) || (capture_unix_nanos <? 0)%Z
     || bool_decide (payload = [])
  then Err FormatInvalid
  else
    let expected := match wr_last_sequence w with
                    | None => wr_first_sequence w
                    | Some last => u64_add last 1
                    end in
    if sequence <? expected then Err Sequence
    else if (expected <? sequence) && (len (wr_gaps w) =? MAX_GAPS) then Err GapLimit
    else
      let available := u64_sub MAX_SEGMENT_BYTES (len (wr_bytes w)) in
      if (available <? RECORD_HEADER_BYTES)
         || (u64_sub available RECORD_HEADER_BYTES <? len payload)
      then Err Full
      else
        Ok {| wr_bytes := wr_bytes w ++ to_be_bytes 8 sequence
                ++ i64_to_be_bytes capture_unix_nanos
                ++ to_be_bytes 4 (wrap32 (len payload)) ++ payload;
              wr_attempt_id := wr_attempt_id w;
              wr_stream := wr_stream w;
              wr_first_sequence := wr_first_sequence w;
              wr_last_sequence := Some sequence;
              wr_gaps := wr_gaps w
                ++ (if expected <? sequence
                    then [{| sg_first := expected; sg_last := u64_sub sequence 1 |}] else []) |}.

Definition writer_finish (w : LogSegmentWriter) : result LogFormatError LogSegment :=
  let? last_sequence := ok_or (wr_last_sequence w) FormatInvalid in
  Ok {| seg_bytes := wr_bytes w;
        seg_attempt_id := wr_attempt_id w;
        seg_stream := wr_stream w;
        seg_first_sequence := wr_first_sequence w;
        seg_last_sequence := last_sequence;
        seg_gaps := wr_gaps w |}.

(** * The decoder *)

Record LogRecord := {
  rec_sequence : N;
  rec_capture_unix_nanos : Z;
  rec_payload : bytes;
}.

Record Segment := {
  dec_attempt_id : string;
  dec_stream : LogStream.t;
  dec_records : list LogRecord;
}.

(** [int64(uint64)]. *)
Definition to_i64 (x : N) : Z :=
  if x <=? I64_MAX then Z.of_N x else (Z.of_N x - 18446744073709551616)%Z.

(** The record loop on the bytes from the current offset.  A turn consumes at
    least 21 bytes, so the length of the body is enough fuel. *)
Fixpoint decode_records (fuel : nat) (previous : N) (rest : bytes) : option (list LogRecord) :=
  match rest with
  | [] => Some []
  | _ :: _ =>
      match fuel with
      | O => None
      | S fuel' =>
          if len rest <? RECORD_HEADER_BYTES then None
          else
            let sequence := from_be_bytes (take 8 rest) in
            let capture := to_i64 (from_be_bytes (take 8 (drop 8 rest))) in
            let size := from_be_bytes (take 4 (drop 16 rest)) in
            let body := drop 20 rest in
            if (sequence =? 0) || (I64_MAX <? sequence) || (sequence <=? previous)
               || (capture <? 0)%Z || (size =? 0) || (len body <? size)
            then None
            else
              match decode_records fuel' sequence (drop (N.to_nat size) body) with
              | None => None
              | Some records =>
                  Some ({| rec_sequence := sequence; rec_capture_unix_nanos := capture;
                           rec_payload := take (N.to_nat size) body |} :: records)
              end
      end
  end.

Section Decoder.
Context (uuid_ok : string -> bool).

Definition Decode (body : bytes) : option Segment :=
  if (len body <? HEADER_BYTES + RECORD_HEADER_BYTES + 1) || (MAX_SEGMENT_BYTES <? len body)
     || negb (bool_decide (take 8 body = MAGIC))
     || negb (bool_decide (take 3 (drop 45 body) = ["000"; "000"; "000"]%byte))
  then None
  else
    let id := string_of_list_byte (take 36 (drop 8 body)) in
    if negb (uuid_ok id) then None
    else
      match (match take 1 (drop 44 body) with
             | ["001"%byte] => Some LogStream.Stdout
             | ["002"%byte] => Some LogStream.Stderr
             | _ => None
             end) with
      | None => None
      | Some stream =>
          match decode_records (List.length body) 0 (drop 48 body) with
          | None => None
          | Some records =>
              Some {| dec_attempt_id := id; dec_stream := stream; dec_records := records |}
          end
      end.
End Decoder.

(** * Writing a list of records *)

Definition append_record (w : LogSegmentWriter) (r : LogRecord)
  : result LogFormatError LogSegmentWriter :=
  append w (rec_sequence r) (rec_capture_unix_nanos r) (rec_payload r).

Definition encode_record (r : LogRecord) : bytes :=
  to_be_bytes 8 (rec_sequence r) ++ i64_to_be_bytes (rec_capture_unix_nanos r)
  ++ to_be_bytes 4 (wrap32 (len (rec_payload r))) ++ rec_payload r.

(** The gaps between [expected] and a list of sequences, and their order. *)
Fixpoint gaps_of (expected : N) (sequences : list N) : list SequenceGap :=
  match sequences with
  | [] => []
  | s :: rest =>
      (if expected <? s then [{| sg_first := expected; sg_last := s - 1 |}] else [])
      ++ gaps_of (s + 1) rest
  end.

Fixpoint ordered (expected : N) (sequences : list N) : Prop :=
  match sequences with
  | [] => True
  | s :: rest => expected <= s /\ ordered (s + 1) rest
  end.

Definition next_expected (first : N) (sequences : list N) : N :=
  match last sequences with
  | None => first
  | Some s => s + 1
  end.

Definition record_ok (r : LogRecord) : Prop :=
  1 <= rec_sequence r <= I64_MAX /\ (0 <= rec_capture_unix_nanos r < 9223372036854775808)%Z
  /\ rec_payload r <> [] /\ len (rec_payload r) <= MAX_SEGMENT_BYTES.

Definition header (attempt_id : string) (stream : LogStream.t) : bytes :=
  MAGIC ++ str_bytes attempt_id
  ++ [match stream with LogStream.Stdout => "001" | _ => "002" end; "000"; "000"; "000"]%byte.

(** What a writer holds after writing [records]. *)
Record writer_holds (w : LogSegmentWriter) (records : list LogRecord) : Prop := {
  wh_uuid : canonical_uuid (wr_attempt_id w) = true;
  wh_stream : wr_stream w = LogStream.Stdout \/ wr_stream w = LogStream.Stderr;
  wh_first : 1 <= wr_first_sequence w <= I64_MAX;
  wh_bytes : wr_bytes w = header (wr_attempt_id w) (wr_stream w) ++ concat (map encode_record records);
  wh_size : len (wr_bytes w) <= MAX_SEGMENT_BYTES;
  wh_last : wr_last_sequence w = last (map rec_sequence records);
  wh_gaps : wr_gaps w = gaps_of (wr_first_sequence w) (map rec_sequence records);
  wh_gap_count : len (wr_gaps w) <= MAX_GAPS;
  wh_ordered : ordered (wr_first_sequence w) (map rec_sequence records);
  wh_records : Forall record_ok records;
}.

(** * Lemmas *)

Ltac wr_simpl :=
  cbn [wr_bytes wr_attempt_id wr_stream wr_first_sequence wr_last_sequence wr_gaps] in *.

Lemma length_MAGIC : List.length MAGIC = 8%nat.
Proof. done. Qed.

Lemma length_header (id : string) (s : LogStream.t) :
  canonical_uuid id = true -> List.length (header id s) = 48%nat.
Proof.
  intros H. apply canonical_uuid_len in H. unfold str_len in H.
  unfold header. rewrite !length_app, length_MAGIC, length_str_bytes. simpl. lia.
Qed.

Lemma length_encode_record (r : LogRecord) :
  List.length (encode_record r) = (20 + List.length (rec_payload r))%nat.
Proof.
  unfold encode_record, i64_to_be_bytes. rewrite !length_app, !length_to_be_bytes. lia.
Qed.

Lemma next_expected_cons (e s : N) (l : list N) : next_expected e (s :: l) = next_expected (s + 1) l.
Proof. unfold next_expected. rewrite last_cons. by destruct (last l). Qed.

Lemma gaps_of_snoc (l : list N) (e s : N) :
  gaps_of e (l ++ [s]) =
  gaps_of e l ++ (if next_expected e l <? s
                  then [{| sg_first := next_expected e l; sg_last := s - 1 |}] else []).
Proof.
  revert e. induction l as [|x l IH]; intros e.
  - simpl. unfold next_expected. simpl. by rewrite app_nil_r.
  - cbn [gaps_of app]. rewrite IH, next_expected_cons. by rewrite (assoc_L (++)).
Qed.

Lemma ordered_snoc (l : list N) (e s : N) :
  ordered e (l ++ [s]) <-> ordered e l /\ next_expected e l <= s.
Proof.
  revert e. induction l as [|x l IH]; intros e.
  - simpl. unfold next_expected; simpl. naive_solver.
  - cbn [ordered app]. rewrite IH, next_expected_cons. naive_solver.
Qed.

Lemma ordered_mono (l : list N) (e e' : N) : e' <= e -> ordered e l -> ordered e' l.
Proof. destruct l; simpl; [done|]. intros H [? ?]. split; [lia|done]. Qed.

Lemma ordered_lower (l : list N) (e x : N) : ordered e l -> x ∈ l -> e <= x.
Proof.
  revert e. induction l as [|s l IH]; intros e Ho Hx; [by apply elem_of_nil in Hx|].
  destruct Ho as [Hs Ho]. apply elem_of_cons in Hx as [->|Hx]; [done|].
  specialize (IH _ Ho Hx). lia.
Qed.

Lemma writer_new_holds (id : string) (stream : LogStream.t) (first : N) (w : LogSegmentWriter) :
  writer_new id stream first = Ok w ->
  writer_holds w [] /\ wr_attempt_id w = id /\ wr_stream w = stream /\ wr_first_sequence w = first.
Proof.
  unfold writer_new. intros H. guards. bools. subst w. wr_simpl.
  match goal with H : _ /\ _ |- _ => destruct H as [[Hid ?] ?] end.
  split; [|done].
  assert (Hb : MAGIC ++ str_bytes id ++ [x; "000"; "000"; "000"]%byte = header id stream).
  { unfold header. by destruct stream; simplify_eq/=. }
  split; wr_simpl; try done.
  - destruct stream; auto; done.
  - lia.
  - rewrite Hb. simpl. by rewrite app_nil_r.
  - rewrite Hb. unfold len. rewrite length_header by done. unfold MAX_SEGMENT_BYTES. lia.
Qed.

(** What [append] does when it succeeds on a writer that holds [records]. *)
Lemma append_holds (w w' : LogSegmentWriter) (records : list LogRecord) (r : LogRecord) :
  writer_holds w records -> (rec_capture_unix_nanos r < 9223372036854775808)%Z ->
  append_record w r = Ok w' ->
  writer_holds w' (records ++ [r]) /\ wr_attempt_id w' = wr_attempt_id w /\
  wr_stream w' = wr_stream w /\ wr_first_sequence w' = wr_first_sequence w.
Proof.
  intros Hw Hcap. unfold append_record, append. intros H.
  set (expected := match wr_last_sequence w with None => _ | Some l => _ end) in H.
  assert (Hexp : expected = next_expected (wr_first_sequence w) (map rec_sequence records)).
  { subst expected. rewrite (wh_last _ _ Hw). unfold next_expected.
    destruct (last (map rec_sequence records)) as [l|] eqn:El; [|done].
    apply u64_add_small. apply last_Some_elem_of, list_elem_of_fmap in El as (r0 & -> & Hr0).
    pose proof (wh_records _ _ Hw) as Hrs. rewrite Forall_forall in Hrs.
    destruct (Hrs r0 Hr0) as [[? ?] _]. unfold I64_MAX, U64_MAX in *. lia. }
  clearbody expected. pose proof (wh_size _ _ Hw) as Hsize.
  rewrite (u64_sub_small MAX_SEGMENT_BYTES) in H by (unfold MAX_SEGMENT_BYTES, U64_MAX in *; lia).
  guards. bools.
  rename Hguard2 into Hfit, Hguard1 into Hgl, Hguard0 into Hseq, Hguard into Hval.
  rewrite u64_sub_small in Hfit by (unfold RECORD_HEADER_BYTES, MAX_SEGMENT_BYTES, U64_MAX in *; lia).
  destruct Hval as [[[Hs0 Hsm] Hc0] Hp].
  assert (Hrec : record_ok r).
  { unfold RECORD_HEADER_BYTES in *. split_and!; try lia; done. }
  rewrite (u64_sub_small (rec_sequence r)) in H by (unfold I64_MAX, U64_MAX in *; lia).
  subst w'. wr_simpl. split; [|done]. destruct Hw. split; wr_simpl; try done.
  - rewrite wh_bytes0, map_app, concat_app. simpl. rewrite app_nil_r. unfold encode_record.
    by rewrite <- (assoc_L (++)).
  - rewrite !len_app. unfold len in *. unfold i64_to_be_bytes.
    rewrite !length_to_be_bytes. unfold RECORD_HEADER_BYTES in *. lia.
  - rewrite map_app. simpl. by rewrite last_snoc.
  - rewrite map_app. simpl. rewrite gaps_of_snoc, <- Hexp, wh_gaps0. done.
  - rewrite len_app. destruct (N.ltb_spec expected (rec_sequence r)); simpl; unfold len in *; simpl.
    + destruct Hgl as [Hgl|Hgl]; [lia|]. unfold MAX_GAPS in *. lia.
    + lia.
  - rewrite map_app. simpl. apply ordered_snoc. rewrite <- Hexp. by split; [|lia].
  - apply Forall_app. by split; [|constructor].
Qed.

Definition i64_capture (r : LogRecord) : Prop :=
  (rec_capture_unix_nanos r < 9223372036854775808)%Z.

Lemma appends_hold (rs : list LogRecord) (w w' : LogSegmentWriter) (before : list LogRecord) :
  writer_holds w before -> Forall i64_capture rs -> rfold append_record w rs = Ok w' ->
  writer_holds w' (before ++ rs) /\ wr_attempt_id w' = wr_attempt_id w /\
  wr_stream w' = wr_stream w /\ wr_first_sequence w' = wr_first_sequence w.
Proof.
  revert w before. induction rs as [|r rs IH]; intros w before Hw Hc H; cbn [rfold] in H.
  - ok_inv. subst. by rewrite app_nil_r.
  - apply Forall_cons in Hc as [Hr Hc]. ok_inv.
    match goal with H : append_record _ _ = Ok _ |- _ =>
      eapply append_holds in H as (Hw1 & Hi & Hs & Hf); [|done..] end.
    apply (IH _ (before ++ [r])) in H as (Hw2 & -> & -> & ->); [|done..].
    by rewrite <- (assoc_L (++)) in Hw2.
Qed.

Lemma to_i64_encode (z : Z) :
  (0 <= z < 9223372036854775808)%Z -> to_i64 (from_be_bytes (i64_to_be_bytes z)) = z.
Proof.
  intros Hz. unfold i64_to_be_bytes. rewrite Z.mod_small by lia.
  rewrite from_to_be_bytes_small by (simpl; lia).
  unfold to_i64, I64_MAX. destruct (N.leb_spec (Z.to_N z) 9223372036854775807); lia.
Qed.

Lemma take_drop_chunk (a b c : bytes) (n m : nat) :
  List.length a = n -> List.length b = m -> take m (drop n (a ++ b ++ c)) = b.
Proof. intros <- <-. by rewrite drop_app_length, take_app_length. Qed.

(** The fields the decoder cuts out of an encoded record. *)
Lemma encode_record_fields (r : LogRecord) (tail : bytes) :
  record_ok r ->
  from_be_bytes (take 8 (encode_record r ++ tail)) = rec_sequence r /\
  to_i64 (from_be_bytes (take 8 (drop 8 (encode_record r ++ tail)))) = rec_capture_unix_nanos r /\
  from_be_bytes (take 4 (drop 16 (encode_record r ++ tail))) = len (rec_payload r) /\
  drop 20 (encode_record r ++ tail) = rec_payload r ++ tail.
Proof.
  intros ((Hs1 & Hs2) & Hc & Hp & Hl). unfold encode_record. rewrite <- !(assoc_L (++)).
  set (a := to_be_bytes 8 _). set (b := i64_to_be_bytes _). set (c := to_be_bytes 4 _).
  assert (Ha : List.length a = 8%nat) by apply length_to_be_bytes.
  assert (Hb : List.length b = 8%nat) by apply length_to_be_bytes.
  assert (Hc4 : List.length c = 4%nat) by apply length_to_be_bytes.
  unfold I64_MAX, MAX_SEGMENT_BYTES in *. split_and!.
  - rewrite <- Ha, take_app_length. apply from_to_be_bytes_small. simpl. lia.
  - rewrite (take_drop_chunk a b) by done. by apply to_i64_encode.
  - rewrite (assoc_L (++) a b), (take_drop_chunk (a ++ b) c) by (rewrite ?length_app; lia).
    unfold c, wrap32. rewrite N.mod_small by lia. apply from_to_be_bytes_small. simpl. lia.
  - rewrite (assoc_L (++) a b), (assoc_L (++) (a ++ b) c).
    replace 20%nat with (List.length ((a ++ b) ++ c)) by (rewrite !length_app; lia).
    by rewrite drop_app_length.
Qed.

Lemma decode_records_encode (records : list LogRecord) (previous : N) (fuel : nat) :
  Forall record_ok records -> ordered (previous + 1) (map rec_sequence records) ->
  (List.length (concat (map encode_record records)) <= fuel)%nat ->
  decode_records fuel previous (concat (map encode_record records)) = Some records.
Proof.
  revert previous fuel. induction records as [|r rs IH]; intros previous fuel Hok Hord Hfuel.
  - by destruct fuel.
  - apply Forall_cons in Hok as [Hr Hrs]. cbn [map concat] in *. destruct Hord as [Hlt Hord].
    set (tail := concat (map encode_record rs)) in *.
    destruct (encode_record_fields r tail Hr) as (Eseq & Ecap & Esize & Ebody).
    rewrite length_app, length_encode_record in Hfuel.
    destruct fuel as [|fuel]; [lia|].
    assert (Hlen : List.length (encode_record r ++ tail)
                   = (20 + List.length (rec_payload r) + List.length tail)%nat)
      by (rewrite length_app, length_encode_record; done).
    destruct (encode_record r ++ tail) as [|b0 rest] eqn:Ebs; [simpl in Hlen; lia|].
    cbn [decode_records]. rewrite <- Ebs in *. clear b0 rest Ebs.
    rewrite Eseq, Ecap, Esize, Ebody. destruct Hr as ((Hs1 & Hs2) & Hc & Hp & Hl).
    destruct (rec_payload r) as [|p0 payload] eqn:Epay; [done|]. rewrite <- Epay in *.
    destruct (len (encode_record r ++ tail) <? RECORD_HEADER_BYTES) eqn:E1.
    { bools. unfold len, RECORD_HEADER_BYTES in E1. lia. }
    destruct (_ || _) eqn:E2.
    { exfalso. unfold I64_MAX in *. bools. rewrite len_app in E2.
      assert (len (rec_payload r) <> 0) by (rewrite Epay; unfold len; simpl; lia). lia. }
    unfold len. rewrite Nat2N.id, drop_app_length, take_app_length.
    rewrite IH by (done || lia). by destruct r.
Qed.

(** Membership in the gaps of an ordered list, and what they are made of. *)
Definition in_gap (x : N) (g : SequenceGap) : Prop := sg_first g <= x <= sg_last g.

Lemma gaps_of_lower (l : list N) (e : N) (g : SequenceGap) :
  ordered e l -> g ∈ gaps_of e l -> e <= sg_first g /\ sg_first g <= sg_last g.
Proof.
  revert e. induction l as [|s l IH]; intros e Ho Hg; [by apply elem_of_nil in Hg|].
  destruct Ho as [Hs Ho]. cbn [gaps_of] in Hg. apply elem_of_app in Hg as [Hg|Hg].
  - destruct (N.ltb_spec e s); [|by apply elem_of_nil in Hg].
    apply list_elem_of_singleton in Hg as ->. simpl. lia.
  - specialize (IH _ Ho Hg). lia.
Qed.

Lemma gaps_of_cover (l : list N) (e x : N) :
  ordered e l -> e <= x < next_expected e l ->
  x ∈ l \/ exists g, g ∈ gaps_of e l /\ in_gap x g.
Proof.
  revert e. induction l as [|s l IH]; intros e Ho Hx; [unfold next_expected in Hx; simpl in Hx; lia|].
  destruct Ho as [Hs Ho]. rewrite next_expected_cons in Hx. cbn [gaps_of].
  destruct (N.lt_trichotomy x s) as [Hlt|[->|Hgt]]; [|left; by left|].
  - right. destruct (N.ltb_spec e s); [|lia]. exists {| sg_first := e; sg_last := s - 1 |}.
    split; [by left|]. unfold in_gap; simpl. lia.
  - destruct (IH (s + 1) Ho) as [Hin|(g & Hg & Hxg)]; [lia| |].
    + left. by right.
    + right. exists g. split; [|done]. apply elem_of_app. by right.
Qed.

Lemma gaps_of_exclusive (l : list N) (e x : N) (g : SequenceGap) :
  ordered e l -> g ∈ gaps_of e l -> in_gap x g -> x ∉ l.
Proof.
  revert e. induction l as [|s l IH]; intros e Ho Hg Hx Hin; [by apply elem_of_nil in Hg|].
  destruct Ho as [Hs Ho]. cbn [gaps_of] in Hg. apply elem_of_app in Hg as [Hg|Hg].
  - destruct (N.ltb_spec e s); [|by apply elem_of_nil in Hg].
    apply list_elem_of_singleton in Hg as ->. unfold in_gap in Hx; simpl in Hx.
    apply elem_of_cons in Hin as [->|Hin]; [lia|]. apply (ordered_lower _ _ _ Ho) in Hin. lia.
  - apply (gaps_of_lower _ _ _ Ho) in Hg as Hlow. unfold in_gap in Hx.
    apply elem_of_cons in Hin as [->|Hin]; [lia|]. by apply (IH _ Ho Hg Hx).
Qed.

Lemma gaps_of_unique (l : list N) (e x : N) (g h : SequenceGap) :
  ordered e l -> g ∈ gaps_of e l -> h ∈ gaps_of e l -> in_gap x g -> in_gap x h -> g = h.
Proof.
  revert e. induction l as [|s l IH]; intros e Ho Hg Hh Hxg Hxh; [by apply elem_of_nil in Hg|].
  destruct Ho as [Hs Ho]. cbn [gaps_of] in Hg, Hh. unfold in_gap in *.
  apply elem_of_app in Hg as [Hg|Hg], Hh as [Hh|Hh].
  - destruct (N.ltb_spec e s); [|by apply elem_of_nil in Hg].
    apply list_elem_of_singleton in Hg as ->. by apply list_elem_of_singleton in Hh as ->.
  - destruct (N.ltb_spec e s); [|by apply elem_of_nil in Hg].
    apply list_elem_of_singleton in Hg as ->. simpl in *.
    apply (gaps_of_lower _ _ _ Ho) in Hh. lia.
  - destruct (N.ltb_spec e s); [|by apply elem_of_nil in Hh].
    apply list_elem_of_singleton in Hh as ->. simpl in *.
    apply (gaps_of_lower _ _ _ Ho) in Hg. lia.
  - by apply (IH _ Ho).
Qed.

(** A finished segment of [records]: what its fields are. *)
Lemma finished_segment (id : string) (stream : LogStream.t) (first : N)
  (records : list LogRecord) (w0 w : LogSegmentWriter) (seg : LogSegment) :
  writer_new id stream first = Ok w0 -> Forall i64_capture records ->
  rfold append_record w0 records = Ok w -> writer_finish w = Ok seg ->
  writer_holds w records /\ seg_bytes seg = wr_bytes w /\ seg_gaps seg = wr_gaps w /\
  wr_attempt_id w = id /\ wr_stream w = stream /\ wr_first_sequence w = first /\
  seg_attempt_id seg = id /\ seg_stream seg = stream /\
  seg_first_sequence seg = first /\ last (map rec_sequence records) = Some (seg_last_sequence seg).
Proof.
  intros Hnew Hc Happ Hfin. apply writer_new_holds in Hnew as (Hw0 & <- & <- & <-).
  apply (appends_hold _ _ _ _ Hw0 Hc) in Happ as (Hw & Hi & Hs & Hf). simpl in Hw.
  unfold writer_finish in Hfin. ok_inv. subst seg. simpl.
  rewrite (wh_last _ _ Hw) in *. by split_and!.
Qed.

Section RoundTrip.
Context (uuid_ok : string -> bool).
(** [uuid.Parse] accepts a canonical lower-case UUID and prints it back unchanged. *)
Hypothesis uuid_ok_canonical : forall id, canonical_uuid id = true -> uuid_ok id = true.

Lemma Decode_encoded (id : string) (stream : LogStream.t) (first : N) (records : list LogRecord) :
  canonical_uuid id = true -> stream = LogStream.Stdout \/ stream = LogStream.Stderr ->
  records <> [] -> Forall record_ok records -> 1 <= first -> ordered first (map rec_sequence records) ->
  len (header id stream ++ concat (map encode_record records)) <= MAX_SEGMENT_BYTES ->
  Decode uuid_ok (header id stream ++ concat (map encode_record records))
  = Some {| dec_attempt_id := id; dec_stream := stream; dec_records := records |}.
Proof.
  intros Hid Hst Hne Hok Hfirst Hord Hmax. set (recs := concat (map encode_record records)) in *.
  assert (Hidlen : List.length (str_bytes id) = 36%nat).
  { rewrite length_str_bytes. apply canonical_uuid_len in Hid. unfold str_len in Hid. lia. }
  assert (Hlong : (21 <= List.length recs)%nat).
  { destruct records as [|r rs]; [done|]. apply Forall_cons in Hok as [(_ & _ & Hp & _) _].
    subst recs. cbn [map concat]. rewrite length_app, length_encode_record.
    destruct (rec_payload r); [done|]. simpl. lia. }
  pose proof (length_header id stream Hid) as Hhl.
  unfold Decode. unfold len in *.
  set (b := match stream with LogStream.Stdout => "001" | _ => "002" end%byte).
  assert (Hbody : header id stream ++ recs
                  = MAGIC ++ str_bytes id ++ [b] ++ ["000"; "000"; "000"]%byte ++ recs).
  { unfold header. by rewrite <- !(assoc_L (++)). }
  assert (E8 : take 8 (header id stream ++ recs) = MAGIC).
  { rewrite Hbody. by rewrite <- length_MAGIC, take_app_length. }
  assert (E36 : take 36 (drop 8 (header id stream ++ recs)) = str_bytes id).
  { rewrite Hbody. by apply take_drop_chunk. }
  assert (E1 : take 1 (drop 44 (header id stream ++ recs)) = [b]).
  { rewrite Hbody, (assoc_L (++) MAGIC). apply take_drop_chunk; [|done].
    rewrite length_app, length_MAGIC. lia. }
  assert (E3 : take 3 (drop 45 (header id stream ++ recs)) = ["000"; "000"; "000"]%byte).
  { rewrite Hbody, (assoc_L (++) MAGIC), (assoc_L (++) (MAGIC ++ _)). apply take_drop_chunk; [|done].
    rewrite !length_app, length_MAGIC. simpl. lia. }
  assert (E48 : drop 48 (header id stream ++ recs) = recs) by (by rewrite <- Hhl, drop_app_length).
  rewrite E8, E36, E1, E3, E48.
  destruct (_ || _) eqn:Eg.
  { rewrite length_app, Hhl in *. unfold HEADER_BYTES, RECORD_HEADER_BYTES in *. bools.
    destruct Eg as [[[?|?]|?]|?]; try lia; done. }
  unfold str_bytes at 1. rewrite string_of_list_byte_of_string, uuid_ok_canonical by done.
  cbn [negb]. assert (Hdec : decode_records (List.length (header id stream ++ recs)) 0 recs = Some records).
  { apply decode_records_encode; [done| |rewrite length_app; fold recs; lia].
    eapply ordered_mono; [|done]. lia. }
  destruct Hst as [-> | ->]; subst b; rewrite Hdec;
    unfold str_bytes; by rewrite string_of_list_byte_of_string.
Qed.

(** C21: what the worker writes is what the control plane reads.  A segment that
    was written record by record decodes to the same attempt, stream and
    records, in order and byte for byte; it is at most 1 MiB long. *)
Theorem log_segment_round_trip (id : string) (stream : LogStream.t) (first : N)
  (records : list LogRecord) (w0 w : LogSegmentWriter) (seg : LogSegment) :
  writer_new id stream first = Ok w0 -> Forall i64_capture records ->
  rfold append_record w0 records = Ok w -> writer_finish w = Ok seg ->
  Decode uuid_ok (seg_bytes seg)
  = Some {| dec_attempt_id := id; dec_stream := stream; dec_records := records |}
  /\ len (seg_bytes seg) <= MAX_SEGMENT_BYTES.
Proof.
  intros Hnew Hc Happ Hfin.
  destruct (finished_segment _ _ _ _ _ _ _ Hnew Hc Happ Hfin)
    as (Hw & -> & _ & Hi & Hs & Hf & _ & _ & _ & Hlast).
  destruct Hw. split; [|done]. rewrite Hi, Hs, Hf in *. rewrite wh_bytes0 in *.
  apply Decode_encoded with first; try done; [|lia]. by intros ->.
Qed.
End RoundTrip.

Definition records_fixture : list LogRecord :=
  [{| rec_sequence := 3; rec_capture_unix_nanos := 7; rec_payload := str_bytes "hello" |};
   {| rec_sequence := 4; rec_capture_unix_nanos := 8; rec_payload := str_bytes "x" |};
   {| rec_sequence := 9; rec_capture_unix_nanos := 9; rec_payload := str_bytes "bye" |}].

Definition writer_fixture : LogSegmentWriter :=
  match writer_new "00000000-0000-0000-0000-000000000005" LogStream.Stderr 2 with
  | Ok w => match rfold append_record w records_fixture with Ok w' => w' | Err _ => w end
  | Err _ => {| wr_bytes := []; wr_attempt_id := EmptyString; wr_stream := LogStream.Stdout;
                wr_first_sequence := 0; wr_last_sequence := None; wr_gaps := [] |}
  end.

Definition segment_fixture : LogSegment :=
  match writer_finish writer_fixture with
  | Ok seg => seg
  | Err _ => {| seg_bytes := []; seg_attempt_id := EmptyString; seg_stream := LogStream.Stdout;
                seg_first_sequence := 0; seg_last_sequence := 0; seg_gaps := [] |}
  end.

Lemma log_segment_round_trip_witness :
  Decode canonical_uuid (seg_bytes segment_fixture)
  = Some {| dec_attempt_id := "00000000-0000-0000-0000-000000000005";
            dec_stream := LogStream.Stderr; dec_records := records_fixture |}
  /\ len (seg_bytes segment_fixture) <= MAX_SEGMENT_BYTES.
Proof.
  eapply (log_segment_round_trip canonical_uuid (fun _ H => H)
    "00000000-0000-0000-0000-000000000005" LogStream.Stderr 2 records_fixture).
  - vm_compute. reflexivity.
  - repeat constructor.
  - vm_compute. reflexivity.
  - vm_compute. reflexivity.
Defined.

(** A segment accounts for every sequence of its range.  Each sequence number
    from the segment's first to its last is either the number of exactly the
    records written or lies in exactly one recorded gap, never both, and there are
    at most 1024 gaps: a reader can always tell loss from output. *)
Theorem segment_accounts_for_every_sequence (id : string) (stream : LogStream.t) (first x : N)
  (records : list LogRecord) (w0 w : LogSegmentWriter) (seg : LogSegment) :
  writer_new id stream first = Ok w0 -> Forall i64_capture records ->
  rfold append_record w0 records = Ok w -> writer_finish w = Ok seg ->
  seg_first_sequence seg <= x <= seg_last_sequence seg ->
  len (seg_gaps seg) <= MAX_GAPS /\
  ((x ∈ map rec_sequence records /\ forall g, g ∈ seg_gaps seg -> ~ in_gap x g) \/
   ((x ∉ map rec_sequence records) /\
    exists g, g ∈ seg_gaps seg /\ in_gap x g /\
      forall h, h ∈ seg_gaps seg -> in_gap x h -> h = g)).
Proof.
  intros Hnew Hc Happ Hfin Hx.
  destruct (finished_segment _ _ _ _ _ _ _ Hnew Hc Happ Hfin)
    as (Hw & _ & -> & _ & _ & Hf & _ & _ & Hfirst & Hlast).
  destruct Hw. rewrite Hf, Hfirst in *. rewrite wh_gaps0 in *. split; [done|].
  set (l := map rec_sequence records) in *.
  destruct (gaps_of_cover l first x wh_ordered0) as [Hin|(g & Hg & Hxg)].
  - unfold next_expected. rewrite Hlast. lia.
  - left. split; [done|]. intros g Hg Hxg. by apply (gaps_of_exclusive l first x g).
  - right. split; [by apply (gaps_of_exclusive l first x g)|]. exists g. split_and!; [done..|].
    intros h Hh Hxh. by apply (gaps_of_unique l first x).
Qed.

Lemma segment_accounts_for_every_sequence_witness :
  len (seg_gaps segment_fixture) <= MAX_GAPS /\
  ((6 ∈ map rec_sequence records_fixture
    /\ forall g, g ∈ seg_gaps segment_fixture -> ~ in_gap 6 g) \/
   ((6 ∉ map rec_sequence records_fixture) /\
    exists g, g ∈ seg_gaps segment_fixture /\ in_gap 6 g /\
      forall h, h ∈ seg_gaps segment_fixture -> in_gap 6 h -> h = g)).
Proof.
  eapply (segment_accounts_for_every_sequence "00000000-0000-0000-0000-000000000005"
    LogStream.Stderr 2 6 records_fixture).
  - vm_compute. reflexivity.
  - repeat constructor.
  - vm_compute. reflexivity.
  - vm_compute. reflexivity.
  - vm_compute. split; discriminate.
Defined.
