(* ===== verification/LogSpool.v ===== *)
(** The private bounded disk queue of sealed segments
    ([rust/worker/src/log_spool.rs]).

    The spool directory is a finite map from file names to contents; what each
    system call answers is an argument ([store_io], [remove_io], [create_io]),
    except where the directory itself decides it (an exclusive create or a hard
    link over an existing name). *)

From stdpp Require Import pretty.
From S2P Require Import Prelude Protocol Lease Control LogFormat Os.
Open Scope N_scope.

Definition MAX_SPOOL_BYTES : N := 268435456.
Definition MAX_SPOOL_SEGMENTS : N := 1024.

Inductive SpoolError : Type :=
| SpoolInvalid | SpoolIdentity | UnsafePath | Conflict | Poisoned | Io (kind : ErrorKind).

#[global] Instance SpoolError_eq_dec : EqDecision SpoolError.
Proof. solve_decision. Defined.

Record StoredSegment := {
  ss_path : string;
  ss_name : string;
  ss_size : N;
}.

Inductive SpoolOutcome : Type :=
| Stored (entry : StoredSegment)
| Saturated.

Record LogSpool := {
  sp_root : string;
  sp_attempt_id : string;
  sp_cap : N;
  sp_used : N;
  sp_entries : gmap string N;
  sp_poisoned : bool;
}.

Definition join (root name : string) : string := root +:+ "/" +:+ name.

Definition safe_file (euid : N) (meta : result ErrorKind Metadata) (expected : N)
  : result SpoolError unit :=
  let? m := map_err Io meta in
  if negb (is_file m) || negb (uid m =? euid) || negb (N.land (mode m) 511 =? 384)
     || negb (nlink m =? 1) || negb (st_size m =? expected)
  then Err UnsafePath
  else Ok tt.

Record create_io := {
  ci_exists : bool;
  ci_mkdir : io;
  ci_open : io;
  ci_meta : result ErrorKind Metadata;
  ci_sync : io;
}.

(** [create]: [attempt_dir] is the last component of the workspace root. *)
Definition create (euid : N) (workspace_root : string) (attempt_dir : option string) (cap : N)
  (call : create_io) : result SpoolError LogSpool :=
  let? attempt_id := ok_or attempt_dir UnsafePath in
  if negb (canonical_uuid attempt_id) || (cap =? 0) || (MAX_SPOOL_BYTES <? cap)
  then Err SpoolInvalid
  else if ci_exists call then Err UnsafePath
  else
    let root := join workspace_root "logs" in
    let? _ := map_err Io (ci_mkdir call) in
    let? _ := map_err Io (ci_open call) in
    let? meta := map_err Io (ci_meta call) in
    if negb (is_dir meta) || negb (N.land (mode meta) 511 =? 448) || negb (uid meta =? euid)
    then Err UnsafePath
    else
      let? _ := map_err Io (ci_sync call) in
      Ok {| sp_root := root; sp_attempt_id := attempt_id; sp_cap := cap; sp_used := 0;
            sp_entries := ∅; sp_poisoned := false |}.

(** [{:019}] of a [u64]. *)
Fixpoint zeros (n : nat) : string :=
  match n with
  | O => EmptyString
  | S n' => String "0" (zeros n')
  end.

Definition pad19 (x : N) : string :=
  let digits := pretty x in zeros (19 - String.length digits) +:+ digits.

Definition segment_name (prefix : string) (first last : N) : string :=
  prefix +:+ "-" +:+ pad19 first +:+ "-" +:+ pad19 last +:+ ".seg".

(** The answers of the six system calls of a publication; [si_written] is how much
    of a failed write reached the file. *)
Record store_io := {
  si_open : io;
  si_write : io;
  si_written : nat;
  si_sync : io;
  si_link : io;
  si_unlink : io;
  si_dirsync : io;
  si_cleanup_pending : io;
  si_cleanup_final : io;
}.

Definition PENDING : string := ".pending".

(** The closure of [store]: its result, the two flags, and the directory. *)
Definition publish (call : store_io) (name : string) (body : bytes) (fs : files)
  : result SpoolError unit * bool * bool * files :=
  match (match fs !! PENDING with Some _ => Err AlreadyExists | None => si_open call end) with
  | Err e => (Err (Io e), false, false, fs)
  | Ok _ =>
      match si_write call with
      | Err e => (Err (Io e), true, false, <[PENDING := take (si_written call) body]> fs)
      | Ok _ =>
          let fs1 := <[PENDING := body]> fs in
          match si_sync call with
          | Err e => (Err (Io e), true, false, fs1)
          | Ok _ =>
              match (match fs !! name with Some _ => Err AlreadyExists | None => si_link call end) with
              | Err e => (Err (Io e), true, false, fs1)
              | Ok _ =>
                  let fs2 := <[name := body]> fs1 in
                  match si_unlink call with
                  | Err e => (Err (Io e), true, true, fs2)
                  | Ok _ =>
                      let fs3 := delete PENDING fs2 in
                      match si_dirsync call with
                      | Err e => (Err (Io e), true, true, fs3)
                      | Ok _ => (Ok tt, true, true, fs3)
                      end
                  end
              end
          end
      end
  end.

Definition unlink_if (flag : bool) (call : io) (name : string) (fs : files) : files :=
  if flag then match call with Ok _ => delete name fs | Err _ => fs end else fs.

Definition store (call : store_io) (sp : LogSpool) (fs : files) (stream : LogStream.t)
  (segment : LogSegment) : result SpoolError SpoolOutcome * LogSpool * files :=
  if sp_poisoned sp then (Err Poisoned, sp, fs)
  else if negb (bool_decide (seg_attempt_id segment = sp_attempt_id sp))
          || negb (bool_decide (seg_stream segment = stream))
  then (Err SpoolIdentity, sp, fs)
  else
    match (match stream with
           | LogStream.Stdout => Some "stdout"%string
           | LogStream.Stderr => Some "stderr"%string
           | _ => None
           end) with
    | None => (Err SpoolInvalid, sp, fs)
    | Some prefix =>
        let size := len (seg_bytes segment) in
        if (size =? 0) || (MAX_SEGMENT_BYTES <? size) then (Err SpoolInvalid, sp, fs)
        else
          let name := segment_name prefix (seg_first_sequence segment) (seg_last_sequence segment) in
          if bool_decide (is_Some (sp_entries sp !! name)) then (Err Conflict, sp, fs)
          else if MAX_SPOOL_SEGMENTS <=? N.of_nat (base.size (sp_entries sp))
          then (Ok Saturated, sp, fs)
          else if u64_sub (sp_cap sp) (sp_used sp) <? size then (Ok Saturated, sp, fs)
          else
            match publish call name (seg_bytes segment) fs with
            | (Err e, created_pending, linked_final, fs1) =>
                let fs2 := unlink_if created_pending (si_cleanup_pending call) PENDING fs1 in
                let fs3 := unlink_if linked_final (si_cleanup_final call) name fs2 in
                (Err e,
                 {| sp_root := sp_root sp; sp_attempt_id := sp_attempt_id sp; sp_cap := sp_cap sp;
                    sp_used := sp_used sp; sp_entries := sp_entries sp; sp_poisoned := true |}, fs3)
            | (Ok _, _, _, fs1) =>
                (Ok (Stored {| ss_path := join (sp_root sp) name; ss_name := name; ss_size := size |}),
                 {| sp_root := sp_root sp; sp_attempt_id := sp_attempt_id sp; sp_cap := sp_cap sp;
                    sp_used := u64_add (sp_used sp) size;
                    sp_entries := <[name := size]> (sp_entries sp);
                    sp_poisoned := sp_poisoned sp |}, fs1)
            end
    end.

Record read_io := {
  ri_open : io;
  ri_meta : result ErrorKind Metadata;
}.

Definition read (euid : N) (call : read_io) (sp : LogSpool) (fs : files) (entry : StoredSegment)
  : result SpoolError bytes :=
  if sp_poisoned sp then Err Poisoned
  else if negb (bool_decide (sp_entries sp !! ss_name entry = Some (ss_size entry)))
          || negb (bool_decide (ss_path entry = join (sp_root sp) (ss_name entry)))
  then Err SpoolIdentity
  else
    let? body := match fs !! ss_name entry with
                 | None => Err (Io NotFound)
                 | Some body => let? _ := map_err Io (ri_open call) in Ok body
                 end in
    let? _ := safe_file euid (ri_meta call) (ss_size entry) in
    Ok body.

Record remove_io := {
  rm_read : read_io;
  rm_unlink : io;
  rm_dirsync : io;
}.

Definition remove (euid : N) (call : remove_io) (sp : LogSpool) (fs : files) (entry : StoredSegment)
  : result SpoolError unit * LogSpool * files :=
  match read euid (rm_read call) sp fs entry with
  | Err e => (Err e, sp, fs)
  | Ok _ =>
      let poison := {| sp_root := sp_root sp; sp_attempt_id := sp_attempt_id sp;
                       sp_cap := sp_cap sp; sp_used := sp_used sp;
                       sp_entries := sp_entries sp; sp_poisoned := true |} in
      match rm_unlink call with
      | Err e => (Err (Io e), poison, fs)
      | Ok _ =>
          let fs1 := delete (ss_name entry) fs in
          match rm_dirsync call with
          | Err e => (Err (Io e), poison, fs1)
          | Ok _ =>
              (Ok tt,
               {| sp_root := sp_root sp; sp_attempt_id := sp_attempt_id sp; sp_cap := sp_cap sp;
                  sp_used := u64_sub (sp_used sp) (ss_size entry);
                  sp_entries := delete (ss_name entry) (sp_entries sp);
                  sp_poisoned := sp_poisoned sp |}, fs1)
          end
      end
  end.

(** * The accounting invariant *)

Definition total (m : gmap string N) : N := map_fold (fun _ v acc => v + acc) 0 m.

Lemma total_insert (m : gmap string N) (k : string) (v : N) :
  m !! k = None -> total (<[k := v]> m) = v + total m.
Proof. intros H. unfold total. apply map_fold_insert_L; [lia|done]. Qed.

Lemma total_delete (m : gmap string N) (k : string) (v : N) :
  m !! k = Some v -> total m = v + total (delete k m).
Proof. intros H. unfold total. apply (map_fold_delete_L _ _ k); [lia|done]. Qed.

Record spool_ok (sp : LogSpool) (fs : files) : Prop := {
  so_total : sp_used sp = total (sp_entries sp);
  so_used : sp_used sp <= sp_cap sp;
  so_cap : sp_cap sp <= MAX_SPOOL_BYTES;
  so_count : N.of_nat (base.size (sp_entries sp)) <= MAX_SPOOL_SEGMENTS;
  so_pending : sp_entries sp !! PENDING = None;
  so_files : sp_poisoned sp = false -> forall name n, sp_entries sp !! name = Some n ->
    exists body, fs !! name = Some body /\ len body = n;
}.

Lemma segment_name_not_pending (prefix : string) (a b : N) :
  (prefix = "stdout" \/ prefix = "stderr")%string -> segment_name prefix a b <> PENDING.
Proof. by intros [-> | ->]. Qed.

Lemma publish_Ok (call : store_io) (name : string) (body : bytes) (fs fs1 : files) (c l : bool) :
  name <> PENDING -> publish call name body fs = (Ok tt, c, l, fs1) ->
  fs1 !! name = Some body /\ fs !! name = None /\ fs1 !! PENDING = None /\
  forall k, k <> name -> k <> PENDING -> fs1 !! k = fs !! k.
Proof.
  intros Hne. unfold publish.
  destruct (fs !! PENDING); [done|]. destruct (si_open call); [|done].
  destruct (si_write call); [|done]. destruct (si_sync call); [|done].
  destruct (fs !! name) eqn:En; [done|]. destruct (si_link call); [|done].
  destruct (si_unlink call); [|done]. destruct (si_dirsync call); [|done].
  intros [= _ _ <-]. split_and!.
  - by rewrite lookup_delete_ne, lookup_insert_eq by congruence.
  - done.
  - by rewrite lookup_delete_eq.
  - intros k H1 H2. by rewrite lookup_delete_ne, !lookup_insert_ne by congruence.
Qed.

Lemma store_ok (call : store_io) (sp sp' : LogSpool) (fs fs' : files) (stream : LogStream.t)
  (seg : LogSegment) (r : result SpoolError SpoolOutcome) :
  spool_ok sp fs -> store call sp fs stream seg = (r, sp', fs') -> spool_ok sp' fs'.
Proof.
  intros Hok. unfold store.
  destruct (sp_poisoned sp) eqn:Hp; [by intros [= <- <- <-]|].
  destruct (_ || _); [by intros [= <- <- <-]|].
  destruct (match stream with LogStream.Stdout => _ | _ => _ end) as [prefix|] eqn:Ep;
    [|by intros [= <- <- <-]].
  destruct (_ || _) eqn:Esz; [by intros [= <- <- <-]|].
  set (name := segment_name _ _ _).
  case_bool_decide as Hin; [by intros [= <- <- <-]|].
  destruct (N.leb_spec MAX_SPOOL_SEGMENTS (N.of_nat (base.size (sp_entries sp))));
    [by intros [= <- <- <-]|].
  destruct (N.ltb_spec (u64_sub (sp_cap sp) (sp_used sp)) (len (seg_bytes seg))) as [|Hfit];
    [by intros [= <- <- <-]|].
  destruct Hok as [Ht Hu Hc Hn Hpend Hf].
  rewrite u64_sub_small in Hfit by (unfold MAX_SPOOL_BYTES, U64_MAX in *; lia).
  assert (Hname : name <> PENDING).
  { apply segment_name_not_pending. destruct stream; simplify_eq; auto. }
  assert (Hnone : sp_entries sp !! name = None) by (by apply eq_None_not_Some).
  destruct (publish call name (seg_bytes seg) fs) as [[[[[]|e] c] l] fs1] eqn:Epub;
    intros [= <- <- <-]; [|by split].
  apply publish_Ok in Epub as (Hnew & Hold & _ & Hrest); [|done].
  split; simpl.
  - rewrite u64_add_small by (unfold MAX_SPOOL_BYTES, U64_MAX in *; lia).
    rewrite total_insert by done. lia.
  - rewrite u64_add_small by (unfold MAX_SPOOL_BYTES, U64_MAX in *; lia). lia.
  - done.
  - rewrite map_size_insert_None by done. lia.
  - by rewrite lookup_insert_ne by done.
  - intros _ k n Hk. destruct (decide (k = name)) as [->|Hkn].
    + rewrite lookup_insert_eq in Hk. injection Hk as <-. eauto.
    + rewrite lookup_insert_ne in Hk by done. rewrite Hrest; [by apply Hf|done|]. congruence.
Qed.

Lemma remove_ok (euid : N) (call : remove_io) (sp sp' : LogSpool) (fs fs' : files)
  (entry : StoredSegment) (r : result SpoolError unit) :
  spool_ok sp fs -> remove euid call sp fs entry = (r, sp', fs') -> spool_ok sp' fs'.
Proof.
  intros Hok. unfold remove.
  destruct (read euid (rm_read call) sp fs entry) as [body|e] eqn:Hr; [|by intros [= <- <- <-]].
  unfold read in Hr. guards. bools. destruct Hok as [Ht Hu Hc Hn Hpend Hf].
  match goal with H : _ /\ _ |- _ => destruct H as [Hentry Hpath] end.
  pose proof (total_delete _ _ _ Hentry) as Htot.
  destruct (rm_unlink call); [|by intros [= <- <- <-]; split].
  destruct (rm_dirsync call); intros [= <- <- <-]; [|by split].
  assert (Hsub : u64_sub (sp_used sp) (ss_size entry) = sp_used sp - ss_size entry).
  { apply u64_sub_small; unfold MAX_SPOOL_BYTES, U64_MAX in *; lia. }
  split; simpl; try done.
  - lia.
  - lia.
  - rewrite map_size_delete_Some by eauto. lia.
  - destruct (decide (ss_name entry = PENDING)) as [->|Hne].
    + by rewrite lookup_delete_eq.
    + by rewrite lookup_delete_ne.
  - intros Hp k n Hk. destruct (decide (ss_name entry = k)) as [<-|Hkn].
    + by rewrite lookup_delete_eq in Hk.
    + rewrite lookup_delete_ne in Hk by done. rewrite lookup_delete_ne by done. by apply Hf.
Qed.

Inductive spool_step (euid : N) : LogSpool * files -> LogSpool * files -> Prop :=
| sp_store (call : store_io) (sp sp' : LogSpool) (fs fs' : files) (stream : LogStream.t)
    (seg : LogSegment) (r : result SpoolError SpoolOutcome) :
    store call sp fs stream seg = (r, sp', fs') -> spool_step euid (sp, fs) (sp', fs')
| sp_remove (call : remove_io) (sp sp' : LogSpool) (fs fs' : files) (entry : StoredSegment)
    (r : result SpoolError unit) :
    remove euid call sp fs entry = (r, sp', fs') -> spool_step euid (sp, fs) (sp', fs').

Lemma spool_steps_ok (euid : N) (s s' : LogSpool * files) :
  rtc (spool_step euid) s s' -> spool_ok s.1 s.2 -> spool_ok s'.1 s'.2.
Proof.
  induction 1 as [|s1 s2 s3 Hs _ IH]; [done|]. intros Hok. apply IH.
  destruct Hs; simpl in *; [by eapply store_ok|by eapply remove_ok].
Qed.

Lemma create_ok (euid : N) (root : string) (dir : option string) (cap : N) (call : create_io)
  (sp : LogSpool) (fs : files) : create euid root dir cap call = Ok sp -> spool_ok sp fs.
Proof.
  unfold create. intros H. guards. bools. subst sp. split; simpl; try done; try lia.
Qed.

(** The spool never exceeds its budget and never loses an entry.  After any
    sequence of stores and removals, with any system call failing, the bytes
    accounted for are the sum of the entries, within the cap and 256 MiB, with at
    most 1024 entries; and while the spool is not poisoned every entry's file is
    there with exactly its accounted size. *)
Theorem spool_accounting (euid : N) (root : string) (dir : option string) (cap : N)
  (call : create_io) (sp sp' : LogSpool) (fs fs' : files) :
  create euid root dir cap call = Ok sp -> rtc (spool_step euid) (sp, fs) (sp', fs') ->
  sp_used sp' = total (sp_entries sp') /\ sp_used sp' <= sp_cap sp' /\
  sp_cap sp' <= MAX_SPOOL_BYTES /\
  N.of_nat (base.size (sp_entries sp')) <= MAX_SPOOL_SEGMENTS /\
  (sp_poisoned sp' = false -> forall name n, sp_entries sp' !! name = Some n ->
     exists body, fs' !! name = Some body /\ len body = n).
Proof.
  intros Hc Hs. apply (create_ok _ _ _ _ _ _ fs) in Hc.
  apply spool_steps_ok in Hs as [Ht Hu Hcap Hn _ Hf]; [|done]. by split_and!.
Qed.

Definition good_meta (sz : N) : result ErrorKind Metadata :=
  Ok {| is_file := true; is_dir := true; uid := 0; mode := 448; nlink := 1; st_size := sz |}.

Definition create_io_fixture : create_io :=
  {| ci_exists := false; ci_mkdir := Ok tt; ci_open := Ok tt; ci_meta := good_meta 0;
     ci_sync := Ok tt |}.

Definition store_io_fixture : store_io :=
  {| si_open := Ok tt; si_write := Ok tt; si_written := 0; si_sync := Ok tt; si_link := Ok tt;
     si_unlink := Ok tt; si_dirsync := Ok tt; si_cleanup_pending := Ok tt;
     si_cleanup_final := Ok tt |}.

Definition spool_fixture : LogSpool :=
  {| sp_root := "/w/00000000-0000-0000-0000-000000000005/logs";
     sp_attempt_id := "00000000-0000-0000-0000-000000000005"; sp_cap := 4096; sp_used := 0;
     sp_entries := ∅; sp_poisoned := false |}.

Lemma spool_accounting_witness :
  let s := store store_io_fixture spool_fixture ∅ LogStream.Stderr segment_fixture in
  sp_used s.1.2 = total (sp_entries s.1.2) /\ sp_used s.1.2 = 117.
Proof.
  split; [|vm_compute; reflexivity].
  apply (spool_accounting 0 "/w/00000000-0000-0000-0000-000000000005"
    (Some "00000000-0000-0000-0000-000000000005"%string) 4096 create_io_fixture spool_fixture
    (store store_io_fixture spool_fixture ∅ LogStream.Stderr segment_fixture).1.2 ∅
    (store store_io_fixture spool_fixture ∅ LogStream.Stderr segment_fixture).2).
  - vm_compute. reflexivity.
  - apply rtc_once. eapply (sp_store 0 store_io_fixture _ _ _ _ LogStream.Stderr segment_fixture
      (store store_io_fixture spool_fixture ∅ LogStream.Stderr segment_fixture).1.1).
    by destruct (store _ _ _ _ _) as [[r sp] fs].
Defined.
