(* ===== verification/LogCapture.v ===== *)
(** The bounded, nonblocking handoff between the container's output and the
    segment encoder ([rust/worker/src/log_capture.rs]).

    The queue is its capacity, the chunks waiting in it, whether the receiver is
    gone, and the two sequence counters.  The wall clock of each chunk and how many
    chunks the receiver takes before it are arguments. *)

From S2P Require Import Prelude Protocol Lease Control LogFormat.
Open Scope N_scope.

Definition MAX_CHUNK_BYTES : nat := N.to_nat 65536.
Definition QUEUE_CHUNKS : N := 256.

Inductive CaptureError : Type := CaptureInvalid | CaptureClock | CaptureClosed | CaptureSequence.

Record CapturedChunk := {
  ck_stream : LogStream.t;
  ck_sequence : N;
  ck_capture_unix_nanos : Z;
  ck_payload : bytes;
}.

Record LogQueue := {
  lq_capacity : N;
  lq_items : list CapturedChunk;
  lq_closed : bool;
  lq_stdout : N;
  lq_stderr : N;
}.

Definition bounded (capacity : N) : result CaptureError LogQueue :=
  if (capacity =? 0) || (QUEUE_CHUNKS <? capacity) then Err CaptureInvalid
  else Ok {| lq_capacity := capacity; lq_items := []; lq_closed := false;
             lq_stdout := 0; lq_stderr := 0 |}.

(** [CaptureCounts::last_sequence]. *)
Definition last_sequence (q : LogQueue) (stream : LogStream.t) : result CaptureError N :=
  match stream with
  | LogStream.Stdout => Ok (lq_stdout q)
  | LogStream.Stderr => Ok (lq_stderr q)
  | _ => Err CaptureInvalid
  end.

Definition set_count (q : LogQueue) (stream : LogStream.t) (n : N) : LogQueue :=
  {| lq_capacity := lq_capacity q; lq_items := lq_items q; lq_closed := lq_closed q;
     lq_stdout := if bool_decide (stream = LogStream.Stdout) then n else lq_stdout q;
     lq_stderr := if bool_decide (stream = LogStream.Stderr) then n else lq_stderr q |}.

Definition set_items (q : LogQueue) (items : list CapturedChunk) : LogQueue :=
  {| lq_capacity := lq_capacity q; lq_items := items; lq_closed := lq_closed q;
     lq_stdout := lq_stdout q; lq_stderr := lq_stderr q |}.

(** [slice::chunks]; every chunk takes at least one byte, so the length is enough fuel. *)
Fixpoint chunks_fuel (fuel n : nat) (l : bytes) : list bytes :=
  match fuel with
  | O => []
  | S fuel' =>
      match l with
      | [] => []
      | _ => take n l :: chunks_fuel fuel' n (drop n l)
      end
  end.

Definition chunks (n : nat) (l : bytes) : list bytes := chunks_fuel (List.length l) n l.

Inductive send_outcome : Type := Sent | Dropped | Closed.

Definition try_send (q : LogQueue) (item : CapturedChunk) : send_outcome * LogQueue :=
  if lq_closed q then (Closed, q)
  else if len (lq_items q) <? lq_capacity q then (Sent, set_items q (lq_items q ++ [item]))
  else (Dropped, q).

(** [i64::try_from] of the nanoseconds since the epoch; [None] is a clock before it. *)
Definition capture_time (nanos : option N) : result CaptureError Z :=
  let? n := ok_or nanos CaptureClock in
  if n <=? I64_MAX then Ok (Z.of_N n) else Err CaptureClock.

(** One turn of the loop of [push_frame]. *)
Definition push_chunk (q : LogQueue) (stream : LogStream.t) (nanos : option N) (payload : bytes)
  : result CaptureError send_outcome * LogQueue :=
  match capture_time nanos with
  | Err e => (Err e, q)
  | Ok capture =>
      match last_sequence q stream with
      | Err e => (Err e, q)
      | Ok old =>
          match u64_checked_add old 1 with
          | None => (Err CaptureSequence, q)
          | Some next =>
              if negb (next <=? I64_MAX) then (Err CaptureSequence, q)
              else
                let q1 := set_count q stream next in
                match try_send q1 {| ck_stream := stream; ck_sequence := next;
                                     ck_capture_unix_nanos := capture; ck_payload := payload |} with
                | (Closed, q2) => (Err CaptureClosed, q2)
                | (outcome, q2) => (Ok outcome, q2)
                end
          end
      end
  end.

(** The environment of one chunk: the wall clock and the chunks received before it. *)
Record push_env := {
  pe_nanos : option N;
  pe_received : nat;
}.

(** The loop; the last component lists what happened to each chunk. *)
Fixpoint push_chunks (env : nat -> push_env) (k : nat) (q : LogQueue) (stream : LogStream.t)
  (payloads : list bytes) : result CaptureError unit * LogQueue * list send_outcome :=
  match payloads with
  | [] => (Ok tt, q, [])
  | payload :: rest =>
      let q0 := set_items q (drop (pe_received (env k)) (lq_items q)) in
      match push_chunk q0 stream (pe_nanos (env k)) payload with
      | (Err e, q1) => (Err e, q1, [])
      | (Ok outcome, q1) =>
          let '(r, q2, outcomes) := push_chunks env (S k) q1 stream rest in
          (r, q2, outcome :: outcomes)
      end
  end.

Definition push_frame (env : nat -> push_env) (q : LogQueue) (stream : LogStream.t) (frame : bytes)
  : result CaptureError unit * LogQueue * list send_outcome :=
  match last_sequence q stream with
  | Err e => (Err e, q, [])
  | Ok _ => push_chunks env 0 q stream (chunks MAX_CHUNK_BYTES frame)
  end.

(** * Lemmas *)

Lemma chunks_fuel_spec (n fuel : nat) (l : bytes) :
  (0 < n)%nat -> (List.length l <= fuel)%nat ->
  concat (chunks_fuel fuel n l) = l /\
  Forall (fun c => c <> [] /\ (List.length c <= n)%nat) (chunks_fuel fuel n l).
Proof.
  intros Hn. revert l. induction fuel as [|fuel IH]; intros l Hl.
  - destruct l; [|simpl in Hl; lia]. split; [done|constructor].
  - cbn [chunks_fuel]. destruct l as [|b l]; [split; [done|constructor]|].
    destruct n as [|n]; [lia|].
    destruct (IH (drop (S n) (b :: l))) as [IH1 IH2]; [rewrite length_drop; simpl in *; lia|].
    split.
    + cbn [concat]. rewrite IH1. apply take_drop.
    + constructor; [|done]. split; [done|]. rewrite length_take. lia.
Qed.

Lemma last_sequence_set_count (q : LogQueue) (s : LogStream.t) (n old : N) :
  last_sequence q s = Ok old -> last_sequence (set_count q s n) s = Ok n.
Proof. by destruct s. Qed.

Lemma last_sequence_set_items (q : LogQueue) (s : LogStream.t) (items : list CapturedChunk) :
  last_sequence (set_items q items) s = last_sequence q s.
Proof. by destruct s. Qed.

Lemma try_send_last_sequence (q : LogQueue) (item : CapturedChunk) (s : LogStream.t) :
  last_sequence (try_send q item).2 s = last_sequence q s.
Proof. unfold try_send. destruct (lq_closed q); [done|]. destruct (_ <? _); by destruct s. Qed.

(** A chunk that is accepted or dropped advances its stream's counter by one and
    enqueues at most itself, numbered with the new count. *)
Lemma push_chunk_Ok (q q' : LogQueue) (s : LogStream.t) (nanos : option N) (payload : bytes)
  (outcome : send_outcome) (old : N) :
  last_sequence q s = Ok old -> push_chunk q s nanos payload = (Ok outcome, q') ->
  last_sequence q' s = Ok (old + 1) /\ old + 1 <= I64_MAX /\
  exists t, (0 <= t < 9223372036854775808)%Z /\
    lq_items q' = lq_items q ++ match outcome with
                                | Sent => [{| ck_stream := s; ck_sequence := old + 1;
                                              ck_capture_unix_nanos := t; ck_payload := payload |}]
                                | _ => []
                                end.
Proof.
  intros Hold. unfold push_chunk, capture_time.
  destruct nanos as [n|]; simpl; [|done]. destruct (N.leb_spec n I64_MAX) as [Hn|]; simpl; [|done].
  rewrite Hold. destruct (u64_checked_add old 1) as [next|] eqn:Hnext; [|done].
  apply u64_checked_add_Some in Hnext as [-> _].
  destruct (N.leb_spec (old + 1) I64_MAX) as [Hle|]; simpl; [|done].
  destruct (try_send _ _) as [o q2] eqn:Hsend.
  pose proof (f_equal (fun p => last_sequence p.2 s) Hsend) as Hls. simpl in Hls.
  rewrite try_send_last_sequence, (last_sequence_set_count _ _ _ old) in Hls by done.
  intros H. assert (H' : outcome = o /\ q' = q2) by (destruct o; simplify_eq; done).
  destruct H' as [-> ->]. split; [done|]. split; [done|].
  exists (Z.of_N n). split; [unfold I64_MAX in *; lia|].
  unfold try_send in Hsend. destruct (lq_closed (set_count q s (old + 1))) eqn:Hcl.
  - by simplify_eq.
  - destruct (_ <? _); simplify_eq; simpl; [done|]. by rewrite app_nil_r.
Qed.

(** The outcomes of a loop that returned, against the numbers it handed out. *)
Lemma push_chunks_Ok (env : nat -> push_env) (payloads : list bytes) (k : nat) (q q' : LogQueue)
  (s : LogStream.t) (old : N) (outcomes : list send_outcome) :
  last_sequence q s = Ok old -> push_chunks env k q s payloads = (Ok tt, q', outcomes) ->
  last_sequence q' s = Ok (old + len payloads) /\ List.length outcomes = List.length payloads /\
  old <= old + len payloads <= N.max old I64_MAX.
Proof.
  revert k q old outcomes. induction payloads as [|p ps IH]; intros k q old outcomes Hold H.
  - simpl in H. injection H as <- <-. unfold len; simpl. rewrite N.add_0_r. split_and!; [done..|lia|lia].
  - cbn [push_chunks] in H. destruct (push_chunk _ _ _ _) as [[o|e] q1] eqn:E1; [|done].
    eapply push_chunk_Ok in E1 as (Hls & Hle & _); [|by rewrite last_sequence_set_items].
    destruct (push_chunks env (S k) q1 s ps) as [[r q2] os] eqn:E2. injection H as -> -> <-.
    destruct (IH _ _ _ _ Hls E2) as (Hls' & Hlen & Hb). unfold len in *. simpl.
    split_and!; [|lia|lia|lia]. rewrite Hls'. f_equal. lia.
Qed.

(** Capture never blocks and never hides a loss.  When a frame was pushed, the
    stream's counter advanced by exactly the number of its chunks, whether each was
    sent or dropped; the chunks are the frame, in order, none empty or longer than
    64 KiB; and the counter stays within [i64]. *)
Theorem capture_counts_every_chunk (env : nat -> push_env) (q q' : LogQueue) (s : LogStream.t)
  (frame : bytes) (old : N) (outcomes : list send_outcome) :
  last_sequence q s = Ok old -> old <= I64_MAX ->
  push_frame env q s frame = (Ok tt, q', outcomes) ->
  let cs := chunks MAX_CHUNK_BYTES frame in
  last_sequence q' s = Ok (old + len cs) /\ old + len cs <= I64_MAX /\
  List.length outcomes = List.length cs /\ concat cs = frame /\
  Forall (fun c => c <> [] /\ (List.length c <= MAX_CHUNK_BYTES)%nat) cs.
Proof.
  intros Hold Hle H cs. unfold push_frame in H. rewrite Hold in H.
  eapply push_chunks_Ok in H as (Hls & Hlen & Hb); [|done].
  destruct (chunks_fuel_spec MAX_CHUNK_BYTES (List.length frame) frame) as [Hc Hf];
    [unfold MAX_CHUNK_BYTES; lia|done|].
  split_and!; try done. fold cs in Hb. lia.
Qed.

Definition queue_fixture : LogQueue :=
  {| lq_capacity := 1; lq_items := []; lq_closed := false; lq_stdout := 4; lq_stderr := 0 |}.

Lemma capture_counts_every_chunk_witness :
  last_sequence {| lq_capacity := 1;
                   lq_items := [{| ck_stream := LogStream.Stdout; ck_sequence := 5;
                                   ck_capture_unix_nanos := 9; ck_payload := str_bytes "hi" |}];
                   lq_closed := false; lq_stdout := 5; lq_stderr := 0 |} LogStream.Stdout
  = Ok (4 + len (chunks MAX_CHUNK_BYTES (str_bytes "hi"))).
Proof.
  eapply (capture_counts_every_chunk (fun _ => {| pe_nanos := Some 9; pe_received := 0 |})
    queue_fixture _ LogStream.Stdout (str_bytes "hi") 4 [Sent]).
  - reflexivity.
  - vm_compute. discriminate.
  - vm_compute. reflexivity.
Defined.
