(* ===== verification/LogAssembler.v ===== *)
(** Sealing of captured chunks into upload candidates
    ([rust/worker/src/log_assembler.rs]).

    The state is the assembler with the files of its spool directory; each method
    is a computation of the state-and-error monad [st] and takes the answers of
    the system calls and the instants it reads.  SHA-256 (ring) is the parameter
    [sha256]. *)

From S2P Require Import Prelude Os Protocol Lease Control LogFormat LogSpool LogCapture.
Open Scope N_scope.

Definition FLUSH_INTERVAL : Duration := from_secs 2.

Inductive AssembleError : Type :=
| AssembleInvalid
| Format (e : LogFormatError)
| Spool (e : SpoolError).

Record PendingSegment := {
  ps_entry : StoredSegment;
  ps_stream : LogStream.t;
  ps_first_sequence : N;
  ps_last_sequence : N;
  ps_gaps : list LogGap;
  ps_sha256 : string;
}.

Record OpenSegment := {
  os_writer : LogSegmentWriter;
  os_opened : MonoTime;
}.

Record LogAssembler := {
  la_attempt_id : string;
  la_spool : LogSpool;
  la_files : files;
  la_open : two (option OpenSegment);
  la_last_seen : two N;
  la_last_stored : two N;
  la_pending : list PendingSegment;
}.

Definition asm (A : Type) : Type := st LogAssembler AssembleError A.

(** [false] is index 0 (stdout), [true] index 1 (stderr). *)
Definition index (stream : LogStream.t) : result AssembleError bool :=
  match stream with
  | LogStream.Stdout => Ok false
  | LogStream.Stderr => Ok true
  | _ => Err AssembleInvalid
  end.

Definition set_open (i : bool) (o : option OpenSegment) (a : LogAssembler) : LogAssembler :=
  {| la_attempt_id := la_attempt_id a; la_spool := la_spool a; la_files := la_files a;
     la_open := set2 i o (la_open a); la_last_seen := la_last_seen a;
     la_last_stored := la_last_stored a; la_pending := la_pending a |}.

Definition set_seen (i : bool) (n : N) (a : LogAssembler) : LogAssembler :=
  {| la_attempt_id := la_attempt_id a; la_spool := la_spool a; la_files := la_files a;
     la_open := la_open a; la_last_seen := set2 i n (la_last_seen a);
     la_last_stored := la_last_stored a; la_pending := la_pending a |}.

Definition set_spool (sp : LogSpool) (fs : files) (a : LogAssembler) : LogAssembler :=
  {| la_attempt_id := la_attempt_id a; la_spool := sp; la_files := fs;
     la_open := la_open a; la_last_seen := la_last_seen a;
     la_last_stored := la_last_stored a; la_pending := la_pending a |}.

Definition push_pending (i : bool) (p : PendingSegment) (a : LogAssembler) : LogAssembler :=
  {| la_attempt_id := la_attempt_id a; la_spool := la_spool a; la_files := la_files a;
     la_open := la_open a; la_last_seen := la_last_seen a;
     la_last_stored := set2 i (ps_last_sequence p) (la_last_stored a);
     la_pending := la_pending a ++ [p] |}.

Definition pop_pending (a : LogAssembler) : LogAssembler :=
  {| la_attempt_id := la_attempt_id a; la_spool := la_spool a; la_files := la_files a;
     la_open := la_open a; la_last_seen := la_last_seen a;
     la_last_stored := la_last_stored a; la_pending := tail (la_pending a) |}.

Definition assembler_new (euid : N) (workspace_root : string) (attempt_dir : option string)
  (cap : N) (call : create_io) (fs : files) : result AssembleError LogAssembler :=
  let? attempt_id := ok_or attempt_dir AssembleInvalid in
  let? spool := map_err Spool (create euid workspace_root attempt_dir cap call) in
  Ok {| la_attempt_id := attempt_id; la_spool := spool; la_files := fs;
        la_open := Two None None; la_last_seen := Two 0 0; la_last_stored := Two 0 0;
        la_pending := [] |}.

Section Assembler.
Context (sha256 : bytes -> bytes).

Definition fresh (stream : LogStream.t) (i : bool) (now : MonoTime) : asm OpenSegment := fun a =>
  (let? w := map_err Format
     (writer_new (la_attempt_id a) stream (u64_add (get2 i (la_last_stored a)) 1)) in
   Ok {| os_writer := w; os_opened := now |}, a).

Definition log_gap (stream : LogStream.t) (g : SequenceGap) : LogGap :=
  {| lg_stream := LogStream.to_i32 stream; lg_first_sequence := sg_first g;
     lg_last_sequence := sg_last g |}.

Definition seal (stream : LogStream.t) (segment : LogSegment) (entry : StoredSegment)
  : PendingSegment :=
  {| ps_entry := entry; ps_stream := stream;
     ps_first_sequence := seg_first_sequence segment;
     ps_last_sequence := seg_last_sequence segment;
     ps_gaps := map (log_gap stream) (seg_gaps segment);
     ps_sha256 := hex (sha256 (seg_bytes segment)) |}.

Definition flush_stream (call : store_io) (stream : LogStream.t) : asm unit :=
  let! i := st_lift (index stream) in
  let! open := st_gets (fun a => get2 i (la_open a)) in
  match open with
  | None => st_ret tt
  | Some o =>
      let! _ := st_modify (set_open i None) in
      let! segment := st_lift (map_err Format (writer_finish (os_writer o))) in
      fun a =>
        match store call (la_spool a) (la_files a) stream segment with
        | (Err e, sp, fs) => (Err (Spool e), set_spool sp fs a)
        | (Ok Saturated, sp, fs) => (Ok tt, set_spool sp fs a)
        | (Ok (Stored entry), sp, fs) =>
            (Ok tt, push_pending i (seal stream segment entry) (set_spool sp fs a))
        end
  end.

Definition append_chunk (o : OpenSegment) (chunk : CapturedChunk)
  : result LogFormatError OpenSegment :=
  let? w := append (os_writer o) (ck_sequence chunk) (ck_capture_unix_nanos chunk)
              (ck_payload chunk) in
  Ok {| os_writer := w; os_opened := os_opened o |}.

(** The instants of the two calls of [fresh] and the calls of the flush. *)
Record ingest_env := {
  ie_opened : MonoTime;
  ie_reopened : MonoTime;
  ie_store : store_io;
}.

(** The retry in a new segment after a flush. *)
Definition reopen (env : ingest_env) (chunk : CapturedChunk) (i : bool) : asm unit :=
  let! _ := flush_stream (ie_store env) (ck_stream chunk) in
  let! o := fresh (ck_stream chunk) i (ie_reopened env) in
  let! _ := st_modify (set_open i (Some o)) in
  let! o' := st_lift (map_err Format (append_chunk o chunk)) in
  st_modify (set_open i (Some o')).

Definition ingest (env : ingest_env) (chunk : CapturedChunk) : asm unit :=
  let! i := st_lift (index (ck_stream chunk)) in
  let! seen := st_gets (fun a => get2 i (la_last_seen a)) in
  if (ck_sequence chunk <=? seen) || bool_decide (ck_payload chunk = []) then st_err AssembleInvalid
  else
    let! open := st_gets (fun a => get2 i (la_open a)) in
    let! o := match open with
              | Some o => st_ret o
              | None =>
                  let! o := fresh (ck_stream chunk) i (ie_opened env) in
                  let! _ := st_modify (set_open i (Some o)) in
                  st_ret o
              end in
    let! _ := match append_chunk o chunk with
              | Ok o' => st_modify (set_open i (Some o'))
              | Err Full | Err GapLimit => reopen env chunk i
              | Err e => st_err (Format e)
              end in
    st_modify (set_seen i (ck_sequence chunk)).

Definition flush_if_due (now : MonoTime) (call : store_io) (stream : LogStream.t) : asm unit :=
  let! i := st_lift (index stream) in
  let! open := st_gets (fun a => get2 i (la_open a)) in
  match open with
  | Some o => if FLUSH_INTERVAL <=? now - os_opened o then flush_stream call stream else st_ret tt
  | None => st_ret tt
  end.

Definition flush_due (now : MonoTime) (stdout stderr : store_io) : asm unit :=
  let! _ := flush_if_due now stdout LogStream.Stdout in
  flush_if_due now stderr LogStream.Stderr.

Definition flush_all (stdout stderr : store_io) : asm unit :=
  let! _ := flush_stream stdout LogStream.Stdout in
  flush_stream stderr LogStream.Stderr.

Definition read_front (euid : N) (call : read_io) (a : LogAssembler)
  : result AssembleError (option bytes) :=
  match head (la_pending a) with
  | None => Ok None
  | Some segment =>
      let? body := map_err Spool (read euid call (la_spool a) (la_files a) (ps_entry segment)) in
      Ok (Some body)
  end.

Definition acknowledge_front (euid : N) (call : remove_io) : asm unit :=
  let! front := st_gets (fun a => head (la_pending a)) in
  let! segment := st_lift (ok_or front AssembleInvalid) in
  let! _ := (fun a =>
    match remove euid call (la_spool a) (la_files a) (ps_entry segment) with
    | (r, sp, fs) => (map_err Spool r, set_spool sp fs a)
    end) in
  st_modify pop_pending.

Definition last_stored (stream : LogStream.t) (a : LogAssembler) : result AssembleError N :=
  let? i := index stream in Ok (get2 i (la_last_stored a)).

End Assembler.

(** * Stored segments tile each stream *)

Definition stream_at (i : bool) : LogStream.t := if i then LogStream.Stderr else LogStream.Stdout.

Lemma index_Ok (s : LogStream.t) (i : bool) : index s = Ok i -> s = stream_at i.
Proof. by destruct s, i. Qed.

(** A stored candidate describes its range: the sequences of its records and the
    gaps between them, from its first sequence to its last. *)
Definition sealed (p : PendingSegment) : Prop :=
  exists seqs, ordered (ps_first_sequence p) seqs /\
    last seqs = Some (ps_last_sequence p) /\
    ps_gaps p = map (log_gap (ps_stream p)) (gaps_of (ps_first_sequence p) seqs) /\
    len (ps_gaps p) <= MAX_GAPS /\ 1 <= ps_first_sequence p /\ ps_last_sequence p <= I64_MAX.

(** [tiling a l b]: the candidates [l] cover [a + 1 .. b], each from where the
    previous one ended. *)
Inductive tiling : N -> list PendingSegment -> N -> Prop :=
| tile_nil (a : N) : tiling a [] a
| tile_cons (a b : N) (p : PendingSegment) (l : list PendingSegment) :
    ps_first_sequence p = a + 1 -> sealed p -> tiling (ps_last_sequence p) l b ->
    tiling a (p :: l) b.

Lemma tiling_snoc (a b : N) (l : list PendingSegment) (p : PendingSegment) :
  tiling a l b -> ps_first_sequence p = b + 1 -> sealed p ->
  tiling a (l ++ [p]) (ps_last_sequence p).
Proof. induction 1; intros Hp Hs; repeat constructor; auto. Qed.

Lemma sealed_range (p : PendingSegment) :
  sealed p -> 1 <= ps_first_sequence p <= ps_last_sequence p /\ ps_last_sequence p <= I64_MAX.
Proof.
  intros (seqs & Ho & Hl & _ & _ & H1 & H2). apply last_Some_elem_of in Hl.
  apply (ordered_lower _ _ _ Ho) in Hl. lia.
Qed.

(** Each position of a tiled stream lies in exactly one candidate. *)
Lemma tiling_unique (a b x : N) (l : list PendingSegment) :
  tiling a l b -> a < x <= b ->
  exists l1 p l2, l = l1 ++ p :: l2 /\ ps_first_sequence p <= x <= ps_last_sequence p /\
    Forall (fun q => ~ (ps_first_sequence q <= x <= ps_last_sequence q)) (l1 ++ l2).
Proof.
  assert (Hlow : forall a l b, tiling a l b -> Forall (fun q => a < ps_first_sequence q) l).
  { induction 1 as [|a0 b0 p l0 Hf Hs Ht IH]; constructor; [lia|].
    apply sealed_range in Hs. eapply Forall_impl; [exact IH|]. intros q Hq. simpl in Hq. lia. }
  induction 1 as [|a b p l Hf Hs Ht IH]; intros Hx; [lia|].
  destruct (N.le_gt_cases x (ps_last_sequence p)) as [Hle|Hgt].
  - exists [], p, l. split_and!; [done|lia|lia|]. simpl. apply Hlow in Ht.
    eapply Forall_impl; [exact Ht|]. intros q Hq. simpl in Hq. lia.
  - destruct IH as (l1 & q & l2 & -> & Hq & Hall); [lia|].
    exists (p :: l1), q, l2. split_and!; [done|lia|lia|]. simpl. constructor; [lia|done].
Qed.

Definition of_stream (i : bool) (l : list PendingSegment) : list PendingSegment :=
  filter (fun p => ps_stream p = stream_at i) l.

(** An open segment starts right after what is stored of its stream. *)
Definition open_at (i : bool) (stored : N) (o : OpenSegment) : Prop :=
  exists records, writer_holds (os_writer o) records /\ wr_stream (os_writer o) = stream_at i /\
    wr_first_sequence (os_writer o) = stored + 1.

Record stream_ok (acked : list PendingSegment) (a : LogAssembler) (i : bool) : Prop := {
  st_tiling : tiling 0 (of_stream i (acked ++ la_pending a)) (get2 i (la_last_stored a));
  st_stored : get2 i (la_last_stored a) <= I64_MAX;
  st_open : forall o, get2 i (la_open a) = Some o -> open_at i (get2 i (la_last_stored a)) o;
}.

Definition asm_ok (acked : list PendingSegment) (a : LogAssembler) : Prop :=
  forall i, stream_ok acked a i.

Lemma set_open_ok (acked : list PendingSegment) (a : LogAssembler) (i : bool)
  (o : option OpenSegment) :
  asm_ok acked a -> (forall x, o = Some x -> open_at i (get2 i (la_last_stored a)) x) ->
  asm_ok acked (set_open i o a).
Proof.
  intros Hok Ho j. destruct (Hok j) as [Ht Hs Hop]. split; simpl; [done..|].
  intros x Hx. destruct (decide (j = i)) as [->|Hne].
  - rewrite get2_set2 in Hx. auto.
  - rewrite get2_set2_ne in Hx by done. auto.
Qed.

Lemma set_seen_ok (acked : list PendingSegment) (a : LogAssembler) (i : bool) (n : N) :
  asm_ok acked a -> asm_ok acked (set_seen i n a).
Proof. intros Hok j. by destruct (Hok j). Qed.

Lemma set_spool_ok (acked : list PendingSegment) (a : LogAssembler) (sp : LogSpool) (fs : files) :
  asm_ok acked a -> asm_ok acked (set_spool sp fs a).
Proof. intros Hok j. by destruct (Hok j). Qed.

Lemma push_pending_ok (acked : list PendingSegment) (a : LogAssembler) (i : bool)
  (p : PendingSegment) :
  asm_ok acked a -> get2 i (la_open a) = None -> ps_stream p = stream_at i -> sealed p ->
  ps_first_sequence p = get2 i (la_last_stored a) + 1 -> asm_ok acked (push_pending i p a).
Proof.
  intros Hok Hnone Hst Hse Hf j. destruct (Hok j) as [Ht Hs Hop].
  destruct (decide (j = i)) as [->|Hne].
  - split; simpl.
    + rewrite get2_set2, (assoc_L (++)). unfold of_stream. rewrite filter_app.
      rewrite (filter_cons_True _ p []) by done. rewrite filter_nil.
      by apply tiling_snoc with (get2 i (la_last_stored a)).
    + rewrite get2_set2. apply sealed_range in Hse. lia.
    + intros o Ho. congruence.
  - split; simpl; rewrite ?get2_set2_ne by done; try done.
    rewrite (assoc_L (++)). unfold of_stream. rewrite filter_app, (filter_cons_False _ p []).
    + by rewrite filter_nil, app_nil_r.
    + rewrite Hst. by destruct i, j.
Qed.

Lemma fresh_open (acked : list PendingSegment) (s : LogStream.t) (i : bool) (now : MonoTime) :
  s = stream_at i ->
  triple (asm_ok acked) (fresh s i now)
    (fun o a => asm_ok acked a /\ open_at i (get2 i (la_last_stored a)) o) (asm_ok acked).
Proof.
  intros -> a r a' Hok [= <- <-].
  destruct (writer_new _ _ _) as [w|e] eqn:Hw; simpl; [|done]. split; [done|].
  apply writer_new_holds in Hw as (Hh & _ & Hs & Hf). exists []. split_and!; [done..|].
  simpl. rewrite Hf. apply u64_add_small. pose proof (st_stored _ _ _ (Hok i)).
  unfold I64_MAX, U64_MAX in *. lia.
Qed.

Lemma append_chunk_open (i : bool) (stored : N) (o o' : OpenSegment) (chunk : CapturedChunk) :
  (ck_capture_unix_nanos chunk < 9223372036854775808)%Z ->
  open_at i stored o -> append_chunk o chunk = Ok o' -> open_at i stored o'.
Proof.
  intros Hc (records & Hh & Hs & Hf) H. unfold append_chunk in H. ok_inv. subst o'.
  set (r := {| rec_sequence := ck_sequence chunk; rec_capture_unix_nanos := ck_capture_unix_nanos chunk;
               rec_payload := ck_payload chunk |}).
  destruct (append_holds (os_writer o) x records r Hh Hc) as (Hh' & _ & Hs' & Hf'); [done|].
  exists (records ++ [r]). simpl. rewrite Hs', Hf'. done.
Qed.

Section Tiling.
Context (sha256 : bytes -> bytes).

Lemma seal_sealed (i : bool) (stored : N) (o : OpenSegment) (seg : LogSegment)
  (entry : StoredSegment) :
  open_at i stored o -> writer_finish (os_writer o) = Ok seg ->
  let p := seal sha256 (stream_at i) seg entry in
  sealed p /\ ps_stream p = stream_at i /\ ps_first_sequence p = stored + 1.
Proof.
  intros (records & Hh & Hs & Hf) Hfin. unfold writer_finish in Hfin. ok_inv. subst seg. simpl.
  destruct Hh as [_ _ Hfirst _ _ Hlast Hgaps Hcount Hord Hrs]. split; [|done].
  exists (map rec_sequence records). simpl. rewrite Hlast in *. unfold len in *. rewrite length_map. split_and!; try done; try lia.
  - by rewrite Hgaps.
  - match goal with H : last _ = Some _ |- _ =>
      apply last_Some_elem_of, list_elem_of_fmap in H as (r & -> & Hr) end.
    rewrite Forall_forall in Hrs. by destruct (Hrs r Hr) as [[_ ?] _].
Qed.

Lemma flush_stream_ok (acked : list PendingSegment) (call : store_io) (s : LogStream.t) :
  triple (asm_ok acked) (flush_stream sha256 call s) (fun _ => asm_ok acked) (asm_ok acked).
Proof.
  eapply triple_bind; [by apply triple_lift|]. intros i. eapply triple_bind; [apply triple_gets|].
  intros [o|]; [|eapply triple_conseq; [apply triple_ret|exact (fun _ H => H)|naive_solver]].
  eapply triple_bind with
    (R := fun _ a => s = stream_at i /\ asm_ok acked a /\ get2 i (la_open a) = None
                     /\ open_at i (get2 i (la_last_stored a)) o).
  - apply triple_modify. intros a (Ho & Hi & Hok). symmetry in Ho. split_and!.
    + by apply index_Ok.
    + by apply set_open_ok.
    + simpl. apply get2_set2.
    + simpl. by apply (st_open _ _ _ (Hok i)).
  - intros []. eapply triple_bind; [by apply triple_lift; naive_solver|].
    intros seg a r a' (Hseg & -> & Hok & Hnone & Hopen) H. ok_inv.
    destruct (store _ _ _ _ _) as [[[[entry|]|e] sp] fs]; injection H as <- <-;
      try by apply set_spool_ok.
    destruct (seal_sealed i _ _ _ entry Hopen Hseg) as (Hse & Hst & Hf).
    apply push_pending_ok; [by apply set_spool_ok|done..].
Qed.

Lemma reopen_ok (acked : list PendingSegment) (env : ingest_env) (chunk : CapturedChunk) (i : bool) :
  ck_stream chunk = stream_at i -> (ck_capture_unix_nanos chunk < 9223372036854775808)%Z ->
  triple (asm_ok acked) (reopen sha256 env chunk i) (fun _ => asm_ok acked) (asm_ok acked).
Proof.
  intros Hi Hc. eapply triple_bind; [apply flush_stream_ok|]. intros [].
  eapply triple_bind; [by apply fresh_open|]. intros o.
  eapply triple_bind with
    (R := fun _ a => asm_ok acked a /\ open_at i (get2 i (la_last_stored a)) o).
  - apply triple_modify. intros a [Hok Ho]. split; [|done].
    apply set_open_ok; [done|]. by intros x [= <-].
  - intros []. eapply triple_bind; [apply triple_lift; naive_solver|]. intros o'.
    apply triple_modify. intros a (Ho' & Hok & Ho). ok_inv.
    apply set_open_ok; [done|]. intros x [= <-]. by eapply append_chunk_open.
Qed.

Lemma ingest_ok (acked : list PendingSegment) (env : ingest_env) (chunk : CapturedChunk) :
  (ck_capture_unix_nanos chunk < 9223372036854775808)%Z ->
  triple (asm_ok acked) (ingest sha256 env chunk) (fun _ => asm_ok acked) (asm_ok acked).
Proof.
  intros Hc. eapply triple_bind; [by apply triple_lift|]. intros i.
  eapply triple_bind; [apply triple_gets|]. intros seen.
  destruct (_ || _); [apply triple_err; naive_solver|].
  eapply triple_bind; [apply triple_gets|]. intros open.
  eapply triple_bind with
    (R := fun o a => ck_stream chunk = stream_at i /\ asm_ok acked a
                     /\ open_at i (get2 i (la_last_stored a)) o).
  - destruct open as [o|].
    + eapply triple_conseq; [apply triple_ret|exact (fun _ H => H)|].
      intros x a (-> & Ho & _ & Hi & Hok). symmetry in Ho.
      split_and!; [by apply index_Ok|done|by apply (st_open _ _ _ (Hok i))].
    + intros a r a' (_ & _ & Hi & Hok). apply index_Ok in Hi. revert a r a' Hok.
      eapply triple_bind; [by apply fresh_open|]. intros o.
      eapply triple_bind with
        (R := fun _ a => asm_ok acked a /\ open_at i (get2 i (la_last_stored a)) o).
      * apply triple_modify. intros a [Hok Ho]. split; [|done].
        apply set_open_ok; [done|]. by intros x [= <-].
      * intros []. eapply triple_conseq; [apply triple_ret|exact (fun _ H => H)|]. naive_solver.
  - intros o. eapply triple_bind with (R := fun _ => asm_ok acked).
    + intros a r a' (Hi & Hok & Ho). destruct (append_chunk o chunk) as [o'|[]] eqn:Ha.
      * intros [= <- <-]. apply set_open_ok; [done|]. intros x [= <-]. by eapply append_chunk_open.
      * by intros [= <- <-].
      * by intros [= <- <-].
      * by apply reopen_ok.
      * by apply reopen_ok.
    + intros []. apply triple_modify. intros a. apply set_seen_ok.
Qed.

Lemma flush_if_due_ok (acked : list PendingSegment) (now : MonoTime) (call : store_io)
  (s : LogStream.t) :
  triple (asm_ok acked) (flush_if_due sha256 now call s) (fun _ => asm_ok acked) (asm_ok acked).
Proof.
  eapply triple_bind; [by apply triple_lift|]. intros i. eapply triple_bind; [apply triple_gets|].
  intros [o|]; [destruct (_ <=? _)|].
  - eapply triple_conseq; [apply flush_stream_ok|naive_solver|done].
  - eapply triple_conseq; [apply triple_ret|exact (fun _ H => H)|naive_solver].
  - eapply triple_conseq; [apply triple_ret|exact (fun _ H => H)|naive_solver].
Qed.

(** One operation of the assembler, with the candidates acknowledged so far. *)
Inductive asm_step : list PendingSegment * LogAssembler -> list PendingSegment * LogAssembler -> Prop :=
| as_ingest (acked : list PendingSegment) (a a' : LogAssembler) (env : ingest_env)
    (chunk : CapturedChunk) (r : result AssembleError unit) :
    (ck_capture_unix_nanos chunk < 9223372036854775808)%Z ->
    ingest sha256 env chunk a = (r, a') -> asm_step (acked, a) (acked, a')
| as_flush_due (acked : list PendingSegment) (a a' : LogAssembler) (now : MonoTime)
    (c0 c1 : store_io) (r : result AssembleError unit) :
    flush_due sha256 now c0 c1 a = (r, a') -> asm_step (acked, a) (acked, a')
| as_flush_all (acked : list PendingSegment) (a a' : LogAssembler) (c0 c1 : store_io)
    (r : result AssembleError unit) :
    flush_all sha256 c0 c1 a = (r, a') -> asm_step (acked, a) (acked, a')
| as_ack (acked : list PendingSegment) (a a' : LogAssembler) (euid : N) (call : remove_io)
    (p : PendingSegment) :
    head (la_pending a) = Some p -> acknowledge_front euid call a = (Ok tt, a') ->
    asm_step (acked, a) (acked ++ [p], a')
| as_ack_failed (acked : list PendingSegment) (a a' : LogAssembler) (euid : N) (call : remove_io)
    (e : AssembleError) :
    acknowledge_front euid call a = (Err e, a') -> asm_step (acked, a) (acked, a').

Lemma acknowledge_front_inv (euid : N) (call : remove_io) (a a' : LogAssembler)
  (r : result AssembleError unit) :
  acknowledge_front euid call a = (r, a') ->
  (exists p l sp fs, r = Ok tt /\ la_pending a = p :: l /\ a' = pop_pending (set_spool sp fs a)) \/
  (exists e, r = Err e /\ (a' = a \/ exists sp fs, a' = set_spool sp fs a)).
Proof.
  unfold acknowledge_front, st_bind, st_gets, st_lift, st_modify.
  destruct (la_pending a) as [|p l] eqn:Hp; simpl; [intros [= <- <-]; eauto|].
  destruct (remove _ _ _ _ _) as [[[[]|e] sp] fs]; simpl; intros [= <- <-].
  - left. by exists p, l, sp, fs.
  - right. exists (Spool e). split; [done|]. right. by exists sp, fs.
Qed.

Lemma asm_step_ok (s s' : list PendingSegment * LogAssembler) :
  asm_step s s' -> asm_ok s.1 s.2 -> asm_ok s'.1 s'.2.
Proof.
  intros Hs Hok. destruct Hs as [acked a a' env chunk r Hc H|acked a a' now c0 c1 r H
    |acked a a' c0 c1 r H|acked a a' euid call p Hp H|acked a a' euid call e H]; simpl in *.
  - apply (ingest_ok acked env chunk Hc _ _ _ Hok) in H. by destruct r.
  - assert (Ht : triple (asm_ok acked) (flush_due sha256 now c0 c1) (fun _ => asm_ok acked)
      (asm_ok acked)) by (eapply triple_bind; [apply flush_if_due_ok|]; intros []; apply flush_if_due_ok).
    apply (Ht _ _ _ Hok) in H. by destruct r.
  - assert (Ht : triple (asm_ok acked) (flush_all sha256 c0 c1) (fun _ => asm_ok acked)
      (asm_ok acked)) by (eapply triple_bind; [apply flush_stream_ok|]; intros []; apply flush_stream_ok).
    apply (Ht _ _ _ Hok) in H. by destruct r.
  - apply acknowledge_front_inv in H as [(q & l & sp & fs & _ & Hl & ->)|(e & He & _)]; [|done].
    rewrite Hl in Hp. injection Hp as ->. intros j. destruct (Hok j) as [Ht Hs Ho].
    split; simpl; try done. rewrite Hl in *. simpl. by rewrite <- (assoc_L (++)).
  - apply acknowledge_front_inv in H as [(q & l & sp & fs & He & _)|(e' & _ & [->|(sp & fs & ->)])];
      [done|done|]. by apply set_spool_ok.
Qed.

Lemma assembler_new_ok (euid : N) (root : string) (dir : option string) (cap : N)
  (call : create_io) (fs : files) (a : LogAssembler) :
  assembler_new euid root dir cap call fs = Ok a -> asm_ok [] a.
Proof.
  unfold assembler_new. intros H. ok_inv. subst a. intros i.
  destruct i; split; simpl; try done; constructor.
Qed.

Lemma asm_steps_ok (acked acked' : list PendingSegment) (a a' : LogAssembler) :
  rtc asm_step (acked, a) (acked', a') -> asm_ok acked a -> asm_ok acked' a'.
Proof.
  change (asm_ok acked a) with (asm_ok (acked, a).1 (acked, a).2).
  change (asm_ok acked' a') with (asm_ok (acked', a').1 (acked', a').2).
  generalize (acked, a), (acked', a'). intros s s' Hs.
  induction Hs as [|s1 s2 s3 H12 _ IH]; [done|]. intros H1. apply IH. by eapply asm_step_ok.
Qed.

Lemma stored_once (acked : list PendingSegment) (a : LogAssembler) (i : bool) (x : N) :
  asm_ok acked a -> 1 <= x <= get2 i (la_last_stored a) ->
  exists l1 p l2, of_stream i (acked ++ la_pending a) = l1 ++ p :: l2 /\ sealed p /\
    ps_first_sequence p <= x <= ps_last_sequence p /\
    Forall (fun q => ~ (ps_first_sequence q <= x <= ps_last_sequence q)) (l1 ++ l2).
Proof.
  intros Hok Hx. destruct (Hok i) as [Ht _ _].
  assert (Hsealed : forall a l b, tiling a l b -> Forall sealed l) by (induction 1; by constructor).
  pose proof (Hsealed _ _ _ Ht) as Hall.
  destruct (tiling_unique _ _ x _ Ht) as (l1 & p & l2 & Heq & Hp & Hu); [lia|].
  exists l1, p, l2. split_and!; try done; try lia.
  rewrite Heq, Forall_app, Forall_cons in Hall. naive_solver.
Qed.

(** C24: no captured sequence number falls between stored segments.  Whatever is
    ingested, flushed, dropped by a full spool or lost to failing system calls,
    the candidates stored so far for a stream (acknowledged or still pending) tile
    its numbers from 1 to [last_stored]: each number lies in exactly one of them,
    and that one records it as written or as lost. *)
Theorem stored_segments_tile_each_stream (euid : N) (root : string) (dir : option string)
  (cap : N) (call : create_io) (fs : files) (a a' : LogAssembler) (acked : list PendingSegment)
  (i : bool) (x : N) :
  assembler_new euid root dir cap call fs = Ok a ->
  rtc asm_step ([], a) (acked, a') ->
  1 <= x <= get2 i (la_last_stored a') ->
  exists l1 p l2, of_stream i (acked ++ la_pending a') = l1 ++ p :: l2 /\ sealed p /\
    ps_first_sequence p <= x <= ps_last_sequence p /\
    Forall (fun q => ~ (ps_first_sequence q <= x <= ps_last_sequence q)) (l1 ++ l2).
Proof.
  intros Hnew Hs Hx. apply stored_once; [|done].
  by eapply asm_steps_ok; [|eapply assembler_new_ok].
Qed.
End Tiling.

Definition assembler_fixture : LogAssembler :=
  {| la_attempt_id := "00000000-0000-0000-0000-000000000005"; la_spool := spool_fixture;
     la_files := ∅; la_open := Two None None; la_last_seen := Two 0 0; la_last_stored := Two 0 0;
     la_pending := [] |}.

Definition chunk_fixture : CapturedChunk :=
  {| ck_stream := LogStream.Stdout; ck_sequence := 3; ck_capture_unix_nanos := 9;
     ck_payload := str_bytes "late" |}.

Definition ingest_env_fixture : ingest_env :=
  {| ie_opened := 0; ie_reopened := 0; ie_store := store_io_fixture |}.

Definition zero_digest : bytes -> bytes := fun _ => replicate 32 "000"%byte.

Definition ingested_fixture : LogAssembler :=
  (ingest zero_digest ingest_env_fixture chunk_fixture assembler_fixture).2.

Definition flushed_fixture : LogAssembler :=
  (flush_all zero_digest store_io_fixture store_io_fixture ingested_fixture).2.

Lemma stored_segments_tile_each_stream_witness :
  exists l1 p l2, of_stream false ([] ++ la_pending flushed_fixture) = l1 ++ p :: l2 /\ sealed p /\
    ps_first_sequence p <= 2 <= ps_last_sequence p /\
    Forall (fun q => ~ (ps_first_sequence q <= 2 <= ps_last_sequence q)) (l1 ++ l2).
Proof.
  apply (stored_segments_tile_each_stream zero_digest 0
    "/w/00000000-0000-0000-0000-000000000005" (Some "00000000-0000-0000-0000-000000000005"%string)
    4096 create_io_fixture ∅ assembler_fixture flushed_fixture [] false 2).
  - vm_compute. reflexivity.
  - eapply rtc_l; [|apply rtc_once].
    + apply (as_ingest zero_digest [] assembler_fixture ingested_fixture ingest_env_fixture
        chunk_fixture (Ok tt)); [reflexivity|]. vm_compute. reflexivity.
    + apply (as_flush_all zero_digest [] ingested_fixture flushed_fixture store_io_fixture
        store_io_fixture (Ok tt)). vm_compute. reflexivity.
  - vm_compute. split; discriminate.
Defined.
