(* ===== verification/LogSummary.v ===== *)
(** Completion claims from registered log evidence
    ([rust/worker/src/log_summary.rs], [summarize_ranges]). *)

From S2P Require Import Prelude Protocol.
Open Scope N_scope.

Inductive SummaryError : Type := SummaryInvalid | Limit.

Record LogSummary := {
  sm_complete : bool;
  sm_gaps : list LogGap;
}.

Record Range := {
  rg_range_stream : LogStream.t;
  rg_first : N;
  rg_last : N;
  rg_range_gaps : list LogGap;
  rg_registered : bool;
}.

(** The state of the first loop. *)
Record scan := {
  sc_registered : two N;
  sc_unregistered : two bool;
  sc_gaps : list LogGap;
}.

Definition scan_range (s : scan) (range : Range) : result SummaryError scan :=
  let? i := match rg_range_stream range with
            | LogStream.Stdout => Ok false
            | LogStream.Stderr => Ok true
            | _ => Err SummaryInvalid
            end in
  if (rg_first range =? 0) || (rg_last range <? rg_first range) || (I64_MAX <? rg_last range)
     || rg_registered range
        && (get2 i (sc_unregistered s)
            || negb (rg_first range =? u64_add (get2 i (sc_registered s)) 1))
  then Err SummaryInvalid
  else if rg_registered range
  then Ok {| sc_registered := set2 i (rg_last range) (sc_registered s);
             sc_unregistered := sc_unregistered s;
             sc_gaps := sc_gaps s ++ rg_range_gaps range |}
  else Ok {| sc_registered := sc_registered s;
             sc_unregistered := set2 i true (sc_unregistered s);
             sc_gaps := sc_gaps s |}.

(** One turn of the loop over the captured totals. *)
Definition add_tail (registered : two N) (captured : two N) (gaps : list LogGap) (i : bool)
  : result SummaryError (list LogGap) :=
  let total := get2 i captured in
  if (I64_MAX <? total) || (total <? get2 i registered) then Err SummaryInvalid
  else if get2 i registered <? total
  then Ok (gaps ++ [{| lg_stream := LogStream.to_i32 (if i then LogStream.Stderr else LogStream.Stdout);
                       lg_first_sequence := u64_add (get2 i registered) 1;
                       lg_last_sequence := total |}])
  else Ok gaps.

(** [(gap.stream, gap.first_sequence)] in the derived order of pairs. *)
Definition gap_leb (g h : LogGap) : bool :=
  (lg_stream g <? lg_stream h)%Z
  || (lg_stream g =? lg_stream h)%Z && (lg_first_sequence g <=? lg_first_sequence h).

(** One turn of the merging loop; the last element of [merged] comes first. *)
Definition merge_gap (merged : list LogGap) (gap : LogGap) : result SummaryError (list LogGap) :=
  if (lg_first_sequence gap =? 0) || (lg_last_sequence gap <? lg_first_sequence gap)
  then Err SummaryInvalid
  else
    let push := if 1024 <? len (gap :: merged) then Err Limit else Ok (gap :: merged) in
    match merged with
    | previous :: rest =>
        if (lg_stream previous =? lg_stream gap)%Z
           && (lg_first_sequence gap <=? u64_saturating_add (lg_last_sequence previous) 1)
        then Ok ({| lg_stream := lg_stream previous;
                    lg_first_sequence := lg_first_sequence previous;
                    lg_last_sequence := N.max (lg_last_sequence previous) (lg_last_sequence gap) |}
                 :: rest)
        else push
    | [] => push
    end.

Definition scan_start : scan :=
  {| sc_registered := Two 0 0; sc_unregistered := Two false false; sc_gaps := [] |}.

Definition summarize_ranges (ranges : list Range) (captured : two N) (capture_finished : bool)
  : result SummaryError LogSummary :=
  let? s := rfold scan_range scan_start ranges in
  let? gaps := rfold (add_tail (sc_registered s) captured) (sc_gaps s) [false; true] in
  let? merged := rfold merge_gap [] (sort_by gap_leb gaps) in
  Ok {| sm_complete := capture_finished && negb (at0 (sc_unregistered s))
                       && negb (at1 (sc_unregistered s)) && bool_decide (merged = []);
        sm_gaps := reverse merged |}.

(** * Lemmas *)

Definition gap_at (g : LogGap) (s : Z) (x : N) : Prop :=
  lg_stream g = s /\ lg_first_sequence g <= x <= lg_last_sequence g.

Definition covers (l : list LogGap) (s : Z) (x : N) : Prop := exists g, g ∈ l /\ gap_at g s x.

Definition gap_valid (g : LogGap) : Prop :=
  1 <= lg_first_sequence g <= lg_last_sequence g /\ lg_last_sequence g <= U64_MAX.

(** [g] ends before [h] begins, with at least one number of the stream between. *)
Definition before (g h : LogGap) : Prop :=
  (lg_stream g < lg_stream h)%Z \/
  lg_stream g = lg_stream h /\ lg_last_sequence g + 1 < lg_first_sequence h.

Lemma covers_cons (g : LogGap) (l : list LogGap) (s : Z) (x : N) :
  covers (g :: l) s x <-> gap_at g s x \/ covers l s x.
Proof.
  unfold covers. split.
  - intros (h & Hh & Hx). apply elem_of_cons in Hh as [->|Hh]; eauto.
  - intros [H|(h & Hh & Hx)]; [exists g; split; [left|done]|exists h; split; [by right|done]].
Qed.

Lemma covers_perm (l k : list LogGap) (s : Z) (x : N) : l ≡ₚ k -> covers l s x <-> covers k s x.
Proof. intros H. unfold covers. by setoid_rewrite H. Qed.

Lemma covers_nil (s : Z) (x : N) : ~ covers [] s x.
Proof. intros (g & Hg & _). by apply elem_of_nil in Hg. Qed.

Lemma gap_leb_total (g h : LogGap) : gap_leb g h = true \/ gap_leb h g = true.
Proof. unfold gap_leb. bools. lia. Qed.

Lemma gap_leb_trans (g h k : LogGap) :
  gap_leb g h = true -> gap_leb h k = true -> gap_leb g k = true.
Proof. unfold gap_leb. bools. lia. Qed.

(** The state of the merging loop: separated gaps, the last one first. *)
Definition merged_ok (m : list LogGap) : Prop :=
  Sorted (flip before) m /\ Forall gap_valid m.

(** What one turn of the merging loop establishes. *)
Definition merge_post (m m' : list LogGap) (g : LogGap) : Prop :=
  merged_ok m' /\ (forall s x, covers m' s x <-> gap_at g s x \/ covers m s x) /\
  len m' <= N.max (len m) 1024 /\
  (forall h k, head m' = Some h -> gap_leb g k = true -> gap_leb h k = true) /\ m' <> [].

Lemma merge_push (m m' : list LogGap) (g : LogGap) :
  merged_ok m -> gap_valid g -> (forall h, head m = Some h -> before h g) ->
  (if 1024 <? len (g :: m) then Err Limit else Ok (g :: m)) = Ok m' -> merge_post m m' g.
Proof.
  intros [Hs Hv] Hg Hb. destruct (N.ltb_spec 1024 (len (g :: m))); [done|]. intros [= <-].
  split_and!; [split| | | |done].
  - constructor; [done|]. destruct m as [|h m]; constructor. by apply Hb.
  - by constructor.
  - intros s x. apply covers_cons.
  - lia.
  - by intros h k [= <-].
Qed.

Lemma merge_extend (m : list LogGap) (p g : LogGap) :
  merged_ok (p :: m) -> gap_valid g -> lg_stream p = lg_stream g ->
  lg_first_sequence p <= lg_first_sequence g -> lg_first_sequence g <= lg_last_sequence p + 1 ->
  merge_post (p :: m)
    ({| lg_stream := lg_stream p; lg_first_sequence := lg_first_sequence p;
        lg_last_sequence := N.max (lg_last_sequence p) (lg_last_sequence g) |} :: m) g.
Proof.
  intros [Hs Hv] Hg Hst Hlo Hhi. apply Forall_cons in Hv as [Hp Hv]. unfold gap_valid in *.
  split_and!; [split| | | |done].
  - apply Sorted_inv in Hs as [Hs Hhd]. constructor; [done|]. by destruct Hhd; constructor.
  - constructor; [|done]. unfold gap_valid; simpl. lia.
  - intros s x. rewrite !covers_cons. unfold gap_at; simpl. clear Hs Hv. split.
    + intros [[<- Hx]|?]; [|auto].
      destruct (N.le_gt_cases x (lg_last_sequence p)); [right; left; lia|left; lia].
    + intros [[<- Hx]|[[<- Hx]|?]]; [left; lia|left; lia|auto].
  - unfold len; simpl. lia.
  - intros h k [= <-]. unfold gap_leb; simpl. clear Hs Hv. bools. lia.
Qed.

Lemma merge_gap_Ok (m m' : list LogGap) (g : LogGap) :
  merged_ok m -> lg_last_sequence g <= U64_MAX -> (forall h, head m = Some h -> gap_leb h g = true) ->
  merge_gap m g = Ok m' -> merge_post m m' g.
Proof.
  intros Hm Hu Hle. unfold merge_gap. destruct (_ || _) eqn:Eg; [done|]. bools_in Eg.
  assert (Hg : gap_valid g) by (unfold gap_valid; lia).
  destruct m as [|p m]; [by apply merge_push|].
  specialize (Hle p eq_refl). unfold gap_leb in Hle. bools_in Hle.
  assert (Hp : gap_valid p) by (destruct Hm as [_ Hv]; by apply Forall_cons in Hv as [? _]).
  unfold gap_valid in Hp, Hg. destruct (_ && _) eqn:Em.
  - bools_in Em. destruct Em as [Est Efi]. unfold u64_saturating_add in Efi. intros [= <-].
    apply merge_extend; [done|done|done|lia|lia].
  - apply merge_push; [done|done|]. intros h [= <-]. unfold before.
    unfold u64_saturating_add in Em. bools_in Em. unfold U64_MAX in *. lia.
Qed.

Lemma merge_gaps_Ok (l m m' : list LogGap) :
  merged_ok m -> Forall (fun g => lg_last_sequence g <= U64_MAX) l ->
  StronglySorted (leb_rel gap_leb) l ->
  (forall h k, head m = Some h -> k ∈ l -> gap_leb h k = true) ->
  len m <= 1024 -> rfold merge_gap m l = Ok m' ->
  merged_ok m' /\ (forall s x, covers m' s x <-> covers m s x \/ covers l s x) /\ len m' <= 1024 /\
  (m' = [] -> l = []).
Proof.
  revert m. induction l as [|g l IH]; intros m Hm Hu Hs Hle Hn H; simpl in H.
  - injection H as <-. split_and!; [done| |done|done]. intros s x. pose proof (covers_nil s x). naive_solver.
  - apply rbind_Ok_inv in H as (m1 & H1 & H). apply StronglySorted_inv in Hs as [Hs Hall].
    apply Forall_cons in Hu as [Hug Hu]. rewrite Forall_forall in Hall.
    eapply merge_gap_Ok in H1 as (Hm1 & Hc1 & Hn1 & Hh1 & Hne); [|done|done|].
    2: { intros h Hh. apply Hle; [done|left]. }
    assert (Hne' : exists h, head m1 = Some h) by (destruct m1; simpl; eauto; done).
    destruct Hne' as [h0 Hh0].
    apply IH in H as (Hm' & Hc' & Hn' & _); [|done..| |lia].
    + split_and!; [done| |done|].
      * intros s x. rewrite Hc', Hc1, covers_cons. tauto.
      * intros ->. exfalso. destruct Hm1 as [_ Hv1]. destruct m1 as [|h m1]; [done|].
        apply Forall_cons in Hv1 as [Hv1 _]. unfold gap_valid in Hv1.
        apply (covers_nil (lg_stream h) (lg_first_sequence h)). rewrite Hc'. left.
        rewrite covers_cons. left. unfold gap_at. lia.
    + intros h k Hh Hk. eapply Hh1; [done|]. by apply Hall.
Qed.

Definition range_stream (i : bool) : LogStream.t := if i then LogStream.Stderr else LogStream.Stdout.

(** The registered ranges of one stream, and where they end. *)
Definition registered_of (i : bool) (ranges : list Range) : list Range :=
  filter (fun r => rg_registered r = true /\ rg_range_stream r = range_stream i) ranges.

Inductive range_tiling : N -> list Range -> N -> Prop :=
| rt_nil (a : N) : range_tiling a [] a
| rt_cons (a b : N) (r : Range) (l : list Range) :
    rg_first r = a + 1 -> rg_first r <= rg_last r -> range_tiling (rg_last r) l b ->
    range_tiling a (r :: l) b.

Lemma range_tiling_snoc (a b : N) (l : list Range) (r : Range) :
  range_tiling a l b -> rg_first r = b + 1 -> rg_first r <= rg_last r ->
  range_tiling a (l ++ [r]) (rg_last r).
Proof. induction 1; intros ? ?; repeat constructor; auto. Qed.

(** What the scan knows of the ranges it has read. *)
Record scanned (ranges : list Range) (s : scan) : Prop := {
  sn_tiling : forall i, range_tiling 0 (registered_of i ranges) (get2 i (sc_registered s));
  sn_bound : forall i, get2 i (sc_registered s) <= I64_MAX;
  sn_gaps : forall g, g ∈ sc_gaps s <->
    exists r, r ∈ ranges /\ rg_registered r = true /\ g ∈ rg_range_gaps r;
  sn_unregistered : forall i, get2 i (sc_unregistered s) = false ->
    Forall (fun r => rg_range_stream r = range_stream i -> rg_registered r = true) ranges;
  sn_stream : Forall (fun r => exists i, rg_range_stream r = range_stream i) ranges;
}.

Lemma registered_of_snoc (i j : bool) (ranges : list Range) (r : Range) :
  rg_range_stream r = range_stream j ->
  registered_of i (ranges ++ [r]) =
  registered_of i ranges ++ (if rg_registered r && bool_decide (i = j) then [r] else []).
Proof.
  intros Hj. unfold registered_of. rewrite filter_app. f_equal.
  destruct (rg_registered r) eqn:Hr; simpl.
  - case_bool_decide as Hij.
    + subst j. by rewrite filter_cons_True, filter_nil by done.
    + rewrite filter_cons_False, filter_nil; [done|]. rewrite Hj. intros [_ H]. by destruct i, j.
  - rewrite filter_cons_False, filter_nil; [done|]. rewrite Hr. by intros [? _].
Qed.

Lemma scan_range_scanned (ranges : list Range) (s s' : scan) (r : Range) :
  scanned ranges s -> scan_range s r = Ok s' -> scanned (ranges ++ [r]) s'.
Proof.
  intros [Ht Hb Hg Hu Hst] H. unfold scan_range in H. apply rbind_Ok_inv in H as (j & Hj & H).
  assert (Hjs : rg_range_stream r = range_stream j).
  { destruct (rg_range_stream r); try done; by injection Hj as <-. }
  destruct (_ || _) eqn:Eg; [done|].
  apply orb_false_iff in Eg as [Eg Ereg]. bools_in Eg.
  assert (Hst' : Forall (fun r => exists i, rg_range_stream r = range_stream i) (ranges ++ [r])).
  { apply Forall_app. split; [done|]. repeat constructor. eauto. }
  destruct (rg_registered r) eqn:Hr; simpl in Ereg; injection H as <-.
  - apply orb_false_iff in Ereg as [_ Efirst]. apply negb_eqb_false_N in Efirst.
    rewrite u64_add_small in Efirst by (specialize (Hb j); unfold I64_MAX, U64_MAX in *; lia).
    split; simpl.
    + intros i. rewrite (registered_of_snoc i j), Hr by done. case_bool_decide as Hij; simpl.
      * subst i. rewrite get2_set2. apply range_tiling_snoc with (get2 j (sc_registered s)); [done..|lia].
      * by rewrite get2_set2_ne, app_nil_r by done.
    + intros i. destruct (decide (i = j)) as [->|Hij]; [rewrite get2_set2; lia|].
      by rewrite get2_set2_ne.
    + intros g. rewrite elem_of_app, Hg. setoid_rewrite elem_of_app.
      setoid_rewrite list_elem_of_singleton. naive_solver.
    + intros i Hi. apply Forall_app. split; [by apply Hu|]. by repeat constructor.
    + done.
  - split; simpl; try done.
    + intros i. rewrite (registered_of_snoc i j), Hr by done. by rewrite app_nil_r.
    + intros g. rewrite Hg. setoid_rewrite elem_of_app. setoid_rewrite list_elem_of_singleton.
      naive_solver congruence.
    + intros i Hi. destruct (decide (i = j)) as [->|Hij]; [by rewrite get2_set2 in Hi|].
      rewrite get2_set2_ne in Hi by done. apply Forall_app. split; [by apply Hu|].
      repeat constructor. rewrite Hjs. intros H. by destruct i, j.
Qed.

Lemma scan_scanned (ranges before_ranges : list Range) (s s' : scan) :
  scanned before_ranges s -> rfold scan_range s ranges = Ok s' -> scanned (before_ranges ++ ranges) s'.
Proof.
  revert before_ranges s. induction ranges as [|r rs IH]; intros b s Hs H; simpl in H.
  - injection H as <-. by rewrite app_nil_r.
  - apply rbind_Ok_inv in H as (s1 & H1 & H). eapply scan_range_scanned in H1; [|done].
    apply (IH (b ++ [r])) in H; [|done]. by rewrite <- (assoc_L (++)) in H.
Qed.

Lemma scan_start_scanned : scanned [] scan_start.
Proof.
  split; try by constructor.
  - intros []; constructor.
  - intros []; simpl; unfold I64_MAX; lia.
  - intros g. split; [by intros H%elem_of_nil|]. by intros (r & H%elem_of_nil & _).
Qed.

(** The tail gap of a stream covers exactly what was captured and never registered. *)
Lemma add_tail_Ok (registered captured : two N) (gaps gaps' : list LogGap) (i : bool) :
  get2 i registered <= I64_MAX -> add_tail registered captured gaps i = Ok gaps' ->
  get2 i registered <= get2 i captured <= I64_MAX /\
  exists tail, gaps' = gaps ++ tail /\ Forall (fun g => lg_last_sequence g <= I64_MAX) tail /\
    (forall s x, covers tail s x <->
       s = LogStream.to_i32 (range_stream i) /\ get2 i registered < x <= get2 i captured) /\
    (tail = [] -> get2 i registered = get2 i captured).
Proof.
  intros Hb H. unfold add_tail in H. destruct (_ || _) eqn:Eg; [done|]. bools_in Eg.
  split; [lia|]. destruct (N.ltb_spec (get2 i registered) (get2 i captured)) as [Hlt|Hge].
  - injection H as <-. eexists. split; [done|]. split_and!; [by repeat constructor; simpl; lia| |done].
    intros s x. rewrite covers_cons. unfold gap_at; simpl. unfold range_stream.
    rewrite u64_add_small by (unfold I64_MAX, U64_MAX in *; lia).
    pose proof (covers_nil s x). split.
    + intros [[<- ?]|?]; [split; [done|lia]|done].
    + intros [-> ?]. left. split; [done|lia].
  - injection H as <-. exists []. rewrite app_nil_r. split_and!; [done|constructor| |].
    + intros s x. split; [by intros ?%covers_nil|]. intros [_ ?]. lia.
    + intros _. lia.
Qed.

Lemma Sorted_reverse {A : Type} (R : A -> A -> Prop) (l : list A) :
  Sorted (flip R) l -> Sorted R (reverse l).
Proof.
  induction 1 as [|x l Hs IH Hhd]; [constructor|]. rewrite reverse_cons.
  destruct Hhd as [|y l Hy]; [by repeat constructor|].
  rewrite reverse_cons in *. clear Hs. revert IH. generalize (reverse l) as k. intros k.
  induction k as [|z k IHk]; simpl; intros Hk.
  - by repeat constructor.
  - apply Sorted_inv in Hk as [Hk Hz]. constructor; [by apply IHk|].
    destruct k; simpl in *; inversion Hz; by constructor.
Qed.

Definition ranges_u64 (ranges : list Range) : Prop :=
  Forall (fun r => Forall (fun g => lg_last_sequence g <= U64_MAX) (rg_range_gaps r)) ranges.

(** Everything a successful summary establishes, for both properties below. *)
Lemma summarize_ranges_Ok (ranges : list Range) (captured : two N) (finished : bool)
  (sm : LogSummary) :
  ranges_u64 ranges -> summarize_ranges ranges captured finished = Ok sm ->
  exists s, scanned ranges s /\ Sorted before (sm_gaps sm) /\ len (sm_gaps sm) <= 1024 /\
    (forall i, get2 i (sc_registered s) <= get2 i captured) /\
    (forall j x, covers (sm_gaps sm) j x <->
       covers (sc_gaps s) j x \/
       exists i, j = LogStream.to_i32 (range_stream i)
                 /\ get2 i (sc_registered s) < x <= get2 i captured) /\
    (sm_complete sm = true -> finished = true /\ sc_unregistered s = Two false false /\
       sc_gaps s = [] /\ sc_registered s = captured).
Proof.
  intros Hu H. unfold summarize_ranges in H. apply rbind_Ok_inv in H as (s & Hs & H).
  apply (scan_scanned _ _ _ _ scan_start_scanned) in Hs. simpl in Hs.
  apply rbind_Ok_inv in H as (gaps & Hg & H). apply rbind_Ok_inv in H as (m & Hm & [= <-]).
  cbn [rfold] in Hg. apply rbind_Ok_inv in Hg as (g0 & Hg0 & Hg).
  apply rbind_Ok_inv in Hg as (g1 & Hg1 & [= <-]).
  apply add_tail_Ok in Hg0 as (Hr0 & t0 & -> & Hb0 & Hc0 & Ht0); [|apply (sn_bound _ _ Hs)].
  apply add_tail_Ok in Hg1 as (Hr1 & t1 & -> & Hb1 & Hc1 & Ht1); [|apply (sn_bound _ _ Hs)].
  set (all := (sc_gaps s ++ t0) ++ t1) in *.
  assert (Hall : Forall (fun g => lg_last_sequence g <= U64_MAX) all).
  { unfold ranges_u64 in Hu. rewrite Forall_forall in Hu. subst all. rewrite !Forall_app.
    split_and!; [|by eapply Forall_impl; [exact Hb0|]; unfold I64_MAX, U64_MAX; simpl; intros; lia
                 |by eapply Forall_impl; [exact Hb1|]; unfold I64_MAX, U64_MAX; simpl; intros; lia].
    apply Forall_forall. intros g Hgin. apply (sn_gaps _ _ Hs) in Hgin as (r & Hr & _ & Hgr).
    specialize (Hu r Hr). rewrite Forall_forall in Hu. by apply Hu. }
  apply merge_gaps_Ok in Hm as ([Hsort _] & Hcov & Hlen & Hnil);
    [|split; constructor|by rewrite sort_by_Permutation
     |apply sort_by_Sorted; [apply gap_leb_total|apply gap_leb_trans]|done|done].
  exists s. simpl. split_and!; [done|by apply Sorted_reverse| | | |].
  - unfold len in *. by rewrite length_reverse.
  - intros []; simpl in *; lia.
  - intros j x. rewrite (covers_perm _ _ _ _ (reverse_Permutation m)), Hcov.
    rewrite (covers_perm _ _ _ _ (sort_by_Permutation gap_leb all)). unfold all, covers in *.
    setoid_rewrite elem_of_app. setoid_rewrite elem_of_app. split.
    + intros [(g & Hg & _)|(g & [[Hg|Hg]|Hg] & Hx)]; [by apply elem_of_nil in Hg|eauto| |];
        right; [exists false|exists true]; [apply Hc0|apply Hc1]; eauto.
    + intros [(g & Hg & Hx)|(i & Hi)]; [eauto 6|].
      destruct i; [apply Hc1 in Hi|apply Hc0 in Hi]; destruct Hi as (g & Hg & Hx); eauto 6.
  - intros Hc. bools_in Hc. destruct Hc as [[[-> Hn0] Hn1] ->]. specialize (Hnil eq_refl).
    assert (Hp : all ≡ₚ []) by (rewrite <- (sort_by_Permutation gap_leb all); by rewrite Hnil).
    apply Permutation_nil_r in Hp. unfold all in Hp. apply app_nil in Hp as [Hp ->].
    apply app_nil in Hp as [-> ->]. destruct (sc_unregistered s), (sc_registered s), captured.
    simpl in *. split_and!; [done|congruence|done|]. f_equal; [by apply Ht0|by apply Ht1].
Qed.

(** C25: the completion claim reports exactly the loss.  The gaps of a summary are
    sorted and separated, at most 1024, and a number of a stream lies in one of
    them exactly when a registered segment recorded it as lost or it was captured
    after the last registered number of its stream. *)
Theorem summary_reports_exactly_the_loss (ranges : list Range) (captured : two N)
  (finished : bool) (sm : LogSummary) :
  ranges_u64 ranges -> summarize_ranges ranges captured finished = Ok sm ->
  Sorted before (sm_gaps sm) /\ len (sm_gaps sm) <= 1024 /\
  exists registered : bool -> N,
    (forall i, range_tiling 0 (registered_of i ranges) (registered i)) /\
    forall i x, covers (sm_gaps sm) (LogStream.to_i32 (range_stream i)) x <->
      (exists r, r ∈ ranges /\ rg_registered r = true /\
         covers (rg_range_gaps r) (LogStream.to_i32 (range_stream i)) x)
      \/ registered i < x <= get2 i captured.
Proof.
  intros Hu H. apply summarize_ranges_Ok in H as (s & Hs & Hsort & Hlen & _ & Hcov & _); [|done].
  split_and!; [done..|]. exists (fun i => get2 i (sc_registered s)).
  split; [apply (sn_tiling _ _ Hs)|]. intros i x. rewrite Hcov. unfold covers.
  setoid_rewrite (sn_gaps _ _ Hs). split.
  - intros [(g & (r & ? & ? & ?) & ?)|(j & Hj & ?)]; [eauto 10|].
    right. by destruct i, j.
  - intros [(r & ? & ? & g & ? & ?)|?]; [left; eauto 10|]. right. by exists i.
Qed.

(** A claim of completeness is true.  When a summary says the logs are
    complete, capture had finished, every range was registered, no registered
    segment recorded a loss, and the registered ranges of each stream tile exactly
    the captured numbers [1 .. captured]. *)
Theorem complete_summary_means_no_loss (ranges : list Range) (captured : two N)
  (finished : bool) (sm : LogSummary) :
  ranges_u64 ranges -> summarize_ranges ranges captured finished = Ok sm ->
  sm_complete sm = true ->
  finished = true /\
  Forall (fun r => rg_registered r = true /\ rg_range_gaps r = []) ranges /\
  forall i, range_tiling 0 (registered_of i ranges) (get2 i captured).
Proof.
  intros Hu H Hc. apply summarize_ranges_Ok in H as (s & Hs & _ & _ & _ & _ & Hcomp); [|done].
  destruct (Hcomp Hc) as (-> & Hun & Hg & Hr). split_and!; [done| |].
  - apply Forall_forall. intros r Hin. pose proof (sn_stream _ _ Hs) as Hst.
    rewrite Forall_forall in Hst. destruct (Hst r Hin) as [i Hi].
    assert (Hreg : rg_registered r = true).
    { pose proof (sn_unregistered _ _ Hs i) as Hi'. rewrite Hun in Hi'.
      specialize (Hi' ltac:(by destruct i)). rewrite Forall_forall in Hi'. by apply Hi'. }
    split; [done|]. destruct (rg_range_gaps r) as [|g l] eqn:Eg; [done|].
    assert (g ∈ sc_gaps s) as Hin' by (apply (sn_gaps _ _ Hs); exists r; rewrite Eg; split_and!; [done..|left]).
    rewrite Hg in Hin'. by apply elem_of_nil in Hin'.
  - intros i. rewrite <- Hr. apply (sn_tiling _ _ Hs).
Qed.

Definition range_fixture (first last : N) (gaps : list LogGap) : Range :=
  {| rg_range_stream := LogStream.Stdout; rg_first := first; rg_last := last;
     rg_range_gaps := gaps; rg_registered := true |}.

Lemma summary_reports_exactly_the_loss_witness :
  Sorted before [{| lg_stream := 1; lg_first_sequence := 2; lg_last_sequence := 4 |};
                 {| lg_stream := 1; lg_first_sequence := 8; lg_last_sequence := 9 |}]
  /\ summarize_ranges
       [range_fixture 1 2 [{| lg_stream := 1; lg_first_sequence := 2; lg_last_sequence := 2 |}];
        range_fixture 3 7 [{| lg_stream := 1; lg_first_sequence := 3; lg_last_sequence := 4 |}]]
       (Two 9 0) true
     = Ok {| sm_complete := false;
             sm_gaps := [{| lg_stream := 1; lg_first_sequence := 2; lg_last_sequence := 4 |};
                         {| lg_stream := 1; lg_first_sequence := 8; lg_last_sequence := 9 |}] |}.
Proof.
  assert (H : summarize_ranges
       [range_fixture 1 2 [{| lg_stream := 1; lg_first_sequence := 2; lg_last_sequence := 2 |}];
        range_fixture 3 7 [{| lg_stream := 1; lg_first_sequence := 3; lg_last_sequence := 4 |}]]
       (Two 9 0) true
     = Ok {| sm_complete := false;
             sm_gaps := [{| lg_stream := 1; lg_first_sequence := 2; lg_last_sequence := 4 |};
                         {| lg_stream := 1; lg_first_sequence := 8; lg_last_sequence := 9 |}] |})
    by (vm_compute; reflexivity).
  split; [|exact H].
  refine (proj1 (summary_reports_exactly_the_loss _ _ _ _ _ H)).
  repeat constructor; vm_compute; discriminate.
Defined.

Lemma complete_summary_means_no_loss_witness :
  range_tiling 0 (registered_of false [range_fixture 1 2 []; range_fixture 3 7 []]) 7.
Proof.
  refine (proj2 (proj2 (complete_summary_means_no_loss
    [range_fixture 1 2 []; range_fixture 3 7 []] (Two 7 0) true
    {| sm_complete := true; sm_gaps := [] |} _ _ _)) false).
  - repeat constructor.
  - vm_compute. reflexivity.
  - reflexivity.
Defined.
