(* ===== verification/LogLive.v ===== *)
(** Draining of container output into the spool ([rust/worker/src/log_live.rs]),
    and the claim made from registered evidence ([log_summary::summarize]).

    [collect_capture_shared] waits on the producer, on the queue and on a timer:
    [live_event] is what makes one turn of its [select!] ready, and the collector
    is a function of the turns.  No result means it is still waiting. *)

From S2P Require Import Prelude Os Protocol Lease Control Supervisor LogFormat LogSpool LogCapture.
From S2P Require Import LogAssembler.
From S2P Require Import LogSummary.
Open Scope N_scope.

Inductive LiveLogError : Type :=
| Assembly (e : AssembleError)
| CaptureFailed.

(** [LiveCapture] without its [assembler], which is part of the shared state. *)
Record LiveCapture := {
  lc_counts : two N;
  lc_complete : bool;
}.

Abbreviation produced := (result RuntimeError.t unit).

Inductive live_event : Type :=
| ProducerReady (r : produced)
| ReceiverReady (item : option CapturedChunk) (env : ingest_env)
| FlushTick (now : MonoTime) (stdout stderr : store_io).

(** What the loop keeps: [producer_result] and [receiver_closed]. *)
Record collecting := {
  co_producer : option produced;
  co_closed : bool;
}.

Section Collector.
Context (sha256 : bytes -> bytes).

Abbreviation live A := (st LogAssembler LiveLogError A).

(** [?] with [From<AssembleError>]. *)
Definition assemble {A : Type} (m : asm A) : live A := fun a =>
  let (r, a') := m a in (map_err Assembly r, a').

(** One turn; a branch whose [if] is false is disabled. *)
Definition collect_turn (e : live_event) (c : collecting) : live collecting :=
  match e with
  | ProducerReady r =>
      match co_producer c with
      | None => st_ret {| co_producer := Some r; co_closed := co_closed c |}
      | Some _ => st_ret c
      end
  | ReceiverReady item env =>
      if co_closed c then st_ret c
      else match item with
           | Some chunk => let! _ := assemble (ingest sha256 env chunk) in st_ret c
           | None => st_ret {| co_producer := co_producer c; co_closed := true |}
           end
  | FlushTick now c0 c1 => let! _ := assemble (flush_due sha256 now c0 c1) in st_ret c
  end.

Fixpoint collect_loop (events : list live_event) (c : collecting) : live (option produced) :=
  match co_producer c, co_closed c with
  | Some r, true => st_ret (Some r)
  | _, _ =>
      match events with
      | [] => st_ret None
      | e :: events' => let! c' := collect_turn e c in collect_loop events' c'
      end
  end.

Definition totals (counts : LogQueue) : result LiveLogError (two N) :=
  let? out := map_err (fun _ => CaptureFailed) (last_sequence counts LogStream.Stdout) in
  let? err := map_err (fun _ => CaptureFailed) (last_sequence counts LogStream.Stderr) in
  Ok (Two out err).

Definition collect_capture_shared (events : list live_event) (counts : LogQueue)
  (stdout stderr : store_io) : live (option LiveCapture) :=
  let! done := collect_loop events {| co_producer := None; co_closed := false |} in
  match done with
  | None => st_ret None
  | Some producer_result =>
      let! _ := assemble (flush_all sha256 stdout stderr) in
      let! t := st_lift (totals counts) in
      st_ret (Some {| lc_counts := t; lc_complete := is_ok producer_result |})
  end.

(** [collect_capture], over [new_shared]. *)
Definition collect_capture (euid : N) (root : string) (dir : option string) (spool_cap : N)
  (call : create_io) (fs : files) (events : list live_event) (counts : LogQueue)
  (stdout stderr : store_io) : result LiveLogError (option LiveCapture * LogAssembler) :=
  let? a := map_err Assembly (assembler_new euid root dir spool_cap call fs) in
  match collect_capture_shared events counts stdout stderr a with
  | (Ok c, a') => Ok (c, a')
  | (Err e, _) => Err e
  end.

Definition capture_running (euid : N) (root : string) (dir : option string) (call : create_io)
  (fs : files) (follow_logs : LogQueue -> list live_event * LogQueue) (stdout stderr : store_io)
  : result LiveLogError (option LiveCapture * LogAssembler) :=
  let? queue := map_err (fun _ => CaptureFailed) (LogCapture.bounded QUEUE_CHUNKS) in
  let (events, counts) := follow_logs queue in
  collect_capture euid root dir MAX_SPOOL_BYTES call fs events counts stdout stderr.

(** * Lemmas *)

(** Chunks carry the capture times the queue gives them. *)
Definition timed (e : live_event) : Prop :=
  match e with
  | ReceiverReady (Some chunk) _ => (ck_capture_unix_nanos chunk < 9223372036854775808)%Z
  | _ => True
  end.

Lemma assemble_inv {A : Type} (m : asm A) (a a' : LogAssembler) (r : result LiveLogError A) :
  assemble m a = (r, a') -> exists r', m a = (r', a') /\ r = map_err Assembly r'.
Proof. unfold assemble. destruct (m a) as [r' a1]. intros [= <- <-]. by exists r'. Qed.

Lemma collect_turn_steps (acked : list PendingSegment) (e : live_event) (c : collecting)
  (a a' : LogAssembler) (r : result LiveLogError collecting) :
  timed e -> collect_turn e c a = (r, a') -> rtc (asm_step sha256) (acked, a) (acked, a').
Proof.
  intros Ht H. destruct e as [p|[chunk|] env|now c0 c1]; cbn [collect_turn timed] in *.
  - destruct (co_producer c); by apply pair_equal_spec in H as [_ <-].
  - destruct (co_closed c); [by apply pair_equal_spec in H as [_ <-]|].
    unfold st_bind in H. destruct (assemble _ a) as [r1 a1] eqn:E.
    assert (a1 = a') as -> by (by destruct r1; apply pair_equal_spec in H as [_ <-]).
    apply assemble_inv in E as (r' & E & _). apply rtc_once. by eapply as_ingest.
  - destruct (co_closed c); by apply pair_equal_spec in H as [_ <-].
  - unfold st_bind in H. destruct (assemble _ a) as [r1 a1] eqn:E.
    assert (a1 = a') as -> by (by destruct r1; apply pair_equal_spec in H as [_ <-]).
    apply assemble_inv in E as (r' & E & _). apply rtc_once. by eapply as_flush_due.
Qed.

Lemma collect_loop_steps (acked : list PendingSegment) (events : list live_event) (c : collecting)
  (a a' : LogAssembler) (r : result LiveLogError (option produced)) :
  Forall timed events -> collect_loop events c a = (r, a') ->
  rtc (asm_step sha256) (acked, a) (acked, a').
Proof.
  intros Ht. revert c a. induction Ht as [|e events He Ht IH]; intros c a H; cbn [collect_loop] in H.
  - destruct (co_producer c), (co_closed c); by apply pair_equal_spec in H as [_ <-].
  - assert (H' : (let! c' := collect_turn e c in collect_loop events c') a = (r, a') \/ a' = a).
    { destruct (co_producer c), (co_closed c); auto. right. by apply pair_equal_spec in H as [_ <-]. }
    destruct H' as [H'| ->]; [|done]. unfold st_bind in H'.
    destruct (collect_turn e c a) as [[c'|x] a1] eqn:E.
    + etrans; [by eapply collect_turn_steps|]. by eapply IH.
    + apply pair_equal_spec in H' as [_ <-]. by eapply collect_turn_steps.
Qed.

Lemma flush_stream_open (i : bool) (call : store_io) (a a' : LogAssembler)
  (r : result AssembleError unit) :
  flush_stream sha256 call (stream_at i) a = (r, a') ->
  get2 i (la_open a') = None /\ get2 (negb i) (la_open a') = get2 (negb i) (la_open a).
Proof.
  unfold flush_stream, st_bind, st_lift, st_gets, st_modify, st_ret.
  replace (index (stream_at i)) with (Ok i : result AssembleError bool) by (by destruct i).
  destruct (get2 i (la_open a)) as [o|] eqn:Ho.
  - destruct (writer_finish (os_writer o)) as [seg|x]; cbn [map_err].
    + destruct (store _ _ _ _ _) as [[[[entry|]|x] sp] fs]; intros [_ <-]%pair_equal_spec;
        destruct i; split; reflexivity.
    + intros [_ <-]%pair_equal_spec. destruct i; split; reflexivity.
  - by intros [_ <-]%pair_equal_spec.
Qed.

Lemma flush_all_open (c0 c1 : store_io) (a a' : LogAssembler) :
  flush_all sha256 c0 c1 a = (Ok tt, a') -> la_open a' = Two None None.
Proof.
  unfold flush_all, st_bind. destruct (flush_stream _ c0 _ a) as [[u|x] a1] eqn:E; [|done].
  intros H. apply (flush_stream_open false) in E as [E0 _].
  apply (flush_stream_open true) in H as [H1 H0]. cbn [negb] in H0. rewrite E0 in H0.
  by destruct (la_open a') as [o0 o1]; cbn in *; subst.
Qed.

Lemma collected_Ok (events : list live_event) (counts : LogQueue) (c0 c1 : store_io)
  (a a' : LogAssembler) (cap : LiveCapture) :
  collect_capture_shared events counts c0 c1 a = (Ok (Some cap), a') ->
  exists a1 p, collect_loop events {| co_producer := None; co_closed := false |} a = (Ok (Some p), a1)
    /\ flush_all sha256 c0 c1 a1 = (Ok tt, a') /\ lc_complete cap = is_ok p
    /\ lc_counts cap = Two (lq_stdout counts) (lq_stderr counts).
Proof.
  unfold collect_capture_shared, st_bind. intros H.
  destruct (collect_loop _ _ a) as [[[p|]|x] a1]; [|done..].
  destruct (assemble _ a1) as [[u|x] a2] eqn:E; [|done]. destruct u.
  apply assemble_inv in E as (r' & E & Hr). destruct r' as [[]|]; [|done].
  apply pair_equal_spec in H as [H <-]. apply Ok_inj in H as [= <-].
  by exists a1, p.
Qed.

Lemma collect_loop_producer (events : list live_event) (c : collecting) (a a' : LogAssembler)
  (p : produced) :
  collect_loop events c a = (Ok (Some p), a') -> co_producer c = Some p \/ ProducerReady p ∈ events.
Proof.
  revert c a. induction events as [|e events IH]; intros c a H; cbn [collect_loop] in H.
  - destruct (co_producer c), (co_closed c); try done. apply pair_equal_spec in H as [[= <-] _]. auto.
  - assert (H' : (let! c' := collect_turn e c in collect_loop events c') a = (Ok (Some p), a')
      \/ co_producer c = Some p).
    { destruct (co_producer c), (co_closed c); auto.
      right. by apply pair_equal_spec in H as [[= <-] _]. }
    destruct H' as [H'|H']; [|by left]. unfold st_bind in H'.
    destruct (collect_turn e c a) as [[c'|x] a1] eqn:E; [|done].
    apply IH in H' as [Hc|Hin]; [|right; by right].
    destruct e as [r|item env|now c0 c1]; cbn [collect_turn] in E; unfold st_bind, st_ret in E.
    + destruct (co_producer c) eqn:Hp; apply pair_equal_spec in E as [[= <-] _]; [left; congruence|].
      injection Hc as ->. right. left.
    + destruct (co_closed c); [|destruct item; [destruct (assemble _ a) as [[]]|]]; try done;
        apply pair_equal_spec in E as [[= <-] _]; by left.
    + destruct (assemble _ a) as [[]]; [|done]. apply pair_equal_spec in E as [[= <-] _]. by left.
Qed.

(** A finished capture has sealed everything.  When the collector returns, no
    stream has an open segment, so that the candidates stored for a stream,
    published or still pending, account for every number up to the last stored
    one; the totals it returns are those of the queue, which count chunks the
    queue dropped, and it claims completeness only for a producer that ended well. *)
Theorem finished_capture_is_sealed (euid : N) (root : string) (dir : option string) (cap : N)
  (call : create_io) (fs : files) (a a1 a' : LogAssembler) (acked : list PendingSegment)
  (events : list live_event) (counts : LogQueue) (c0 c1 : store_io) (lc : LiveCapture) (i : bool)
  (x : N) :
  assembler_new euid root dir cap call fs = Ok a ->
  rtc (asm_step sha256) ([], a) (acked, a1) -> Forall timed events ->
  collect_capture_shared events counts c0 c1 a1 = (Ok (Some lc), a') ->
  1 <= x <= get2 i (la_last_stored a') ->
  la_open a' = Two None None /\
  (exists p, p ∈ of_stream i (acked ++ la_pending a') /\ sealed p /\
     ps_first_sequence p <= x <= ps_last_sequence p) /\
  lc_counts lc = Two (lq_stdout counts) (lq_stderr counts) /\
  (lc_complete lc = true -> ProducerReady (Ok tt) ∈ events).
Proof.
  intros Hnew Hs Ht H Hx. apply collected_Ok in H as (a2 & p & Hl & Hf & Hc & Ht').
  assert (Hok : asm_ok acked a').
  { eapply asm_steps_ok; [|by eapply assembler_new_ok]. etrans; [exact Hs|].
    etrans; [by eapply collect_loop_steps|]. apply rtc_once. by eapply as_flush_all. }
  split_and!; [by eapply flush_all_open| |done|].
  - destruct (stored_once acked a' i x Hok Hx) as (l1 & q & l2 & Heq & Hq & Hin & _).
    exists q. split_and!; try done; try lia. rewrite Heq. apply elem_of_app. right. left.
  - rewrite Hc. destruct p as [[]|]; [|done]. intros _.
    by destruct (collect_loop_producer _ _ _ _ _ Hl).
Qed.
End Collector.

Lemma finished_capture_is_sealed_witness :
  exists a' lc,
    collect_capture_shared zero_digest
      [ReceiverReady (Some chunk_fixture) ingest_env_fixture; ProducerReady (Ok tt);
       ReceiverReady None ingest_env_fixture]
      {| lq_capacity := 256; lq_items := []; lq_closed := false; lq_stdout := 3; lq_stderr := 0 |}
      store_io_fixture store_io_fixture assembler_fixture = (Ok (Some lc), a') /\
    exists p, p ∈ of_stream false ([] ++ la_pending a') /\ sealed p /\
      ps_first_sequence p <= 2 <= ps_last_sequence p.
Proof.
  eexists _, _. split; [vm_compute; reflexivity|].
  eapply (finished_capture_is_sealed zero_digest 0 "/w/00000000-0000-0000-0000-000000000005"
    (Some "00000000-0000-0000-0000-000000000005"%string) 4096 create_io_fixture ∅ assembler_fixture
    assembler_fixture _ []
    [ReceiverReady (Some chunk_fixture) ingest_env_fixture; ProducerReady (Ok tt);
     ReceiverReady None ingest_env_fixture]
    {| lq_capacity := 256; lq_items := []; lq_closed := false; lq_stdout := 3; lq_stderr := 0 |}
    store_io_fixture store_io_fixture _ false 2).
  - vm_compute. reflexivity.
  - done.
  - repeat constructor.
  - vm_compute. reflexivity.
  - vm_compute. split; discriminate.
Defined.
