(* ===== verification/Execution.v ===== *)
(** Validated execution settings ([rust/worker/src/execution.rs]): the job
    document an assignment carries, its shape preflight, its validation and its
    agreement with the wire fields of the assignment.

    [serde_json] and SHA-256 are parameters: [from_slice_value] parses a JSON
    value and [from_slice_job] decodes the document into the structs, handing
    the three string maps over as the entries in document order, which
    [unique_map] (this crate's visitor) turns into maps. *)

From S2P Require Import Prelude Strings Protocol.
Open Scope N_scope.

Inductive SpecError : Type := Document | Checksum | WireMismatch.

#[global] Instance SpecError_eq_dec : EqDecision SpecError.
Proof. solve_decision. Defined.

(** * The document *)

Record JobMetadata := {
  md_name : string;
  md_project : string;
  md_labels : gmap string string;
}.

Record JobResources := {
  jr_cpu_millis : N;
  jr_memory_mib : N;
  jr_scratch_mib : N;
}.

Record Placement := { pl_labels : gmap string string }.

Record Input := {
  in_dataset : string;
  in_mount_path : string;
}.

Record Output := {
  out_name : string;
  out_path : string;
  out_required : bool;
  out_max_bytes : N;
}.

Record Timeouts := {
  to_startup_seconds : N;
  to_execution_seconds : N;
  to_finalization_seconds : N;
}.

Record Retry := {
  re_max_attempts : N;
  re_on : list string;
  re_initial_backoff_seconds : N;
  re_max_backoff_seconds : N;
}.

Record JobSettings := {
  js_priority : N;
  js_image : string;
  js_command : list string;
  js_args : list string;
  js_env : gmap string string;
  js_resources : JobResources;
  js_placement : Placement;
  js_inputs : list Input;
  js_outputs : list Output;
  js_timeouts : Timeouts;
  js_retry : Retry;
  js_termination_grace_seconds : N;
  js_network : string;
}.

Record Job := {
  job_api_version : string;
  job_kind : string;
  job_metadata : JobMetadata;
  job_spec : JobSettings;
}.

Record ExecutionSpec := {
  es_job : Job;
  es_sha256 : string;
}.

(** * Validation *)

Definition env_byte (b : byte) : bool := is_ascii_alphanumeric b || (byte_val b =? 95).

Definition ident_byte (b : byte) : bool :=
  is_ascii_alphanumeric b || bool_decide (byte_val b ∈ [95; 46; 45]).

Definition identifier (value : string) (environment : bool) : bool :=
  if is_empty_str value || (128 <? str_len value) then false
  else match str_bytes value with
  | [] => false
  | first :: _ =>
      if environment then
        (is_ascii_alphabetic first || (byte_val first =? 95))
        && forallb env_byte (str_bytes value)
        && negb (starts_with "DISPATCH_" value)
      else
        is_ascii_alphanumeric first && forallb ident_byte (str_bytes value)
  end.

Definition nul : ascii := "000"%char.

Definition valid_map (map : gmap string string) (environment : bool) : bool :=
  (N.of_nat (base.size map) <=? 128)
  && forallb (fun '(k, v) => identifier k environment && (str_len v <=? 8192) && negb (contains nul v))
       (map_to_list map).

Definition normal_part (part : string) : bool :=
  negb (bool_decide (part ∈ [EmptyString; "."; ".."]%string)).

(** [value[1..]]: the leading slash is one byte. *)
Definition rest_of (value : string) : string :=
  match value with
  | EmptyString => EmptyString
  | String _ s => s
  end.

Definition path_under (root value : string) : bool :=
  (str_len value <=? 4096)
  && starts_with root value
  && negb (contains "\" value || contains nul value)
  && forallb normal_part (split_on "/" (rest_of value)).

Definition output_path (value : string) : bool := path_under "/outputs/" value.
Definition input_path (value : string) : bool := path_under "/inputs/" value.

Definition strictly_below (a b : string) : bool :=
  match strip_prefix b a with
  | Some rest => starts_with "/" rest
  | None => false
  end.

Definition overlaps (a b : string) : bool :=
  bool_decide (a = b) || strictly_below a b || strictly_below b a.

Definition hash_byte (b : byte) : bool := is_ascii_digit b || is_ascii_lower_hex b.

Definition pinned (image : string) : bool :=
  match rsplit_once "@sha256:" image with
  | Some (name, hash) =>
      negb (is_empty_str name) && (str_len hash =? 64) && forallb hash_byte (str_bytes hash)
  | None => false
  end.

Definition unprintable (value : string) : bool :=
  existsb (fun c => is_whitespace c || is_control c) (chars (str_bytes value)).

Definition bad_argument (a : string) : bool := (8192 <? str_len a) || contains nul a.

(** A [for] loop that compares each element with the slice before it. *)
Fixpoint check_each {A : Type} (bad : list A -> A -> bool) (before l : list A) : bool :=
  match l with
  | [] => true
  | x :: l' => negb (bad before x) && check_each bad (before ++ [x]) l'
  end.

Definition bad_reason (before : list string) (reason : string) : bool :=
  negb (bool_decide (reason ∈ ["WORKER_LOST"; "RUNTIME_UNAVAILABLE"; "TRANSFER_FAILED"]%string))
  || bool_decide (reason ∈ before).

Definition bad_output (before : list Output) (output : Output) : bool :=
  negb (identifier (out_name output) false)
  || negb (output_path (out_path output))
  || negb (in_range 1 1099511627776 (out_max_bytes output))
  || existsb (fun previous =>
       bool_decide (out_name previous = out_name output)
       || overlaps (out_path previous) (out_path output)) before.

Definition bad_input (before : list Input) (input : Input) : bool :=
  negb (identifier (in_dataset input) false)
  || negb (input_path (in_mount_path input))
  || existsb (fun previous => overlaps (in_mount_path previous) (in_mount_path input)) before.

Definition first_empty (command : list string) : bool :=
  match command with
  | [] => false
  | c :: _ => is_empty_str c
  end.

Definition validate (job : Job) : result SpecError unit :=
  let s := job_spec job in
  if negb (bool_decide (job_api_version job = "dispatch.dev/v1alpha1"%string))
     || negb (bool_decide (job_kind job = "Job"%string))
     || negb (identifier (md_name (job_metadata job)) false)
     || negb (identifier (md_project (job_metadata job)) false)
     || negb (valid_map (md_labels (job_metadata job)) false)
     || negb (valid_map (js_env s) true)
     || negb (valid_map (pl_labels (js_placement s)) false)
     || (3 <? js_priority s)
     || negb (pinned (js_image s))
     || (1024 <? str_len (js_image s))
     || unprintable (js_image s)
     || bool_decide (js_command s = [])
     || first_empty (js_command s)
     || (256 <? len (js_command s) + len (js_args s))
     || existsb bad_argument (js_command s ++ js_args s)
     || negb (in_range 1 1024000 (jr_cpu_millis (js_resources s)))
     || negb (in_range 1 16777216 (jr_memory_mib (js_resources s)))
     || negb (in_range 1 1073741824 (jr_scratch_mib (js_resources s)))
     || negb (in_range 1 3600 (to_startup_seconds (js_timeouts s)))
     || negb (in_range 1 604800 (to_execution_seconds (js_timeouts s)))
     || negb (in_range 1 3600 (to_finalization_seconds (js_timeouts s)))
     || (300 <? js_termination_grace_seconds s)
     || negb (bool_decide (js_network s = "disabled"%string))
     || negb (in_range 1 10 (re_max_attempts (js_retry s)))
     || negb (in_range 1 3600 (re_initial_backoff_seconds (js_retry s)))
     || negb (in_range (re_initial_backoff_seconds (js_retry s)) 3600
                (re_max_backoff_seconds (js_retry s)))
     || (64 <? len (js_outputs s))
     || (64 <? len (js_inputs s))
  then Err Document
  else if negb (check_each bad_reason [] (re_on (js_retry s))) then Err Document
  else if negb (check_each bad_output [] (js_outputs s)) then Err Document
  else if negb (check_each bad_input [] (js_inputs s)) then Err Document
  else Ok tt.

(** * Decoding *)

(** [unique_map]: at most 128 entries, each key once. *)
Fixpoint unique_map (result : gmap string string) (entries : list (string * string))
  : option (gmap string string) :=
  match entries with
  | [] => Some result
  | (key, value) :: rest =>
      if bool_decide (128 <= base.size result)%nat then None
      else match result !! key with
      | Some _ => None
      | None => unique_map (<[key := value]> result) rest
      end
  end.

(** The document as [serde_json] delivers it, before the maps are built:
    [raw_job labels env placement] is the struct once they are. *)
Record RawJob := {
  raw_labels : list (string * string);
  raw_env : list (string * string);
  raw_placement : list (string * string);
  raw_job : gmap string string -> gmap string string -> gmap string string -> Job;
}.

Definition decode_job (r : RawJob) : option Job :=
  match unique_map ∅ (raw_labels r), unique_map ∅ (raw_env r), unique_map ∅ (raw_placement r) with
  | Some labels, Some env, Some placement => Some (raw_job r labels env placement)
  | _, _, _ => None
  end.

(** [serde_json::Value]; a number keeps its text. *)
Inductive Value : Type :=
| Null
| Bool (b : bool)
| Number (text : string)
| VString (s : string)
| Array (values : list Value)
| Object (values : list (string * Value)).

Definition get (v : Value) (key : string) : option Value :=
  match v with
  | Object values =>
      match List.find (fun '(k, _) => bool_decide (k = key)) values with
      | Some (_, w) => Some w
      | None => None
      end
  | _ => None
  end.

(** [Value::pointer] for tokens that are not array indices. *)
Fixpoint pointer (v : Value) (tokens : list string) : option Value :=
  match tokens with
  | [] => Some v
  | t :: ts =>
      match get v t with
      | Some w => pointer w ts
      | None => None
      end
  end.

Definition is_object (v : option Value) : bool :=
  match v with
  | Some (Object _) => true
  | _ => false
  end.

(** [value["spec"].get(field).and_then(as_array)]; indexing a value without the
    key gives [Null]. *)
Definition spec_items (v : Value) (field : string) : list Value :=
  match get (default Null (get v "spec")) field with
  | Some (Array items) => items
  | _ => []
  end.

Fixpoint bounded (v : Value) (depth : N) : bool :=
  (depth <=? 32)
  && match v with
     | Null => false
     | Array values =>
         (fix all (l : list Value) : bool :=
            match l with
            | [] => true
            | w :: l' => bounded w (depth + 1) && all l'
            end) values
     | Object values =>
         (fix all (l : list (string * Value)) : bool :=
            match l with
            | [] => true
            | (_, w) :: l' => bounded w (depth + 1) && all l'
            end) values
     | _ => true
     end.

Definition shape_pointers : list (list string) :=
  [[]; ["metadata"]; ["spec"]; ["spec"; "resources"]; ["spec"; "placement"];
   ["spec"; "timeouts"]; ["spec"; "retry"]]%string.

(** * Acceptance *)

Section Acceptance.
Context (sha256 : bytes -> bytes).
Context (from_slice_value : bytes -> option Value).
Context (from_slice_job : bytes -> option RawJob).

Definition check_shape (raw : bytes) : result SpecError unit :=
  let? value := ok_or (from_slice_value raw) Document in
  if existsb (fun p => negb (is_object (pointer value p))) shape_pointers then Err Document
  else if existsb (fun field => existsb (fun v => negb (is_object (Some v))) (spec_items value field))
            ["inputs"; "outputs"]%string
  then Err Document
  else if negb (bounded value 0) then Err Document
  else Ok tt.

Definition input_mismatch (pair : Input * InputManifest) : bool :=
  let '(declared, wire) := pair in
  negb (bool_decide (in_dataset declared = im_dataset_name wire))
  || negb (bool_decide (in_mount_path declared = im_mount_path wire)).

(** [x << 20] on [u64]: bits above the width are lost. *)
Definition shl20 (x : N) : N := wrap64 (N.shiftl x 20).

Definition from_assignment (assignment : Assignment) : result SpecError ExecutionSpec :=
  let raw := as_canonical_job_spec_json assignment in
  if bool_decide (raw = []) || (2097152 <? len raw) then Err Document
  else
    let hash := hex (sha256 raw) in
    if negb (bool_decide (hash = as_spec_sha256 assignment)) then Err Checksum
    else
      let? _ := check_shape raw in
      let? job := ok_or (from_slice_job raw ≫= decode_job) Document in
      let? _ := validate job in
      let s := job_spec job in
      if negb (len (js_inputs s) =? len (as_inputs assignment))
         || existsb input_mismatch (zip (js_inputs s) (as_inputs assignment))
      then Err WireMismatch
      else
        let? resources := ok_or (as_resources assignment) WireMismatch in
        if negb (bool_decide (js_image s = as_image_digest assignment))
           || negb (bool_decide (js_command s ++ js_args s = as_argv assignment))
           || negb (jr_cpu_millis (js_resources s) =? rs_cpu_millis resources)
           || negb (shl20 (jr_memory_mib (js_resources s)) =? rs_memory_bytes resources)
           || negb (shl20 (jr_scratch_mib (js_resources s)) =? rs_scratch_bytes resources)
        then Err WireMismatch
        else Ok {| es_job := job; es_sha256 := hash |}.
End Acceptance.

(** * Lemmas *)

Lemma check_each_spec {A : Type} (bad : list A -> A -> bool) (before l : list A) :
  check_each bad before l = true ->
  forall i x, l !! i = Some x -> bad (before ++ take i l) x = false.
Proof.
  revert before. induction l as [|y l IH]; intros before H i x Hx; [done|].
  simpl in H. apply andb_true_iff in H as [Hy Hl]. destruct i as [|i]; simpl in *.
  - injection Hx as <-. rewrite app_nil_r. by apply negb_true_iff.
  - apply (IH _ Hl) in Hx. by rewrite <- app_assoc in Hx.
Qed.

(** An element that clashes with nothing before it clashes with no earlier one. *)
Lemma existsb_take {A : Type} (f : A -> bool) (l : list A) (i j : nat) (x : A) :
  existsb f (take j l) = false -> l !! i = Some x -> (i < j)%nat -> f x = false.
Proof.
  intros H Hi Hij. apply not_true_iff_false. intros Hf. apply not_true_iff_false in H. apply H.
  apply existsb_exists. exists x. split; [|done]. apply list_elem_of_In.
  apply list_elem_of_lookup. exists i. by rewrite lookup_take_lt.
Qed.

(** Two absolute paths with neither below (or equal to) the other. *)
Definition separate (a b : string) : Prop :=
  ~ split_on "/" a `prefix_of` split_on "/" b /\ ~ split_on "/" b `prefix_of` split_on "/" a.

Lemma strictly_below_true (a b : string) :
  strictly_below a b = true <-> exists r, a = b +:+ String "/" r.
Proof.
  unfold strictly_below, starts_with. split.
  - destruct (strip_prefix b a) as [rest|] eqn:Hb; [|done].
    destruct (strip_prefix "/" rest) as [r|] eqn:Hr; [|done]. intros _.
    apply strip_prefix_Some in Hb as ->. apply strip_prefix_Some in Hr as ->. by exists r.
  - intros [r ->]. assert (strip_prefix b (b +:+ String "/" r) = Some (String "/" r)) as ->
      by (by apply strip_prefix_Some). done.
Qed.

Lemma overlaps_false (a b : string) : overlaps a b = false -> separate a b.
Proof.
  unfold overlaps, separate. intros H. apply orb_false_iff in H as [H Hba].
  apply orb_false_iff in H as [Hab Hab']. apply bool_decide_eq_false in Hab.
  apply not_true_iff_false in Hba, Hab'. rewrite strictly_below_true in Hba, Hab'.
  rewrite !split_prefix. naive_solver.
Qed.

(** The components of a path accepted below a root directory. *)
Lemma path_under_parts (name value : string) :
  contains "/" name = false ->
  path_under (String "/" (name +:+ "/")) value = true ->
  exists parts, split_on "/" value = EmptyString :: name :: parts
    /\ parts <> [] /\ Forall (fun p => normal_part p = true) parts.
Proof.
  intros Hname H. unfold path_under, starts_with in H. rewrite !andb_true_iff in H.
  destruct H as [[[_ Hs] _] Hp].
  destruct (strip_prefix _ value) as [rest|] eqn:Hv; [|done].
  apply strip_prefix_Some in Hv as ->. exists (split_on "/" rest).
  assert (Hsplit : split_on "/" (name +:+ String "/" rest) = name :: split_on "/" rest)
    by (by apply split_on_app).
  change (rest_of (String "/" (name +:+ "/") +:+ rest)) with ((name +:+ "/") +:+ rest) in Hp.
  change (String "/" (name +:+ "/") +:+ rest) with (String "/" ((name +:+ "/") +:+ rest)).
  rewrite append_assoc_str in *. change ("/" +:+ rest) with (String "/" rest) in *.
  rewrite Hsplit in Hp.
  cbn [split_on]. rewrite bool_decide_true by done. rewrite Hsplit.
  split; [done|]. split; [apply split_on_nonempty|].
  simpl in Hp. apply andb_true_iff in Hp as [_ Hp]. rewrite Forall_forall. intros p Hin.
  rewrite forallb_forall in Hp. apply Hp. by apply list_elem_of_In.
Qed.

(** What the three loops of [validate] establish. *)
Lemma validate_loops (job : Job) :
  validate job = Ok tt ->
  check_each bad_reason [] (re_on (js_retry (job_spec job))) = true
  /\ check_each bad_output [] (js_outputs (job_spec job)) = true
  /\ check_each bad_input [] (js_inputs (job_spec job)) = true.
Proof.
  unfold validate. intros H. guards.
  repeat match goal with H : negb _ = false |- _ => apply negb_false_iff in H end. done.
Qed.

Lemma in_range_spec (lo hi x : N) : in_range lo hi x = true <-> lo <= x <= hi.
Proof. unfold in_range. bools. lia. Qed.

(** The units of the resource request: whole mebibytes that fit [u64]. *)
Lemma shl20_small (x : N) : x <= 1073741824 -> shl20 x = x * 1048576.
Proof.
  intros H. unfold shl20. rewrite N.shiftl_mul_pow2.
  change (2 ^ 20) with 1048576. apply wrap64_small. unfold U64_MAX. lia.
Qed.

(** * Properties *)

(** In a validated job no two outputs share a name, and neither of two
    output paths (or of two input mounts) is the other or an ancestor of it,
    compared by path components.  Every output lies strictly below [/outputs]
    and every input strictly below [/inputs], with no empty, [.] or [..]
    component. *)
Theorem validated_paths_are_separate (job : Job) :
  validate job = Ok tt ->
  let s := job_spec job in
  (forall i j o p, js_outputs s !! i = Some o -> js_outputs s !! j = Some p -> (i < j)%nat ->
     out_name o <> out_name p /\ separate (out_path o) (out_path p))
  /\ (forall i j o p, js_inputs s !! i = Some o -> js_inputs s !! j = Some p -> (i < j)%nat ->
     separate (in_mount_path o) (in_mount_path p))
  /\ (forall i o, js_outputs s !! i = Some o -> exists parts,
     split_on "/" (out_path o) = EmptyString :: "outputs"%string :: parts
     /\ parts <> [] /\ Forall (fun p => normal_part p = true) parts)
  /\ (forall i o, js_inputs s !! i = Some o -> exists parts,
     split_on "/" (in_mount_path o) = EmptyString :: "inputs"%string :: parts
     /\ parts <> [] /\ Forall (fun p => normal_part p = true) parts).
Proof.
  intros H s. apply validate_loops in H as (_ & Ho & Hi). fold s in Ho, Hi.
  pose proof (check_each_spec _ _ _ Ho) as Hout. pose proof (check_each_spec _ _ _ Hi) as Hin.
  unfold bad_output, bad_input in Hout, Hin. simpl in Hout, Hin.
  split_and!; [intros i j o p Hoi Hpj Hij|intros i j o p Hoi Hpj Hij|intros i o Hoi|intros i o Hoi].
  - apply Hout in Hpj. rewrite !orb_false_iff in Hpj. destruct Hpj as [_ Hpj].
    apply (existsb_take _ _ _ _ _ Hpj Hoi) in Hij. apply orb_false_iff in Hij as [Hn Hov].
    split; [by apply bool_decide_eq_false in Hn|by apply overlaps_false].
  - apply Hin in Hpj. rewrite !orb_false_iff in Hpj. destruct Hpj as [_ Hpj].
    apply (existsb_take _ _ _ _ _ Hpj Hoi) in Hij. by apply overlaps_false.
  - apply Hout in Hoi. rewrite !orb_false_iff, !negb_false_iff in Hoi.
    destruct Hoi as [[[_ Hp] _] _]. by apply path_under_parts.
  - apply Hin in Hoi. rewrite !orb_false_iff, !negb_false_iff in Hoi.
    destruct Hoi as [[_ Hp] _]. by apply path_under_parts.
Qed.

Definition image_fixture : string :=
  "registry/trainer@sha256:aaaaaaaaaaaaaaaaaaaaaaaaaaaaaaaaaaaaaaaaaaaaaaaaaaaaaaaaaaaaaaaa".

Definition settings_fixture (env placement : gmap string string) : JobSettings :=
  {| js_priority := 1; js_image := image_fixture; js_command := ["python"%string];
     js_args := ["train.py"%string]; js_env := env;
     js_resources := {| jr_cpu_millis := 2000; jr_memory_mib := 4096; jr_scratch_mib := 8192 |};
     js_placement := {| pl_labels := placement |};
     js_inputs := [{| in_dataset := "train"; in_mount_path := "/inputs/train" |};
                   {| in_dataset := "train"; in_mount_path := "/inputs/train2" |}];
     js_outputs := [{| out_name := "model"; out_path := "/outputs/model"; out_required := true;
                       out_max_bytes := 4096 |};
                    {| out_name := "eval"; out_path := "/outputs/eval/report"; out_required := false;
                       out_max_bytes := 1024 |}];
     js_timeouts := {| to_startup_seconds := 300; to_execution_seconds := 1800;
                       to_finalization_seconds := 300 |};
     js_retry := {| re_max_attempts := 1; re_on := ["WORKER_LOST"%string];
                    re_initial_backoff_seconds := 5; re_max_backoff_seconds := 60 |};
     js_termination_grace_seconds := 10; js_network := "disabled" |}.

Definition raw_fixture : RawJob :=
  {| raw_labels := []; raw_env := [("SEED", "7")]%string; raw_placement := [];
     raw_job := fun labels env placement =>
       {| job_api_version := "dispatch.dev/v1alpha1"; job_kind := "Job";
          job_metadata := {| md_name := "test"; md_project := "research"; md_labels := labels |};
          job_spec := settings_fixture env placement |} |}.

Definition job_fixture : Job := raw_job raw_fixture ∅ {["SEED"%string := "7"%string]} ∅.

Lemma validated_paths_are_separate_witness :
  separate "/outputs/model" "/outputs/eval/report" /\ separate "/inputs/train" "/inputs/train2".
Proof.
  destruct (validated_paths_are_separate job_fixture ltac:(vm_compute; reflexivity))
    as (Ho & Hi & _).
  split.
  - exact (proj2 (Ho 0%nat 1%nat _ _ eq_refl eq_refl ltac:(lia))).
  - exact (Hi 0%nat 1%nat _ _ eq_refl eq_refl ltac:(lia)).
Defined.

Lemma validate_resources (job : Job) :
  validate job = Ok tt ->
  1 <= jr_memory_mib (js_resources (job_spec job)) <= 16777216
  /\ 1 <= jr_scratch_mib (js_resources (job_spec job)) <= 1073741824.
Proof.
  unfold validate. destruct (_ || _) eqn:Hguard; [done|]. intros _.
  rewrite !orb_false_iff, !negb_false_iff, !in_range_spec in Hguard. destruct_and! Hguard. done.
Qed.

Lemma unique_map_Some (entries : list (string * string)) (m m' : gmap string string) :
  unique_map m entries = Some m' ->
  NoDup entries.*1 /\ (forall k, k ∈ entries.*1 -> m !! k = None) /\ m' = list_to_map entries ∪ m
  /\ ((base.size m <= 128)%nat -> (base.size m' <= 128)%nat).
Proof.
  revert m. induction entries as [|[k v] entries IH]; intros m; cbn [unique_map].
  - intros [= <-]. split_and!; [apply NoDup_nil_2|by intros ? ?%elem_of_nil|symmetry; apply map_empty_union|done].
  - case_bool_decide as Hsize; [done|]. destruct (m !! k) as [|] eqn:Hk; [done|]. intros H.
    apply IH in H as (Hnd & Hfresh & -> & Hle). rewrite !fmap_cons. cbn [fst]. split_and!.
    + constructor; [|done]. intros Hin. apply Hfresh in Hin. by rewrite lookup_insert_eq in Hin.
    + intros j [-> | Hj]%elem_of_cons; [done|]. apply Hfresh in Hj.
      by apply lookup_insert_None in Hj as [? _].
    + rewrite list_to_map_cons.
      assert (Hl : (list_to_map entries : gmap string string) !! k = None).
      { apply not_elem_of_list_to_map_1. intros Hin. apply Hfresh in Hin.
        by rewrite lookup_insert_eq in Hin. }
      rewrite <- insert_union_r by done. by rewrite insert_union_l.
    + intros _. apply Hle. rewrite map_size_insert_None by done. lia.
Qed.

Lemma decode_job_Some (r : RawJob) (job : Job) :
  decode_job r = Some job ->
  job = raw_job r (list_to_map (raw_labels r)) (list_to_map (raw_env r)) (list_to_map (raw_placement r))
  /\ NoDup (raw_labels r).*1 /\ NoDup (raw_env r).*1 /\ NoDup (raw_placement r).*1.
Proof.
  unfold decode_job. intros H. repeat case_match; try done. injection H as <-.
  repeat match goal with
  | H : unique_map _ _ = Some _ |- _ =>
      apply unique_map_Some in H as (? & _ & -> & _); rewrite map_union_empty
  end. done.
Qed.

(** The declared inputs are the wire inputs, name by name. *)
Lemma inputs_match (inputs : list Input) (wire : list InputManifest) :
  len inputs = len wire -> existsb input_mismatch (zip inputs wire) = false ->
  Forall2 (fun i w => in_dataset i = im_dataset_name w /\ in_mount_path i = im_mount_path w)
    inputs wire.
Proof.
  unfold len. intros Hlen%Nat2N.inj. revert wire Hlen.
  induction inputs as [|i inputs IH]; intros [|w wire] Hlen H; try done.
  simpl in H. apply orb_false_iff in H as [Hi H]. constructor; [|by apply IH; [injection Hlen|]].
  apply orb_false_iff in Hi as [Hd Hm]. by rewrite !bool_decide_negb_false in *.
Qed.

(** An accepted specification is the document the assignment's digest
    names, decoded with every map key once, and agrees with the wire fields:
    argument vector, image, inputs in order, and resources in bytes without
    overflow. *)
Theorem accepted_spec_agrees_with_the_wire (sha256 : bytes -> bytes)
  (from_slice_value : bytes -> option Value) (from_slice_job : bytes -> option RawJob)
  (a : Assignment) (e : ExecutionSpec) :
  from_assignment sha256 from_slice_value from_slice_job a = Ok e ->
  let s := job_spec (es_job e) in
  es_sha256 e = as_spec_sha256 a
  /\ hex (sha256 (as_canonical_job_spec_json a)) = as_spec_sha256 a
  /\ (exists r, from_slice_job (as_canonical_job_spec_json a) = Some r
      /\ es_job e = raw_job r (list_to_map (raw_labels r)) (list_to_map (raw_env r))
                      (list_to_map (raw_placement r))
      /\ NoDup (raw_labels r).*1 /\ NoDup (raw_env r).*1 /\ NoDup (raw_placement r).*1)
  /\ js_command s ++ js_args s = as_argv a
  /\ js_image s = as_image_digest a
  /\ Forall2 (fun i w => in_dataset i = im_dataset_name w /\ in_mount_path i = im_mount_path w)
       (js_inputs s) (as_inputs a)
  /\ exists r, as_resources a = Some r
      /\ rs_cpu_millis r = jr_cpu_millis (js_resources s)
      /\ rs_memory_bytes r = jr_memory_mib (js_resources s) * 1048576
      /\ rs_scratch_bytes r = jr_scratch_mib (js_resources s) * 1048576.
Proof.
  unfold from_assignment. intros H. guards. subst e. cbn [es_job es_sha256].
  match goal with H : validate ?j = Ok ?u |- _ => destruct u; apply validate_resources in H as [Hm Hs] end.
  match goal with H : _ ≫= decode_job = Some _ |- _ => apply bind_Some in H as (r & Hr & Hjob) end.
  apply decode_job_Some in Hjob as (-> & Hnd).
  rewrite !orb_false_iff, !bool_decide_negb_false, !negb_eqb_false_N in *. destruct_and!.
  rewrite shl20_small in * by lia. split_and!; try done.
  - by exists r.
  - by apply inputs_match.
  - by eexists.
Qed.

Definition flat_digest : bytes -> bytes := fun _ => replicate 32 "000"%byte.

Definition value_fixture : Value :=
  Object [("metadata", Object []);
          ("spec", Object [("resources", Object []); ("placement", Object []);
                           ("timeouts", Object []); ("retry", Object []);
                           ("inputs", Array [Object []])])]%string.

Definition manifest_for (name path : string) : InputManifest :=
  {| im_dataset_id := "1b4e28ba-2fa1-11d2-883f-0016d3cca427"; im_mount_path := path;
     im_archive := None; im_file_manifest_json := []; im_download_url := "https://store/d";
     im_expires_unix_ms := 1; im_dataset_name := name |}.

Definition assignment_fixture : Assignment :=
  {| as_authority := None; as_image_digest := image_fixture;
     as_argv := ["python"; "train.py"]%string;
     as_resources := Some {| rs_cpu_millis := 2000; rs_memory_bytes := 4294967296;
                             rs_scratch_bytes := 8589934592 |};
     as_canonical_job_spec_json := str_bytes "{}";
     as_spec_sha256 := hex (flat_digest []); as_lease_duration_ms := 30000;
     as_server_time_unix_ms := 0; as_phase_remaining_ms := 60000;
     as_inputs := [manifest_for "train" "/inputs/train"; manifest_for "train" "/inputs/train2"] |}.

Definition spec_fixture : ExecutionSpec :=
  {| es_job := job_fixture; es_sha256 := hex (flat_digest []) |}.

Lemma accepted_spec_agrees_with_the_wire_witness :
  js_command (job_spec job_fixture) ++ js_args (job_spec job_fixture) = as_argv assignment_fixture.
Proof.
  apply (accepted_spec_agrees_with_the_wire flat_digest (fun _ => Some value_fixture)
           (fun _ => Some raw_fixture) assignment_fixture spec_fixture).
  vm_compute. reflexivity.
Defined.
