(* ===== verification/Uploads.v ===== *)
(** Upload declarations, capabilities and finalizations
    ([rust/worker/src/control/uploads.rs]). *)

From S2P Require Import Prelude Strings Protocol Lease Control.
Open Scope N_scope.

Definition valid_authority (a : AttemptAuthority) : bool :=
  forallb canonical_uuid [aa_job_id a; aa_attempt_id a; aa_worker_id a; aa_session_id a]
  && (0 <? aa_generation a) && (aa_generation a <=? I64_MAX).

Definition authority_valid (a : option AttemptAuthority) : bool :=
  match a with
  | Some a => valid_authority a
  | None => false
  end.

(** [(33..=126)], and [b"._-".contains]. *)
Definition valid_etag (value : string) : bool :=
  negb (is_empty_str value) && (str_len value <=? 1024)
  && forallb (fun b => in_range 33 126 (byte_val b)) (str_bytes value).

Definition valid_version (version : string) : bool :=
  negb (bool_decide (version = "null"%string)) && valid_etag version.

Definition name_byte (b : byte) : bool :=
  is_ascii_alphanumeric b || (byte_val b =? 46) || (byte_val b =? 95) || (byte_val b =? 45).

Definition output_kind (r : CreateUploadRequest) : bool :=
  (cu_kind r =? ArtifactKind.to_i32 ArtifactKind.Output)%Z.

Definition valid_part_plan (r : CreateUploadRequest) : bool :=
  if cu_part_count r =? 1 then cu_part_size_bytes r =? 0
  else output_kind r
       && in_range 2 10000 (cu_part_count r)
       && (0 <? cu_size_bytes r)
       && in_range 5242880 67108864 (cu_part_size_bytes r)
       && (cu_part_count r =? 1 + (cu_size_bytes r - 1) / cu_part_size_bytes r).

Definition validate_create (r : CreateUploadRequest) : result ClientError unit :=
  let name := str_bytes (cu_name r) in
  if negb (authority_valid (cu_authority r))
     || negb (canonical_uuid (cu_request_id r))
     || negb (match ArtifactKind.try_from (cu_kind r) with
              | Some (ArtifactKind.Output | ArtifactKind.Log | ArtifactKind.Manifest) => true
              | _ => false
              end)
     || negb (valid_part_plan r)
     || (67108864 <? cu_size_bytes r)
     || negb (lower_hash (cu_sha256 r))
     || bool_decide (name = [])
     || (128 <? len name)
     || negb (match name with b :: _ => is_ascii_alphanumeric b | [] => false end)
     || negb (forallb name_byte name)
  then Err Configuration
  else Ok tt.

Definition scoped_key (key : string) (a : AttemptAuthority) (upload : string) : bool :=
  match split_on "/" key with
  | [p0; p1; p2; p3; p4; p5; p6; p7] =>
      bool_decide (p0 = "projects"%string) && canonical_uuid p1
      && bool_decide (p2 = "jobs"%string) && bool_decide (p3 = aa_job_id a)
      && bool_decide (p4 = "attempts"%string) && bool_decide (p5 = aa_attempt_id a)
      && bool_decide (p6 = "uploads"%string) && bool_decide (p7 = upload)
  | _ => false
  end.

(** The bytes of a header map: [map(|(k, v)| k.len() + v.len()).sum()]. *)
Definition header_bytes (headers : gmap string string) : N :=
  map_fold (fun k v acc => str_len k + str_len v + acc) 0 headers.

Definition bounded_capability (url : string) (headers : gmap string string) (expires : Z) : bool :=
  negb (is_empty_str url) && (str_len url <=? 16384)
  && (N.of_nat (base.size headers) <=? 64) && (0 <? expires)%Z
  && (header_bytes headers <=? 65536).

Definition validate_grant (r : CreateUploadRequest) (g : CreateUploadResponse)
  : result ClientError unit :=
  let? a := ok_or (cu_authority r) Configuration in
  if negb (canonical_uuid (cr_upload_id g))
     || negb (scoped_key (cr_object_key g) a (cr_upload_id g))
     || negb (bool_decide (cr_parts g = []))
  then Err Response
  else if 1 <? cu_part_count r then
    if negb (is_empty_str (cr_upload_url g))
       || negb (bool_decide (cr_required_headers g = ∅))
       || negb (cr_expires_unix_ms g =? 0)%Z
       || negb (cr_part_count g =? cu_part_count r)
       || negb (cr_part_size_bytes g =? cu_part_size_bytes r)
    then Err Response else Ok tt
  else if negb (cr_part_count g =? 0) || negb (cr_part_size_bytes g =? 0)
          || negb (bounded_capability (cr_upload_url g) (cr_required_headers g)
                     (cr_expires_unix_ms g))
  then Err Response
  else Ok tt.

Definition valid_completion_parts (r : FinalizeUploadRequest) : bool :=
  bool_decide (fu_parts r = [])
  || in_range 2 10000 (len (fu_parts r))
     && forallb (fun '(i, p) =>
          (cp_number p =? wrap32 (wrap32 (N.of_nat i) + 1)) && valid_etag (cp_etag p)
          && lower_hash (cp_sha256 p)) (imap pair (fu_parts r)).

Definition validate_finalization (request : FinalizeUploadRequest) : result ClientError unit :=
  let? a := ok_or (match fu_authority request with
                   | Some a => if valid_authority a then Some a else None
                   | None => None
                   end) Configuration in
  let? o := ok_or (fu_object request) Configuration in
  if negb (canonical_uuid (fu_request_id request))
     || negb (canonical_uuid (fu_upload_id request))
     || negb (valid_completion_parts request)
     || negb (scoped_key (ov_key o) a (fu_upload_id request))
     || (67108864 <? ov_size_bytes o)
     || negb (lower_hash (ov_sha256 o))
     || (bool_decide (fu_parts request = []) && negb (valid_version (ov_version_id o)))
     || (negb (bool_decide (fu_parts request = [])) && negb (is_empty_str (ov_version_id o)))
  then Err Configuration
  else Ok tt.

Definition validate_artifact (request : FinalizeUploadRequest) (response : FinalizeUploadResponse)
  : result ClientError unit :=
  let matches :=
    if bool_decide (fu_parts request = [])
    then bool_decide (fr_object response = fu_object request)
    else match fr_object response, fu_object request with
         | Some actual, Some expected =>
             bool_decide (ov_key actual = ov_key expected)
             && (ov_size_bytes actual =? ov_size_bytes expected)
             && bool_decide (ov_sha256 actual = ov_sha256 expected)
             && valid_version (ov_version_id actual)
         | _, _ => false
         end in
  if negb (canonical_uuid (fr_artifact_id response)) || negb matches then Err Response else Ok tt.

Definition validate_part_request (r : GrantUploadPartRequest) : result ClientError unit :=
  if negb (authority_valid (gp_authority r))
     || negb (canonical_uuid (gp_upload_id r))
     || negb (in_range 1 10000 (gp_number r))
     || negb (lower_hash (gp_sha256 r))
  then Err Configuration
  else Ok tt.

Definition validate_part_grant (r : GrantUploadPartRequest) (g : UploadPart)
  : result ClientError unit :=
  if negb (up_number g =? gp_number r)
     || negb (bounded_capability (up_url g) (up_required_headers g) (up_expires_unix_ms g))
  then Err Response
  else Ok tt.

(** * The calls *)

Definition grant_upload_part (request : GrantUploadPartRequest) (reply : rpc_reply UploadPart)
  : result ClientError UploadPart :=
  let? _ := validate_part_request request in
  let? response := into_inner reply in
  let? _ := validate_part_grant request response in
  Ok response.

Definition create_upload (request : CreateUploadRequest) (reply : rpc_reply CreateUploadResponse)
  : result ClientError CreateUploadResponse :=
  let? _ := validate_create request in
  let? response := into_inner reply in
  let? _ := validate_grant request response in
  Ok response.

Definition finalize_upload (request : FinalizeUploadRequest)
  (reply : rpc_reply FinalizeUploadResponse) : result ClientError FinalizeUploadResponse :=
  let? _ := validate_finalization request in
  let? response := into_inner reply in
  let? _ := validate_artifact request response in
  Ok response.

(** * Lemmas *)

Lemma canonical_uuid_no_slash (s : string) : canonical_uuid s = true -> contains "/" s = false.
Proof.
  intros H. unfold canonical_uuid in H. apply andb_true_iff in H as [_ H].
  apply (forallb_bytes_contains (fun b => hex_or_digit b || (byte_val b =? 45))); [|done].
  apply forallb_forall. intros b Hb. rewrite forallb_forall in H.
  apply list_elem_of_In, list_elem_of_lookup in Hb as [n Hn].
  specialize (H (n, b)). assert (Hin : In (n, b) (imap pair (str_bytes s))).
  { apply list_elem_of_In, list_elem_of_lookup. exists n. rewrite list_lookup_imap, Hn. done. }
  specialize (H Hin). unfold uuid_byte in H. case_bool_decide; rewrite H; by rewrite ?orb_true_r.
Qed.

Lemma valid_authority_uuids (a : AttemptAuthority) :
  valid_authority a = true ->
  canonical_uuid (aa_job_id a) = true /\ canonical_uuid (aa_attempt_id a) = true /\
  canonical_uuid (aa_worker_id a) = true /\ canonical_uuid (aa_session_id a) = true /\
  1 <= aa_generation a <= I64_MAX.
Proof. unfold valid_authority. cbn [forallb]. intros H. bools. naive_solver lia. Qed.

(** The key that names one upload of one attempt. *)
Definition upload_key (project : string) (a : AttemptAuthority) (upload : string) : string :=
  join_with "/" ["projects"; project; "jobs"; aa_job_id a; "attempts"; aa_attempt_id a;
                 "uploads"; upload]%string.

Lemma scoped_key_spec (key : string) (a : AttemptAuthority) (upload : string) :
  canonical_uuid (aa_job_id a) = true -> canonical_uuid (aa_attempt_id a) = true ->
  canonical_uuid upload = true ->
  scoped_key key a upload = true <->
  exists project, canonical_uuid project = true /\ key = upload_key project a upload.
Proof.
  intros Hj Ha Hu. unfold scoped_key, upload_key. split.
  - intros H. pose proof (join_split "/" key) as Hkey.
    destruct (split_on "/" key) as [|p0 [|p1 [|p2 [|p3 [|p4 [|p5 [|p6 [|p7 [|]]]]]]]]]; try done.
    bools. destruct H as [[[[[[[-> Hp] ->] ->] ->] ->] ->] ->]. by exists p1.
  - intros (project & Hp & ->). rewrite split_join; [|done|].
    + by rewrite !bool_decide_true, Hp by done.
    + repeat constructor; auto using canonical_uuid_no_slash.
Qed.

(** An object key admits exactly one upload of one attempt.  For canonical
    identifiers, the keys [scoped_key] accepts are exactly
    [projects/P/jobs/J/attempts/A/uploads/U] with a canonical project, so a key
    accepted for one attempt and upload is accepted for no other. *)
Theorem scoped_key_names_one_upload (key : string) (a b : AttemptAuthority) (u v : string) :
  valid_authority a = true -> valid_authority b = true ->
  canonical_uuid u = true -> canonical_uuid v = true ->
  scoped_key key a u = true ->
  (exists project, canonical_uuid project = true /\ key = upload_key project a u) /\
  (scoped_key key b v = true <->
     aa_job_id b = aa_job_id a /\ aa_attempt_id b = aa_attempt_id a /\ v = u).
Proof.
  intros Ha Hb Hu Hv Hk. apply valid_authority_uuids in Ha as (Ha1 & Ha2 & _).
  apply valid_authority_uuids in Hb as (Hb1 & Hb2 & _).
  split; [by apply scoped_key_spec|]. revert Hk. unfold scoped_key.
  destruct (split_on "/" key) as [|p0 [|p1 [|p2 [|p3 [|p4 [|p5 [|p6 [|p7 [|]]]]]]]]]; try done.
  intros H. bools. destruct H as [[[[[[[-> Hp] ->] ->] ->] ->] ->] ->]. split.
  - intros H. destruct H as [[[[[[[_ _] _] H1] _] H2] _] H3]. by rewrite H1, H2, H3.
  - intros (-> & -> & ->). by rewrite Hp.
Qed.

Definition scoped_key_fixture : string :=
  "projects/00000000-0000-0000-0000-000000000007/jobs/00000000-0000-0000-0000-000000000004/attempts/00000000-0000-0000-0000-000000000005/uploads/00000000-0000-0000-0000-000000000006".

Definition authority_fixture : AttemptAuthority :=
  {| aa_job_id := "00000000-0000-0000-0000-000000000004";
     aa_attempt_id := "00000000-0000-0000-0000-000000000005";
     aa_generation := 1;
     aa_worker_id := "00000000-0000-0000-0000-000000000001";
     aa_session_id := "00000000-0000-0000-0000-000000000002" |}.

Lemma scoped_key_names_one_upload_witness :
  exists project, canonical_uuid project = true /\
    scoped_key_fixture
    = upload_key project authority_fixture "00000000-0000-0000-0000-000000000006".
Proof.
  apply (proj1 (scoped_key_names_one_upload scoped_key_fixture authority_fixture authority_fixture
    "00000000-0000-0000-0000-000000000006" "00000000-0000-0000-0000-000000000006"
    ltac:(vm_compute; reflexivity) ltac:(vm_compute; reflexivity) ltac:(vm_compute; reflexivity)
    ltac:(vm_compute; reflexivity) ltac:(vm_compute; reflexivity))).
Defined.
