(* ===== verification/Phase.v ===== *)
(** Phase reports ([rust/worker/src/control/phase.rs]). *)

From S2P Require Import Prelude Protocol Lease Control.
Open Scope N_scope.

Record PhaseStatus := {
  ph_decision : Decision_.t;
  ph_state : AttemptState.t;
}.

(** The two groups of states every response validation tests. *)
Definition active_state (s : AttemptState.t) : bool :=
  match s with
  | AttemptState.Assigned | AttemptState.Starting | AttemptState.Running
  | AttemptState.Finalizing => true
  | _ => false
  end.

Definition terminal_state (s : AttemptState.t) : bool :=
  match s with
  | AttemptState.Succeeded | AttemptState.Failed | AttemptState.Lost
  | AttemptState.Cancelled => true
  | _ => false
  end.

Definition is_none {A : Type} (o : option A) : bool :=
  match o with
  | None => true
  | Some _ => false
  end.

Definition exit_in_range (code : option Z) : bool :=
  match code with
  | Some c => ((0 <=? c) && (c <=? 255))%Z
  | None => false
  end.

Definition validate_request (r : ReportPhaseRequest) : result ClientError unit :=
  let? a := ok_or (rp_authority r) Configuration in
  if negb (canonical_uuid (rp_event_id r))
     || existsb (fun id => negb (canonical_uuid id))
          [aa_worker_id a; aa_session_id a; aa_job_id a; aa_attempt_id a]
     || (aa_generation a =? 0)
     || (I64_MAX <? aa_generation a)
  then Err Configuration
  else
    let valid := match AttemptState.try_from (rp_phase r) with
                 | Some AttemptState.Starting =>
                     is_empty_str (rp_container_id r) && is_none (rp_exit_code r)
                 | Some AttemptState.Running =>
                     lower_hash (rp_container_id r) && is_none (rp_exit_code r)
                 | Some AttemptState.Finalizing =>
                     lower_hash (rp_container_id r) && exit_in_range (rp_exit_code r)
                 | _ => false
                 end in
    if negb valid then Err Configuration else Ok tt.

Definition validate_response (request : ReportPhaseRequest) (response : MutationResponse)
  : result ClientError PhaseStatus :=
  let? decision := ok_or (Decision_.try_from (mr_decision response)) Response in
  let? state := ok_or (AttemptState.try_from (mr_state response)) Response in
  let active := active_state state in
  let terminal := terminal_state state in
  let valid := match decision with
               | Decision_.Accepted =>
                   active && negb (bool_decide (state = AttemptState.Assigned))
                   && (rp_phase request <=? mr_state response)%Z
               | Decision_.Fenced => active || bool_decide (state = AttemptState.Unspecified)
               | Decision_.StopRequested => active
               | Decision_.AlreadyTerminal => terminal
               | _ => false
               end in
  if negb valid then Err Response else Ok {| ph_decision := decision; ph_state := state |}.

Definition report_phase (request : ReportPhaseRequest) (reply : rpc_reply MutationResponse)
  : result ClientError PhaseStatus :=
  let? _ := validate_request request in
  let? response := into_inner reply in
  validate_response request response.

(** * Lemmas *)

