(* ===== verification/LogRegistration.v ===== *)
(** Registration of log segments ([rust/worker/src/control/logs.rs]), and its
    agreement with the assembler: what the assembler seals is always accepted. *)

From S2P Require Import Prelude Protocol Lease Control Uploads Phase LogFormat.
From S2P Require Import LogSpool LogCapture LogAssembler.
Open Scope N_scope.

Record LogStatus := {
  ls_decision : Decision_.t;
  ls_state : AttemptState.t;
}.

(** The loop over the gaps: the end of the previous gap and the numbers dropped. *)
Definition check_gap (r : RegisterLogSegmentRequest) (acc : N * N) (gap : LogGap)
  : result ClientError (N * N) :=
  let '(previous, dropped) := acc in
  if negb (lg_stream gap =? rg_stream r)%Z
     || (lg_first_sequence gap <=? previous)
     || (lg_first_sequence gap <? rg_first_sequence r)
     || (lg_last_sequence gap <? lg_first_sequence gap)
     || (rg_last_sequence r <? lg_last_sequence gap)
  then Err Configuration
  else Ok (lg_last_sequence gap,
           u64_add dropped (u64_add (u64_sub (lg_last_sequence gap) (lg_first_sequence gap)) 1)).

Definition validate_request (r : RegisterLogSegmentRequest) : result ClientError unit :=
  if negb (authority_valid (rg_authority r))
     || negb (canonical_uuid (rg_request_id r))
     || negb (canonical_uuid (rg_artifact_id r))
     || negb (match LogStream.try_from (rg_stream r) with
              | Some (LogStream.Stdout | LogStream.Stderr) => true
              | _ => false
              end)
     || (rg_first_sequence r =? 0)
     || (rg_last_sequence r <? rg_first_sequence r)
     || (I64_MAX <? rg_last_sequence r)
     || (1024 <? len (rg_gaps r))
  then Err Configuration
  else
    let? '(_, dropped) := rfold (check_gap r) (u64_sub (rg_first_sequence r) 1, 0) (rg_gaps r) in
    if u64_sub (rg_last_sequence r) (rg_first_sequence r) <? dropped then Err Configuration
    else Ok tt.

Definition validate_response (_ : RegisterLogSegmentRequest) (response : MutationResponse)
  : result ClientError LogStatus :=
  let? decision := ok_or (Decision_.try_from (mr_decision response)) Response in
  let? state := ok_or (AttemptState.try_from (mr_state response)) Response in
  let active := active_state state in
  let terminal := terminal_state state in
  let valid := match decision with
               | Decision_.Accepted =>
                   match state with
                   | AttemptState.Starting | AttemptState.Running | AttemptState.Finalizing => true
                   | _ => false
                   end || terminal
               | Decision_.Fenced => active || bool_decide (state = AttemptState.Unspecified)
               | Decision_.StopRequested => active
               | Decision_.AlreadyTerminal => terminal
               | _ => false
               end in
  if negb valid then Err Response else Ok {| ls_decision := decision; ls_state := state |}.

Definition register_log_segment (request : RegisterLogSegmentRequest)
  (reply : rpc_reply MutationResponse) : result ClientError LogStatus :=
  let? _ := validate_request request in
  let? response := into_inner reply in
  validate_response request response.

(** * Lemmas *)

(** How many numbers a list of gaps drops. *)
Definition dropped_by (gaps : list LogGap) : N :=
  fold_right (fun g acc => lg_last_sequence g - lg_first_sequence g + 1 + acc) 0 gaps.

(** Gaps in order, from [lo] on, within a stream and up to [hi]. *)
Fixpoint gaps_within (s : Z) (lo hi : N) (gaps : list LogGap) : Prop :=
  match gaps with
  | [] => True
  | g :: rest =>
      lg_stream g = s /\ lo <= lg_first_sequence g <= lg_last_sequence g /\
      lg_last_sequence g <= hi /\ gaps_within s (lg_last_sequence g + 1) hi rest
  end.

Lemma dropped_by_bound (gaps : list LogGap) (s : Z) (lo hi : N) :
  gaps_within s lo hi gaps -> lo <= hi + 1 -> dropped_by gaps + lo <= hi + 1.
Proof.
  revert lo. induction gaps as [|g l IH]; intros lo Hg Hlo; simpl in *; [lia|].
  destruct Hg as (_ & Hg & Hhi & Hl). specialize (IH _ Hl ltac:(lia)). lia.
Qed.

(** The loop accepts exactly such lists, and its counter never wraps. *)
Lemma check_gaps_spec (r : RegisterLogSegmentRequest) (gaps : list LogGap)
  (previous dropped previous' dropped' : N) :
  rg_last_sequence r <= I64_MAX -> rg_first_sequence r <= previous + 1 ->
  previous <= rg_last_sequence r -> dropped <= previous ->
  rfold (check_gap r) (previous, dropped) gaps = Ok (previous', dropped') <->
  gaps_within (rg_stream r) (previous + 1) (rg_last_sequence r) gaps /\
  dropped' = dropped + dropped_by gaps /\ previous' = default previous (lg_last_sequence <$> last gaps).
Proof.
  intros Hmax. revert previous dropped. induction gaps as [|g l IH]; intros p d Hf Hp Hd.
  { simpl. split.
    - intros [= <- <-]. split_and!; [done|lia|done].
    - intros (_ & -> & ->). by rewrite N.add_0_r. }
  cbn [rfold check_gap]. set (c := _ || _). destruct c eqn:Ec; subst c.
  - split; [done|]. intros [(Hs & Hlo & Hhi & _) _]. bools_in Ec. lia.
  - bools_in Ec. cbn [rbind]. unfold I64_MAX in *.
    rewrite u64_sub_small by (unfold U64_MAX; lia).
    rewrite !u64_add_small by (unfold U64_MAX; rewrite ?u64_add_small; unfold U64_MAX; lia).
    rewrite IH by lia. cbn [gaps_within dropped_by fold_right]. fold (dropped_by l).
    rewrite last_cons. split.
    + intros (Hw & -> & ->). split_and!; try done; try lia. by destruct (last l).
    + intros [(Hs & Hlo & Hhi & Hw) [-> ->]]. split_and!; [done|lia|]. by destruct (last l).
Qed.

Lemma validate_request_spec (r : RegisterLogSegmentRequest) :
  validate_request r = Ok tt <->
  authority_valid (rg_authority r) = true /\ canonical_uuid (rg_request_id r) = true /\
  canonical_uuid (rg_artifact_id r) = true /\
  (exists s, LogStream.try_from (rg_stream r) = Some s /\ (s = LogStream.Stdout \/ s = LogStream.Stderr)) /\
  1 <= rg_first_sequence r <= rg_last_sequence r /\ rg_last_sequence r <= I64_MAX /\
  len (rg_gaps r) <= 1024 /\
  gaps_within (rg_stream r) (rg_first_sequence r) (rg_last_sequence r) (rg_gaps r) /\
  dropped_by (rg_gaps r) <= rg_last_sequence r - rg_first_sequence r.
Proof.
  unfold validate_request. set (c := _ || _). destruct c eqn:Ec; subst c.
  - split; [done|]. intros (H1 & H2 & H3 & (s & Hs & Hs') & H5 & H6 & H7 & _).
    rewrite H1, H2, H3, Hs in Ec. assert (match s with
      | LogStream.Unspecified => false | _ => true end = true) as E by (by destruct Hs' as [-> | ->]).
    destruct Hs' as [-> | ->]; simpl in Ec; bools_in Ec; lia.
  - bools_in Ec. destruct Ec as [[[[[[[Ea Er] Et] Es] E1] E2] E3] E4].
    assert (Hstream : exists s, LogStream.try_from (rg_stream r) = Some s /\
              (s = LogStream.Stdout \/ s = LogStream.Stderr)).
    { destruct (LogStream.try_from (rg_stream r)) as [[]|]; try done; eauto. }
    rewrite !u64_sub_small by (unfold I64_MAX, U64_MAX in *; lia).
    assert (Hlo : rg_first_sequence r - 1 + 1 = rg_first_sequence r) by lia.
    destruct (rfold (check_gap r) (rg_first_sequence r - 1, 0) (rg_gaps r)) as [[p d]|e] eqn:El; simpl.
    + apply check_gaps_spec in El as (Hw & -> & _); [|lia..]. rewrite Hlo in Hw.
      destruct (N.ltb_spec (rg_last_sequence r - rg_first_sequence r) (0 + dropped_by (rg_gaps r))).
      * split; [done|]. intros (_ & _ & _ & _ & _ & _ & _ & _ & ?). lia.
      * split; [|done]. intros _. split_and!; try done; lia.
    + split; [done|]. intros (_ & _ & _ & _ & _ & _ & _ & Hw & _). exfalso.
      rewrite <- Hlo in Hw.
      pose proof (proj2 (check_gaps_spec r (rg_gaps r) (rg_first_sequence r - 1) 0 _ _
        ltac:(lia) ltac:(lia) ltac:(lia) ltac:(lia)) (conj Hw (conj eq_refl eq_refl))). congruence.
Qed.

Lemma gaps_within_hi (s : Z) (lo hi hi' : N) (gaps : list LogGap) :
  hi <= hi' -> gaps_within s lo hi gaps -> gaps_within s lo hi' gaps.
Proof.
  intros Hle. revert lo. induction gaps as [|g l IH]; intros lo; simpl; [done|].
  intros (? & ? & ? & ?). split_and!; try lia. by apply IH.
Qed.

Lemma gaps_within_lo (s : Z) (lo lo' hi : N) (gaps : list LogGap) :
  lo' <= lo -> gaps_within s lo hi gaps -> gaps_within s lo' hi gaps.
Proof. destruct gaps; simpl; [done|]. intros Hle (? & ? & ? & ?). split_and!; [done|lia..|done]. Qed.

(** The gaps of an ordered list end before its last element. *)
Lemma gaps_of_within (st : LogStream.t) (l : list N) (e b : N) :
  ordered e l -> last l = Some b ->
  gaps_within (LogStream.to_i32 st) e (b - 1) (map (log_gap st) (gaps_of e l)).
Proof.
  revert e. induction l as [|x l IH]; intros e Ho Hb; [done|].
  destruct Ho as [Hx Ho]. rewrite last_cons in Hb. cbn [gaps_of]. rewrite map_app.
  assert (Hrest : x <= b /\
    gaps_within (LogStream.to_i32 st) (x + 1) (b - 1) (map (log_gap st) (gaps_of (x + 1) l))).
  { destruct (last l) as [c|] eqn:El.
    - injection Hb as <-. split; [|by apply IH].
      apply last_Some_elem_of in El. apply (ordered_lower _ _ _ Ho) in El. lia.
    - injection Hb as <-. apply last_None in El as ->. split; [lia|done]. }
  destruct Hrest as [Hxb Hrest]. destruct (N.ltb_spec e x); simpl.
  - split_and!; [done|lia..|]. eapply gaps_within_lo; [|done]. lia.
  - eapply gaps_within_lo; [|done]. lia.
Qed.

(** Whatever the assembler seals can be registered.  A registration request
    with the stream, range and gaps of a stored candidate, a valid authority and
    canonical identifiers passes the request validation: the validator's counters
    cannot overflow and never refuse a candidate the worker itself produced. *)
Theorem sealed_candidates_register (p : PendingSegment) (a : AttemptAuthority)
  (request_id artifact_id : string) :
  sealed p -> ps_stream p = LogStream.Stdout \/ ps_stream p = LogStream.Stderr ->
  valid_authority a = true -> canonical_uuid request_id = true -> canonical_uuid artifact_id = true ->
  validate_request
    {| rg_authority := Some a; rg_request_id := request_id; rg_artifact_id := artifact_id;
       rg_stream := LogStream.to_i32 (ps_stream p); rg_first_sequence := ps_first_sequence p;
       rg_last_sequence := ps_last_sequence p; rg_gaps := ps_gaps p |} = Ok tt.
Proof.
  intros Hs Hst Ha Hr Ht. pose proof (sealed_range p Hs) as Hrange.
  destruct Hs as (seqs & Ho & Hl & Hg & Hn & H1 & H2).
  pose proof (gaps_of_within (ps_stream p) seqs _ _ Ho Hl) as Hw. rewrite <- Hg in Hw.
  pose proof (dropped_by_bound _ _ _ _ Hw ltac:(lia)) as Hd.
  apply validate_request_spec; simpl. unfold MAX_GAPS in Hn. split_and!; try done; try lia.
  - exists (ps_stream p). split; [apply LogStream.stream_try_from_to_i32|done].
  - eapply gaps_within_hi; [|done]. lia.
Qed.

Definition sealed_fixture : PendingSegment :=
  match la_pending flushed_fixture with
  | p :: _ => p
  | [] => {| ps_entry := {| ss_path := EmptyString; ss_name := EmptyString; ss_size := 0 |};
             ps_stream := LogStream.Unspecified; ps_first_sequence := 0; ps_last_sequence := 0;
             ps_gaps := []; ps_sha256 := EmptyString |}
  end.

Definition registration_fixture : RegisterLogSegmentRequest :=
  {| rg_authority := Some authority_fixture;
     rg_request_id := "00000000-0000-0000-0000-000000000008";
     rg_artifact_id := "00000000-0000-0000-0000-000000000009";
     rg_stream := LogStream.to_i32 (ps_stream sealed_fixture);
     rg_first_sequence := ps_first_sequence sealed_fixture;
     rg_last_sequence := ps_last_sequence sealed_fixture; rg_gaps := ps_gaps sealed_fixture |}.

Lemma sealed_candidates_register_witness : validate_request registration_fixture = Ok tt.
Proof.
  apply (sealed_candidates_register sealed_fixture authority_fixture); try (vm_compute; reflexivity).
  - exists [3]. vm_compute. intuition congruence.
  - left. reflexivity.
Defined.

Lemma gaps_within_above (s : Z) (lo hi x : N) (gaps : list LogGap) :
  gaps_within s lo hi gaps -> x < lo ->
  Forall (fun g => ~ (lg_first_sequence g <= x <= lg_last_sequence g)) gaps.
Proof.
  revert lo. induction gaps as [|g l IH]; intros lo Hg Hx; constructor; simpl in Hg.
  - lia.
  - destruct Hg as (_ & Hg & _ & Hl). apply (IH _ Hl). lia.
Qed.

(** A number that no gap drops, found before the first gap or between two. *)
Lemma gaps_within_free (s : Z) (gaps : list LogGap) (lo hi : N) :
  gaps_within s lo hi gaps -> lo <= hi -> dropped_by gaps <= hi - lo ->
  exists x, lo <= x <= hi /\
    Forall (fun g => ~ (lg_first_sequence g <= x <= lg_last_sequence g)) gaps.
Proof.
  revert lo. induction gaps as [|g l IH]; intros lo Hg Hlo Hd; simpl in *.
  { exists lo. split; [lia|constructor]. }
  destruct Hg as (Hs & Hg & Hhi & Hl). destruct (N.eq_dec lo (lg_first_sequence g)) as [->|Hne].
  - destruct (IH _ Hl) as (x & Hx & Hall); [lia|lia|].
    exists x. split; [lia|]. constructor; [lia|done].
  - exists lo. split; [lia|]. constructor; [lia|]. eapply gaps_within_above; [done|]. lia.
Qed.

(** An accepted registration leaves at least one captured record.  The gaps
    of a request that passes validation are ordered, disjoint and inside its
    range, and some number of the range is in no gap. *)
Lemma registration_keeps_a_record (r : RegisterLogSegmentRequest) :
  validate_request r = Ok tt ->
  gaps_within (rg_stream r) (rg_first_sequence r) (rg_last_sequence r) (rg_gaps r) /\
  exists x, rg_first_sequence r <= x <= rg_last_sequence r /\
    Forall (fun g => ~ (lg_first_sequence g <= x <= lg_last_sequence g)) (rg_gaps r).
Proof.
  rewrite validate_request_spec. intros (_ & _ & _ & _ & Hr & _ & _ & Hw & Hd). split; [done|].
  eapply gaps_within_free; [done|lia|done].
Qed.
