(* ===== verification/Completion.v ===== *)
(** Completion evidence: its digest ([control/completion_payload.rs]) and the
    acknowledgement that binds it ([control/completion.rs]).

    SHA-256 and the JSON reader and writer are third-party code and parameters:
    [json_entries] delivers the members of a JSON object in document order with
    the raw text of their values, [to_vec] serializes the payload, and
    [parse_manifest] reads the manifest structure.  The numeric checks on metric
    values use only [f64::from_str] of the standard library, modelled exactly on
    JSON number literals. *)

From S2P Require Import Prelude Strings Protocol Lease Control Phase.
Open Scope N_scope.

(** * Metric numbers *)

(** Digits read into an accumulator: value, how many, the rest. *)
Fixpoint digits (acc : N) (n : nat) (l : bytes) : N * nat * bytes :=
  match l with
  | b :: l' => if is_ascii_digit b then digits (acc * 10 + (byte_val b - 48)) (S n) l' else (acc, n, l)
  | [] => (acc, n, l)
  end.

Definition sign (l : bytes) : bool * bytes :=
  match l with
  | b :: l' => if byte_val b =? 45 then (true, l') else if byte_val b =? 43 then (false, l') else (false, l)
  | [] => (false, l)
  end.

(** The exponent part of a literal. *)
Definition exponent (l : bytes) : option Z :=
  match l with
  | [] => Some 0%Z
  | b :: l1 =>
      if (byte_val b =? 101) || (byte_val b =? 69) then
        let '(neg, l2) := sign l1 in
        match digits 0 0 l2 with
        | (x, S _, []) => Some (if neg then - Z.of_N x else Z.of_N x)%Z
        | _ => None
        end
      else None
  end.

(** A JSON number literal without its sign: [mantissa * 10 ^ exponent]. *)
Definition literal (l : bytes) : option (N * Z) :=
  let l1 := match l with b :: l' => if byte_val b =? 45 then l' else l | [] => l end in
  match digits 0 0 l1 with
  | (_, O, _) => None
  | (m, _, r) =>
      match r with
      | b :: r1 =>
          if byte_val b =? 46 then
            match digits m 0 r1 with
            | (_, O, _) => None
            | (m', n, r2) => e ← exponent r2; Some (m', (e - Z.of_nat n)%Z)
            end
          else e ← exponent r; Some (m, e)
      | [] => Some (m, 0%Z)
      end
  end.

(** Round-to-nearest-even overflows to infinity from [2^1024 - 2^970] on, and
    underflows to zero up to [2^-1075].  At most 1024 digits are read, so the
    bounds on the exponent only avoid computing huge powers. *)
Definition is_infinite (m : N) (e : Z) : bool :=
  if m =? 0 then false
  else if (400 <? e)%Z then true
  else if (e <? 0)%Z then (2 ^ 1024 - 2 ^ 970) * 10 ^ Z.to_N (- e) <=? m
  else 2 ^ 1024 - 2 ^ 970 <=? m * 10 ^ Z.to_N e.

Definition is_zero (m : N) (e : Z) : bool :=
  if m =? 0 then true
  else if (0 <=? e)%Z then false
  else if (e <? -2000)%Z then true
  else m * 2 ^ 1075 <=? 10 ^ Z.to_N (- e).

(** [number.split(['e', 'E']).next()]. *)
Fixpoint before_exponent (l : bytes) : bytes :=
  match l with
  | b :: l' => if (byte_val b =? 101) || (byte_val b =? 69) then [] else b :: before_exponent l'
  | [] => []
  end.

Definition zero_byte (b : byte) : bool :=
  (byte_val b =? 45) || (byte_val b =? 43) || (byte_val b =? 46) || (byte_val b =? 48).

Definition name_char (metric : bool) (b : byte) : bool :=
  is_ascii_alphanumeric b || (byte_val b =? 95) || (byte_val b =? 46) || (byte_val b =? 45)
  || metric && ((byte_val b =? 58) || (byte_val b =? 47)).

Definition bounded_name (name : string) (metric : bool) : bool :=
  negb (is_empty_str name) && (str_len name <=? 128)
  && match str_bytes name with b :: _ => is_ascii_alphanumeric b | [] => false end
  && forallb (name_char metric) (str_bytes name).

(** The checks on one raw value: the text kept for it, or a refusal. *)
Definition metric_value (raw : string) : option string :=
  let number := str_bytes raw in
  if (1024 <? len number)
     || negb (match number with b :: _ => (byte_val b =? 45) || is_ascii_digit b | [] => false end)
  then None
  else
    match literal number with
    | None => None
    | Some (m, e) =>
        if is_infinite m e then None
        else if is_zero m e then
          if existsb (fun b => negb (zero_byte b)) (before_exponent number) then None
          else Some "0"%string
        else Some raw
    end.

(** [visit_map]: the entries in document order. *)
Fixpoint visit_map (values : gmap string string) (entries : list (string * string))
  : option (gmap string string) :=
  match entries with
  | [] => Some values
  | (key, raw) :: rest =>
      if (256 <=? N.of_nat (base.size values)) || negb (bounded_name key true)
         || bool_decide (is_Some (values !! key))
      then None
      else v ← metric_value raw; visit_map (<[key := v]> values) rest
  end.

(** * The digest *)

Record PayloadGap := {
  pg_stream : string;
  pg_first : N;
  pg_last : N;
}.

Record Payload := {
  pl_authority : AttemptAuthority;
  pl_exit_code : option Z;
  pl_reason : string;
  pl_stopped : bool;
  pl_outputs : list OutputReference;
  pl_logs_complete : bool;
  pl_gaps : list PayloadGap;
  pl_metrics : gmap string string;
  pl_metrics_source_sha256 : string;
}.

(** The loop over the outputs: the artifact ids seen and the outputs kept. *)
Definition push_output (acc : list string * list OutputReference) (o : OutputReference)
  : result ClientError (list string * list OutputReference) :=
  let '(ids, outputs) := acc in
  if negb (bounded_name (or_name o) false) || negb (canonical_uuid (or_artifact_id o))
     || bool_decide (or_artifact_id o ∈ ids)
  then Err Configuration
  else Ok (or_artifact_id o :: ids, outputs ++ [o]).

Definition payload_gap (g : LogGap) : result ClientError PayloadGap :=
  let? stream := match LogStream.try_from (lg_stream g) with
                 | Some LogStream.Stdout => Ok "stdout"%string
                 | Some LogStream.Stderr => Ok "stderr"%string
                 | _ => Err Configuration
                 end in
  if (lg_first_sequence g =? 0) || (lg_last_sequence g <? lg_first_sequence g)
     || (I64_MAX <? lg_last_sequence g)
  then Err Configuration
  else Ok {| pg_stream := stream; pg_first := lg_first_sequence g; pg_last := lg_last_sequence g |}.

Definition output_leb (a b : OutputReference) : bool := str_leb (or_name a) (or_name b).

Definition payload_gap_leb (a b : PayloadGap) : bool :=
  str_ltb (pg_stream a) (pg_stream b)
  || bool_decide (pg_stream a = pg_stream b) && (pg_first a <=? pg_first b).

Definition same_name (pair : OutputReference * OutputReference) : bool :=
  bool_decide (or_name pair.1 = or_name pair.2).

Definition overlapping (pair : PayloadGap * PayloadGap) : bool :=
  bool_decide (pg_stream pair.1 = pg_stream pair.2) && (pg_first pair.2 <=? pg_last pair.1).

Section Digest.
Context (sha256 : bytes -> bytes).
Context (json_entries : bytes -> option (list (string * string))).
Context (to_vec : Payload -> option bytes).

(** [serde_json::from_slice::<Metrics>]. *)
Definition parse_metrics (body : bytes) : option (gmap string string) :=
  entries ← json_entries body; visit_map ∅ entries.

Definition valid_metrics (body : bytes) : bool :=
  negb (bool_decide (body = [])) && (len body <=? 65536)
  && match parse_metrics body with Some _ => true | None => false end.

Definition bad_exit (code : option Z) : bool :=
  match code with
  | Some c => negb ((0 <=? c) && (c <=? 255))%Z
  | None => false
  end.

(** The guards on the reason and the exit evidence. *)
Definition check_reason (r : CompleteAttemptRequest) : result ClientError FailureReason.t :=
  let? reason := ok_or (FailureReason.try_from (ca_reason r)) Configuration in
  if bool_decide (reason = FailureReason.WorkerLost)
     || (bool_decide (reason = FailureReason.Unspecified)
         && (negb (bool_decide (ca_exit_code r = Some 0%Z)) || negb (ca_stopped r)))
     || (bool_decide (reason = FailureReason.ApplicationExit)
         && (bool_decide (ca_exit_code r = None) || bool_decide (ca_exit_code r = Some 0%Z)))
  then Err Configuration
  else Ok reason.

Definition completion_digest (r : CompleteAttemptRequest) : result ClientError string :=
  let? a := ok_or (ca_authority r) Configuration in
  if existsb (fun id => negb (canonical_uuid id))
       [aa_job_id a; aa_attempt_id a; aa_worker_id a; aa_session_id a; ca_completion_id r]
     || (aa_generation a =? 0)
     || (I64_MAX <? aa_generation a)
     || (64 <? len (ca_outputs r))
     || (1024 <? len (ca_gaps r))
     || (65536 <? len (ca_metrics_json r))
     || bad_exit (ca_exit_code r)
  then Err Configuration
  else
    let? reason := check_reason r in
    let reason_text := if bool_decide (reason = FailureReason.Unspecified) then EmptyString
                       else FailureReason.as_str_name reason in
    let? '(_, collected) := rfold push_output ([], []) (ca_outputs r) in
    let outputs := sort_by output_leb collected in
    if existsb same_name (windows2 outputs)
       || (ca_logs_complete r && negb (bool_decide (ca_gaps r = [])))
    then Err Configuration
    else
      let? collected_gaps := rmap payload_gap (ca_gaps r) in
      let gaps := sort_by payload_gap_leb collected_gaps in
      if existsb overlapping (windows2 gaps) then Err Configuration
      else
        let? metrics := if bool_decide (ca_metrics_json r = []) then Ok ∅
                        else ok_or (parse_metrics (ca_metrics_json r)) Configuration in
        let payload :=
          {| pl_authority := a; pl_exit_code := ca_exit_code r; pl_reason := reason_text;
             pl_stopped := ca_stopped r; pl_outputs := outputs;
             pl_logs_complete := ca_logs_complete r; pl_gaps := gaps; pl_metrics := metrics;
             pl_metrics_source_sha256 :=
               if bool_decide (ca_metrics_json r = []) then EmptyString
               else hex (sha256 (ca_metrics_json r)) |} in
        let? body := ok_or (to_vec payload) Configuration in
        Ok (hex (sha256 (str_bytes "dispatch.worker.v1.CompleteAttempt" ++ ["010"]%byte ++ body))).

Definition validate_request (r : CompleteAttemptRequest) : result ClientError unit :=
  if negb (lower_hash (ca_payload_sha256 r)) then Err Configuration
  else
    let? digest := completion_digest r in
    if negb (bool_decide (digest = ca_payload_sha256 r)) then Err Configuration else Ok tt.

End Digest.

(** * The acknowledgement *)

Record CompletionStatus := {
  st_decision : Decision_.t;
  st_state : AttemptState.t;
  st_manifest : bytes;
}.

(** The members of the manifest the worker reads. *)
Record Manifest := {
  mf_version : N;
  mf_authority : AttemptAuthority;
  mf_state : string;
  mf_exit_code : option Z;
  mf_reason : string;
  mf_cleanup_pending : bool;
  mf_outputs : list OutputReference;
}.

(** [u8::is_ascii_whitespace]: tab, line feed, form feed, carriage return, space. *)
Definition is_ascii_whitespace (b : byte) : bool :=
  (byte_val b =? 9) || (byte_val b =? 10) || (byte_val b =? 12) || (byte_val b =? 13)
  || (byte_val b =? 32).

Fixpoint find_byte (l : bytes) : option byte :=
  match l with
  | [] => None
  | b :: l' => if negb (is_ascii_whitespace b) then Some b else find_byte l'
  end.

(** The derived order of [Output]: by name, then by artifact. *)
Definition output_full_leb (a b : OutputReference) : bool :=
  str_ltb (or_name a) (or_name b)
  || bool_decide (or_name a = or_name b) && str_leb (or_artifact_id a) (or_artifact_id b).

Section Response.
Context (parse_manifest : bytes -> option Manifest).

Definition validate_manifest (request : CompleteAttemptRequest) (raw : bytes)
  : result ClientError unit :=
  if bool_decide (raw = []) || (2097152 <? len raw) then Err Response
  else if negb (bool_decide (find_byte raw = Some "{"%byte)) then Err Response
  else
    let? m := ok_or (parse_manifest raw) Response in
    let? a := ok_or (ca_authority request) Response in
    if negb (mf_version m =? 1)
       || negb (bool_decide (mf_state m = "SUCCEEDED"%string))
       || negb (bool_decide (mf_exit_code m = Some 0%Z))
       || negb (is_empty_str (mf_reason m))
       || mf_cleanup_pending m
       || negb (bool_decide (aa_job_id (mf_authority m) = aa_job_id a))
       || negb (bool_decide (aa_attempt_id (mf_authority m) = aa_attempt_id a))
       || negb (aa_generation (mf_authority m) =? aa_generation a)
       || negb (bool_decide (aa_worker_id (mf_authority m) = aa_worker_id a))
       || negb (bool_decide (aa_session_id (mf_authority m) = aa_session_id a))
       || negb (len (mf_outputs m) =? len (ca_outputs request))
    then Err Response
    else if negb (bool_decide (sort_by output_full_leb (mf_outputs m)
                               = sort_by output_full_leb (ca_outputs request)))
    then Err Response
    else Ok tt.

Definition expected_state (reason : Z) : option AttemptState.t :=
  match FailureReason.try_from reason with
  | Some FailureReason.Unspecified => Some AttemptState.Succeeded
  | Some FailureReason.UserCancelled => Some AttemptState.Cancelled
  | Some _ => Some AttemptState.Failed
  | None => None
  end.

Definition validate_response (request : CompleteAttemptRequest) (response : CompleteAttemptResponse)
  : result ClientError CompletionStatus :=
  let? decision := ok_or (Decision_.try_from (cs_decision response)) Response in
  let? state := ok_or (AttemptState.try_from (cs_state response)) Response in
  let active := active_state state in
  let terminal := terminal_state state in
  let? expected := ok_or (expected_state (ca_reason request)) Response in
  let valid := match decision with
               | Decision_.Accepted => bool_decide (state = expected)
               | Decision_.AlreadyTerminal => terminal
               | Decision_.Fenced => active || bool_decide (state = AttemptState.Unspecified)
               | Decision_.StopRequested => active
               | _ => false
               end in
  if negb valid then Err Response
  else
    let? _ := if bool_decide (decision = Decision_.Accepted)
                 && bool_decide (state = AttemptState.Succeeded)
              then validate_manifest request (cs_accepted_manifest_json response)
              else if negb (bool_decide (cs_accepted_manifest_json response = []))
              then Err Response else Ok tt in
    Ok {| st_decision := decision; st_state := state;
          st_manifest := cs_accepted_manifest_json response |}.

End Response.

Definition complete_attempt (sha256 : bytes -> bytes)
  (json_entries : bytes -> option (list (string * string))) (to_vec : Payload -> option bytes)
  (parse_manifest : bytes -> option Manifest) (request : CompleteAttemptRequest)
  (reply : rpc_reply CompleteAttemptResponse) : result ClientError CompletionStatus :=
  let? _ := validate_request sha256 json_entries to_vec request in
  let? response := into_inner reply in
  validate_response parse_manifest request response.

(** * Order independence of the digest *)

(** Equal keys mean equal elements in a list that is strictly sorted by key. *)
Lemma strict_sorted_key_inj {A K : Type} (T : A -> A -> Prop) (key : A -> K) (l : list A) :
  (forall x y, T x y -> key x <> key y) -> StronglySorted T l ->
  forall x y, x ∈ l -> y ∈ l -> key x = key y -> x = y.
Proof.
  intros HT. induction 1 as [|z l Hs IH Hall]; intros x y Hx Hy Hk; [by apply elem_of_nil in Hx|].
  rewrite Forall_forall in Hall.
  apply elem_of_cons in Hx as [->|Hx], Hy as [->|Hy]; try done.
  - by destruct (HT z y (Hall y Hy)).
  - by destruct (HT z x (Hall x Hx)).
  - by apply IH.
Qed.

Lemma output_leb_total (a b : OutputReference) : output_leb a b = true \/ output_leb b a = true.
Proof. apply str_leb_total. Qed.

Lemma output_leb_trans (a b c : OutputReference) :
  output_leb a b = true -> output_leb b c = true -> output_leb a c = true.
Proof. apply str_leb_trans. Qed.

Lemma payload_gap_leb_total (a b : PayloadGap) :
  payload_gap_leb a b = true \/ payload_gap_leb b a = true.
Proof.
  unfold payload_gap_leb. destruct (decide (pg_stream a = pg_stream b)) as [E|E].
  - rewrite E, !bool_decide_true, str_ltb_irrefl by done. simpl. rewrite !N.leb_le. lia.
  - rewrite !bool_decide_false by congruence. rewrite !orb_false_r, !str_ltb_leb, !negb_true_iff.
    destruct (str_leb (pg_stream b) (pg_stream a)) eqn:E1; [|auto].
    destruct (str_leb (pg_stream a) (pg_stream b)) eqn:E2; [|auto].
    by destruct E; apply str_leb_antisym.
Qed.

Lemma payload_gap_leb_trans (a b c : PayloadGap) :
  payload_gap_leb a b = true -> payload_gap_leb b c = true -> payload_gap_leb a c = true.
Proof.
  unfold payload_gap_leb. bools. intros [H1|[E1 H1]] [H2|[E2 H2]].
  - left. by eapply str_ltb_trans.
  - left. by rewrite <- E2.
  - left. by rewrite E1.
  - right. split; [congruence|lia].
Qed.

(** The outputs loop accepts valid outputs with distinct artifacts, in any order. *)
Definition output_valid (o : OutputReference) : Prop :=
  bounded_name (or_name o) false = true /\ canonical_uuid (or_artifact_id o) = true.

Lemma push_outputs_spec (l outs : list OutputReference) (ids : list string)
  (res : list string * list OutputReference) :
  rfold push_output (ids, outs) l = Ok res <->
  Forall output_valid l /\ NoDup (map or_artifact_id l) /\
  (forall o, o ∈ l -> or_artifact_id o ∉ ids) /\
  res = (reverse (map or_artifact_id l) ++ ids, outs ++ l).
Proof.
  revert ids outs. induction l as [|o l IH]; intros ids outs.
  { simpl. rewrite app_nil_r. split.
    - intros [= <-]. split_and!; try constructor. intros o Ho. by apply elem_of_nil in Ho.
    - by intros (_ & _ & _ & ->). }
  cbn [rfold push_output]. set (c := _ || _). destruct c eqn:Ec; subst c.
  - split; [done|]. intros (Hv & _ & Hn & _). apply Forall_cons in Hv as [[H1 H2] _].
    specialize (Hn o ltac:(left)). bools_in Ec. naive_solver congruence.
  - bools_in Ec. destruct Ec as [[H1 H2] H3]. cbn [rbind]. rewrite IH. cbn [map].
    rewrite reverse_cons, <- !(assoc_L (++)), NoDup_cons, Forall_cons. split.
    + intros (Hv & Hnd & Hn & ->). split_and!; try done.
      * intros Hin. apply list_elem_of_fmap in Hin as (x & Hx & Hxl).
        apply (Hn x Hxl). rewrite <- Hx. left.
      * intros x Hx. apply elem_of_cons in Hx as [->|Hx]; [done|].
        specialize (Hn x Hx). apply not_elem_of_cons in Hn. naive_solver.
    + intros ([_ Hv] & [Hni Hnd] & Hn & ->). split_and!; try done.
      intros x Hx. apply not_elem_of_cons. split; [|apply Hn; by right].
      intros Heq. apply Hni. rewrite <- Heq. by apply list_elem_of_fmap_2.
Qed.

Lemma push_outputs_perm (l k : list OutputReference) (res : list string * list OutputReference) :
  l ≡ₚ k -> rfold push_output ([], []) l = Ok res ->
  exists ids, rfold push_output ([], []) k = Ok (ids, k) /\ res.2 = l.
Proof.
  intros Hp H. apply push_outputs_spec in H as (Hv & Hnd & _ & ->). eexists. split; [|done].
  apply push_outputs_spec. split_and!; [by rewrite <- Hp| | |done].
  - rewrite <- (fmap_Permutation or_artifact_id _ _ Hp). done.
  - intros o _. apply not_elem_of_nil.
Qed.

Lemma sorted_outputs_perm (l k : list OutputReference) :
  l ≡ₚ k -> existsb same_name (windows2 (sort_by output_leb l)) = false ->
  sort_by output_leb l = sort_by output_leb k.
Proof.
  intros Hp Hw.
  pose proof (sort_by_Sorted output_leb output_leb_total output_leb_trans l) as Hs.
  apply (windows2_Sorted _ _ _ Hs) in Hw.
  set (T x y := str_ltb (or_name x) (or_name y) = true).
  assert (HT : StronglySorted T (sort_by output_leb l)).
  { apply Sorted_StronglySorted; [intros x y z; apply str_ltb_trans|].
    eapply Sorted_weaken; [|exact Hw]. intros x y _ _ [Hle Hne]. unfold T, leb_rel, output_leb, same_name in *.
    apply bool_decide_eq_false in Hne. simpl in Hne. rewrite str_ltb_leb, negb_true_iff.
    destruct (str_leb (or_name y) (or_name x)) eqn:E; [|done]. by destruct Hne; apply str_leb_antisym. }
  apply sort_by_canonical; [apply output_leb_total|apply output_leb_trans| |done].
  intros x y Hx Hy H1 H2. apply (strict_sorted_key_inj T or_name (sort_by output_leb l)); try done.
  - intros a b Hab Heq. unfold T in Hab. by rewrite Heq, str_ltb_irrefl in Hab.
  - by rewrite sort_by_Permutation.
  - by rewrite sort_by_Permutation.
  - by apply str_leb_antisym.
Qed.

Definition payload_gap_valid (g : PayloadGap) : Prop := pg_first g <= pg_last g.

Lemma payload_gap_Ok_valid (g : LogGap) (p : PayloadGap) : payload_gap g = Ok p -> payload_gap_valid p.
Proof.
  unfold payload_gap. intros H. guards. bools. subst p. unfold payload_gap_valid; simpl. lia.
Qed.

Lemma rmap_perm {E A B : Type} (f : A -> result E B) (l k : list A) (bs : list B) :
  l ≡ₚ k -> rmap f l = Ok bs -> exists cs, rmap f k = Ok cs /\ bs ≡ₚ cs.
Proof.
  intros Hp. rewrite rmap_Ok. intros H.
  destruct (Permutation_Forall2 Hp H) as (cs & Hc & Hf). exists cs. by rewrite rmap_Ok.
Qed.

Lemma sorted_gaps_perm (l k : list PayloadGap) :
  l ≡ₚ k -> Forall payload_gap_valid l ->
  existsb overlapping (windows2 (sort_by payload_gap_leb l)) = false ->
  sort_by payload_gap_leb l = sort_by payload_gap_leb k.
Proof.
  intros Hp Hv Hw.
  pose proof (sort_by_Sorted payload_gap_leb payload_gap_leb_total payload_gap_leb_trans l) as Hs.
  apply (windows2_Sorted _ _ _ Hs) in Hw.
  set (T x y := str_ltb (pg_stream x) (pg_stream y) = true \/
                pg_stream x = pg_stream y /\ pg_first x < pg_first y /\ pg_last x < pg_first y
                /\ pg_first y <= pg_last y).
  assert (HT : StronglySorted T (sort_by payload_gap_leb l)).
  { apply Sorted_StronglySorted.
    - unfold T. intros x y z [H1|(E1 & H1)] [H2|(E2 & H2)].
      + left. by eapply str_ltb_trans.
      + left. by rewrite <- E2.
      + left. by rewrite E1.
      + right. split; [congruence|lia].
    - eapply Sorted_weaken; [|exact Hw]. intros x y Hx Hy [Hle Hne].
      rewrite sort_by_Permutation in Hx, Hy. rewrite Forall_forall in Hv.
      pose proof (Hv x Hx) as Vx. pose proof (Hv y Hy) as Vy. unfold payload_gap_valid in Vx, Vy.
      unfold T, leb_rel, payload_gap_leb, overlapping in *. simpl in Hne. bools_in Hle. bools_in Hne.
      destruct Hle as [?|[E Hle]]; [by left|]. right. destruct Hne as [?|?]; [done|].
      split; [done|lia]. }
  apply sort_by_canonical; [apply payload_gap_leb_total|apply payload_gap_leb_trans| |done].
  intros x y Hx Hy H1 H2.
  apply (strict_sorted_key_inj T (fun g => (pg_stream g, pg_first g)) (sort_by payload_gap_leb l));
    rewrite ?sort_by_Permutation; try done.
  - unfold T. intros a b [Hab|Hab] [= Es Ef]; [by rewrite Es, str_ltb_irrefl in Hab|lia].
  - unfold payload_gap_leb in H1, H2. bools_in H1. bools_in H2.
    destruct H1 as [H1|[E1 H1]], H2 as [H2|[E2 H2]].
    + pose proof (str_ltb_trans _ _ _ H1 H2) as H. by rewrite str_ltb_irrefl in H.
    + by rewrite E2, str_ltb_irrefl in H1.
    + by rewrite E1, str_ltb_irrefl in H2.
    + f_equal; [done|lia].
Qed.

(** ** What the digest covers *)

#[global] Instance PayloadGap_eq_dec : EqDecision PayloadGap.
Proof. solve_decision. Defined.

#[global] Instance Payload_eq_dec : EqDecision Payload.
Proof. solve_decision. Defined.

Lemma reason_code (x : Z) (r : FailureReason.t) : FailureReason.try_from x = Some r -> x = FailureReason.to_i32 r.
Proof. unfold FailureReason.try_from. intros H. repeat case_match; by simplify_eq. Qed.

(** The metrics kept are those of the document. *)
Lemma visit_map_lookup (entries : list (string * string)) (values m : gmap string string) :
  visit_map values entries = Some m ->
  forall k v, m !! k = Some v <->
    values !! k = Some v \/ exists raw, (k, raw) ∈ entries /\ metric_value raw = Some v.
Proof.
  revert values. induction entries as [|[key raw] rest IH]; intros values Hm k v; cbn [visit_map] in Hm.
  { injection Hm as ->. split; [by left|]. intros [?|(raw & Hin & _)]; [done|]. by apply elem_of_nil in Hin. }
  destruct (_ || bool_decide _) eqn:Hguard; [done|]. apply orb_false_iff in Hguard as [_ Hnew].
  apply bool_decide_eq_false, eq_None_not_Some in Hnew.
  destruct (metric_value raw) as [v0|] eqn:Hv0; [|done]. cbn in Hm. rewrite (IH _ Hm k v), lookup_insert_Some.
  setoid_rewrite elem_of_cons. split.
  - intros [[[-> ->]|[_ ?]]|(raw' & Hin & Hv)]; [right; exists raw; auto|by left|right; exists raw'; auto].
  - intros [Hk|(raw' & [[= -> ->]|Hin] & Hv)].
    + left. right. split; [|done]. intros ->. congruence.
    + left. left. split; [done|congruence].
    + right. by exists raw'.
Qed.

Section DigestOrder.
Context (sha256 : bytes -> bytes).
Context (json_entries : bytes -> option (list (string * string))).
Context (to_vec : Payload -> option bytes).

(** Two requests that carry the same evidence under another name and order. *)
Record same_evidence (r r' : CompleteAttemptRequest) : Prop := {
  se_authority : ca_authority r' = ca_authority r;
  se_exit : ca_exit_code r' = ca_exit_code r;
  se_reason : ca_reason r' = ca_reason r;
  se_stopped : ca_stopped r' = ca_stopped r;
  se_outputs : ca_outputs r ≡ₚ ca_outputs r';
  se_logs : ca_logs_complete r' = ca_logs_complete r;
  se_gaps : ca_gaps r ≡ₚ ca_gaps r';
  se_metrics : ca_metrics_json r' = ca_metrics_json r;
}.

(** The mark of the metrics document in the payload. *)
Definition source_mark (r : CompleteAttemptRequest) : string :=
  if bool_decide (ca_metrics_json r = []) then EmptyString else hex (sha256 (ca_metrics_json r)).

(** A gap of the payload is a gap of the request, its stream by name. *)
Definition names_gap (g : LogGap) (p : PayloadGap) : Prop :=
  pg_first p = lg_first_sequence g /\ pg_last p = lg_last_sequence g
  /\ ((lg_stream g = 1%Z /\ pg_stream p = "stdout"%string) \/ (lg_stream g = 2%Z /\ pg_stream p = "stderr"%string)).

(** The payload holds all the evidence of the request. *)
Record holds_evidence (r : CompleteAttemptRequest) (p : Payload) : Prop := {
  he_authority : ca_authority r = Some (pl_authority p);
  he_exit : pl_exit_code p = ca_exit_code r;
  he_reason : exists reason, ca_reason r = FailureReason.to_i32 reason
    /\ pl_reason p = (if bool_decide (reason = FailureReason.Unspecified) then EmptyString
                      else FailureReason.as_str_name reason);
  he_stopped : pl_stopped p = ca_stopped r;
  he_outputs : pl_outputs p ≡ₚ ca_outputs r;
  he_logs : pl_logs_complete p = ca_logs_complete r;
  he_gaps : exists gaps, pl_gaps p ≡ₚ gaps /\ Forall2 names_gap (ca_gaps r) gaps;
  he_metrics : (ca_metrics_json r = [] /\ pl_metrics p = ∅)
    \/ exists entries, json_entries (ca_metrics_json r) = Some entries
         /\ forall k v, pl_metrics p !! k = Some v <-> exists raw, (k, raw) ∈ entries /\ metric_value raw = Some v;
  he_source : pl_metrics_source_sha256 p = source_mark r;
}.

(** The digest hashes that payload, in the domain of completions. *)
Definition digests (r : CompleteAttemptRequest) (p : Payload) (d : string) : Prop :=
  holds_evidence r p
  /\ exists body, to_vec p = Some body
       /\ d = hex (sha256 (str_bytes "dispatch.worker.v1.CompleteAttempt" ++ ["010"]%byte ++ body)).

Lemma names_payload_gap (g : LogGap) (p : PayloadGap) : payload_gap g = Ok p -> names_gap g p.
Proof.
  unfold payload_gap, names_gap. intros H.
  destruct (LogStream.try_from (lg_stream g)) as [s|] eqn:Hs; [|done].
  assert (Hcode : lg_stream g = LogStream.to_i32 s)
    by (revert Hs; unfold LogStream.try_from; intros Hs; repeat case_match; by simplify_eq).
  destruct s; cbn [rbind] in H; try done; destruct (_ || _); try done; injection H as <-; auto.
Qed.

Lemma completion_digest_Ok (r : CompleteAttemptRequest) (d : string) :
  completion_digest sha256 json_entries to_vec r = Ok d -> exists p, digests r p d.
Proof.
  unfold completion_digest. intros H. apply rbind_Ok_inv in H as (a & Ha & H).
  destruct (existsb _ [_; _; _; _; _] || _ || _ || _ || _ || _ || _); [done|].
  apply rbind_Ok_inv in H as (reason & Hr & H). apply rbind_Ok_inv in H as ([ids outs] & Hout & H).
  destruct (push_outputs_perm _ _ _ (reflexivity (ca_outputs r)) Hout) as (_ & _ & Heq). cbn in Heq. subst outs.
  destruct (existsb same_name _ || _); [done|]. apply rbind_Ok_inv in H as (gs & Hgs & H).
  destruct (existsb overlapping _); [done|]. apply rbind_Ok_inv in H as (metrics & Hm & H).
  apply rbind_Ok_inv in H as (body & Hbody & H). injection H as <-.
  match type of Hbody with ok_or (to_vec ?payload) _ = _ => exists payload end.
  split; [|exists body; split; [by apply ok_or_Ok_inv in Hbody|done]].
  split; cbn [pl_authority pl_exit_code pl_reason pl_stopped pl_outputs pl_logs_complete pl_gaps pl_metrics
    pl_metrics_source_sha256]; try done.
  - by apply ok_or_Ok_inv in Ha.
  - unfold check_reason in Hr. destruct (FailureReason.try_from (ca_reason r)) as [x|] eqn:Hx; [|done].
    cbn [ok_or rbind] in Hr. destruct (_ || _); [done|]. injection Hr as ->. exists reason. split; [by apply reason_code|done].
  - apply sort_by_Permutation.
  - exists gs. split; [apply sort_by_Permutation|]. apply rmap_Ok in Hgs. eapply Forall2_impl; [exact Hgs|].
    intros; by apply names_payload_gap.
  - clear Hbody. case_bool_decide as He; [left; split; [done|congruence]|right]. unfold parse_metrics in Hm.
    destruct (json_entries (ca_metrics_json r)) as [entries|]; [|done]. cbn in Hm. exists entries. split; [done|].
    destruct (visit_map ∅ entries) as [m|] eqn:Hv; [|done]. cbn in Hm. injection Hm as <-. intros k v.
    rewrite (visit_map_lookup _ _ _ Hv), lookup_empty. naive_solver.
Qed.

Lemma completion_digest_same (r r' : CompleteAttemptRequest) (d : string) :
  same_evidence r r' -> canonical_uuid (ca_completion_id r') = true ->
  completion_digest sha256 json_entries to_vec r = Ok d ->
  completion_digest sha256 json_entries to_vec r' = Ok d.
Proof.
  intros [Ha He Hr Hs Ho Hl Hg Hm] Hid H. unfold completion_digest in *.
  rewrite Ha, He, Hl, Hm, Hs in *.
  apply rbind_Ok_inv in H as (a & -> & H). cbn [ok_or rbind].
  assert (Hlo : len (ca_outputs r') = len (ca_outputs r)) by (unfold len; by rewrite Ho).
  assert (Hlg : len (ca_gaps r') = len (ca_gaps r)) by (unfold len; by rewrite Hg).
  rewrite Hlo, Hlg. cbn [existsb] in *. rewrite Hid.
  destruct (canonical_uuid (ca_completion_id r)); [|destruct (_ || _) eqn:Eg in H; [done|];
    by rewrite !orb_true_r in Eg].
  destruct (_ || _) in *; [done|].
  assert (Hcr : check_reason r' = check_reason r) by (unfold check_reason; by rewrite Hr, He, Hs).
  rewrite Hcr. destruct (check_reason r) as [reason|]; [|done]. cbn [rbind] in *.
  apply rbind_Ok_inv in H as ([ids outs] & Hout & H).
  destruct (push_outputs_perm _ _ _ Ho Hout) as (ids' & -> & Heq). simpl in Heq. subst outs.
  cbn [rbind].
  destruct (existsb same_name (windows2 (sort_by output_leb (ca_outputs r)))) eqn:Ew; [done|].
  rewrite <- (sorted_outputs_perm _ _ Ho Ew), Ew. simpl in *.
  assert (Hgn : bool_decide (ca_gaps r' = []) = bool_decide (ca_gaps r = [])).
  { apply bool_decide_ext. split; intros E; rewrite E in Hg;
      [by apply Permutation_nil_r in Hg|by apply Permutation_nil_l in Hg]. }
  rewrite Hgn. destruct (_ && _); [done|].
  apply rbind_Ok_inv in H as (gs & Hgs & H).
  destruct (rmap_perm _ _ _ _ Hg Hgs) as (gs' & -> & Hp). cbn [rbind].
  destruct (existsb overlapping (windows2 (sort_by payload_gap_leb gs))) eqn:Eo; [done|].
  assert (Hv : Forall payload_gap_valid gs).
  { apply rmap_Ok in Hgs. apply Forall_forall. intros x Hx.
    apply list_elem_of_lookup in Hx as [n Hn].
    eapply Forall2_lookup_r in Hgs as (y & _ & Hy); [|done]. by eapply payload_gap_Ok_valid. }
  rewrite <- (sorted_gaps_perm _ _ Hp Hv Eo), Eo. done.
Qed.

(** ** What the digest tells apart *)

Lemma reason_text_inj (a b : FailureReason.t) :
  (if bool_decide (a = FailureReason.Unspecified) then EmptyString else FailureReason.as_str_name a)
  = (if bool_decide (b = FailureReason.Unspecified) then EmptyString else FailureReason.as_str_name b) -> a = b.
Proof. by destruct a, b. Qed.

Lemma names_gap_inj (g g' : LogGap) (p : PayloadGap) : names_gap g p -> names_gap g' p -> g = g'.
Proof.
  intros (Hf & Hl & Hs) (Hf' & Hl' & Hs'). destruct g, g'; cbn in *. f_equal; try congruence.
  destruct Hs as [[-> Hs]|[-> Hs]], Hs' as [[-> Hs']|[-> Hs']]; congruence.
Qed.

Lemma named_gaps_perm (l l' : list LogGap) (gs gs' : list PayloadGap) :
  Forall2 names_gap l gs -> Forall2 names_gap l' gs' -> gs ≡ₚ gs' -> l ≡ₚ l'.
Proof.
  intros Hl Hl' Hp. apply Forall2_flip in Hl. destruct (Permutation_Forall2 Hp Hl) as (k & Hk & Hf).
  rewrite Hk. enough (k = l') as -> by done. apply Forall2_flip in Hf. clear Hl Hk Hp. revert l' Hl'.
  induction Hf as [|g p k gs' Hg Hf IH]; intros l' Hl'; [by apply Forall2_nil_inv_r in Hl'|].
  apply Forall2_cons_inv_r in Hl' as (g' & k' & Hg' & Hk' & ->). f_equal; [by eapply names_gap_inj|by apply IH].
Qed.

Lemma evidence_of_payload (r r' : CompleteAttemptRequest) (p : Payload) :
  holds_evidence r p -> holds_evidence r' p -> ca_metrics_json r = ca_metrics_json r' -> same_evidence r r'.
Proof.
  intros [Ha He (x & Hx & Hr) Hs Ho Hl (gs & Hg & Hf) _ _] [Ha' He' (x' & Hx' & Hr') Hs' Ho' Hl' (gs' & Hg' & Hf') _ _] Hm.
  split; try congruence.
  - rewrite Hx, Hx'. f_equal. apply reason_text_inj. congruence.
  - by rewrite <- Ho, <- Ho'.
  - eapply named_gaps_perm; [exact Hf|exact Hf'|]. by rewrite <- Hg, <- Hg'.
Qed.

(** C23: the completion digest identifies the evidence, not its presentation.  It
    is the hash of a payload that holds the authority, the exit code, the reason, the
    stop, every output, every gap and every metric of the request.  A request with
    the same evidence, whatever its completion id, claimed digest and the order of
    its outputs and gaps, has the same digest.  A request with the same digest has the
    same evidence, or the two exhibit a collision: two payloads of theirs with one
    digest, or two metrics documents with one mark. *)
Theorem completion_digest_ignores_presentation (r r' : CompleteAttemptRequest) (d : string) :
  completion_digest sha256 json_entries to_vec r = Ok d -> canonical_uuid (ca_completion_id r') = true ->
  (exists p, digests r p d)
  /\ (same_evidence r r' -> completion_digest sha256 json_entries to_vec r' = Ok d)
  /\ (completion_digest sha256 json_entries to_vec r' = Ok d ->
      same_evidence r r'
      \/ (exists p p', digests r p d /\ digests r' p' d /\ p <> p')
      \/ (ca_metrics_json r <> ca_metrics_json r' /\ source_mark r = source_mark r')).
Proof.
  intros Hd Hid. destruct (completion_digest_Ok r d Hd) as (p & Hp). split_and!; [by exists p|..].
  - intros Hs. by eapply completion_digest_same.
  - intros (p' & Hp')%completion_digest_Ok. destruct (decide (p = p')) as [<-|Hne]; [|right; left; by exists p, p'].
    destruct Hp as [Hh _], Hp' as [Hh' _].
    destruct (decide (ca_metrics_json r = ca_metrics_json r')) as [Hm|Hm]; [left; by eapply evidence_of_payload|].
    right. right. split; [done|]. by rewrite <- (he_source _ _ Hh), <- (he_source _ _ Hh').
Qed.
End DigestOrder.

Definition sum_digest : bytes -> bytes :=
  fun l => to_be_bytes 32 (fold_left (fun acc b => acc * 31 + byte_val b) l 7).

Definition plain_payload : Payload -> option bytes :=
  fun p => Some (str_bytes (pl_reason p) ++ concat (map (fun o => str_bytes (or_name o)) (pl_outputs p))
                 ++ map (fun g => byte_of_N (pg_first g)) (pl_gaps p)).

Definition completion_fixture (id : string) (outputs : list OutputReference) (gaps : list LogGap)
  : CompleteAttemptRequest :=
  {| ca_authority := Some {| aa_job_id := "00000000-0000-0000-0000-000000000004";
                             aa_attempt_id := "00000000-0000-0000-0000-000000000005";
                             aa_generation := 1;
                             aa_worker_id := "00000000-0000-0000-0000-000000000001";
                             aa_session_id := "00000000-0000-0000-0000-000000000002" |};
     ca_completion_id := id; ca_payload_sha256 := EmptyString; ca_exit_code := Some 0%Z;
     ca_reason := 0; ca_stopped := true; ca_outputs := outputs; ca_logs_complete := false;
     ca_gaps := gaps; ca_metrics_json := [] |}.

Definition out_a : OutputReference :=
  {| or_name := "alpha"; or_artifact_id := "00000000-0000-0000-0000-00000000000a" |}.
Definition out_b : OutputReference :=
  {| or_name := "beta"; or_artifact_id := "00000000-0000-0000-0000-00000000000b" |}.
Definition gap_a : LogGap := {| lg_stream := 1; lg_first_sequence := 2; lg_last_sequence := 3 |}.
Definition gap_b : LogGap := {| lg_stream := 2; lg_first_sequence := 1; lg_last_sequence := 1 |}.

Lemma completion_digest_ignores_presentation_witness :
  completion_digest sum_digest (fun _ => Some []) plain_payload
    (completion_fixture "00000000-0000-0000-0000-000000000007" [out_b; out_a] [gap_b; gap_a])
  = completion_digest sum_digest (fun _ => Some []) plain_payload
    (completion_fixture "00000000-0000-0000-0000-000000000006" [out_a; out_b] [gap_a; gap_b]).
Proof.
  destruct (completion_digest sum_digest (fun _ => Some []) plain_payload
    (completion_fixture "00000000-0000-0000-0000-000000000006" [out_a; out_b] [gap_a; gap_b]))
    as [d|e] eqn:E; [|exfalso; vm_compute in E; discriminate].
  apply (completion_digest_ignores_presentation sum_digest (fun _ => Some []) plain_payload
    (completion_fixture "00000000-0000-0000-0000-000000000006" [out_a; out_b] [gap_a; gap_b])
    (completion_fixture "00000000-0000-0000-0000-000000000007" [out_b; out_a] [gap_b; gap_a])).
  - exact E.
  - vm_compute. reflexivity.
  - split; try reflexivity; apply Permutation_swap.
Defined.

(** Only an accepted success acknowledges a result, and only this one.  A
    response that passes validation as ACCEPTED reports the state this request's
    reason implies; if that is success, its manifest names this request's exact
    authority, exit code 0 and exactly its outputs; in every other case it carries
    no manifest at all. *)
Theorem acknowledgement_binds_the_request (parse : bytes -> option Manifest)
  (request : CompleteAttemptRequest) (response : CompleteAttemptResponse) (st : CompletionStatus) :
  validate_response parse request response = Ok st ->
  (st_decision st = Decision_.Accepted -> expected_state (ca_reason request) = Some (st_state st)) /\
  (st_decision st = Decision_.Accepted -> st_state st = AttemptState.Succeeded ->
     exists m, parse (st_manifest st) = Some m /\ ca_authority request = Some (mf_authority m) /\
       mf_outputs m ≡ₚ ca_outputs request /\ mf_exit_code m = Some 0%Z /\
       mf_cleanup_pending m = false) /\
  (st_decision st <> Decision_.Accepted \/ st_state st <> AttemptState.Succeeded ->
     st_manifest st = []).
Proof.
  unfold validate_response. intros H.
  apply rbind_Ok_inv in H as (decision & _ & H). apply rbind_Ok_inv in H as (state & _ & H).
  apply rbind_Ok_inv in H as (expected & Hexp & H). apply ok_or_Ok_inv in Hexp.
  destruct (negb _) eqn:Hv; [done|]. apply negb_false_iff in Hv.
  apply rbind_Ok_inv in H as ([] & Hm & H). apply Ok_inj in H as <-. cbn [st_decision st_state st_manifest].
  split_and!.
  - intros ->. apply bool_decide_eq_true in Hv as ->. done.
  - intros -> ->. rewrite !bool_decide_true in Hm by done. cbn [andb] in Hm.
    unfold validate_manifest in Hm. guards. bools.
    match goal with H : parse _ = Some ?m |- _ => exists m; split; [done|] end.
    match goal with H : ca_authority request = Some ?a |- _ => rename a into au; rename H into Hau end.
    split.
    { rewrite Hau. f_equal. destruct au, (mf_authority x). simpl in *. naive_solver congruence. }
    split; [|naive_solver]. rewrite <- (sort_by_Permutation output_full_leb (mf_outputs x)).
    match goal with H : sort_by _ _ = _ |- _ => rewrite H end. apply sort_by_Permutation.
  - intros Hor. destruct (_ && _) eqn:Ed.
    { bools. naive_solver. }
    guards. bools. done.
Qed.

Definition manifest_fixture : Manifest :=
  {| mf_version := 1;
     mf_authority := {| aa_job_id := "00000000-0000-0000-0000-000000000004";
                        aa_attempt_id := "00000000-0000-0000-0000-000000000005";
                        aa_generation := 1;
                        aa_worker_id := "00000000-0000-0000-0000-000000000001";
                        aa_session_id := "00000000-0000-0000-0000-000000000002" |};
     mf_state := "SUCCEEDED"; mf_exit_code := Some 0%Z; mf_reason := EmptyString;
     mf_cleanup_pending := false; mf_outputs := [out_b; out_a] |}.

Lemma acknowledgement_binds_the_request_witness :
  exists m, Some manifest_fixture = Some m /\
    ca_authority (completion_fixture "00000000-0000-0000-0000-000000000006" [out_a; out_b] [])
    = Some (mf_authority m) /\
    mf_outputs m ≡ₚ [out_a; out_b] /\ mf_exit_code m = Some 0%Z /\ mf_cleanup_pending m = false.
Proof.
  exact (proj1 (proj2 (acknowledgement_binds_the_request (fun _ => Some manifest_fixture)
    (completion_fixture "00000000-0000-0000-0000-000000000006" [out_a; out_b] [])
    {| cs_decision := 1; cs_state := 5; cs_accepted_manifest_json := str_bytes " {}" |}
    {| st_decision := Decision_.Accepted; st_state := AttemptState.Succeeded;
       st_manifest := str_bytes " {}" |} ltac:(vm_compute; reflexivity))) eq_refl eq_refl).
Defined.
