(* ===== verification/RecordStore.v ===== *)
(** What the journal relies on of its record directory: the errors and limits
    of [rust/worker/src/journal.rs], and the interface of [files::Directory] as
    a class of operations with its laws.  The journal's theorems are proved
    against the laws; [JournalFiles] proves them of the directory. *)

From S2P Require Import Prelude Os.

Module JournalError.
Inductive t : Type :=
| Invalid | Identity | Conflict | Corrupt | UnsafePath | Busy | Limit | Poisoned | Random
| Io (kind : ErrorKind).

#[global] Instance eq_dec : EqDecision t.
Proof. solve_decision. Defined.
End JournalError.

Record JournalLimits := {
  jl_max_attempts : N;
  jl_max_bytes : N;
}.

(** [JournalLimits::default]. *)
Definition default_limits : JournalLimits :=
  {| jl_max_attempts := 4096; jl_max_bytes := 268435456 |}.

(** Named records read and replaced one at a time. *)
Class RecordStore (S : Type) := {
  rs_read : string -> st S JournalError.t (option bytes);
  rs_write : string -> bytes -> st S JournalError.t unit;
  rs_inventory : st S JournalError.t (list (string * N));
}.

(** [rs_lookup] is the record a name currently holds.  Reading returns it and
    changes nothing; a write that succeeds replaces exactly the named record;
    one that fails leaves every other record and, for the named one, the old or
    the new content.  An inventory misses no attempt. *)
Class RecordStoreLaws (S : Type) {ops : RecordStore S} := {
  rs_lookup : S -> string -> option bytes;
  rs_name : string -> Prop;
  rs_inv : S -> Prop;
  rs_read_spec : forall n s r s', rs_inv s -> rs_name n -> rs_read n s = (r, s') ->
    rs_inv s' /\ (forall m, rs_lookup s' m = rs_lookup s m)
    /\ (forall o, r = Ok o -> o = rs_lookup s n);
  rs_inventory_spec : forall s r s', rs_inv s -> rs_inventory s = (r, s') ->
    rs_inv s' /\ (forall m, rs_lookup s' m = rs_lookup s m);
  rs_inventory_lists : forall s l s' id, rs_inv s -> rs_inventory s = (Ok l, s') ->
    is_Some (rs_lookup s (id +:+ ".attempt")) -> id ∈ l.*1;
  rs_write_spec : forall n b s r s', rs_inv s -> rs_name n -> rs_write n b s = (r, s') ->
    rs_inv s' /\ (forall m, m <> n -> rs_lookup s' m = rs_lookup s m)
    /\ match r with
       | Ok _ => rs_lookup s' n = Some b
       | Err _ => rs_lookup s' n = rs_lookup s n \/ rs_lookup s' n = Some b
       end;
}.
