(* ===== verification/JournalFiles.v ===== *)
(** The private record directory of the worker journal
    ([rust/worker/src/journal/files.rs]): framed files replaced atomically, a
    lock, an inventory with limits, and a writer that is poisoned by the first
    failed replacement.

    The disk is modelled with what a crash may do to it: [dk_view] is what the
    process sees, [dk_safe] the directory as of its last synchronisation, and a
    file whose data was not synchronised may hold anything after a crash.  What
    the operating system answers is a field of [fs_env]; the [n]-th operation
    on a directory takes its answers from [di_os n]. *)

From S2P Require Import Prelude Strings Protocol Lease Control Os RecordStore.
Open Scope N_scope.

Definition MAX_PAYLOAD : N := 5242880.
Definition HEADER : N := 48.
Definition MAX_SESSION : N := 65536.
Definition MAGIC : bytes := str_bytes "DSPJNL01".

(** * The disk *)

Record file := {
  fl_content : bytes;
  fl_synced : bool;
}.

Abbreviation tree := (gmap string file).

Record Disk := {
  dk_view : tree;
  dk_safe : tree;
}.

Definition PENDING : string := ".pending".

(** The effects of the system calls that succeed. *)
Definition set_view (v : tree) (d : Disk) : Disk := {| dk_view := v; dk_safe := dk_safe d |}.

Definition sync_directory (d : Disk) : Disk := {| dk_view := dk_view d; dk_safe := dk_view d |}.

Definition write_file (name : string) (content : bytes) (d : Disk) : Disk :=
  set_view (<[name := {| fl_content := content; fl_synced := false |}]> (dk_view d)) d.

Definition sync_file (name : string) (d : Disk) : Disk :=
  set_view (alter (fun f => {| fl_content := fl_content f; fl_synced := true |}) name (dk_view d)) d.

Definition rename (from to : string) (d : Disk) : Disk :=
  match dk_view d !! from with
  | Some f => set_view (<[to := f]> (delete from (dk_view d))) d
  | None => d
  end.

Definition remove_file (name : string) (d : Disk) : Disk := set_view (delete name (dk_view d)) d.

(** A crash: each name shows its entry of the view or of the last directory
    synchronisation; data that was not synchronised may be anything. *)
Definition survives (before after : option file) : Prop :=
  match before with
  | None => after = None
  | Some f =>
      exists g, after = Some g /\ fl_synced g = true
        /\ (fl_synced f = true -> fl_content g = fl_content f)
  end.

Record crash (d d' : Disk) : Prop := {
  crash_entry : forall n,
    survives (dk_view d !! n) (dk_view d' !! n) \/ survives (dk_safe d !! n) (dk_view d' !! n);
  crash_settled : dk_safe d' = dk_view d';
}.

(** * The operating system's answers *)

(** [symlink_metadata]: attributes of an entry; the size is that of its content. *)
Record fs_env := {
  fe_euid : N;
  fe_root : result ErrorKind (Metadata * (N * N));
  fe_opened : result ErrorKind (N * N);
  fe_readdir : io;
  fe_entry : string -> io;
  fe_stat : string -> result ErrorKind Metadata;
  fe_open : string -> io;
  fe_fstat : string -> result ErrorKind Metadata;
  fe_read : string -> io;
  fe_create : io;
  fe_write : result (ErrorKind * nat) unit;
  fe_sync : io;
  fe_rename : io;
  fe_dirsync : io;
}.

Definition with_size (n : N) (m : Metadata) : Metadata :=
  {| is_file := is_file m; is_dir := is_dir m; uid := uid m; mode := mode m; nlink := nlink m;
     st_size := n |}.

Definition symlink_metadata (os : fs_env) (d : Disk) (name : string) : result ErrorKind Metadata :=
  match dk_view d !! name with
  | None => Err NotFound
  | Some f => let? m := fe_stat os name in Ok (with_size (len (fl_content f)) m)
  end.

Definition metadata_safe (euid : N) (m : Metadata) (directory : bool) : result JournalError.t unit :=
  if negb (uid m =? euid)
     || negb (N.land (mode m) 511 =? if directory then 448 else 384)
     || (directory && negb (is_dir m))
     || (negb directory && (negb (is_file m) || negb (nlink m =? 1)))
  then Err JournalError.UnsafePath
  else Ok tt.

(** * The directory *)

Record Directory := {
  di_limits : JournalLimits;
  di_poisoned : bool;
  di_disk : Disk;
  di_os : nat -> fs_env;
  di_now : nat;
}.

Definition healthy (os : fs_env) (poisoned : bool) : result JournalError.t unit :=
  if poisoned then Err JournalError.Poisoned
  else
    let? '(actual, id) := map_err JournalError.Io (fe_root os) in
    let? _ := metadata_safe (fe_euid os) actual true in
    let? opened := map_err JournalError.Io (fe_opened os) in
    if negb (id.1 =? opened.1) || negb (id.2 =? opened.2) then Err JournalError.UnsafePath
    else Ok tt.

Definition attempt_id_of (name : string) : option string :=
  match strip_suffix ".attempt" name with
  | Some id => if canonical_uuid id then Some id else None
  | None => None
  end.

(** The body of the loop of [inventory] over the directory entries. *)
Definition inventory_entry (os : fs_env) (d : Disk) (limits : JournalLimits)
  (acc : list (string * N) * N) (name : string) : result JournalError.t (list (string * N) * N) :=
  let? _ := map_err JournalError.Io (fe_entry os name) in
  if bool_decide (name = ".lock"%string) || bool_decide (name = ".identity"%string) then Ok acc
  else if bool_decide (name = ".project-ids"%string) then
    let? m := map_err JournalError.Io (symlink_metadata os d name) in
    let? _ := metadata_safe (fe_euid os) m false in
    if negb (st_size m =? 8 + HEADER) then Err JournalError.Corrupt else Ok acc
  else if bool_decide (name = ".session"%string) then
    let? m := map_err JournalError.Io (symlink_metadata os d name) in
    let? _ := metadata_safe (fe_euid os) m false in
    if MAX_SESSION + HEADER <? st_size m then Err JournalError.Corrupt else Ok acc
  else
    let? id := ok_or (attempt_id_of name) JournalError.Corrupt in
    let? m := map_err JournalError.Io (symlink_metadata os d name) in
    let? _ := metadata_safe (fe_euid os) m false in
    if MAX_PAYLOAD + HEADER <? st_size m then Err JournalError.Corrupt
    else
      let? total := ok_or (u64_checked_add acc.2 (st_size m)) JournalError.Limit in
      let records := acc.1 ++ [(id, st_size m)] in
      if (jl_max_attempts limits <? len records) || (jl_max_bytes limits <? total)
      then Err JournalError.Limit
      else Ok (records, total).

Definition record_leb (a b : string * N) : bool := str_leb a.1 b.1.

Definition inventory_of (os : fs_env) (poisoned : bool) (d : Disk) (limits : JournalLimits)
  : result JournalError.t (list (string * N)) :=
  let? _ := healthy os poisoned in
  let? _ := map_err JournalError.Io (fe_readdir os) in
  let? acc := rfold (inventory_entry os d limits) ([], 0) (map_to_list (dk_view d)).*1 in
  Ok (sort_by record_leb acc.1).

Section Frames.
Context (sha256 : bytes -> bytes).

(** The bytes [replace] writes and their reading. *)
Definition frame (payload : bytes) : bytes :=
  MAGIC ++ to_be_bytes 8 (len payload) ++ sha256 payload ++ payload.

(** [file.take(n).read_to_end]: at most the first [n] bytes. *)
Definition take_limit (n : N) (content : bytes) : bytes :=
  if len content <=? n then content else take (N.to_nat n) content.

Definition parse_frame (content : bytes) : result JournalError.t bytes :=
  let bytes := take_limit (MAX_PAYLOAD + HEADER + 1) content in
  if (len bytes <? HEADER) || (MAX_PAYLOAD + HEADER <? len bytes)
     || negb (bool_decide (take 8 bytes = MAGIC))
  then Err JournalError.Corrupt
  else
    let length := from_be_bytes (take 8 (drop 8 bytes)) in
    let body := drop 48 bytes in
    if negb (length =? len body) || negb (bool_decide (sha256 body = take 32 (drop 16 bytes)))
    then Err JournalError.Corrupt
    else Ok body.

Definition read_record (os : fs_env) (poisoned : bool) (d : Disk) (name : string)
  : result JournalError.t (option bytes) :=
  let? _ := healthy os poisoned in
  match symlink_metadata os d name with
  | Err NotFound => Ok None
  | Err e => Err (JournalError.Io e)
  | Ok m =>
      let? _ := metadata_safe (fe_euid os) m false in
      let? _ := map_err JournalError.Io (fe_open os name) in
      let? opened := map_err JournalError.Io (fe_fstat os name) in
      let? _ := metadata_safe (fe_euid os) opened false in
      let? _ := map_err JournalError.Io (fe_read os name) in
      let? f := ok_or (dk_view d !! name) (JournalError.Io NotFound) in
      let? body := parse_frame (fl_content f) in
      Ok (Some body)
  end.

(** [replace], as the sequence of its system calls on the disk.  A failed call
    leaves the effects of the calls before it; a failed write leaves a prefix. *)
Definition sys (r : io) (effect : Disk -> Disk) : st Disk JournalError.t unit :=
  fun d => match r with
           | Ok _ => (Ok tt, effect d)
           | Err e => (Err (JournalError.Io e), d)
           end.

Definition create_pending (os : fs_env) : st Disk JournalError.t unit :=
  fun d => match dk_view d !! PENDING with
           | Some _ => (Err (JournalError.Io AlreadyExists), d)
           | None => sys (fe_create os) (write_file PENDING []) d
           end.

Definition write_pending (os : fs_env) (content : bytes) : st Disk JournalError.t unit :=
  fun d => match fe_write os with
           | Ok _ => (Ok tt, write_file PENDING content d)
           | Err (e, n) => (Err (JournalError.Io e), write_file PENDING (take n content) d)
           end.

Definition replace (os : fs_env) (name : string) (payload : bytes) : st Disk JournalError.t unit :=
  let! _ := create_pending os in
  let! _ := write_pending os (frame payload) in
  let! _ := sys (fe_sync os) (sync_file PENDING) in
  let! _ := sys (fe_rename os) (rename PENDING name) in
  let! _ := sys (fe_dirsync os) sync_directory in
  st_ret tt.

(** The operations of [Directory]; each takes the answers of its own tick. *)
Definition step_to (s : Directory) (d : Disk) (poisoned : bool) : Directory :=
  {| di_limits := di_limits s; di_poisoned := poisoned; di_disk := d; di_os := di_os s;
     di_now := S (di_now s) |}.

Definition query {A : Type} (f : fs_env -> result JournalError.t A) (s : Directory)
  : result JournalError.t A * Directory :=
  (f (di_os s (di_now s)), step_to s (di_disk s) (di_poisoned s)).

Definition inventory : st Directory JournalError.t (list (string * N)) :=
  fun s => query (fun os => inventory_of os (di_poisoned s) (di_disk s) (di_limits s)) s.

Definition read (name : string) : st Directory JournalError.t (option bytes) :=
  fun s => query (fun os => read_record os (di_poisoned s) (di_disk s) name) s.

(** The limits [write] enforces for attempt records. *)
Definition over_limit (limits : JournalLimits) (records : list (string * N)) (name : string)
  (payload : bytes) : bool :=
  match strip_suffix ".attempt" name with
  | None => false
  | Some id =>
      let old := List.find (fun r => bool_decide (r.1 = id)) records in
      let total := foldr (fun r acc => u64_add r.2 acc) 0 records in
      (match old with None => true | Some _ => false end
       && (jl_max_attempts limits <=? len records))
      || (jl_max_bytes limits
          <? u64_add (u64_sub total (match old with Some r => r.2 | None => 0 end))
               (len payload + HEADER))
  end.

Definition write (name : string) (payload : bytes) : st Directory JournalError.t unit :=
  fun s =>
    let os := di_os s (di_now s) in
    let same := step_to s (di_disk s) (di_poisoned s) in
    match
      (let? _ := healthy os (di_poisoned s) in
       if MAX_PAYLOAD <? len payload then Err JournalError.Limit
       else
         let? records := inventory_of os (di_poisoned s) (di_disk s) (di_limits s) in
         if over_limit (di_limits s) records name payload then Err JournalError.Limit else Ok tt)
    with
    | Err e => (Err e, same)
    | Ok _ =>
        match replace os name payload (di_disk s) with
        | (Ok _, d) => (Ok tt, step_to s d (di_poisoned s))
        | (Err e, d) => (Err e, step_to s d true)
        end
    end.

(** * Opening *)

Record open_env := {
  oe_absolute : bool;
  oe_canonical : bool;
  oe_dir : result ErrorKind Metadata;
  oe_lock : result ErrorKind Metadata;
  oe_flock : io;
  oe_lock_sync : io;
  oe_dir_sync : io;
  oe_remove : io;
  oe_fs : fs_env;
}.

Definition lstat_ok (os : fs_env) (d : Disk) (name : string) : result JournalError.t unit :=
  match symlink_metadata os d name with
  | Ok m => metadata_safe (fe_euid os) m false
  | Err _ => Ok tt
  end.

Definition create_lock (d : Disk) : Disk :=
  match dk_view d !! ".lock"%string with
  | Some _ => d
  | None => write_file ".lock" [] d
  end.

Definition flock_error (r : io) : result JournalError.t unit :=
  map_err (fun e => if bool_decide (e = WouldBlock) then JournalError.Busy else JournalError.Io e) r.

(** A leftover replacement is discarded once the lock is held. *)
Definition discard_pending (oe : open_env) : st Disk JournalError.t unit :=
  fun d => match symlink_metadata (oe_fs oe) d PENDING with
           | Ok m =>
               (let! _ := st_lift (metadata_safe (fe_euid (oe_fs oe)) m false) in
                let! _ := sys (oe_remove oe) (remove_file PENDING) in
                sys (fe_dirsync (oe_fs oe)) sync_directory) d
           | Err NotFound => (Ok tt, d)
           | Err e => (Err (JournalError.Io e), d)
           end.

Definition open_disk (oe : open_env) (limits : JournalLimits) : st Disk JournalError.t unit :=
  let os := oe_fs oe in
  if negb (oe_absolute oe) || negb (oe_canonical oe) then st_err JournalError.UnsafePath
  else
    let! m := st_lift (map_err JournalError.Io (oe_dir oe)) in
    let! _ := st_lift (metadata_safe (fe_euid os) m true) in
    let! _ := (fun d => st_lift (lstat_ok os d ".lock") d) in
    let! lock := (fun d => match oe_lock oe with
                           | Ok m => (Ok m, create_lock d)
                           | Err e => (Err (JournalError.Io e), d)
                           end) in
    let! _ := st_lift (metadata_safe (fe_euid os) lock false) in
    let! _ := st_lift (flock_error (oe_flock oe)) in
    let! _ := sys (oe_lock_sync oe) (sync_file ".lock") in
    let! _ := sys (oe_dir_sync oe) sync_directory in
    let! _ := discard_pending oe in
    let! _ := (fun d => st_lift (inventory_of os false d limits) d) in
    st_ret tt.

Definition open (oe : open_env) (limits : JournalLimits) (os : nat -> fs_env) (d : Disk)
  : result JournalError.t Directory * Disk :=
  match open_disk oe limits d with
  | (Ok _, d') =>
      (Ok {| di_limits := limits; di_poisoned := false; di_disk := d'; di_os := os; di_now := 0 |}, d')
  | (Err e, d') => (Err e, d')
  end.
End Frames.

(** * Lemmas *)

Section FrameLemmas.
Context (sha256 : bytes -> bytes).
Context (sha256_length : forall b, List.length (sha256 b) = 32%nat).

Lemma length_frame (p : bytes) : len (frame sha256 p) = HEADER + len p.
Proof.
  unfold frame, len, HEADER. rewrite !length_app, length_to_be_bytes, sha256_length. simpl. lia.
Qed.

Lemma drop_app_exact {A : Type} (n : nat) (l k : list A) : List.length l = n -> drop n (l ++ k) = k.
Proof. intros <-. apply drop_app_length. Qed.

Lemma take_app_exact {A : Type} (n : nat) (l k : list A) : List.length l = n -> take n (l ++ k) = l.
Proof. intros <-. apply take_app_length. Qed.

Lemma parse_frame_frame (p : bytes) :
  len p <= MAX_PAYLOAD -> parse_frame sha256 (frame sha256 p) = Ok p.
Proof.
  intros Hp. pose proof (length_frame p) as Hlen. unfold parse_frame.
  assert (Htake : take_limit (MAX_PAYLOAD + HEADER + 1) (frame sha256 p) = frame sha256 p).
  { unfold take_limit. destruct (N.leb_spec (len (frame sha256 p)) (MAX_PAYLOAD + HEADER + 1)); [done|lia]. }
  rewrite Htake, Hlen. unfold frame.
  rewrite (take_app_exact 8) by done. rewrite (drop_app_exact 8) by done.
  rewrite (take_app_exact 8) by apply length_to_be_bytes.
  assert (Hbody : drop 48 (MAGIC ++ to_be_bytes 8 (len p) ++ sha256 p ++ p) = p).
  { rewrite !(assoc_L (++)). apply drop_app_exact.
    rewrite !length_app, length_to_be_bytes, sha256_length. done. }
  assert (Hsha : take 32 (drop 16 (MAGIC ++ to_be_bytes 8 (len p) ++ sha256 p ++ p)) = sha256 p).
  { rewrite (assoc_L (++)). rewrite (drop_app_exact 16).
    - by apply take_app_exact.
    - by rewrite length_app, length_to_be_bytes. }
  rewrite Hbody, Hsha, from_to_be_bytes_small.
  - rewrite N.eqb_refl, !bool_decide_true by done. simpl.
    destruct (N.ltb_spec (HEADER + len p) HEADER), (N.ltb_spec (MAX_PAYLOAD + HEADER) (HEADER + len p));
      simpl; done || lia.
  - unfold MAX_PAYLOAD in Hp. eapply N.le_lt_trans; [exact Hp|done].
Qed.
End FrameLemmas.

(** ** Durability *)

Definition content (d : Disk) (n : string) : option bytes := fl_content <$> dk_view d !! n.

(** Between writes every name but the temporary one is durable as seen. *)
Record settled (d : Disk) : Prop := {
  settled_safe : forall n, n <> PENDING -> dk_safe d !! n = dk_view d !! n;
  settled_synced : forall n f, n <> PENDING -> dk_view d !! n = Some f -> fl_synced f = true;
}.

(** What the call of [replace] did to the disk, up to the temporary name. *)
Definition same_but_pending (t t' : tree) : Prop := forall n, n <> PENDING -> t' !! n = t !! n.

Definition committed (b : bytes) : file := {| fl_content := b; fl_synced := true |}.

Lemma same_but_pending_refl (t : tree) : same_but_pending t t.
Proof. done. Qed.

Lemma same_but_pending_insert (t t' : tree) (f : file) :
  same_but_pending t t' -> same_but_pending t (<[PENDING := f]> t').
Proof. intros H n Hn. rewrite lookup_insert_ne by done. auto. Qed.

Lemma same_but_pending_alter (t t' : tree) (g : file -> file) :
  same_but_pending t t' -> same_but_pending t (alter g PENDING t').
Proof. intros H n Hn. rewrite lookup_alter_ne by done. auto. Qed.

#[local] Hint Resolve same_but_pending_refl same_but_pending_insert same_but_pending_alter : core.

(** The disk once the temporary file holds the synchronised frame. *)
Definition staged (content : bytes) (d : Disk) : Disk :=
  sync_file PENDING (write_file PENDING content (write_file PENDING [] d)).

Lemma rename_staged (content : bytes) (name : string) (d : Disk) :
  dk_view d !! PENDING = None ->
  rename PENDING name (staged content d) = set_view (<[name := committed content]> (dk_view d)) d.
Proof.
  intros Hp. unfold rename, staged, sync_file, write_file, set_view. cbn [dk_view dk_safe].
  rewrite lookup_alter_eq, lookup_insert_eq. simpl. f_equal.
  by rewrite delete_alter, !delete_insert_eq, delete_id.
Qed.

(** The three ways a replacement ends. *)
Lemma replace_cases (sha256 : bytes -> bytes) (os : fs_env) (name : string) (payload : bytes)
  (d d' : Disk) (r : result JournalError.t unit) :
  dk_view d !! PENDING = None ->
  replace sha256 os name payload d = (r, d') ->
  let done := <[name := committed (frame sha256 payload)]> (dk_view d) in
  match r with
  | Ok _ => d' = {| dk_view := done; dk_safe := done |}
  | Err _ =>
      dk_safe d' = dk_safe d
      /\ (same_but_pending (dk_view d) (dk_view d') \/ dk_view d' = done)
  end.
Proof.
  intros Hp H done. unfold replace, st_bind, create_pending in H. rewrite Hp in H.
  unfold sys, write_pending in H.
  destruct (fe_create os) as [u|e]; [|simplify_eq; auto].
  destruct (fe_write os) as [u1|[e n]]; [|simplify_eq; cbn [dk_safe dk_view write_file set_view]; auto].
  destruct (fe_sync os) as [u2|e]; [|simplify_eq; cbn [dk_safe dk_view write_file set_view]; auto].
  fold (staged (frame sha256 payload) d) in H.
  destruct (fe_rename os) as [u3|e];
    [|simplify_eq; cbn [dk_safe dk_view write_file set_view sync_file staged]; auto 6].
  rewrite rename_staged in H by done.
  destruct (fe_dirsync os) as [u4|e]; [unfold st_ret in H|]; simplify_eq; auto.
Qed.

(** A crash of a disk whose named entries are synchronised shows, for every
    name, the content of the view or of the last directory synchronisation. *)
Lemma crash_content (d d' : Disk) (n : string) :
  crash d d' ->
  (forall f, dk_view d !! n = Some f -> fl_synced f = true) ->
  (forall f, dk_safe d !! n = Some f -> fl_synced f = true) ->
  content d' n = content d n \/ content d' n = fl_content <$> dk_safe d !! n.
Proof.
  intros [Hc _] Hv Hs. unfold content. unfold survives in Hc.
  destruct (Hc n) as [H|H]; [left|right].
  - destruct (dk_view d !! n) as [f|]; [|by rewrite H]. destruct H as (g & -> & _ & Hg).
    simpl. f_equal. by apply Hg, Hv.
  - destruct (dk_safe d !! n) as [f|]; [|by rewrite H]. destruct H as (g & -> & _ & Hg).
    simpl. f_equal. by apply Hg, Hs.
Qed.

Lemma crash_settles (d d' : Disk) : crash d d' -> settled d'.
Proof.
  intros [Hc Hs]. split; [intros n _; by rewrite Hs|]. intros n f _ Hf. unfold survives in Hc.
  destruct (Hc n) as [H|H].
  - destruct (dk_view d !! n); [destruct H as (g & Hg & ? & _)|]; congruence.
  - destruct (dk_safe d !! n); [destruct H as (g & Hg & ? & _)|]; congruence.
Qed.

(** Whatever its system calls answered and wherever a crash interrupted it, a
    replacement leaves every other record unchanged and the named one with its
    old content or the complete new frame. *)
Lemma replace_survives (sha256 : bytes -> bytes) (os : fs_env) (name : string)
  (payload : bytes) (d d' d'' : Disk) (r : result JournalError.t unit) :
  settled d -> dk_view d !! PENDING = None -> name <> PENDING ->
  replace sha256 os name payload d = (r, d') -> d'' = d' \/ crash d' d'' ->
  (forall n, n <> PENDING -> content d'' n = content d n
     \/ (n = name /\ content d'' n = Some (frame sha256 payload)))
  /\ (is_ok r = true -> content d'' name = Some (frame sha256 payload)).
Proof.
  intros [Hsafe Hsync] Hp Hname H Hd. apply replace_cases in H; [|done].
  set (fr := frame sha256 payload) in *.
  assert (Hins : forall n f, n <> PENDING ->
    (<[name := committed fr]> (dk_view d)) !! n = Some f -> fl_synced f = true).
  { intros n f Hn [[<- <-] | [_ Hf]]%lookup_insert_Some; [done|]. by eapply Hsync. }
  assert (Hcont : forall n, fl_content <$> (<[name := committed fr]> (dk_view d)) !! n = content d n
    \/ (n = name /\ fl_content <$> (<[name := committed fr]> (dk_view d)) !! n = Some fr)).
  { intros n. destruct (decide (n = name)) as [->|Hn]; [right; by rewrite lookup_insert_eq|].
    left. unfold content. by rewrite lookup_insert_ne. }
  destruct r as [u|e].
  - subst d'. assert (Hn : forall n, n <> PENDING ->
      content d'' n = fl_content <$> (<[name := committed fr]> (dk_view d)) !! n).
    { intros n Hn. destruct Hd as [->|Hd]; [done|].
      destruct (crash_content _ _ n Hd) as [->| ->]; cbn [dk_view dk_safe]; try done;
        intros f Hf; by eapply Hins. }
    split; [intros n Hnp; rewrite Hn by done; apply Hcont|].
    intros _. rewrite Hn by done. by rewrite lookup_insert_eq.
  - destruct H as [Hs Hv]. split; [|done]. intros n Hn.
    assert (Hview : (content d' n = content d n \/ (n = name /\ content d' n = Some fr))
      /\ forall f, dk_view d' !! n = Some f -> fl_synced f = true).
    { unfold content in *. destruct Hv as [Hv| ->].
      - rewrite Hv by done. split; [by left|]. intros f. by apply Hsync.
      - split; [apply Hcont|]. intros f. by apply Hins. }
    destruct Hview as [Hview Hvs]. destruct Hd as [->|Hd]; [done|].
    destruct (crash_content _ _ n Hd) as [->|Hc]; [done|..|done|].
    + intros f. rewrite Hs, Hsafe by done. by apply Hsync.
    + left. rewrite Hc, Hs, Hsafe by done. done.
Qed.

(** ** The inventory *)

Definition attempt_of (entry : string * file) : option (string * N) :=
  match attempt_id_of entry.1 with
  | Some id => Some (id, len (fl_content entry.2))
  | None => None
  end.

(** The attempt records of a directory, with their sizes. *)
Definition attempts (t : tree) : list (string * N) := omap attempt_of (map_to_list t).

Definition total_size (l : list (string * N)) : N := foldr (fun r acc => r.2 + acc) 0 l.

Lemma total_size_app (l k : list (string * N)) : total_size (l ++ k) = total_size l + total_size k.
Proof. induction l as [|r l IH]; simpl; [done|]. rewrite IH. lia. Qed.

Lemma total_size_perm (l k : list (string * N)) : l ≡ₚ k -> total_size l = total_size k.
Proof. induction 1; simpl; lia. Qed.

Lemma attempt_id_of_Some (name id : string) :
  attempt_id_of name = Some id -> name = id +:+ ".attempt".
Proof.
  unfold attempt_id_of. destruct (strip_suffix _ _) as [i|] eqn:Hs; [|done].
  destruct (canonical_uuid i); [|done]. intros [= <-]. by apply strip_suffix_Some.
Qed.

(** One pass of the loop adds the entry's record and checks the limits. *)
Lemma inventory_entry_spec (os : fs_env) (d : Disk) (limits : JournalLimits) (name : string)
  (f : file) (acc acc' : list (string * N) * N) :
  dk_view d !! name = Some f -> inventory_entry os d limits acc name = Ok acc' ->
  acc'.1 = acc.1 ++ omap attempt_of [(name, f)]
  /\ (total_size acc.1 = acc.2 -> total_size acc'.1 = acc'.2)
  /\ (len acc.1 <= jl_max_attempts limits -> len acc'.1 <= jl_max_attempts limits)
  /\ (acc.2 <= jl_max_bytes limits -> acc'.2 <= jl_max_bytes limits).
Proof.
  intros Hf H. unfold inventory_entry, symlink_metadata in H. rewrite Hf in H.
  assert (Hskip : attempt_id_of name = None -> acc' = acc ->
    acc'.1 = acc.1 ++ omap attempt_of [(name, f)]
    /\ (total_size acc.1 = acc.2 -> total_size acc'.1 = acc'.2)
    /\ (len acc.1 <= jl_max_attempts limits -> len acc'.1 <= jl_max_attempts limits)
    /\ (acc.2 <= jl_max_bytes limits -> acc'.2 <= jl_max_bytes limits)).
  { intros Hid ->. cbn [omap list_omap]. unfold attempt_of at 1. cbn [fst]. rewrite Hid, app_nil_r. done. }
  apply rbind_Ok_inv in H as (u & _ & H). destruct (_ || _) eqn:Hlock in H.
  { apply Hskip; [|by injection H]. bools. by destruct Hlock as [-> | ->]. }
  case_bool_decide as Hpid. { guards. apply Hskip; [by subst name|done]. }
  case_bool_decide as Hses. { guards. apply Hskip; [by subst name|done]. }
  guards. subst acc'. cbn [fst snd omap list_omap]. unfold attempt_of. cbn [fst snd].
  repeat match goal with
  | E : attempt_id_of name = Some _ |- _ => rewrite E; clear E
  | E : u64_checked_add _ _ = Some _ |- _ => apply u64_checked_add_Some in E as [-> ?]
  end.
  bools. destruct_and?. simplify_eq. cbn [with_size st_size] in *.
  split_and!; [done| |done|done]. intros Htot. rewrite total_size_app, Htot. simpl. lia.
Qed.

Lemma inventory_fold_spec (os : fs_env) (d : Disk) (limits : JournalLimits) (l : list (string * file))
  (acc acc' : list (string * N) * N) :
  (forall n f, (n, f) ∈ l -> dk_view d !! n = Some f) ->
  rfold (inventory_entry os d limits) acc l.*1 = Ok acc' ->
  acc'.1 = acc.1 ++ omap attempt_of l
  /\ (total_size acc.1 = acc.2 -> total_size acc'.1 = acc'.2)
  /\ (len acc.1 <= jl_max_attempts limits -> len acc'.1 <= jl_max_attempts limits)
  /\ (acc.2 <= jl_max_bytes limits -> acc'.2 <= jl_max_bytes limits).
Proof.
  revert acc. induction l as [|[n f] l IH]; intros acc Hl H; cbn [fmap list_fmap rfold fst] in H.
  - injection H as <-. by rewrite app_nil_r.
  - apply rbind_Ok_inv in H as (acc1 & H1 & H2).
    apply (inventory_entry_spec _ _ _ _ f) in H1 as (E1 & T1 & A1 & B1); [|apply Hl; left].
    apply IH in H2 as (E2 & T2 & A2 & B2); [|intros m g Hg; apply Hl; by right].
    split_and!; [|auto..]. rewrite E2, E1, <- (assoc_L (++)). f_equal.
    cbn [omap list_omap]. by destruct (attempt_of (n, f)).
Qed.

(** The inventory lists exactly the attempt records, within the limits. *)
Lemma inventory_of_spec (os : fs_env) (p : bool) (d : Disk) (limits : JournalLimits)
  (records : list (string * N)) :
  inventory_of os p d limits = Ok records ->
  records ≡ₚ attempts (dk_view d) /\ total_size records <= jl_max_bytes limits
  /\ len records <= jl_max_attempts limits.
Proof.
  unfold inventory_of. intros H. ok_inv.
  match goal with E : rfold _ _ _ = Ok _ |- _ => apply inventory_fold_spec in E as (E1 & T1 & A1 & B1) end.
  2: { intros n f. apply elem_of_map_to_list. }
  cbn [fst snd app] in *. assert (Hperm : records ≡ₚ attempts (dk_view d)).
  { rewrite <- H, sort_by_Permutation, E1. done. }
  split; [done|]. rewrite (total_size_perm _ _ Hperm). unfold attempts. rewrite <- E1.
  unfold len in *. rewrite (Permutation_length Hperm). unfold attempts. rewrite <- E1.
  rewrite T1 by done. split; [apply B1|apply A1]; simpl; lia.
Qed.

(** Every entry of a directory that was listed is in order. *)
Lemma rfold_each {A B X : Type} (f : B -> A -> result X B) (acc acc' : B) (l : list A) (x : A) :
  rfold f acc l = Ok acc' -> x ∈ l -> exists b b', f b x = Ok b'.
Proof.
  revert acc. induction l as [|y l IH]; intros acc H Hx; [by apply not_elem_of_nil in Hx|].
  cbn [rfold] in H. apply rbind_Ok_inv in H as (b & Hb & H).
  apply elem_of_cons in Hx as [->|Hx]; [by exists acc, b|by eapply IH].
Qed.

Lemma inventory_entry_attempt (os : fs_env) (d : Disk) (limits : JournalLimits) (id : string)
  (acc acc' : list (string * N) * N) :
  inventory_entry os d limits acc (id +:+ ".attempt") = Ok acc' -> attempt_id_of (id +:+ ".attempt") = Some id.
Proof.
  assert (Hne : forall n, strip_suffix ".attempt" n = None -> id +:+ ".attempt" <> n).
  { intros n Hn <-. by rewrite strip_suffix_app in Hn. }
  unfold inventory_entry. intros H. apply rbind_Ok_inv in H as (u & _ & H).
  rewrite !bool_decide_false in H by (by apply Hne). cbn [orb] in H.
  apply rbind_Ok_inv in H as (i & Hi%ok_or_Ok_inv & _). rewrite Hi.
  unfold attempt_id_of in Hi. rewrite strip_suffix_app in Hi. by destruct (canonical_uuid id); simplify_eq.
Qed.

Lemma inventory_of_lists (os : fs_env) (p : bool) (d : Disk) (limits : JournalLimits)
  (records : list (string * N)) (id : string) :
  inventory_of os p d limits = Ok records -> is_Some (content d (id +:+ ".attempt")) -> id ∈ records.*1.
Proof.
  intros H [c Hc]. destruct (inventory_of_spec _ _ _ _ _ H) as [Hperm _].
  unfold content in Hc. apply fmap_Some in Hc as (f & Hf%elem_of_map_to_list & _).
  assert (Hid : attempt_id_of (id +:+ ".attempt") = Some id).
  { unfold inventory_of in H. ok_inv.
    match goal with E : rfold _ _ _ = Ok _ |- _ => eapply rfold_each in E as (b & b' & Hb) end;
      [by eapply inventory_entry_attempt|]. by apply (list_elem_of_fmap_2 fst _ _ Hf). }
  apply list_elem_of_fmap. exists (id, len (fl_content f)). split; [done|]. rewrite Hperm.
  unfold attempts. apply list_elem_of_omap. exists (id +:+ ".attempt", f). split; [done|].
  unfold attempt_of. cbn [fst snd]. by rewrite Hid.
Qed.

(** ** The directory as a record store *)

Section Store.
Context (sha256 : bytes -> bytes).
Context (sha256_length : forall b, List.length (sha256 b) = 32%nat).

(** The payload a name holds. *)
Definition record_at (d : Disk) (n : string) : option bytes :=
  if bool_decide (n = PENDING) then None
  else match content d n with
  | Some c => match parse_frame sha256 c with Ok b => Some b | Err _ => None end
  | None => None
  end.

(** The kernel does not report an existing entry as missing. *)
Definition honest (os : fs_env) : Prop := forall n, fe_stat os n <> Err NotFound.

(** A writer in use: it is poisoned, or its disk is settled and no temporary
    file is left. *)
Record usable (s : Directory) : Prop := {
  usable_honest : forall k, honest (di_os s k);
  usable_settled : di_poisoned s = false ->
    settled (di_disk s) /\ dk_view (di_disk s) !! PENDING = None;
}.

Lemma usable_step (s : Directory) (d : Disk) (p : bool) :
  usable s -> (p = false -> settled d /\ dk_view d !! PENDING = None) -> usable (step_to s d p).
Proof. intros [Hh _] Hp. split; done. Qed.

Lemma usable_query (s : Directory) : usable s -> usable (step_to s (di_disk s) (di_poisoned s)).
Proof. intros H. apply usable_step; [done|]. apply H. Qed.

Lemma settled_commit (d : Disk) (name : string) (b : bytes) :
  settled d -> dk_view d !! PENDING = None -> name <> PENDING ->
  let v := <[name := committed b]> (dk_view d) in
  settled {| dk_view := v; dk_safe := v |} /\ v !! PENDING = None.
Proof.
  intros [_ Hsync] Hp Hn v. split; [|by unfold v; rewrite lookup_insert_ne].
  split; cbn [dk_view dk_safe]; [done|]. unfold v.
  intros n f Hnp [[<- <-] | [_ Hf]]%lookup_insert_Some; [done|]. by eapply Hsync.
Qed.

Lemma read_record_spec (os : fs_env) (p : bool) (d : Disk) (n : string) (o : option bytes) :
  honest os -> n <> PENDING -> read_record sha256 os p d n = Ok o -> o = record_at d n.
Proof.
  intros Hos Hn H. unfold read_record in H. apply rbind_Ok_inv in H as (u & _ & H).
  unfold record_at, content. rewrite bool_decide_false by done.
  unfold symlink_metadata in H. destruct (dk_view d !! n) as [f|]; cbn [fmap option_fmap option_map] in *; [|congruence].
  specialize (Hos n). destruct (fe_stat os n) as [m|e]; cbn [rbind ok_or] in H.
  - ok_inv. match goal with E : parse_frame _ _ = Ok _ |- _ => rewrite E end. congruence.
  - destruct e; congruence.
Qed.

Lemma record_at_same (d d' : Disk) (n : string) :
  (n <> PENDING -> content d' n = content d n) -> record_at d' n = record_at d n.
Proof. intros H. unfold record_at. case_bool_decide; [done|]. by rewrite H. Qed.

Lemma record_at_frame (d : Disk) (n : string) (p : bytes) :
  len p <= MAX_PAYLOAD -> n <> PENDING -> content d n = Some (frame sha256 p) ->
  record_at d n = Some p.
Proof.
  intros Hp Hn H. unfold record_at. rewrite bool_decide_false by done.
  by rewrite H, parse_frame_frame.
Qed.

(** The guards of [write], and what it does once they pass. *)
Lemma write_cases (name : string) (payload : bytes) (s s' : Directory)
  (r : result JournalError.t unit) :
  write sha256 name payload s = (r, s') ->
  (is_ok r = false /\ s' = step_to s (di_disk s) (di_poisoned s))
  \/ (di_poisoned s = false /\ len payload <= MAX_PAYLOAD
      /\ exists d records, replace sha256 (di_os s (di_now s)) name payload (di_disk s) = (r, d)
      /\ s' = step_to s d (negb (is_ok r))
      /\ inventory_of (di_os s (di_now s)) false (di_disk s) (di_limits s) = Ok records
      /\ over_limit (di_limits s) records name payload = false).
Proof.
  unfold write. destruct (rbind _ _) as [u|e] eqn:Hg; [|intros [= <- <-]; by left].
  apply rbind_Ok_inv in Hg as (h & Hh & Hg). unfold healthy in Hh.
  destruct (di_poisoned s); [done|]. destruct (N.ltb_spec MAX_PAYLOAD (len payload)); [done|].
  ok_inv. destruct (over_limit _ _ _ _) eqn:Hover; [done|]. intros Hres. right.
  split; [done|]. split; [done|].
  destruct (replace _ _ _ _ _) as [[u'|e] d] eqn:Hr; injection Hres as <- <-; eexists _, _;
    split_and!; try done. by destruct u'.
Qed.

#[export] Instance Directory_store : RecordStore Directory := {
  rs_read := read sha256;
  rs_write := write sha256;
  rs_inventory := inventory;
}.

Lemma write_spec (n : string) (b : bytes) (s : Directory) (r : result JournalError.t unit)
  (s' : Directory) :
  usable s -> n <> PENDING -> write sha256 n b s = (r, s') ->
  usable s'
  /\ (forall m, m <> n -> record_at (di_disk s') m = record_at (di_disk s) m)
  /\ match r with
     | Ok _ => record_at (di_disk s') n = Some b
     | Err _ => record_at (di_disk s') n = record_at (di_disk s) n
                \/ record_at (di_disk s') n = Some b
     end.
Proof.
  intros Hs Hn H. apply write_cases in H as [[Hr ->] | (Hp & Hb & d & records & Hrep & -> & _)].
  { split; [by apply usable_query|]. split; [done|]. destruct r; [done|]. by left. }
  destruct (usable_settled s Hs Hp) as [Hset Hpend].
  pose proof (replace_cases _ _ _ _ _ _ _ Hpend Hrep) as Hcases. simpl in Hcases.
  destruct r as [u|e]; cbn [negb is_ok step_to di_disk] in *.
  - subst d. split; [apply usable_step; [done|intros _; by apply settled_commit]|]. split.
    + intros m Hm. apply record_at_same. intros _. unfold content. cbn [dk_view].
      by rewrite lookup_insert_ne.
    + apply record_at_frame; [done|done|]. unfold content. cbn [dk_view]. by rewrite lookup_insert_eq.
  - destruct Hcases as [_ Hv]. split; [by apply usable_step|].
    destruct Hv as [Hv|Hv]; split.
    + intros m _. apply record_at_same. intros Hm. unfold content. by rewrite Hv.
    + left. apply record_at_same. intros _. unfold content. by rewrite Hv.
    + intros m Hm. apply record_at_same. intros _. unfold content. by rewrite Hv, lookup_insert_ne.
    + right. apply record_at_frame; [done|done|]. unfold content. by rewrite Hv, lookup_insert_eq.
Qed.

#[export] Program Instance Directory_laws : RecordStoreLaws Directory := {
  rs_lookup := fun s => record_at (di_disk s);
  rs_name := fun n => n <> PENDING;
  rs_inv := usable;
}.
Next Obligation.
  intros n s r s' Hs Hn H. unfold rs_read, Directory_store, read, query in H. simplify_eq.
  split; [by apply usable_query|]. split; [done|]. intros o Ho. eapply read_record_spec; [|done..].
  apply Hs.
Qed.
Next Obligation.
  intros s r s' Hs H. unfold rs_inventory, Directory_store, inventory, query in H. simplify_eq.
  split; [by apply usable_query|done].
Qed.
Next Obligation.
  intros s l s' id Hs H [b Hb]. unfold rs_inventory, Directory_store, inventory, query in H. simplify_eq.
  eapply inventory_of_lists; [done|]. unfold record_at in Hb. case_bool_decide; [done|].
  destruct (content _ _) as [c|]; [by exists c|done].
Qed.
Next Obligation.
  intros n b s r s' Hs Hn H. by eapply write_spec.
Qed.
End Store.

(** ** Reopening *)

Section Reopen.
Context (sha256 : bytes -> bytes).
Context (sha256_length : forall b, List.length (sha256 b) = 32%nat).

Definition LOCK : string := ".lock".

(** Every published file is synchronised, the lock file possibly excepted. *)
Definition published (d : Disk) : Prop :=
  forall n f, n <> PENDING -> n <> LOCK -> dk_view d !! n = Some f -> fl_synced f = true.

(** The disk an opened directory starts from. *)
Record fresh_from (d d' : Disk) : Prop := {
  ff_safe : dk_safe d' = dk_view d';
  ff_lock : forall f, dk_view d' !! LOCK = Some f -> fl_synced f = true;
  ff_record : forall n, record_at sha256 d' n = record_at sha256 d n;
  ff_published : published d -> published d';
}.

Lemma record_at_lock (d : Disk) : dk_view d !! LOCK = None ->
  forall n, record_at sha256 (write_file LOCK [] d) n = record_at sha256 d n.
Proof.
  intros Hl n. unfold record_at, content, write_file, set_view. cbn [dk_view].
  case_bool_decide; [done|]. destruct (decide (n = LOCK)) as [->|Hn].
  - by rewrite lookup_insert_eq, Hl.
  - by rewrite lookup_insert_ne.
Qed.

Lemma lock_fresh (d : Disk) :
  fresh_from d (sync_directory (sync_file LOCK (create_lock d))).
Proof.
  unfold create_lock. fold LOCK.
  assert (Hsync : forall e n, record_at sha256 (sync_directory (sync_file LOCK e)) n = record_at sha256 e n).
  { intros e n. apply record_at_same. intros _. unfold content, sync_directory, sync_file, set_view.
    cbn [dk_view]. destruct (decide (n = LOCK)) as [->|Hn].
    - rewrite lookup_alter_eq. by destruct (_ !! _).
    - by rewrite lookup_alter_ne. }
  split.
  - done.
  - intros f. unfold sync_directory, sync_file, set_view. cbn [dk_view]. rewrite lookup_alter_eq.
    destruct (_ !! _); [by intros [= <-]|done].
  - intros n. rewrite Hsync. destruct (dk_view d !! LOCK) eqn:Hl; [done|]. by apply record_at_lock.
  - intros Hpub n f Hn Hl. unfold sync_directory, sync_file, set_view. cbn [dk_view].
    rewrite lookup_alter_ne by done. destruct (dk_view d !! LOCK); [by apply Hpub|].
    unfold write_file, set_view. cbn [dk_view]. rewrite lookup_insert_ne by done. by apply Hpub.
Qed.

Lemma discard_fresh (oe : open_env) (d0 d d' : Disk) :
  honest (oe_fs oe) -> fresh_from d0 d -> discard_pending oe d = (Ok tt, d') ->
  fresh_from d0 d' /\ dk_view d' !! PENDING = None.
Proof.
  intros Hos Hf H. unfold discard_pending, symlink_metadata in H.
  destruct (dk_view d !! PENDING) as [f|] eqn:Hp; [|by injection H as <-].
  specialize (Hos PENDING). destruct (fe_stat _ _) as [m|e]; cbn [rbind] in H; [|by destruct e].
  unfold st_bind, st_lift, sys in H. destruct (metadata_safe _ _ _); [|done].
  destruct (oe_remove oe); [|done]. destruct (fe_dirsync _); [|done]. injection H as <-.
  destruct Hf as [_ Hl Hr Hpub]. unfold remove_file, sync_directory, set_view. cbn [dk_view dk_safe].
  split; [|by rewrite lookup_delete_eq]. split; cbn [dk_view dk_safe].
  - done.
  - intros g. rewrite lookup_delete_ne by done. apply Hl.
  - intros n. rewrite <- Hr. apply record_at_same. intros Hn. unfold content. cbn [dk_view].
    by rewrite lookup_delete_ne.
  - intros Hd n g Hn Hlk. cbn [dk_view]. rewrite lookup_delete_ne by done. by apply (Hpub Hd).
Qed.

Lemma open_fresh (oe : open_env) (limits : JournalLimits) (os : nat -> fs_env) (d d' : Disk)
  (s : Directory) :
  honest (oe_fs oe) -> open oe limits os d = (Ok s, d') ->
  fresh_from d (di_disk s) /\ dk_view (di_disk s) !! PENDING = None
  /\ di_poisoned s = false /\ di_os s = os.
Proof.
  intros Hos H. unfold open in H.
  destruct (open_disk oe limits d) as [[u|e] e'] eqn:Hopen; [|done]. injection H as <- <-.
  cbn [di_disk di_poisoned di_os]. unfold open_disk in Hopen.
  destruct (_ || _); [done|]. unfold st_bind, st_lift in Hopen.
  destruct (map_err _ (oe_dir oe)); [|done]. destruct (metadata_safe _ _ true); [|done].
  destruct (lstat_ok _ _ _); [|done]. destruct (oe_lock oe); [|done].
  destruct (metadata_safe _ _ false); [|done]. destruct (flock_error _); [|done].
  unfold sys in Hopen at 1 2. destruct (oe_lock_sync oe); [|done]. destruct (oe_dir_sync oe); [|done].
  destruct (discard_pending _ _) as [[[]|e] d1] eqn:Hdis; [|done].
  destruct (inventory_of _ _ _ _); [|done]. injection Hopen as <- <-.
  apply (discard_fresh _ d) in Hdis; [|done|apply lock_fresh]. destruct Hdis. done.
Qed.

Lemma fresh_usable (d : Disk) (s : Directory) :
  (forall k, honest (di_os s k)) -> published d -> fresh_from d (di_disk s) ->
  dk_view (di_disk s) !! PENDING = None -> usable s.
Proof.
  intros Hos Hpub [Hsafe Hl _ Hp] Hpend. split; [done|]. intros _. split; [|done]. split.
  - intros n _. by rewrite Hsafe.
  - intros n f Hn Hf. destruct (decide (n = LOCK)) as [->|Hlk]; [by apply Hl|]. by eapply Hp.
Qed.

(** A settled disk survives a crash. *)
Lemma usable_crash (s : Directory) (d : Disk) :
  usable s -> di_poisoned s = false -> d = di_disk s \/ crash (di_disk s) d ->
  published d /\ forall n, record_at sha256 d n = record_at sha256 (di_disk s) n.
Proof.
  intros Hs Hp Hd. destruct (usable_settled s Hs Hp) as [Hset _].
  destruct Hd as [->|Hd].
  - split; [|done]. intros n f Hn _ Hf. by eapply (settled_synced _ Hset).
  - split; [intros n f Hn _; by apply (crash_settles _ _ Hd)|]. intros n. apply record_at_same. intros Hn.
    destruct (crash_content _ _ n Hd) as [->| ->]; [..|done|].
    + intros f. by apply (settled_synced _ Hset).
    + intros f. rewrite (settled_safe _ Hset) by done. by apply (settled_synced _ Hset).
    + by rewrite (settled_safe _ Hset).
Qed.

(** What a write and a possible crash leave on the disk. *)
Lemma write_then_crash (name : string) (payload : bytes) (s s' : Directory)
  (r : result JournalError.t unit) (d : Disk) :
  usable s -> di_poisoned s = false -> name <> PENDING ->
  write sha256 name payload s = (r, s') -> d = di_disk s' \/ crash (di_disk s') d ->
  published d
  /\ (forall n, record_at sha256 d n = record_at sha256 (di_disk s) n
        \/ (n = name /\ record_at sha256 d n = Some payload))
  /\ (is_ok r = true -> record_at sha256 d name = Some payload).
Proof.
  intros Hs Hp Hn Hw Hd. destruct (usable_settled s Hs Hp) as [Hset Hpend].
  assert (Hpub : published (di_disk s')).
  { intros n f Hnp _ Hf. destruct (write_spec _ sha256_length _ _ _ _ _ Hs Hn Hw) as [Hs' _].
    apply write_cases in Hw as [[_ ->] | (_ & _ & d1 & recs & Hrep & -> & _)].
    - by eapply (settled_synced _ Hset).
    - apply replace_cases in Hrep; [|done]. cbn [step_to di_disk] in Hf. destruct r.
      + subst d1. cbn [dk_view] in Hf. apply lookup_insert_Some in Hf as [[<- <-] | [_ Hf]]; [done|].
        by eapply (settled_synced _ Hset).
      + destruct Hrep as [_ [Hv|Hv]].
        * rewrite Hv in Hf by done. by eapply (settled_synced _ Hset).
        * rewrite Hv in Hf. apply lookup_insert_Some in Hf as [[<- <-] | [_ Hf]]; [done|].
          by eapply (settled_synced _ Hset). }
  split; [destruct Hd as [->|Hd]; [done|]; intros n f Hnp _; by apply (crash_settles _ _ Hd)|].
  apply write_cases in Hw as [[Hr ->] | (_ & Hlen & d1 & recs & Hrep & -> & _)].
  - split; [|by rewrite Hr]. intros n. left. by apply (usable_crash s d).
  - cbn [step_to di_disk] in Hd.
    destruct (replace_survives sha256 _ _ _ _ _ _ _ Hset Hpend Hn Hrep Hd) as [Hall Hok]. split.
    + intros n. destruct (decide (n = PENDING)) as [->|Hnp].
      { left. unfold record_at. by rewrite bool_decide_true. }
      destruct (Hall n Hnp) as [Hc | [-> Hc]]; [left; by apply record_at_same|right].
      split; [done|]. by apply record_at_frame.
    + intros Hr. apply record_at_frame; auto.
Qed.
End Reopen.

(** * Properties *)

(** A write is atomic under failure and crash.  Whatever its system calls
    answered, and wherever the machine stopped, the directory opened afterwards
    is usable again; every other record is unchanged and the named one holds
    its old payload or the complete new one, and the new one for certain once
    the call has returned [Ok]. *)
Theorem interrupted_write_is_atomic (sha256 : bytes -> bytes) (name : string) (payload : bytes)
  (s s' s'' : Directory) (r : result JournalError.t unit) (d d' : Disk) (oe : open_env)
  (limits : JournalLimits) (os : nat -> fs_env) :
  (forall b, List.length (sha256 b) = 32%nat) ->
  usable s -> di_poisoned s = false -> name <> PENDING ->
  write sha256 name payload s = (r, s') -> d = di_disk s' \/ crash (di_disk s') d ->
  honest (oe_fs oe) -> (forall k, honest (os k)) -> open oe limits os d = (Ok s'', d') ->
  usable s'' /\ di_poisoned s'' = false
  /\ (forall n, record_at sha256 (di_disk s'') n = record_at sha256 (di_disk s) n
        \/ (n = name /\ record_at sha256 (di_disk s'') n = Some payload))
  /\ (is_ok r = true -> record_at sha256 (di_disk s'') name = Some payload).
Proof.
  intros Hsha Hs Hp Hn Hw Hd Hoe Hos Hopen.
  destruct (write_then_crash sha256 Hsha _ _ _ _ _ _ Hs Hp Hn Hw Hd) as (Hpub & Hall & Hok).
  apply (open_fresh sha256) in Hopen as (Hf & Hpend & Hpois & Hos'); [|done].
  split; [eapply fresh_usable; [rewrite Hos'|..]; done|]. split; [done|].
  split; [intros n; rewrite (ff_record _ _ _ Hf); apply Hall|].
  intros Hr. rewrite (ff_record _ _ _ Hf). by apply Hok.
Qed.

Definition good_file : Metadata :=
  {| is_file := true; is_dir := false; uid := 1000; mode := 33152; nlink := 1; st_size := 0 |}.
Definition good_dir : Metadata :=
  {| is_file := false; is_dir := true; uid := 1000; mode := 16832; nlink := 2; st_size := 4096 |}.

(** An operating system that answers every call, except the directory
    synchronisation of a replacement when [synced] is false. *)
Definition os_fixture (synced : bool) : fs_env :=
  {| fe_euid := 1000; fe_root := Ok (good_dir, (8, 2)); fe_opened := Ok (8, 2);
     fe_readdir := Ok tt; fe_entry := fun _ => Ok tt; fe_stat := fun _ => Ok good_file;
     fe_open := fun _ => Ok tt; fe_fstat := fun _ => Ok good_file; fe_read := fun _ => Ok tt;
     fe_create := Ok tt; fe_write := Ok tt; fe_sync := Ok tt; fe_rename := Ok tt;
     fe_dirsync := if synced then Ok tt else Err OtherKind |}.

Definition open_fixture : open_env :=
  {| oe_absolute := true; oe_canonical := true; oe_dir := Ok good_dir; oe_lock := Ok good_file;
     oe_flock := Ok tt; oe_lock_sync := Ok tt; oe_dir_sync := Ok tt; oe_remove := Ok tt;
     oe_fs := os_fixture true |}.

Definition digest_fixture : bytes -> bytes := fun _ => replicate 32 "000"%byte.

Definition record_name : string := "1b4e28ba-2fa1-11d2-883f-0016d3cca427.attempt".

(** A directory holding one record. *)
Definition tree_fixture : tree :=
  {[record_name := committed (frame digest_fixture (str_bytes "old"))]}.

Definition directory_fixture (synced : bool) : Directory :=
  {| di_limits := default_limits; di_poisoned := false;
     di_disk := {| dk_view := tree_fixture; dk_safe := tree_fixture |};
     di_os := fun _ => os_fixture synced; di_now := 0 |}.

Lemma tree_fixture_entry (n : string) (f : file) :
  tree_fixture !! n = Some f -> f = committed (frame digest_fixture (str_bytes "old")).
Proof. unfold tree_fixture. intros [_ H]%lookup_singleton_Some. done. Qed.

Lemma directory_fixture_usable (synced : bool) : usable (directory_fixture synced).
Proof.
  split; [done|]. intros _. split; [|done]. split; [done|].
  intros n f _ H. by apply tree_fixture_entry in H as ->.
Qed.

(** The directory synchronisation fails and the machine stops: the old record
    is found again. *)
Definition crashed_fixture : Disk := {| dk_view := tree_fixture; dk_safe := tree_fixture |}.

Definition failed_write : Directory :=
  (write digest_fixture record_name (str_bytes "new") (directory_fixture false)).2.

Lemma crashed_fixture_crash : crash (di_disk failed_write) crashed_fixture.
Proof.
  split; [|done]. intros n. right.
  change (dk_safe (di_disk failed_write)) with tree_fixture. cbn [crashed_fixture dk_view].
  destruct (tree_fixture !! n) as [f|] eqn:Hf; [|done].
  exists f. apply tree_fixture_entry in Hf as ->. done.
Qed.

Definition reopened : Directory :=
  match (open open_fixture default_limits (fun _ => os_fixture true) crashed_fixture).1 with
  | Ok s => s
  | Err _ => directory_fixture true
  end.

Lemma interrupted_write_is_atomic_witness :
  usable reopened
  /\ record_at digest_fixture (di_disk reopened) record_name = Some (str_bytes "old").
Proof.
  split; [|vm_compute; reflexivity].
  apply (interrupted_write_is_atomic digest_fixture record_name (str_bytes "new")
           (directory_fixture false) failed_write reopened (Err (JournalError.Io OtherKind))
           crashed_fixture
           (open open_fixture default_limits (fun _ => os_fixture true) crashed_fixture).2
           open_fixture default_limits (fun _ => os_fixture true)).
  - done.
  - apply directory_fixture_usable.
  - done.
  - done.
  - vm_compute. reflexivity.
  - right. apply crashed_fixture_crash.
  - done.
  - done.
  - vm_compute. reflexivity.
Defined.

(** ** Poisoning *)

(** The calls a client can make on an open directory. *)
Inductive dir_op : Type :=
| OpRead (name : string)
| OpWrite (name : string) (payload : bytes)
| OpInventory.

Definition run_op (sha256 : bytes -> bytes) (op : dir_op) (s : Directory)
  : option JournalError.t * Directory :=
  match op with
  | OpRead n => match read sha256 n s with (Ok _, s') => (None, s') | (Err e, s') => (Some e, s') end
  | OpWrite n b => match write sha256 n b s with (Ok _, s') => (None, s') | (Err e, s') => (Some e, s') end
  | OpInventory => match inventory s with (Ok _, s') => (None, s') | (Err e, s') => (Some e, s') end
  end.

Fixpoint run_ops (sha256 : bytes -> bytes) (ops : list dir_op) (s : Directory)
  : list (option JournalError.t) * Directory :=
  match ops with
  | [] => ([], s)
  | op :: ops' =>
      let (e, s1) := run_op sha256 op s in
      let (es, s2) := run_ops sha256 ops' s1 in
      (e :: es, s2)
  end.

Lemma poisoned_op (sha256 : bytes -> bytes) (op : dir_op) (s : Directory) :
  di_poisoned s = true ->
  run_op sha256 op s = (Some JournalError.Poisoned, step_to s (di_disk s) true).
Proof.
  intros Hp. destruct op; unfold run_op, read, write, inventory, query, read_record, inventory_of, healthy;
    by rewrite Hp.
Qed.

Lemma poisoned_ops (sha256 : bytes -> bytes) (ops : list dir_op) (s : Directory) :
  di_poisoned s = true ->
  let (es, s') := run_ops sha256 ops s in
  Forall (fun e => e = Some JournalError.Poisoned) es /\ di_disk s' = di_disk s.
Proof.
  revert s. induction ops as [|op ops IH]; intros s Hp; [done|]. cbn [run_ops].
  rewrite poisoned_op by done. specialize (IH (step_to s (di_disk s) true) eq_refl).
  destruct (run_ops _ _ _) as [es s']. destruct IH as [IH1 IH2]. split; [by constructor|done].
Qed.

(** A write that fails either had no effect at all or poisons the writer:
    from then on every sequence of calls fails with [Poisoned] and leaves the
    disk alone, until the directory is reopened. *)
Theorem failed_write_poisons (sha256 : bytes -> bytes) (name : string) (payload : bytes)
  (s s' : Directory) (e : JournalError.t) (ops : list dir_op) :
  write sha256 name payload s = (Err e, s') ->
  (di_disk s' = di_disk s /\ di_poisoned s' = di_poisoned s)
  \/ let (es, s'') := run_ops sha256 ops s' in
     Forall (fun e => e = Some JournalError.Poisoned) es /\ di_disk s'' = di_disk s'.
Proof.
  intros H. apply write_cases in H as [[_ ->] | (_ & _ & d & recs & _ & -> & _)].
  - by left.
  - right. by apply poisoned_ops.
Qed.

Lemma failed_write_poisons_witness :
  (di_disk failed_write = di_disk (directory_fixture false)
   /\ di_poisoned failed_write = di_poisoned (directory_fixture false))
  \/ let (es, s'') := run_ops digest_fixture [OpRead record_name; OpInventory] failed_write in
     Forall (fun e => e = Some JournalError.Poisoned) es /\ di_disk s'' = di_disk failed_write.
Proof.
  apply (failed_write_poisons digest_fixture record_name (str_bytes "new") (directory_fixture false)
           failed_write (JournalError.Io OtherKind) [OpRead record_name; OpInventory]).
  vm_compute. reflexivity.
Defined.

(** ** Capacity *)

Lemma len_perm {A : Type} (l k : list A) : l ≡ₚ k -> len l = len k.
Proof. intros H. unfold len. by rewrite (Permutation_length H). Qed.

Lemma omap_perm {A B : Type} (g : A -> option B) (l k : list A) : l ≡ₚ k -> omap g l ≡ₚ omap g k.
Proof. intros H. by rewrite H. Qed.

Lemma attempts_insert (t : tree) (name : string) (f : file) :
  t !! name = None -> attempts (<[name := f]> t) ≡ₚ omap attempt_of [(name, f)] ++ attempts t.
Proof.
  intros H. unfold attempts. rewrite (omap_perm _ _ _ (map_to_list_insert t name f H)).
  cbn [omap list_omap]. by destruct (attempt_of (name, f)).
Qed.

Lemma attempts_replace (t : tree) (name : string) (f : file) :
  attempts (<[name := f]> t) ≡ₚ omap attempt_of [(name, f)] ++ attempts (delete name t).
Proof. rewrite <- insert_delete_eq. apply attempts_insert. apply lookup_delete_eq. Qed.

Lemma attempts_lookup (t : tree) (name : string) :
  attempts t ≡ₚ match t !! name with Some g => omap attempt_of [(name, g)] | None => [] end
                ++ attempts (delete name t).
Proof.
  destruct (t !! name) as [g|] eqn:Hg.
  - rewrite <- (insert_id t name g) at 1 by done. apply attempts_replace.
  - by rewrite delete_id.
Qed.

(** No other file of the directory is the record of this attempt. *)
Lemma attempts_other (t : tree) (name id : string) (n : N) :
  attempt_id_of name = Some id -> (id, n) ∉ attempts (delete name t).
Proof.
  intros Hid Hin. unfold attempts in Hin. apply list_elem_of_omap in Hin as ([m f] & Hm & Ho).
  apply elem_of_map_to_list in Hm. unfold attempt_of in Ho. cbn [fst snd] in Ho.
  destruct (attempt_id_of m) as [i|] eqn:Hi; [|done]. injection Ho as -> _.
  apply attempt_id_of_Some in Hid, Hi. subst. by rewrite lookup_delete_eq in Hm.
Qed.

Lemma find_record (records : list (string * N)) (t : tree) (name id : string) :
  attempt_id_of name = Some id -> records ≡ₚ attempts t ->
  List.find (fun r => bool_decide (r.1 = id)) records
  = (fun g => (id, len (fl_content g))) <$> t !! name.
Proof.
  intros Hid Hperm. pose proof (attempts_lookup t name) as Hl. cbn [omap list_omap] in Hl.
  unfold attempt_of in Hl. cbn [fst snd] in Hl. rewrite Hid in Hl. rewrite <- Hperm in Hl.
  destruct (List.find _ records) as [[i n]|] eqn:Hfind.
  - apply List.find_some in Hfind as [Hin Heq]. cbn [fst] in Heq. apply bool_decide_eq_true in Heq as ->.
    apply list_elem_of_In in Hin. rewrite Hl in Hin. apply elem_of_app in Hin as [Hin|Hin].
    + destruct (t !! name) as [g|]; [|by apply elem_of_nil in Hin].
      apply list_elem_of_singleton in Hin. injection Hin as ->. done.
    + by apply attempts_other in Hin.
  - destruct (t !! name) as [g|]; [|done]. exfalso.
    assert (Hin : (id, len (fl_content g)) ∈ records) by (rewrite Hl; left).
    apply list_elem_of_In in Hin. apply (List.find_none _ _ Hfind) in Hin. cbn [fst] in Hin.
    by rewrite bool_decide_true in Hin.
Qed.

Lemma u64_total (records : list (string * N)) :
  total_size records <= U64_MAX ->
  foldr (fun r acc => u64_add r.2 acc) 0 records = total_size records.
Proof.
  induction records as [|r l IH]; intros H; [done|]. cbn [foldr total_size] in *.
  change (foldr (fun r acc => r.2 + acc) 0 l) with (total_size l) in *.
  rewrite IH by lia. by rewrite u64_add_small.
Qed.

(** The capacity check of [write], over the sizes on disk. *)
Lemma over_limit_spec (limits : JournalLimits) (records : list (string * N)) (t : tree)
  (name id : string) (payload : bytes) :
  jl_max_bytes limits <= 34359738368 -> len payload <= MAX_PAYLOAD ->
  attempt_id_of name = Some id -> records ≡ₚ attempts t ->
  total_size records <= jl_max_bytes limits -> len records <= jl_max_attempts limits ->
  over_limit limits records name payload = false ->
  total_size (attempts (delete name t)) + (len payload + HEADER) <= jl_max_bytes limits
  /\ len (attempts (delete name t)) + 1 <= jl_max_attempts limits.
Proof.
  intros Hmax Hp Hid Hperm Htot Hlen H. unfold over_limit in H.
  assert (Hs : strip_suffix ".attempt" name = Some id).
  { apply attempt_id_of_Some in Hid as ->. apply strip_suffix_app. }
  rewrite Hs, (find_record _ _ _ _ Hid Hperm) in H.
  pose proof (attempts_lookup t name) as Hl. cbn [omap list_omap] in Hl.
  unfold attempt_of in Hl. cbn [fst snd] in Hl. rewrite Hid in Hl. rewrite <- Hperm in Hl.
  pose proof (total_size_perm _ _ Hl) as Htl. rewrite total_size_app in Htl.
  assert (Hll : len records = len (match t !! name with
      Some g => [(id, len (fl_content g))] | None => [] end) + len (attempts (delete name t))).
  { rewrite (len_perm _ _ Hl). apply len_app. }
  unfold MAX_PAYLOAD in Hp. unfold HEADER in *.
  rewrite u64_total in H by (unfold U64_MAX; lia).
  destruct (t !! name) as [g|]; cbn [fmap option_fmap option_map fst snd total_size foldr] in *;
    rewrite u64_sub_small, u64_add_small in H by (unfold U64_MAX; lia);
    apply orb_false_iff in H as [H1 H2]; apply N.ltb_ge in H2.
  - unfold len in Hll at 2. simpl in Hll. lia.
  - cbn [andb] in H1. apply N.leb_gt in H1. unfold len in Hll at 2. simpl in Hll. lia.
Qed.

(** The journal's limits hold on disk.  After a write that succeeded, the
    attempt records number at most [max_attempts] and their files, headers
    included, take at most [max_bytes]. *)
Theorem write_respects_limits (sha256 : bytes -> bytes) (name : string) (payload : bytes)
  (s s' : Directory) :
  (forall b, List.length (sha256 b) = 32%nat) ->
  usable s -> jl_max_bytes (di_limits s) <= 34359738368 ->
  write sha256 name payload s = (Ok tt, s') ->
  total_size (attempts (dk_view (di_disk s'))) <= jl_max_bytes (di_limits s')
  /\ len (attempts (dk_view (di_disk s'))) <= jl_max_attempts (di_limits s').
Proof.
  intros Hsha Hs Hmax H.
  apply write_cases in H as [[? _] | (Hp & Hlen & d & recs & Hrep & -> & Hinv & Hover)]; [done|].
  destruct (usable_settled s Hs Hp) as [_ Hpend].
  apply replace_cases in Hrep as ->; [|done]. cbn [step_to di_disk di_limits dk_view].
  apply inventory_of_spec in Hinv as (Hperm & Htot & Hcnt).
  pose proof (attempts_replace (dk_view (di_disk s)) name (committed (frame sha256 payload))) as Hnew.
  cbn [omap list_omap] in Hnew. unfold attempt_of in Hnew. cbn [fst snd committed fl_content] in Hnew.
  rewrite (total_size_perm _ _ Hnew), (len_perm _ _ Hnew), total_size_app, len_app.
  destruct (attempt_id_of name) as [id|] eqn:Hid.
  - destruct (over_limit_spec _ _ _ _ _ _ Hmax Hlen Hid Hperm Htot Hcnt Hover) as [H1 H2].
    cbn [total_size foldr snd]. rewrite length_frame by done. change (len [_]) with 1. lia.
  - pose proof (attempts_lookup (dk_view (di_disk s)) name) as Hl. cbn [omap list_omap] in Hl.
    unfold attempt_of in Hl. cbn [fst snd] in Hl. rewrite Hid in Hl.
    assert (Hl' : recs ≡ₚ attempts (delete name (dk_view (di_disk s)))).
    { rewrite Hperm, Hl. by destruct (dk_view (di_disk s) !! name). }
    rewrite (total_size_perm _ _ Hl') in Htot. rewrite (len_perm _ _ Hl') in Hcnt.
    change (len []) with 0. simpl. lia.
Qed.

Definition written_fixture : Directory :=
  (write digest_fixture record_name (str_bytes "new") (directory_fixture true)).2.

Lemma write_respects_limits_witness :
  total_size (attempts (dk_view (di_disk written_fixture))) <= jl_max_bytes (di_limits written_fixture)
  /\ len (attempts (dk_view (di_disk written_fixture))) <= jl_max_attempts (di_limits written_fixture).
Proof.
  apply (write_respects_limits digest_fixture record_name (str_bytes "new") (directory_fixture true)).
  - done.
  - apply directory_fixture_usable.
  - done.
  - vm_compute. reflexivity.
Defined.
