(* ===== verification/JournalRefinement.v ===== *)
(** The record directory implements an atomic map.

    [JournalFiles] models [journal/files.rs] with its temporary file, its renames
    and synchronisations, the answers of the operating system and crashes.  Here
    is what a client may assume instead: a map whose writes take effect or not,
    where a write that failed stays in doubt until the directory is opened again.
    Every run of the directory is a run of the map. *)

From S2P Require Import Prelude Os RecordStore JournalFiles.
Open Scope N_scope.

(** What a client sees. *)
Inductive event : Type :=
| EvRead (name : string) (r : result JournalError.t (option bytes))
| EvWrite (name : string) (payload : bytes) (r : result JournalError.t unit)
| EvInventory (r : result JournalError.t (list (string * N)))
| EvRestart.

(** * The abstract map *)

Record atomic := {
  am_map : string -> option bytes;
  am_doubt : option (string * bytes);
}.

Definition put (name : string) (payload : bytes) (m : string -> option bytes) (n : string) : option bytes :=
  if bool_decide (n = name) then Some payload else m n.

Inductive atomic_step : atomic -> event -> atomic -> Prop :=
| am_read (m : string -> option bytes) (n : string) :
    atomic_step {| am_map := m; am_doubt := None |} (EvRead n (Ok (m n)))
                {| am_map := m; am_doubt := None |}
| am_read_failed (a : atomic) (n : string) (e : JournalError.t) :
    atomic_step a (EvRead n (Err e)) a
| am_write (m : string -> option bytes) (n : string) (b : bytes) :
    atomic_step {| am_map := m; am_doubt := None |} (EvWrite n b (Ok tt))
                {| am_map := put n b m; am_doubt := None |}
| am_refused (a : atomic) (n : string) (b : bytes) (e : JournalError.t) :
    atomic_step a (EvWrite n b (Err e)) a
| am_in_doubt (m : string -> option bytes) (n : string) (b : bytes) (e : JournalError.t) :
    atomic_step {| am_map := m; am_doubt := None |} (EvWrite n b (Err e))
                {| am_map := m; am_doubt := Some (n, b) |}
| am_inventory (a : atomic) (r : result JournalError.t (list (string * N))) :
    atomic_step a (EvInventory r) a
| am_restart (m : string -> option bytes) (doubt : option (string * bytes)) :
    atomic_step {| am_map := m; am_doubt := doubt |} EvRestart {| am_map := m; am_doubt := None |}
| am_resolved (m : string -> option bytes) (n : string) (b : bytes) :
    atomic_step {| am_map := m; am_doubt := Some (n, b) |} EvRestart
                {| am_map := put n b m; am_doubt := None |}.

(** * The directory *)

Section Refinement.
Context (sha256 : bytes -> bytes).
Context (sha256_length : forall b, List.length (sha256 b) = 32%nat).

(** One call, or a stop of the process or of the machine followed by an opening. *)
Inductive directory_step : Directory -> event -> Directory -> Prop :=
| ds_read (s s' : Directory) (n : string) (r : result JournalError.t (option bytes)) :
    n <> PENDING -> read sha256 n s = (r, s') -> directory_step s (EvRead n r) s'
| ds_write (s s' : Directory) (n : string) (b : bytes) (r : result JournalError.t unit) :
    n <> PENDING -> write sha256 n b s = (r, s') -> directory_step s (EvWrite n b r) s'
| ds_inventory (s s' : Directory) (r : result JournalError.t (list (string * N))) :
    inventory s = (r, s') -> directory_step s (EvInventory r) s'
| ds_restart (s s' : Directory) (d d' : Disk) (oe : open_env) (limits : JournalLimits)
    (os : nat -> fs_env) :
    d = di_disk s \/ crash (di_disk s) d -> honest (oe_fs oe) -> (forall k, honest (os k)) ->
    open oe limits os d = (Ok s', d') -> directory_step s EvRestart s'.

(** The disk, now or after a crash, holds the map, up to a write in doubt. *)
Definition holds (a : atomic) (d : Disk) : Prop :=
  published d
  /\ forall n, record_at sha256 d n = am_map a n
     \/ exists b, am_doubt a = Some (n, b) /\ record_at sha256 d n = Some b.

Record refines (s : Directory) (a : atomic) : Prop := {
  rf_usable : usable s;
  rf_doubt : di_poisoned s = bool_decide (is_Some (am_doubt a));
  rf_holds : forall d, d = di_disk s \/ crash (di_disk s) d -> holds a d;
}.

Lemma refines_settled (s : Directory) (m : string -> option bytes) :
  usable s -> di_poisoned s = false -> (forall n, record_at sha256 (di_disk s) n = m n) ->
  refines s {| am_map := m; am_doubt := None |}.
Proof.
  intros Hs Hp Hm. split; [done|done|]. intros d Hd. destruct (usable_crash sha256 s d Hs Hp Hd) as [Hpub Hrec].
  split; [done|]. intros n. left. by rewrite Hrec.
Qed.

(** A call that leaves the disk alone. *)
Lemma refines_same (s : Directory) (a : atomic) :
  refines s a -> refines (step_to s (di_disk s) (di_poisoned s)) a.
Proof. intros [Hu Hd Hh]. split; [by apply usable_query|done|done]. Qed.

Lemma refines_lookup (s : Directory) (m : string -> option bytes) (n : string) :
  refines s {| am_map := m; am_doubt := None |} -> record_at sha256 (di_disk s) n = m n.
Proof. intros [_ _ Hh]. destruct (Hh _ (or_introl eq_refl)) as [_ Hn]. by destruct (Hn n) as [?|(b & ? & _)]. Qed.

Lemma write_simulated (s s' : Directory) (a : atomic) (n : string) (b : bytes)
  (r : result JournalError.t unit) :
  refines s a -> n <> PENDING -> write sha256 n b s = (r, s') ->
  exists a', atomic_step a (EvWrite n b r) a' /\ refines s' a'.
Proof.
  intros Hr Hn Hw.
  pose proof (write_spec sha256 sha256_length n b s r s' (rf_usable _ _ Hr) Hn Hw) as (Hu' & _ & _).
  destruct (write_cases sha256 _ _ _ _ _ Hw) as [[Hbad ->]|(Hp & _ & d1 & recs & _ & -> & _)].
  { exists a. split; [|by apply refines_same]. destruct r; [done|]. constructor. }
  destruct a as [m doubt]. pose proof (rf_doubt _ _ Hr) as Hdoubt. rewrite Hp in Hdoubt.
  destruct doubt; [done|clear Hdoubt].
  assert (Hafter := fun d Hd => write_then_crash sha256 sha256_length n b s _ r d (rf_usable _ _ Hr) Hp Hn Hw Hd).
  assert (Hm : forall k, record_at sha256 (di_disk s) k = m k) by (intros k; by apply refines_lookup).
  destruct r as [[]|e].
  - exists {| am_map := put n b m; am_doubt := None |}. split; [constructor|].
    apply refines_settled; [done|done|]. intros k. destruct (Hafter _ (or_introl eq_refl)) as (_ & Hk & Hok).
    unfold put. case_bool_decide as E; [subst k; by apply Hok|]. rewrite <- Hm.
    by destruct (Hk k) as [?|[? _]].
  - exists {| am_map := m; am_doubt := Some (n, b) |}. split; [constructor|].
    split; [done|done|]. intros d Hd. destruct (Hafter d Hd) as (Hpub & Hk & _). split; [done|].
    intros k. rewrite <- Hm. destruct (Hk k) as [?|[-> ?]]; [by left|right]. by exists b.
Qed.

Lemma restart_simulated (s s' : Directory) (a : atomic) (d d' : Disk) (oe : open_env)
  (limits : JournalLimits) (os : nat -> fs_env) :
  refines s a -> d = di_disk s \/ crash (di_disk s) d -> honest (oe_fs oe) -> (forall k, honest (os k)) ->
  open oe limits os d = (Ok s', d') ->
  exists a', atomic_step a EvRestart a' /\ refines s' a'.
Proof.
  intros Hr Hd Hoe Hos Hopen. destruct (rf_holds _ _ Hr d Hd) as [Hpub Hrec].
  apply (open_fresh sha256) in Hopen as (Hf & Hpend & Hpois & Hos'); [|done].
  assert (Hu : usable s') by (eapply fresh_usable; [rewrite Hos'|..]; done).
  assert (Hsettle : forall m, (forall n, record_at sha256 d n = m n) ->
    refines s' {| am_map := m; am_doubt := None |})
    by (intros m Hm; apply refines_settled; [done|done|]; intros n; by rewrite (ff_record _ _ _ Hf)).
  destruct a as [m [[n b]|]]; cbn [am_map am_doubt] in Hrec.
  - destruct (decide (record_at sha256 d n = Some b)) as [E|E].
    + exists {| am_map := put n b m; am_doubt := None |}. split; [constructor|]. apply Hsettle. intros k.
      unfold put. case_bool_decide as Ek; [by subst|]. by destruct (Hrec k) as [?|(b' & [= -> ->] & _)].
    + exists {| am_map := m; am_doubt := None |}. split; [constructor|]. apply Hsettle. intros k.
      by destruct (Hrec k) as [?|(b' & [= -> ->] & ?)].
  - exists {| am_map := m; am_doubt := None |}. split; [constructor|]. apply Hsettle. intros k.
    by destruct (Hrec k) as [?|(b' & ? & _)].
Qed.

(** Forward simulation. *)
Lemma directory_simulated (s s' : Directory) (e : event) (a : atomic) :
  refines s a -> directory_step s e s' -> exists a', atomic_step a e a' /\ refines s' a'.
Proof.
  intros Hr Hs. destruct Hs as [s s' n r Hn Hread|s s' n b r Hn Hw|s s' r Hi|s s' d d' oe limits os Hd Hoe Hos Ho].
  - unfold read, query in Hread. apply pair_equal_spec in Hread as [Hread <-]. exists a.
    split; [|by apply refines_same]. destruct r as [o|x]; [|constructor].
    pose proof (rf_doubt _ _ Hr) as Hdoubt. destruct (di_poisoned s) eqn:Hp.
    { unfold read_record, healthy in Hread. done. }
    apply read_record_spec in Hread; [|apply (rf_usable _ _ Hr)|done].
    destruct a as [m [|]]; [done|]. rewrite Hread, (refines_lookup s m n Hr). constructor.
  - by eapply write_simulated.
  - unfold inventory, query in Hi. apply pair_equal_spec in Hi as [_ <-]. exists a.
    split; [constructor|by apply refines_same].
  - by eapply restart_simulated.
Qed.
End Refinement.

(** Runs of a labelled transition system. *)
Inductive run {A : Type} (step : A -> event -> A -> Prop) : A -> list event -> A -> Prop :=
| run_nil (a : A) : run step a [] a
| run_cons (a b c : A) (e : event) (es : list event) :
    step a e b -> run step b es c -> run step a (e :: es) c.

(** C13: the record directory refines an atomic map.  Every sequence of reads,
    writes and restarts of the directory, whatever its system calls answer and
    wherever it is interrupted, shows its client exactly what a map with atomic
    writes could show: a write that returned [Ok] is seen by every later read,
    also after crashes; one that failed is refused, or stays in doubt until the
    restart that settles it once and for all. *)
Theorem directory_refines_atomic_map (sha256 : bytes -> bytes) (s s' : Directory) (es : list event) :
  (forall b, List.length (sha256 b) = 32%nat) -> usable s -> di_poisoned s = false ->
  run (directory_step sha256) s es s' ->
  exists a', run atomic_step {| am_map := record_at sha256 (di_disk s); am_doubt := None |} es a'
    /\ refines sha256 s' a'.
Proof.
  intros Hsha Hu Hp Hrun. assert (Hr : refines sha256 s {| am_map := record_at sha256 (di_disk s); am_doubt := None |})
    by (by apply refines_settled).
  revert Hr. generalize {| am_map := record_at sha256 (di_disk s); am_doubt := None |} as a. clear Hu Hp.
  induction Hrun as [s|s1 s2 s3 e es Hs Hrun IH]; intros a Hr; [exists a; split; [constructor|done]|].
  destruct (directory_simulated sha256 Hsha _ _ _ _ Hr Hs) as (a2 & Ha & Hr2).
  destruct (IH a2 Hr2) as (a3 & Hrun' & Hr3). exists a3. split; [by econstructor|done].
Qed.

(** A write fails, the machine stops with the old entry on the disk, and the
    directory opened afterwards still reads it. *)
Lemma directory_refines_atomic_map_witness :
  exists a', run atomic_step
      {| am_map := record_at digest_fixture (di_disk (directory_fixture false)); am_doubt := None |}
      [EvWrite record_name (str_bytes "new") (Err (JournalError.Io OtherKind)); EvRestart;
       EvRead record_name (Ok (Some (str_bytes "old")))] a'
    /\ refines digest_fixture (read digest_fixture record_name reopened).2 a'.
Proof.
  apply (directory_refines_atomic_map digest_fixture (directory_fixture false)).
  - done.
  - apply directory_fixture_usable.
  - done.
  - apply (run_cons _ _ failed_write); [apply ds_write; [done|vm_compute; reflexivity]|].
    apply (run_cons _ _ reopened);
      [apply (ds_restart _ _ _ crashed_fixture
        (open open_fixture default_limits (fun _ => os_fixture true) crashed_fixture).2
        open_fixture default_limits (fun _ => os_fixture true));
       [right; apply crashed_fixture_crash|done|done|vm_compute; reflexivity]|].
    eapply run_cons; [apply ds_read; [done|vm_compute; reflexivity]|]. vm_compute. constructor.
Defined.
