(* ===== verification/JournalRecord.v ===== *)
(** The durable record of one attempt ([rust/worker/src/journal.rs],
    [journal/uploads.rs], [journal/uploads/multipart.rs], [journal/logs.rs]):
    its data and the validation every stored record passes, when it is written
    and when it is read back.

    What the record code uses of other crates is the class [Libraries]. *)

From S2P Require Import Prelude Strings Protocol Lease Control Execution Uploads Phase.
From S2P Require Import LogRegistration Completion Os RecordStore.
Open Scope N_scope.

Record ExitEvidence := {
  ev_exit_code : Z;
  ev_oom_killed : bool;
}.

Record OutputUpload := {
  ou_declaration : CreateUploadRequest;
  ou_upload_id : string;
  ou_object_key : string;
  ou_finalization : option FinalizeUploadRequest;
  ou_response : option FinalizeUploadResponse;
  ou_parts : list CompletedPart;
}.

Record LogUpload := {
  lu_declaration : CreateUploadRequest;
  lu_stream : Z;
  lu_first_sequence : N;
  lu_last_sequence : N;
  lu_gaps : list LogGap;
  lu_upload_id : string;
  lu_object_key : string;
  lu_finalization : option FinalizeUploadRequest;
  lu_response : option FinalizeUploadResponse;
  lu_registration : option RegisterLogSegmentRequest;
  lu_registered : bool;
}.

(** [Record]. *)
Record AttemptRecord := {
  rc_assignment : Assignment;
  rc_container_id : string;
  rc_exit : option ExitEvidence;
  rc_phase_reports : list ReportPhaseRequest;
  rc_completion : option CompleteAttemptRequest;
  rc_completion_response : option CompleteAttemptResponse;
  rc_outputs : list OutputUpload;
  rc_rejected_completion : option CompleteAttemptRequest;
  rc_rejected_response : option CompleteAttemptResponse;
  rc_logs : list LogUpload;
}.

(** [SessionRecord] of [journal/session.rs]. *)
Record SessionRecord := {
  sr_registration : RegisterWorkerRequest;
  sr_generation : N;
  sr_previous_session_id : string;
}.

#[global] Instance ExitEvidence_eq_dec : EqDecision ExitEvidence.
Proof. solve_decision. Defined.

(** SHA-256 (ring), JSON (serde_json) and the record encodings (prost). *)
Class Libraries := {
  lib_sha256 : bytes -> bytes;
  lib_value : bytes -> option Value;
  lib_job : bytes -> option RawJob;
  lib_metrics : bytes -> option (list (string * string));
  lib_payload : Payload -> option bytes;
  lib_manifest : bytes -> option Manifest;
  lib_encode : AttemptRecord -> bytes;
  lib_decode : bytes -> option AttemptRecord;
  lib_encode_session : SessionRecord -> bytes;
  lib_decode_session : bytes -> option SessionRecord;
}.

(** What is relied on: a message is decoded to what was encoded. *)
Class LibraryLaws {lib : Libraries} := {
  lib_round_trip : forall r, lib_decode (lib_encode r) = Some r;
  lib_session_round_trip : forall r, lib_decode_session (lib_encode_session r) = Some r;
}.

Section Validation.
Context {lib : Libraries}.

(** [map_err(|_| JournalError::Invalid)?]. *)
Definition invalid {E A : Type} (m : result E A) : result JournalError.t A :=
  map_err (fun _ => JournalError.Invalid) m.

Definition execution_of (a : Assignment) : result JournalError.t ExecutionSpec :=
  invalid (from_assignment lib_sha256 lib_value lib_job a).

Definition completion_request_ok (r : CompleteAttemptRequest) : result JournalError.t unit :=
  invalid (Completion.validate_request lib_sha256 lib_metrics lib_payload r).

Definition completion_response_ok (q : CompleteAttemptRequest) (r : CompleteAttemptResponse)
  : result JournalError.t CompletionStatus :=
  invalid (Completion.validate_response lib_manifest q r).

Definition exit_code_of (r : AttemptRecord) : option Z := ev_exit_code <$> rc_exit r.

(** * Completion evidence *)

Definition reason_is (q : CompleteAttemptRequest) (reason : FailureReason.t) : bool :=
  (ca_reason q =? FailureReason.to_i32 reason)%Z.

Definition bad_replacement (r : AttemptRecord) (previous : CompleteAttemptRequest) : bool :=
  match rc_completion r with
  | None => true
  | Some current =>
      negb (bool_decide (ca_authority current = ca_authority previous))
      || bool_decide (ca_completion_id current = ca_completion_id previous)
      || negb (reason_is current FailureReason.UserCancelled)
      || negb (ca_stopped current)
      || negb (bool_decide (ca_outputs current = []))
      || ca_logs_complete current
      || negb (bool_decide (ca_exit_code current = exit_code_of r))
  end.

Definition validate_rejected (r : AttemptRecord) : result JournalError.t unit :=
  match rc_rejected_completion r, rc_rejected_response r with
  | None, None => Ok tt
  | Some previous, Some response =>
      let? _ := completion_request_ok previous in
      let? _ := completion_response_ok previous response in
      if negb (bool_decide (ca_authority previous = as_authority (rc_assignment r)))
         || negb (bool_decide (ca_exit_code previous = exit_code_of r))
         || reason_is previous FailureReason.UserCancelled
         || negb (cs_decision response =? Decision_.to_i32 Decision_.StopRequested)%Z
         || bad_replacement r previous
      then Err JournalError.Invalid
      else Ok tt
  | _, _ => Err JournalError.Invalid
  end.

Definition last_phase (r : AttemptRecord) : option Z := rp_phase <$> last (rc_phase_reports r).

Definition finalizing : Z := AttemptState.to_i32 AttemptState.Finalizing.

(** [self.exit.is_none_or(|e| e.exit_code != 0 || e.oom_killed)]. *)
Definition unclean_exit (r : AttemptRecord) : bool :=
  match rc_exit r with
  | None => true
  | Some e => negb (ev_exit_code e =? 0)%Z || ev_oom_killed e
  end.

Definition validate_completion (r : AttemptRecord) : result JournalError.t unit :=
  let? _ := validate_rejected r in
  match rc_completion r with
  | None => if is_none (rc_completion_response r) then Ok tt else Err JournalError.Invalid
  | Some request =>
      let? _ := completion_request_ok request in
      if negb (bool_decide (ca_authority request = as_authority (rc_assignment r)))
         || match ca_exit_code request with
            | Some code => negb (bool_decide (exit_code_of r = Some code))
            | None => false
            end
      then Err JournalError.Invalid
      else if reason_is request FailureReason.Unspecified
              && (negb (bool_decide (last_phase r = Some finalizing)) || unclean_exit r)
      then Err JournalError.Invalid
      else match rc_completion_response r with
      | None => Ok tt
      | Some response => let? _ := completion_response_ok request response in Ok tt
      end
  end.

(** * Output uploads *)

Definition bad_part (count previous : N) (part : CompletedPart) : bool :=
  (cp_number part <=? previous)
  || (count <? cp_number part)
  || negb (lower_hash (cp_sha256 part))
  || (negb (is_empty_str (cp_etag part)) && negb (valid_etag (cp_etag part))).

Definition validate_parts (u : OutputUpload) : result JournalError.t unit :=
  let count := cu_part_count (ou_declaration u) in
  if (count <? len (ou_parts u)) || ((count =? 1) && negb (bool_decide (ou_parts u = [])))
  then Err JournalError.Invalid
  else
    let? _ := rfold (fun previous part =>
      if bad_part count previous part then Err JournalError.Invalid else Ok (cp_number part))
      0 (ou_parts u) in
    Ok tt.

(** The sets a pass over the outputs collects. *)
Record seen_ids := {
  si_names : list string;
  si_requests : list string;
  si_uploads : list string;
  si_artifacts : list string;
}.

Definition no_ids : seen_ids :=
  {| si_names := []; si_requests := []; si_uploads := []; si_artifacts := [] |}.

Definition with_name (n : string) (s : seen_ids) : seen_ids :=
  {| si_names := n :: si_names s; si_requests := si_requests s; si_uploads := si_uploads s;
     si_artifacts := si_artifacts s |}.
Definition with_request (n : string) (s : seen_ids) : seen_ids :=
  {| si_names := si_names s; si_requests := n :: si_requests s; si_uploads := si_uploads s;
     si_artifacts := si_artifacts s |}.
Definition with_upload (n : string) (s : seen_ids) : seen_ids :=
  {| si_names := si_names s; si_requests := si_requests s; si_uploads := n :: si_uploads s;
     si_artifacts := si_artifacts s |}.
Definition with_artifact (n : string) (s : seen_ids) : seen_ids :=
  {| si_names := si_names s; si_requests := si_requests s; si_uploads := si_uploads s;
     si_artifacts := n :: si_artifacts s |}.

(** The finalization of an upload agrees with its declaration and scope. *)
Definition finalization_mismatch (finalize : FinalizeUploadRequest) (object : ObjectVersion)
  (r : CreateUploadRequest) (upload_id object_key : string) : bool :=
  negb (bool_decide (fu_authority finalize = cu_authority r))
  || negb (bool_decide (fu_upload_id finalize = upload_id))
  || negb (bool_decide (ov_key object = object_key))
  || negb (ov_size_bytes object =? cu_size_bytes r)
  || negb (bool_decide (ov_sha256 object = cu_sha256 r)).

Definition validate_output (record : AttemptRecord) (execution : ExecutionSpec) (seen : seen_ids)
  (output : OutputUpload) : result JournalError.t seen_ids :=
  let r := ou_declaration output in
  let? _ := invalid (validate_create r) in
  let? _ := validate_parts output in
  let? declared := ok_or (List.find (fun o => bool_decide (out_name o = cu_name r))
                            (js_outputs (job_spec (es_job execution)))) JournalError.Invalid in
  if negb (bool_decide (cu_authority r = as_authority (rc_assignment record)))
     || negb (cu_kind r =? ArtifactKind.to_i32 ArtifactKind.Output)%Z
     || (out_max_bytes declared <? cu_size_bytes r)
     || bool_decide (cu_name r ∈ si_names seen)
     || bool_decide (cu_request_id r ∈ si_requests seen)
  then Err JournalError.Invalid
  else
    let seen := with_request (cu_request_id r) (with_name (cu_name r) seen) in
    if is_empty_str (ou_upload_id output) then
      if negb (is_empty_str (ou_object_key output))
         || negb (bool_decide (ou_parts output = []))
         || negb (is_none (ou_finalization output))
         || negb (is_none (ou_response output))
      then Err JournalError.Invalid
      else Ok seen
    else
      let? a := ok_or (cu_authority r) JournalError.Invalid in
      if negb (canonical_uuid (ou_upload_id output))
         || negb (scoped_key (ou_object_key output) a (ou_upload_id output))
         || bool_decide (ou_upload_id output ∈ si_uploads seen)
      then Err JournalError.Invalid
      else
        let seen := with_upload (ou_upload_id output) seen in
        match ou_finalization output with
        | None => if negb (is_none (ou_response output)) then Err JournalError.Invalid else Ok seen
        | Some finalize =>
            let? _ := invalid (validate_finalization finalize) in
            let? object := ok_or (fu_object finalize) JournalError.Invalid in
            if finalization_mismatch finalize object r (ou_upload_id output) (ou_object_key output)
               || bool_decide (fu_request_id finalize ∈ si_requests seen)
               || ((cu_part_count r =? 1) && negb (bool_decide (fu_parts finalize = [])))
               || ((1 <? cu_part_count r)
                   && (negb (bool_decide (fu_parts finalize = ou_parts output))
                       || negb (len (fu_parts finalize) =? cu_part_count r)))
            then Err JournalError.Invalid
            else
              let seen := with_request (fu_request_id finalize) seen in
              match ou_response output with
              | None => Ok seen
              | Some response =>
                  let? _ := invalid (validate_artifact finalize response) in
                  if bool_decide (fr_artifact_id response ∈ si_artifacts seen)
                  then Err JournalError.Invalid
                  else Ok (with_artifact (fr_artifact_id response) seen)
              end
        end.

Definition validate_outputs (record : AttemptRecord) : result JournalError.t unit :=
  if bool_decide (length (rc_outputs record) = 0%nat) then Ok tt
  else if (64 <? len (rc_outputs record))
          || negb (bool_decide (last_phase record = Some finalizing))
  then Err JournalError.Invalid
  else
    let? execution := execution_of (rc_assignment record) in
    let? _ := rfold (validate_output record execution) no_ids (rc_outputs record) in
    Ok tt.

(** * Log uploads *)

Record log_pass := {
  lp_ids : list string;
  lp_uploads : list string;
  lp_artifacts : list string;
  lp_last : two N;
  lp_registered : two bool;
}.

Definition first_pass : log_pass :=
  {| lp_ids := []; lp_uploads := []; lp_artifacts := []; lp_last := Two 0 0;
     lp_registered := Two true true |}.

Definition add_id (id : string) (p : log_pass) : log_pass :=
  {| lp_ids := id :: lp_ids p; lp_uploads := lp_uploads p; lp_artifacts := lp_artifacts p;
     lp_last := lp_last p; lp_registered := lp_registered p |}.
Definition add_upload (id : string) (p : log_pass) : log_pass :=
  {| lp_ids := lp_ids p; lp_uploads := id :: lp_uploads p; lp_artifacts := lp_artifacts p;
     lp_last := lp_last p; lp_registered := lp_registered p |}.
Definition add_artifact (id : string) (p : log_pass) : log_pass :=
  {| lp_ids := lp_ids p; lp_uploads := lp_uploads p; lp_artifacts := id :: lp_artifacts p;
     lp_last := lp_last p; lp_registered := lp_registered p |}.
Definition advance (i : bool) (last : N) (registered : bool) (p : log_pass) : log_pass :=
  {| lp_ids := lp_ids p; lp_uploads := lp_uploads p; lp_artifacts := lp_artifacts p;
     lp_last := set2 i last (lp_last p); lp_registered := set2 i registered (lp_registered p) |}.

Definition stream_index (stream : Z) : option bool :=
  match LogStream.try_from stream with
  | Some LogStream.Stdout => Some false
  | Some LogStream.Stderr => Some true
  | _ => None
  end.

Definition stream_name (i : bool) : string := if i then "stderr" else "stdout".

(** The registration an uploaded segment will make, with the declaration's
    request id standing for the identities not known yet. *)
Definition probe_of (log : LogUpload) : RegisterLogSegmentRequest :=
  let r := lu_declaration log in
  {| rg_authority := cu_authority r; rg_request_id := cu_request_id r;
     rg_artifact_id := cu_request_id r; rg_stream := lu_stream log;
     rg_first_sequence := lu_first_sequence log; rg_last_sequence := lu_last_sequence log;
     rg_gaps := lu_gaps log |}.

Definition registration_mismatch (log : LogUpload) (register : RegisterLogSegmentRequest)
  (response : FinalizeUploadResponse) : bool :=
  negb (bool_decide (rg_authority register = cu_authority (lu_declaration log)))
  || negb (bool_decide (rg_artifact_id register = fr_artifact_id response))
  || negb (rg_stream register =? lu_stream log)%Z
  || negb (rg_first_sequence register =? lu_first_sequence log)
  || negb (rg_last_sequence register =? lu_last_sequence log)
  || negb (bool_decide (rg_gaps register = lu_gaps log)).

Definition validate_log (record : AttemptRecord) (p : log_pass) (log : LogUpload)
  : result JournalError.t log_pass :=
  let r := lu_declaration log in
  let? _ := invalid (validate_create r) in
  let? index := ok_or (stream_index (lu_stream log)) JournalError.Invalid in
  if negb (bool_decide (cu_authority r = as_authority (rc_assignment record)))
     || negb (cu_kind r =? ArtifactKind.to_i32 ArtifactKind.Log)%Z
     || negb (bool_decide (cu_name r = stream_name index))
     || (cu_size_bytes r =? 0)
     || (1048576 <? cu_size_bytes r)
     || bool_decide (cu_request_id r ∈ lp_ids p)
     || negb (lu_first_sequence log =? u64_add (get2 index (lp_last p)) 1)
     || negb (get2 index (lp_registered p))
  then Err JournalError.Invalid
  else
    let p := advance index (lu_last_sequence log) (lu_registered log) (add_id (cu_request_id r) p) in
    let? _ := invalid (LogRegistration.validate_request (probe_of log)) in
    if is_empty_str (lu_upload_id log) then
      if negb (is_empty_str (lu_object_key log))
         || negb (is_none (lu_finalization log))
         || negb (is_none (lu_response log))
         || negb (is_none (lu_registration log))
         || lu_registered log
      then Err JournalError.Invalid
      else Ok p
    else
      let? a := ok_or (cu_authority r) JournalError.Invalid in
      if negb (canonical_uuid (lu_upload_id log))
         || negb (scoped_key (lu_object_key log) a (lu_upload_id log))
         || bool_decide (lu_upload_id log ∈ lp_uploads p)
      then Err JournalError.Invalid
      else
        let p := add_upload (lu_upload_id log) p in
        match lu_finalization log with
        | None =>
            if negb (is_none (lu_response log)) || negb (is_none (lu_registration log))
               || lu_registered log
            then Err JournalError.Invalid else Ok p
        | Some finalize =>
            let? _ := invalid (validate_finalization finalize) in
            let? object := ok_or (fu_object finalize) JournalError.Invalid in
            if finalization_mismatch finalize object r (lu_upload_id log) (lu_object_key log)
               || bool_decide (fu_request_id finalize ∈ lp_ids p)
            then Err JournalError.Invalid
            else
              let p := add_id (fu_request_id finalize) p in
              match lu_response log with
              | None =>
                  if negb (is_none (lu_registration log)) || lu_registered log
                  then Err JournalError.Invalid else Ok p
              | Some response =>
                  let? _ := invalid (validate_artifact finalize response) in
                  if bool_decide (fr_artifact_id response ∈ lp_artifacts p)
                  then Err JournalError.Invalid
                  else
                    let p := add_artifact (fr_artifact_id response) p in
                    match lu_registration log with
                    | None => if lu_registered log then Err JournalError.Invalid else Ok p
                    | Some register =>
                        let? _ := invalid (LogRegistration.validate_request register) in
                        if registration_mismatch log register response
                           || bool_decide (rg_request_id register ∈ lp_ids p)
                        then Err JournalError.Invalid
                        else Ok (add_id (rg_request_id register) p)
                    end
              end
        end.

Definition validate_logs (record : AttemptRecord) : result JournalError.t unit :=
  if (1024 <? len (rc_logs record))
     || (negb (bool_decide (length (rc_logs record) = 0%nat))
         && bool_decide (rc_phase_reports record = []))
  then Err JournalError.Invalid
  else
    let? _ := rfold (validate_log record) first_pass (rc_logs record) in
    Ok tt.

(** * The record *)

(** The loop over the phase events: the previous phase and the ids seen. *)
Definition check_phase (record : AttemptRecord) (a : AttemptAuthority) (acc : Z * list string)
  (entry : nat * ReportPhaseRequest) : result JournalError.t (Z * list string) :=
  let '(previous, ids) := acc in
  let '(index, r) := entry in
  let? _ := invalid (Phase.validate_request r) in
  if negb (bool_decide (rp_authority r = Some a))
     || (rp_phase r <=? previous)%Z
     || (bool_decide (index = 0%nat)
         && negb (rp_phase r =? AttemptState.to_i32 AttemptState.Starting)%Z)
     || bool_decide (rp_event_id r ∈ ids)
     || (negb (rp_phase r =? AttemptState.to_i32 AttemptState.Starting)%Z
         && negb (bool_decide (rp_container_id r = rc_container_id record)))
     || ((rp_phase r =? finalizing)%Z
         && negb (bool_decide (rp_exit_code r = exit_code_of record)))
  then Err JournalError.Invalid
  else Ok (rp_phase r, rp_event_id r :: ids).

Definition bad_exit_evidence (record : AttemptRecord) : bool :=
  match rc_exit record with
  | Some e =>
      is_empty_str (rc_container_id record)
      || negb ((0 <=? ev_exit_code e) && (ev_exit_code e <=? 255))%Z
  | None => false
  end.

Definition validate (record : AttemptRecord) (worker id : string) : result JournalError.t unit :=
  let assignment := rc_assignment record in
  let? a := ok_or (as_authority assignment) JournalError.Invalid in
  if negb (bool_decide (aa_worker_id a = worker))
     || negb (bool_decide (aa_attempt_id a = id))
     || negb (canonical_uuid id)
     || negb (canonical_uuid (aa_job_id a))
     || negb (canonical_uuid (aa_session_id a))
     || (aa_generation a =? 0)
     || (I64_MAX <? aa_generation a)
     || negb (as_lease_duration_ms assignment =? 0)
     || negb (as_phase_remaining_ms assignment =? 0)
     || negb (as_server_time_unix_ms assignment =? 0)%Z
  then Err JournalError.Invalid
  else
    let? _ := execution_of assignment in
    if (3 <? len (rc_phase_reports record))
       || (negb (is_empty_str (rc_container_id record))
           && (negb (lower_hash (rc_container_id record))
               || bool_decide (rc_phase_reports record = [])))
       || bad_exit_evidence record
    then Err JournalError.Invalid
    else
      let? _ := rfold (check_phase record a) (0%Z, []) (imap pair (rc_phase_reports record)) in
      let? _ := validate_completion record in
      let? _ := validate_outputs record in
      let? _ := validate_logs record in
      Ok tt.
End Validation.
