(* ===== verification/Codec.v ===== *)
(** An executable encoding of the journal's records that satisfies the laws of
    [LibraryLaws].  The worker encodes records with prost; the journal's
    theorems only use that decoding inverts encoding, and the codec of this file
    instantiates them at concrete journals. *)

From S2P Require Import Prelude Protocol Lease Control Execution Completion JournalRecord.
Open Scope N_scope.

(** A self-delimiting encoding. *)
Class Ser (A : Type) := {
  ser : A -> bytes;
  des : bytes -> option (A * bytes);
  des_ser : forall a k, des (ser a ++ k) = Some (a, k);
}.

#[export] Program Instance Ser_byte : Ser byte := {
  ser b := [b];
  des l := match l with b :: k => Some (b, k) | [] => None end;
}.
Next Obligation. done. Qed.

#[export] Program Instance Ser_bool : Ser bool := {
  ser b := [if b then "001"%byte else "000"%byte];
  des l := match l with b :: k => Some (bool_decide (b = "001"%byte), k) | [] => None end;
}.
Next Obligation. by intros []. Qed.

Fixpoint ser_pos (p : positive) : bytes :=
  match p with
  | xH => ["000"%byte]
  | xO q => "001"%byte :: ser_pos q
  | xI q => "002"%byte :: ser_pos q
  end.

Fixpoint des_pos (l : bytes) : option (positive * bytes) :=
  match l with
  | [] => None
  | b :: k =>
      if bool_decide (b = "000"%byte) then Some (xH, k)
      else match des_pos k with
           | Some (q, r) => Some ((if bool_decide (b = "001"%byte) then xO q else xI q), r)
           | None => None
           end
  end.

Lemma des_ser_pos (p : positive) (k : bytes) : des_pos (ser_pos p ++ k) = Some (p, k).
Proof. induction p as [p IH|p IH|]; simpl; rewrite ?IH; done. Qed.

#[export] Program Instance Ser_N : Ser N := {
  ser n := match n with N0 => ["000"%byte] | Npos p => "001"%byte :: ser_pos p end;
  des l := match l with
           | [] => None
           | b :: k => if bool_decide (b = "000"%byte) then Some (0, k)
                       else match des_pos k with Some (p, r) => Some (Npos p, r) | None => None end
           end;
}.
Next Obligation. intros [|p] k; simpl; [done|]. by rewrite des_ser_pos. Qed.

#[export] Program Instance Ser_Z : Ser Z := {
  ser n := match n with
           | Z0 => ["000"%byte] | Zpos p => "001"%byte :: ser_pos p | Zneg p => "002"%byte :: ser_pos p
           end;
  des l := match l with
           | [] => None
           | b :: k =>
               if bool_decide (b = "000"%byte) then Some (0%Z, k)
               else match des_pos k with
                    | Some (p, r) => Some ((if bool_decide (b = "001"%byte) then Zpos p else Zneg p), r)
                    | None => None
                    end
           end;
}.
Next Obligation. intros [|p|p] k; simpl; rewrite ?des_ser_pos; done. Qed.

#[export] Program Instance Ser_prod {A B : Type} `{Ser A} `{Ser B} : Ser (A * B) := {
  ser p := ser p.1 ++ ser p.2;
  des l := match des l with
           | Some (a, k) => match des k with Some (b, r) => Some ((a, b), r) | None => None end
           | None => None
           end;
}.
Next Obligation. intros A B ? ? [a b] k. simpl. by rewrite <- (assoc_L (++)), !des_ser. Qed.

#[export] Program Instance Ser_option {A : Type} `{Ser A} : Ser (option A) := {
  ser o := match o with None => ["000"%byte] | Some a => "001"%byte :: ser a end;
  des l := match l with
           | [] => None
           | b :: k => if bool_decide (b = "000"%byte) then Some (None, k)
                       else match des k with Some (a, r) => Some (Some a, r) | None => None end
           end;
}.
Next Obligation. intros A ? [a|] k; simpl; [|done]. by rewrite des_ser. Qed.

(** Lists: a mark before every element and one at the end. *)
Section Lists.
Context {A : Type} `{Ser A}.

Fixpoint ser_list (l : list A) : bytes :=
  match l with
  | [] => ["000"%byte]
  | a :: l' => "001"%byte :: ser a ++ ser_list l'
  end.

Fixpoint des_list (fuel : nat) (l : bytes) : option (list A * bytes) :=
  match fuel, l with
  | O, _ | _, [] => None
  | S n, b :: k =>
      if bool_decide (b = "000"%byte) then Some ([], k)
      else match des k with
           | Some (a, r) => match des_list n r with Some (l', s) => Some (a :: l', s) | None => None end
           | None => None
           end
  end.

Lemma des_ser_list (l : list A) (k : bytes) (fuel : nat) :
  (List.length l < fuel)%nat -> des_list fuel (ser_list l ++ k) = Some (l, k).
Proof.
  revert fuel. induction l as [|a l IH]; intros [|fuel] Hf; simpl in *; try lia; [done|].
  by rewrite <- (assoc_L (++)), des_ser, IH by lia.
Qed.

Lemma ser_list_length (l : list A) : (List.length l < List.length (ser_list l))%nat.
Proof. induction l as [|a l IH]; simpl; [lia|]. rewrite length_app. lia. Qed.

#[export] Program Instance Ser_list : Ser (list A) := {
  ser := ser_list;
  des l := des_list (List.length l) l;
}.
Next Obligation.
  intros l k. apply des_ser_list. rewrite length_app. pose proof (ser_list_length l). lia.
Qed.
End Lists.

(** Along a retraction. *)
Program Definition Ser_iso {A B : Type} `{Ser B} (f : A -> B) (g : B -> A)
  (gf : forall a, g (f a) = a) : Ser A := {|
  ser a := ser (f a);
  des l := match des l with Some (b, k) => Some (g b, k) | None => None end;
|}.
Next Obligation. intros A B ? f g gf a k. simpl. by rewrite des_ser, gf. Qed.

#[export] Instance Ser_string : Ser string :=
  Ser_iso list_byte_of_string string_of_list_byte string_of_list_byte_of_string.

#[export] Program Instance Ser_labels : Ser (gmap string string) :=
  Ser_iso map_to_list list_to_map _.
Next Obligation. intros m. apply list_to_map_to_list. Qed.

(** * The messages *)

#[export] Program Instance Ser_AttemptAuthority : Ser AttemptAuthority :=
  Ser_iso (fun a => (aa_job_id a, aa_attempt_id a, aa_generation a, aa_worker_id a, aa_session_id a))
    (fun '(a, b, c, d, e) => Build_AttemptAuthority a b c d e) _.
Next Obligation. by intros []. Qed.

#[export] Program Instance Ser_Resources : Ser Resources :=
  Ser_iso (fun a => (rs_cpu_millis a, rs_memory_bytes a, rs_scratch_bytes a))
    (fun '(a, b, c) => Build_Resources a b c) _.
Next Obligation. by intros []. Qed.

#[export] Program Instance Ser_ObjectVersion : Ser ObjectVersion :=
  Ser_iso (fun a => (ov_key a, ov_version_id a, ov_size_bytes a, ov_sha256 a))
    (fun '(a, b, c, d) => Build_ObjectVersion a b c d) _.
Next Obligation. by intros []. Qed.

#[export] Program Instance Ser_InputManifest : Ser InputManifest :=
  Ser_iso (fun a => (im_dataset_id a, im_mount_path a, im_archive a, im_file_manifest_json a,
                     im_download_url a, im_expires_unix_ms a, im_dataset_name a))
    (fun '(a, b, c, d, e, f, g) => Build_InputManifest a b c d e f g) _.
Next Obligation. by intros []. Qed.

#[export] Program Instance Ser_Assignment : Ser Assignment :=
  Ser_iso (fun a => (as_authority a, as_image_digest a, as_argv a, as_resources a,
                     as_canonical_job_spec_json a, as_spec_sha256 a, as_lease_duration_ms a,
                     as_server_time_unix_ms a, as_phase_remaining_ms a, as_inputs a))
    (fun '(a, b, c, d, e, f, g, h, i, j) => Build_Assignment a b c d e f g h i j) _.
Next Obligation. by intros []. Qed.

#[export] Program Instance Ser_ReportPhaseRequest : Ser ReportPhaseRequest :=
  Ser_iso (fun a => (rp_authority a, rp_event_id a, rp_phase a, rp_container_id a, rp_exit_code a))
    (fun '(a, b, c, d, e) => Build_ReportPhaseRequest a b c d e) _.
Next Obligation. by intros []. Qed.

#[export] Program Instance Ser_LogGap : Ser LogGap :=
  Ser_iso (fun a => (lg_stream a, lg_first_sequence a, lg_last_sequence a))
    (fun '(a, b, c) => Build_LogGap a b c) _.
Next Obligation. by intros []. Qed.

#[export] Program Instance Ser_OutputReference : Ser OutputReference :=
  Ser_iso (fun a => (or_name a, or_artifact_id a)) (fun '(a, b) => Build_OutputReference a b) _.
Next Obligation. by intros []. Qed.

#[export] Program Instance Ser_CompleteAttemptRequest : Ser CompleteAttemptRequest :=
  Ser_iso (fun a => (ca_authority a, ca_completion_id a, ca_payload_sha256 a, ca_exit_code a,
                     ca_reason a, ca_stopped a, ca_outputs a, ca_logs_complete a, ca_gaps a,
                     ca_metrics_json a))
    (fun '(a, b, c, d, e, f, g, h, i, j) => Build_CompleteAttemptRequest a b c d e f g h i j) _.
Next Obligation. by intros []. Qed.

#[export] Program Instance Ser_CompleteAttemptResponse : Ser CompleteAttemptResponse :=
  Ser_iso (fun a => (cs_decision a, cs_state a, cs_accepted_manifest_json a))
    (fun '(a, b, c) => Build_CompleteAttemptResponse a b c) _.
Next Obligation. by intros []. Qed.

#[export] Program Instance Ser_CreateUploadRequest : Ser CreateUploadRequest :=
  Ser_iso (fun a => (cu_authority a, cu_request_id a, cu_name a, cu_kind a, cu_size_bytes a,
                     cu_sha256 a, cu_part_count a, cu_part_size_bytes a))
    (fun '(a, b, c, d, e, f, g, h) => Build_CreateUploadRequest a b c d e f g h) _.
Next Obligation. by intros []. Qed.

#[export] Program Instance Ser_CompletedPart : Ser CompletedPart :=
  Ser_iso (fun a => (cp_number a, cp_etag a, cp_sha256 a))
    (fun '(a, b, c) => Build_CompletedPart a b c) _.
Next Obligation. by intros []. Qed.

#[export] Program Instance Ser_FinalizeUploadRequest : Ser FinalizeUploadRequest :=
  Ser_iso (fun a => (fu_authority a, fu_request_id a, fu_upload_id a, fu_object a, fu_parts a))
    (fun '(a, b, c, d, e) => Build_FinalizeUploadRequest a b c d e) _.
Next Obligation. by intros []. Qed.

#[export] Program Instance Ser_FinalizeUploadResponse : Ser FinalizeUploadResponse :=
  Ser_iso (fun a => (fr_artifact_id a, fr_object a)) (fun '(a, b) => Build_FinalizeUploadResponse a b) _.
Next Obligation. by intros []. Qed.

#[export] Program Instance Ser_RegisterLogSegmentRequest : Ser RegisterLogSegmentRequest :=
  Ser_iso (fun a => (rg_authority a, rg_request_id a, rg_artifact_id a, rg_stream a,
                     rg_first_sequence a, rg_last_sequence a, rg_gaps a))
    (fun '(a, b, c, d, e, f, g) => Build_RegisterLogSegmentRequest a b c d e f g) _.
Next Obligation. by intros []. Qed.

#[export] Program Instance Ser_ExitEvidence : Ser ExitEvidence :=
  Ser_iso (fun a => (ev_exit_code a, ev_oom_killed a)) (fun '(a, b) => Build_ExitEvidence a b) _.
Next Obligation. by intros []. Qed.

#[export] Program Instance Ser_OutputUpload : Ser OutputUpload :=
  Ser_iso (fun a => (ou_declaration a, ou_upload_id a, ou_object_key a, ou_finalization a,
                     ou_response a, ou_parts a))
    (fun '(a, b, c, d, e, f) => Build_OutputUpload a b c d e f) _.
Next Obligation. by intros []. Qed.

#[export] Program Instance Ser_LogUpload : Ser LogUpload :=
  Ser_iso (fun a => (lu_declaration a, lu_stream a, lu_first_sequence a, lu_last_sequence a,
                     lu_gaps a, lu_upload_id a, lu_object_key a, lu_finalization a, lu_response a,
                     lu_registration a, lu_registered a))
    (fun '(a, b, c, d, e, f, g, h, i, j, k) => Build_LogUpload a b c d e f g h i j k) _.
Next Obligation. by intros []. Qed.

#[export] Program Instance Ser_AttemptRecord : Ser AttemptRecord :=
  Ser_iso (fun a => (rc_assignment a, rc_container_id a, rc_exit a, rc_phase_reports a,
                     rc_completion a, rc_completion_response a, rc_outputs a,
                     rc_rejected_completion a, rc_rejected_response a, rc_logs a))
    (fun '(a, b, c, d, e, f, g, h, i, j) => Build_AttemptRecord a b c d e f g h i j) _.
Next Obligation. by intros []. Qed.

#[export] Program Instance Ser_RegisterWorkerRequest : Ser RegisterWorkerRequest :=
  Ser_iso (fun a => (rw_worker_id a, rw_request_id a, rw_requested_session_id a,
                     rw_protocol_version a, rw_allocatable a, rw_execution_slots a, rw_labels a,
                     rw_capabilities a))
    (fun '(a, b, c, d, e, f, g, h) => Build_RegisterWorkerRequest a b c d e f g h) _.
Next Obligation. by intros []. Qed.

#[export] Program Instance Ser_SessionRecord : Ser SessionRecord :=
  Ser_iso (fun a => (sr_registration a, sr_generation a, sr_previous_session_id a))
    (fun '(a, b, c) => Build_SessionRecord a b c) _.
Next Obligation. by intros []. Qed.

(** * The libraries at concrete functions *)

Definition decode_all {A : Type} `{Ser A} (l : bytes) : option A :=
  match des l with
  | Some (a, []) => Some a
  | _ => None
  end.

Lemma decode_all_ser {A : Type} `{Ser A} (a : A) : decode_all (ser a) = Some a.
Proof. unfold decode_all. pose proof (des_ser a []) as H0. rewrite app_nil_r in H0. by rewrite H0. Qed.

Definition plain_libraries : Libraries := {|
  lib_sha256 := flat_digest;
  lib_value := fun _ => Some value_fixture;
  lib_job := fun _ => Some raw_fixture;
  lib_metrics := fun _ => Some [];
  lib_payload := plain_payload;
  lib_manifest := fun _ => None;
  lib_encode := ser;
  lib_decode := decode_all;
  lib_encode_session := ser;
  lib_decode_session := decode_all;
|}.

Lemma plain_libraries_laws : @LibraryLaws plain_libraries.
Proof. split; intros r; apply decode_all_ser. Qed.
