(* ===== verification/Journal.v ===== *)
(** The worker journal ([rust/worker/src/journal.rs]): durable evidence and
    retry identities, one record per attempt.

    The journal is written against the interface [RecordStore]; [jn_random]
    stands for the system's random source, one draw per identity. *)

From S2P Require Import Prelude Strings Protocol Lease Control Execution Uploads Phase.
From S2P Require Import LogRegistration Completion Os RecordStore JournalRecord.
Open Scope N_scope.

Definition attempt_file (id : string) : string := id +:+ ".attempt".

(** [files::MAX_PAYLOAD]. *)
Definition MAX_RECORD : N := 5242880.

Record Journal (S : Type) := {
  jn_store : S;
  jn_worker_id : string;
  jn_incarnation : option string;
  jn_random : nat -> option bytes;
  jn_draws : nat;
}.
Arguments jn_store {S} j.
Arguments jn_worker_id {S} j.
Arguments jn_incarnation {S} j.
Arguments jn_random {S} j.
Arguments jn_draws {S} j.

(** * Record updates *)

Definition with_container (c : string) (r : AttemptRecord) : AttemptRecord :=
  {| rc_assignment := rc_assignment r; rc_container_id := c; rc_exit := rc_exit r;
     rc_phase_reports := rc_phase_reports r; rc_completion := rc_completion r;
     rc_completion_response := rc_completion_response r; rc_outputs := rc_outputs r;
     rc_rejected_completion := rc_rejected_completion r;
     rc_rejected_response := rc_rejected_response r; rc_logs := rc_logs r |}.

Definition with_exit (e : ExitEvidence) (r : AttemptRecord) : AttemptRecord :=
  {| rc_assignment := rc_assignment r; rc_container_id := rc_container_id r; rc_exit := Some e;
     rc_phase_reports := rc_phase_reports r; rc_completion := rc_completion r;
     rc_completion_response := rc_completion_response r; rc_outputs := rc_outputs r;
     rc_rejected_completion := rc_rejected_completion r;
     rc_rejected_response := rc_rejected_response r; rc_logs := rc_logs r |}.

Definition with_phase (p : ReportPhaseRequest) (r : AttemptRecord) : AttemptRecord :=
  {| rc_assignment := rc_assignment r; rc_container_id := rc_container_id r; rc_exit := rc_exit r;
     rc_phase_reports := rc_phase_reports r ++ [p]; rc_completion := rc_completion r;
     rc_completion_response := rc_completion_response r; rc_outputs := rc_outputs r;
     rc_rejected_completion := rc_rejected_completion r;
     rc_rejected_response := rc_rejected_response r; rc_logs := rc_logs r |}.

Definition with_completion (q : CompleteAttemptRequest) (r : AttemptRecord) : AttemptRecord :=
  {| rc_assignment := rc_assignment r; rc_container_id := rc_container_id r; rc_exit := rc_exit r;
     rc_phase_reports := rc_phase_reports r; rc_completion := Some q;
     rc_completion_response := rc_completion_response r; rc_outputs := rc_outputs r;
     rc_rejected_completion := rc_rejected_completion r;
     rc_rejected_response := rc_rejected_response r; rc_logs := rc_logs r |}.

Definition with_response (s : CompleteAttemptResponse) (r : AttemptRecord) : AttemptRecord :=
  {| rc_assignment := rc_assignment r; rc_container_id := rc_container_id r; rc_exit := rc_exit r;
     rc_phase_reports := rc_phase_reports r; rc_completion := rc_completion r;
     rc_completion_response := Some s; rc_outputs := rc_outputs r;
     rc_rejected_completion := rc_rejected_completion r;
     rc_rejected_response := rc_rejected_response r; rc_logs := rc_logs r |}.

Definition with_superseded (previous : CompleteAttemptRequest) (response : CompleteAttemptResponse)
  (q : CompleteAttemptRequest) (r : AttemptRecord) : AttemptRecord :=
  {| rc_assignment := rc_assignment r; rc_container_id := rc_container_id r; rc_exit := rc_exit r;
     rc_phase_reports := rc_phase_reports r; rc_completion := Some q;
     rc_completion_response := None; rc_outputs := rc_outputs r;
     rc_rejected_completion := Some previous; rc_rejected_response := Some response;
     rc_logs := rc_logs r |}.

Definition with_outputs (o : list OutputUpload) (r : AttemptRecord) : AttemptRecord :=
  {| rc_assignment := rc_assignment r; rc_container_id := rc_container_id r; rc_exit := rc_exit r;
     rc_phase_reports := rc_phase_reports r; rc_completion := rc_completion r;
     rc_completion_response := rc_completion_response r; rc_outputs := o;
     rc_rejected_completion := rc_rejected_completion r;
     rc_rejected_response := rc_rejected_response r; rc_logs := rc_logs r |}.

Definition with_logs (l : list LogUpload) (r : AttemptRecord) : AttemptRecord :=
  {| rc_assignment := rc_assignment r; rc_container_id := rc_container_id r; rc_exit := rc_exit r;
     rc_phase_reports := rc_phase_reports r; rc_completion := rc_completion r;
     rc_completion_response := rc_completion_response r; rc_outputs := rc_outputs r;
     rc_rejected_completion := rc_rejected_completion r;
     rc_rejected_response := rc_rejected_response r; rc_logs := l |}.

(** The assignment as stored: transport timing is zeroed. *)
Definition normalized (a : Assignment) : Assignment :=
  {| as_authority := as_authority a; as_image_digest := as_image_digest a; as_argv := as_argv a;
     as_resources := as_resources a; as_canonical_job_spec_json := as_canonical_job_spec_json a;
     as_spec_sha256 := as_spec_sha256 a; as_lease_duration_ms := 0; as_server_time_unix_ms := 0;
     as_phase_remaining_ms := 0; as_inputs := as_inputs a |}.

Definition initial_record (a : Assignment) : AttemptRecord :=
  {| rc_assignment := normalized a; rc_container_id := EmptyString; rc_exit := None;
     rc_phase_reports := []; rc_completion := None; rc_completion_response := None;
     rc_outputs := []; rc_rejected_completion := None; rc_rejected_response := None;
     rc_logs := [] |}.

(** * Identities *)

(** The version and variant bits of [new_uuid], and its text. *)
Definition stamp (raw : bytes) : bytes :=
  imap (fun n b =>
    if bool_decide (n = 6%nat) then byte_of_N (N.lor (N.land (byte_val b) 15) 64)
    else if bool_decide (n = 8%nat) then byte_of_N (N.lor (N.land (byte_val b) 63) 128)
    else b) raw.

Definition uuid_text (bytes : bytes) : string :=
  hex (take 4 bytes) +:+ "-" +:+ hex (take 2 (drop 4 bytes)) +:+ "-"
  +:+ hex (take 2 (drop 6 bytes)) +:+ "-" +:+ hex (take 2 (drop 8 bytes)) +:+ "-"
  +:+ hex (drop 10 bytes).

Section Operations.
Context {S : Type} {ops : RecordStore S} {lib : Libraries}.

Abbreviation J := (st (Journal S) JournalError.t).

Definition set_store (s : S) (j : Journal S) : Journal S :=
  {| jn_store := s; jn_worker_id := jn_worker_id j; jn_incarnation := jn_incarnation j;
     jn_random := jn_random j; jn_draws := jn_draws j |}.

Definition on_store {A : Type} (m : st S JournalError.t A) : J A :=
  fun j => let (r, s) := m (jn_store j) in (r, set_store s j).

Definition draw (j : Journal S) : Journal S :=
  {| jn_store := jn_store j; jn_worker_id := jn_worker_id j; jn_incarnation := jn_incarnation j;
     jn_random := jn_random j; jn_draws := Datatypes.S (jn_draws j) |}.

(** [fill] fills the 16 bytes or fails. *)
Definition new_uuid : J string :=
  fun j => match jn_random j (jn_draws j) with
           | None => (Err JournalError.Random, draw j)
           | Some raw => (Ok (uuid_text (stamp (resize 16 "000"%byte raw))), draw j)
           end.

(** * Reading and saving *)

Definition attempt_ids : J (list string) :=
  let! records := on_store rs_inventory in
  st_ret records.*1.

Definition decode_record (worker id : string) (bytes : bytes)
  : result JournalError.t AttemptRecord :=
  let? record := ok_or (lib_decode bytes) JournalError.Corrupt in
  let? _ := map_err (fun _ => JournalError.Corrupt) (validate record worker id) in
  if negb (bool_decide (lib_encode record = bytes)) then Err JournalError.Corrupt else Ok record.

Definition load_attempt (id : string) : J (option AttemptRecord) :=
  if negb (canonical_uuid id) then st_err JournalError.Invalid
  else
    let! found := on_store (rs_read (attempt_file id)) in
    match found with
    | None => st_ret None
    | Some bytes =>
        let! worker := st_gets jn_worker_id in
        let! record := st_lift (decode_record worker id bytes) in
        st_ret (Some record)
    end.

Definition required (id : string) : J AttemptRecord :=
  let! found := load_attempt id in
  st_lift (ok_or found JournalError.Invalid).

Definition save (id : string) (record : AttemptRecord) : J unit :=
  let! worker := st_gets jn_worker_id in
  let! _ := st_lift (validate record worker id) in
  if MAX_RECORD <? len (lib_encode record) then st_err JournalError.Limit
  else on_store (rs_write (attempt_file id) (lib_encode record)).

(** * Operations *)

Definition unless {A : Type} (same : bool) (a : A) : J A :=
  if same then st_ret a else st_err JournalError.Conflict.

Definition persist_assignment (assignment : Assignment) : J unit :=
  let! a := st_lift (ok_or (as_authority assignment) JournalError.Invalid) in
  let! worker := st_gets jn_worker_id in
  if negb (bool_decide (aa_worker_id a = worker)) then st_err JournalError.Identity
  else
    let record := initial_record assignment in
    let! _ := st_lift (validate record worker (aa_attempt_id a)) in
    let! saved := load_attempt (aa_attempt_id a) in
    match saved with
    | Some saved => unless (bool_decide (rc_assignment saved = rc_assignment record)) tt
    | None => save (aa_attempt_id a) record
    end.

Definition bind_container (id container_id : string) : J unit :=
  if negb (lower_hash container_id) then st_err JournalError.Invalid
  else
    let! record := required id in
    if bool_decide (rc_phase_reports record = []) then st_err JournalError.Conflict
    else if negb (is_empty_str (rc_container_id record))
    then unless (bool_decide (rc_container_id record = container_id)) tt
    else if negb (is_none (rc_completion record)) then st_err JournalError.Conflict
    else save id (with_container container_id record).

Definition record_exit (id : string) (exit_code : Z) (oom_killed : bool) : J unit :=
  if negb ((0 <=? exit_code) && (exit_code <=? 255))%Z then st_err JournalError.Invalid
  else
    let! record := required id in
    if is_empty_str (rc_container_id record) then st_err JournalError.Conflict
    else
      let evidence := {| ev_exit_code := exit_code; ev_oom_killed := oom_killed |} in
      match rc_exit record with
      | Some old => unless (bool_decide (old = evidence)) tt
      | None => save id (with_exit evidence record)
      end.

Definition phase_allowed (record : AttemptRecord) (phase : AttemptState.t)
  : result JournalError.t bool :=
  match phase with
  | AttemptState.Starting => Ok (bool_decide (rc_phase_reports record = []))
  | AttemptState.Running =>
      Ok (negb (bool_decide (rc_phase_reports record = []))
          && negb (is_empty_str (rc_container_id record)) && is_none (rc_exit record))
  | AttemptState.Finalizing => Ok (negb (is_none (rc_exit record)))
  | _ => Err JournalError.Invalid
  end.

Definition phase_request (record : AttemptRecord) (phase : AttemptState.t) (event_id : string)
  : ReportPhaseRequest :=
  {| rp_authority := as_authority (rc_assignment record); rp_event_id := event_id;
     rp_phase := AttemptState.to_i32 phase;
     rp_container_id := if bool_decide (phase = AttemptState.Starting) then EmptyString
                        else rc_container_id record;
     rp_exit_code := if bool_decide (phase = AttemptState.Finalizing) then exit_code_of record
                     else None |}.

Definition prepare_phase (id : string) (phase : AttemptState.t) : J ReportPhaseRequest :=
  let! record := required id in
  match List.find (fun r => (rp_phase r =? AttemptState.to_i32 phase)%Z) (rc_phase_reports record) with
  | Some saved => st_ret saved
  | None =>
      if negb (is_none (rc_completion record)) then st_err JournalError.Conflict
      else
        let! allowed := st_lift (phase_allowed record phase) in
        if negb allowed then st_err JournalError.Conflict
        else
          let! event_id := new_uuid in
          let request := phase_request record phase event_id in
          let! _ := save id (with_phase request record) in
          st_ret request
  end.

Definition persist_completion (request : CompleteAttemptRequest) : J unit :=
  let! _ := st_lift (completion_request_ok request) in
  let! authority := st_lift (ok_or (ca_authority request) JournalError.Invalid) in
  let! record := required (aa_attempt_id authority) in
  if negb (bool_decide (as_authority (rc_assignment record) = Some authority))
  then st_err JournalError.Identity
  else match rc_completion record with
  | Some saved => unless (bool_decide (saved = request)) tt
  | None =>
      if negb (bool_decide (ca_exit_code request = exit_code_of record))
      then st_err JournalError.Conflict
      else
        let record := with_completion request record in
        let! _ := st_lift (map_err (fun _ => JournalError.Conflict) (validate_completion record)) in
        save (aa_attempt_id authority) record
  end.

Definition supersede_rejected_completion (request : CompleteAttemptRequest) : J unit :=
  let! _ := st_lift (completion_request_ok request) in
  let! authority := st_lift (ok_or (ca_authority request) JournalError.Invalid) in
  let! record := required (aa_attempt_id authority) in
  if negb (bool_decide (as_authority (rc_assignment record) = Some authority))
     || negb (reason_is request FailureReason.UserCancelled)
     || negb (ca_stopped request)
     || negb (bool_decide (ca_outputs request = []))
     || ca_logs_complete request
     || negb (bool_decide (ca_exit_code request = exit_code_of record))
     || negb (is_none (rc_rejected_completion record))
  then st_err JournalError.Conflict
  else
    let! previous := st_lift (ok_or (rc_completion record) JournalError.Conflict) in
    let! response := st_lift (ok_or (rc_completion_response record) JournalError.Conflict) in
    if negb (cs_decision response =? Decision_.to_i32 Decision_.StopRequested)%Z
       || reason_is previous FailureReason.UserCancelled
       || bool_decide (ca_completion_id previous = ca_completion_id request)
       || bool_decide (previous = request)
    then st_err JournalError.Conflict
    else save (aa_attempt_id authority) (with_superseded previous response request record).

(** A later answer may only turn a requested stop into a final refusal. *)
Definition answer_may_replace (saved response : CompleteAttemptResponse) : bool :=
  (cs_decision saved =? Decision_.to_i32 Decision_.StopRequested)%Z
  && match Decision_.try_from (cs_decision response) with
     | Some (Decision_.Fenced | Decision_.AlreadyTerminal) => true
     | _ => false
     end.

Definition record_completion_response (request : CompleteAttemptRequest)
  (response : CompleteAttemptResponse) : J unit :=
  let! authority := st_lift (ok_or (ca_authority request) JournalError.Invalid) in
  let id := aa_attempt_id authority in
  let! record := required id in
  if negb (bool_decide (rc_completion record = Some request)) then st_err JournalError.Conflict
  else
    let! _ := st_lift (completion_response_ok request response) in
    match rc_completion_response record with
    | Some saved =>
        if bool_decide (saved = response) then st_ret tt
        else if negb (answer_may_replace saved response) then st_err JournalError.Conflict
        else save id (with_response response record)
    | None => save id (with_response response record)
    end.

(** * Opening *)

(** The directory must already belong to this worker, or be empty. *)
Definition check_identity (worker : string) : st S JournalError.t unit :=
  let! saved := rs_read ".identity" in
  match saved with
  | Some saved =>
      if bool_decide (saved = str_bytes worker) then st_ret tt else st_err JournalError.Identity
  | None =>
      let! records := rs_inventory in
      if negb (bool_decide (records = [])) then st_err JournalError.Corrupt
      else
        let! session := rs_read ".session" in
        if negb (is_none session) then st_err JournalError.Corrupt
        else rs_write ".identity" (str_bytes worker)
  end.

(** [opened] is what [Directory::open] returned for the root and the limits. *)
Definition open_journal (worker : string) (limits : JournalLimits)
  (opened : result JournalError.t S) (random : nat -> option bytes)
  : result JournalError.t (Journal S) :=
  if negb (canonical_uuid worker)
     || (jl_max_attempts limits =? 0)
     || (4096 <? jl_max_attempts limits)
     || (jl_max_bytes limits =? 0)
     || (34359738368 <? jl_max_bytes limits)
  then Err JournalError.Invalid
  else
    let? store := opened in
    match check_identity worker store with
    | (Err e, _) => Err e
    | (Ok _, store') =>
        Ok {| jn_store := store'; jn_worker_id := worker; jn_incarnation := None;
              jn_random := random; jn_draws := 0 |}
    end.
End Operations.
