(* ===== verification/JournalUploads.v ===== *)
(** Output uploads in the journal ([rust/worker/src/journal/uploads.rs] and
    [journal/uploads/multipart.rs]): each step of an upload is durable before
    the call it authorises, and a repeated step returns the saved request. *)

From S2P Require Import Prelude Strings Protocol Lease Control Execution Uploads Phase.
From S2P Require Import LogRegistration Completion Os RecordStore JournalRecord Journal.
Open Scope N_scope.

(** [iter_mut().find]: the first match with its position. *)
Fixpoint find_first {A : Type} (p : A -> bool) (l : list A) : option (nat * A) :=
  match l with
  | [] => None
  | x :: l' =>
      if p x then Some (0%nat, x)
      else match find_first p l' with
           | Some (i, y) => Some (S i, y)
           | None => None
           end
  end.

Lemma find_first_Some {A : Type} (p : A -> bool) (l : list A) (i : nat) (x : A) :
  find_first p l = Some (i, x) -> l !! i = Some x /\ p x = true.
Proof.
  revert i. induction l as [|y l IH]; intros i H; simpl in H; [done|].
  destruct (p y) eqn:Hy; [by injection H as <- <-|].
  destruct (find_first p l) as [[j z]|]; [|done]. injection H as <- <-. by apply IH.
Qed.

Definition set_grant (upload_id object_key : string) (u : OutputUpload) : OutputUpload :=
  {| ou_declaration := ou_declaration u; ou_upload_id := upload_id; ou_object_key := object_key;
     ou_finalization := ou_finalization u; ou_response := ou_response u; ou_parts := ou_parts u |}.

Definition set_finalization (f : FinalizeUploadRequest) (u : OutputUpload) : OutputUpload :=
  {| ou_declaration := ou_declaration u; ou_upload_id := ou_upload_id u;
     ou_object_key := ou_object_key u; ou_finalization := Some f; ou_response := ou_response u;
     ou_parts := ou_parts u |}.

Definition set_response (r : FinalizeUploadResponse) (u : OutputUpload) : OutputUpload :=
  {| ou_declaration := ou_declaration u; ou_upload_id := ou_upload_id u;
     ou_object_key := ou_object_key u; ou_finalization := ou_finalization u;
     ou_response := Some r; ou_parts := ou_parts u |}.

Definition set_parts (p : list CompletedPart) (u : OutputUpload) : OutputUpload :=
  {| ou_declaration := ou_declaration u; ou_upload_id := ou_upload_id u;
     ou_object_key := ou_object_key u; ou_finalization := ou_finalization u;
     ou_response := ou_response u; ou_parts := p |}.

(** [binary_search_by_key] on a list sorted by number: the position of the
    number, or the position where it belongs. *)
Fixpoint search_part (number : N) (l : list CompletedPart) : result nat (nat * CompletedPart) :=
  match l with
  | [] => Err 0%nat
  | p :: l' =>
      if cp_number p =? number then Ok (0%nat, p)
      else if number <? cp_number p then Err 0%nat
      else match search_part number l' with
           | Ok (i, q) => Ok (S i, q)
           | Err i => Err (S i)
           end
  end.

(** [Vec::insert]. *)
Definition insert_at {A : Type} (i : nat) (x : A) (l : list A) : list A := take i l ++ x :: drop i l.

Section Operations.
Context {S : Type} {ops : RecordStore S} {lib : Libraries}.

Abbreviation J := (st (Journal S) JournalError.t).

Definition same_plan (d : CreateUploadRequest) (size : N) (sha256 : string) (part_size count : N) : bool :=
  (cu_size_bytes d =? size) && bool_decide (cu_sha256 d = sha256)
  && (cu_part_size_bytes d =? part_size) && (cu_part_count d =? count).

Definition part_count_of (size part_size : N) : N :=
  if part_size =? 0 then 1 else 1 + saturating_sub size 1 / part_size.

Definition output_declaration (record : AttemptRecord) (request_id name : string) (size : N)
  (sha256 : string) (part_size count : N) : CreateUploadRequest :=
  {| cu_authority := as_authority (rc_assignment record); cu_request_id := request_id;
     cu_name := name; cu_kind := ArtifactKind.to_i32 ArtifactKind.Output; cu_size_bytes := size;
     cu_sha256 := sha256; cu_part_count := count; cu_part_size_bytes := part_size |}.

Definition new_output (request : CreateUploadRequest) : OutputUpload :=
  {| ou_declaration := request; ou_upload_id := EmptyString; ou_object_key := EmptyString;
     ou_finalization := None; ou_response := None; ou_parts := [] |}.

Definition prepare_output_plan (id name : string) (size : N) (sha256 : string) (part_size : N)
  : J CreateUploadRequest :=
  let! count := st_lift (ok_or (u32_try_from (part_count_of size part_size)) JournalError.Invalid) in
  let! record := required id in
  match List.find (fun u => bool_decide (cu_name (ou_declaration u) = name)) (rc_outputs record) with
  | Some saved =>
      unless (same_plan (ou_declaration saved) size sha256 part_size count) (ou_declaration saved)
  | None =>
      if negb (is_none (rc_completion record)) then st_err JournalError.Conflict
      else
        let! request_id := new_uuid in
        let request := output_declaration record request_id name size sha256 part_size count in
        let! _ := save id (with_outputs (rc_outputs record ++ [new_output request]) record) in
        st_ret request
  end.

Definition prepare_output (id name : string) (size : N) (sha256 : string) : J CreateUploadRequest :=
  prepare_output_plan id name size sha256 0.

(** The attempt an upload request belongs to. *)
Definition attempt_of_authority (a : option AttemptAuthority) : J string :=
  let! a := st_lift (ok_or a JournalError.Invalid) in
  st_ret (aa_attempt_id a).

Definition set_output (i : nat) (u : OutputUpload) (record : AttemptRecord) : AttemptRecord :=
  with_outputs (<[i := u]> (rc_outputs record)) record.

Definition record_output_grant (request : CreateUploadRequest) (grant : CreateUploadResponse) : J unit :=
  let! _ := st_lift (invalid (validate_grant request grant)) in
  let! id := attempt_of_authority (cu_authority request) in
  let! record := required id in
  let! '(i, saved) := st_lift (ok_or (find_first (fun u => bool_decide (ou_declaration u = request))
                                        (rc_outputs record)) JournalError.Conflict) in
  if negb (is_empty_str (ou_upload_id saved)) then
    unless (bool_decide (ou_upload_id saved = cr_upload_id grant)
            && bool_decide (ou_object_key saved = cr_object_key grant)) tt
  else if negb (is_none (rc_completion record)) then st_err JournalError.Conflict
  else save id (set_output i (set_grant (cr_upload_id grant) (cr_object_key grant) saved) record).

(** The finalization of a single-part upload pins the observed version. *)
Definition finalization_for (saved : CreateUploadRequest) (request_id upload_id : string)
  (object : ObjectVersion) (parts : list CompletedPart) : FinalizeUploadRequest :=
  {| fu_authority := cu_authority saved; fu_request_id := request_id; fu_upload_id := upload_id;
     fu_object := Some object; fu_parts := parts |}.

Definition prepare_output_finalization (id request_id : string) (object : ObjectVersion)
  : J FinalizeUploadRequest :=
  let! record := required id in
  let! '(i, saved) := st_lift (ok_or (find_first
      (fun u => bool_decide (cu_request_id (ou_declaration u) = request_id)) (rc_outputs record))
      JournalError.Invalid) in
  match ou_finalization saved with
  | Some request => unless (bool_decide (fu_object request = Some object)) request
  | None =>
      if negb (is_none (rc_completion record)) then st_err JournalError.Conflict
      else
        let! fresh := new_uuid in
        let request := finalization_for (ou_declaration saved) fresh (ou_upload_id saved) object [] in
        let! _ := save id (set_output i (set_finalization request saved) record) in
        st_ret request
  end.

Definition record_output_response (request : FinalizeUploadRequest)
  (response : FinalizeUploadResponse) : J unit :=
  let! id := attempt_of_authority (fu_authority request) in
  let! record := required id in
  let! '(i, saved) := st_lift (ok_or (find_first
      (fun u => bool_decide (ou_finalization u = Some request)) (rc_outputs record))
      JournalError.Conflict) in
  let! _ := st_lift (invalid (validate_artifact request response)) in
  match ou_response saved with
  | Some old => unless (bool_decide (old = response)) tt
  | None => save id (set_output i (set_response response saved) record)
  end.

(** * Multipart uploads *)

Definition part_request (saved : OutputUpload) (number : N) (sha256 : string) : GrantUploadPartRequest :=
  {| gp_authority := cu_authority (ou_declaration saved); gp_upload_id := ou_upload_id saved;
     gp_number := number; gp_sha256 := sha256 |}.

Definition prepare_output_part (id request_id : string) (number : N) (sha256 : string)
  : J GrantUploadPartRequest :=
  let! record := required id in
  let! '(i, saved) := st_lift (ok_or (find_first
      (fun u => bool_decide (cu_request_id (ou_declaration u) = request_id)) (rc_outputs record))
      JournalError.Invalid) in
  let request := part_request saved number sha256 in
  let! _ := st_lift (invalid (validate_part_request request)) in
  if (cu_part_count (ou_declaration saved) <? 2) || (cu_part_count (ou_declaration saved) <? number)
  then st_err JournalError.Invalid
  else match search_part number (ou_parts saved) with
  | Ok (_, part) => unless (bool_decide (cp_sha256 part = sha256)) request
  | Err index =>
      if negb (is_none (rc_completion record)) || negb (is_none (ou_finalization saved))
      then st_err JournalError.Conflict
      else
        let part := {| cp_number := number; cp_etag := EmptyString; cp_sha256 := sha256 |} in
        let! _ := save id (set_output i (set_parts (insert_at index part (ou_parts saved)) saved) record) in
        st_ret request
  end.

Definition record_output_part (request : GrantUploadPartRequest) (etag : string) : J unit :=
  let! _ := st_lift (invalid (validate_part_request request)) in
  if negb (valid_etag etag) then st_err JournalError.Invalid
  else
    let! id := attempt_of_authority (gp_authority request) in
    let! record := required id in
    let! '(i, saved) := st_lift (ok_or (find_first
        (fun u => bool_decide (ou_upload_id u = gp_upload_id request)
                  && bool_decide (cu_authority (ou_declaration u) = gp_authority request))
        (rc_outputs record)) JournalError.Conflict) in
    let! '(k, part) := st_lift (ok_or (find_first
        (fun p => (cp_number p =? gp_number request) && bool_decide (cp_sha256 p = gp_sha256 request))
        (ou_parts saved)) JournalError.Conflict) in
    if negb (is_empty_str (cp_etag part)) then unless (bool_decide (cp_etag part = etag)) tt
    else if negb (is_none (rc_completion record)) || negb (is_none (ou_finalization saved))
    then st_err JournalError.Conflict
    else
      let uploaded := {| cp_number := cp_number part; cp_etag := etag; cp_sha256 := cp_sha256 part |} in
      save id (set_output i (set_parts (<[k := uploaded]> (ou_parts saved)) saved) record).

Definition multipart_object (saved : OutputUpload) : ObjectVersion :=
  {| ov_key := ou_object_key saved; ov_version_id := EmptyString;
     ov_size_bytes := cu_size_bytes (ou_declaration saved);
     ov_sha256 := cu_sha256 (ou_declaration saved) |}.

Definition prepare_multipart_finalization (id request_id : string) : J FinalizeUploadRequest :=
  let! record := required id in
  let! '(i, saved) := st_lift (ok_or (find_first
      (fun u => bool_decide (cu_request_id (ou_declaration u) = request_id)) (rc_outputs record))
      JournalError.Invalid) in
  if cu_part_count (ou_declaration saved) <? 2 then st_err JournalError.Invalid
  else match ou_finalization saved with
  | Some finalize => st_ret finalize
  | None =>
      if negb (is_none (rc_completion record))
         || negb (len (ou_parts saved) =? cu_part_count (ou_declaration saved))
      then st_err JournalError.Conflict
      else
        let! fresh := new_uuid in
        let finalize := finalization_for (ou_declaration saved) fresh (ou_upload_id saved)
                          (multipart_object saved) (ou_parts saved) in
        let! _ := st_lift (invalid (validate_finalization finalize)) in
        let! _ := save id (set_output i (set_finalization finalize saved) record) in
        st_ret finalize
  end.
End Operations.
