(* ===== verification/JournalLogs.v ===== *)
(** Log uploads in the journal ([rust/worker/src/journal/logs.rs]): segments
    are prepared in order per stream, and the next one only after the previous
    one is registered. *)

From S2P Require Import Prelude Strings Protocol Lease Control Execution Uploads Phase.
From S2P Require Import LogRegistration Completion Os RecordStore JournalRecord Journal JournalUploads.
Open Scope N_scope.

Definition set_log_grant (upload_id object_key : string) (u : LogUpload) : LogUpload :=
  {| lu_declaration := lu_declaration u; lu_stream := lu_stream u;
     lu_first_sequence := lu_first_sequence u; lu_last_sequence := lu_last_sequence u;
     lu_gaps := lu_gaps u; lu_upload_id := upload_id; lu_object_key := object_key;
     lu_finalization := lu_finalization u; lu_response := lu_response u;
     lu_registration := lu_registration u; lu_registered := lu_registered u |}.

Definition set_log_finalization (f : FinalizeUploadRequest) (u : LogUpload) : LogUpload :=
  {| lu_declaration := lu_declaration u; lu_stream := lu_stream u;
     lu_first_sequence := lu_first_sequence u; lu_last_sequence := lu_last_sequence u;
     lu_gaps := lu_gaps u; lu_upload_id := lu_upload_id u; lu_object_key := lu_object_key u;
     lu_finalization := Some f; lu_response := lu_response u;
     lu_registration := lu_registration u; lu_registered := lu_registered u |}.

Definition set_log_response (r : FinalizeUploadResponse) (u : LogUpload) : LogUpload :=
  {| lu_declaration := lu_declaration u; lu_stream := lu_stream u;
     lu_first_sequence := lu_first_sequence u; lu_last_sequence := lu_last_sequence u;
     lu_gaps := lu_gaps u; lu_upload_id := lu_upload_id u; lu_object_key := lu_object_key u;
     lu_finalization := lu_finalization u; lu_response := Some r;
     lu_registration := lu_registration u; lu_registered := lu_registered u |}.

Definition set_registration (g : RegisterLogSegmentRequest) (u : LogUpload) : LogUpload :=
  {| lu_declaration := lu_declaration u; lu_stream := lu_stream u;
     lu_first_sequence := lu_first_sequence u; lu_last_sequence := lu_last_sequence u;
     lu_gaps := lu_gaps u; lu_upload_id := lu_upload_id u; lu_object_key := lu_object_key u;
     lu_finalization := lu_finalization u; lu_response := lu_response u;
     lu_registration := Some g; lu_registered := lu_registered u |}.

Definition set_registered (u : LogUpload) : LogUpload :=
  {| lu_declaration := lu_declaration u; lu_stream := lu_stream u;
     lu_first_sequence := lu_first_sequence u; lu_last_sequence := lu_last_sequence u;
     lu_gaps := lu_gaps u; lu_upload_id := lu_upload_id u; lu_object_key := lu_object_key u;
     lu_finalization := lu_finalization u; lu_response := lu_response u;
     lu_registration := lu_registration u; lu_registered := true |}.

Section Operations.
Context {S : Type} {ops : RecordStore S} {lib : Libraries}.

Abbreviation J := (st (Journal S) JournalError.t).

(** [logs.iter().rev().find]: the latest segment of a stream. *)
Definition previous_log (record : AttemptRecord) (stream : LogStream.t) : option LogUpload :=
  List.find (fun s => (lu_stream s =? LogStream.to_i32 stream)%Z) (rev (rc_logs record)).

Definition log_phase (phase : option Z) : bool :=
  match phase with
  | Some p =>
      (p =? AttemptState.to_i32 AttemptState.Starting)%Z
      || (p =? AttemptState.to_i32 AttemptState.Running)%Z
      || (p =? AttemptState.to_i32 AttemptState.Finalizing)%Z
  | None => false
  end.

Definition out_of_order (previous : option LogUpload) (first : N) : bool :=
  match previous with
  | Some p =>
      negb (lu_registered p)
      || negb (bool_decide (u64_checked_add (lu_last_sequence p) 1 = Some first))
  | None => negb (first =? 1)
  end.

Definition log_name (stream : LogStream.t) : option string :=
  match stream with
  | LogStream.Stdout => Some "stdout"%string
  | LogStream.Stderr => Some "stderr"%string
  | _ => None
  end.

Definition log_declaration (record : AttemptRecord) (request_id name : string) (size : N)
  (sha256 : string) : CreateUploadRequest :=
  {| cu_authority := as_authority (rc_assignment record); cu_request_id := request_id;
     cu_name := name; cu_kind := ArtifactKind.to_i32 ArtifactKind.Log; cu_size_bytes := size;
     cu_sha256 := sha256; cu_part_count := 1; cu_part_size_bytes := 0 |}.

Definition new_log (request : CreateUploadRequest) (stream : LogStream.t) (first last : N)
  (gaps : list LogGap) : LogUpload :=
  {| lu_declaration := request; lu_stream := LogStream.to_i32 stream; lu_first_sequence := first;
     lu_last_sequence := last; lu_gaps := gaps; lu_upload_id := EmptyString;
     lu_object_key := EmptyString; lu_finalization := None; lu_response := None;
     lu_registration := None; lu_registered := false |}.

Definition prepare_log (id : string) (stream : LogStream.t) (first last : N) (gaps : list LogGap)
  (size : N) (sha256 : string) : J CreateUploadRequest :=
  let! record := required id in
  match List.find (fun s => (lu_stream s =? LogStream.to_i32 stream)%Z && (lu_first_sequence s =? first))
          (rc_logs record) with
  | Some saved =>
      unless ((lu_last_sequence saved =? last) && bool_decide (lu_gaps saved = gaps)
              && (cu_size_bytes (lu_declaration saved) =? size)
              && bool_decide (cu_sha256 (lu_declaration saved) = sha256)) (lu_declaration saved)
  | None =>
      if negb (is_none (rc_completion record))
         || (1024 <=? len (rc_logs record))
         || negb (log_phase (last_phase record))
         || out_of_order (previous_log record stream) first
         || (size =? 0)
         || (1048576 <? size)
      then st_err JournalError.Invalid
      else
        let! request_id := new_uuid in
        let! name := st_lift (ok_or (log_name stream) JournalError.Invalid) in
        let request := log_declaration record request_id name size sha256 in
        let log := new_log request stream first last gaps in
        let! _ := st_lift (invalid (validate_create request)) in
        let! _ := st_lift (invalid (LogRegistration.validate_request (probe_of log))) in
        let! _ := save id (with_logs (rc_logs record ++ [log]) record) in
        st_ret request
  end.

Definition set_log (i : nat) (u : LogUpload) (record : AttemptRecord) : AttemptRecord :=
  with_logs (<[i := u]> (rc_logs record)) record.

Definition record_log_grant (request : CreateUploadRequest) (grant : CreateUploadResponse) : J unit :=
  let! _ := st_lift (invalid (validate_grant request grant)) in
  let! id := attempt_of_authority (cu_authority request) in
  let! record := required id in
  let! '(i, saved) := st_lift (ok_or (find_first (fun s => bool_decide (lu_declaration s = request))
                                        (rc_logs record)) JournalError.Conflict) in
  if negb (is_empty_str (lu_upload_id saved)) then
    unless (bool_decide (lu_upload_id saved = cr_upload_id grant)
            && bool_decide (lu_object_key saved = cr_object_key grant)) tt
  else if negb (is_none (rc_completion record)) then st_err JournalError.Conflict
  else save id (set_log i (set_log_grant (cr_upload_id grant) (cr_object_key grant) saved) record).

Definition prepare_log_finalization (id request_id : string) (object : ObjectVersion)
  : J FinalizeUploadRequest :=
  let! record := required id in
  let! '(i, saved) := st_lift (ok_or (find_first
      (fun s => bool_decide (cu_request_id (lu_declaration s) = request_id)) (rc_logs record))
      JournalError.Invalid) in
  match lu_finalization saved with
  | Some request => unless (bool_decide (fu_object request = Some object)) request
  | None =>
      if negb (is_none (rc_completion record))
         || is_empty_str (lu_upload_id saved)
         || negb (bool_decide (ov_key object = lu_object_key saved))
         || negb (ov_size_bytes object =? cu_size_bytes (lu_declaration saved))
         || negb (bool_decide (ov_sha256 object = cu_sha256 (lu_declaration saved)))
      then st_err JournalError.Conflict
      else
        let! fresh := new_uuid in
        let request := finalization_for (lu_declaration saved) fresh (lu_upload_id saved) object [] in
        let! _ := st_lift (invalid (validate_finalization request)) in
        let! _ := save id (set_log i (set_log_finalization request saved) record) in
        st_ret request
  end.

Definition record_log_response (request : FinalizeUploadRequest)
  (response : FinalizeUploadResponse) : J unit :=
  let! _ := st_lift (invalid (validate_artifact request response)) in
  let! id := attempt_of_authority (fu_authority request) in
  let! record := required id in
  let! '(i, saved) := st_lift (ok_or (find_first
      (fun s => bool_decide (lu_finalization s = Some request)) (rc_logs record))
      JournalError.Conflict) in
  match lu_response saved with
  | Some old => unless (bool_decide (old = response)) tt
  | None => save id (set_log i (set_log_response response saved) record)
  end.

Definition registration_for (saved : LogUpload) (request_id artifact_id : string)
  : RegisterLogSegmentRequest :=
  {| rg_authority := cu_authority (lu_declaration saved); rg_request_id := request_id;
     rg_artifact_id := artifact_id; rg_stream := lu_stream saved;
     rg_first_sequence := lu_first_sequence saved; rg_last_sequence := lu_last_sequence saved;
     rg_gaps := lu_gaps saved |}.

Definition prepare_log_registration (id request_id : string) : J RegisterLogSegmentRequest :=
  let! record := required id in
  let! '(i, saved) := st_lift (ok_or (find_first
      (fun s => bool_decide (cu_request_id (lu_declaration s) = request_id)) (rc_logs record))
      JournalError.Invalid) in
  match lu_registration saved with
  | Some request => st_ret request
  | None =>
      if negb (is_none (rc_completion record)) then st_err JournalError.Conflict
      else
        let! response := st_lift (ok_or (lu_response saved) JournalError.Conflict) in
        let! fresh := new_uuid in
        let request := registration_for saved fresh (fr_artifact_id response) in
        let! _ := st_lift (invalid (LogRegistration.validate_request request)) in
        let! _ := save id (set_log i (set_registration request saved) record) in
        st_ret request
  end.

Definition record_log_registration (request : RegisterLogSegmentRequest) (decision : Decision_.t)
  (state : AttemptState.t) : J unit :=
  let! _ := st_lift (invalid (LogRegistration.validate_response request
      {| mr_decision := Decision_.to_i32 decision; mr_state := AttemptState.to_i32 state |})) in
  if negb (bool_decide (decision = Decision_.Accepted)) then st_err JournalError.Conflict
  else
    let! id := attempt_of_authority (rg_authority request) in
    let! record := required id in
    let! '(i, saved) := st_lift (ok_or (find_first
        (fun s => bool_decide (lu_registration s = Some request)) (rc_logs record))
        JournalError.Conflict) in
    if lu_registered saved then st_ret tt
    else save id (set_log i (set_registered saved) record).
End Operations.
