(* ===== verification/JournalSession.v ===== *)
(** Worker incarnations in the journal ([rust/worker/src/journal/session.rs])
    and the launch claims of [journal/asynchronous.rs], which run under its
    lock. *)

From S2P Require Import Prelude Strings Protocol Lease Control Execution Uploads Phase.
From S2P Require Import LogRegistration Completion Os RecordStore JournalRecord Journal.
Open Scope N_scope.

(** [MAX_SESSION] of [journal/session.rs]. *)
Definition SESSION_LIMIT : N := 65536.

Definition mib : N := 1048576.

Definition bad_label (entry : string * string) : bool :=
  let '(key, value) := entry in
  is_empty_str key
  || (128 <? str_len key)
  || negb (forallb (fun '(n, b) => is_ascii_alphanumeric b
             || (bool_decide (0 < n)%nat && bool_decide (byte_val b ∈ [46; 95; 45])))
             (imap pair (str_bytes key)))
  || is_empty_str value
  || (256 <? str_len value)
  || existsb is_control (chars (str_bytes value)).

Definition has_capability (r : RegisterWorkerRequest) (c : string) : bool :=
  bool_decide (c ∈ rw_capabilities r).

Definition validate_claims (r : RegisterWorkerRequest) (worker : string)
  : result JournalError.t unit :=
  let? resources := ok_or (rw_allocatable r) JournalError.Invalid in
  if negb (bool_decide (rw_worker_id r = worker))
     || negb (canonical_uuid (rw_request_id r))
     || negb (canonical_uuid (rw_requested_session_id r))
     || negb (rw_protocol_version r =? VERSION)
     || negb (in_range 1 1000 (rw_execution_slots r))
     || negb (in_range 1 1024000 (rs_cpu_millis resources))
     || negb (in_range mib (N.shiftl 16777216 20) (rs_memory_bytes resources))
     || negb (in_range mib (N.shiftl 1073741824 20) (rs_scratch_bytes resources))
     || negb (N.modulo (rs_memory_bytes resources) mib =? 0)
     || negb (N.modulo (rs_scratch_bytes resources) mib =? 0)
     || (64 <? N.of_nat (base.size (rw_labels r)))
     || negb (bool_decide (rw_labels r !! "os"%string = Some "linux"%string))
     || negb (bool_decide (rw_labels r !! "architecture"%string ∈ [Some "amd64"; Some "arm64"]%string))
     || existsb bad_label (map_to_list (rw_labels r))
  then Err JournalError.Invalid
  else if negb (len (rw_capabilities r) =? 5) then Err JournalError.Invalid
  else if negb (len (remove_dups (rw_capabilities r)) =? 5)
          || negb (forallb (has_capability r) ["docker.v1"; "cpu.hard"; "memory.hard"; "pids.hard"]%string)
          || Bool.eqb (has_capability r "scratch.soft") (has_capability r "scratch.quota")
  then Err JournalError.Invalid
  else Ok tt.

Section Operations.
Context {S : Type} {ops : RecordStore S} {lib : Libraries}.

Abbreviation J := (st (Journal S) JournalError.t).

Definition decode_session (worker : string) (bytes : bytes) : result JournalError.t SessionRecord :=
  if SESSION_LIMIT <? len bytes then Err JournalError.Corrupt
  else
    let? record := ok_or (lib_decode_session bytes) JournalError.Corrupt in
    let? _ := map_err (fun _ => JournalError.Corrupt) (validate_claims (sr_registration record) worker) in
    if (I64_MAX <? sr_generation record)
       || (negb (is_empty_str (sr_previous_session_id record))
           && (negb (canonical_uuid (sr_previous_session_id record))
               || bool_decide (sr_previous_session_id record
                               = rw_requested_session_id (sr_registration record))))
    then Err JournalError.Corrupt
    else Ok record.

Definition load_session : J (option SessionRecord) :=
  let! found := on_store (rs_read ".session") in
  match found with
  | None => st_ret None
  | Some bytes =>
      let! worker := st_gets jn_worker_id in
      let! record := st_lift (decode_session worker bytes) in
      st_ret (Some record)
  end.

Definition save_session (record : SessionRecord) : J unit :=
  if SESSION_LIMIT <? len (lib_encode_session record) then st_err JournalError.Limit
  else on_store (rs_write ".session" (lib_encode_session record)).

(** The claims with the fresh identities of this process. *)
Definition identified (claims : RegisterWorkerRequest) (request_id session_id : string)
  : RegisterWorkerRequest :=
  {| rw_worker_id := rw_worker_id claims; rw_request_id := request_id;
     rw_requested_session_id := session_id; rw_protocol_version := rw_protocol_version claims;
     rw_allocatable := rw_allocatable claims; rw_execution_slots := rw_execution_slots claims;
     rw_labels := rw_labels claims; rw_capabilities := rw_capabilities claims |}.

Definition set_incarnation (session_id : string) (j : Journal S) : Journal S :=
  {| jn_store := jn_store j; jn_worker_id := jn_worker_id j; jn_incarnation := Some session_id;
     jn_random := jn_random j; jn_draws := jn_draws j |}.

Definition session_of (p : option SessionRecord) : string :=
  match p with
  | Some p => rw_requested_session_id (sr_registration p)
  | None => EmptyString
  end.

Definition begin_incarnation (claims : RegisterWorkerRequest) : J SessionRecord :=
  let! incarnation := st_gets jn_incarnation in
  if negb (is_none incarnation) then st_err JournalError.Conflict
  else if negb (is_empty_str (rw_request_id claims))
          || negb (is_empty_str (rw_requested_session_id claims))
  then st_err JournalError.Invalid
  else
    let! previous := load_session in
    let! request_id := new_uuid in
    let! session_id := new_uuid in
    let claims := identified claims request_id session_id in
    let! worker := st_gets jn_worker_id in
    let! _ := st_lift (validate_claims claims worker) in
    let record := {| sr_registration := claims; sr_generation := 0;
                     sr_previous_session_id := session_of previous |} in
    let! _ := save_session record in
    let! _ := st_modify (set_incarnation session_id) in
    st_ret record.

Definition with_generation (g : N) (r : SessionRecord) : SessionRecord :=
  {| sr_registration := sr_registration r; sr_generation := g;
     sr_previous_session_id := sr_previous_session_id r |}.

Definition record_registration (response : RegisterWorkerResponse) : J unit :=
  let! incarnation := st_gets jn_incarnation in
  let! current := st_lift (ok_or incarnation JournalError.Conflict) in
  let! loaded := load_session in
  let! saved := st_lift (ok_or loaded JournalError.Corrupt) in
  let! session := st_lift (ok_or (rr_session response) JournalError.Invalid) in
  let! worker := st_gets jn_worker_id in
  if negb (bool_decide (rw_requested_session_id (sr_registration saved) = current))
     || negb (bool_decide (ws_session_id session = current))
     || negb (bool_decide (ws_worker_id session = worker))
  then st_err JournalError.Conflict
  else if negb (rr_protocol_version response =? VERSION)
          || (rr_session_generation response =? 0)
          || (I64_MAX <? rr_session_generation response)
  then st_err JournalError.Invalid
  else if negb (sr_generation saved =? 0)
  then unless (sr_generation saved =? rr_session_generation response) tt
  else save_session (with_generation (rr_session_generation response) saved).

(** * Launch claims *)

Definition current_session (assignment : Assignment) (session : WorkerSession) : J unit :=
  let! identity := st_lift (ok_or (as_authority assignment) JournalError.Invalid) in
  let! loaded := load_session in
  let! saved := st_lift (ok_or loaded JournalError.Identity) in
  let! incarnation := st_gets jn_incarnation in
  let! worker := st_gets jn_worker_id in
  if negb (bool_decide (incarnation = Some (ws_session_id session)))
     || negb (bool_decide (worker = ws_worker_id session))
     || (sr_generation saved =? 0)
     || negb (bool_decide (rw_requested_session_id (sr_registration saved) = ws_session_id session))
     || negb (bool_decide (aa_worker_id identity = ws_worker_id session))
     || negb (bool_decide (aa_session_id identity = ws_session_id session))
  then st_err JournalError.Identity
  else st_ret tt.

(** An attempt that has not left its claim. *)
Definition untouched (r : AttemptRecord) : bool :=
  bool_decide (rc_phase_reports r = []) && is_empty_str (rc_container_id r) && is_none (rc_exit r)
  && is_none (rc_completion r) && bool_decide (length (rc_outputs r) = 0%nat)
  && bool_decide (length (rc_logs r) = 0%nat).

Definition prepare_launch (assignment : Assignment) (session : WorkerSession) : J ReportPhaseRequest :=
  let! identity := st_lift (ok_or (as_authority assignment) JournalError.Invalid) in
  let! _ := current_session assignment session in
  let! saved := load_attempt (aa_attempt_id identity) in
  match saved with
  | Some saved =>
      let! _ := persist_assignment assignment in
      if negb (untouched saved) then st_err JournalError.Conflict
      else prepare_phase (aa_attempt_id identity) AttemptState.Starting
  | None =>
      let! _ := persist_assignment assignment in
      prepare_phase (aa_attempt_id identity) AttemptState.Starting
  end.

Definition claim_assignment (assignment : Assignment) (session : WorkerSession) : J unit :=
  let! _ := current_session assignment session in
  let! identity := st_lift (ok_or (as_authority assignment) JournalError.Invalid) in
  let! saved := load_attempt (aa_attempt_id identity) in
  match saved with
  | Some _ => st_err JournalError.Conflict
  | None => persist_assignment assignment
  end.
End Operations.
