(* ===== verification/JournalEvidence.v ===== *)
(** The journal's evidence is append-only: what every operation of the journal
    may do to the record of an attempt, for any sequence of operations, over
    any store that satisfies the laws of [RecordStore]. *)

From S2P Require Import Prelude Strings Protocol Lease Control Execution Uploads Phase.
From S2P Require Import LogRegistration Completion Os RecordStore JournalRecord Journal.
From S2P Require Import JournalUploads JournalLogs JournalSession JournalFiles Codec.
Open Scope N_scope.

(** * How evidence may grow *)

Record part_evolves (p q : CompletedPart) : Prop := {
  pe_number : cp_number q = cp_number p;
  pe_sha256 : cp_sha256 q = cp_sha256 p;
  pe_etag : cp_etag p <> EmptyString -> cp_etag q = cp_etag p;
}.

Record output_evolves (u v : OutputUpload) : Prop := {
  oe_declaration : ou_declaration v = ou_declaration u;
  oe_grant : ou_upload_id u <> EmptyString ->
    ou_upload_id v = ou_upload_id u /\ ou_object_key v = ou_object_key u;
  oe_finalization : forall f, ou_finalization u = Some f ->
    ou_finalization v = Some f /\ ou_parts v = ou_parts u;
  oe_response : forall r, ou_response u = Some r -> ou_response v = Some r;
  oe_parts : forall p, p ∈ ou_parts u -> exists q, q ∈ ou_parts v /\ part_evolves p q;
}.

Record log_evolves (u v : LogUpload) : Prop := {
  le_declaration : lu_declaration v = lu_declaration u;
  le_range : lu_stream v = lu_stream u /\ lu_first_sequence v = lu_first_sequence u
    /\ lu_last_sequence v = lu_last_sequence u /\ lu_gaps v = lu_gaps u;
  le_grant : lu_upload_id u <> EmptyString ->
    lu_upload_id v = lu_upload_id u /\ lu_object_key v = lu_object_key u;
  le_finalization : forall f, lu_finalization u = Some f -> lu_finalization v = Some f;
  le_response : forall r, lu_response u = Some r -> lu_response v = Some r;
  le_registration : forall g, lu_registration u = Some g -> lu_registration v = Some g;
  le_registered : lu_registered u = true -> lu_registered v = true;
}.

(** The part of an upload that completion evidence seals: everything but the
    answers of the control plane. *)
Definition output_sealed (u v : OutputUpload) : Prop :=
  ou_declaration v = ou_declaration u /\ ou_upload_id v = ou_upload_id u
  /\ ou_object_key v = ou_object_key u /\ ou_finalization v = ou_finalization u
  /\ ou_parts v = ou_parts u.

Definition log_sealed (u v : LogUpload) : Prop :=
  lu_declaration v = lu_declaration u /\ lu_upload_id v = lu_upload_id u
  /\ lu_object_key v = lu_object_key u /\ lu_finalization v = lu_finalization u
  /\ lu_registration v = lu_registration u.

(** Element by element, with new elements at the end. *)
Definition grows {A : Type} (R : A -> A -> Prop) (l k : list A) : Prop :=
  exists k1 k2, k = k1 ++ k2 /\ Forall2 R l k1.

(** A completion stays, or is moved aside once for a cancellation after the
    control plane asked to stop. *)
Definition completion_evolves (a b : AttemptRecord) : Prop :=
  forall q, rc_completion a = Some q ->
  rc_completion b = Some q
  \/ (rc_rejected_completion a = None /\ rc_rejected_completion b = Some q
      /\ ca_reason q <> FailureReason.to_i32 FailureReason.UserCancelled
      /\ exists q' s, rc_completion b = Some q' /\ rc_rejected_response b = Some s
         /\ ca_reason q' = FailureReason.to_i32 FailureReason.UserCancelled
         /\ cs_decision s = Decision_.to_i32 Decision_.StopRequested).

Record sealed_by (a b : AttemptRecord) : Prop := {
  sb_phases : rc_phase_reports b = rc_phase_reports a;
  sb_container : rc_container_id b = rc_container_id a;
  sb_outputs : Forall2 output_sealed (rc_outputs a) (rc_outputs b);
  sb_logs : Forall2 log_sealed (rc_logs a) (rc_logs b);
}.

(** An answer other than STOP_REQUESTED is final. *)
Definition answer_settles (a b : AttemptRecord) : Prop :=
  forall q s, rc_completion a = Some q -> rc_completion_response a = Some s ->
  cs_decision s <> Decision_.to_i32 Decision_.StopRequested ->
  rc_completion b = Some q /\ rc_completion_response b = Some s.

Record evolves (a b : AttemptRecord) : Prop := {
  ev_assignment : rc_assignment b = rc_assignment a;
  ev_container : rc_container_id a <> EmptyString -> rc_container_id b = rc_container_id a;
  ev_exit : forall e, rc_exit a = Some e -> rc_exit b = Some e;
  ev_phases : rc_phase_reports a `prefix_of` rc_phase_reports b;
  ev_outputs : grows output_evolves (rc_outputs a) (rc_outputs b);
  ev_logs : grows log_evolves (rc_logs a) (rc_logs b);
  ev_completion : completion_evolves a b;
  ev_answer : forall q s, rc_completion a = Some q -> rc_completion b = Some q ->
    rc_completion_response a = Some s ->
    exists s', rc_completion_response b = Some s' /\ (s' = s \/ answer_may_replace s s' = true);
  ev_rejected : forall q, rc_rejected_completion a = Some q ->
    rc_rejected_completion b = Some q /\ rc_rejected_response b = rc_rejected_response a;
  ev_sealed : rc_completion a <> None -> sealed_by a b;
  ev_settled : answer_settles a b;
}.

(** ** Reflexivity and transitivity *)

#[export] Instance part_evolves_preorder : PreOrder part_evolves.
Proof.
  split; [done|]. intros p q r [H1 H2 H3] [G1 G2 G3]. split; [congruence..|].
  intros Hp. rewrite G3; [auto|]. by rewrite H3.
Qed.

#[export] Instance output_evolves_preorder : PreOrder output_evolves.
Proof.
  split.
  - intros u. split; auto. intros p Hp. exists p. split; [done|reflexivity].
  - intros u v w [H1 H2 H3 H4 H5] [G1 G2 G3 G4 G5]. split; [congruence|..].
    + intros Hu. destruct (H2 Hu) as [E1 E2]. rewrite <- E1 in Hu.
      destruct (G2 Hu) as [F1 F2]. split; congruence.
    + intros f Hf. destruct (H3 f Hf) as [Hv Ev]. destruct (G3 f Hv) as [Hw Ew]. by rewrite Hw, Ew.
    + auto.
    + intros p Hp. destruct (H5 p Hp) as (q & Hq & Hpq). destruct (G5 q Hq) as (r & Hr & Hqr).
      exists r. split; [done|]. by transitivity q.
Qed.

#[export] Instance log_evolves_preorder : PreOrder log_evolves.
Proof.
  split; [by intros u; split|].
  intros u v w [H1 H2 H3 H4 H5 H6 H7] [G1 G2 G3 G4 G5 G6 G7]. split; auto; try congruence.
  - destruct H2 as (?&?&?&?), G2 as (?&?&?&?). split_and!; congruence.
  - intros Hu. destruct (H3 Hu) as [E1 E2]. rewrite <- E1 in Hu.
    destruct (G3 Hu) as [F1 F2]. split; congruence.
Qed.

#[export] Instance grows_preorder {A : Type} (R : A -> A -> Prop) : PreOrder R -> PreOrder (grows R).
Proof.
  intros HR. split.
  - intros l. exists l, []. rewrite app_nil_r. split; [done|]. apply Forall2_same_length_lookup_2; [done|].
    intros i x y Hx Hy. simplify_eq. reflexivity.
  - intros l k m (k1 & k2 & -> & Hk) (m1 & m2 & -> & Hm).
    apply Forall2_app_inv_l in Hm as (n1 & n2 & Hn1 & Hn2 & ->).
    exists n1, (n2 ++ m2). split; [by rewrite (assoc_L (++))|].
    clear -Hk Hn1 HR. revert n1 Hn1. induction Hk as [|x y l k Hxy Hk IH]; intros n1 Hn1.
    + inversion Hn1; subst. constructor.
    + inversion Hn1 as [|? z ? n Hyz Hn]; subst. constructor; [by transitivity y|]. by apply IH.
Qed.

Lemma Forall2_refl_by {A : Type} (R : A -> A -> Prop) (l : list A) :
  (forall x, R x x) -> Forall2 R l l.
Proof. intros H. induction l; constructor; auto. Qed.

Lemma Forall2_trans_by {A : Type} (R : A -> A -> Prop) (l k m : list A) :
  (forall x y z, R x y -> R y z -> R x z) -> Forall2 R l k -> Forall2 R k m -> Forall2 R l m.
Proof.
  intros HR Hlk. revert m. induction Hlk as [|x y l k Hxy Hlk IH]; intros m Hkm.
  - inversion Hkm. constructor.
  - inversion Hkm as [|? z ? n Hyz Hn]; subst. constructor; eauto.
Qed.

#[export] Instance sealed_by_preorder : PreOrder sealed_by.
Proof.
  split.
  - intros a. split; [done..| |]; apply Forall2_refl_by; by unfold output_sealed, log_sealed.
  - intros a b c [H1 H2 H3 H4] [G1 G2 G3 G4]. split; [congruence..| |].
    + eapply Forall2_trans_by; [|done..]. unfold output_sealed. intros x y z ? ?. destruct_and!.
      split_and!; congruence.
    + eapply Forall2_trans_by; [|done..]. unfold log_sealed. intros x y z ? ?. destruct_and!.
      split_and!; congruence.
Qed.

(** An answer that replaced a requested stop is final. *)
Lemma answer_replaced_once (s s' s'' : CompleteAttemptResponse) :
  answer_may_replace s s' = true -> answer_may_replace s' s'' = false.
Proof.
  unfold answer_may_replace. intros H. apply andb_true_iff in H as [_ H].
  apply andb_false_iff. left. apply Z.eqb_neq. intros E. by rewrite E in H.
Qed.

(** A completion that is back was never moved aside. *)
Lemma completion_kept (a b c : AttemptRecord) (q : CompleteAttemptRequest) :
  completion_evolves a b -> completion_evolves b c ->
  rc_completion a = Some q -> rc_completion c = Some q -> rc_completion b = Some q.
Proof.
  intros Hab Hbc Ha Hc. destruct (Hab q Ha) as [Hb | (_ & Hb & Hr & q' & s & Hq' & _ & Hr' & _)]; [done|].
  destruct (Hbc q' Hq') as [Hc' | (Hn & _)]; congruence.
Qed.

#[export] Instance evolves_preorder : PreOrder evolves.
Proof.
  split.
  - intros a. split; auto; try done; try (reflexivity); [intros q Hq; by left|].
    intros q s _ _ Hs. exists s. auto.
  - intros a b c [H1 H2 H3 H4 H5 H6 H7 Ha H8 H9 H10] [G1 G2 G3 G4 G5 G6 G7 Ga G8 G9 G10].
    split; auto; try congruence.
    + intros Hc. rewrite G2; [auto|]. by rewrite H2.
    + by transitivity (rc_phase_reports b).
    + by transitivity (rc_outputs b).
    + by transitivity (rc_logs b).
    + intros q Hq. destruct (H7 q Hq) as [Hb | (Hn & Hb & Hq1 & q' & s & Hq' & Hs & Hr & Hd)].
      * destruct (G7 q Hb) as [Hc | (Hb' & Hc & Hrest)]; [by left|]. right. split; [|done].
        destruct (rc_rejected_completion a) as [p|] eqn:Hp; [|done].
        destruct (H8 p eq_refl) as [Hp' _]. congruence.
      * right. destruct (G8 q Hb) as [Hc Hcs]. split_and!; [done..|].
        destruct (G7 q' Hq') as [Hc' | (Hn' & _)]; [|congruence].
        exists q', s. split_and!; [done|congruence|done|done].
    + intros q s Hq Hqc Hs. pose proof (completion_kept _ _ _ _ H7 G7 Hq Hqc) as Hqb.
      destruct (Ha q s Hq Hqb Hs) as (s1 & Hs1 & [->|Hr1]); [by apply (Ga q)|].
      destruct (Ga q s1 Hqb Hqc Hs1) as (s2 & Hs2 & [->|Hr2]); [eauto|].
      by rewrite (answer_replaced_once _ _ s2 Hr1) in Hr2.
    + intros q Hq. destruct (H8 q Hq) as [Hb E]. destruct (G8 q Hb) as [Hc E']. by rewrite Hc, E', E.
    + intros Hc. assert (Hb : rc_completion b <> None).
      { destruct (rc_completion a) as [q|] eqn:Hq; [|done].
        destruct (H7 q Hq) as [Hb | (_&_&_&q'&s&Hb&_)]; by rewrite Hb. }
      transitivity b; auto.
    + intros q s Hq Hs Hd. destruct (H10 q s Hq Hs Hd) as [Hqb Hsb]. by apply G10.
Qed.

(** * Preservation *)

Section Preservation.
Context {S : Type} {ops : RecordStore S} {laws : RecordStoreLaws S}.
Context {lib : Libraries} {lib_laws : LibraryLaws}.
Context (attempt_names : forall id, rs_name (attempt_file id)).
Context (session_name : rs_name ".session").

Abbreviation J := (st (Journal S) JournalError.t).

(** The record an attempt currently has. *)
Definition stored (j : Journal S) (id : string) : option AttemptRecord :=
  rs_lookup (jn_store j) (attempt_file id) ≫= lib_decode.

(** Every attempt file is the encoding of a record that validates. *)
Record sound (j : Journal S) : Prop := {
  sd_store : rs_inv (jn_store j);
  sd_records : forall id b, rs_lookup (jn_store j) (attempt_file id) = Some b ->
    exists r, b = lib_encode r /\ validate r (jn_worker_id j) id = Ok tt;
}.

(** What an operation may do to one attempt: nothing without a record but
    create one from an assignment, and grow the evidence of an existing one. *)
Definition attempt_step (before after : option AttemptRecord) : Prop :=
  match before, after with
  | None, None => True
  | None, Some r => exists a, evolves (initial_record a) r
  | Some r, Some r' => evolves r r'
  | Some _, None => False
  end.

Lemma attempt_step_refl (o : option AttemptRecord) : attempt_step o o.
Proof. destruct o; simpl; [reflexivity|done]. Qed.

Lemma attempt_step_trans (o p q : option AttemptRecord) :
  attempt_step o p -> attempt_step p q -> attempt_step o q.
Proof.
  destruct o as [a|], p as [b|], q as [c|]; simpl; try done.
  - intros H G. by transitivity b.
  - intros [x H] G. exists x. by transitivity b.
Qed.

(** From a state in [P] the operation keeps the journal sound and every
    attempt's evidence, whatever it returns. *)
Definition preserves (P : Journal S -> Prop) {A : Type} (m : J A) : Prop :=
  forall j r j', sound j -> P j -> m j = (r, j') ->
  sound j' /\ jn_worker_id j' = jn_worker_id j
  /\ forall id, attempt_step (stored j id) (stored j' id).

(** Changes that keep what [stored] sees. *)
Definition same_records (j j' : Journal S) : Prop :=
  rs_inv (jn_store j') /\ jn_worker_id j' = jn_worker_id j
  /\ forall id, rs_lookup (jn_store j') (attempt_file id) = rs_lookup (jn_store j) (attempt_file id).

Lemma same_records_sound (j j' : Journal S) : sound j -> same_records j j' -> sound j'.
Proof.
  intros [_ Hr] (Hi & Hw & Hl). split; [done|]. intros id b. rewrite Hl, Hw. apply Hr.
Qed.

Lemma same_records_stored (j j' : Journal S) (id : string) :
  same_records j j' -> stored j' id = stored j id.
Proof. intros (_ & _ & Hl). unfold stored. by rewrite Hl. Qed.

Lemma same_records_preserves (j j' : Journal S) :
  sound j -> same_records j j' ->
  sound j' /\ jn_worker_id j' = jn_worker_id j
  /\ forall id, attempt_step (stored j id) (stored j' id).
Proof.
  intros Hj Hs. split; [by eapply same_records_sound|]. split; [apply Hs|].
  intros id. rewrite (same_records_stored _ _ _ Hs). apply attempt_step_refl.
Qed.

(** An operation that only reads, or draws an identity. *)
Definition quiet {A : Type} (m : J A) : Prop :=
  forall j r j', sound j -> m j = (r, j') -> same_records j j'.

Lemma quiet_preserves (P : Journal S -> Prop) {A : Type} (m : J A) : quiet m -> preserves P m.
Proof. intros Hm j r j' Hj _ H. apply same_records_preserves; [done|]. by eapply Hm. Qed.

Lemma same_records_refl (j : Journal S) : sound j -> same_records j j.
Proof. intros Hj. split; [apply Hj|done]. Qed.

Lemma quiet_ret {A : Type} (a : A) : quiet (st_ret a).
Proof. intros j r j' Hj [= <- <-]. by apply same_records_refl. Qed.

Lemma quiet_err {A : Type} (e : JournalError.t) : quiet (st_err e : J A).
Proof. intros j r j' Hj [= <- <-]. by apply same_records_refl. Qed.

Lemma quiet_lift {A : Type} (m : result JournalError.t A) : quiet (st_lift m).
Proof. intros j r j' Hj [= <- <-]. by apply same_records_refl. Qed.

Lemma quiet_gets {A : Type} (f : Journal S -> A) : quiet (st_gets f).
Proof. intros j r j' Hj [= <- <-]. by apply same_records_refl. Qed.

Lemma quiet_unless {A : Type} (b : bool) (a : A) : quiet (unless b a).
Proof. destruct b; [apply quiet_ret|apply quiet_err]. Qed.

Lemma quiet_new_uuid : quiet new_uuid.
Proof.
  intros j r j' Hj. unfold new_uuid. destruct (jn_random j (jn_draws j)); intros [= <- <-];
    (split; [apply Hj|done]).
Qed.

Lemma quiet_read (n : string) : rs_name n -> quiet (on_store (rs_read n)).
Proof.
  intros Hn j r j' Hj. unfold on_store. destruct (rs_read n (jn_store j)) as [r1 s1] eqn:Hr.
  intros [= <- <-]. destruct (rs_read_spec n _ _ _ (sd_store _ Hj) Hn Hr) as (Hi & Hl & _).
  split; [done|]. split; [done|]. intros id. apply Hl.
Qed.

Lemma same_records_trans (j k l : Journal S) :
  same_records j k -> same_records k l -> same_records j l.
Proof.
  intros (H1 & H2 & H3) (G1 & G2 & G3). split; [done|]. split; [congruence|].
  intros id. by rewrite G3.
Qed.

Lemma quiet_bind {A B : Type} (m : J A) (k : A -> J B) :
  quiet m -> (forall a, quiet (k a)) -> quiet (st_bind m k).
Proof.
  intros Hm Hk j r j' Hj. unfold st_bind. destruct (m j) as [[a|e] j1] eqn:H1.
  - intros H2. apply Hm in H1; [|done]. eapply same_records_trans; [done|].
    eapply Hk; [|done]. by eapply same_records_sound.
  - intros [= <- <-]. by eapply Hm.
Qed.

(** ** Loading *)

Lemma decode_record_Ok (worker id : string) (b : bytes) (r : AttemptRecord) :
  decode_record worker id b = Ok r ->
  b = lib_encode r /\ lib_decode b = Some r /\ validate r worker id = Ok tt.
Proof.
  unfold decode_record. intros H. guards. subst.
  match goal with H : negb (bool_decide _) = false |- _ => apply bool_decide_negb_false in H end.
  by match goal with u : unit |- _ => destruct u end.
Qed.

Lemma load_attempt_spec (id : string) (j j' : Journal S) (r : result JournalError.t (option AttemptRecord)) :
  sound j -> load_attempt id j = (r, j') ->
  same_records j j'
  /\ forall o, r = Ok o -> stored j id = o
     /\ match o with Some rec => validate rec (jn_worker_id j) id = Ok tt | None => True end.
Proof.
  intros Hj. unfold load_attempt. destruct (negb _).
  { intros [= <- <-]. split; [by apply same_records_refl|done]. }
  unfold st_bind at 1, on_store.
  destruct (rs_read (attempt_file id) (jn_store j)) as [r1 s1] eqn:Hr.
  destruct (rs_read_spec _ _ _ _ (sd_store _ Hj) (attempt_names id) Hr) as (Hi & Hl & Ho).
  assert (Hs : same_records j (set_store s1 j)) by (split; [done|split; [done|]]; intros; apply Hl).
  destruct r1 as [found|e]; [|intros [= <- <-]; by split].
  specialize (Ho found eq_refl). unfold stored. rewrite <- Ho.
  destruct found as [b|]; [|intros [= <- <-]; split; [done|]; by intros o [= <-]].
  unfold st_bind, st_gets, st_lift. cbn [set_store jn_worker_id].
  destruct (decode_record (jn_worker_id j) id b) as [rec|e] eqn:Hd; intros [= <- <-]; split; try done.
  intros o [= <-]. apply decode_record_Ok in Hd as (_ & Hdec & Hval). done.
Qed.

(** The state after loading: a record that is stored and valid, or none. *)
Definition holding (id : string) (o : option AttemptRecord) (j : Journal S) : Prop :=
  stored j id = o
  /\ match o with Some rec => validate rec (jn_worker_id j) id = Ok tt | None => True end.

Lemma holding_same (id : string) (o : option AttemptRecord) (j j' : Journal S) :
  same_records j j' -> holding id o j -> holding id o j'.
Proof.
  intros Hs [H1 H2]. split; [by rewrite (same_records_stored _ _ _ Hs)|].
  destruct Hs as (_ & -> & _). done.
Qed.

Lemma preserves_load (P : Journal S -> Prop) {A : Type} (id : string) (k : option AttemptRecord -> J A) :
  (forall o, preserves (holding id o) (k o)) -> preserves P (st_bind (load_attempt id) k).
Proof.
  intros Hk j r j' Hj _. unfold st_bind. destruct (load_attempt id j) as [[o|e] j1] eqn:Hl;
    destruct (load_attempt_spec _ _ _ _ Hj Hl) as (Hs & Ho).
  - intros H. pose proof (same_records_sound _ _ Hj Hs) as Hj1.
    destruct (Hk o j1 r j' Hj1) as (Hj' & Hw & Hstep); [by apply (holding_same _ _ j); [|apply Ho]|done|].
    split; [done|]. split; [destruct Hs as (_ & E & _); congruence|].
    intros i. rewrite <- (same_records_stored _ _ i Hs). apply Hstep.
  - intros [= <- <-]. by apply same_records_preserves.
Qed.

Lemma preserves_required (P : Journal S -> Prop) {A : Type} (id : string) (k : AttemptRecord -> J A) :
  (forall rec, preserves (holding id (Some rec)) (k rec)) -> preserves P (st_bind (required id) k).
Proof.
  intros Hk. unfold required.
  assert (Hassoc : forall j, st_bind (st_bind (load_attempt id)
      (fun found => st_lift (ok_or found JournalError.Invalid))) k j
    = st_bind (load_attempt id) (fun found =>
        st_bind (st_lift (ok_or found JournalError.Invalid)) k) j).
  { intros j. unfold st_bind. by destruct (load_attempt id j) as [[o|e] j1]. }
  intros j r j' Hj Hp. rewrite Hassoc. revert Hp. apply (preserves_load P); [|done].
  intros [rec|]; [apply (Hk rec)|]. intros j1 r1 j1' Hj1 _ [= <- <-].
  by apply same_records_preserves; [|apply same_records_refl].
Qed.

(** A quiet step before the rest keeps what was loaded. *)
Lemma preserves_quiet_then {A B : Type} (id : string) (o : option AttemptRecord) (m : J A)
  (k : A -> J B) :
  quiet m -> (forall a, preserves (holding id o) (k a)) ->
  preserves (holding id o) (st_bind m k).
Proof.
  intros Hm Hk j r j' Hj Hh. unfold st_bind. destruct (m j) as [[a|e] j1] eqn:H1;
    pose proof (Hm _ _ _ Hj H1) as Hs.
  - intros H. destruct (Hk a j1 r j' (same_records_sound _ _ Hj Hs)) as (Hj' & Hw & Hstep);
      [by eapply holding_same|done|]. split; [done|].
    split; [destruct Hs as (_ & E & _); congruence|].
    intros i. rewrite <- (same_records_stored _ _ i Hs). apply Hstep.
  - intros [= <- <-]. by apply same_records_preserves.
Qed.

(** [st_lift m] before the rest, keeping its equation. *)
Lemma preserves_lift_then (P : Journal S -> Prop) {A B : Type} (m : result JournalError.t A)
  (k : A -> J B) :
  (forall a, m = Ok a -> preserves P (k a)) -> preserves P (st_bind (st_lift m) k).
Proof.
  intros Hk j r j' Hj Hp. unfold st_bind, st_lift. destruct m as [a|e].
  - by apply Hk.
  - intros [= <- <-]. by apply same_records_preserves; [|apply same_records_refl].
Qed.

Lemma preserves_then_ret (P : Journal S -> Prop) {A B : Type} (m : J A) (b : B) :
  preserves P m -> preserves P (st_bind m (fun _ => st_ret b)).
Proof.
  intros Hm j r j' Hj Hp. unfold st_bind. destruct (m j) as [[a|e] j1] eqn:H1;
    intros [= <- <-]; by eapply Hm.
Qed.

Lemma preserves_bind (P : Journal S -> Prop) {A B : Type} (m : J A) (k : A -> J B) :
  preserves P m -> (forall a, preserves (fun _ => True) (k a)) -> preserves P (st_bind m k).
Proof.
  intros Hm Hk j r j' Hj Hp. unfold st_bind. destruct (m j) as [[a|e] j1] eqn:H1.
  - destruct (Hm _ _ _ Hj Hp H1) as (Hj1 & Hw1 & Hs1). intros H2.
    destruct (Hk a _ _ _ Hj1 I H2) as (Hj2 & Hw2 & Hs2). split; [done|]. split; [congruence|].
    intros id. eapply attempt_step_trans; eauto.
  - intros [= <- <-]. by eapply Hm.
Qed.

(** ** Saving *)

Lemma attempt_file_inj (a b : string) : attempt_file a = attempt_file b -> a = b.
Proof. apply append_inj_r. Qed.

Lemma attempt_file_not_session (id : string) : attempt_file id <> ".session"%string.
Proof.
  intros H. apply (f_equal (strip_suffix ".attempt")) in H. unfold attempt_file in H.
  by rewrite strip_suffix_app in H.
Qed.

(** A write under the name of an attempt, successful or not. *)
Lemma save_preserves (id : string) (o : option AttemptRecord) (rec : AttemptRecord) :
  attempt_step o (Some rec) -> preserves (holding id o) (save id rec).
Proof.
  intros Hstep j r j' Hj [Ho _]. unfold save, st_bind, st_gets, st_lift.
  destruct (validate rec (jn_worker_id j) id) as [[]|e] eqn:Hval;
    [|intros [= <- <-]; apply same_records_preserves; [done|by apply same_records_refl]].
  destruct (MAX_RECORD <? _);
    [intros [= <- <-]; apply same_records_preserves; [done|by apply same_records_refl]|].
  unfold on_store. destruct (rs_write _ _ _) as [r1 s1] eqn:Hw. intros [= <- <-].
  destruct (rs_write_spec _ _ _ _ _ (sd_store _ Hj) (attempt_names id) Hw) as (Hi & Hne & Hn).
  set (n := attempt_file id) in *.
  assert (Hcase : rs_lookup s1 n = rs_lookup (jn_store j) n \/ rs_lookup s1 n = Some (lib_encode rec))
    by (destruct r1; auto).
  assert (Hother : forall i, i <> id ->
    rs_lookup s1 (attempt_file i) = rs_lookup (jn_store j) (attempt_file i)).
  { intros i Hii. apply Hne. intros E. by apply attempt_file_inj in E. }
  split; [|split; [done|]].
  - split; [done|]. cbn [set_store jn_store jn_worker_id]. intros i b Hb.
    destruct (decide (i = id)) as [->|Hii]; [|rewrite Hother in Hb by done; by apply (sd_records _ Hj)].
    fold n in Hb. destruct Hcase as [E|E]; rewrite E in Hb; [by apply (sd_records _ Hj)|].
    injection Hb as <-. by exists rec.
  - intros i. unfold stored. cbn [set_store jn_store].
    destruct (decide (i = id)) as [->|Hii]; [|rewrite Hother by done; apply attempt_step_refl].
    fold n. destruct Hcase as [E|E]; rewrite E; [apply attempt_step_refl|].
    cbn [mbind option_bind]. rewrite lib_round_trip. unfold stored in Ho. fold n in Ho. by rewrite Ho.
Qed.

(** ** Record updates *)

Lemma grows_app {A : Type} (R : A -> A -> Prop) (l k : list A) : Reflexive R -> grows R l (l ++ k).
Proof. intros HR. exists l, k. split; [done|]. by apply Forall2_refl_by. Qed.

Lemma Forall2_insert_self {A : Type} (R : A -> A -> Prop) (l : list A) (i : nat) (x y : A) :
  Reflexive R -> l !! i = Some x -> R x y -> Forall2 R l (<[i := y]> l).
Proof.
  intros HR Hi Hxy. rewrite <- (list_insert_id l i x) at 1 by done.
  apply Forall2_insert; [by apply Forall2_refl_by|done].
Qed.

Lemma grows_insert {A : Type} (R : A -> A -> Prop) (l : list A) (i : nat) (x y : A) :
  Reflexive R -> l !! i = Some x -> R x y -> grows R l (<[i := y]> l).
Proof.
  intros HR Hi Hxy. exists (<[i := y]> l), []. rewrite app_nil_r. split; [done|].
  by eapply Forall2_insert_self.
Qed.

Lemma sealed_same (a b : AttemptRecord) :
  rc_phase_reports b = rc_phase_reports a -> rc_container_id b = rc_container_id a ->
  rc_outputs b = rc_outputs a -> rc_logs b = rc_logs a -> sealed_by a b.
Proof. intros H1 H2 H3 H4. destruct (reflexivity a : sealed_by a a). split; congruence. Qed.

#[local] Hint Extern 0 (grows _ ?l ?l) => reflexivity : core.
#[local] Hint Extern 0 (?l `prefix_of` ?l) => reflexivity : core.
#[local] Hint Extern 0 (sealed_by ?a ?b) => apply sealed_same; reflexivity : core.

(** Updates that leave the completion and its answers alone. *)
Lemma completion_same (a b : AttemptRecord) :
  rc_completion b = rc_completion a -> rc_completion_response b = rc_completion_response a ->
  completion_evolves a b
  /\ (forall q s, rc_completion a = Some q -> rc_completion b = Some q ->
      rc_completion_response a = Some s ->
      exists s', rc_completion_response b = Some s' /\ (s' = s \/ answer_may_replace s s' = true))
  /\ answer_settles a b.
Proof.
  intros H1 H2. split_and!; [intros q Hq; left; congruence| |intros q s ? ? _; split; congruence].
  intros q s _ _ Hs. exists s. split; [congruence|by left].
Qed.

Lemma with_container_evolves (c : string) (r : AttemptRecord) :
  rc_container_id r = EmptyString -> rc_completion r = None -> evolves r (with_container c r).
Proof.
  intros Hc Hn. destruct (completion_same r (with_container c r) eq_refl eq_refl) as (? & ? & ?).
  split; simpl; auto; try done.
Qed.

Lemma with_exit_evolves (e : ExitEvidence) (r : AttemptRecord) :
  rc_exit r = None -> evolves r (with_exit e r).
Proof.
  intros He. destruct (completion_same r (with_exit e r) eq_refl eq_refl) as (? & ? & ?).
  split; simpl; auto. congruence.
Qed.

Lemma with_phase_evolves (p : ReportPhaseRequest) (r : AttemptRecord) :
  rc_completion r = None -> evolves r (with_phase p r).
Proof.
  intros Hn. destruct (completion_same r (with_phase p r) eq_refl eq_refl) as (? & ? & ?).
  split; simpl; auto; [by eexists|done].
Qed.

Lemma with_completion_evolves (q : CompleteAttemptRequest) (r : AttemptRecord) :
  rc_completion r = None -> evolves r (with_completion q r).
Proof.
  intros Hn. split; simpl; auto; try done.
  - intros p Hp. congruence.
  - intros p s Hp. congruence.
  - intros p s Hp. congruence.
Qed.

Lemma with_response_evolves (s : CompleteAttemptResponse) (r : AttemptRecord) :
  (forall s0, rc_completion_response r = Some s0 -> answer_may_replace s0 s = true) ->
  evolves r (with_response s r).
Proof.
  intros Hr. split; simpl; auto; try done; [intros p Hp; by left| |].
  - intros q s0 _ _ Hs0. exists s. split; [done|right]. by apply Hr.
  - intros q s0 _ Hs0 Hd. apply Hr, andb_true_iff in Hs0 as [Hs0%Z.eqb_eq _]. done.
Qed.

Lemma with_superseded_evolves (p q : CompleteAttemptRequest) (s : CompleteAttemptResponse)
  (r : AttemptRecord) :
  rc_completion r = Some p -> rc_completion_response r = Some s -> rc_rejected_completion r = None ->
  reason_is p FailureReason.UserCancelled = false ->
  reason_is q FailureReason.UserCancelled = true ->
  (cs_decision s =? Decision_.to_i32 Decision_.StopRequested)%Z = true ->
  evolves r (with_superseded p s q r).
Proof.
  unfold reason_is. rewrite Z.eqb_neq, !Z.eqb_eq. intros Hp Ha Hn Hr Hq Hs. split; simpl; auto.
  - intros p' Hp'. right. rewrite Hp in Hp'. injection Hp' as <-. split_and!; auto. by exists q, s.
  - intros p' s' Hp' [= <-]. rewrite Hp in Hp'. injection Hp' as ->. congruence.
  - congruence.
  - intros p' s' _ Hs' Hd. congruence.
Qed.

Lemma with_outputs_evolves (l : list OutputUpload) (r : AttemptRecord) :
  grows output_evolves (rc_outputs r) l ->
  (rc_completion r <> None -> Forall2 output_sealed (rc_outputs r) l) ->
  evolves r (with_outputs l r).
Proof.
  intros Hg Hs. destruct (completion_same r (with_outputs l r) eq_refl eq_refl) as (? & ? & ?).
  split; simpl; auto. intros Hc. split; simpl; auto. apply Forall2_refl_by. by unfold log_sealed.
Qed.

Lemma with_logs_evolves (l : list LogUpload) (r : AttemptRecord) :
  grows log_evolves (rc_logs r) l ->
  (rc_completion r <> None -> Forall2 log_sealed (rc_logs r) l) ->
  evolves r (with_logs l r).
Proof.
  intros Hg Hs. destruct (completion_same r (with_logs l r) eq_refl eq_refl) as (? & ? & ?).
  split; simpl; auto. intros Hc. split; simpl; auto. apply Forall2_refl_by. by unfold output_sealed.
Qed.

(** One upload of the list moves on; sealed records only take answers. *)
Lemma set_output_evolves (i : nat) (u v : OutputUpload) (r : AttemptRecord) :
  rc_outputs r !! i = Some u -> output_evolves u v ->
  (rc_completion r <> None -> output_sealed u v) -> evolves r (set_output i v r).
Proof.
  intros Hi Huv Hs. apply with_outputs_evolves; [by eapply grows_insert; [apply _|..]|].
  intros Hc. eapply Forall2_insert_self; [by unfold output_sealed; intros ?|done|by apply Hs].
Qed.

Lemma set_log_evolves (i : nat) (u v : LogUpload) (r : AttemptRecord) :
  rc_logs r !! i = Some u -> log_evolves u v ->
  (rc_completion r <> None -> log_sealed u v) -> evolves r (set_log i v r).
Proof.
  intros Hi Huv Hs. apply with_logs_evolves; [by eapply grows_insert; [apply _|..]|].
  intros Hc. eapply Forall2_insert_self; [by unfold log_sealed; intros ?|done|by apply Hs].
Qed.

(** ** The operations *)

Lemma is_none_negb {A : Type} (o : option A) : negb (is_none o) = false -> o = None.
Proof. by destruct o. Qed.

Lemma is_empty_str_negb (s : string) : negb (is_empty_str s) = false -> s = EmptyString.
Proof. unfold is_empty_str. rewrite negb_false_iff. apply bool_decide_eq_true. Qed.

Ltac journal_step :=
  match goal with
  | |- preserves _ (st_bind (required _) _) => apply preserves_required; intros ?rec
  | |- preserves _ (st_bind (load_attempt _) _) => apply preserves_load; intros ?saved
  | |- preserves _ (st_bind (st_lift _) _) => apply preserves_lift_then; intros ?x ?Hx
  | |- preserves (holding _ _) (st_bind new_uuid _) =>
      apply preserves_quiet_then; [apply quiet_new_uuid|intros ?fresh]
  | |- preserves _ (st_bind (st_gets _) _) =>
      apply preserves_bind; [apply quiet_preserves, quiet_gets|intros ?x]
  | |- preserves _ (st_bind (attempt_of_authority _) _) =>
      apply preserves_bind; [apply quiet_preserves; unfold attempt_of_authority;
        apply quiet_bind; [apply quiet_lift|intros; apply quiet_ret]|intros ?id]
  | |- preserves _ (st_bind _ (fun _ => st_ret _)) => apply preserves_then_ret
  | |- preserves _ (st_ret _) => apply quiet_preserves, quiet_ret
  | |- preserves _ (st_err _) => apply quiet_preserves, quiet_err
  | |- preserves _ (st_lift _) => apply quiet_preserves, quiet_lift
  | |- preserves _ (unless _ _) => apply quiet_preserves, quiet_unless
  | |- preserves _ (save _ _) => apply save_preserves
  | |- preserves _ (if ?b then _ else _) => let E := fresh "Hif" in destruct b eqn:E
  | |- preserves _ (match ?o with _ => _ end) => let E := fresh "Hm" in destruct o eqn:E
  end.

Ltac journal := repeat journal_step.

Lemma persist_assignment_preserves (a : Assignment) :
  preserves (fun _ => True) (persist_assignment a).
Proof. unfold persist_assignment. journal. simpl. by exists a. Qed.

Lemma bind_container_preserves (id c : string) : preserves (fun _ => True) (bind_container id c).
Proof.
  unfold bind_container. journal. apply with_container_evolves.
  - by apply is_empty_str_negb.
  - by apply is_none_negb.
Qed.

Lemma record_exit_preserves (id : string) (code : Z) (oom : bool) :
  preserves (fun _ => True) (record_exit id code oom).
Proof. unfold record_exit. journal. by apply with_exit_evolves. Qed.

Lemma prepare_phase_preserves (id : string) (phase : AttemptState.t) :
  preserves (fun _ => True) (prepare_phase id phase).
Proof.
  unfold prepare_phase. journal. apply with_phase_evolves. by apply is_none_negb.
Qed.

Lemma persist_completion_preserves (q : CompleteAttemptRequest) :
  preserves (fun _ => True) (persist_completion q).
Proof. unfold persist_completion. journal. by apply with_completion_evolves. Qed.

Lemma supersede_preserves (q : CompleteAttemptRequest) :
  preserves (fun _ => True) (supersede_rejected_completion q).
Proof.
  unfold supersede_rejected_completion. journal. ok_inv.
  rewrite !orb_false_iff in *. destruct_and!.
  apply with_superseded_evolves; [done|done|by apply is_none_negb|done|..]; by apply negb_false_iff.
Qed.

Lemma record_completion_response_preserves (q : CompleteAttemptRequest) (s : CompleteAttemptResponse) :
  preserves (fun _ => True) (record_completion_response q s).
Proof.
  unfold record_completion_response. journal; apply with_response_evolves; [|congruence].
  intros s0 Hs0. assert (s0 = c) as -> by congruence. by apply negb_false_iff.
Qed.

Lemma prepare_output_plan_preserves (id name : string) (size : N) (sha : string) (part_size : N) :
  preserves (fun _ => True) (prepare_output_plan id name size sha part_size).
Proof.
  unfold prepare_output_plan. journal.
  match goal with H : negb (is_none _) = false |- _ => apply is_none_negb in H end.
  apply with_outputs_evolves; [apply grows_app, _|congruence].
Qed.

(** Attaching a grant, a finalization, an answer or parts to an upload. *)
Lemma set_grant_evolves (u : OutputUpload) (id key : string) :
  ou_upload_id u = EmptyString -> output_evolves u (set_grant id key u).
Proof. intros Hu. destruct (reflexivity u : output_evolves u u). split; simpl; auto; congruence. Qed.

Lemma set_finalization_evolves (u : OutputUpload) (f : FinalizeUploadRequest) :
  ou_finalization u = None -> output_evolves u (set_finalization f u).
Proof. intros Hu. destruct (reflexivity u : output_evolves u u). split; simpl; auto; congruence. Qed.

Lemma set_response_evolves (u : OutputUpload) (r : FinalizeUploadResponse) :
  ou_response u = None -> output_evolves u (set_response r u).
Proof. intros Hu. destruct (reflexivity u : output_evolves u u). split; simpl; auto; congruence. Qed.

Lemma set_parts_evolves (u : OutputUpload) (l : list CompletedPart) :
  ou_finalization u = None ->
  (forall p, p ∈ ou_parts u -> exists q, q ∈ l /\ part_evolves p q) ->
  output_evolves u (set_parts l u).
Proof. intros Hu Hl. split; simpl; auto. congruence. Qed.

Lemma record_output_grant_preserves (q : CreateUploadRequest) (g : CreateUploadResponse) :
  preserves (fun _ => True) (record_output_grant q g).
Proof.
  unfold record_output_grant. journal. ok_inv.
  match goal with H : find_first _ _ = Some _ |- _ => apply find_first_Some in H as [Hi _] end.
  eapply set_output_evolves; [done|apply set_grant_evolves; by apply is_empty_str_negb|].
  match goal with H : negb (is_none _) = false |- _ => by apply is_none_negb in H end.
Qed.

(** The guards of an upload operation: the upload found, and no completion. *)
Ltac found :=
  ok_inv; rewrite ?orb_false_iff in *; destruct_and?;
  repeat match goal with
  | H : find_first _ (rc_outputs _) = Some (_, _) |- _ => apply find_first_Some in H as [?Hi _]
  | H : find_first _ (rc_logs _) = Some (_, _) |- _ => apply find_first_Some in H as [?Hi _]
  | H : negb (is_none _) = false |- _ => apply is_none_negb in H
  | H : negb (is_empty_str _) = false |- _ => apply is_empty_str_negb in H
  end.

Lemma prepare_output_finalization_preserves (id q : string) (o : ObjectVersion) :
  preserves (fun _ => True) (prepare_output_finalization id q o).
Proof.
  unfold prepare_output_finalization. journal. found.
  eapply set_output_evolves; [done|by apply set_finalization_evolves|congruence].
Qed.

Lemma record_output_response_preserves (q : FinalizeUploadRequest) (r : FinalizeUploadResponse) :
  preserves (fun _ => True) (record_output_response q r).
Proof.
  unfold record_output_response. journal. found.
  eapply set_output_evolves; [done|by apply set_response_evolves|]. by unfold output_sealed.
Qed.

Lemma elem_of_insert_at {A : Type} (i : nat) (x y : A) (l : list A) : y ∈ l -> y ∈ insert_at i x l.
Proof.
  intros H. unfold insert_at. rewrite <- (take_drop i l) in H. apply elem_of_app in H as [H|H].
  - apply elem_of_app. by left.
  - apply elem_of_app. right. by right.
Qed.

Lemma prepare_output_part_preserves (id q : string) (n : N) (sha : string) :
  preserves (fun _ => True) (prepare_output_part id q n sha).
Proof.
  unfold prepare_output_part. journal. found.
  eapply set_output_evolves; [done|apply set_parts_evolves; [done|]|congruence].
  intros p Hp. exists p. split; [by apply elem_of_insert_at|reflexivity].
Qed.

(** Filling in the ETag of a prepared part. *)
Lemma uploaded_part_evolves (l : list CompletedPart) (k : nat) (p q : CompletedPart) :
  l !! k = Some p -> part_evolves p q ->
  forall x, x ∈ l -> exists y, y ∈ <[k := q]> l /\ part_evolves x y.
Proof.
  intros Hk Hpq x Hx. apply list_elem_of_lookup in Hx as [i Hi].
  destruct (decide (i = k)) as [->|Hne].
  - assert (x = p) as -> by congruence. exists q. split; [|done]. apply list_elem_of_lookup.
    exists k. apply list_lookup_insert_eq. by eapply lookup_lt_Some.
  - exists x. split; [|reflexivity]. apply list_elem_of_lookup. exists i.
    by rewrite list_lookup_insert_ne.
Qed.

Lemma record_output_part_preserves (q : GrantUploadPartRequest) (etag : string) :
  preserves (fun _ => True) (record_output_part q etag).
Proof.
  unfold record_output_part. journal. found.
  eapply set_output_evolves; [done|apply set_parts_evolves; [done|]|congruence].
  match goal with H : find_first _ (ou_parts _) = Some _ |- _ => apply find_first_Some in H as [Hk _] end.
  eapply uploaded_part_evolves; [done|]. split; simpl; [done..|congruence].
Qed.

Lemma prepare_multipart_preserves (id q : string) :
  preserves (fun _ => True) (prepare_multipart_finalization id q).
Proof.
  unfold prepare_multipart_finalization. journal. found.
  eapply set_output_evolves; [done|by apply set_finalization_evolves|congruence].
Qed.

Lemma prepare_log_preserves (id : string) (st : LogStream.t) (first last : N) (gaps : list LogGap)
  (size : N) (sha : string) :
  preserves (fun _ => True) (prepare_log id st first last gaps size sha).
Proof.
  unfold prepare_log. journal. found. apply with_logs_evolves; [apply grows_app, _|congruence].
Qed.

Lemma record_log_grant_preserves (q : CreateUploadRequest) (g : CreateUploadResponse) :
  preserves (fun _ => True) (record_log_grant q g).
Proof.
  unfold record_log_grant. journal. found. eapply set_log_evolves; [done| |congruence].
  by split; simpl.
Qed.

Lemma prepare_log_finalization_preserves (id q : string) (o : ObjectVersion) :
  preserves (fun _ => True) (prepare_log_finalization id q o).
Proof.
  unfold prepare_log_finalization. journal. found.
  eapply set_log_evolves; [done| |congruence]. split; simpl; done || congruence.
Qed.

Lemma record_log_response_preserves (q : FinalizeUploadRequest) (r : FinalizeUploadResponse) :
  preserves (fun _ => True) (record_log_response q r).
Proof.
  unfold record_log_response. journal. found.
  eapply set_log_evolves; [done| |by unfold log_sealed]. split; simpl; done || congruence.
Qed.

Lemma prepare_log_registration_preserves (id q : string) :
  preserves (fun _ => True) (prepare_log_registration id q).
Proof.
  unfold prepare_log_registration. journal. found.
  eapply set_log_evolves; [done| |congruence]. split; simpl; done || congruence.
Qed.

Lemma record_log_registration_preserves (q : RegisterLogSegmentRequest) (d : Decision_.t)
  (s : AttemptState.t) :
  preserves (fun _ => True) (record_log_registration q d s).
Proof.
  unfold record_log_registration. journal. found.
  eapply set_log_evolves; [done| |by unfold log_sealed]. split; simpl; done || congruence.
Qed.

(** ** Sessions and claims *)

Lemma quiet_load_session : quiet load_session.
Proof.
  unfold load_session. apply quiet_bind; [by apply quiet_read|]. intros [b|]; [|apply quiet_ret].
  apply quiet_bind; [apply quiet_gets|]. intros w. apply quiet_bind; [apply quiet_lift|].
  intros r. apply quiet_ret.
Qed.

Lemma quiet_save_session (r : SessionRecord) : quiet (save_session r).
Proof.
  unfold save_session. destruct (_ <? _); [apply quiet_err|].
  intros j res j' Hj. unfold on_store. destruct (rs_write _ _ _) as [r1 s1] eqn:Hw.
  intros [= <- <-].
  destruct (rs_write_spec _ _ _ _ _ (sd_store _ Hj) session_name Hw) as (Hi & Hne & _).
  split; [done|]. split; [done|]. intros id. cbn [set_store jn_store]. apply Hne.
  apply attempt_file_not_session.
Qed.

Ltac quiet_step :=
  match goal with
  | |- quiet (st_bind load_session _) => apply quiet_bind; [apply quiet_load_session|intros ?]
  | |- quiet (st_bind (save_session _) _) => apply quiet_bind; [apply quiet_save_session|intros ?]
  | |- quiet (st_bind (st_lift _) _) => apply quiet_bind; [apply quiet_lift|intros ?]
  | |- quiet (st_bind (st_gets _) _) => apply quiet_bind; [apply quiet_gets|intros ?]
  | |- quiet (st_bind new_uuid _) => apply quiet_bind; [apply quiet_new_uuid|intros ?]
  | |- quiet (st_ret _) => apply quiet_ret
  | |- quiet (st_err _) => apply quiet_err
  | |- quiet (unless _ _) => apply quiet_unless
  | |- quiet (save_session _) => apply quiet_save_session
  | |- quiet (if ?b then _ else _) => destruct b
  end.

Lemma begin_incarnation_quiet (c : RegisterWorkerRequest) : quiet (begin_incarnation c).
Proof.
  unfold begin_incarnation. repeat quiet_step.
  apply quiet_bind; [|intros; apply quiet_ret].
  intros j r j' Hj [= <- <-]. split; [apply Hj|done].
Qed.

Lemma record_registration_quiet (r : RegisterWorkerResponse) : quiet (record_registration r).
Proof. unfold record_registration. repeat quiet_step. Qed.

Lemma current_session_quiet (a : Assignment) (s : WorkerSession) : quiet (current_session a s).
Proof. unfold current_session. repeat quiet_step. Qed.

Lemma prepare_launch_preserves (a : Assignment) (s : WorkerSession) :
  preserves (fun _ => True) (prepare_launch a s).
Proof.
  unfold prepare_launch. journal_step.
  apply preserves_bind; [apply quiet_preserves, current_session_quiet|intros _].
  apply preserves_bind.
  { eapply quiet_preserves. intros j r j' Hj H. by eapply load_attempt_spec. }
  intros [saved|].
  - apply preserves_bind; [apply persist_assignment_preserves|intros _].
    destruct (negb _); [apply quiet_preserves, quiet_err|apply prepare_phase_preserves].
  - apply preserves_bind; [apply persist_assignment_preserves|intros _].
    apply prepare_phase_preserves.
Qed.

Lemma claim_assignment_preserves (a : Assignment) (s : WorkerSession) :
  preserves (fun _ => True) (claim_assignment a s).
Proof.
  unfold claim_assignment.
  apply preserves_bind; [apply quiet_preserves, current_session_quiet|intros _].
  journal_step. apply preserves_bind.
  { eapply quiet_preserves. intros j r j' Hj H. by eapply load_attempt_spec. }
  intros [saved|]; [apply quiet_preserves, quiet_err|apply persist_assignment_preserves].
Qed.

(** * Sequences of operations *)

(** Every call that can change the journal. *)
Inductive journal_op : Type :=
| PersistAssignment (a : Assignment)
| BindContainer (id container : string)
| RecordExit (id : string) (code : Z) (oom : bool)
| PreparePhase (id : string) (phase : AttemptState.t)
| PersistCompletion (q : CompleteAttemptRequest)
| SupersedeRejected (q : CompleteAttemptRequest)
| RecordCompletionResponse (q : CompleteAttemptRequest) (s : CompleteAttemptResponse)
| PrepareOutputPlan (id name : string) (size : N) (sha : string) (part_size : N)
| RecordOutputGrant (q : CreateUploadRequest) (g : CreateUploadResponse)
| PrepareOutputFinalization (id q : string) (o : ObjectVersion)
| RecordOutputResponse (q : FinalizeUploadRequest) (r : FinalizeUploadResponse)
| PrepareOutputPart (id q : string) (n : N) (sha : string)
| RecordOutputPart (q : GrantUploadPartRequest) (etag : string)
| PrepareMultipartFinalization (id q : string)
| PrepareLog (id : string) (st : LogStream.t) (first last : N) (gaps : list LogGap) (size : N) (sha : string)
| RecordLogGrant (q : CreateUploadRequest) (g : CreateUploadResponse)
| PrepareLogFinalization (id q : string) (o : ObjectVersion)
| RecordLogResponse (q : FinalizeUploadRequest) (r : FinalizeUploadResponse)
| PrepareLogRegistration (id q : string)
| RecordLogRegistration (q : RegisterLogSegmentRequest) (d : Decision_.t) (s : AttemptState.t)
| BeginIncarnation (claims : RegisterWorkerRequest)
| RecordRegistration (r : RegisterWorkerResponse)
| PrepareLaunch (a : Assignment) (s : WorkerSession)
| ClaimAssignment (a : Assignment) (s : WorkerSession).

Definition run_journal_op (op : journal_op) (j : Journal S) : Journal S :=
  match op with
  | PersistAssignment a => (persist_assignment a j).2
  | BindContainer id c => (bind_container id c j).2
  | RecordExit id code oom => (record_exit id code oom j).2
  | PreparePhase id p => (prepare_phase id p j).2
  | PersistCompletion q => (persist_completion q j).2
  | SupersedeRejected q => (supersede_rejected_completion q j).2
  | RecordCompletionResponse q s => (record_completion_response q s j).2
  | PrepareOutputPlan id name size sha ps => (prepare_output_plan id name size sha ps j).2
  | RecordOutputGrant q g => (record_output_grant q g j).2
  | PrepareOutputFinalization id q o => (prepare_output_finalization id q o j).2
  | RecordOutputResponse q r => (record_output_response q r j).2
  | PrepareOutputPart id q n sha => (prepare_output_part id q n sha j).2
  | RecordOutputPart q etag => (record_output_part q etag j).2
  | PrepareMultipartFinalization id q => (prepare_multipart_finalization id q j).2
  | PrepareLog id st first last gaps size sha => (prepare_log id st first last gaps size sha j).2
  | RecordLogGrant q g => (record_log_grant q g j).2
  | PrepareLogFinalization id q o => (prepare_log_finalization id q o j).2
  | RecordLogResponse q r => (record_log_response q r j).2
  | PrepareLogRegistration id q => (prepare_log_registration id q j).2
  | RecordLogRegistration q d s => (record_log_registration q d s j).2
  | BeginIncarnation c => (begin_incarnation c j).2
  | RecordRegistration r => (record_registration r j).2
  | PrepareLaunch a s => (prepare_launch a s j).2
  | ClaimAssignment a s => (claim_assignment a s j).2
  end.

Definition run_journal (l : list journal_op) (j : Journal S) : Journal S :=
  fold_left (fun j op => run_journal_op op j) l j.

Definition keeps_evidence (j j' : Journal S) : Prop :=
  sound j' /\ jn_worker_id j' = jn_worker_id j
  /\ forall id, attempt_step (stored j id) (stored j' id).

Lemma preserves_snd {A : Type} (m : J A) (j : Journal S) :
  preserves (fun _ => True) m -> sound j -> keeps_evidence j (m j).2.
Proof. intros Hm Hj. destruct (m j) as [r j'] eqn:H. by apply (Hm j r j'). Qed.

#[local] Hint Resolve persist_assignment_preserves bind_container_preserves record_exit_preserves
  prepare_phase_preserves persist_completion_preserves supersede_preserves
  record_completion_response_preserves prepare_output_plan_preserves record_output_grant_preserves
  prepare_output_finalization_preserves record_output_response_preserves
  prepare_output_part_preserves record_output_part_preserves prepare_multipart_preserves
  prepare_log_preserves record_log_grant_preserves prepare_log_finalization_preserves
  record_log_response_preserves prepare_log_registration_preserves record_log_registration_preserves
  prepare_launch_preserves claim_assignment_preserves quiet_preserves begin_incarnation_quiet
  record_registration_quiet : dispatch.

Lemma run_journal_op_keeps (op : journal_op) (j : Journal S) :
  sound j -> keeps_evidence j (run_journal_op op j).
Proof. intros Hj. destruct op; apply preserves_snd; auto with dispatch. Qed.

Lemma run_journal_keeps (l : list journal_op) (j : Journal S) :
  sound j -> keeps_evidence j (run_journal l j).
Proof.
  revert j. induction l as [|op l IH]; intros j Hj; simpl.
  { split; [done|]. split; [done|]. intros id. apply attempt_step_refl. }
  destruct (run_journal_op_keeps op j Hj) as (H1 & W1 & S1).
  destruct (IH _ H1) as (H2 & W2 & S2). split; [done|]. split; [congruence|].
  intros id. eapply attempt_step_trans; eauto.
Qed.

(** C14: the journal's evidence is append-only.  Whatever operations run, in
    whatever order and with whatever answers of the store and the random
    source, every attempt file stays the canonical encoding of a record that
    validates, and each attempt's record only grows: the assignment, container
    and exit evidence are fixed once set, phase events, uploads and log
    segments are only appended to or filled in, a completion is replaced at
    most once (by a cancellation, after the control plane asked to stop), and
    once it exists the events, uploads and container binding are sealed. *)
Theorem evidence_is_append_only (l : list journal_op) (j : Journal S) (id : string) :
  sound j -> sound (run_journal l j) /\ attempt_step (stored j id) (stored (run_journal l j) id).
Proof. intros Hj. destruct (run_journal_keeps l j Hj) as (H1 & _ & H2). done. Qed.
End Preservation.

(** ** A concrete journal *)

Lemma flat_digest_length (b : bytes) : List.length (flat_digest b) = 32%nat.
Proof. done. Qed.

#[export] Existing Instance plain_libraries.
#[export] Existing Instance plain_libraries_laws.
#[export] Instance directory_ops : RecordStore Directory := Directory_store flat_digest.
#[export] Instance directory_laws : RecordStoreLaws Directory :=
  Directory_laws flat_digest flat_digest_length.

Lemma attempt_file_name (id : string) : @rs_name Directory directory_ops directory_laws (attempt_file id).
Proof.
  change (attempt_file id <> PENDING). intros H. apply (f_equal (strip_suffix ".attempt")) in H. unfold attempt_file in H.
  by rewrite strip_suffix_app in H.
Qed.

Lemma session_file_name : @rs_name Directory directory_ops directory_laws ".session".
Proof. by change (".session"%string <> PENDING). Qed.

Definition worker_fixture : string := "00000000-0000-0000-0000-000000000001".
Definition attempt_fixture : string := "00000000-0000-0000-0000-00000000000a".

Definition identity_fixture : AttemptAuthority :=
  {| aa_job_id := "00000000-0000-0000-0000-00000000000b"; aa_attempt_id := attempt_fixture;
     aa_generation := 1; aa_worker_id := worker_fixture;
     aa_session_id := "00000000-0000-0000-0000-00000000000c" |}.

Definition job_assignment : Assignment :=
  {| as_authority := Some identity_fixture;
     as_image_digest := as_image_digest assignment_fixture;
     as_argv := as_argv assignment_fixture; as_resources := as_resources assignment_fixture;
     as_canonical_job_spec_json := as_canonical_job_spec_json assignment_fixture;
     as_spec_sha256 := as_spec_sha256 assignment_fixture; as_lease_duration_ms := 30000;
     as_server_time_unix_ms := 5; as_phase_remaining_ms := 60000;
     as_inputs := as_inputs assignment_fixture |}.

(** A random source whose draws differ. *)
Definition random_fixture : nat -> option bytes := fun n => Some [byte_of_N (N.of_nat n + 1)].

Definition journal_fixture : Journal Directory :=
  {| jn_store := {| di_limits := default_limits; di_poisoned := false;
                    di_disk := {| dk_view := ∅; dk_safe := ∅ |};
                    di_os := fun _ => os_fixture true; di_now := 0 |};
     jn_worker_id := worker_fixture; jn_incarnation := None; jn_random := random_fixture;
     jn_draws := 0 |}.

Lemma journal_fixture_sound : sound journal_fixture.
Proof.
  split.
  - split; [done|]. intros _. split; [|done]. split; [done|]. intros n f _ H.
    change (dk_view _) with (∅ : tree) in H. by rewrite lookup_empty in H.
  - intros id b.
    change (rs_lookup _ _) with (record_at flat_digest {| dk_view := ∅; dk_safe := ∅ |} (attempt_file id)).
    unfold record_at, content. cbn [dk_view]. rewrite lookup_empty. by destruct (bool_decide _).
Qed.

Definition container_fixture : string :=
  "bbbbbbbbbbbbbbbbbbbbbbbbbbbbbbbbbbbbbbbbbbbbbbbbbbbbbbbbbbbbbbbb".

Definition ops_fixture : list journal_op :=
  [PersistAssignment job_assignment; PreparePhase attempt_fixture AttemptState.Starting;
   BindContainer attempt_fixture container_fixture;
   PreparePhase attempt_fixture AttemptState.Running;
   RecordExit attempt_fixture 0 false; PreparePhase attempt_fixture AttemptState.Finalizing;
   PrepareOutputPlan attempt_fixture "model" 10 container_fixture 0].

Lemma evidence_is_append_only_witness :
  (sound (run_journal ops_fixture journal_fixture)
   /\ attempt_step (stored journal_fixture attempt_fixture)
        (stored (run_journal ops_fixture journal_fixture) attempt_fixture))
  /\ (length <$> (rc_outputs <$> stored (run_journal ops_fixture journal_fixture) attempt_fixture))
     = Some 1%nat.
Proof.
  split.
  - apply (evidence_is_append_only attempt_file_name session_file_name ops_fixture journal_fixture
             attempt_fixture).
    apply journal_fixture_sound.
  - vm_compute. reflexivity.
Defined.
