(* ===== verification/JournalFacts.v ===== *)
(** What a stored record guarantees: clean success, contiguous logs, stable
    retry identities, and the seal of a completion. *)

From S2P Require Import Prelude Strings Protocol Lease Control Execution Uploads Phase.
From S2P Require Import LogRegistration Completion Os RecordStore JournalRecord Journal.
From S2P Require Import JournalUploads JournalLogs JournalSession JournalFiles Codec JournalEvidence.
Open Scope N_scope.

(** * What validation establishes *)

Section Validated.
Context {lib : Libraries}.

Lemma invalid_Ok {E A : Type} (m : result E A) (a : A) : invalid m = Ok a -> m = Ok a.
Proof. apply map_err_Ok_inv. Qed.

Record validated (r : AttemptRecord) (worker id : string) : Prop := {
  va_authority : exists a, as_authority (rc_assignment r) = Some a /\ aa_worker_id a = worker
    /\ aa_attempt_id a = id;
  va_timing : as_lease_duration_ms (rc_assignment r) = 0 /\ as_phase_remaining_ms (rc_assignment r) = 0;
  va_container : rc_container_id r <> EmptyString -> lower_hash (rc_container_id r) = true;
  va_exit : forall e, rc_exit r = Some e ->
    rc_container_id r <> EmptyString /\ (0 <= ev_exit_code e <= 255)%Z;
  va_phases : exists a acc, rfold (check_phase r a) (0%Z, []) (imap pair (rc_phase_reports r)) = Ok acc;
  va_completion : validate_completion r = Ok tt;
  va_outputs : validate_outputs r = Ok tt;
  va_logs : validate_logs r = Ok tt;
}.

Lemma validate_Ok (r : AttemptRecord) (worker id : string) :
  validate r worker id = Ok tt -> validated r worker id.
Proof.
  unfold validate. intros H. guards.
  repeat match goal with u : unit |- _ => destruct u end.
  rewrite !orb_false_iff, ?bool_decide_negb_false, ?negb_eqb_false_N in *. destruct_and!.
  split; try done; try by eexists.
  - intros Hc. match goal with H : _ && _ = false |- _ => apply andb_false_iff in H as [Hd|Hd] end.
    + by apply is_empty_str_negb in Hd.
    + apply orb_false_iff in Hd as [Hd _]. by apply negb_false_iff.
  - intros e He. match goal with H : bad_exit_evidence r = false |- _ => unfold bad_exit_evidence in H end.
    rewrite He in *.
    match goal with H : is_empty_str _ || _ = false |- _ => apply orb_false_iff in H as [Hd Hr] end.
    unfold is_empty_str in Hd. bools_in Hd. bools_in Hr. split; [done|lia].
  - by eexists _, _.
Qed.

(** The last phase event of a valid record. *)
Lemma last_phase_checked (r : AttemptRecord) (a : AttemptAuthority) (acc : Z * list string)
  (p : ReportPhaseRequest) :
  rfold (check_phase r a) (0%Z, []) (imap pair (rc_phase_reports r)) = Ok acc ->
  p ∈ rc_phase_reports r ->
  (rp_phase p <> AttemptState.to_i32 AttemptState.Starting -> rp_container_id p = rc_container_id r)
  /\ (rp_phase p = finalizing -> rp_exit_code p = exit_code_of r).
Proof.
  intros H Hp. assert (Hin : exists n, (n, p) ∈ imap pair (rc_phase_reports r)).
  { apply list_elem_of_lookup in Hp as [n Hn]. exists n. apply list_elem_of_lookup. exists n.
    by rewrite list_lookup_imap, Hn. }
  destruct Hin as [n Hin]. revert H. generalize (0%Z, @nil string).
  induction (imap pair (rc_phase_reports r)) as [|[m q] l IH]; intros s H; [by apply elem_of_nil in Hin|].
  cbn [rfold] in H. apply rbind_Ok_inv in H as (s' & H1 & H2).
  apply elem_of_cons in Hin as [[= -> ->] | Hin]; [|by eapply IH].
  unfold check_phase in H1. destruct s as [previous ids]. guards.
  rewrite !orb_false_iff, !andb_false_iff in *. destruct_and!. split.
  - intros Hne. destruct_or?; match goal with
    | H : negb (_ =? AttemptState.to_i32 _)%Z = false |- _ => apply negb_false_iff, Z.eqb_eq in H; congruence
    | H : negb (bool_decide (rp_container_id _ = _)) = false |- _ => by apply bool_decide_negb_false in H
    | _ => idtac end.
  - intros Hf. destruct_or?; match goal with
    | H : (rp_phase _ =? finalizing)%Z = false |- _ => apply Z.eqb_neq in H; congruence
    | H : negb (bool_decide (rp_exit_code _ = _)) = false |- _ => by apply bool_decide_negb_false in H
    | _ => idtac end.
Qed.

(** A request that reports success carries exit code zero and was stopped. *)
Lemma check_reason_success (q : CompleteAttemptRequest) (r : FailureReason.t) :
  check_reason q = Ok r -> ca_reason q = FailureReason.to_i32 FailureReason.Unspecified ->
  ca_exit_code q = Some 0%Z /\ ca_stopped q = true.
Proof.
  unfold check_reason. intros H Hr. rewrite Hr in H.
  change (FailureReason.try_from _) with (Some FailureReason.Unspecified) in H. cbn [ok_or rbind] in H.
  destruct (_ || _) eqn:Hg in H; [done|]. rewrite !orb_false_iff in Hg. destruct Hg as [[_ Hg] _].
  rewrite bool_decide_true in Hg by done. cbn [andb] in Hg.
  rewrite orb_false_iff, bool_decide_negb_false, negb_false_iff in Hg. done.
Qed.

Lemma success_request (q : CompleteAttemptRequest) :
  completion_request_ok q = Ok tt -> ca_reason q = FailureReason.to_i32 FailureReason.Unspecified ->
  ca_exit_code q = Some 0%Z /\ ca_stopped q = true.
Proof.
  intros H Hr. apply invalid_Ok in H. unfold Completion.validate_request in H. guards.
  match goal with H : completion_digest _ _ _ _ = Ok _ |- _ => unfold completion_digest in H end. guards.
  by eapply check_reason_success.
Qed.

Record clean_success (r : AttemptRecord) (q : CompleteAttemptRequest) : Prop := {
  cl_exit : rc_exit r = Some {| ev_exit_code := 0; ev_oom_killed := false |};
  cl_request : ca_exit_code q = Some 0%Z /\ ca_stopped q = true;
  cl_container : lower_hash (rc_container_id r) = true;
  cl_finalizing : exists p, last (rc_phase_reports r) = Some p /\ rp_phase p = finalizing
    /\ rp_exit_code p = Some 0%Z /\ rp_container_id p = rc_container_id r;
}.

Lemma validated_success (r : AttemptRecord) (worker id : string) (q : CompleteAttemptRequest) :
  validated r worker id -> rc_completion r = Some q ->
  ca_reason q = FailureReason.to_i32 FailureReason.Unspecified -> clean_success r q.
Proof.
  intros Hv Hq Hreason. pose proof (va_completion _ _ _ Hv) as H. unfold validate_completion in H.
  rewrite Hq in H. guards. repeat match goal with u : unit |- _ => destruct u end.
  match goal with H : completion_request_ok q = Ok _ |- _ => apply success_request in H as Hs; [|done] end.
  assert (Hbad : negb (bool_decide (last_phase r = Some finalizing)) || unclean_exit r = false).
  { match goal with H : reason_is q _ && _ = false |- _ =>
      apply andb_false_iff in H as [Hx|Hx]; [|done]; unfold reason_is in Hx; by rewrite Hreason in Hx end. }
  apply orb_false_iff in Hbad as [Hphase Hexit]. apply bool_decide_negb_false in Hphase.
  unfold unclean_exit in Hexit. destruct (rc_exit r) as [[code oom]|] eqn:He; [|done].
  simpl in Hexit. apply orb_false_iff in Hexit as [Hcode ->].
  apply negb_false_iff, Z.eqb_eq in Hcode as ->.
  destruct (va_exit _ _ _ Hv _ He) as [Hc _]. pose proof (va_container _ _ _ Hv Hc) as Hhash.
  split; [done..|]. unfold last_phase in Hphase.
  destruct (last (rc_phase_reports r)) as [p|] eqn:Hlast; [|done]. injection Hphase as Hp.
  destruct (va_phases _ _ _ Hv) as (a & acc & Hfold).
  destruct (last_phase_checked _ _ _ p Hfold (last_Some_elem_of _ _ Hlast)) as [Hpc Hpe].
  exists p. split_and!; [done|done| |apply Hpc; rewrite Hp; done].
  rewrite Hpe by done. unfold exit_code_of. by rewrite He.
Qed.

(** ** Logs *)

(** The segments of a stream continue each other, each after the registration
    of the one before. *)
Fixpoint chained (last : N) (registered : bool) (l : list LogUpload) : Prop :=
  match l with
  | [] => True
  | u :: l' =>
      registered = true /\ lu_first_sequence u = last + 1
      /\ lu_first_sequence u <= lu_last_sequence u /\ lu_last_sequence u <= I64_MAX
      /\ chained (lu_last_sequence u) (lu_registered u) l'
  end.

Definition stream_logs (i : bool) (l : list LogUpload) : list LogUpload :=
  List.filter (fun u => bool_decide (stream_index (lu_stream u) = Some i)) l.

Lemma probe_range (u : LogUpload) :
  LogRegistration.validate_request (probe_of u) = Ok tt ->
  0 < lu_first_sequence u /\ lu_first_sequence u <= lu_last_sequence u /\ lu_last_sequence u <= I64_MAX.
Proof.
  unfold LogRegistration.validate_request. intros H. guards. cbn [probe_of rg_first_sequence rg_last_sequence] in *.
  rewrite !orb_false_iff in *. destruct_and!. bools. lia.
Qed.

Lemma validate_log_step (record : AttemptRecord) (p p' : log_pass) (u : LogUpload) :
  validate_log record p u = Ok p' ->
  exists i, stream_index (lu_stream u) = Some i /\ get2 i (lp_registered p) = true
  /\ lu_first_sequence u = u64_add (get2 i (lp_last p)) 1
  /\ 0 < lu_first_sequence u /\ lu_first_sequence u <= lu_last_sequence u /\ lu_last_sequence u <= I64_MAX
  /\ lp_last p' = set2 i (lu_last_sequence u) (lp_last p)
  /\ lp_registered p' = set2 i (lu_registered u) (lp_registered p).
Proof.
  unfold validate_log. intros H.
  apply rbind_Ok_inv in H as (u0 & _ & H). apply rbind_Ok_inv in H as (i & Hi & H). ok_inv.
  destruct (_ || _) eqn:Hg in H; [done|]. rewrite !orb_false_iff, !negb_false_iff in Hg.
  destruct_and! Hg. apply rbind_Ok_inv in H as ([] & Hprobe & H). apply invalid_Ok in Hprobe.
  apply probe_range in Hprobe as (Hr1 & Hr2 & Hr3). exists i.
  match goal with H : (lu_first_sequence u =? _) = true |- _ => apply N.eqb_eq in H end.
  assert (Hkeep : lp_last p' = set2 i (lu_last_sequence u) (lp_last p)
    /\ lp_registered p' = set2 i (lu_registered u) (lp_registered p)); [|destruct Hkeep; by split_and!].
  repeat (ok_inv; match goal with
  | H : (if ?b then _ else _) = Ok _ |- _ => destruct b; [try discriminate H|try discriminate H]
  | H : match ?o with Some _ => _ | None => _ end = Ok _ |- _ => destruct o
  end); ok_inv; by subst p'.
Qed.

Lemma validate_logs_chained (record : AttemptRecord) (l : list LogUpload) (p p' : log_pass) :
  rfold (validate_log record) p l = Ok p' ->
  (forall i, get2 i (lp_last p) <= I64_MAX) ->
  forall i, chained (get2 i (lp_last p)) (get2 i (lp_registered p)) (stream_logs i l).
Proof.
  revert p. induction l as [|u l IH]; intros p H Hb i; [done|]. cbn [rfold] in H.
  apply rbind_Ok_inv in H as (p1 & H1 & H2).
  apply validate_log_step in H1 as (k & Hk & Hreg & Hfirst & Hpos & Hle & Hmax & Elast & Ereg).
  assert (Hb1 : forall i, get2 i (lp_last p1) <= I64_MAX).
  { intros m. rewrite Elast. destruct (decide (m = k)) as [->|Hm];
      [by rewrite get2_set2|by rewrite get2_set2_ne]. }
  specialize (IH p1 H2 Hb1 i). rewrite Elast, Ereg in IH. unfold stream_logs. cbn [List.filter].
  rewrite Hk. destruct (decide (k = i)) as [->|Hne].
  - rewrite bool_decide_true by done. rewrite !get2_set2 in IH. cbn [chained]. specialize (Hb i).
    rewrite u64_add_small in Hfirst by (unfold U64_MAX, I64_MAX in *; lia). split_and!; done || lia.
  - rewrite bool_decide_false by congruence. by rewrite !get2_set2_ne in IH.
Qed.
End Validated.

(** * The stored record *)

Section Stored.
Context {S : Type} {ops : RecordStore S} {laws : RecordStoreLaws S}.
Context {lib : Libraries} {lib_laws : LibraryLaws}.
Context (attempt_names : forall id, rs_name (attempt_file id)).
Context (session_name : rs_name ".session").

Lemma sound_stored (j : Journal S) (id : string) (r : AttemptRecord) :
  sound j -> stored j id = Some r -> validated r (jn_worker_id j) id.
Proof.
  intros Hj H. unfold stored in H. apply bind_Some in H as (b & Hb & Hd).
  destruct (sd_records _ Hj _ _ Hb) as (r' & -> & Hv). rewrite lib_round_trip in Hd.
  injection Hd as ->. by apply validate_Ok.
Qed.

Lemma save_Ok (id : string) (rec : AttemptRecord) (j j' : Journal S) :
  sound j -> save id rec j = (Ok tt, j') -> stored j' id = Some rec.
Proof.
  intros Hj. unfold save, st_bind, st_gets, st_lift.
  destruct (validate _ _ _) as [[]|]; [|done]. destruct (_ <? _); [done|]. unfold on_store.
  destruct (rs_write _ _ _) as [r s] eqn:Hw. intros [= -> <-].
  destruct (rs_write_spec _ _ _ _ _ (sd_store _ Hj) (attempt_names id) Hw) as (_ & _ & Hn).
  unfold stored. cbn [set_store jn_store]. rewrite Hn. apply lib_round_trip.
Qed.

Lemma required_Ok (id : string) (j j' : Journal S) (rec : AttemptRecord) :
  sound j -> required id j = (Ok rec, j') -> stored j id = Some rec /\ same_records j j'.
Proof.
  intros Hj. unfold required, st_bind. destruct (load_attempt id j) as [[o|e] j1] eqn:Hl; [|done].
  destruct (load_attempt_spec attempt_names _ _ _ _ Hj Hl) as [Hs Ho]. unfold st_lift.
  destruct o as [r|]; [|done]. intros [= -> <-]. split; [|done]. by apply Ho.
Qed.

(** An operation that starts by loading the record. *)
Lemma required_bind_Ok {A : Type} (id : string) (k : AttemptRecord -> st (Journal S) JournalError.t A)
  (j j' : Journal S) (a : A) :
  sound j -> st_bind (required id) k j = (Ok a, j') ->
  exists rec j1, stored j id = Some rec /\ same_records j j1 /\ sound j1 /\ k rec j1 = (Ok a, j').
Proof.
  intros Hj. unfold st_bind. destruct (required id j) as [[rec|e] j1] eqn:Hr; [|done]. intros H.
  destruct (required_Ok _ _ _ _ Hj Hr) as [H1 H2]. exists rec, j1.
  split_and!; [done|done|by eapply same_records_sound|done].
Qed.

(** Saving after drawing an identity. *)
Lemma draw_save_Ok {A : Type} (id : string) (make : string -> A) (rec : A -> AttemptRecord)
  (j j' : Journal S) (a : A) :
  sound j ->
  (let! fresh := new_uuid in
   let! _ := save id (rec (make fresh)) in
   st_ret (make fresh)) j = (Ok a, j') ->
  stored j' id = Some (rec a) /\ exists fresh, a = make fresh.
Proof.
  intros Hj. unfold st_bind. destruct (new_uuid j) as [[fresh|e] j1] eqn:Hu; [|done].
  pose proof (same_records_sound _ _ Hj (quiet_new_uuid _ _ _ Hj Hu)) as Hj1.
  destruct (save id (rec (make fresh)) j1) as [[[]|e] j2] eqn:Hs; [|done]. intros [= <- <-].
  split; [by eapply save_Ok|eauto].
Qed.

Lemma find_app_None {A : Type} (p : A -> bool) (l k : list A) :
  List.find p l = None -> List.find p (l ++ k) = List.find p k.
Proof. induction l as [|x l IH]; simpl; [done|]. by destruct (p x). Qed.

Lemma find_app_Some {A : Type} (p : A -> bool) (l k : list A) (x : A) :
  List.find p l = Some x -> List.find p (l ++ k) = Some x.
Proof. induction l as [|y l IH]; simpl; [done|]. by destruct (p y). Qed.

Definition phase_event (phase : AttemptState.t) (r : AttemptRecord) : option ReportPhaseRequest :=
  List.find (fun r => (rp_phase r =? AttemptState.to_i32 phase)%Z) (rc_phase_reports r).

(** The event of a phase, once prepared, is the one on record. *)
Lemma prepare_phase_Ok (id : string) (phase : AttemptState.t) (j j' : Journal S) (q : ReportPhaseRequest) :
  sound j -> prepare_phase id phase j = (Ok q, j') ->
  exists r, stored j' id = Some r /\ phase_event phase r = Some q.
Proof.
  intros Hj H. apply required_bind_Ok in H as (rec & j1 & Hst & Hs & Hj1 & H); [|done].
  destruct (List.find _ _) as [saved|] eqn:Hf.
  - injection H as <- <-. exists rec. split; [by rewrite (same_records_stored _ _ _ Hs)|done].
  - destruct (negb _); [done|]. unfold st_bind at 1, st_lift in H.
    destruct (phase_allowed rec phase) as [allowed|]; [|done]. destruct (negb allowed); [done|].
    apply (draw_save_Ok id (phase_request rec phase) (fun q => with_phase q rec)) in H
      as [H [fresh ->]]; [|done].
    exists (with_phase (phase_request rec phase fresh) rec). split; [done|].
    unfold phase_event. cbn [with_phase rc_phase_reports]. rewrite find_app_None by done.
    simpl. by rewrite Z.eqb_refl.
Qed.

(** ... and a later preparation returns what is on record. *)
Lemma prepare_phase_again (id : string) (phase : AttemptState.t) (j j' : Journal S)
  (r : AttemptRecord) (q q' : ReportPhaseRequest) :
  sound j -> stored j id = Some r -> phase_event phase r = Some q ->
  prepare_phase id phase j = (Ok q', j') -> q' = q.
Proof.
  intros Hj Hr Hq H. apply required_bind_Ok in H as (rec & j1 & Hst & _ & _ & H); [|done].
  rewrite Hr in Hst. injection Hst as <-. unfold phase_event in Hq. rewrite Hq in H. by injection H.
Qed.

Definition declared_output (name : string) (r : AttemptRecord) : option CreateUploadRequest :=
  ou_declaration <$> List.find (fun u => bool_decide (cu_name (ou_declaration u) = name)) (rc_outputs r).

Lemma declared_output_evolves (name : string) (l k : list OutputUpload) (q : CreateUploadRequest) :
  grows output_evolves l k ->
  ou_declaration <$> List.find (fun u => bool_decide (cu_name (ou_declaration u) = name)) l = Some q ->
  ou_declaration <$> List.find (fun u => bool_decide (cu_name (ou_declaration u) = name)) k = Some q.
Proof.
  intros (k1 & k2 & -> & Hk) H.
  induction Hk as [|u v l k1 Huv Hk IH]; simpl in *; [done|]. rewrite (oe_declaration _ _ Huv).
  case_bool_decide; [|by apply IH]. simpl in *. by rewrite (oe_declaration _ _ Huv).
Qed.

Lemma prepare_output_Ok (id name : string) (size : N) (sha : string) (part_size : N)
  (j j' : Journal S) (q : CreateUploadRequest) :
  sound j -> prepare_output_plan id name size sha part_size j = (Ok q, j') ->
  exists r, stored j' id = Some r /\ declared_output name r = Some q.
Proof.
  intros Hj H. unfold prepare_output_plan in H. unfold st_bind at 1, st_lift in H.
  destruct (ok_or _ _) as [count|]; [|done].
  apply required_bind_Ok in H as (rec & j1 & Hst & Hs & Hj1 & H); [|done].
  destruct (List.find _ _) as [saved|] eqn:Hf.
  - unfold unless in H. destruct (same_plan _ _ _ _ _); [|done]. injection H as <- <-.
    exists rec. split; [by rewrite (same_records_stored _ _ _ Hs)|]. unfold declared_output. by rewrite Hf.
  - destruct (negb _); [done|].
    apply (draw_save_Ok id (fun f => output_declaration rec f name size sha part_size count)
      (fun q => with_outputs (rc_outputs rec ++ [new_output q]) rec)) in H as [H [fresh ->]]; [|done].
    eexists. split; [done|]. unfold declared_output. cbn [with_outputs rc_outputs].
    rewrite find_app_None by done. simpl. by rewrite bool_decide_true.
Qed.

Lemma prepare_output_again (id name : string) (size : N) (sha : string) (part_size : N)
  (j j' : Journal S) (r : AttemptRecord) (q q' : CreateUploadRequest) :
  sound j -> stored j id = Some r -> declared_output name r = Some q ->
  prepare_output_plan id name size sha part_size j = (Ok q', j') -> q' = q.
Proof.
  intros Hj Hr Hq H. unfold prepare_output_plan in H. unfold st_bind at 1, st_lift in H.
  destruct (ok_or _ _) as [count|]; [|done].
  apply required_bind_Ok in H as (rec & j1 & Hst & _ & _ & H); [|done].
  rewrite Hr in Hst. injection Hst as <-. unfold declared_output in Hq.
  destruct (List.find _ _) as [saved|]; [|done]. injection Hq as <-.
  unfold unless in H. destruct (same_plan _ _ _ _ _); [|done]. by injection H.
Qed.

Lemma run_stored (l : list journal_op) (j : Journal S) (id : string) (r : AttemptRecord) :
  sound j -> stored j id = Some r ->
  sound (run_journal l j) /\ exists r', stored (run_journal l j) id = Some r' /\ evolves r r'.
Proof.
  intros Hj Hr. destruct (run_journal_keeps attempt_names session_name l j Hj) as (Hj' & _ & Hstep).
  split; [done|]. specialize (Hstep id). rewrite Hr in Hstep.
  destruct (stored (run_journal l j) id) as [r'|]; [|done]. by exists r'.
Qed.

Lemma persist_completion_Ok (q : CompleteAttemptRequest) (a : AttemptAuthority) (j j' : Journal S) :
  sound j -> ca_authority q = Some a -> persist_completion q j = (Ok tt, j') ->
  exists r, stored j' (aa_attempt_id a) = Some r /\ rc_completion r = Some q.
Proof.
  intros Hj Ha H. unfold persist_completion in H. unfold st_bind at 1, st_lift at 1 in H.
  destruct (completion_request_ok q); [|done]. rewrite Ha in H. cbn [ok_or] in H.
  unfold st_bind at 1, st_lift at 1 in H.
  apply required_bind_Ok in H as (rec & j1 & Hst & Hs & Hj1 & H); [|done].
  destruct (negb _); [done|]. destruct (rc_completion rec) as [saved|] eqn:Hq.
  - unfold unless in H. destruct (bool_decide (saved = q)) eqn:Hsame; [|done].
    apply bool_decide_eq_true in Hsame as ->. injection H as <-. exists rec.
    split; [by rewrite (same_records_stored _ _ _ Hs)|done].
  - destruct (negb _); [done|]. unfold st_bind, st_lift in H.
    destruct (map_err _ _); [|done]. apply save_Ok in H; [|done]. by eexists.
Qed.

(** * Properties *)

(** C26: once a completion is durable it is the attempt's result: any later
    operations leave it in place (or move it aside, once, for a cancellation
    the control plane asked for) and cannot add events, uploads, parts or log
    segments, or change the container. *)
Theorem completed_attempt_is_sealed (q : CompleteAttemptRequest) (a : AttemptAuthority)
  (l : list journal_op) (j j' : Journal S) :
  sound j -> ca_authority q = Some a -> persist_completion q j = (Ok tt, j') ->
  exists r r', stored j' (aa_attempt_id a) = Some r /\ rc_completion r = Some q
  /\ stored (run_journal l j') (aa_attempt_id a) = Some r'
  /\ completion_evolves r r' /\ sealed_by r r'.
Proof.
  intros Hj Ha H. destruct (persist_completion_Ok q a j j' Hj Ha H) as (r & Hr & Hq).
  assert (Hj' : sound j').
  { by eapply (persist_completion_preserves attempt_names). }
  destruct (run_stored l j' (aa_attempt_id a) r Hj' Hr) as (_ & r' & Hr' & He).
  exists r, r'. split_and!; [done|done|done|apply He|]. apply He. by rewrite Hq.
Qed.

(** A stored completion that reports success is backed by durable
    evidence: a bound container that exited with code zero, not killed for
    memory, and a FINALIZING event for that container and exit code as the last
    event. *)
Theorem stored_success_is_clean (j : Journal S) (id : string) (r : AttemptRecord)
  (q : CompleteAttemptRequest) :
  sound j -> stored j id = Some r -> rc_completion r = Some q ->
  ca_reason q = FailureReason.to_i32 FailureReason.Unspecified -> clean_success r q.
Proof. intros Hj Hr. eapply validated_success. by eapply sound_stored. Qed.

(** The log segments of each stream on record start at number 1, continue
    each other without a hole, and each was prepared only after the previous
    one was registered. *)
Theorem stored_logs_are_contiguous (j : Journal S) (id : string) (r : AttemptRecord) (i : bool) :
  sound j -> stored j id = Some r -> chained 0 true (stream_logs i (rc_logs r)).
Proof.
  intros Hj Hr. pose proof (va_logs _ _ _ (sound_stored j id r Hj Hr)) as H.
  unfold validate_logs in H. guards.
  match goal with H : rfold _ _ _ = Ok _ |- _ => apply validate_logs_chained with (i := i) in H end.
  - by destruct i.
  - by intros [].
Qed.

(** A phase event keeps its identity.  Preparing the same phase again
    returns the same request, whatever ran in between. *)
Theorem retried_event_is_the_same (id : string) (phase : AttemptState.t) (l : list journal_op)
  (j j1 j2 : Journal S) (q q' : ReportPhaseRequest) :
  sound j -> prepare_phase id phase j = (Ok q, j1) ->
  prepare_phase id phase (run_journal l j1) = (Ok q', j2) -> q' = q.
Proof.
  intros Hj H1 H2. destruct (prepare_phase_Ok _ _ _ _ _ Hj H1) as (r & Hr & Hq).
  assert (Hj1 : sound j1) by (by eapply (prepare_phase_preserves attempt_names)).
  destruct (run_stored l j1 id r Hj1 Hr) as (Hs & r' & Hr' & He).
  eapply prepare_phase_again; [exact Hs|exact Hr'| |exact H2].
  unfold phase_event. destruct (ev_phases _ _ He) as [k ->]. by apply find_app_Some.
Qed.

(** An output upload keeps its identity.  Preparing the same output again
    either returns the same declaration, request id included, or fails. *)
Theorem retried_upload_is_the_same (id name : string) (size size' : N) (sha sha' : string)
  (ps ps' : N) (l : list journal_op) (j j1 j2 : Journal S) (q q' : CreateUploadRequest) :
  sound j -> prepare_output_plan id name size sha ps j = (Ok q, j1) ->
  prepare_output_plan id name size' sha' ps' (run_journal l j1) = (Ok q', j2) -> q' = q.
Proof.
  intros Hj H1 H2. destruct (prepare_output_Ok _ _ _ _ _ _ _ _ Hj H1) as (r & Hr & Hq).
  assert (Hj1 : sound j1) by (by eapply (prepare_output_plan_preserves attempt_names)).
  destruct (run_stored l j1 id r Hj1 Hr) as (Hs & r' & Hr' & He).
  eapply prepare_output_again; [exact Hs|exact Hr'| |exact H2].
  by eapply declared_output_evolves; [apply He|].
Qed.
End Stored.

(** ** Witnesses *)

Definition completion_request : CompleteAttemptRequest :=
  {| ca_authority := Some identity_fixture;
     ca_completion_id := "00000000-0000-0000-0000-00000000000d";
     ca_payload_sha256 := hex (flat_digest []); ca_exit_code := Some 0%Z; ca_reason := 0;
     ca_stopped := true; ca_outputs := []; ca_logs_complete := true; ca_gaps := [];
     ca_metrics_json := [] |}.

(** A journal whose attempt has exited cleanly and has a log segment. *)
Definition finished_journal : Journal Directory :=
  run_journal
    [PersistAssignment job_assignment; PreparePhase attempt_fixture AttemptState.Starting;
     BindContainer attempt_fixture container_fixture;
     PrepareLog attempt_fixture LogStream.Stdout 1 5 [] 100 container_fixture;
     RecordExit attempt_fixture 0 false; PreparePhase attempt_fixture AttemptState.Finalizing]
    journal_fixture.

Lemma finished_journal_sound : sound finished_journal.
Proof.
  apply (run_journal_keeps attempt_file_name session_file_name). apply journal_fixture_sound.
Qed.

Definition completed_journal : Journal Directory :=
  (persist_completion completion_request finished_journal).2.

Lemma completed_attempt_is_sealed_witness :
  exists r r', stored completed_journal attempt_fixture = Some r
  /\ rc_completion r = Some completion_request
  /\ stored (run_journal ops_fixture completed_journal) attempt_fixture = Some r'
  /\ completion_evolves r r' /\ sealed_by r r'.
Proof.
  apply (completed_attempt_is_sealed attempt_file_name session_file_name completion_request
           identity_fixture ops_fixture finished_journal completed_journal).
  - apply finished_journal_sound.
  - reflexivity.
  - vm_compute. reflexivity.
Defined.

Definition completed_record : AttemptRecord :=
  default (initial_record job_assignment) (stored completed_journal attempt_fixture).

Lemma completed_journal_sound : sound completed_journal.
Proof.
  eapply (persist_completion_preserves attempt_file_name completion_request finished_journal);
    [apply finished_journal_sound|done|]. vm_compute. reflexivity.
Qed.

Lemma stored_success_is_clean_witness : clean_success completed_record completion_request.
Proof.
  apply (stored_success_is_clean completed_journal attempt_fixture).
  - apply completed_journal_sound.
  - vm_compute. reflexivity.
  - vm_compute. reflexivity.
  - reflexivity.
Defined.

Lemma stored_logs_are_contiguous_witness :
  chained 0 true (stream_logs false (rc_logs completed_record))
  /\ length (stream_logs false (rc_logs completed_record)) = 1%nat.
Proof.
  split; [|vm_compute; reflexivity].
  apply (stored_logs_are_contiguous completed_journal attempt_fixture).
  - apply completed_journal_sound.
  - vm_compute. reflexivity.
Defined.

Definition claimed_journal : Journal Directory := (persist_assignment job_assignment journal_fixture).2.

Lemma claimed_journal_sound : sound claimed_journal.
Proof.
  eapply (persist_assignment_preserves attempt_file_name job_assignment journal_fixture);
    [apply journal_fixture_sound|done|]. vm_compute. reflexivity.
Qed.

Definition answer_of {A : Type} (d : A) (m : result JournalError.t A * Journal Directory) : A :=
  match m.1 with Ok a => a | Err _ => d end.

Definition event_fixture : ReportPhaseRequest :=
  answer_of (phase_request (initial_record job_assignment) AttemptState.Starting EmptyString)
    (prepare_phase attempt_fixture AttemptState.Starting claimed_journal).

Definition started_journal : Journal Directory :=
  (prepare_phase attempt_fixture AttemptState.Starting claimed_journal).2.

Definition second_event : ReportPhaseRequest :=
  answer_of (phase_request (initial_record job_assignment) AttemptState.Starting EmptyString)
    (prepare_phase attempt_fixture AttemptState.Starting
       (run_journal [BindContainer attempt_fixture container_fixture] started_journal)).

Lemma retried_event_is_the_same_witness : second_event = event_fixture.
Proof.
  apply (retried_event_is_the_same attempt_file_name session_file_name attempt_fixture
           AttemptState.Starting [BindContainer attempt_fixture container_fixture] claimed_journal
           started_journal
           (prepare_phase attempt_fixture AttemptState.Starting
              (run_journal [BindContainer attempt_fixture container_fixture] started_journal)).2).
  - apply claimed_journal_sound.
  - vm_compute. reflexivity.
  - vm_compute. reflexivity.
Defined.

Definition upload_fixture : CreateUploadRequest :=
  answer_of (output_declaration (initial_record job_assignment) EmptyString EmptyString 0 EmptyString 0 0)
    (prepare_output_plan attempt_fixture "model" 10 container_fixture 0 finished_journal).

Definition uploading_journal : Journal Directory :=
  (prepare_output_plan attempt_fixture "model" 10 container_fixture 0 finished_journal).2.

Definition second_upload : CreateUploadRequest :=
  answer_of (output_declaration (initial_record job_assignment) EmptyString EmptyString 0 EmptyString 0 0)
    (prepare_output_plan attempt_fixture "model" 10 container_fixture 0
       (run_journal [PersistCompletion completion_request] uploading_journal)).

Lemma retried_upload_is_the_same_witness : second_upload = upload_fixture.
Proof.
  apply (retried_upload_is_the_same attempt_file_name session_file_name attempt_fixture "model"
           10 10 container_fixture container_fixture 0 0 [PersistCompletion completion_request]
           finished_journal uploading_journal
           (prepare_output_plan attempt_fixture "model" 10 container_fixture 0
              (run_journal [PersistCompletion completion_request] uploading_journal)).2).
  - apply finished_journal_sound.
  - vm_compute. reflexivity.
  - vm_compute. reflexivity.
Defined.
