(* ===== verification/Delivery.v ===== *)
(** Delivery of a durable completion ([rust/worker/src/completion.rs]).

    Other tasks share the journal: [between] are the operations they run while
    the call is outstanding, and [reply] is what the transport delivers. *)

From S2P Require Import Prelude Strings Protocol Lease Control Execution Completion RecordStore.
From S2P Require Import JournalRecord Journal JournalFiles Codec JournalEvidence JournalFacts.
Open Scope N_scope.

Inductive DeliveryError : Type :=
| DeliveryJournal (e : JournalError.t)
| DeliveryControl (e : ClientError).

Section Delivery.
Context {S : Type} {ops : RecordStore S} {lib : Libraries}.

Abbreviation D := (st (Journal S) DeliveryError).

(** [?] on a [JournalError]. *)
Definition from_journal {A : Type} (m : st (Journal S) JournalError.t A) : D A :=
  fun j => let (r, j') := m j in (map_err DeliveryJournal r, j').

Definition awaiting (between : list journal_op) : D unit :=
  st_modify (run_journal between).

Definition response_of (status : CompletionStatus) : CompleteAttemptResponse :=
  {| cs_decision := Decision_.to_i32 (st_decision status);
     cs_state := AttemptState.to_i32 (st_state status);
     cs_accepted_manifest_json := st_manifest status |}.

(** A saved reply other than STOP_REQUESTED ends the delivery. *)
Definition settled_reply (saved : AttemptRecord) : option CompleteAttemptResponse :=
  match rc_completion_response saved with
  | Some reply =>
      if (cs_decision reply =? Decision_.to_i32 Decision_.StopRequested)%Z then None else Some reply
  | None => None
  end.

Definition deliver_pending (between : list journal_op) (reply : rpc_reply CompleteAttemptResponse)
  (attempt_id : string) : D (option CompleteAttemptResponse) :=
  let! found := from_journal (load_attempt attempt_id) in
  let! saved := st_lift (ok_or found (DeliveryJournal JournalError.Invalid)) in
  match rc_completion saved with
  | None => st_ret None
  | Some request =>
      match settled_reply saved with
      | Some reply => st_ret (Some reply)
      | None =>
          let! _ := awaiting between in
          let! status := st_lift (map_err DeliveryControl
            (complete_attempt lib_sha256 lib_metrics lib_payload lib_manifest request reply)) in
          let reply := response_of status in
          let! _ := from_journal (record_completion_response request reply) in
          st_ret (Some reply)
      end
  end.
End Delivery.

(** * Lemmas *)

Section DeliveryLemmas.
Context {S : Type} {ops : RecordStore S} {laws : RecordStoreLaws S}.
Context {lib : Libraries} {lib_laws : LibraryLaws}.
Context (attempt_names : forall id, rs_name (attempt_file id)).
Context (session_name : rs_name ".session").

Lemma completion_authority (r : AttemptRecord) (worker id : string) (q : CompleteAttemptRequest) :
  validated r worker id -> rc_completion r = Some q ->
  exists a, ca_authority q = Some a /\ aa_attempt_id a = id.
Proof.
  intros Hv Hq. destruct (va_authority _ _ _ Hv) as (a & Ha & _ & Hid).
  pose proof (va_completion _ _ _ Hv) as H. unfold validate_completion in H.
  apply rbind_Ok_inv in H as (? & _ & H). rewrite Hq in H. apply rbind_Ok_inv in H as (? & _ & H).
  destruct (_ || _) eqn:Hg; [done|]. apply orb_false_iff in Hg as [Hg _].
  rewrite bool_decide_negb_false in Hg. exists a. by rewrite Hg.
Qed.

Lemma record_completion_response_Ok (q : CompleteAttemptRequest) (s : CompleteAttemptResponse)
  (a : AttemptAuthority) (j j' : Journal S) :
  sound j -> ca_authority q = Some a -> record_completion_response q s j = (Ok tt, j') ->
  exists r, stored j' (aa_attempt_id a) = Some r /\ rc_completion r = Some q
    /\ rc_completion_response r = Some s.
Proof.
  intros Hj Ha H. unfold record_completion_response in H. rewrite Ha in H. cbn [ok_or] in H.
  unfold st_bind at 1, st_lift at 1 in H.
  apply (required_bind_Ok attempt_names) in H as (rec & j1 & Hst & Hs & Hj1 & H); [|done].
  destruct (negb (bool_decide _)) eqn:Hq; [done|]. rewrite bool_decide_negb_false in Hq.
  unfold st_bind at 1, st_lift at 1 in H. destruct (completion_response_ok q s); [|done].
  assert (Hsave : save (aa_attempt_id a) (with_response s rec) j1 = (Ok tt, j') ->
    exists r, stored j' (aa_attempt_id a) = Some r /\ rc_completion r = Some q
      /\ rc_completion_response r = Some s).
  { intros Hw. apply (save_Ok attempt_names) in Hw; [|done]. by eexists. }
  destruct (rc_completion_response rec) as [saved|] eqn:Hr; [|by apply Hsave].
  case_bool_decide as Hsame; [|by destruct (negb _); [|apply Hsave]].
  injection H as <-. subst saved. exists rec. by rewrite (same_records_stored _ _ _ Hs).
Qed.

Lemma keeps_evidence_trans (i j k : Journal S) :
  keeps_evidence i j -> keeps_evidence j k -> keeps_evidence i k.
Proof.
  intros (_ & Hw & Ha) (Hk & Hw' & Hb). split_and!; [done|congruence|].
  intros id. by eapply attempt_step_trans.
Qed.

Lemma load_attempt_keeps (id : string) (j j1 : Journal S)
  (r : result JournalError.t (option AttemptRecord)) :
  sound j -> load_attempt id j = (r, j1) ->
  sound j1 /\ keeps_evidence j j1 /\ forall o, r = Ok o -> stored j1 id = o.
Proof.
  intros Hj H. apply (load_attempt_spec attempt_names) in H as [Hs Ho]; [|done].
  destruct (same_records_preserves _ _ Hj Hs) as (Hj1 & Hk). split_and!; [done|by split|].
  intros o Hr. rewrite (same_records_stored _ _ _ Hs). by apply Ho.
Qed.

(** The call and the recording of its reply, from a journal that holds the request. *)
Lemma deliver_request_durable (between : list journal_op) (j1 j' : Journal S) (id : string)
  (q : CompleteAttemptRequest) (a : AttemptAuthority) (status : result DeliveryError CompletionStatus)
  (res : result DeliveryError (option CompleteAttemptResponse)) :
  sound j1 -> ca_authority q = Some a -> aa_attempt_id a = id ->
  (let! _ := awaiting between in
   let! status := st_lift status in
   let! _ := from_journal (record_completion_response q (response_of status)) in
   st_ret (Some (response_of status))) j1 = (res, j') ->
  keeps_evidence j1 j'
  /\ forall resp, res = Ok (Some resp) -> exists r,
       stored j' id = Some r /\ rc_completion r = Some q /\ rc_completion_response r = Some resp.
Proof.
  intros Hj1 Ha Hid H. unfold st_bind at 1, awaiting, st_modify in H.
  pose proof (run_journal_keeps attempt_names session_name between j1 Hj1) as Hrun.
  set (j2 := run_journal between j1) in *. assert (Hj2 : sound j2) by apply Hrun.
  unfold st_bind at 1, st_lift in H. destruct status as [status|e]; [|by injection H as <- <-].
  unfold st_bind, from_journal in H.
  destruct (record_completion_response q (response_of status) j2) as [r j3] eqn:Hr.
  assert (Hk : keeps_evidence j1 j3).
  { eapply keeps_evidence_trans; [exact Hrun|].
    by apply (record_completion_response_preserves attempt_names _ _ _ _ _ Hj2 I Hr). }
  destruct r as [[]|e]; injection H as <- <-; (split; [done|]); [|done]. intros resp [= <-].
  subst id. by apply (record_completion_response_Ok _ _ a j2).
Qed.

(** * Properties *)

(** A reply that delivery returns is durable.  Whatever the transport
    answers and whatever other tasks do to the journal meanwhile, the evidence
    of every attempt is kept, and a returned reply is on record for the
    attempt's completion, so that a caller that acts on it after a restart
    finds it again. *)
Theorem delivered_reply_is_durable (between : list journal_op)
  (reply : rpc_reply CompleteAttemptResponse) (id : string) (j j' : Journal S)
  (res : result DeliveryError (option CompleteAttemptResponse)) :
  sound j -> deliver_pending between reply id j = (res, j') ->
  keeps_evidence j j'
  /\ forall resp, res = Ok (Some resp) -> exists r q,
       stored j' id = Some r /\ rc_completion r = Some q /\ rc_completion_response r = Some resp.
Proof.
  intros Hj H. unfold deliver_pending in H. unfold st_bind at 1, from_journal at 1 in H.
  destruct (load_attempt id j) as [found j1] eqn:Hload.
  destruct (load_attempt_keeps _ _ _ _ Hj Hload) as (Hj1 & Hk & Hst).
  destruct found as [[saved|]|e]; [|by injection H as <- <-..].
  specialize (Hst _ eq_refl). cbn [map_err] in H. unfold st_bind at 1, st_lift at 1 in H.
  cbn [ok_or] in H. destruct (rc_completion saved) as [q|] eqn:Hq; [|by injection H as <- <-].
  destruct (settled_reply saved) as [old|] eqn:Hold.
  - injection H as <- <-. split; [done|]. intros resp [= <-]. exists saved, q.
    split_and!; [done|done|]. unfold settled_reply in Hold. by repeat case_match; simplify_eq.
  - destruct (completion_authority saved (jn_worker_id j1) id q) as (a & Ha & Hid); [|done|].
    { by apply sound_stored. }
    apply (deliver_request_durable _ _ _ id q a) in H as [Hk' Hr]; [|done..].
    split; [by eapply keeps_evidence_trans|]. intros resp Hresp.
    destruct (Hr resp Hresp) as (r & ? & ? & ?). by exists r, q.
Qed.
End DeliveryLemmas.

(** ** Witness: the attempt is already terminal, and another task tries a phase
    meanwhile *)

Definition terminal_reply : CompleteAttemptResponse :=
  {| cs_decision := 4; cs_state := 5; cs_accepted_manifest_json := [] |}.

Definition delivered : result DeliveryError (option CompleteAttemptResponse) * Journal Directory :=
  deliver_pending [PreparePhase attempt_fixture AttemptState.Running]
    (Delivered terminal_reply) attempt_fixture completed_journal.

Lemma delivered_reply_is_durable_witness :
  exists r q, stored (snd delivered) attempt_fixture = Some r /\ rc_completion r = Some q
    /\ rc_completion_response r = Some terminal_reply.
Proof.
  apply (delivered_reply_is_durable attempt_file_name session_file_name
    [PreparePhase attempt_fixture AttemptState.Running] (Delivered terminal_reply) attempt_fixture
    completed_journal (snd delivered) (fst delivered) completed_journal_sound).
  - vm_compute. reflexivity.
  - vm_compute. reflexivity.
Defined.
