(* ===== verification/ProjectIds.v ===== *)
(** Durable allocation of quota project ids
    ([rust/worker/src/journal/project_ids.rs]): the counter is published before
    the id is used, so that no crash makes an id come back. *)

From S2P Require Import Prelude Strings Protocol Lease Control Os RecordStore JournalFiles Phase.
Open Scope N_scope.

Definition COUNTER : string := ".project-ids".
Definition EXHAUSTED : N := 2147483648.

Section Operations.
Context {S : Type} {ops : RecordStore S}.

Abbreviation P := (st S JournalError.t).

Definition next : P N :=
  let! found := rs_read COUNTER in
  let! bytes := st_lift (ok_or found JournalError.Corrupt) in
  if negb (len bytes =? 8) then st_err JournalError.Corrupt
  else
    let next := from_be_bytes bytes in
    if negb (in_range 1 EXHAUSTED next) then st_err JournalError.Corrupt else st_ret next.

Definition reserve : P N :=
  let! next := next in
  if next =? EXHAUSTED then st_err JournalError.Limit
  else
    let! _ := rs_write COUNTER (to_be_bytes 8 (u64_add next 1)) in
    st_ret (wrap32 next).

Definition verify : P unit :=
  let! _ := next in st_ret tt.

(** The checks of [initialize] and [open] on the directory [Directory::open]
    returned. *)
Definition initialize_store (worker : string) : P unit :=
  let! records := rs_inventory in
  if negb (bool_decide (records = [])) then st_err JournalError.Conflict
  else
    let! identity := rs_read ".identity" in
    if negb (is_none identity) then st_err JournalError.Conflict
    else
      let! session := rs_read ".session" in
      if negb (is_none session) then st_err JournalError.Conflict
      else
        let! counter := rs_read COUNTER in
        if negb (is_none counter) then st_err JournalError.Conflict
        else
          let! _ := rs_write ".identity" (str_bytes worker) in
          rs_write COUNTER (to_be_bytes 8 1).

Definition open_store (worker : string) : P unit :=
  let! identity := rs_read ".identity" in
  match identity with
  | None => st_err JournalError.Corrupt
  | Some identity =>
      if negb (bool_decide (identity = str_bytes worker)) then st_err JournalError.Identity
      else
        let! records := rs_inventory in
        if negb (bool_decide (records = [])) then st_err JournalError.Corrupt
        else
          let! session := rs_read ".session" in
          if negb (is_none session) then st_err JournalError.Corrupt else verify
  end.

(** [ProjectIds::initialize] and [ProjectIds::open]. *)
Definition with_directory (check : string -> P unit) (worker : string)
  (opened : result JournalError.t S) : result JournalError.t S :=
  if negb (canonical_uuid worker) then Err JournalError.Invalid
  else
    let? store := opened in
    match check worker store with
    | (Ok _, store') => Ok store'
    | (Err e, _) => Err e
    end.

Definition initialize : string -> result JournalError.t S -> result JournalError.t S :=
  with_directory initialize_store.

Definition open_ids : string -> result JournalError.t S -> result JournalError.t S :=
  with_directory open_store.
End Operations.

(** * Ids are never reused *)

Section Unique.
Context (sha256 : bytes -> bytes).
Context (sha256_length : forall b, List.length (sha256 b) = 32%nat).

#[local] Instance ids_store : RecordStore Directory := Directory_store sha256.

Definition counter_bytes (c : N) : bytes := to_be_bytes 8 c.

(** The allocator in use: it reserves ids, and the machine may stop or the
    process end at any moment, after which the directory is opened again. *)
Inductive ids_step : Directory -> option N -> Directory -> Prop :=
| step_reserve (s s' : Directory) (n : N) : reserve s = (Ok n, s') -> ids_step s (Some n) s'
| step_refused (s s' : Directory) (e : JournalError.t) :
    reserve s = (Err e, s') -> ids_step s None s'
| step_restart (s s' : Directory) (d d' : Disk) (oe : open_env) (limits : JournalLimits)
    (os : nat -> fs_env) :
    d = di_disk s \/ crash (di_disk s) d -> honest (oe_fs oe) -> (forall k, honest (os k)) ->
    open oe limits os d = (Ok s', d') -> ids_step s None s'.

Inductive ids_trace : Directory -> list N -> Directory -> Prop :=
| trace_nil (s : Directory) : ids_trace s [] s
| trace_step (s s1 s2 : Directory) (o : option N) (l : list N) :
    ids_step s o s1 -> ids_trace s1 l s2 -> ids_trace s (option_list o ++ l) s2.

(** The counter a disk holds. *)
Definition counter_at (d : Disk) (c : N) : Prop :=
  record_at sha256 d COUNTER = Some (counter_bytes c) /\ c <= EXHAUSTED.

(** Every id from [k] on is still free, also after a crash. *)
Record free_from (k : N) (s : Directory) : Prop := {
  fr_usable : usable s;
  fr_crash : forall d, d = di_disk s \/ crash (di_disk s) d ->
    published d /\ exists c, k <= c /\ counter_at d c;
}.

(** A crash of a settled disk changes no record. *)
Lemma settled_crash (s : Directory) (d : Disk) (n : string) :
  usable s -> di_poisoned s = false -> d = di_disk s \/ crash (di_disk s) d ->
  record_at sha256 d n = record_at sha256 (di_disk s) n /\ published d.
Proof.
  intros Hs Hp Hd. destruct (usable_settled s Hs Hp) as [Hset _]. split.
  - apply record_at_same. intros Hn. destruct Hd as [->|Hd]; [done|].
    destruct (crash_content _ _ n Hd) as [->| ->]; [..|done|].
    + intros f. by apply (settled_synced _ Hset).
    + intros f. rewrite (settled_safe _ Hset) by done. by apply (settled_synced _ Hset).
    + by rewrite (settled_safe _ Hset).
  - intros m f Hm _. destruct Hd as [->|Hd]; [by apply (settled_synced _ Hset)|].
    by apply (crash_settles _ _ Hd).
Qed.

Lemma counter_bytes_value (c : N) : c <= EXHAUSTED -> from_be_bytes (counter_bytes c) = c.
Proof.
  intros Hc. apply from_to_be_bytes_small. unfold EXHAUSTED in Hc.
  change (256 ^ N.of_nat 8) with 18446744073709551616. lia.
Qed.

(** Reading the counter. *)
Lemma next_spec (s s' : Directory) (r : result JournalError.t N) :
  usable s -> next s = (r, s') ->
  s' = step_to s (di_disk s) (di_poisoned s)
  /\ forall c, counter_at (di_disk s) c -> forall n, r = Ok n -> n = c /\ 1 <= n.
Proof.
  intros Hs. unfold next, st_bind. unfold rs_read at 1. cbn [ids_store Directory_store]. unfold read, query.
  destruct (read_record _ _ _ _ _) as [o|e] eqn:Hr; [|intros [= <- <-]; split; [done|discriminate]].
  apply read_record_spec in Hr; [|apply Hs|done]. unfold st_lift.
  destruct o as [b|]; [|intros [= <- <-]; split; [done|discriminate]]. cbn [ok_or].
  assert (Hcount : forall c, counter_at (di_disk s) c -> from_be_bytes b = c).
  { intros c [Hc Hle]. rewrite Hc in Hr. injection Hr as ->. by apply counter_bytes_value. }
  destruct (negb _); [intros [= <- <-]; split; [done|discriminate]|].
  destruct (negb (in_range _ _ _)) eqn:Hrange; intros [= <- <-]; (split; [done|]); [discriminate|].
  intros c Hc n [= <-]. rewrite (Hcount c Hc) in *. split; [done|].
  apply negb_false_iff in Hrange. unfold in_range in Hrange. bools_in Hrange. lia.
Qed.

(** Publishing the next counter, whatever the write answers. *)
Lemma publish_counter (k c : N) (s s' : Directory) (r : result JournalError.t unit) :
  usable s -> di_poisoned s = false -> counter_at (di_disk s) c -> k <= c -> c < EXHAUSTED ->
  write sha256 COUNTER (counter_bytes (c + 1)) s = (r, s') ->
  if is_ok r then free_from (c + 1) s' else free_from k s'.
Proof.
  intros Hs Hp [Hrec Hle] Hk Hlt Hw.
  assert (Hus : usable s') by (by destruct (write_spec sha256 sha256_length COUNTER _ s r s' Hs ltac:(done) Hw)).
  assert (Hafter : forall d, d = di_disk s' \/ crash (di_disk s') d ->
    published d /\ exists c', k <= c' /\ counter_at d c' /\ (is_ok r = true -> c' = c + 1)).
  { intros d Hd.
    destruct (write_then_crash sha256 sha256_length COUNTER _ s s' r d Hs Hp ltac:(done) Hw Hd)
      as (Hpub & Hall & Hok). split; [done|]. destruct (is_ok r) eqn:Hr.
    - exists (c + 1). split_and!; [lia| |done]. split; [by apply Hok|lia].
    - destruct (Hall COUNTER) as [E | [_ E]].
      + exists c. split_and!; [done| |done]. split; [by rewrite E|done].
      + exists (c + 1). split_and!; [lia| |done]. split; [done|lia]. }
  destruct (is_ok r); (split; [done|]); intros d Hd;
    destruct (Hafter d Hd) as (Hpub & c' & Hkc' & Hc' & Heq); (split; [done|]).
  - exists (c + 1). split; [lia|]. by rewrite <- (Heq eq_refl).
  - eauto.
Qed.

Lemma reserve_free (k : N) (s s' : Directory) (r : result JournalError.t N) :
  free_from k s -> reserve s = (r, s') ->
  match r with Ok n => k <= n /\ n < EXHAUSTED /\ free_from (n + 1) s' | Err _ => free_from k s' end.
Proof.
  intros [Hs Hfree]. destruct (Hfree (di_disk s) (or_introl eq_refl)) as (_ & c & Hkc & Hc).
  set (s0 := step_to s (di_disk s) (di_poisoned s)).
  assert (Hs0 : free_from k s0) by (split; [by apply usable_query|exact Hfree]).
  unfold reserve, st_bind. destruct (next s) as [r0 s1] eqn:Hn.
  destruct (next_spec _ _ _ Hs Hn) as [-> Hval]. fold s0.
  destruct r0 as [n|e]; [|by intros [= <- <-]].
  destruct (Hval c Hc n eq_refl) as [-> Hpos]. destruct (N.eqb_spec c EXHAUSTED); [by intros [= <- <-]|].
  assert (Hlt : c < EXHAUSTED) by (destruct Hc; lia).
  unfold rs_write. cbn [ids_store Directory_store].
  rewrite u64_add_small by (unfold U64_MAX, EXHAUSTED in *; lia). fold (counter_bytes (c + 1)).
  destruct (write sha256 COUNTER (counter_bytes (c + 1)) s0) as [r1 s2] eqn:Hw.
  destruct (di_poisoned s) eqn:Hpois.
  - apply write_cases in Hw as [[Hr ->] | [Hf _]]; [|done]. destruct r1; [done|].
    intros [= <- <-]. split; [apply (usable_query s0), Hs0|]. exact Hfree.
  - pose proof (publish_counter k c s0 s2 r1 (fr_usable _ _ Hs0) eq_refl Hc Hkc Hlt Hw) as Hpub.
    destruct r1 as [[]|e]; intros [= <- <-]; [|done].
    assert (wrap32 c = c) as -> by (unfold wrap32; apply N.mod_small; unfold EXHAUSTED in *; lia). done.
Qed.

Lemma restart_free (k : N) (s s' : Directory) (d d' : Disk) (oe : open_env) (limits : JournalLimits)
  (os : nat -> fs_env) :
  free_from k s -> d = di_disk s \/ crash (di_disk s) d -> honest (oe_fs oe) ->
  (forall k, honest (os k)) -> open oe limits os d = (Ok s', d') -> free_from k s'.
Proof.
  intros [Hs Hfree] Hd Hoe Hos Hopen. destruct (Hfree d Hd) as (Hpub & c & Hkc & Hc & Hle).
  apply (open_fresh sha256) in Hopen as (Hf & Hpend & Hpois & Hos'); [|done].
  assert (Hus : usable s') by (eapply fresh_usable; [rewrite Hos'|..]; done).
  split; [done|]. intros e He. destruct (settled_crash s' e COUNTER Hus Hpois He) as [E Hp].
  split; [done|]. exists c. split; [done|]. split; [|done]. by rewrite E, (ff_record _ _ _ Hf).
Qed.

Lemma ids_step_free (k : N) (s s' : Directory) (o : option N) :
  free_from k s -> ids_step s o s' ->
  match o with
  | Some n => k <= n /\ n < EXHAUSTED /\ free_from (n + 1) s'
  | None => free_from k s'
  end.
Proof.
  intros Hk Hstep. revert Hk.
  destruct Hstep as [s1 s2 n H|s1 s2 e H|s1 s2 d d' oe limits os Hd Hoe Hos Hopen]; intros Hk.
  - by apply (reserve_free k s1 s2 (Ok n)).
  - by apply (reserve_free k s1 s2 (Err e)).
  - by eapply restart_free.
Qed.

Lemma ids_trace_sorted (k : N) (s s' : Directory) (l : list N) :
  free_from k s -> ids_trace s l s' ->
  StronglySorted N.lt l /\ Forall (fun n => k <= n < EXHAUSTED) l.
Proof.
  intros Hk H. revert k Hk. induction H as [s|s s1 s2 o l Hstep Htrace IH]; intros k Hk.
  - split; constructor.
  - pose proof (ids_step_free _ _ _ _ Hk Hstep) as H1. destruct o as [n|]; cbn [option_list app].
    + destruct H1 as (Hkn & Hn & Hfree). destruct (IH _ Hfree) as [Hs Hall]. split.
      * constructor; [done|]. eapply Forall_impl; [exact Hall|]. simpl. lia.
      * constructor; [lia|]. eapply Forall_impl; [exact Hall|]. simpl. lia.
    + by apply IH.
Qed.

(** C39: project ids are handed out in strictly increasing order, so none is
    ever used twice, over any sequence of reservations, failed writes, crashes
    and restarts of the allocator, and every id fits the positive [i32] range
    the quota interface takes. *)
Theorem project_ids_are_never_reused (s s' : Directory) (l : list N) (c : N) :
  usable s -> di_poisoned s = false -> 1 <= c -> counter_at (di_disk s) c -> ids_trace s l s' ->
  StronglySorted N.lt l /\ Forall (fun n => 1 <= n <= I32_MAX) l.
Proof.
  intros Hs Hp Hc1 Hc Htrace.
  assert (Hfree : free_from c s).
  { split; [done|]. intros d Hd. destruct (settled_crash s d COUNTER Hs Hp Hd) as [E Hpub].
    split; [done|]. exists c. split; [done|]. destruct Hc. split; [by rewrite E|done]. }
  destruct (ids_trace_sorted c s s' l Hfree Htrace) as [H1 H2]. split; [done|].
  eapply Forall_impl; [exact H2|]. unfold EXHAUSTED, I32_MAX. simpl. lia.
Qed.
End Unique.

(** ** Witness *)

Definition ids_tree (c : N) : tree :=
  {[COUNTER := committed (frame digest_fixture (counter_bytes c))]}.

Definition ids_directory : Directory :=
  {| di_limits := default_limits; di_poisoned := false;
     di_disk := {| dk_view := ids_tree 1; dk_safe := ids_tree 1 |};
     di_os := fun _ => os_fixture true; di_now := 0 |}.

Lemma ids_directory_usable : usable ids_directory.
Proof.
  split; [done|]. intros _. split; [|done]. split; [done|]. intros n f _ H.
  change (ids_tree 1 !! n = Some f) in H. unfold ids_tree in H.
  by apply lookup_singleton_Some in H as [_ <-].
Qed.

Definition reserved (n : nat) : Directory :=
  Nat.iter n (fun s => (@reserve Directory (Directory_store digest_fixture) s).2) ids_directory.

Lemma project_ids_are_never_reused_witness :
  StronglySorted N.lt [1; 2] /\ Forall (fun n => 1 <= n <= I32_MAX) [1; 2].
Proof.
  apply (project_ids_are_never_reused digest_fixture (fun _ => eq_refl) ids_directory (reserved 2) [1; 2] 1).
  - apply ids_directory_usable.
  - reflexivity.
  - lia.
  - split; [vm_compute; reflexivity|done].
  - apply (trace_step digest_fixture ids_directory (reserved 1) (reserved 2) (Some 1) [2]).
    + apply step_reserve. vm_compute. reflexivity.
    + apply (trace_step digest_fixture (reserved 1) (reserved 2) (reserved 2) (Some 2) []).
      * apply step_reserve. vm_compute. reflexivity.
      * apply trace_nil.
Defined.
