(* ===== verification/DatasetCache.v ===== *)
(** Pin-aware admission and least-recently-used eviction of cached inputs
    ([rust/worker/src/dataset_cache.rs]). *)

From S2P Require Import Prelude Strings.
Open Scope N_scope.

Inductive CacheError : Type := Configuration | InvalidEntry | Missing | Pinned | Capacity.

#[global] Instance CacheError_eq_dec : EqDecision CacheError.
Proof. solve_decision. Defined.

Record Entry := {
  en_size_bytes : N;
  en_pins : N;
  en_last_used : N;
}.

Record CacheIndex := {
  ci_high_bytes : N;
  ci_low_bytes : N;
  ci_used_bytes : N;
  ci_clock : N;
  ci_entries : gmap string Entry;
}.

Definition cache_new (high_bytes low_bytes : N) : result CacheError CacheIndex :=
  if (low_bytes =? 0) || (high_bytes <=? low_bytes) then Err Configuration
  else Ok {| ci_high_bytes := high_bytes; ci_low_bytes := low_bytes; ci_used_bytes := 0;
             ci_clock := 0; ci_entries := ∅ |}.

Definition set_entries (used clock : N) (m : gmap string Entry) (c : CacheIndex) : CacheIndex :=
  {| ci_high_bytes := ci_high_bytes c; ci_low_bytes := ci_low_bytes c; ci_used_bytes := used;
     ci_clock := clock; ci_entries := m |}.

Definition cache_contains (key : string) (c : CacheIndex) : bool :=
  match ci_entries c !! key with Some _ => true | None => false end.

Definition within (limit : N) (o : option N) : option N :=
  match o with
  | Some x => if x <=? limit then Some x else None
  | None => None
  end.

(** The clock is advanced before the entry is inserted; a failure leaves the
    index as it was. *)
Definition cache_insert (key : string) (size_bytes : N) : st CacheIndex CacheError unit :=
  fun c =>
    if is_empty_str key || (128 <? str_len key) || (size_bytes =? 0) || cache_contains key c
    then (Err InvalidEntry, c)
    else match within (ci_high_bytes c) (u64_checked_add (ci_used_bytes c) size_bytes) with
    | None => (Err Capacity, c)
    | Some used =>
        match u64_checked_add (ci_clock c) 1 with
        | None => (Err Capacity, c)
        | Some clock =>
            let entry := {| en_size_bytes := size_bytes; en_pins := 0; en_last_used := clock |} in
            (Ok tt, set_entries used clock (<[key := entry]> (ci_entries c)) c)
        end
    end.

Definition pin (key : string) : st CacheIndex CacheError unit :=
  fun c =>
    match ci_entries c !! key with
    | None => (Err Missing, c)
    | Some entry =>
        match u64_checked_add (en_pins entry) 1, u64_checked_add (ci_clock c) 1 with
        | Some pins, Some clock =>
            let entry := {| en_size_bytes := en_size_bytes entry; en_pins := pins; en_last_used := clock |} in
            (Ok tt, set_entries (ci_used_bytes c) clock (<[key := entry]> (ci_entries c)) c)
        | _, _ => (Err Capacity, c)
        end
    end.

Definition unpin (key : string) : st CacheIndex CacheError unit :=
  fun c =>
    match ci_entries c !! key with
    | None => (Err Missing, c)
    | Some entry =>
        if en_pins entry =? 0 then (Err InvalidEntry, c)
        else
          let entry := {| en_size_bytes := en_size_bytes entry; en_pins := en_pins entry - 1;
                          en_last_used := en_last_used entry |} in
          (Ok tt, set_entries (ci_used_bytes c) (ci_clock c) (<[key := entry]> (ci_entries c)) c)
    end.

(** [(last_used, key)] of two candidates in lexicographic order. *)
Definition older (a b : string * Entry) : bool :=
  (en_last_used a.2 <? en_last_used b.2)
  || (en_last_used a.2 =? en_last_used b.2) && str_leb a.1 b.1.

Definition candidates (c : CacheIndex) : list (string * Entry) :=
  sort_by older (List.filter (fun e => en_pins e.2 =? 0) (map_to_list (ci_entries c))).

(** The loop over the candidates: the projected use and the victims. *)
Fixpoint evict (low projected : N) (l : list (string * Entry)) : N * list string :=
  match l with
  | [] => (projected, [])
  | (key, entry) :: l' =>
      if projected <=? low then (projected, [])
      else
        let (rest, victims) := evict low (u64_sub projected (en_size_bytes entry)) l' in
        (rest, key :: victims)
  end.

Definition plan_eviction (incoming_bytes : N) (c : CacheIndex) : result CacheError (list string) :=
  if (incoming_bytes =? 0) || (ci_high_bytes c <? incoming_bytes) then Err Capacity
  else
    let? projected := ok_or (u64_checked_add (ci_used_bytes c) incoming_bytes) Capacity in
    if projected <=? ci_high_bytes c then Ok []
    else
      let (projected, victims) := evict (ci_low_bytes c) projected (candidates c) in
      if ci_high_bytes c <? projected then Err Capacity else Ok victims.

Definition cache_remove (key : string) : st CacheIndex CacheError unit :=
  fun c =>
    match ci_entries c !! key with
    | None => (Err Missing, c)
    | Some entry =>
        if negb (en_pins entry =? 0) then (Err Pinned, c)
        else (Ok tt, set_entries (u64_sub (ci_used_bytes c) (en_size_bytes entry)) (ci_clock c)
                       (delete key (ci_entries c)) c)
    end.

(** * The invariant *)

Definition entry_sizes (m : gmap string Entry) : N :=
  map_fold (fun _ e acc => en_size_bytes e + acc) 0 m.

Record accounted (c : CacheIndex) : Prop := {
  ac_used : ci_used_bytes c = entry_sizes (ci_entries c);
  ac_high : ci_used_bytes c <= ci_high_bytes c;
  ac_width : ci_high_bytes c <= U64_MAX;
  ac_limits : 0 < ci_low_bytes c < ci_high_bytes c;
  ac_clock : forall k e, ci_entries c !! k = Some e -> en_last_used e <= ci_clock c;
  ac_sizes : forall k e, ci_entries c !! k = Some e -> 0 < en_size_bytes e;
}.

Lemma entry_sizes_insert (m : gmap string Entry) (k : string) (e : Entry) :
  m !! k = None -> entry_sizes (<[k := e]> m) = en_size_bytes e + entry_sizes m.
Proof. intros H. unfold entry_sizes. rewrite map_fold_insert_L; [done|lia|done]. Qed.

Lemma entry_sizes_delete (m : gmap string Entry) (k : string) (e : Entry) :
  m !! k = Some e -> entry_sizes m = en_size_bytes e + entry_sizes (delete k m).
Proof.
  intros H. rewrite <- (insert_delete_id m k e) at 1 by done.
  rewrite entry_sizes_insert by apply lookup_delete_eq. done.
Qed.

Lemma entry_sizes_update (m : gmap string Entry) (k : string) (e f : Entry) :
  m !! k = Some e -> en_size_bytes f = en_size_bytes e -> entry_sizes (<[k := f]> m) = entry_sizes m.
Proof.
  intros H Hs. rewrite <- insert_delete_eq, entry_sizes_insert by apply lookup_delete_eq.
  by rewrite (entry_sizes_delete m k e), Hs.
Qed.

Lemma cache_new_accounted (high low : N) (c : CacheIndex) :
  high <= U64_MAX -> cache_new high low = Ok c -> accounted c.
Proof.
  unfold cache_new. intros Hw H. guards. subst c. bools. destruct_and!.
  split; simpl; try done; try lia; intros k e; by rewrite lookup_empty.
Qed.

Lemma within_Some (limit x : N) (o : option N) : within limit o = Some x -> o = Some x /\ x <= limit.
Proof. destruct o as [y|]; simpl; [|done]. destruct (N.leb_spec y limit); [|done]. by intros [= <-]. Qed.

Lemma cache_insert_accounted (key : string) (size : N) (c c' : CacheIndex) (r : result CacheError unit) :
  accounted c -> cache_insert key size c = (r, c') -> accounted c'.
Proof.
  intros Hc. unfold cache_insert. destruct (_ || _) eqn:Hg; [by intros [= _ <-]|].
  destruct (within _ _) as [used|] eqn:Hw; [|by intros [= _ <-]].
  destruct (u64_checked_add (ci_clock c) 1) as [clock|] eqn:Hcl; [|by intros [= _ <-]].
  intros [= _ <-]. apply within_Some in Hw as [Hu Hle]. apply u64_checked_add_Some in Hu as [-> _].
  apply u64_checked_add_Some in Hcl as [-> _]. rewrite !orb_false_iff in Hg. destruct_and! Hg.
  assert (Hn : ci_entries c !! key = None).
  { unfold cache_contains in *. by destruct (ci_entries c !! key). }
  destruct Hc as [Hused Hhigh Hwidth Hlim Hclock Hsize]. split; cbn; try done.
  - rewrite entry_sizes_insert by done. simpl. lia.
  - intros k e [[<- <-] | [_ He]]%lookup_insert_Some; [done|]. apply Hclock in He. lia.
  - intros k e [[<- <-] | [_ He]]%lookup_insert_Some; [simpl; bools; lia|]. by eapply Hsize.
Qed.

(** [pin] and [unpin] change neither sizes nor membership. *)
Lemma update_accounted (key : string) (e f : Entry) (clock : N) (c : CacheIndex) :
  accounted c -> ci_entries c !! key = Some e -> en_size_bytes f = en_size_bytes e ->
  en_last_used f <= clock -> ci_clock c <= clock ->
  accounted (set_entries (ci_used_bytes c) clock (<[key := f]> (ci_entries c)) c).
Proof.
  intros [Hused Hhigh Hwidth Hlim Hclock Hsize] He Hs Hl Hcl. split; cbn; try done.
  - by rewrite (entry_sizes_update _ _ e).
  - intros k g [[<- <-] | [_ Hg]]%lookup_insert_Some; [done|]. apply Hclock in Hg. lia.
  - intros k g [[<- <-] | [_ Hg]]%lookup_insert_Some; [rewrite Hs; by eapply Hsize|by eapply Hsize].
Qed.

Lemma pin_accounted (key : string) (c c' : CacheIndex) (r : result CacheError unit) :
  accounted c -> pin key c = (r, c') -> accounted c'.
Proof.
  intros Hc. unfold pin. destruct (ci_entries c !! key) as [e|] eqn:He; [|by intros [= _ <-]].
  destruct (u64_checked_add (en_pins e) 1); [|by intros [= _ <-]].
  destruct (u64_checked_add (ci_clock c) 1) as [clock|] eqn:Hcl; [|by intros [= _ <-]].
  intros [= _ <-]. apply u64_checked_add_Some in Hcl as [-> _]. eapply update_accounted; try done; simpl; lia.
Qed.

Lemma unpin_accounted (key : string) (c c' : CacheIndex) (r : result CacheError unit) :
  accounted c -> unpin key c = (r, c') -> accounted c'.
Proof.
  intros Hc. unfold unpin. destruct (ci_entries c !! key) as [e|] eqn:He; [|by intros [= _ <-]].
  destruct (_ =? 0); [by intros [= _ <-]|]. intros [= _ <-].
  eapply update_accounted; try done. simpl. by eapply (ac_clock _ Hc).
Qed.

Lemma cache_remove_accounted (key : string) (c c' : CacheIndex) (r : result CacheError unit) :
  accounted c -> cache_remove key c = (r, c') -> accounted c'.
Proof.
  intros Hc. unfold cache_remove. destruct (ci_entries c !! key) as [e|] eqn:He; [|by intros [= _ <-]].
  destruct (negb _); [by intros [= _ <-]|]. intros [= _ <-].
  destruct Hc as [Hused Hhigh Hwidth Hlim Hclock Hsize].
  pose proof (entry_sizes_delete _ _ _ He) as Hdel.
  split; cbn; try done; try (rewrite u64_sub_small by lia; lia).
  - intros k g [_ Hg]%lookup_delete_Some. by eapply Hclock.
  - intros k g [_ Hg]%lookup_delete_Some. by eapply Hsize.
Qed.

(** Every index the operations can reach. *)
Inductive cache_op : Type :=
| CacheInsert (key : string) (size : N)
| CachePin (key : string)
| CacheUnpin (key : string)
| CacheRemove (key : string).

Definition run_cache (op : cache_op) (c : CacheIndex) : CacheIndex :=
  match op with
  | CacheInsert key size => (cache_insert key size c).2
  | CachePin key => (pin key c).2
  | CacheUnpin key => (unpin key c).2
  | CacheRemove key => (cache_remove key c).2
  end.

Lemma run_cache_accounted (ops : list cache_op) (c : CacheIndex) :
  accounted c -> accounted (fold_left (fun c op => run_cache op c) ops c).
Proof.
  revert c. induction ops as [|op ops IH]; intros c Hc; simpl; [done|]. apply IH.
  destruct op as [k n|k|k|k]; simpl.
  - destruct (cache_insert k n c) eqn:H. by eapply cache_insert_accounted.
  - destruct (pin k c) eqn:H. by eapply pin_accounted.
  - destruct (unpin k c) eqn:H. by eapply unpin_accounted.
  - destruct (cache_remove k c) eqn:H. by eapply cache_remove_accounted.
Qed.

(** * Eviction *)

Definition sizes_of (l : list (string * Entry)) : N := foldr (fun e acc => en_size_bytes e.2 + acc) 0 l.

(** Entries of the index, each once. *)
Record drawn_from (m : gmap string Entry) (l : list (string * Entry)) : Prop := {
  df_nodup : NoDup l.*1;
  df_lookup : forall k e, (k, e) ∈ l -> m !! k = Some e;
}.

Lemma drawn_from_cons (m : gmap string Entry) (k : string) (e : Entry) (l : list (string * Entry)) :
  drawn_from m ((k, e) :: l) -> m !! k = Some e /\ drawn_from (delete k m) l.
Proof.
  intros [Hnd Hl]. rewrite fmap_cons in Hnd. apply NoDup_cons in Hnd as [Hk Hnd].
  split; [apply Hl; left|]. split; [done|]. intros j f Hj.
  rewrite lookup_delete_ne; [apply Hl; by right|]. intros ->. apply Hk.
  apply list_elem_of_fmap. by exists (j, f).
Qed.

Lemma sizes_of_bound (m : gmap string Entry) (l : list (string * Entry)) :
  drawn_from m l -> sizes_of l <= entry_sizes m.
Proof.
  revert m. induction l as [|[k e] l IH]; intros m H; simpl; [lia|].
  apply drawn_from_cons in H as [Hk H]. rewrite (entry_sizes_delete m k e Hk).
  specialize (IH _ H). lia.
Qed.

Lemma drawn_from_prefix (m : gmap string Entry) (l k : list (string * Entry)) :
  drawn_from m (l ++ k) -> drawn_from m l.
Proof.
  intros [Hnd Hl]. rewrite fmap_app in Hnd. apply NoDup_app in Hnd as [Hnd _]. split; [done|].
  intros j e Hj. apply Hl. apply elem_of_app. by left.
Qed.

Lemma candidates_perm (c : CacheIndex) :
  candidates c ≡ₚ List.filter (fun e => en_pins e.2 =? 0) (map_to_list (ci_entries c)).
Proof. apply sort_by_Permutation. Qed.

Lemma elem_of_candidates (c : CacheIndex) (k : string) (e : Entry) :
  (k, e) ∈ candidates c <-> ci_entries c !! k = Some e /\ en_pins e = 0.
Proof.
  rewrite candidates_perm, list_elem_of_In, List.filter_In, <- list_elem_of_In, elem_of_map_to_list.
  simpl. by rewrite N.eqb_eq.
Qed.

Lemma NoDup_filter_fst {A B : Type} (f : A * B -> bool) (l : list (A * B)) :
  NoDup l.*1 -> NoDup (List.filter f l).*1.
Proof.
  induction l as [|[a b] l IH]; simpl; [done|]. intros [Ha Hl]%NoDup_cons.
  destruct (f (a, b)); simpl; [|by apply IH]. apply NoDup_cons. split; [|by apply IH].
  intros Hin. apply Ha. apply list_elem_of_fmap in Hin as ([a' b'] & -> & Hin).
  apply list_elem_of_In, List.filter_In in Hin as [Hin _]. apply list_elem_of_fmap.
  exists (a', b'). split; [done|]. by apply list_elem_of_In.
Qed.

Lemma candidates_drawn (c : CacheIndex) : drawn_from (ci_entries c) (candidates c).
Proof.
  split.
  - rewrite candidates_perm. apply NoDup_filter_fst, NoDup_fst_map_to_list.
  - intros k e H. by apply elem_of_candidates in H as [H _].
Qed.

Lemma older_total (a b : string * Entry) : older a b = true \/ older b a = true.
Proof.
  unfold older. destruct (N.lt_trichotomy (en_last_used a.2) (en_last_used b.2)) as [H|[H|H]].
  - left. apply orb_true_iff. left. by apply N.ltb_lt.
  - rewrite H, N.eqb_refl, !andb_true_l. destruct (str_leb_total a.1 b.1) as [E|E]; rewrite E;
      rewrite orb_true_r; auto.
  - right. apply orb_true_iff. left. by apply N.ltb_lt.
Qed.

Lemma older_trans (a b c : string * Entry) : older a b = true -> older b c = true -> older a c = true.
Proof.
  unfold older. rewrite !orb_true_iff, !andb_true_iff, !N.ltb_lt, !N.eqb_eq.
  intros [H|[H1 H2]] [G|[G1 G2]]; [left; lia|left; lia|left; lia|right].
  split; [lia|]. by eapply str_leb_trans.
Qed.

Lemma candidates_sorted (c : CacheIndex) : StronglySorted (leb_rel older) (candidates c).
Proof. apply sort_by_Sorted; [apply older_total|apply older_trans]. Qed.

(** The victims are the oldest candidates, up to the low watermark. *)
Lemma evict_spec (low projected p' : N) (l : list (string * Entry)) (victims : list string) :
  sizes_of l <= projected -> projected <= U64_MAX -> evict low projected l = (p', victims) ->
  exists a b, l = a ++ b /\ victims = a.*1 /\ p' = projected - sizes_of a
  /\ (b <> [] -> p' <= low).
Proof.
  revert projected p' victims. induction l as [|[k e] l IH]; intros p p' vs Hs Hw; cbn [evict].
  - intros [= <- <-]. exists [], []. split_and!; [done|done|simpl; lia|done].
  - destruct (N.leb_spec p low) as [Hle|Hlt].
    { intros [= <- <-]. exists [], ((k, e) :: l). split_and!; [done|done|simpl; lia|done]. }
    cbn [sizes_of foldr snd] in Hs. fold (sizes_of l) in Hs.
    rewrite u64_sub_small by lia. destruct (evict low (p - en_size_bytes e) l) as [q ws] eqn:He.
    intros [= <- <-]. apply IH in He as (a & b & -> & -> & -> & Hb); [|lia|lia].
    exists ((k, e) :: a), b. split_and!; [done|done|simpl; lia|done].
Qed.

(** The removals a plan asks for. *)
Fixpoint remove_all (victims : list string) : st CacheIndex CacheError unit :=
  match victims with
  | [] => st_ret tt
  | v :: vs => let! _ := cache_remove v in remove_all vs
  end.

Lemma remove_all_spec (l : list (string * Entry)) (c : CacheIndex) :
  accounted c -> drawn_from (ci_entries c) l -> (forall k e, (k, e) ∈ l -> en_pins e = 0) ->
  exists c', remove_all l.*1 c = (Ok tt, c') /\ accounted c'
  /\ ci_used_bytes c' = ci_used_bytes c - sizes_of l
  /\ ci_high_bytes c' = ci_high_bytes c /\ ci_clock c' = ci_clock c
  /\ forall k, k ∉ l.*1 -> ci_entries c' !! k = ci_entries c !! k.
Proof.
  revert c. induction l as [|[k e] l IH]; intros c Hc Hd Hp.
  { exists c. split_and!; try done. simpl. lia. }
  pose proof (sizes_of_bound _ _ Hd) as Hbound. rewrite <- (ac_used _ Hc) in Hbound.
  destruct (drawn_from_cons _ _ _ _ Hd) as [Hk Hd'].
  assert (Hrem : cache_remove k c = (Ok tt, set_entries (u64_sub (ci_used_bytes c) (en_size_bytes e))
      (ci_clock c) (delete k (ci_entries c)) c)).
  { unfold cache_remove. rewrite Hk, (Hp k e) by left. done. }
  set (c1 := set_entries _ _ _ _) in Hrem.
  assert (Hc1 : accounted c1) by (by eapply cache_remove_accounted).
  destruct (IH c1 Hc1 Hd') as (c' & H1 & H2 & H3 & H4 & H5 & H6); [intros j f Hj; eapply Hp; by right|].
  exists c'. cbn [remove_all fmap list_fmap fst]. unfold st_bind. rewrite Hrem.
  cbn [sizes_of foldr snd] in *. fold (sizes_of l) in *. split_and!; try done.
  - rewrite H3. cbn. rewrite u64_sub_small; [lia|lia|].
    etransitivity; [apply (ac_high _ Hc)|apply (ac_width _ Hc)].
  - intros j Hj. rewrite not_elem_of_cons in Hj. destruct Hj as [Hjk Hj]. rewrite H6 by done. cbn.
    by rewrite lookup_delete_ne.
Qed.

(** What a plan is: a prefix of the candidates that leaves enough room. *)
Lemma plan_split (c : CacheIndex) (incoming : N) (victims : list string) :
  accounted c -> plan_eviction incoming c = Ok victims ->
  exists a b, candidates c = a ++ b /\ victims = a.*1
  /\ 0 < incoming /\ ci_used_bytes c - sizes_of a + incoming <= ci_high_bytes c.
Proof.
  intros Hc Hplan. unfold plan_eviction in Hplan. destruct (_ || _) eqn:Hg; [done|].
  apply orb_false_iff in Hg as [Hg1 Hg2]. apply N.eqb_neq in Hg1. apply N.ltb_ge in Hg2.
  apply rbind_Ok_inv in Hplan as (p & Hp & Hplan). apply ok_or_Ok_inv, u64_checked_add_Some in Hp as [-> Hw].
  pose proof (sizes_of_bound _ _ (candidates_drawn c)) as Hbound. rewrite <- (ac_used _ Hc) in Hbound.
  destruct (N.leb_spec (ci_used_bytes c + incoming) (ci_high_bytes c)) as [Hle|Hgt].
  - injection Hplan as <-. exists [], (candidates c). split_and!; [done|done|lia|simpl; lia].
  - destruct (evict _ _ _) as [q vs] eqn:He. destruct (N.ltb_spec (ci_high_bytes c) q); [done|].
    injection Hplan as <-. apply evict_spec in He as (a & b & Hab & -> & -> & _); [|lia|done].
    exists a, b. split_and!; [done|done|lia|].
    assert (sizes_of a <= ci_used_bytes c); [|lia]. rewrite (ac_used _ Hc). apply sizes_of_bound.
    apply (drawn_from_prefix _ a b). rewrite <- Hab. apply candidates_drawn.
Qed.

(** Admission succeeds whenever there is room. *)
Lemma cache_insert_Ok (c : CacheIndex) (key : string) (size : N) :
  accounted c -> key <> EmptyString -> str_len key <= 128 -> ci_entries c !! key = None ->
  ci_clock c < U64_MAX -> 0 < size -> ci_used_bytes c + size <= ci_high_bytes c ->
  exists c', cache_insert key size c = (Ok tt, c').
Proof.
  intros Hc Hkey Hlen Hfresh Hclock Hpos Hroom. unfold cache_insert.
  assert (is_empty_str key || (128 <? str_len key) || (size =? 0) || cache_contains key c = false) as ->.
  { rewrite !orb_false_iff. unfold cache_contains. rewrite Hfresh. unfold is_empty_str. bools.
    split_and!; done || lia. }
  assert (u64_checked_add (ci_used_bytes c) size = Some (ci_used_bytes c + size)) as ->.
  { apply u64_checked_add_Some. split; [done|]. pose proof (ac_width _ Hc). lia. }
  simpl. destruct (N.leb_spec (ci_used_bytes c + size) (ci_high_bytes c)); [|lia].
  assert (u64_checked_add (ci_clock c) 1 = Some (ci_clock c + 1)) as ->
    by (apply u64_checked_add_Some; lia). eauto.
Qed.

(** ** Properties *)

(** The cache's accounting holds after any sequence of operations: the
    used bytes are exactly the sizes of the entries and never exceed the high
    watermark. *)
Theorem cache_accounting (high low : N) (c : CacheIndex) (ops : list cache_op) :
  high <= U64_MAX -> cache_new high low = Ok c ->
  let c' := fold_left (fun c op => run_cache op c) ops c in
  ci_used_bytes c' = entry_sizes (ci_entries c') /\ ci_used_bytes c' <= ci_high_bytes c'.
Proof.
  intros Hw Hnew c'. assert (Hc : accounted c') by (apply run_cache_accounted; by eapply cache_new_accounted).
  split; apply Hc.
Qed.

Definition cache_fixture : CacheIndex :=
  {| ci_high_bytes := 100; ci_low_bytes := 60; ci_used_bytes := 0; ci_clock := 0; ci_entries := ∅ |}.

Definition cache_ops : list cache_op :=
  [CacheInsert "a" 40; CacheInsert "b" 30; CacheInsert "c" 20; CachePin "b"].

Definition filled_cache : CacheIndex := fold_left (fun c op => run_cache op c) cache_ops cache_fixture.

Lemma cache_accounting_witness :
  ci_used_bytes filled_cache = entry_sizes (ci_entries filled_cache)
  /\ ci_used_bytes filled_cache <= ci_high_bytes filled_cache.
Proof. apply (cache_accounting 100 60 cache_fixture cache_ops); [done|reflexivity]. Defined.

(** An eviction plan works.  Its victims are distinct unpinned entries,
    no unpinned entry that stays was used before one of them, every removal
    succeeds, and the incoming entry is then admitted. *)
Theorem eviction_plan_makes_room (c : CacheIndex) (incoming : N) (victims : list string)
  (key : string) :
  accounted c -> plan_eviction incoming c = Ok victims ->
  key <> EmptyString -> str_len key <= 128 -> ci_entries c !! key = None -> ci_clock c < U64_MAX ->
  NoDup victims
  /\ (forall v, v ∈ victims -> exists e, ci_entries c !! v = Some e /\ en_pins e = 0)
  /\ (forall v e k f, v ∈ victims -> ci_entries c !! v = Some e -> k ∉ victims ->
        ci_entries c !! k = Some f -> en_pins f = 0 -> en_last_used e <= en_last_used f)
  /\ exists c' c'', remove_all victims c = (Ok tt, c') /\ cache_insert key incoming c' = (Ok tt, c'').
Proof.
  intros Hc Hplan Hkey Hlen Hfresh Hclock.
  destruct (plan_split c incoming victims Hc Hplan) as (a & b & Hab & -> & Hpos & Hroom).
  assert (Hd : drawn_from (ci_entries c) a)
    by (apply (drawn_from_prefix _ a b); rewrite <- Hab; apply candidates_drawn).
  assert (Hcand : forall k e, (k, e) ∈ a -> ci_entries c !! k = Some e /\ en_pins e = 0).
  { intros k e Hin. apply elem_of_candidates. rewrite Hab. apply elem_of_app. by left. }
  split; [apply Hd|]. split; [|split].
  - intros v Hv. apply list_elem_of_fmap in Hv as ([k e] & -> & Hin). exists e. by apply Hcand.
  - intros v e k f Hv He Hk Hf Hp. apply list_elem_of_fmap in Hv as ([v' e'] & -> & Hin).
    destruct (Hcand _ _ Hin) as [He' _]. simpl in *. assert (e' = e) as -> by congruence.
    assert (Hkb : (k, f) ∈ b).
    { assert ((k, f) ∈ a ++ b) as [H|H]%elem_of_app; [|exfalso; apply Hk|done].
      - rewrite <- Hab. by apply elem_of_candidates.
      - apply list_elem_of_fmap. by exists (k, f). }
    pose proof (candidates_sorted c) as Hsort. rewrite Hab in Hsort.
    assert (Hold : leb_rel older (v', e) (k, f)) by (by eapply StronglySorted_app_1_elem_of).
    unfold leb_rel, older in Hold. simpl in Hold. bools_in Hold. lia.
  - destruct (remove_all_spec a c Hc Hd (fun k e H => proj2 (Hcand k e H)))
      as (c' & Hrem & Hc' & Hused & Hhigh & Hcl & Hent).
    destruct (cache_insert_Ok c' key incoming Hc' Hkey Hlen) as [c'' Hins]; [|lia|done|lia|by exists c', c''].
    rewrite Hent; [done|]. intros Hin. apply list_elem_of_fmap in Hin as ([k e] & -> & Hin).
    apply Hcand in Hin as [Hin _]. simpl in Hfresh. congruence.
Qed.

Lemma eviction_plan_makes_room_witness :
  NoDup ["a"; "c"]%string
  /\ exists c' c'', remove_all ["a"; "c"] filled_cache = (Ok tt, c')
     /\ cache_insert "d" 45 c' = (Ok tt, c'').
Proof.
  assert (H := eviction_plan_makes_room filled_cache 45 ["a"; "c"]%string "d"
    (run_cache_accounted cache_ops cache_fixture
       (cache_new_accounted 100 60 cache_fixture ltac:(done) eq_refl))
    ltac:(vm_compute; reflexivity) ltac:(done) ltac:(done) ltac:(vm_compute; reflexivity) ltac:(done)).
  destruct H as (H1 & _ & _ & H2). split; assumption.
Defined.
