(* ===== verification/Net.v ===== *)
(** Internet addresses as [std::net] reads them: [str::parse::<IpAddr>] and
    [IpAddr::is_loopback], which decide whether a plain-HTTP capability names
    the local machine. *)

From S2P Require Import Prelude.
Open Scope N_scope.

Inductive IpAddr : Type :=
| V4 (octets : list N)
| V6 (groups : list N).

#[global] Instance IpAddr_eq_dec : EqDecision IpAddr.
Proof. solve_decision. Defined.

(** [char::to_digit]. *)
Definition to_digit (radix : N) (c : ascii) : option N :=
  let x := N_of_ascii c in
  let d := if in_range 48 57 x then Some (x - 48)
           else if in_range 97 122 x then Some (x - 87)
           else if in_range 65 90 x then Some (x - 55)
           else None in
  match d with
  | Some v => if v <? radix then Some v else None
  | None => None
  end.

(** The digits at the head of the input and what follows them. *)
Fixpoint read_digits (radix : N) (s : string) : list N * string :=
  match s with
  | EmptyString => ([], s)
  | String c s' =>
      match to_digit radix c with
      | Some d => let '(ds, rest) := read_digits radix s' in (d :: ds, rest)
      | None => ([], s)
      end
  end.

(** [read_number]: at most [max_digits] digits, a value of the width, and no
    leading zero unless [allow_zero_prefix]. *)
Definition read_number (radix : N) (max_digits : nat) (allow_zero_prefix : bool) (limit : N)
  (s : string) : option (N * string) :=
  let '(ds, rest) := read_digits radix s in
  let v := fold_left (fun acc d => acc * radix + d) ds 0 in
  if bool_decide (ds = []) || bool_decide (max_digits < List.length ds)%nat || (limit <? v)
     || (negb allow_zero_prefix && bool_decide (1 < List.length ds)%nat
         && bool_decide (head ds = Some 0))
  then None
  else Some (v, rest).

Definition read_given_char (c : ascii) (s : string) : option string :=
  match s with
  | String a s' => if bool_decide (a = c) then Some s' else None
  | EmptyString => None
  end.

(** [read_separator]: the separator comes before every element but the first. *)
Definition read_separator {A : Type} (sep : ascii) (index : nat)
  (inner : string -> option (A * string)) (s : string) : option (A * string) :=
  match index with
  | O => inner s
  | S _ => s' ← read_given_char sep s; inner s'
  end.

Fixpoint read_octets (k index : nat) (s : string) : option (list N * string) :=
  match k with
  | O => Some ([], s)
  | S k' =>
      '(x, s1) ← read_separator "." index (read_number 10 3 false 255) s;
      '(xs, s2) ← read_octets k' (S index) s1;
      Some (x :: xs, s2)
  end.

Definition read_ipv4_addr (s : string) : option (list N * string) := read_octets 4 0 s.

(** [read_groups] of [left] more groups: the groups read, whether they end in
    an embedded IPv4 address, and the rest of the input. *)
Fixpoint read_groups (left index : nat) (s : string) : list N * bool * string :=
  match left with
  | O => ([], false, s)
  | S left' =>
      let v4 := if bool_decide (0 < left')%nat
                then read_separator ":" index read_ipv4_addr s else None in
      match v4 with
      | Some ([a; b; c; d], s1) => ([a * 256 + b; c * 256 + d], true, s1)
      | _ =>
          match read_separator ":" index (read_number 16 4 true 65535) s with
          | Some (g, s1) =>
              let '(gs, ipv4, s2) := read_groups left' (S index) s1 in (g :: gs, ipv4, s2)
          | None => ([], false, s)
          end
      end
  end.

Definition read_ipv6_addr (s : string) : option (list N * string) :=
  let '(head, head_ipv4, s1) := read_groups 8 0 s in
  if bool_decide (List.length head = 8%nat) then Some (head, s1)
  else if head_ipv4 then None
  else
    s2 ← read_given_char ":" s1;
    s3 ← read_given_char ":" s2;
    let '(tail, _, s4) := read_groups (8 - (List.length head + 1)) 0 s3 in
    Some (head ++ replicate (8 - List.length head - List.length tail) 0 ++ tail, s4).

(** [IpAddr::from_str]: the whole input must be consumed. *)
Definition parse_ip (s : string) : option IpAddr :=
  match read_ipv4_addr s with
  | Some (octets, rest) => if is_empty_str rest then Some (V4 octets) else None
  | None =>
      match read_ipv6_addr s with
      | Some (groups, rest) => if is_empty_str rest then Some (V6 groups) else None
      | None => None
      end
  end.

Definition is_loopback (address : IpAddr) : bool :=
  match address with
  | V4 octets => bool_decide (head octets = Some 127)
  | V6 groups => bool_decide (groups = [0; 0; 0; 0; 0; 0; 0; 1])
  end.

(** [str::trim_matches] for a set of ASCII characters. *)
Fixpoint trim_start_matches (cs : list ascii) (s : string) : string :=
  match s with
  | EmptyString => EmptyString
  | String a s' => if bool_decide (a ∈ cs) then trim_start_matches cs s' else s
  end.

Fixpoint trim_end_matches (cs : list ascii) (s : string) : string :=
  match s with
  | EmptyString => EmptyString
  | String a s' =>
      match trim_end_matches cs s' with
      | EmptyString => if bool_decide (a ∈ cs) then EmptyString else String a EmptyString
      | t => String a t
      end
  end.

Definition trim_matches (cs : list ascii) (s : string) : string :=
  trim_end_matches cs (trim_start_matches cs s).

Example parse_ip_samples :
  parse_ip "127.0.0.1" = Some (V4 [127; 0; 0; 1])
  /\ parse_ip "127.0.0.01" = None
  /\ parse_ip "127.1" = None
  /\ parse_ip "::1" = Some (V6 [0; 0; 0; 0; 0; 0; 0; 1])
  /\ parse_ip "::ffff:127.0.0.1" = Some (V6 [0; 0; 0; 0; 0; 65535; 32512; 1])
  /\ parse_ip "2001:db8::8:800:200c:417a" = Some (V6 [8193; 3512; 0; 0; 8; 2048; 8204; 16762])
  /\ parse_ip "localhost" = None
  /\ trim_matches ["["; "]"]%char "[::1]" = "::1"%string.
Proof. vm_compute. repeat split. Qed.
