(* ===== verification/DatasetInputs.v ===== *)
(** Dataset inputs of an assignment: the manifest of an archive
    ([rust/worker/src/dataset_staging.rs], [validate_manifest]), the download
    capability ([dataset_download.rs], [validate_grant]) and the agreement of
    the granted inputs with the job's mounts ([dataset_assignment.rs]).

    The URL parser of [reqwest] and the JSON decoder are parameters: [parse_url]
    delivers the parts of a URL, [from_slice_manifest] the decoded manifest.
    [wall i] is the wall-clock reading, in milliseconds since the epoch, that
    the check of the [i]-th input takes ([None] before the epoch). *)

From S2P Require Import Prelude Strings Protocol Lease Control Uploads Execution Net.
Open Scope N_scope.

(** * Archive manifests *)

Record DatasetFile := {
  df_path : string;
  df_size_bytes : N;
  df_sha256 : string;
}.

Record DatasetManifest := {
  dm_format : string;
  dm_files : list DatasetFile;
}.

Inductive StageError : Type :=
| InvalidManifest | InvalidArchive | InvalidWorkspace | AlreadyPublished | StageIo.

Definition MAX_ARCHIVE_BYTES : N := 67108864.

(** Repeated [Path::parent] of a relative path of normal components, here
    written on its components from the last one: each ancestor directory and
    finally the empty path. *)
Fixpoint ancestors (reversed : list string) : list string :=
  match reversed with
  | [] => []
  | _ :: rest => join_with "/" (rev rest) :: ancestors rest
  end.

Definition bad_file (previous : string) (file : DatasetFile) : bool :=
  let path := df_path file in
  (512 <? str_len path)
  || is_empty_str path
  || str_leb path previous
  || (contains "\" path || contains nul path)
  || existsb is_control (chars (str_bytes path))
  || existsb (fun part => negb (normal_part part)) (split_on "/" path)
  || negb (str_len (df_sha256 file) =? 64)
  || negb (forallb hash_byte (str_bytes (df_sha256 file))).

(** One iteration of the loop, on [previous], [total] and [files]. *)
Definition check_file (state : string * N * list string) (file : DatasetFile)
  : result StageError (string * N * list string) :=
  let '(previous, total, files) := state in
  if bad_file previous file then Err InvalidManifest
  else if existsb (fun dir => bool_decide (dir ∈ files))
            (ancestors (rev (split_on "/" (df_path file))))
  then Err InvalidManifest
  else
    let? total := ok_or (u64_checked_add total (df_size_bytes file)) InvalidManifest in
    if MAX_ARCHIVE_BYTES <? total then Err InvalidManifest
    else Ok (df_path file, total, df_path file :: files).

Definition validate_manifest (manifest : DatasetManifest) : result StageError unit :=
  if negb (bool_decide (dm_format manifest = "tar.v1"%string))
     || bool_decide (dm_files manifest = [])
     || (1024 <? len (dm_files manifest))
  then Err InvalidManifest
  else
    let? _ := rfold check_file (EmptyString, 0, []) (dm_files manifest) in
    Ok tt.

(** * Download capabilities *)

Inductive DownloadError : Type :=
| Grant | Integrity | Transport | FileError | DownloadPublished.

(** What [reqwest::Url] reports of a parsed URL; [query_pairs] are decoded. *)
Record Url := {
  url_scheme : string;
  url_username : string;
  url_password : option string;
  url_host_str : option string;
  url_path : string;
  url_query_pairs : list (string * string);
  url_fragment : option string;
}.

Record DatasetDownloader := { allow_loopback_http : bool }.

(** [DatasetDownloader::new]; [built] says whether the HTTP client could be built. *)
Definition downloader_new (built : bool) (allow : bool) : result DownloadError DatasetDownloader :=
  if built then Ok {| allow_loopback_http := allow |} else Err Grant.

Definition key_byte (b : byte) : bool :=
  is_ascii_alphanumeric b || (byte_val b =? 45) || (byte_val b =? 95).

Definition bad_object (object : ObjectVersion) : bool :=
  is_empty_str (ov_key object)
  || (1024 <? str_len (ov_key object))
  || negb (forallb (fun part => negb (is_empty_str part) && forallb key_byte (str_bytes part))
             (split_on "/" (ov_key object)))
  || negb (valid_version (ov_version_id object))
  || (MAX_ARCHIVE_BYTES <? ov_size_bytes object)
  || negb (str_len (ov_sha256 object) =? 64)
  || negb (forallb hash_byte (str_bytes (ov_sha256 object))).

Definition is_ascii_control (b : byte) : bool := in_range 0 31 (byte_val b) || (byte_val b =? 127).

Definition ends_with (suffix s : string) : bool :=
  match strip_suffix suffix s with
  | Some _ => true
  | None => false
  end.

Definition loopback (url : Url) : bool :=
  match url_host_str url with
  | Some host =>
      match parse_ip (trim_matches ["["; "]"]%char host) with
      | Some address => is_loopback address
      | None => false
      end
  | None => false
  end.

Definition version_ids (url : Url) : list string :=
  snd <$> List.filter (fun '(name, _) => bool_decide (name = "versionId"%string))
            (url_query_pairs url).

Definition bad_url (d : DatasetDownloader) (object : ObjectVersion) (url : Url) : bool :=
  negb (is_empty_str (url_username url))
  || bool_decide (is_Some (url_password url))
  || bool_decide (is_Some (url_fragment url))
  || negb (bool_decide (url_scheme url = "https"%string)
           || allow_loopback_http d && bool_decide (url_scheme url = "http"%string) && loopback url)
  || negb (ends_with (String "/" (ov_key object)) (url_path url))
  || negb (bool_decide (version_ids url = [ov_version_id object])).

Section Inputs.
Context (parse_url : string -> option Url).
Context (from_slice_manifest : bytes -> option DatasetManifest).

Definition validate_download (d : DatasetDownloader) (object : ObjectVersion) (raw_url : string)
  (expires_unix_ms : Z) (wall : option N) : result DownloadError Url :=
  if bad_object object || (65536 <? str_len raw_url) || contains "\" raw_url
     || existsb is_ascii_control (str_bytes raw_url)
  then Err Grant
  else
    let? now := ok_or wall Grant in
    if (expires_unix_ms <=? 0)%Z
       || (Z.to_N expires_unix_ms <=? now)
       || (now + 5 * 60000 <? Z.to_N expires_unix_ms)
    then Err Grant
    else
      let? url := ok_or (parse_url raw_url) Grant in
      if bad_url d object url then Err Grant else Ok url.

(** * Agreement with the job *)

Inductive InputError : Type := InputInvalid | SpecMismatch.

Record ValidatedInput := {
  vi_dataset_id : string;
  vi_dataset_name : string;
  vi_mount_path : string;
  vi_archive : ObjectVersion;
  vi_manifest : DatasetManifest;
  vi_download_url : string;
  vi_expires_unix_ms : Z;
}.

Definition valid_name (name : string) : bool :=
  negb (is_empty_str name)
  && (str_len name <=? 128)
  && match str_bytes name with b :: _ => is_ascii_alphanumeric b | [] => false end
  && forallb ident_byte (str_bytes name).

Definition valid_mount (path : string) : bool :=
  (str_len path <=? 4096)
  && starts_with "/inputs/" path
  && negb (contains "\" path || contains nul path)
  && forallb normal_part (drop 1 (split_on "/" path)).

Definition mount_overlaps (left right : string) : bool :=
  bool_decide (left = right) || strictly_below left right || strictly_below right left.

Definition total_size (files : list DatasetFile) : option N :=
  match rfold (fun sum file => ok_or (u64_checked_add sum (df_size_bytes file)) tt) 0 files with
  | Ok total => Some total
  | Err _ => None
  end.

Definition bad_wire (validated : list ValidatedInput) (wire : InputManifest) : bool :=
  negb (canonical_uuid (im_dataset_id wire))
  || negb (valid_name (im_dataset_name wire))
  || negb (valid_mount (im_mount_path wire))
  || existsb (fun previous => mount_overlaps (vi_mount_path previous) (im_mount_path wire)) validated
  || bool_decide (im_file_manifest_json wire = [])
  || (2097152 <? len (im_file_manifest_json wire)).

(** One iteration of [validate_inputs]. *)
Definition validate_input (d : DatasetDownloader) (wall : nat -> option N)
  (validated : list ValidatedInput) (pair : InputManifest * Input)
  : result InputError (list ValidatedInput) :=
  let '(wire, requested) := pair in
  if negb (bool_decide (im_dataset_name wire = in_dataset requested))
     || negb (bool_decide (im_mount_path wire = in_mount_path requested))
  then Err SpecMismatch
  else if bad_wire validated wire then Err InputInvalid
  else
    let? archive := ok_or (im_archive wire) InputInvalid in
    if ov_size_bytes archive =? 0 then Err InputInvalid
    else
      let? manifest := ok_or (from_slice_manifest (im_file_manifest_json wire)) InputInvalid in
      let? _ := map_err (fun _ => InputInvalid) (validate_manifest manifest) in
      let? total := ok_or (total_size (dm_files manifest)) InputInvalid in
      if ov_size_bytes archive <? total then Err InputInvalid
      else
        let? _ := map_err (fun _ => InputInvalid)
                    (validate_download d archive (im_download_url wire) (im_expires_unix_ms wire)
                       (wall (List.length validated))) in
        Ok (validated ++
            [{| vi_dataset_id := im_dataset_id wire; vi_dataset_name := im_dataset_name wire;
                vi_mount_path := im_mount_path wire; vi_archive := archive;
                vi_manifest := manifest; vi_download_url := im_download_url wire;
                vi_expires_unix_ms := im_expires_unix_ms wire |}]).

Definition validate_inputs (assignment : Assignment) (expected : list Input)
  (d : DatasetDownloader) (wall : nat -> option N) : result InputError (list ValidatedInput) :=
  if (64 <? len expected) || negb (len (as_inputs assignment) =? len expected)
  then Err SpecMismatch
  else rfold (validate_input d wall) [] (zip (as_inputs assignment) expected).

Definition stable_input (i : InputManifest) : InputManifest :=
  {| im_dataset_id := im_dataset_id i; im_mount_path := im_mount_path i;
     im_archive := im_archive i; im_file_manifest_json := im_file_manifest_json i;
     im_download_url := EmptyString; im_expires_unix_ms := 0;
     im_dataset_name := im_dataset_name i |}.

Definition stable_assignment (a : Assignment) : Assignment :=
  {| as_authority := as_authority a; as_image_digest := as_image_digest a; as_argv := as_argv a;
     as_resources := as_resources a; as_canonical_job_spec_json := as_canonical_job_spec_json a;
     as_spec_sha256 := as_spec_sha256 a; as_lease_duration_ms := 0;
     as_server_time_unix_ms := 0; as_phase_remaining_ms := 0;
     as_inputs := stable_input <$> as_inputs a |}.

Definition validate_replayed_input (original replay : Assignment) (expected : list Input)
  (index : nat) (d : DatasetDownloader) (wall : nat -> option N)
  : result InputError ValidatedInput :=
  if bool_decide (List.length expected <= index)%nat
     || negb (len (as_inputs original) =? len expected)
     || negb (bool_decide (stable_assignment original = stable_assignment replay))
  then Err SpecMismatch
  else
    let? validated := validate_inputs replay expected d wall in
    ok_or (validated !! index) InputInvalid.
End Inputs.

(** * Lemmas *)

Definition sizes (files : list DatasetFile) : N :=
  foldr (fun f acc => df_size_bytes f + acc) 0 files.

Lemma ancestors_prefix (k l : list string) :
  k <> [] -> join_with "/" (rev l) ∈ ancestors (k ++ l).
Proof.
  induction k as [|x k IH]; [done|]. intros _. cbn [app ancestors].
  destruct k as [|y k]; [left|]. right. by apply IH.
Qed.

Lemma str_ltb_extends (a r : string) (c : ascii) : str_ltb a (a +:+ String c r) = true.
Proof.
  apply str_ltb_compare. induction a as [|x a IH]; [done|].
  change (String x a +:+ String c r) with (String x (a +:+ String c r)). cbn [String.compare].
  assert (Ascii.compare x x = Eq) as -> by (by apply N.compare_refl). done.
Qed.

Lemma str_ltb_leb_absurd (a b : string) : str_ltb a b = true -> str_leb b a = true -> False.
Proof. rewrite str_ltb_leb. intros ->%negb_true_iff. done. Qed.

(** A later path, in byte order, none of whose ancestors is [p] is separate
    from [p]. *)
Lemma later_path_separate (p path : string) :
  str_ltb p path = true ->
  p ∉ ancestors (rev (split_on "/" path)) -> separate p path.
Proof.
  intros Hlt Hanc. split; rewrite split_prefix; intros [Heq | [r Hr]]; subst.
  - by rewrite str_ltb_irrefl in Hlt.
  - apply Hanc. rewrite split_on_join_app, rev_app_distr.
    rewrite <- (join_split "/" p) at 1. rewrite <- (rev_involutive (split_on "/" p)) at 1.
    apply ancestors_prefix. pose proof (split_on_nonempty "/" r) as Hne. intros Hrev.
    apply Hne. rewrite <- (rev_involutive (split_on "/" r)), Hrev. done.
  - by rewrite str_ltb_irrefl in Hlt.
  - eapply str_ltb_leb_absurd; [exact Hlt|]. apply str_leb_compare. left.
    apply str_ltb_compare, str_ltb_extends.
Qed.

Definition below_all (files : list string) (previous : string) : Prop :=
  forall p, p ∈ files -> str_leb p previous = true.

Lemma check_file_Ok (previous : string) (total : N) (files : list string) (file : DatasetFile)
  (s : string * N * list string) :
  check_file (previous, total, files) file = Ok s ->
  below_all files previous ->
  s = (df_path file, total + df_size_bytes file, df_path file :: files)
  /\ below_all (df_path file :: files) (df_path file)
  /\ total + df_size_bytes file <= MAX_ARCHIVE_BYTES
  /\ Forall (fun part => normal_part part = true) (split_on "/" (df_path file))
  /\ forall p, p ∈ files -> separate p (df_path file).
Proof.
  unfold check_file. intros H Hbelow. guards.
  match goal with H : u64_checked_add _ _ = Some _ |- _ => apply u64_checked_add_Some in H as [-> _] end.
  subst s. unfold bad_file in *. rewrite !orb_false_iff in *. destruct_and!.
  assert (Hlt : forall p, p ∈ files -> str_ltb p (df_path file) = true).
  { intros p Hp. rewrite str_ltb_leb. apply negb_true_iff, not_true_iff_false. intros Hle.
    apply Hbelow in Hp. pose proof (str_leb_trans _ _ _ Hle Hp). congruence. }
  split_and!; [done| |by bools| |].
  - intros p [-> | Hp]%elem_of_cons; [apply str_leb_compare; by right|].
    apply str_leb_compare. left. by apply str_ltb_compare, Hlt.
  - apply Forall_forall. intros part Hpart. apply not_false_iff_true. intros Hn.
    match goal with H : existsb (fun part => negb _) _ = false |- _ => apply not_true_iff_false in H; apply H end.
    apply existsb_exists. exists part. rewrite <- list_elem_of_In. split; [done|]. by rewrite Hn.
  - intros p Hp. apply later_path_separate; [by apply Hlt|]. intros Hanc.
    match goal with H : existsb (fun dir => _) _ = false |- _ => apply not_true_iff_false in H; apply H end.
    apply existsb_exists. exists p. rewrite <- list_elem_of_In. split; [done|]. by apply bool_decide_eq_true.
Qed.

Lemma check_files_Ok (l : list DatasetFile) (previous : string) (total : N) (files : list string)
  (s : string * N * list string) :
  rfold check_file (previous, total, files) l = Ok s ->
  below_all files previous -> total <= MAX_ARCHIVE_BYTES ->
  total + sizes l <= MAX_ARCHIVE_BYTES
  /\ forall j g, l !! j = Some g ->
       Forall (fun part => normal_part part = true) (split_on "/" (df_path g))
       /\ (forall p, p ∈ files -> separate p (df_path g))
       /\ forall i f, l !! i = Some f -> (i < j)%nat -> separate (df_path f) (df_path g).
Proof.
  revert previous total files. induction l as [|file l IH]; intros previous total files H Hbelow Htot.
  - simpl. split; [lia|done].
  - cbn [rfold] in H. ok_inv. rename H into Hrest.
    match goal with H : check_file _ _ = Ok _ |- _ =>
      apply check_file_Ok in H as (-> & Hb & Ht & Hn & Hsep); [|done] end.
    apply IH in Hrest as [Hsum Hl]; [|done..]. simpl. split; [lia|].
    intros [|j] g Hg; simpl in Hg.
    + injection Hg as <-. split_and!; [done|done|]. intros; lia.
    + apply Hl in Hg as (Hng & Hpg & Hij). split_and!; [done| |].
      * intros p Hp. apply Hpg. by right.
      * intros [|i] f Hf Hlt; simpl in Hf; [injection Hf as <-; apply Hpg; left|].
        apply (Hij i); [done|lia].
Qed.

(** The files of an accepted manifest. *)
Definition laid_out (m : DatasetManifest) : Prop :=
  sizes (dm_files m) <= MAX_ARCHIVE_BYTES
  /\ forall j g, dm_files m !! j = Some g ->
       Forall (fun part => normal_part part = true) (split_on "/" (df_path g))
       /\ forall i f, dm_files m !! i = Some f -> (i < j)%nat -> separate (df_path f) (df_path g).

Lemma validate_manifest_laid_out (m : DatasetManifest) : validate_manifest m = Ok tt -> laid_out m.
Proof.
  unfold validate_manifest. intros H. guards.
  match goal with H : rfold check_file _ _ = Ok _ |- _ => apply check_files_Ok in H as [Hs Hl] end.
  - split; [done|]. intros j g Hg. apply Hl in Hg as (? & _ & ?). done.
  - by intros p ?%elem_of_nil.
  - done.
Qed.

(** * Properties *)

(** The files of an accepted manifest can be laid out side by side: no
    path is another one or lies below another one, no component is empty, [.]
    or [..], and the declared sizes together fit the archive bound. *)
Theorem manifest_files_are_disjoint (m : DatasetManifest) :
  validate_manifest m = Ok tt ->
  sizes (dm_files m) <= MAX_ARCHIVE_BYTES
  /\ forall j g, dm_files m !! j = Some g ->
       Forall (fun part => normal_part part = true) (split_on "/" (df_path g))
       /\ forall i f, dm_files m !! i = Some f -> (i < j)%nat -> separate (df_path f) (df_path g).
Proof. apply validate_manifest_laid_out. Qed.

Definition hash_fixture : string :=
  "bbbbbbbbbbbbbbbbbbbbbbbbbbbbbbbbbbbbbbbbbbbbbbbbbbbbbbbbbbbbbbbb".

Definition archive_manifest : DatasetManifest :=
  {| dm_format := "tar.v1";
     dm_files := [{| df_path := "a.txt"; df_size_bytes := 3; df_sha256 := hash_fixture |};
                  {| df_path := "a/x"; df_size_bytes := 4; df_sha256 := hash_fixture |}] |}.

Lemma manifest_files_are_disjoint_witness :
  sizes (dm_files archive_manifest) <= MAX_ARCHIVE_BYTES /\ separate "a.txt" "a/x".
Proof.
  destruct (manifest_files_are_disjoint archive_manifest ltac:(vm_compute; reflexivity))
    as [Hs Hl].
  split; [exact Hs|]. exact (proj2 (Hl 1%nat _ eq_refl) 0%nat _ eq_refl ltac:(lia)).
Defined.

Section InputLemmas.
Context (parse_url : string -> option Url).
Context (from_slice_manifest : bytes -> option DatasetManifest).
Context (d : DatasetDownloader).

(** [v] is the validated form of the wire input [w], with a capability that was
    live at [wall] and pinned to the archive's version. *)
Definition accepted_input (wall : option N) (w : InputManifest) (v : ValidatedInput) : Prop :=
  vi_dataset_id v = im_dataset_id w /\ vi_dataset_name v = im_dataset_name w
  /\ vi_mount_path v = im_mount_path w /\ im_archive w = Some (vi_archive v)
  /\ vi_download_url v = im_download_url w /\ vi_expires_unix_ms v = im_expires_unix_ms w
  /\ from_slice_manifest (im_file_manifest_json w) = Some (vi_manifest v)
  /\ sizes (dm_files (vi_manifest v)) <= ov_size_bytes (vi_archive v)
  /\ exists now url, wall = Some now
       /\ now < Z.to_N (vi_expires_unix_ms v) <= now + 300000
       /\ parse_url (vi_download_url v) = Some url
       /\ version_ids url = [ov_version_id (vi_archive v)]
       /\ exists prefix, url_path url = prefix +:+ String "/" (ov_key (vi_archive v)).

Lemma total_size_Some (files : list DatasetFile) (total : N) :
  total_size files = Some total -> total = sizes files.
Proof.
  unfold total_size.
  set (step := fun _ _ => _) in *.
  assert (Hgen : forall sum t, rfold step sum files = Ok t -> t = sum + sizes files).
  { induction files as [|f files IH]; intros sum t H; cbn [rfold] in H.
    - apply Ok_inj in H as <-. simpl. lia.
    - apply rbind_Ok_inv in H as (s' & Hs & H). apply IH in H as ->. unfold step in Hs.
      apply ok_or_Ok_inv, u64_checked_add_Some in Hs as [-> _]. simpl. lia. }
  destruct (rfold step 0 files) as [t|] eqn:Ht; [|done]. intros [= <-]. by apply Hgen in Ht.
Qed.

Lemma validate_download_Ok (o : ObjectVersion) (raw : string) (expires : Z) (wall : option N)
  (url : Url) :
  validate_download parse_url d o raw expires wall = Ok url ->
  exists now, wall = Some now /\ now < Z.to_N expires <= now + 300000
    /\ parse_url raw = Some url
    /\ version_ids url = [ov_version_id o]
    /\ exists prefix, url_path url = prefix +:+ String "/" (ov_key o).
Proof.
  unfold validate_download. intros H. guards. subst.
  eexists. split; [done|].
  match goal with H : bad_url _ _ _ = false |- _ => unfold bad_url in H;
    rewrite !orb_false_iff, !negb_false_iff in H; destruct H as [[_ Hend] Hv] end.
  apply bool_decide_eq_true in Hv. unfold ends_with in Hend.
  destruct (strip_suffix _ _) as [prefix|] eqn:Hs; [|done]. apply strip_suffix_Some in Hs.
  bools. split_and!; try done; try lia. by exists prefix.
Qed.

Lemma validate_input_Ok (wall : nat -> option N) (acc vs : list ValidatedInput)
  (w : InputManifest) (e : Input) :
  validate_input parse_url from_slice_manifest d wall acc (w, e) = Ok vs ->
  exists v, vs = acc ++ [v] /\ accepted_input (wall (List.length acc)) w v
    /\ forall p, p ∈ acc -> separate (vi_mount_path p) (vi_mount_path v).
Proof.
  unfold validate_input. intros H. guards. subst vs.
  match goal with H : total_size _ = Some _ |- _ => apply total_size_Some in H as -> end.
  match goal with H : validate_download _ _ _ _ _ _ = Ok _ |- _ =>
    apply validate_download_Ok in H as (now & Hnow) end.
  eexists. split; [done|]. split.
  - unfold accepted_input. cbn. bools. split_and!; try done. by exists now; eexists.
  - intros p Hp. cbn. unfold bad_wire in *.
    match goal with H : (_ || existsb ?f acc || _ || _) = false |- _ =>
      rewrite !orb_false_iff in H; destruct H as [[[_ Hov] _] _] end.
    apply overlaps_false. apply not_true_iff_false in Hov. apply not_true_iff_false. intros Hp'.
    apply Hov, existsb_exists. exists p. by rewrite <- list_elem_of_In.
Qed.

Lemma validate_inputs_fold (wall : nat -> option N) (ws : list InputManifest) (es : list Input)
  (acc vs : list ValidatedInput) :
  List.length ws = List.length es ->
  rfold (validate_input parse_url from_slice_manifest d wall) acc (zip ws es) = Ok vs ->
  exists k, vs = acc ++ k /\ List.length k = List.length ws
    /\ forall i v, k !! i = Some v ->
         (exists w, ws !! i = Some w /\ accepted_input (wall (List.length acc + i)%nat) w v)
         /\ (forall p, p ∈ acc ++ take i k -> separate (vi_mount_path p) (vi_mount_path v)).
Proof.
  revert es acc. induction ws as [|w ws IH]; intros [|e es] acc Hlen H; try done.
  - apply Ok_inj in H as <-. exists []. rewrite app_nil_r. split_and!; done.
  - cbn [zip zip_with rfold] in H. apply rbind_Ok_inv in H as (acc' & Hw & H).
    apply validate_input_Ok in Hw as (v & -> & Hv & Hsep).
    apply IH in H as (k & -> & Hk & Hall); [|by injection Hlen].
    exists (v :: k). rewrite <- app_assoc. split_and!; [done|simpl; lia|].
    intros [|i] v' Hv'; cbn in Hv'.
    + injection Hv' as <-. rewrite Nat.add_0_r. split; [by exists w|].
      intros p. cbn [take]. rewrite app_nil_r. apply Hsep.
    + apply Hall in Hv' as [(w' & Hw' & Hacc) Hs]. rewrite length_app in Hacc. cbn in Hacc.
      replace (List.length acc + S i)%nat with (List.length acc + 1 + i)%nat by lia.
      split; [by exists w'|]. intros p Hp. apply Hs. by rewrite <- app_assoc.
Qed.

Lemma validate_inputs_Ok (a : Assignment) (expected : list Input) (wall : nat -> option N)
  (vs : list ValidatedInput) :
  validate_inputs parse_url from_slice_manifest a expected d wall = Ok vs ->
  List.length vs = List.length (as_inputs a)
  /\ forall i v, vs !! i = Some v ->
       (exists w, as_inputs a !! i = Some w /\ accepted_input (wall i) w v)
       /\ (forall p, p ∈ take i vs -> separate (vi_mount_path p) (vi_mount_path v)).
Proof.
  unfold validate_inputs. intros H. guards. unfold len in *. bools. destruct_and!.
  apply (validate_inputs_fold wall _ _ [] vs) in H as (k & -> & Hk & Hall); [|lia].
  done.
Qed.

(** A replayed assignment can refresh only the capability of an input.
    The validated input still has the dataset, name, mount, archive version and
    manifest of the original assignment, under the same attempt authority and
    job document, and its fresh URL is live and names exactly that version. *)
Theorem replayed_input_keeps_its_identity (original replay : Assignment) (expected : list Input)
  (index : nat) (wall : nat -> option N) (v : ValidatedInput) :
  validate_replayed_input parse_url from_slice_manifest original replay expected index d wall = Ok v ->
  as_authority replay = as_authority original
  /\ as_canonical_job_spec_json replay = as_canonical_job_spec_json original
  /\ exists w, as_inputs original !! index = Some w
       /\ vi_dataset_id v = im_dataset_id w /\ vi_dataset_name v = im_dataset_name w
       /\ vi_mount_path v = im_mount_path w /\ im_archive w = Some (vi_archive v)
       /\ from_slice_manifest (im_file_manifest_json w) = Some (vi_manifest v)
       /\ exists now url, wall index = Some now
            /\ now < Z.to_N (vi_expires_unix_ms v) <= now + 300000
            /\ parse_url (vi_download_url v) = Some url
            /\ version_ids url = [ov_version_id (vi_archive v)].
Proof.
  unfold validate_replayed_input. intros H. guards.
  match goal with H : validate_inputs _ _ _ _ _ _ = Ok _ |- _ =>
    apply validate_inputs_Ok in H as [_ Hall] end.
  apply Hall in H as [(r & Hr & Hacc) _].
  rewrite !orb_false_iff, !bool_decide_negb_false in *. destruct_and!.
  match goal with H : stable_assignment original = stable_assignment replay |- _ =>
    pose proof (f_equal as_authority H) as Ha; pose proof (f_equal as_canonical_job_spec_json H) as Hj;
    pose proof (f_equal as_inputs H) as Hi end.
  cbn in Ha, Hj, Hi. apply (f_equal (fun l => l !! index)) in Hi.
  rewrite !list_lookup_fmap, Hr in Hi. cbn in Hi.
  destruct (as_inputs original !! index) as [w|]; [|done]. cbn in Hi. injection Hi as Hid Hm Har Hf Hn.
  destruct Hacc as (?&?&?&?&?&?&?&?&now&url&?&?&?&?&_).
  split_and!; try done. exists w. split_and!; try congruence. by exists now, url.
Qed.
End InputLemmas.

(** Fixtures: one granted input and the same input with a fresh capability. *)
Definition store_url (raw : string) : option Url :=
  Some {| url_scheme := "https"; url_username := EmptyString; url_password := None;
          url_host_str := Some "store.example"%string; url_path := "/bucket/datasets/d1";
          url_query_pairs := [("versionId", "v7"); ("sig", raw)]%string; url_fragment := None |}.

Definition granted_input (url : string) (expires : Z) : InputManifest :=
  {| im_dataset_id := "1b4e28ba-2fa1-11d2-883f-0016d3cca427"; im_mount_path := "/inputs/train";
     im_archive := Some {| ov_key := "datasets/d1"; ov_version_id := "v7"; ov_size_bytes := 4096;
                           ov_sha256 := hash_fixture |};
     im_file_manifest_json := str_bytes "{}"; im_download_url := url;
     im_expires_unix_ms := expires; im_dataset_name := "train" |}.

Definition assignment_with (lease : N) (i : InputManifest) : Assignment :=
  {| as_authority := None; as_image_digest := image_fixture; as_argv := ["python"%string];
     as_resources := None; as_canonical_job_spec_json := str_bytes "{}";
     as_spec_sha256 := hash_fixture; as_lease_duration_ms := lease;
     as_server_time_unix_ms := 0; as_phase_remaining_ms := 60000; as_inputs := [i] |}.

Definition replay_fixture : ValidatedInput :=
  {| vi_dataset_id := "1b4e28ba-2fa1-11d2-883f-0016d3cca427"; vi_dataset_name := "train";
     vi_mount_path := "/inputs/train";
     vi_archive := {| ov_key := "datasets/d1"; ov_version_id := "v7"; ov_size_bytes := 4096;
                      ov_sha256 := hash_fixture |};
     vi_manifest := archive_manifest; vi_download_url := "https://store.example/second";
     vi_expires_unix_ms := 400000 |}.

Lemma replayed_input_keeps_its_identity_witness :
  exists w, as_inputs (assignment_with 30000 (granted_input "https://store.example/first" 200000))
              !! 0%nat = Some w
    /\ im_archive w = Some (vi_archive replay_fixture).
Proof.
  destruct (replayed_input_keeps_its_identity store_url (fun _ => Some archive_manifest)
    {| allow_loopback_http := true |}
    (assignment_with 30000 (granted_input "https://store.example/first" 200000))
    (assignment_with 20000 (granted_input "https://store.example/second" 400000))
    [{| in_dataset := "train"; in_mount_path := "/inputs/train" |}] 0%nat (fun _ => Some 300000)
    replay_fixture ltac:(vm_compute; reflexivity))
    as (_ & _ & w & Hw & _ & _ & _ & Ha & _).
  exists w. by split.
Defined.
