(* ===== verification/Work.v ===== *)
(** Acquisition and reconciliation of work
    ([rust/worker/src/control/work.rs]): what the worker accepts of an
    assignment, of an acquisition reply and of one page of its current
    assignments.

    Readings are arguments: [sent] and [received] are the monotonic samples
    around the call, and [local] holds what one [check_assignment] reads while
    it runs. *)

From S2P Require Import Prelude Strings Protocol Lease Control Execution Net DatasetInputs.
Open Scope N_scope.

Record GrantedAssignment := {
  ga_assignment : Assignment;
  ga_authority : AuthorityWindow;
  ga_execution : ExecutionSpec;
}.

Inductive WorkOutcome : Type :=
| WorkAssignment (grant : GrantedAssignment)
| WorkNoWork (reason : NoWorkReason.t)
| WorkRejected (decision : Decision_.t)
| WorkExpired (authority : AttemptAuthority).

Record AssignmentPage := {
  ap_assignments : list GrantedAssignment;
  ap_expired : list AttemptAuthority;
  ap_next_after_job_id : string;
}.

(** The wall-clock readings of the input checks, the reading of the final
    authority check, and whether the HTTP client could be built. *)
Record local := {
  wall : nat -> option N;
  clock : result LeaseError MonoTime;
  client_built : bool;
}.

Definition bad_resources (r : Resources) : bool :=
  (rs_cpu_millis r =? 0)
  || (1024000 <? rs_cpu_millis r)
  || (rs_memory_bytes r <? 1048576)
  || (N.shiftl 16777216 20 <? rs_memory_bytes r)
  || negb (rs_memory_bytes r mod 1048576 =? 0)
  || (rs_scratch_bytes r <? 1048576)
  || (N.shiftl 1073741824 20 <? rs_scratch_bytes r)
  || negb (rs_scratch_bytes r mod 1048576 =? 0).

Definition pinned_digest (image : string) : bool :=
  match rsplit_once "@sha256:" image with
  | Some (name, digest) => negb (is_empty_str name) && lower_hash digest
  | None => false
  end.

Definition bad_assignment (session : WorkerSession) (assignment : Assignment)
  (a : AttemptAuthority) (r : Resources) : bool :=
  negb (bool_decide (aa_worker_id a = ws_worker_id session))
  || negb (bool_decide (aa_session_id a = ws_session_id session))
  || negb (canonical_uuid (aa_job_id a))
  || negb (canonical_uuid (aa_attempt_id a))
  || (aa_generation a =? 0)
  || (I64_MAX <? aa_generation a)
  || bad_resources r
  || bool_decide (as_argv assignment = [])
  || (256 <? len (as_argv assignment))
  || first_empty (as_argv assignment)
  || existsb bad_argument (as_argv assignment)
  || negb (pinned_digest (as_image_digest assignment))
  || (1024 <? str_len (as_image_digest assignment))
  || unprintable (as_image_digest assignment)
  || bool_decide (as_canonical_job_spec_json assignment = [])
  || (2097152 <? len (as_canonical_job_spec_json assignment))
  || negb (lower_hash (as_spec_sha256 assignment)).

Section Work.
Context (sha256 : bytes -> bytes).
Context (from_slice_value : bytes -> option Value).
Context (from_slice_job : bytes -> option RawJob).
Context (parse_url : string -> option Url).
Context (from_slice_manifest : bytes -> option DatasetManifest).

Definition check_inputs (l : local) (assignment : Assignment) (execution : ExecutionSpec)
  : result ClientError unit :=
  if bool_decide (as_inputs assignment = []) then Ok tt
  else
    let? downloader := map_err (fun _ => Response) (downloader_new (client_built l) true) in
    let? _ := map_err (fun _ => Response)
                (validate_inputs parse_url from_slice_manifest assignment
                   (js_inputs (job_spec (es_job execution))) downloader (wall l)) in
    Ok tt.

Definition check_assignment (session : WorkerSession) (assignment : Assignment)
  (sent received : MonoTime) (l : local) : result ClientError WorkOutcome :=
  let? a := ok_or (as_authority assignment) Response in
  let? r := ok_or (as_resources assignment) Response in
  if bad_assignment session assignment a r then Err Response
  else
    let? execution := map_err (fun _ => Response)
                        (from_assignment sha256 from_slice_value from_slice_job assignment) in
    let? _ := check_inputs l assignment execution in
    match (let? authority := from_grant sent received (as_lease_duration_ms assignment)
                               (as_phase_remaining_ms assignment) in
           let? _ := remaining authority (clock l) in
           Ok authority) with
    | Ok authority =>
        Ok (WorkAssignment {| ga_assignment := assignment; ga_authority := authority;
                              ga_execution := execution |})
    | Err Expired => Ok (WorkExpired a)
    | Err Clock => Err ClockFailed
    | Err Invalid => Err Response
    end.

Definition decode_acquisition (session : WorkerSession) (response : option AcquireOutcome)
  (sent received : MonoTime) (l : local) : result ClientError WorkOutcome :=
  let? outcome := ok_or response Response in
  match outcome with
  | OutcomeAssignment assignment => check_assignment session assignment sent received l
  | OutcomeNoWork value =>
      match NoWorkReason.try_from value with
      | Some reason =>
          if bool_decide (reason <> NoWorkReason.Unspecified) then Ok (WorkNoWork reason)
          else Err Response
      | None => Err Response
      end
  | OutcomeRejected value =>
      match Decision_.try_from value with
      | Some ((Decision_.Fenced | Decision_.StopRequested | Decision_.AlreadyTerminal) as decision) =>
          Ok (WorkRejected decision)
      | _ => Err Response
      end
  end.

(** One iteration of the page loop, on [previous] and the two vectors. *)
Definition page_step (session : WorkerSession) (sent received : MonoTime)
  (state : string * list GrantedAssignment * list AttemptAuthority)
  (item : local * Assignment)
  : result ClientError (string * list GrantedAssignment * list AttemptAuthority) :=
  let '(previous, assignments, expired) := state in
  let '(l, assignment) := item in
  let? authority := ok_or (as_authority assignment) Response in
  let job := aa_job_id authority in
  if str_leb job previous then Err Response
  else
    let? outcome := check_assignment session assignment sent received l in
    match outcome with
    | WorkAssignment grant => Ok (job, assignments ++ [grant], expired)
    | WorkExpired authority => Ok (job, assignments, expired ++ [authority])
    | _ => Err Response
    end.

Definition decode_page (request : ListAssignmentsRequest) (response : ListAssignmentsResponse)
  (sent received : MonoTime) (locals : nat -> local) : result ClientError AssignmentPage :=
  let? session := valid_session (la_session request) in
  let limit := if la_page_size request =? 0 then 32 else la_page_size request in
  if (64 <? limit) || (limit <? len (lr_assignments response)) then Err Response
  else
    let? '(previous, assignments, expired) :=
      rfold (page_step session sent received) (la_after_job_id request, [], [])
        (imap (fun i a => (locals i, a)) (lr_assignments response)) in
    let next := lr_next_after_job_id response in
    if negb (is_empty_str next)
       && (negb (canonical_uuid next) || str_leb next (la_after_job_id request)
           || str_ltb next previous)
    then Err Response
    else Ok {| ap_assignments := assignments; ap_expired := expired;
               ap_next_after_job_id := next |}.

(** The calls, with the samples taken around the RPC. *)
Definition acquire (request : AcquireWorkRequest) (before after : result LeaseError MonoTime)
  (reply : rpc_reply (option AcquireOutcome)) (l : local) : result ClientError WorkOutcome :=
  let? session := valid_session (aw_session request) in
  if negb (canonical_uuid (aw_request_id request)) then Err Configuration
  else
    let? sent := map_err (fun _ => ClockFailed) before in
    let? response := into_inner reply in
    let? received := map_err (fun _ => ClockFailed) after in
    decode_acquisition session response sent received l.

Definition list_assignments (request : ListAssignmentsRequest)
  (before after : result LeaseError MonoTime) (reply : rpc_reply ListAssignmentsResponse)
  (locals : nat -> local) : result ClientError AssignmentPage :=
  let? _ := valid_session (la_session request) in
  if (64 <? la_page_size request)
     || (negb (is_empty_str (la_after_job_id request))
         && negb (canonical_uuid (la_after_job_id request)))
  then Err Configuration
  else
    let? sent := map_err (fun _ => ClockFailed) before in
    let? response := into_inner reply in
    let? received := map_err (fun _ => ClockFailed) after in
    decode_page request response sent received locals.
End Work.

(** * Lemmas *)

Definition job_of (a : Assignment) : string :=
  match as_authority a with
  | Some authority => aa_job_id authority
  | None => EmptyString
  end.

Section WorkLemmas.
Context (sha256 : bytes -> bytes).
Context (from_slice_value : bytes -> option Value).
Context (from_slice_job : bytes -> option RawJob).
Context (parse_url : string -> option Url).
Context (from_slice_manifest : bytes -> option DatasetManifest).

Local Abbreviation check :=
  (check_assignment sha256 from_slice_value from_slice_job parse_url from_slice_manifest).
Local Abbreviation step :=
  (page_step sha256 from_slice_value from_slice_job parse_url from_slice_manifest).

Lemma check_assignment_Ok (session : WorkerSession) (x : Assignment) (s r : MonoTime) (l : local)
  (o : WorkOutcome) :
  check session x s r l = Ok o ->
  exists a, as_authority x = Some a
    /\ (aa_worker_id a = ws_worker_id session /\ aa_session_id a = ws_session_id session)
    /\ (canonical_uuid (aa_job_id a) = true /\ canonical_uuid (aa_attempt_id a) = true)
    /\ 1 <= aa_generation a <= I64_MAX
    /\ match o with
       | WorkAssignment g =>
           ga_assignment g = x
           /\ from_assignment sha256 from_slice_value from_slice_job x = Ok (ga_execution g)
           /\ from_grant s r (as_lease_duration_ms x) (as_phase_remaining_ms x) = Ok (ga_authority g)
           /\ exists t d, clock l = Ok t /\ remaining_at (ga_authority g) t = Ok d
       | WorkExpired b => b = a
       | _ => False
       end.
Proof.
  unfold check_assignment. intros H.
  apply rbind_Ok_inv in H as (a & Ha & H). apply rbind_Ok_inv in H as (rs & _ & H). guards.
  exists a. split; [done|].
  match goal with H : bad_assignment _ _ _ _ = false |- _ => unfold bad_assignment in H;
    rewrite !orb_false_iff, !bool_decide_negb_false, !negb_false_iff, N.ltb_ge, N.eqb_neq in H;
    destruct_and! H end.
  split_and!; try done; [lia|].
  destruct (let? _ := from_grant _ _ _ _ in _) as [w|[]] eqn:Hw; try discriminate H.
  - apply Ok_inj in H as <-. ok_inv. subst.
    match goal with H : remaining _ _ = Ok _ |- _ => apply remaining_Ok in H as (t & Ht & Hd) end.
    cbn. split_and!; try done. by exists t; eexists.
  - by apply Ok_inj in H as <-.
Qed.

(** One assignment of a page advances the cursor to its job and is recorded in
    exactly one of the two vectors. *)
Lemma page_step_Ok (session : WorkerSession) (s r : MonoTime) (l : local) (x : Assignment)
  (previous p1 : string) (gs g1 : list GrantedAssignment) (es e1 : list AttemptAuthority) :
  step session s r (previous, gs, es) (l, x) = Ok (p1, g1, e1) ->
  exists gx ex, p1 = job_of x /\ str_ltb previous (job_of x) = true
    /\ g1 = gs ++ gx /\ e1 = es ++ ex
    /\ ((exists g, gx = [g] /\ ex = [] /\ ga_assignment g = x)
        \/ (exists e, gx = [] /\ ex = [e] /\ as_authority x = Some e)).
Proof.
  unfold page_step. intros Hx. apply rbind_Ok_inv in Hx as (a & Ha & Hx).
  apply ok_or_Ok_inv in Ha. assert (Hj : job_of x = aa_job_id a) by (unfold job_of; by rewrite Ha).
  rewrite <- Hj in Hx. destruct (str_leb (job_of x) previous) eqn:Hle; [done|].
  apply rbind_Ok_inv in Hx as (o & Ho & Hx).
  apply check_assignment_Ok in Ho as (a' & Ha' & _ & _ & _ & Ho).
  assert (Hlt : str_ltb previous (job_of x) = true) by (by rewrite str_ltb_leb, Hle).
  destruct o as [g| | |e]; try done; apply Ok_inj in Hx; injection Hx as <- <- <-.
  - destruct Ho as (Hg & _). exists [g], []. rewrite app_nil_r. split_and!; try done. left. by exists g.
  - subst e. exists [], [a']. rewrite app_nil_r. split_and!; try done. right. by exists a'.
Qed.

(** The loop over a page from [previous]: job ids strictly increase, and every
    assignment ends up as a grant or among the expired. *)
Lemma page_fold (session : WorkerSession) (s r : MonoTime) (xs : list Assignment)
  (locals : nat -> local) (previous last : string) (gs gs' : list GrantedAssignment)
  (es es' : list AttemptAuthority) :
  rfold (step session s r) (previous, gs, es) (imap (fun i a => (locals i, a)) xs)
    = Ok (last, gs', es') ->
  Forall (fun x => str_ltb previous (job_of x) = true /\ str_leb (job_of x) last = true) xs
  /\ str_leb previous last = true
  /\ StronglySorted (fun x y => str_ltb (job_of x) (job_of y) = true) xs
  /\ exists gk ek, gs' = gs ++ gk /\ es' = es ++ ek
       /\ (List.length gk + List.length ek = List.length xs)%nat
       /\ (ga_assignment <$> gk) `sublist_of` xs /\ (Some <$> ek) `sublist_of` (as_authority <$> xs)
       /\ forall x, x ∈ xs -> x ∈ (ga_assignment <$> gk) \/ as_authority x ∈ (Some <$> ek).
Proof.
  revert locals previous gs es. induction xs as [|x xs IH]; intros locals previous gs es H.
  - cbn in H. apply Ok_inj in H. injection H as <- <- <-.
    split_and!; [done|apply str_leb_compare; by right|constructor|].
    exists [], []. rewrite !app_nil_r. split_and!; try done. by intros x ?%elem_of_nil.
  - rewrite imap_cons in H. cbn [rfold] in H. apply rbind_Ok_inv in H as ([[p1 g1] e1] & Hx & H).
    apply page_step_Ok in Hx as (gx & ex & -> & Hlt & -> & -> & Hcase).
    apply (IH (locals ∘ S)) in H as (Hall & Hle & Hsort & gk & ek & -> & -> & Hlen & Hg & He & Hin).
    split_and!.
    + constructor; [done|]. eapply Forall_impl; [exact Hall|]. intros y [Hy ?]. split; [|done].
      by eapply str_ltb_trans.
    + eapply str_leb_trans; [|done]. apply str_leb_compare. left. by apply str_ltb_compare.
    + constructor; [done|]. eapply Forall_impl; [exact Hall|]. by intros y [Hy _].
    + exists (gx ++ gk), (ex ++ ek). rewrite !app_assoc. split_and!; [done|done|..].
      * rewrite !length_app. destruct Hcase as [(g & -> & -> & _)|(e & -> & -> & _)]; simpl; lia.
      * destruct Hcase as [(g & -> & -> & <-)|(e & -> & -> & _)]; cbn; by constructor.
      * destruct Hcase as [(g & -> & -> & <-)|(e & -> & -> & Hxe)]; cbn; rewrite ?Hxe; by constructor.
      * intros y [-> | Hy]%elem_of_cons.
        -- destruct Hcase as [(g & -> & -> & Hgx)|(e & -> & -> & Hxe)]; cbn; [left|right]; [|rewrite Hxe; left].
           rewrite <- Hgx. left.
        -- rewrite !fmap_app, !elem_of_app. apply Hin in Hy as []; auto.
Qed.

(** * Properties *)

(** Acquired work is live and belongs to this session.  A returned
    assignment is the one the server delivered, for this worker and session,
    with a document that decodes to the returned settings; its window starts at
    the sample taken before the call, ends five seconds before the granted
    lease and no later than the phase, and was still open at the last reading. *)
Theorem acquired_work_is_live_and_ours (request : AcquireWorkRequest)
  (before after : result LeaseError MonoTime) (reply : rpc_reply (option AcquireOutcome))
  (l : local) (g : GrantedAssignment) :
  acquire sha256 from_slice_value from_slice_job parse_url from_slice_manifest
    request before after reply l = Ok (WorkAssignment g) ->
  exists session a s t,
    aw_session request = Some session
    /\ reply = Delivered (Some (OutcomeAssignment (ga_assignment g)))
    /\ as_authority (ga_assignment g) = Some a
    /\ aa_worker_id a = ws_worker_id session /\ aa_session_id a = ws_session_id session
    /\ 1 <= aa_generation a <= I64_MAX
    /\ from_assignment sha256 from_slice_value from_slice_job (ga_assignment g)
       = Ok (ga_execution g)
    /\ before = Ok s /\ sent (ga_authority g) = s
    /\ deadline (ga_authority g)
       = s + from_millis (N.min (as_lease_duration_ms (ga_assignment g) - 5000)
                                (as_phase_remaining_ms (ga_assignment g)))
    /\ clock l = Ok t /\ s <= t < deadline (ga_authority g).
Proof.
  unfold acquire. intros H. apply rbind_Ok_inv in H as (session & Hs & H).
  apply valid_session_Ok in Hs as [Hs _]. guards.
  destruct reply as [| |response]; try done.
  match goal with H : into_inner _ = Ok _ |- _ => apply Ok_inj in H as <- end.
  unfold decode_acquisition in H. apply rbind_Ok_inv in H as (outcome & Ho & H).
  apply ok_or_Ok_inv in Ho as ->.
  destruct outcome as [y|v|v]; [|by repeat case_match..].
  apply check_assignment_Ok in H as (a & Ha & [Hw Hss] & _ & Hgen & <- & He & Hg & t & d & Ht & Hd).
  apply from_grant_Ok in Hg as (_ & _ & _ & _ & _ & Hg).
  apply remaining_at_Ok in Hd as (Hd1 & Hd2 & _). rewrite Hg in *. cbn in *.
  exists session, a. do 2 eexists. split_and!; done || lia.
Qed.

(** An accepted page makes progress and loses nothing.  Its jobs strictly
    increase and lie after the requested cursor, each delivered assignment is
    recorded exactly once, as a grant or as expired authority, in order, and a
    returned cursor lies strictly after the requested one and not before any
    delivered job, so that following cursors cannot cycle or skip. *)
Theorem pages_advance (request : ListAssignmentsRequest)
  (before after : result LeaseError MonoTime) (response : ListAssignmentsResponse)
  (locals : nat -> local) (page : AssignmentPage) :
  list_assignments sha256 from_slice_value from_slice_job parse_url from_slice_manifest
    request before after (Delivered response) locals = Ok page ->
  let xs := lr_assignments response in
  StronglySorted (fun x y => str_ltb (job_of x) (job_of y) = true) xs
  /\ Forall (fun x => str_ltb (la_after_job_id request) (job_of x) = true) xs
  /\ (List.length (ap_assignments page) + List.length (ap_expired page) = List.length xs)%nat
  /\ (ga_assignment <$> ap_assignments page) `sublist_of` xs
  /\ (Some <$> ap_expired page) `sublist_of` (as_authority <$> xs)
  /\ (forall x, x ∈ xs -> x ∈ (ga_assignment <$> ap_assignments page)
                        \/ as_authority x ∈ (Some <$> ap_expired page))
  /\ (ap_next_after_job_id page <> EmptyString ->
      str_ltb (la_after_job_id request) (ap_next_after_job_id page) = true
      /\ Forall (fun x => str_leb (job_of x) (ap_next_after_job_id page) = true) xs).
Proof.
  unfold list_assignments. intros H. guards.
  match goal with H : into_inner _ = Ok _ |- _ => apply Ok_inj in H as <- end.
  unfold decode_page in H. apply rbind_Ok_inv in H as (session & _ & H). guards.
  match goal with H : rfold _ _ _ = Ok ?t |- _ => destruct t as [[last gs] es] end. guards. subst page. cbn.
  match goal with H : rfold _ _ _ = Ok _ |- _ =>
    apply page_fold in H as (Hall & _ & Hsort & gk & ek & -> & -> & Hlen & Hg & He & Hin) end.
  split_and!; try done.
  - eapply Forall_impl; [exact Hall|]. by intros y [? _].
  - intros Hne.
    match goal with H : (negb (is_empty_str _) && _) = false |- _ => rename H into Hnext end.
    unfold is_empty_str in Hnext. rewrite bool_decide_false in Hnext by done. cbn in Hnext.
    rewrite !orb_false_iff in Hnext. destruct Hnext as [[_ Hcur] Hlast].
    split; [by rewrite str_ltb_leb, Hcur|].
    eapply Forall_impl; [exact Hall|]. intros y [_ Hx]. eapply str_leb_trans; [exact Hx|].
    rewrite str_ltb_leb in Hlast. by apply negb_false_iff in Hlast.
Qed.
End WorkLemmas.

Definition session_fixture : WorkerSession :=
  {| ws_worker_id := "00000000-0000-0000-0000-000000000001";
     ws_session_id := "00000000-0000-0000-0000-000000000002" |}.

Definition authority_for (job : string) : AttemptAuthority :=
  {| aa_job_id := job; aa_attempt_id := "00000000-0000-0000-0000-000000000004";
     aa_generation := 1; aa_worker_id := ws_worker_id session_fixture;
     aa_session_id := ws_session_id session_fixture |}.

(** The assignment of [Execution] with usable inputs, leased for [lease] milliseconds. *)
Definition work_fixture (job : string) (lease : N) : Assignment :=
  {| as_authority := Some (authority_for job); as_image_digest := image_fixture;
     as_argv := as_argv assignment_fixture; as_resources := as_resources assignment_fixture;
     as_canonical_job_spec_json := as_canonical_job_spec_json assignment_fixture;
     as_spec_sha256 := as_spec_sha256 assignment_fixture; as_lease_duration_ms := lease;
     as_server_time_unix_ms := 0; as_phase_remaining_ms := 300000;
     as_inputs := [granted_input "https://store.example/first" 200000;
                   {| im_dataset_id := "1b4e28ba-2fa1-11d2-883f-0016d3cca427";
                      im_mount_path := "/inputs/train2";
                      im_archive := im_archive (granted_input EmptyString 0);
                      im_file_manifest_json := str_bytes "{}";
                      im_download_url := "https://store.example/second";
                      im_expires_unix_ms := 200000; im_dataset_name := "train" |}] |}.

Definition local_fixture : local :=
  {| wall := fun _ => Some 100000; clock := Ok 104000000000; client_built := true |}.

Definition grant_fixture (job : string) : GrantedAssignment :=
  {| ga_assignment := work_fixture job 30000;
     ga_authority := {| sent := 100000000000; deadline := 125000000000 |};
     ga_execution := spec_fixture |}.

Lemma acquired_work_is_live_and_ours_witness :
  exists t, clock local_fixture = Ok t
    /\ t < deadline (ga_authority (grant_fixture "00000000-0000-0000-0000-000000000003")).
Proof.
  destruct (acquired_work_is_live_and_ours flat_digest (fun _ => Some value_fixture)
    (fun _ => Some raw_fixture) store_url (fun _ => Some archive_manifest)
    {| aw_session := Some session_fixture; aw_request_id := "00000000-0000-0000-0000-000000000009" |}
    (Ok 100000000000) (Ok 103000000000)
    (Delivered (Some (OutcomeAssignment (work_fixture "00000000-0000-0000-0000-000000000003" 30000))))
    local_fixture (grant_fixture "00000000-0000-0000-0000-000000000003")
    ltac:(vm_compute; reflexivity))
    as (_ & _ & _ & t & _ & _ & _ & _ & _ & _ & _ & _ & _ & _ & Ht & _ & Hlt).
  by exists t.
Defined.

Definition page_response : ListAssignmentsResponse :=
  {| lr_assignments := [work_fixture "00000000-0000-0000-0000-000000000003" 30000;
                        work_fixture "00000000-0000-0000-0000-000000000005" 6000];
     lr_next_after_job_id := "00000000-0000-0000-0000-000000000006" |}.

Lemma pages_advance_witness :
  StronglySorted (fun x y => str_ltb (job_of x) (job_of y) = true) (lr_assignments page_response).
Proof.
  apply (pages_advance flat_digest (fun _ => Some value_fixture)
    (fun _ => Some raw_fixture) store_url (fun _ => Some archive_manifest)
    {| la_session := Some session_fixture; la_page_size := 2; la_after_job_id := EmptyString |}
    (Ok 100000000000) (Ok 103000000000) page_response (fun _ => local_fixture)
    {| ap_assignments := [grant_fixture "00000000-0000-0000-0000-000000000003"];
       ap_expired := [authority_for "00000000-0000-0000-0000-000000000005"];
       ap_next_after_job_id := "00000000-0000-0000-0000-000000000006" |}).
  vm_compute. reflexivity.
Defined.
