(* ===== verification/RuntimeConfig.v ===== *)
(** The container an attempt runs in ([rust/worker/src/runtime/config.rs] and
    the workspace of [runtime.rs]): the configuration sent to the daemon, the
    check of what the daemon reports, and the prepared workspace.

    The records of bollard are kept with the fields the sources set or read; a
    field left at its default is [None].  What the file system answers is an
    argument. *)

From stdpp Require Import pretty.
From S2P Require Import Prelude Strings Protocol Lease Control Os Renew Supervisor Execution.
Open Scope N_scope.

(** * Workspaces ([runtime.rs]) *)

Record InputMount := {
  mt_target : string;
  mt_source : string;
}.

(** A project quota enforces its byte limit. *)
Record PreparedWorkspace := {
  pw_root : string;
  pw_inputs : list InputMount;
  pw_quota : option N;
}.

Definition scratch_policy (w : PreparedWorkspace) : string :=
  match pw_quota w with
  | Some _ => "ext4-project-quota-v1"
  | None => "soft-development"
  end.

(** [symlink_metadata]: the metadata and [file_type().is_symlink()]. *)
Record Lstat := {
  ls_meta : Metadata;
  ls_symlink : bool;
}.

Definition plain_dir (l : Lstat) : bool := is_dir (ls_meta l) && negb (ls_symlink l).

Definition path_join (root name : string) : string := root +:+ "/" +:+ name.

(** [Path::starts_with], on canonical paths: whole components. *)
Definition path_starts_with (base path : string) : bool :=
  bool_decide (path = base) || strictly_below path base.

Definition is_absolute (path : string) : bool := starts_with "/" path.

(** The answers of the file system during [validate]. *)
Record workspace_io := {
  wi_quota : bool;
  wi_canonical : option string;
  wi_parent : result ErrorKind Metadata;
  wi_euid : N;
  wi_child : string -> result ErrorKind Lstat;
}.

Definition bad_child (io : workspace_io) (name : string) : bool :=
  match wi_child io name with
  | Err _ => true
  | Ok child => negb (plain_dir child)
  end.

Definition validate_workspace (io : workspace_io) (w : PreparedWorkspace)
  : result RuntimeError.t unit :=
  if bool_decide (is_Some (pw_quota w)) && negb (wi_quota io) then Err RuntimeError.Configuration
  else if negb (is_absolute (pw_root w)) || negb (bool_decide (wi_canonical io = Some (pw_root w)))
  then Err RuntimeError.Configuration
  else
    let? parent := map_err (fun _ => RuntimeError.Configuration) (wi_parent io) in
    if negb (is_dir parent) || negb (N.land (mode parent) 18 =? 0) || negb (uid parent =? wi_euid io)
    then Err RuntimeError.Configuration
    else if existsb (bad_child io) ["inputs"; "outputs"; "scratch"]%string
    then Err RuntimeError.Configuration
    else Ok tt.

(** [soft_development] and [project_quota]. *)
Definition new_workspace (io : workspace_io) (root : string) (quota : option N)
  : result RuntimeError.t PreparedWorkspace :=
  let w := {| pw_root := root; pw_inputs := []; pw_quota := quota |} in
  let? _ := validate_workspace io w in
  Ok w.

(** The answers during [bind_input]: of the source, and for each component of
    the mount point [create_dir] and, where it exists, [symlink_metadata]. *)
Record bind_io := {
  bi_canonical : option string;
  bi_source : result ErrorKind Lstat;
  bi_euid : N;
  bi_create : nat -> io;
  bi_existing : nat -> result ErrorKind Lstat;
}.

Definition bad_target (w : PreparedWorkspace) (target : string) : bool :=
  (64 <=? len (pw_inputs w))
  || (4096 <? str_len target)
  || negb (starts_with "/inputs/" target)
  || (contains "\" target || contains nul target)
  || existsb (fun part => negb (normal_part part)) (split_on "/" (rest_of target))
  || existsb (fun previous => overlaps (mt_target previous) target) (pw_inputs w).

Definition bad_source (io : bind_io) (w : PreparedWorkspace) (source : string) : bool :=
  negb (is_absolute source)
  || path_starts_with (pw_root w) source
  || negb (bool_decide (bi_canonical io = Some source)).

(** One component of the mount point. *)
Definition make_component (io : bind_io) (i : nat) : bool :=
  match bi_create io i with
  | Ok _ => true
  | Err AlreadyExists =>
      match bi_existing io i with
      | Ok existing => plain_dir existing
      | Err _ => false
      end
  | Err _ => false
  end.

Definition bind_input (io : bind_io) (w : PreparedWorkspace) (target source : string)
  : result RuntimeError.t PreparedWorkspace :=
  if bad_target w target || bad_source io w source then Err RuntimeError.Configuration
  else
    let? metadata := map_err (fun _ => RuntimeError.Configuration) (bi_source io) in
    if negb (plain_dir metadata)
       || negb (uid (ls_meta metadata) =? bi_euid io)
       || negb (N.land (mode (ls_meta metadata)) 511 =? 365)
    then Err RuntimeError.Configuration
    else
      let parts := drop 2 (split_on "/" target) in
      if negb (forallb (make_component io) (seq 0 (List.length parts)))
      then Err RuntimeError.Configuration
      else Ok {| pw_root := pw_root w;
                 pw_inputs := pw_inputs w ++ [{| mt_target := target; mt_source := source |}];
                 pw_quota := pw_quota w |}.

(** * The daemon's records *)

Inductive MountType : Type := BIND | OtherMount.
Inductive RestartPolicyName : Type := RestartNo | OtherRestart.

#[global] Instance MountType_eq_dec : EqDecision MountType.
Proof. solve_decision. Defined.
#[global] Instance RestartPolicyName_eq_dec : EqDecision RestartPolicyName.
Proof. solve_decision. Defined.

Record Mount := {
  mo_target : option string;
  mo_source : option string;
  mo_typ : option MountType;
  mo_read_only : option bool;
}.

Record RestartPolicy := {
  rp_name : option RestartPolicyName;
  rp_maximum_retry_count : option Z;
}.

Record LogConfig := {
  lc_typ : option string;
  lc_config : option (gmap string string);
}.

#[global] Instance LogConfig_eq_dec : EqDecision LogConfig.
Proof. solve_decision. Defined.

Record HostConfig := {
  hc_privileged : option bool;
  hc_readonly_rootfs : option bool;
  hc_network_mode : option string;
  hc_cap_drop : option (list string);
  hc_security_opt : option (list string);
  hc_memory : option Z;
  hc_memory_swap : option Z;
  hc_cpu_period : option Z;
  hc_cpu_quota : option Z;
  hc_pids_limit : option Z;
  hc_init : option bool;
  hc_auto_remove : option bool;
  hc_restart_policy : option RestartPolicy;
  hc_mounts : option (list Mount);
  hc_tmpfs : option (gmap string string);
  hc_shm_size : option Z;
  hc_log_config : option LogConfig;
  hc_binds : option (list string);
  hc_volumes_from : option (list string);
  hc_cap_add : option (list string);
  hc_devices : option (list string);
  hc_device_requests : option (list string);
  hc_pid_mode : option string;
  hc_userns_mode : option string;
  hc_ipc_mode : option string;
}.

(** The settings [ContainerCreateBody] and [ContainerConfig] share. *)
Record ContainerConfig := {
  cc_image : option string;
  cc_user : option string;
  cc_entrypoint : option (list string);
  cc_cmd : option (list string);
  cc_env : option (list string);
  cc_working_dir : option string;
  cc_network_disabled : option bool;
  cc_tty : option bool;
  cc_open_stdin : option bool;
  cc_labels : option (gmap string string);
  cc_stop_signal : option string;
  cc_stop_timeout : option Z;
  cc_healthcheck : option (option (list string));
}.

Record ContainerCreateBody := {
  cb_config : ContainerConfig;
  cb_host_config : option HostConfig;
}.

Record ContainerInspect := {
  ci_image : option string;
  ci_config : option ContainerConfig;
  ci_host_config : option HostConfig;
}.

(** * The configuration of an attempt *)

Definition identity_labels (identity : AttemptAuthority) (x : ExecutionSpec) (w : PreparedWorkspace)
  : gmap string string :=
  list_to_map
    [("dev.dispatch.worker", aa_worker_id identity);
     ("dev.dispatch.session", aa_session_id identity);
     ("dev.dispatch.job", aa_job_id identity);
     ("dev.dispatch.attempt", aa_attempt_id identity);
     ("dev.dispatch.generation", pretty (aa_generation identity));
     ("dev.dispatch.spec-sha256", es_sha256 x);
     ("dev.dispatch.scratch-policy", scratch_policy w)]%string.

Definition env_entry (k v : string) : string := k +:+ "=" +:+ v.

(** Entries of a [BTreeMap], by key. *)
Definition sorted_entries (m : gmap string string) : list (string * string) :=
  sort_by (fun a b => str_leb (fst a) (fst b)) (map_to_list m).

Definition identity_env (identity : AttemptAuthority) : list (string * string) :=
  [("DISPATCH_JOB_ID", aa_job_id identity);
   ("DISPATCH_ATTEMPT_ID", aa_attempt_id identity);
   ("DISPATCH_WORKER_ID", aa_worker_id identity);
   ("DISPATCH_SESSION_ID", aa_session_id identity);
   ("DISPATCH_GENERATION", pretty (aa_generation identity))]%string.

Definition container_env (identity : AttemptAuthority) (s : JobSettings) : list string :=
  map (fun '(k, v) => env_entry k v) (sorted_entries (js_env s) ++ identity_env identity).

Definition workspace_mount (w : PreparedWorkspace) (name : string) : Mount :=
  {| mo_target := Some (String "/" name); mo_source := Some (path_join (pw_root w) name);
     mo_typ := Some BIND; mo_read_only := Some (bool_decide (name = "inputs"%string)) |}.

Definition input_mount (i : InputMount) : Mount :=
  {| mo_target := Some (mt_target i); mo_source := Some (mt_source i); mo_typ := Some BIND;
     mo_read_only := Some true |}.

Definition container_mounts (w : PreparedWorkspace) : list Mount :=
  map (workspace_mount w) ["inputs"; "outputs"; "scratch"]%string ++ map input_mount (pw_inputs w).

(** [u64 as i64]. *)
Definition i64_of_u64 (x : N) : Z :=
  if x <=? I64_MAX then Z.of_N x else (Z.of_N x - 18446744073709551616)%Z.

Definition u64_mul (a b : N) : N := wrap64 (a * b).

Definition cpu_period (cpu_millis : N) : N := if cpu_millis <? 10 then 1000000 else 100000.

Definition host_config (s : JobSettings) (w : PreparedWorkspace) : HostConfig :=
  let period := cpu_period (jr_cpu_millis (js_resources s)) in
  let memory := i64_of_u64 (shl20 (jr_memory_mib (js_resources s))) in
  let temporary := Z.min (Z.quot memory 4) 67108864 in
  {| hc_privileged := Some false; hc_readonly_rootfs := Some true;
     hc_network_mode := Some "none"%string; hc_cap_drop := Some ["ALL"%string];
     hc_security_opt := Some ["no-new-privileges:true"%string];
     hc_memory := Some memory; hc_memory_swap := Some memory;
     hc_cpu_period := Some (i64_of_u64 period);
     hc_cpu_quota := Some (i64_of_u64 (u64_mul (jr_cpu_millis (js_resources s)) period / 1000));
     hc_pids_limit := Some 256%Z; hc_init := Some true; hc_auto_remove := Some false;
     hc_restart_policy := Some {| rp_name := Some RestartNo; rp_maximum_retry_count := Some 0%Z |};
     hc_mounts := Some (container_mounts w);
     hc_tmpfs := Some {["/tmp"%string :=
       "rw,nosuid,nodev,noexec,size=" +:+ pretty temporary +:+ ",mode=1777"]};
     hc_shm_size := Some temporary;
     hc_log_config := Some {| lc_typ := Some "json-file"%string;
       lc_config := Some (list_to_map [("max-size", "8m"); ("max-file", "2")]%string) |};
     hc_binds := None; hc_volumes_from := None; hc_cap_add := None; hc_devices := None;
     hc_device_requests := None; hc_pid_mode := None; hc_userns_mode := None; hc_ipc_mode := None |}.

Definition build (identity : AttemptAuthority) (x : ExecutionSpec) (w : PreparedWorkspace)
  : result RuntimeError.t ContainerCreateBody :=
  if (aa_generation identity =? 0) || (I64_MAX <? aa_generation identity)
     || existsb (fun s => negb (canonical_uuid s))
          [aa_worker_id identity; aa_session_id identity; aa_job_id identity; aa_attempt_id identity]
  then Err RuntimeError.Identity
  else
    let s := job_spec (es_job x) in
    if negb (len (js_inputs s) =? len (pw_inputs w))
       || existsb (fun '(requested, prepared) =>
            negb (bool_decide (in_mount_path requested = mt_target prepared)))
            (zip (js_inputs s) (pw_inputs w))
    then Err RuntimeError.Configuration
    else
      Ok {| cb_config :=
              {| cc_image := Some (js_image s); cc_user := Some "65532:65532"%string;
                 cc_entrypoint := Some (js_command s); cc_cmd := Some (js_args s);
                 cc_env := Some (container_env identity s);
                 cc_working_dir := Some "/scratch"%string; cc_network_disabled := Some true;
                 cc_tty := Some false; cc_open_stdin := Some false;
                 cc_labels := Some (identity_labels identity x w);
                 cc_stop_signal := Some "SIGTERM"%string;
                 cc_stop_timeout := Some (i64_of_u64 (js_termination_grace_seconds s));
                 cc_healthcheck := Some (Some ["NONE"%string]) |};
            cb_host_config := Some (host_config s w) |}.

(** * What the daemon reports *)

Definition set_nonempty {A : Type} (o : option (list A)) : bool :=
  match o with
  | Some (_ :: _) => true
  | _ => false
  end.

Definition set_nonempty_str (o : option string) : bool :=
  match o with
  | Some s => negb (is_empty_str s)
  | None => false
  end.

Definition verify_identity (actual : ContainerInspect) (expected : ContainerCreateBody)
  (image_id : string) : result RuntimeError.t unit :=
  let? labels := ok_or (c ← ci_config actual; cc_labels c) RuntimeError.Identity in
  if negb (bool_decide (ci_image actual = Some image_id))
     || existsb (fun '(k, v) => negb (bool_decide (labels !! k = Some v)))
          (map_to_list (default ∅ (cc_labels (cb_config expected))))
  then Err RuntimeError.Identity
  else Ok tt.

Definition config_differs (c expected : ContainerConfig) (env : list string) : bool :=
  negb (bool_decide (cc_user c = cc_user expected))
  || negb (bool_decide (cc_entrypoint c = cc_entrypoint expected))
  || negb (bool_decide (default [] (cc_cmd c) = default [] (cc_cmd expected)))
  || negb (bool_decide (cc_working_dir c = cc_working_dir expected))
  || negb (bool_decide (cc_tty c = Some false))
  || existsb (fun v => negb (bool_decide (v ∈ env))) (default [] (cc_env expected))
  || negb (bool_decide (mjoin (cc_healthcheck c) = mjoin (cc_healthcheck expected))).

Definition host_differs (h e : HostConfig) : bool :=
  negb (bool_decide (hc_privileged h = Some false))
  || negb (bool_decide (hc_readonly_rootfs h = Some true))
  || negb (bool_decide (hc_network_mode h = hc_network_mode e))
  || negb (bool_decide (hc_cap_drop h = hc_cap_drop e))
  || negb (bool_decide (hc_security_opt h = hc_security_opt e))
  || negb (bool_decide (hc_memory h = hc_memory e))
  || negb (bool_decide (hc_memory_swap h = hc_memory_swap e))
  || negb (bool_decide (hc_cpu_period h = hc_cpu_period e))
  || negb (bool_decide (hc_cpu_quota h = hc_cpu_quota e))
  || negb (bool_decide (hc_pids_limit h = hc_pids_limit e))
  || negb (bool_decide (hc_init h = hc_init e))
  || negb (bool_decide (hc_auto_remove h = Some false))
  || negb (bool_decide ((p ← hc_restart_policy h; rp_name p) = Some RestartNo))
  || negb (bool_decide (hc_tmpfs h = hc_tmpfs e))
  || negb (bool_decide (hc_shm_size h = hc_shm_size e))
  || negb (bool_decide (hc_log_config h = hc_log_config e))
  || set_nonempty (hc_binds h)
  || set_nonempty (hc_volumes_from h)
  || set_nonempty (hc_cap_add h)
  || set_nonempty (hc_devices h)
  || set_nonempty (hc_device_requests h)
  || set_nonempty_str (hc_pid_mode h)
  || set_nonempty_str (hc_userns_mode h)
  || match hc_ipc_mode h with
     | Some v => negb (bool_decide (v ∈ ["private"; EmptyString]%string))
     | None => false
     end.

Definition same_mount (m expected : Mount) : bool :=
  bool_decide (mo_target m = mo_target expected)
  && bool_decide (mo_source m = mo_source expected)
  && bool_decide (mo_typ m = mo_typ expected)
  && Bool.eqb (default false (mo_read_only m)) (default false (mo_read_only expected)).

Definition verify (actual : ContainerInspect) (expected : ContainerCreateBody) (image_id : string)
  : result RuntimeError.t unit :=
  let? _ := verify_identity actual expected image_id in
  let? c := ok_or (ci_config actual) RuntimeError.Identity in
  let? h := ok_or (ci_host_config actual) RuntimeError.Identity in
  let? e := ok_or (cb_host_config expected) RuntimeError.Identity in
  let? env := ok_or (cc_env c) RuntimeError.Identity in
  if config_differs c (cb_config expected) env || host_differs h e then Err RuntimeError.Identity
  else
    let? mounts := ok_or (hc_mounts h) RuntimeError.Identity in
    let wanted := default [] (hc_mounts e) in
    if negb (len mounts =? len wanted)
       || existsb (fun expected => negb (existsb (fun m => same_mount m expected) mounts)) wanted
    then Err RuntimeError.Identity
    else Ok tt.

(** * Lemmas *)

Lemma i64_of_u64_small (x : N) : x <= I64_MAX -> i64_of_u64 x = Z.of_N x.
Proof. intros H. unfold i64_of_u64. by destruct (N.leb_spec x I64_MAX); [|lia]. Qed.

Lemma validate_cpu (job : Job) :
  validate job = Ok tt -> 1 <= jr_cpu_millis (js_resources (job_spec job)) <= 1024000.
Proof.
  unfold validate. destruct (_ || _) eqn:Hguard; [done|]. intros _.
  rewrite !orb_false_iff, !negb_false_iff, !in_range_spec in Hguard. destruct_and! Hguard. done.
Qed.

Lemma validate_env (job : Job) (k v : string) :
  validate job = Ok tt -> js_env (job_spec job) !! k = Some v -> identifier k true = true.
Proof.
  unfold validate. destruct (_ || _) eqn:Hguard; [done|]. intros _ Hk.
  rewrite !orb_false_iff, !negb_false_iff in Hguard. destruct_and! Hguard.
  match goal with H : valid_map (js_env _) true = true |- _ => rename H into Hm end.
  apply andb_true_iff in Hm as [_ Hm]. rewrite forallb_forall in Hm.
  apply elem_of_map_to_list, list_elem_of_In, Hm in Hk.
  by rewrite !andb_true_iff in Hk; destruct_and! Hk.
Qed.

(** The quota is exactly the reserved share of the period, and at least the
    kernel's minimum of one millisecond. *)
Lemma cpu_quota_exact (cpu : N) :
  1 <= cpu <= 1024000 ->
  u64_mul cpu (cpu_period cpu) / 1000 * 1000 = cpu * cpu_period cpu
  /\ 1000 <= u64_mul cpu (cpu_period cpu) / 1000
  /\ u64_mul cpu (cpu_period cpu) / 1000 <= I64_MAX /\ cpu_period cpu <= I64_MAX.
Proof.
  intros H. unfold u64_mul, cpu_period, I64_MAX. destruct (N.ltb_spec cpu 10);
    rewrite wrap64_small by (unfold U64_MAX; lia).
  - replace (cpu * 1000000) with (cpu * 1000 * 1000) by lia. rewrite N.div_mul by lia. lia.
  - replace (cpu * 100000) with (cpu * 100 * 1000) by lia. rewrite N.div_mul by lia. lia.
Qed.

(** ** Mounts *)

Lemma existsb_false {A : Type} (f : A -> bool) (l : list A) (x : A) :
  existsb f l = false -> x ∈ l -> f x = false.
Proof.
  intros H Hx. apply not_true_iff_false. intros Hf. apply not_true_iff_false in H. apply H.
  apply existsb_exists. exists x. by rewrite <- list_elem_of_In.
Qed.

Lemma same_mount_spec (m e : Mount) :
  same_mount m e = true <->
  mo_target m = mo_target e /\ mo_source m = mo_source e /\ mo_typ m = mo_typ e
  /\ default false (mo_read_only m) = default false (mo_read_only e).
Proof. unfold same_mount. bools. rewrite Bool.eqb_true_iff. naive_solver. Qed.

(** As many mounts as wanted, each wanted one present, and no target wanted
    twice: then there is no other mount. *)
Lemma only_wanted_mounts (mounts wanted : list Mount) :
  NoDup (mo_target <$> wanted) -> length mounts = length wanted ->
  (forall e, e ∈ wanted -> exists m, m ∈ mounts /\ same_mount m e = true) ->
  forall m, m ∈ mounts -> exists e, e ∈ wanted /\ same_mount m e = true.
Proof.
  intros Hnd Hlen Hall m Hm.
  assert (Hperm : mo_target <$> wanted ≡ₚ mo_target <$> mounts).
  { apply NoDup_Permutation_bis.
    - by apply NoDup_ListNoDup.
    - rewrite !length_fmap. lia.
    - intros t Ht. rewrite <- list_elem_of_In in *. apply list_elem_of_fmap in Ht as (e & -> & He).
      destruct (Hall e He) as (n & Hn & Hs). apply same_mount_spec in Hs as (<- & _).
      by apply list_elem_of_fmap_2. }
  assert (Ht : mo_target m ∈ mo_target <$> wanted)
    by (rewrite Hperm; by apply list_elem_of_fmap_2).
  apply list_elem_of_fmap in Ht as (e & Hme & He). exists e. split; [done|].
  destruct (Hall e He) as (n & Hn & Hs). rewrite Hperm in Hnd.
  assert (n = m) as ->; [|done].
  apply list_elem_of_lookup in Hn as [i Hi]. apply list_elem_of_lookup in Hm as [j Hj].
  assert (i = j); [|congruence].
  apply (NoDup_lookup (mo_target <$> mounts) i j (mo_target e)); [done| |].
  - rewrite list_lookup_fmap, Hi. simpl. by apply same_mount_spec in Hs as (-> & _).
  - rewrite list_lookup_fmap, Hj. simpl. by rewrite Hme.
Qed.

(** The inputs of a validated job are mounted at distinct places below
    [/inputs]. *)
Lemma validated_inputs (job : Job) :
  validate job = Ok tt ->
  NoDup (in_mount_path <$> js_inputs (job_spec job))
  /\ forall i, i ∈ js_inputs (job_spec job) -> exists parts,
       split_on "/" (in_mount_path i) = EmptyString :: "inputs"%string :: parts /\ parts <> [].
Proof.
  intros H. apply validate_loops in H as (_ & _ & H). pose proof (check_each_spec _ _ _ H) as Hin.
  unfold bad_input in Hin. simpl in Hin. split.
  - apply NoDup_alt. intros i j p Hi Hj. rewrite list_lookup_fmap in Hi, Hj.
    destruct (js_inputs _ !! i) as [a|] eqn:Ha; [|done].
    destruct (js_inputs _ !! j) as [b|] eqn:Hb; [|done]. simpl in Hi, Hj. simplify_eq.
    assert (Hne : forall i j a b, js_inputs (job_spec job) !! i = Some a ->
      js_inputs (job_spec job) !! j = Some b -> (i < j)%nat -> in_mount_path a <> in_mount_path b).
    { intros i' j' a' b' Ha' Hb' Hlt Heq. apply Hin in Hb'. rewrite !orb_false_iff in Hb'.
      destruct Hb' as [_ Hb']. apply (existsb_take _ _ _ _ _ Hb' Ha') in Hlt.
      apply overlaps_false in Hlt as [Hlt _]. apply Hlt. rewrite Heq. reflexivity. }
    destruct (Nat.lt_trichotomy i j) as [Hlt|[Heq|Hlt]]; [|done|].
    + by destruct (Hne i j a b Ha Hb Hlt).
    + by destruct (Hne j i b a Hb Ha Hlt).
  - intros i Hi. apply list_elem_of_lookup in Hi as [n Hn]. apply Hin in Hn.
    rewrite !orb_false_iff, !negb_false_iff in Hn. destruct Hn as [[_ Hp] _].
    apply (path_under_parts "inputs") in Hp as (parts & ? & ? & _); [|done]. by exists parts.
Qed.

Lemma build_targets (identity : AttemptAuthority) (x : ExecutionSpec) (w : PreparedWorkspace)
  (b : ContainerCreateBody) :
  build identity x w = Ok b ->
  mt_target <$> pw_inputs w = in_mount_path <$> js_inputs (job_spec (es_job x)).
Proof.
  unfold build. intros H. guards.
  match goal with H : _ || existsb _ (zip _ _) = false |- _ => apply orb_false_iff in H as [Hl Hz] end.
  rewrite negb_false_iff, N.eqb_eq in Hl. unfold len in Hl. clear H.
  revert Hz Hl. generalize (js_inputs (job_spec (es_job x))) as ins. generalize (pw_inputs w) as ms.
  intros ms ins. revert ins. induction ms as [|m ms IH]; intros [|i ins] Hz Hl; try done.
  simpl in Hz. apply orb_false_iff in Hz as [Hi Hz]. rewrite bool_decide_negb_false in Hi.
  rewrite !fmap_cons. f_equal; [done|]. apply IH; [done|]. simpl in Hl. lia.
Qed.

Lemma container_targets_nodup (identity : AttemptAuthority) (x : ExecutionSpec)
  (w : PreparedWorkspace) (b : ContainerCreateBody) :
  validate (es_job x) = Ok tt -> build identity x w = Ok b ->
  NoDup (mo_target <$> container_mounts w).
Proof.
  intros Hv Hb. apply build_targets in Hb. destruct (validated_inputs _ Hv) as [Hnd Hparts].
  unfold container_mounts. rewrite fmap_app. apply NoDup_app. split_and!.
  - simpl. repeat constructor; set_solver.
  - intros t Ht Hi. rewrite <- list_fmap_compose in Hi. apply list_elem_of_fmap in Hi as (m & -> & Hm).
    cbn [compose input_mount mo_target] in Ht.
    assert (Hp : mt_target m ∈ in_mount_path <$> js_inputs (job_spec (es_job x)))
      by (rewrite <- Hb; by apply list_elem_of_fmap_2).
    apply list_elem_of_fmap in Hp as (i & Hmi & Hi). destruct (Hparts i Hi) as (parts & Hs & Hne).
    rewrite Hmi in Ht. simpl in Ht. rewrite !elem_of_cons in Ht.
    destruct Ht as [Ht|[Ht|[Ht|Ht]]]; [injection Ht as Ht; rewrite Ht in Hs; vm_compute in Hs; congruence..|set_solver].
  - rewrite <- list_fmap_compose. rewrite <- Hb in Hnd.
    replace (mo_target ∘ input_mount) with (Some ∘ mt_target) by done.
    rewrite list_fmap_compose. by apply NoDup_fmap_2; [apply _|].
Qed.

(** ** The environment *)

Lemma identifier_env (k : string) :
  identifier k true = true -> contains "=" k = false /\ starts_with "DISPATCH_" k = false.
Proof.
  unfold identifier. destruct (is_empty_str k || _); [done|].
  destruct (str_bytes k) as [|b l] eqn:Hb; [done|]. rewrite !andb_true_iff, negb_true_iff.
  intros [[_ Hf] Hd]. split; [|done]. rewrite <- Hb in Hf.
  by apply (forallb_bytes_contains env_byte).
Qed.

Lemma env_entry_key (k v : string) :
  contains "=" k = false -> head (split_on "=" (env_entry k v)) = Some k.
Proof.
  intros Hk. unfold env_entry. change ("=" +:+ v) with (String "=" v). by rewrite split_on_app.
Qed.

Lemma sorted_entries_elem (m : gmap string string) (e : string * string) :
  e ∈ sorted_entries m <-> m !! fst e = Some (snd e).
Proof.
  unfold sorted_entries. rewrite sort_by_Permutation. destruct e as [k v]. apply elem_of_map_to_list.
Qed.

(** A job cannot set the variables that name its attempt. *)
Lemma identity_variables_are_authentic (identity : AttemptAuthority) (job : Job)
  (k v entry : string) :
  validate job = Ok tt -> (k, v) ∈ identity_env identity ->
  entry ∈ container_env identity (job_spec job) -> starts_with (k +:+ "=") entry = true ->
  entry = env_entry k v.
Proof.
  intros Hv Hkv Hin Hst.
  assert (Hk : contains "=" k = false /\ starts_with "DISPATCH_" k = true).
  { unfold identity_env in Hkv. rewrite !elem_of_cons in Hkv.
    destruct Hkv as [H|[H|[H|[H|[H|H]]]]]; [injection H as -> _; by vm_compute..|set_solver]. }
  destruct Hk as [Hk Hd].
  assert (Hhead : head (split_on "=" entry) = Some k).
  { unfold starts_with in Hst. destruct (strip_prefix _ entry) as [rest|] eqn:Hr; [|done].
    apply strip_prefix_Some in Hr as ->. rewrite append_assoc_str.
    change ("=" +:+ rest) with (String "=" rest). by rewrite split_on_app. }
  unfold container_env in Hin. apply list_elem_of_fmap in Hin as ([k' v'] & -> & Hin).
  apply elem_of_app in Hin as [Hin|Hin].
  - apply sorted_entries_elem, (validate_env _ _ _ Hv), identifier_env in Hin as [He Hn].
    cbn [fst] in He, Hn. rewrite env_entry_key in Hhead by done. congruence.
  - assert (Hk' : contains "=" k' = false).
    { unfold identity_env in Hin. rewrite !elem_of_cons in Hin.
      destruct Hin as [H|[H|[H|[H|[H|H]]]]]; [injection H as -> _; by vm_compute..|set_solver]. }
    rewrite env_entry_key in Hhead by done. injection Hhead as ->. f_equal.
    unfold identity_env in Hkv, Hin. rewrite !elem_of_cons, elem_of_nil in Hkv, Hin.
    naive_solver.
Qed.

Lemma build_Ok (identity : AttemptAuthority) (x : ExecutionSpec) (w : PreparedWorkspace)
  (b : ContainerCreateBody) :
  build identity x w = Ok b ->
  cb_host_config b = Some (host_config (job_spec (es_job x)) w)
  /\ cc_env (cb_config b) = Some (container_env identity (job_spec (es_job x)))
  /\ cc_labels (cb_config b) = Some (identity_labels identity x w)
  /\ cc_tty (cb_config b) = Some false.
Proof. unfold build. intros H. guards. by subst. Qed.

(** What an accepted report establishes, field by field. *)
Lemma verify_Ok (actual : ContainerInspect) (b : ContainerCreateBody) (image : string) (e : HostConfig) :
  verify actual b image = Ok tt -> cb_host_config b = Some e ->
  exists c h env mounts,
    ci_image actual = Some image /\ ci_config actual = Some c /\ ci_host_config actual = Some h
    /\ cc_env c = Some env /\ hc_mounts h = Some mounts
    /\ config_differs c (cb_config b) env = false /\ host_differs h e = false
    /\ length mounts = length (default [] (hc_mounts e))
    /\ (forall m, m ∈ default [] (hc_mounts e) -> exists n, n ∈ mounts /\ same_mount n m = true)
    /\ (forall k v, default ∅ (cc_labels (cb_config b)) !! k = Some v ->
          default ∅ (cc_labels c) !! k = Some v).
Proof.
  unfold verify. intros H He. apply rbind_Ok_inv in H as (u & Hid & H). rewrite He in H. guards.
  repeat match goal with H : _ || _ = false |- _ => apply orb_false_iff in H as [? ?] end.
  match goal with H : Some e = Some _ |- _ => injection H as <- end.
  match goal with H : ci_config actual = Some ?c |- _ => exists c end.
  match goal with H : ci_host_config actual = Some ?h |- _ => exists h end.
  do 2 eexists. split_and!; try done.
  - unfold verify_identity in Hid. guards.
    match goal with H : _ || _ = false |- _ => apply orb_false_iff in H as [Hi _] end.
    by rewrite bool_decide_negb_false in Hi.
  - match goal with H : negb (len _ =? len _) = false |- _ =>
      rewrite negb_false_iff, N.eqb_eq in H; unfold len in H end. lia.
  - intros m Hm. match goal with H : existsb _ (default [] _) = false |- _ =>
      apply (existsb_false _ _ _ H) in Hm end.
    apply negb_false_iff, existsb_exists in Hm as (n & Hn & Hs). exists n.
    by rewrite list_elem_of_In.
  - intros k v Hk. unfold verify_identity in Hid. guards.
    repeat match goal with H : _ || _ = false |- _ => apply orb_false_iff in H as [? ?] end.
    match goal with H : existsb _ (map_to_list _) = false |- _ => rename H into Hl end.
    apply elem_of_map_to_list, (existsb_false _ _ _ Hl) in Hk. rewrite bool_decide_negb_false in Hk.
    repeat match goal with H : mbind _ _ = Some _ |- _ => apply bind_Some in H as (? & ? & ?) end.
    simplify_eq. by match goal with H : cc_labels _ = Some _ |- _ => rewrite H end.
Qed.

(** * Properties *)

(** What isolates a container, in the terms of the daemon. *)
Record isolated (h : HostConfig) : Prop := {
  iso_unprivileged : hc_privileged h = Some false /\ hc_readonly_rootfs h = Some true
    /\ hc_security_opt h = Some ["no-new-privileges:true"%string];
  iso_network : hc_network_mode h = Some "none"%string;
  iso_capabilities : hc_cap_drop h = Some ["ALL"%string] /\ default [] (hc_cap_add h) = [];
  iso_devices : default [] (hc_devices h) = [] /\ default [] (hc_device_requests h) = [];
  iso_volumes : default [] (hc_binds h) = [] /\ default [] (hc_volumes_from h) = [];
  iso_namespaces : default EmptyString (hc_pid_mode h) = EmptyString
    /\ default EmptyString (hc_userns_mode h) = EmptyString
    /\ default EmptyString (hc_ipc_mode h) ∈ ["private"; EmptyString]%string;
  iso_lifetime : hc_pids_limit h = Some 256%Z /\ hc_init h = Some true /\ hc_auto_remove h = Some false
    /\ (p ← hc_restart_policy h; rp_name p) = Some RestartNo;
  iso_temporary : exists size, hc_shm_size h = Some size /\ (0 <= size <= 67108864)%Z
    /\ hc_tmpfs h = Some {["/tmp"%string := "rw,nosuid,nodev,noexec,size=" +:+ pretty size +:+ ",mode=1777"]};
  iso_logs : exists log, hc_log_config h = Some log /\ lc_typ log = Some "json-file"%string
    /\ lc_config log = Some (list_to_map [("max-size", "8m"); ("max-file", "2")]%string);
}.

(** The memory and CPU of the reservation, and no swap beyond it. *)
Record within_reservation (r : JobResources) (h : HostConfig) : Prop := {
  res_memory : hc_memory h = Some (Z.of_N (jr_memory_mib r * 1048576)) /\ hc_memory_swap h = hc_memory h;
  res_cpu : exists quota period, hc_cpu_quota h = Some quota /\ hc_cpu_period h = Some period
    /\ (quota * 1000 = Z.of_N (jr_cpu_millis r) * period)%Z /\ (1000 <= quota)%Z;
}.

(** The job's command, as an unprivileged user, for the attempt. *)
Record runs_the_job (identity : AttemptAuthority) (x : ExecutionSpec) (w : PreparedWorkspace)
  (c : ContainerConfig) (env : list string) : Prop := {
  job_user : cc_user c = Some "65532:65532"%string /\ cc_working_dir c = Some "/scratch"%string
    /\ cc_tty c = Some false /\ mjoin (cc_healthcheck c) = Some ["NONE"%string];
  job_command : cc_entrypoint c = Some (js_command (job_spec (es_job x)))
    /\ default [] (cc_cmd c) = js_args (job_spec (es_job x));
  job_labels : forall k v, identity_labels identity x w !! k = Some v -> default ∅ (cc_labels c) !! k = Some v;
  job_env : forall k v, js_env (job_spec (es_job x)) !! k = Some v \/ (k, v) ∈ identity_env identity ->
    env_entry k v ∈ env;
}.

(** A directory of the workspace, or an input, which is read-only. *)
Definition own_mount (w : PreparedWorkspace) (m : Mount) : Prop :=
  mo_typ m = Some BIND
  /\ ((exists name, name ∈ ["inputs"; "outputs"; "scratch"]%string /\ mo_target m = Some (String "/" name)
         /\ mo_source m = Some (path_join (pw_root w) name)
         /\ (name = "inputs"%string -> default false (mo_read_only m) = true))
      \/ exists i, i ∈ pw_inputs w /\ mo_target m = Some (mt_target i) /\ mo_source m = Some (mt_source i)
         /\ default false (mo_read_only m) = true).

Lemma nothing_set {A : Type} (o : option (list A)) : set_nonempty o = false -> default [] o = [].
Proof. by destruct o as [[|]|]. Qed.

Lemma no_string_set (o : option string) : set_nonempty_str o = false -> default EmptyString o = EmptyString.
Proof. by destruct o as [[|]|]. Qed.

Lemma host_isolated (j : JobSettings) (w : PreparedWorkspace) (h : HostConfig) :
  (0 <= i64_of_u64 (shl20 (jr_memory_mib (js_resources j))))%Z ->
  host_differs h (host_config j w) = false -> isolated h.
Proof.
  intros Hm Hd. unfold host_differs in Hd. rewrite !orb_false_iff, !bool_decide_negb_false in Hd.
  destruct_and! Hd. cbn [host_config hc_network_mode hc_cap_drop hc_security_opt hc_pids_limit hc_init hc_tmpfs
    hc_shm_size hc_log_config] in *.
  split; split_and?; try done; try by apply nothing_set. all: try by apply no_string_set.
  - match goal with H : match hc_ipc_mode h with _ => _ end = false |- _ => revert H end.
    destruct (hc_ipc_mode h) as [v|]; cbn [default]; [|intros _; set_solver]. by rewrite bool_decide_negb_false.
  - eexists. split_and!; [done| |by apply Z.le_min_r|done]. apply Z.min_glb; [by apply Z.quot_pos|done].
  - by eexists.
Qed.

Lemma host_within (j : Job) (w : PreparedWorkspace) (h : HostConfig) :
  validate j = Ok tt -> host_differs h (host_config (job_spec j) w) = false ->
  within_reservation (js_resources (job_spec j)) h.
Proof.
  intros Hv Hd. destruct (cpu_quota_exact _ (validate_cpu _ Hv)) as (Hq & Hq1 & Hq2 & Hp).
  unfold host_differs in Hd. rewrite !orb_false_iff, !bool_decide_negb_false in Hd. destruct_and! Hd.
  cbn [host_config hc_memory hc_memory_swap hc_cpu_quota hc_cpu_period] in *. split.
  - split; [|congruence]. match goal with H : hc_memory h = _ |- _ => rewrite H end.
    pose proof (validate_resources _ Hv) as [Hmem _].
    by rewrite shl20_small, i64_of_u64_small by (unfold I64_MAX; lia).
  - eexists _, _. split_and!; [done..| |]; rewrite !i64_of_u64_small by done; lia.
Qed.

Lemma config_runs (identity : AttemptAuthority) (x : ExecutionSpec) (w : PreparedWorkspace)
  (b : ContainerCreateBody) (c : ContainerConfig) (env : list string) :
  build identity x w = Ok b -> config_differs c (cb_config b) env = false ->
  (forall k v, default ∅ (cc_labels (cb_config b)) !! k = Some v -> default ∅ (cc_labels c) !! k = Some v) ->
  runs_the_job identity x w c env.
Proof.
  intros Hb Hd Hl. unfold build in Hb. guards. subst b. unfold config_differs in Hd. cbn [cb_config cc_user cc_entrypoint
    cc_cmd cc_working_dir cc_env cc_healthcheck cc_labels default] in Hd, Hl.
  rewrite !orb_false_iff, !bool_decide_negb_false in Hd. destruct_and! Hd. split; [done|done|done|].
  match goal with H : existsb _ (id (container_env _ _)) = false |- _ => rename H into Hex end.
  intros k v Hk. apply (existsb_false _ _ (env_entry k v)) in Hex; [by rewrite bool_decide_negb_false in Hex|].
  unfold container_env. apply list_elem_of_fmap. exists (k, v). split; [done|]. apply elem_of_app.
  destruct Hk as [Hk|Hk]; [left; by apply sorted_entries_elem|by right].
Qed.

Lemma own_mounts (w : PreparedWorkspace) (m e : Mount) :
  e ∈ container_mounts w -> same_mount m e = true -> own_mount w m.
Proof.
  intros He (Ht & Hs & Hy & Hro)%same_mount_spec. unfold own_mount. rewrite Ht, Hs, Hy, Hro.
  unfold container_mounts in He. apply elem_of_app in He as [He|He]; apply list_elem_of_fmap in He as (y & -> & Hy').
  - split; [done|left]. exists y. split_and!; try done. intros ->. done.
  - split; [done|right]. by exists y.
Qed.

(** C19: a container the worker accepts, whoever created it, runs isolated and
    within the reservation.  For a validated job, when the daemon's report
    passes [verify] against the configuration [build] made, the container is
    unprivileged with a read-only root, no network, no capability, no device, no
    namespace or volume of another; its memory and swap limits are the job's, its
    CPU quota is exactly the reserved share of its period; it runs the job's command
    and carries the attempt's labels and variables; and it has no mount beyond the
    workspace and the job's inputs, of which only [/outputs] and [/scratch] of this
    workspace are writable. *)
Theorem accepted_container_is_isolated (identity : AttemptAuthority) (x : ExecutionSpec)
  (w : PreparedWorkspace) (b : ContainerCreateBody) (actual : ContainerInspect) (image : string) :
  validate (es_job x) = Ok tt -> build identity x w = Ok b -> verify actual b image = Ok tt ->
  exists c h env mounts,
    ci_image actual = Some image /\ ci_config actual = Some c /\ ci_host_config actual = Some h
    /\ cc_env c = Some env /\ hc_mounts h = Some mounts
    /\ isolated h /\ within_reservation (js_resources (job_spec (es_job x))) h
    /\ runs_the_job identity x w c env
    /\ forall m, m ∈ mounts -> own_mount w m.
Proof.
  intros Hv Hb Hver. destruct (build_Ok _ _ _ _ Hb) as (Hh & Hcfg).
  destruct (verify_Ok _ _ _ _ Hver Hh) as (c & h & env & mounts & Hi & Hc & Hhc & Henv & Hm & Hcd & Hhd
    & Hlen & Hall & Hlab).
  pose proof (only_wanted_mounts mounts (container_mounts w)
    (container_targets_nodup _ _ _ _ Hv Hb) Hlen Hall) as Hmounts.
  exists c, h, env, mounts. split_and!; try done.
  - eapply host_isolated; [|done]. pose proof (validate_resources _ Hv) as [Hmem _].
    rewrite shl20_small, i64_of_u64_small by (unfold I64_MAX; lia). lia.
  - by eapply host_within.
  - by eapply config_runs.
  - intros m Hin. destruct (Hmounts m Hin) as (e & He & Hs). by eapply own_mounts.
Qed.

(** What a daemon that applies a configuration reports of it. *)
Definition reported (image : string) (b : ContainerCreateBody) : ContainerInspect :=
  {| ci_image := Some image; ci_config := Some (cb_config b); ci_host_config := cb_host_config b |}.

Lemma existsb_all_false {A : Type} (f : A -> bool) (l : list A) :
  (forall x, x ∈ l -> f x = false) -> existsb f l = false.
Proof.
  intros H. apply not_true_iff_false. intros He. apply existsb_exists in He as (y & Hy & Hf).
  rewrite <- list_elem_of_In in Hy. apply H in Hy. congruence.
Qed.

(** The worker accepts its own containers.  What [build] asks for passes
    [verify] when the daemon reports it unchanged, so that an attempt is never
    rejected for its own configuration. *)
Theorem built_container_is_accepted (identity : AttemptAuthority) (x : ExecutionSpec)
  (w : PreparedWorkspace) (b : ContainerCreateBody) (image : string) :
  build identity x w = Ok b -> verify (reported image b) b image = Ok tt.
Proof.
  intros Hb. destruct (build_Ok _ _ _ _ Hb) as (Hh & He & Hl & Ht).
  unfold verify, verify_identity, reported.
  cbn [ci_config ci_image ci_host_config mbind option_bind ok_or rbind].
  rewrite Hl, Hh, He. cbn [ok_or rbind default].
  rewrite bool_decide_true by done. cbn [negb orb].
  rewrite (existsb_all_false _ (map_to_list _)).
  2: { intros [k v] Hk. apply elem_of_map_to_list in Hk. by rewrite bool_decide_true. }
  cbn [rbind]. unfold config_differs, host_differs. rewrite He, Ht. cbn [default id].
  rewrite (existsb_all_false _ (container_env _ _)).
  2: { intros v Hin. by rewrite bool_decide_true. }
  cbn [host_config hc_privileged hc_readonly_rootfs hc_auto_remove hc_restart_policy mbind option_bind
    rp_name]. rewrite !bool_decide_true by done.
  cbn [negb orb set_nonempty set_nonempty_str hc_binds hc_volumes_from hc_cap_add hc_devices
    hc_device_requests hc_pid_mode hc_userns_mode hc_ipc_mode host_config hc_mounts ok_or rbind default id].
  rewrite N.eqb_refl. cbn [negb orb]. rewrite existsb_all_false; [done|].
  intros m Hm. apply negb_false_iff, existsb_exists. exists m. rewrite <- list_elem_of_In.
  split; [done|]. by apply same_mount_spec.
Qed.

(** ** Witnesses *)

Definition workspace_fixture : PreparedWorkspace :=
  {| pw_root := "/var/lib/dispatch/00000000-0000-0000-0000-000000000005";
     pw_inputs := [{| mt_target := "/inputs/train"; mt_source := "/cache/a" |};
                   {| mt_target := "/inputs/train2"; mt_source := "/cache/b" |}];
     pw_quota := None |}.

Definition attempt_identity : AttemptAuthority :=
  {| aa_job_id := "00000000-0000-0000-0000-000000000004";
     aa_attempt_id := "00000000-0000-0000-0000-000000000005"; aa_generation := 1;
     aa_worker_id := "00000000-0000-0000-0000-000000000001";
     aa_session_id := "00000000-0000-0000-0000-000000000002" |}.

Definition built_fixture : ContainerCreateBody :=
  match build attempt_identity spec_fixture workspace_fixture with
  | Ok b => b
  | Err _ => {| cb_config := {| cc_image := None; cc_user := None; cc_entrypoint := None;
      cc_cmd := None; cc_env := None; cc_working_dir := None; cc_network_disabled := None;
      cc_tty := None; cc_open_stdin := None; cc_labels := None; cc_stop_signal := None;
      cc_stop_timeout := None; cc_healthcheck := None |}; cb_host_config := None |}
  end.

Lemma accepted_container_is_isolated_witness :
  exists h, ci_host_config (reported "sha256:1" built_fixture) = Some h
    /\ hc_network_mode h = Some "none"%string.
Proof.
  destruct (accepted_container_is_isolated attempt_identity spec_fixture workspace_fixture
    built_fixture (reported "sha256:1" built_fixture) "sha256:1"
    ltac:(vm_compute; reflexivity) ltac:(vm_compute; reflexivity) ltac:(vm_compute; reflexivity))
    as (c & h & env & mounts & _ & _ & Hh & _ & _ & Hiso & _).
  exists h. split; [exact Hh|apply Hiso].
Defined.

Lemma built_container_is_accepted_witness :
  verify (reported "sha256:1" built_fixture) built_fixture "sha256:1" = Ok tt.
Proof.
  apply (built_container_is_accepted attempt_identity spec_fixture workspace_fixture).
  vm_compute. reflexivity.
Defined.
