(* ===== verification/DatasetStage.v ===== *)
(** Download, verification and publication of a dataset archive
    ([rust/worker/src/dataset_download.rs], [dataset_staging.rs] and
    [dataset_prepare.rs]).

    The [tar] crate is the parameter [untar]: the entries it reads from the bytes
    of an archive.  The answers of the file system and of the HTTP transfer are
    arguments.  An archive or a tree is published at one path, and the state is
    what that path holds. *)

From S2P Require Import Prelude Strings Os Protocol Lease Control Uploads Execution Net DatasetInputs.
From S2P Require Import RuntimeConfig.
Open Scope N_scope.

(** The files of a published tree, with their paths below it. *)
Abbreviation tree := (list (string * bytes)).

Definition COPY_BUFFER : N := 32768.

(** * Transfer *)

Record download_io := {
  dw_wall : option N;
  dw_parent : result ErrorKind Lstat;
  dw_euid : N;
  dw_exists : bool;
  dw_nonce : bool;
  dw_create : io;
  dw_wall_again : option N;
  dw_elapsed : bool;
  dw_status : result unit N;
  dw_content_length : option N;
  dw_chunks : list (result unit bytes);
  dw_write : nat -> io;
  dw_sync : io;
  dw_chmod : io;
  dw_rename : io;
  dw_dirsync : io;
}.

(** A worker-owned private directory. *)
Definition private_parent (euid : N) (l : Lstat) : bool :=
  plain_dir l && (N.land (mode (ls_meta l)) 63 =? 0) && (uid (ls_meta l) =? euid).

Section Transfer.
Context (sha256 : bytes -> bytes).
Context (parse_url : string -> option Url).

(** The loop over the chunks of the response: the bytes hashed and written. *)
Fixpoint receive (write : nat -> io) (size : N) (i : nat) (chunks : list (result unit bytes))
  (received : bytes) : result DownloadError bytes :=
  match chunks with
  | [] => Ok received
  | chunk :: chunks' =>
      let? chunk := map_err (fun _ => Transport) chunk in
      match u64_checked_add (len received) (len chunk) with
      | Some total =>
          if total <=? size then
            let? _ := map_err (fun _ => FileError) (write i) in
            receive write size (S i) chunks' (received ++ chunk)
          else Err Integrity
      | None => Err Integrity
      end
  end.

Definition wrong_length (io : download_io) (object : ObjectVersion) : bool :=
  match dw_content_length io with
  | Some length => negb (length =? ov_size_bytes object)
  | None => false
  end.

Definition transfer (io : download_io) (object : ObjectVersion) : result DownloadError bytes :=
  let? status := map_err (fun _ => Transport) (dw_status io) in
  if negb (status =? 200) then Err Transport
  else if wrong_length io object then Err Integrity
  else
    let? body := receive (dw_write io) (ov_size_bytes object) 0 (dw_chunks io) [] in
    if negb (len body =? ov_size_bytes object) || negb (bool_decide (hex (sha256 body) = ov_sha256 object))
    then Err Integrity
    else
      let? _ := map_err (fun _ => FileError) (dw_sync io) in
      Ok body.

(** [download]: the archive path holds the bytes once the rename is made. *)
Definition download (io : download_io) (d : DatasetDownloader) (object : ObjectVersion) (url : string)
  (expires_unix_ms : Z) : st (option bytes) DownloadError unit :=
  let! _ := st_lift (validate_download parse_url d object url expires_unix_ms (dw_wall io)) in
  let! parent := st_lift (map_err (fun _ => FileError) (dw_parent io)) in
  if negb (private_parent (dw_euid io) parent) then st_lift (Err FileError)
  else if dw_exists io then st_lift (Err DownloadPublished)
  else if negb (dw_nonce io) then st_lift (Err FileError)
  else
    let! _ := st_lift (map_err (fun _ => FileError) (dw_create io)) in
    let! now := st_lift (ok_or (dw_wall_again io) Grant) in
    if Z.to_N expires_unix_ms <=? now then st_lift (Err Grant)
    else if dw_elapsed io then st_lift (Err Transport)
    else
      let! body := st_lift (transfer io object) in
      let! _ := st_lift (map_err (fun _ => FileError) (dw_chmod io)) in
      let! _ := st_lift (map_err (fun k => match k with Os.AlreadyExists => DownloadPublished | _ => FileError end)
                           (dw_rename io)) in
      let! _ := st_modify (fun _ => Some body) in
      st_lift (map_err (fun _ => FileError) (dw_dirsync io)).
End Transfer.

(** * Extraction *)

(** [tar::Entry]: [te_path] is [None] when the path is not UTF-8; each read
    delivers up to a buffer. *)
Record tar_entry := {
  te_path : result unit (option string);
  te_is_file : bool;
  te_size : N;
  te_reads : list (result unit bytes);
}.

Record entry_io := {
  ei_directories : io;
  ei_create : io;
  ei_mode : io;
  ei_write : nat -> io;
  ei_sync : io;
  ei_seal : io;
}.

Record stage_io := {
  sg_parent : result ErrorKind Lstat;
  sg_euid : N;
  sg_exists : bool;
  sg_archive : result ErrorKind Lstat;
  sg_nonce : bool;
  sg_create : io;
  sg_mode : io;
  sg_open : io;
  sg_opened : result ErrorKind Metadata;
  sg_opened_again : result ErrorKind Metadata;
  sg_entry : nat -> entry_io;
  sg_seal : io;
  sg_rename : io;
  sg_dirsync : io;
}.

(** [?] on an [io::Error]. *)
Definition stage_io_ok {A : Type} (r : result ErrorKind A) : result StageError A :=
  map_err (fun _ => StageIo) r.

Section Stage.
Context (sha256 : bytes -> bytes).
Context (untar : bytes -> result unit (list (result unit tar_entry))).

Fixpoint copy_entry (write : nat -> io) (size : N) (i : nat) (reads : list (result unit bytes))
  (copied : bytes) : result StageError bytes :=
  match reads with
  | [] => Ok copied
  | read :: reads' =>
      let? chunk := map_err (fun _ => InvalidArchive) read in
      let got := take (N.to_nat COPY_BUFFER) chunk in
      if bool_decide (got = []) then Ok copied
      else
        let? total := ok_or (u64_checked_add (len copied) (len got)) InvalidArchive in
        if size <? total then Err InvalidArchive
        else
          let? _ := stage_io_ok (write i) in
          copy_entry write size (S i) reads' (copied ++ got)
  end.

Definition extract_entry (io : entry_io) (declared : DatasetFile) (entry : tar_entry)
  : result StageError (string * bytes) :=
  let? path := map_err (fun _ => InvalidArchive) (te_path entry) in
  if negb (te_is_file entry)
     || negb (bool_decide (path = Some (df_path declared)))
     || negb (te_size entry =? df_size_bytes declared)
  then Err InvalidArchive
  else
    let? _ := stage_io_ok (ei_directories io) in
    let? _ := stage_io_ok (ei_create io) in
    let? _ := stage_io_ok (ei_mode io) in
    let? body := copy_entry (ei_write io) (df_size_bytes declared) 0 (te_reads entry) [] in
    if negb (len body =? df_size_bytes declared)
       || negb (bool_decide (hex (sha256 body) = df_sha256 declared))
    then Err InvalidArchive
    else
      let? _ := stage_io_ok (ei_sync io) in
      let? _ := stage_io_ok (ei_seal io) in
      Ok (df_path declared, body).

(** The loop over the entries, from entry number [count]. *)
Fixpoint extract (io : nat -> entry_io) (manifest : DatasetManifest) (count : nat)
  (entries : list (result unit tar_entry)) (extracted : tree) : result StageError tree :=
  match entries with
  | [] => if Nat.eqb count (List.length (dm_files manifest)) then Ok extracted else Err InvalidArchive
  | item :: entries' =>
      let? entry := map_err (fun _ => InvalidArchive) item in
      let? declared := ok_or (dm_files manifest !! count) InvalidArchive in
      let? file := extract_entry (io count) declared entry in
      extract io manifest (S count) entries' (extracted ++ [file])
  end.

(** [rename_noreplace]. *)
Definition rename_error (k : ErrorKind) : StageError :=
  match k with
  | Os.AlreadyExists => AlreadyPublished
  | _ => StageIo
  end.

Definition stage_archive (io : stage_io) (archive : bytes) (manifest : DatasetManifest)
  : st (option tree) StageError unit :=
  let! _ := st_lift (validate_manifest manifest) in
  let! parent := st_lift (map_err (fun _ => InvalidWorkspace) (sg_parent io)) in
  if negb (private_parent (sg_euid io) parent) || sg_exists io then st_lift (Err InvalidWorkspace)
  else
    let! meta := st_lift (stage_io_ok (sg_archive io)) in
    if negb (is_file (ls_meta meta)) || ls_symlink meta || (MAX_ARCHIVE_BYTES <? st_size (ls_meta meta))
    then st_lift (Err InvalidArchive)
    else if negb (sg_nonce io) then st_lift (Err InvalidWorkspace)
    else
      let! _ := st_lift (stage_io_ok (sg_create io)) in
      let! _ := st_lift (stage_io_ok (sg_mode io)) in
      let! _ := st_lift (stage_io_ok (sg_open io)) in
      let! opened := st_lift (stage_io_ok (sg_opened io)) in
      let! bad := st_lift (if negb (is_file opened) then Ok true
                           else let? again := stage_io_ok (sg_opened_again io) in
                                Ok (MAX_ARCHIVE_BYTES <? st_size again)) in
      if bad : bool then st_lift (Err InvalidArchive)
      else
        let! entries := st_lift (map_err (fun _ => InvalidArchive) (untar archive)) in
        let! files := st_lift (extract (sg_entry io) manifest 0 entries []) in
        let! _ := st_lift (stage_io_ok (sg_seal io)) in
        let! _ := st_lift (map_err rename_error (sg_rename io)) in
        let! _ := st_modify (fun _ => Some files) in
        st_lift (stage_io_ok (sg_dirsync io)).
End Stage.

(** * Preparation *)

Inductive PrepareError : Type :=
| PrepareDownload (e : DownloadError)
| PrepareStage (e : StageError)
| PrepareWorkspace.

Record prepare_io := {
  pi_parent : bool;
  pi_nonce : bool;
  pi_download : download_io;
  pi_stage : stage_io;
}.

Section Prepare.
Context (sha256 : bytes -> bytes).
Context (parse_url : string -> option Url).
Context (untar : bytes -> result unit (list (result unit tar_entry))).

(** The state is what the destination holds; the archive is removed at the end. *)
Definition prepare_dataset (io : prepare_io) (d : DatasetDownloader) (object : ObjectVersion)
  (url : string) (expires_unix_ms : Z) (manifest : DatasetManifest)
  : st (option tree) PrepareError unit :=
  fun destination =>
    if negb (pi_parent io) || negb (pi_nonce io) then (Err PrepareWorkspace, destination)
    else
      match download sha256 parse_url (pi_download io) d object url expires_unix_ms None with
      | (Err e, _) => (Err (PrepareDownload e), destination)
      | (Ok _, archive) =>
          let (r, destination') := stage_archive sha256 untar (pi_stage io)
                                     (default [] archive) manifest destination in
          (map_err PrepareStage r, destination')
      end.
End Prepare.

(** * Lemmas *)

Section Verified.
Context (sha256 : bytes -> bytes).

(** The archive is what was received, as it was registered. *)
Definition registered_archive (io : download_io) (object : ObjectVersion) (body : bytes) : Prop :=
  (exists chunks, dw_chunks io = Ok <$> chunks /\ body = concat chunks)
  /\ len body = ov_size_bytes object /\ hex (sha256 body) = ov_sha256 object.

Lemma receive_chunks (write : nat -> io) (size : N) (chunks : list (result unit bytes)) (i : nat)
  (received body : bytes) :
  receive write size i chunks received = Ok body ->
  exists parts, chunks = Ok <$> parts /\ body = received ++ concat parts.
Proof.
  revert i received. induction chunks as [|chunk chunks IH]; intros i received Hr; cbn [receive] in Hr.
  { exists []. injection Hr as ->. by rewrite app_nil_r. }
  destruct chunk as [part|e]; cbn [map_err rbind] in Hr; [|done].
  destruct (u64_checked_add _ _) as [total|]; [|done]. destruct (total <=? size); [|done].
  apply rbind_Ok_inv in Hr as (? & _ & Hr). apply IH in Hr as (parts & -> & ->). exists (part :: parts).
  split; [done|]. cbn [concat]. by rewrite app_assoc.
Qed.

Lemma transfer_Ok (io : download_io) (object : ObjectVersion) (body : bytes) :
  transfer sha256 io object = Ok body -> registered_archive io object body.
Proof.
  unfold transfer. intros Hr. apply rbind_Ok_inv in Hr as (status & _ & Hr).
  destruct (negb _); [done|]. destruct (wrong_length _ _); [done|].
  apply rbind_Ok_inv in Hr as (b & Hb%receive_chunks & Hr). destruct (_ || _) eqn:Hg; [done|].
  apply rbind_Ok_inv in Hr as (u & _ & Hr). apply Ok_inj in Hr as <-.
  apply orb_false_iff in Hg as [Hl%negb_false_iff%N.eqb_eq Hh%bool_decide_negb_false]. done.
Qed.

(** A file of the tree is the declared one. *)
Definition declared_file (f : DatasetFile) (x : string * bytes) : Prop :=
  x.1 = df_path f /\ len x.2 = df_size_bytes f /\ hex (sha256 x.2) = df_sha256 f.

(** A file of the tree is the entry of the archive: what its reads deliver, a
    buffer at a time, up to the end. *)
Definition entry_bytes (e : tar_entry) (body : bytes) : Prop :=
  exists parts rest, te_reads e = (Ok <$> parts) ++ rest /\ (rest = [] \/ head rest = Some (Ok []))
    /\ (nil ∉ parts) /\ body = concat (take (N.to_nat COPY_BUFFER) <$> parts).

Definition archived_file (item : result unit tar_entry) (x : string * bytes) : Prop :=
  exists e, item = Ok e /\ te_is_file e = true /\ te_path e = Ok (Some x.1) /\ te_size e = len x.2
    /\ entry_bytes e x.2.

Lemma take_buffer (chunk : bytes) : take (N.to_nat COPY_BUFFER) chunk = [] -> chunk = [].
Proof.
  destruct chunk as [|b chunk]; [done|]. rewrite <- (N.succ_pred COPY_BUFFER), N2Nat.inj_succ by done. done.
Qed.

#[local] Opaque COPY_BUFFER.

Lemma copy_entry_bytes (write : nat -> io) (size : N) (reads : list (result unit bytes)) (i : nat)
  (copied body : bytes) :
  copy_entry write size i reads copied = Ok body ->
  exists parts rest, reads = (Ok <$> parts) ++ rest /\ (rest = [] \/ head rest = Some (Ok []))
    /\ (nil ∉ parts) /\ body = copied ++ concat (take (N.to_nat COPY_BUFFER) <$> parts).
Proof.
  revert i copied. induction reads as [|read reads IH]; intros i copied Hr; cbn [copy_entry] in Hr.
  { exists [], []. injection Hr as ->. split_and!; [done|by left|by apply not_elem_of_nil|by rewrite app_nil_r]. }
  destruct read as [chunk|e]; cbn [map_err rbind] in Hr; [|done].
  destruct (bool_decide_reflect (take (N.to_nat COPY_BUFFER) chunk = [])) as [Hnil|Hne].
  { exists [], (Ok chunk :: reads). injection Hr as ->.
    apply take_buffer in Hnil as ->.
    split_and!; [done|by right|by apply not_elem_of_nil|by rewrite app_nil_r]. }
  apply rbind_Ok_inv in Hr as (total & _ & Hr). destruct (size <? total); [done|].
  apply rbind_Ok_inv in Hr as (? & _ & Hr). apply IH in Hr as (parts & rest & -> & Hrest & Hin & ->).
  exists (chunk :: parts), rest. split_and!; [done|done| |by rewrite fmap_cons; cbn [concat]; rewrite app_assoc].
  apply not_elem_of_cons. split; [|done]. by intros <-; rewrite take_nil in Hne.
Qed.

Lemma extract_entry_declared (io : entry_io) (f : DatasetFile) (e : tar_entry) (x : string * bytes) :
  extract_entry sha256 io f e = Ok x -> declared_file f x /\ archived_file (Ok e) x.
Proof.
  unfold extract_entry. intros Hr. apply rbind_Ok_inv in Hr as (path & Hpath & Hr).
  destruct (_ || _) eqn:He; [done|]. apply rbind_Ok_inv in Hr as (? & _ & Hr).
  apply rbind_Ok_inv in Hr as (? & _ & Hr). apply rbind_Ok_inv in Hr as (? & _ & Hr).
  apply rbind_Ok_inv in Hr as (body & Hbody%copy_entry_bytes & Hr). destruct (negb (len body =? _) || _) eqn:Hg; [done|].
  apply rbind_Ok_inv in Hr as (? & _ & Hr). apply rbind_Ok_inv in Hr as (? & _ & Hr).
  apply Ok_inj in Hr as <-. apply orb_false_iff in Hg as [Hl%negb_false_iff%N.eqb_eq Hh%bool_decide_negb_false].
  rewrite !orb_false_iff, !negb_false_iff, bool_decide_eq_true, N.eqb_eq in He. destruct He as [[Hfile ->] Hsize].
  split; [done|]. exists e. destruct (te_path e); cbn in Hpath; simplify_eq. split_and!; cbn; congruence || done.
Qed.

Lemma extract_declared (io : nat -> entry_io) (m : DatasetManifest) (entries : list (result unit tar_entry))
  (done_ files : tree) (count : nat) :
  Forall2 declared_file (take count (dm_files m)) done_ ->
  extract sha256 io m count entries done_ = Ok files ->
  Forall2 declared_file (dm_files m) files.
Proof.
  revert count done_. induction entries as [|item entries IH]; intros count done_ Hd Hr; cbn [extract] in Hr.
  - destruct (Nat.eqb_spec count (List.length (dm_files m))) as [->|]; [|done]. apply Ok_inj in Hr as <-.
    by rewrite firstn_all in Hd.
  - apply rbind_Ok_inv in Hr as (e & _ & Hr). apply rbind_Ok_inv in Hr as (f & Hf%ok_or_Ok_inv & Hr).
    apply rbind_Ok_inv in Hr as (x & [Hx _]%extract_entry_declared & Hr). eapply IH; [|exact Hr].
    rewrite (take_S_r _ _ f) by done. apply Forall2_app; [done|]. by constructor.
Qed.

Lemma extract_archived (io : nat -> entry_io) (m : DatasetManifest) (entries : list (result unit tar_entry))
  (done_ files : tree) (count : nat) :
  extract sha256 io m count entries done_ = Ok files ->
  exists new, files = done_ ++ new /\ Forall2 archived_file entries new.
Proof.
  revert count done_. induction entries as [|item entries IH]; intros count done_ Hr; cbn [extract] in Hr.
  - destruct (Nat.eqb count _); [|done]. apply Ok_inj in Hr as <-. exists []. by rewrite app_nil_r.
  - destruct item as [e|e]; cbn [map_err rbind] in Hr; [|done]. apply rbind_Ok_inv in Hr as (f & _ & Hr).
    apply rbind_Ok_inv in Hr as (x & [_ Hx]%extract_entry_declared & Hr). apply IH in Hr as (new & -> & Hf).
    exists (x :: new). split; [by rewrite <- app_assoc|by constructor].
Qed.

Context (untar : bytes -> result unit (list (result unit tar_entry))).

(** A tree that is the archive and the manifest, file by file. *)
Record declared_tree (archive : bytes) (m : DatasetManifest) (files : tree) : Prop := {
  dt_archived : exists entries, untar archive = Ok entries /\ Forall2 archived_file entries files;
  dt_declared : Forall2 declared_file (dm_files m) files;
  dt_separate : forall i j x y, files !! i = Some x -> files !! j = Some y -> (i < j)%nat -> separate x.1 y.1;
}.

Lemma declared_separate (m : DatasetManifest) (files : tree) :
  validate_manifest m = Ok tt -> Forall2 declared_file (dm_files m) files ->
  forall i j x y, files !! i = Some x -> files !! j = Some y -> (i < j)%nat -> separate x.1 y.1.
Proof.
  intros Hm Hf i j x y Hi Hj Hij. destruct (Forall2_lookup_r _ _ _ _ _ Hf Hi) as (f & Hfi & Hx & _).
  destruct (Forall2_lookup_r _ _ _ _ _ Hf Hj) as (g & Hgj & Hy & _). rewrite Hx, Hy.
  apply validate_manifest_laid_out in Hm as [_ Hl]. by eapply (Hl j g).
Qed.

(** Staging publishes the manifest's files or leaves the destination alone. *)
Lemma stage_archive_declared (io : stage_io) (archive : bytes) (m : DatasetManifest)
  (d d' : option tree) (r : result StageError unit) :
  stage_archive sha256 untar io archive m d = (r, d') ->
  (d' = d /\ is_ok r = false)
  \/ exists files, d' = Some files /\ declared_tree archive m files.
Proof.
  intros Hr. unfold stage_archive, st_bind, st_lift, st_modify in Hr.
  destruct (validate_manifest m) as [[]|e] eqn:Hm; [|injection Hr as <- <-; by left].
  destruct (map_err _ (sg_parent io)) as [p|e]; [|injection Hr as <- <-; by left].
  destruct (_ || _); [injection Hr as <- <-; by left|].
  destruct (stage_io_ok (sg_archive io)) as [meta|e]; [|injection Hr as <- <-; by left].
  destruct (_ || _); [injection Hr as <- <-; by left|].
  destruct (negb (sg_nonce io)); [injection Hr as <- <-; by left|].
  destruct (stage_io_ok (sg_create io)); [|injection Hr as <- <-; by left].
  destruct (stage_io_ok (sg_mode io)); [|injection Hr as <- <-; by left].
  destruct (stage_io_ok (sg_open io)); [|injection Hr as <- <-; by left].
  destruct (stage_io_ok (sg_opened io)) as [opened|e]; [|injection Hr as <- <-; by left].
  destruct (if negb (is_file opened) then _ else _) as [[|]|e]; [injection Hr as <- <-; by left| |injection Hr as <- <-; by left].
  destruct (untar archive) as [entries|e] eqn:Hu; cbn [map_err] in Hr; [|injection Hr as <- <-; by left].
  destruct (extract _ _ _ _ _ _) as [files|e] eqn:He; [|injection Hr as <- <-; by left].
  destruct (stage_io_ok (sg_seal io)); [|injection Hr as <- <-; by left].
  destruct (map_err _ (sg_rename io)); [|injection Hr as <- <-; by left].
  right. exists files. split; [by injection Hr as _ <-|].
  assert (Hf : Forall2 declared_file (dm_files m) files) by (eapply extract_declared; [|exact He]; constructor).
  apply extract_archived in He as (new & -> & Ha). split; [by exists entries|done|by apply declared_separate with m].
Qed.

Context (parse_url : string -> option Url).

Lemma download_verified (io : download_io) (d : DatasetDownloader) (object : ObjectVersion) (url : string)
  (expires : Z) (archive : option bytes) :
  download sha256 parse_url io d object url expires None = (Ok tt, archive) ->
  exists body, archive = Some body /\ registered_archive io object body.
Proof.
  intros Hr. unfold download, st_bind, st_lift, st_modify in Hr.
  destruct (validate_download _ _ _ _ _ _); [|done]. destruct (map_err _ (dw_parent io)); [|done].
  destruct (negb (private_parent _ _)); [done|]. destruct (dw_exists io); [done|].
  destruct (negb (dw_nonce io)); [done|]. destruct (map_err _ (dw_create io)); [|done].
  destruct (ok_or _ Grant); [|done]. destruct (_ <=? _); [done|]. destruct (dw_elapsed io); [done|].
  destruct (transfer sha256 io object) as [body|] eqn:Ht; [|done]. destruct (map_err _ (dw_chmod io)); [|done].
  destruct (map_err _ (dw_rename io)); [|done]. apply pair_equal_spec in Hr as [_ <-].
  apply transfer_Ok in Ht. by exists body.
Qed.

Lemma prepare_dataset_published (io : prepare_io) (d : DatasetDownloader) (object : ObjectVersion)
  (url : string) (expires : Z) (m : DatasetManifest) (before after : option tree) :
  prepare_dataset sha256 parse_url untar io d object url expires m before = (Ok tt, after) ->
  exists files, after = Some files.
Proof.
  intros Hr. unfold prepare_dataset in Hr. destruct (_ || _); [done|].
  destruct (download _ _ _ _ _ _ _ _) as [[u|e] archive]; [|done].
  destruct (stage_archive _ _ _ _ _ _) as [r after'] eqn:Hs. apply pair_equal_spec in Hr as [Hr <-].
  apply stage_archive_declared in Hs as [[_ Hf]|(files & -> & _)]; [by destruct r|by exists files].
Qed.
End Verified.

(** * Property *)

(** C36: a prepared dataset is the registered one.  When preparation succeeds, the
    chunks received make up an archive of the registered length and digest, and the
    tree published at the destination is that archive and the manifest, file by
    file and in order: each file is read from an entry of the archive and has the
    declared path, length and digest, and no path is or lies below another one;
    when it fails, the destination is as before or holds such a tree. *)
Theorem prepared_dataset_is_declared (sha256 : bytes -> bytes) (parse_url : string -> option Url)
  (untar : bytes -> result unit (list (result unit tar_entry))) (io : prepare_io) (d : DatasetDownloader)
  (object : ObjectVersion) (url : string) (expires : Z) (m : DatasetManifest)
  (before after : option tree) (r : result PrepareError unit) :
  prepare_dataset sha256 parse_url untar io d object url expires m before = (r, after) ->
  (is_ok r = false /\ after = before)
  \/ exists archive files, registered_archive sha256 (pi_download io) object archive
       /\ after = Some files /\ declared_tree sha256 untar archive m files.
Proof.
  intros Hr. unfold prepare_dataset in Hr. destruct (_ || _); [injection Hr as <- <-; by left|].
  destruct (download _ _ _ _ _ _ _ _) as [[[]|e] archive] eqn:Hd; [|injection Hr as <- <-; by left].
  apply download_verified in Hd as (body & -> & Hreg).
  destruct (stage_archive _ _ _ _ _ _) as [r' after'] eqn:Hs. apply pair_equal_spec in Hr as [<- <-].
  apply stage_archive_declared in Hs as [[-> Hr']|(files & -> & Hf)].
  - left. by destruct r'.
  - right. by exists body, files.
Qed.

(** ** Witness: an archive of two files arrives in two chunks *)

Definition repeated_digest : bytes -> bytes := fun _ => replicate 32 "187"%byte.

Definition cache_directory : Lstat :=
  {| ls_meta := {| is_file := false; is_dir := true; uid := 1000; mode := 16832; nlink := 2;
                   st_size := 4096 |}; ls_symlink := false |}.

Definition archive_file : Metadata :=
  {| is_file := true; is_dir := false; uid := 1000; mode := 33024; nlink := 1; st_size := 7 |}.

Definition archive_object : ObjectVersion :=
  {| ov_key := "datasets/d1"; ov_version_id := "v7"; ov_size_bytes := 7; ov_sha256 := hash_fixture |}.

Definition archived (path : string) (content : string) : tar_entry :=
  {| te_path := Ok (Some path); te_is_file := true; te_size := str_len content;
     te_reads := [Ok (str_bytes content); Ok []] |}.

Definition untar_fixture (_ : bytes) : result unit (list (result unit tar_entry)) :=
  Ok [Ok (archived "a.txt" "one"); Ok (archived "a/x" "four")].

Definition transfer_answers : download_io :=
  {| dw_wall := Some 300000; dw_parent := Ok cache_directory; dw_euid := 1000; dw_exists := false;
     dw_nonce := true; dw_create := Ok tt; dw_wall_again := Some 300000; dw_elapsed := false;
     dw_status := Ok 200; dw_content_length := Some 7;
     dw_chunks := [Ok (str_bytes "one"); Ok (str_bytes "four")]; dw_write := fun _ => Ok tt;
     dw_sync := Ok tt; dw_chmod := Ok tt; dw_rename := Ok tt; dw_dirsync := Ok tt |}.

Definition entry_answers : entry_io :=
  {| ei_directories := Ok tt; ei_create := Ok tt; ei_mode := Ok tt; ei_write := fun _ => Ok tt;
     ei_sync := Ok tt; ei_seal := Ok tt |}.

Definition stage_answers : stage_io :=
  {| sg_parent := Ok cache_directory; sg_euid := 1000; sg_exists := false;
     sg_archive := Ok {| ls_meta := archive_file; ls_symlink := false |}; sg_nonce := true;
     sg_create := Ok tt; sg_mode := Ok tt; sg_open := Ok tt; sg_opened := Ok archive_file;
     sg_opened_again := Ok archive_file; sg_entry := fun _ => entry_answers; sg_seal := Ok tt;
     sg_rename := Ok tt; sg_dirsync := Ok tt |}.

Definition preparation : result PrepareError unit * option tree :=
  prepare_dataset repeated_digest store_url untar_fixture
    {| pi_parent := true; pi_nonce := true; pi_download := transfer_answers; pi_stage := stage_answers |}
    {| allow_loopback_http := true |} archive_object "https://store.example/first" 400000
    archive_manifest None.

Lemma prepared_dataset_is_declared_witness :
  exists archive files, registered_archive repeated_digest transfer_answers archive_object archive
    /\ snd preparation = Some files /\ declared_tree repeated_digest untar_fixture archive archive_manifest files.
Proof.
  destruct (prepared_dataset_is_declared repeated_digest store_url untar_fixture
    {| pi_parent := true; pi_nonce := true; pi_download := transfer_answers; pi_stage := stage_answers |}
    {| allow_loopback_http := true |} archive_object "https://store.example/first" 400000
    archive_manifest None (snd preparation) (Ok tt)) as [[He _]|H].
  - vm_compute. reflexivity.
  - discriminate He.
  - exact H.
Defined.
