(* ===== verification/CacheStore.v ===== *)
(** The process-local dataset cache ([rust/worker/src/dataset_cache_store.rs]): an
    index, the published trees under a private root, and pins that keep a tree
    while an attempt may have it mounted.

    [prepare] is serialised by an asynchronous mutex, so that one call runs at a
    time; a [CachePin] may be dropped by another thread whenever the index is not
    locked, which [pr_drops] says for each such moment.  No holder of the index
    lock panics, so the lock is never poisoned. *)

From S2P Require Import Prelude Strings Os Protocol Lease Control Uploads Execution Net DatasetCache.
From S2P Require Import DatasetInputs RuntimeConfig DatasetStage.
From stdpp Require Import gmultiset.
Open Scope N_scope.

Inductive CacheStoreError : Type :=
| Policy (e : CacheError)
| Preparation (e : PrepareError)
| StoreFile
| StorePoisoned.

(** [st_trees] is what is published below the root; [st_pins] the keys of the
    [CachePin]s that are alive. *)
Record CacheStore := {
  st_root : string;
  st_index : CacheIndex;
  st_poisoned : bool;
  st_trees : gmap string tree;
  st_pins : gmultiset string;
}.

Record CachePin := {
  cp_path : string;
  cp_key : string;
}.

Definition with_index (c : CacheIndex) (s : CacheStore) : CacheStore :=
  {| st_root := st_root s; st_index := c; st_poisoned := st_poisoned s; st_trees := st_trees s;
     st_pins := st_pins s |}.

Definition with_trees (t : gmap string tree) (s : CacheStore) : CacheStore :=
  {| st_root := st_root s; st_index := st_index s; st_poisoned := st_poisoned s; st_trees := t;
     st_pins := st_pins s |}.

Definition poison (s : CacheStore) : CacheStore :=
  {| st_root := st_root s; st_index := st_index s; st_poisoned := true; st_trees := st_trees s;
     st_pins := st_pins s |}.

Definition with_pins (pins : gmultiset string) (s : CacheStore) : CacheStore :=
  {| st_root := st_root s; st_index := st_index s; st_poisoned := st_poisoned s; st_trees := st_trees s;
     st_pins := pins |}.

(** * Opening *)

Record store_io := {
  so_meta : result ErrorKind Lstat;
  so_euid : N;
  so_entries : result ErrorKind bool;
  so_canonical : option string;
}.

(** [so_entries] says whether the directory has an entry. *)
Definition store_new (io : store_io) (root : string) (high_bytes low_bytes : N)
  : result CacheStoreError CacheStore :=
  let? meta := map_err (fun _ => StoreFile) (so_meta io) in
  if negb (is_absolute root) || negb (plain_dir meta) || negb (uid (ls_meta meta) =? so_euid io)
     || negb (N.land (mode (ls_meta meta)) 511 =? 448)
  then Err StoreFile
  else
    let? occupied := map_err (fun _ => StoreFile) (so_entries io) in
    if occupied : bool then Err StoreFile
    else
      let? canonical := ok_or (so_canonical io) StoreFile in
      let? index := map_err Policy (cache_new high_bytes low_bytes) in
      Ok {| st_root := canonical; st_index := index; st_poisoned := false; st_trees := ∅; st_pins := ∅ |}.

(** * Pins *)

(** [CachePin::drop]: one pin of the key ends. *)
Definition drop_pin (key : string) (s : CacheStore) : CacheStore :=
  if bool_decide (key ∈ st_pins s) then
    with_index (unpin key (st_index s)).2 (with_pins (st_pins s ∖ {[+ key +]}) s)
  else s.

(** * Preparation *)

Record tree_io := {
  ti_meta : result ErrorKind Lstat;
  ti_reopen : io;
  ti_remove : io;
}.

(** A removal that fails may have removed a part of the tree. *)
Definition delete_tree (io : tree_io) (key : string) : st CacheStore CacheStoreError unit :=
  let! meta := st_lift (map_err (fun _ => StoreFile) (ti_meta io)) in
  if negb (plain_dir meta) then st_lift (Err StoreFile)
  else
    let! _ := st_lift (map_err (fun _ => StoreFile) (ti_reopen io)) in
    let! _ := st_modify (fun s => with_trees (delete key (st_trees s)) s) in
    st_lift (map_err (fun _ => StoreFile) (ti_remove io)).

(** The moments of a call: [pr_drops n] are the pins dropped before the [n]-th
    use of the index.  [pr_leftover] says whether the destination exists after a
    failed preparation. *)
Record store_prepare_io := {
  pr_wall : option N;
  pr_hit : result ErrorKind Lstat;
  pr_drops : nat -> list string;
  pr_victim : nat -> tree_io;
  pr_dataset : prepare_io;
  pr_leftover : bool;
  pr_cleanup : tree_io;
}.

Section Prepare.
Context (sha256 : bytes -> bytes).
Context (parse_url : string -> option Url).
Context (untar : bytes -> result unit (list (result unit tar_entry))).
Context (to_vec : DatasetManifest -> option bytes).

(** The bytes hashed: length-prefixed fields, then the manifest. *)
Definition identity_bytes (object : ObjectVersion) (manifest : bytes) : bytes :=
  let field s := to_be_bytes 8 (str_len s) ++ str_bytes s in
  field (ov_key object) ++ field (ov_version_id object) ++ field (ov_sha256 object)
  ++ to_be_bytes 8 (ov_size_bytes object) ++ manifest.

Definition identity (object : ObjectVersion) (manifest : DatasetManifest)
  : result CacheStoreError string :=
  let? encoded := ok_or (to_vec manifest) StoreFile in
  Ok (hex (sha256 (identity_bytes object encoded))).

Definition dropped (keys : list string) : st CacheStore CacheStoreError unit :=
  st_modify (fun s => fold_left (fun s k => drop_pin k s) keys s).

(** An operation of the index under its lock. *)
Definition indexed {A : Type} (m : st CacheIndex CacheError A) : st CacheStore CacheStoreError A :=
  fun s => let (r, c) := m (st_index s) in (map_err Policy r, with_index c s).

Definition poisoning {A : Type} (m : st CacheStore CacheStoreError A) : st CacheStore CacheStoreError A :=
  fun s => match m s with
           | (Ok a, s') => (Ok a, s')
           | (Err _, s') => (Err StorePoisoned, poison s')
           end.

(** The pin handed out, once the index counts it. *)
Definition pinned (key : string) : st CacheStore CacheStoreError CachePin :=
  let! _ := indexed (pin key) in
  fun s => (Ok {| cp_path := path_join (st_root s) key; cp_key := key |},
            with_pins (st_pins s ⊎ {[+ key +]}) s).

(** A sealed tree is still where the index says. *)
Definition check_hit (io : store_prepare_io) : result CacheStoreError unit :=
  let? meta := map_err (fun _ => StoreFile) (pr_hit io) in
  if negb (plain_dir meta) || negb (N.land (mode (ls_meta meta)) 511 =? 365) then Err StoreFile
  else Ok tt.

Fixpoint evict_victims (io : store_prepare_io) (i : nat) (victims : list string)
  : st CacheStore CacheStoreError unit :=
  match victims with
  | [] => st_ret tt
  | victim :: rest =>
      let! _ := poisoning (delete_tree (pr_victim io i) victim) in
      let! _ := dropped (pr_drops io (S i)) in
      let! _ := indexed (cache_remove victim) in
      evict_victims io (S i) rest
  end.

(** Up to the transfer: a hit, or room for the missing tree. *)
Definition prepare_room (io : store_prepare_io) (d : DatasetDownloader) (object : ObjectVersion)
  (url : string) (expires_unix_ms : Z) (manifest : DatasetManifest)
  : st CacheStore CacheStoreError (string * option CachePin) :=
  let! poisoned := st_gets st_poisoned in
  if poisoned : bool then st_lift (Err StorePoisoned)
  else
    let! key := st_lift (identity object manifest) in
    let! _ := dropped (pr_drops io 0) in
    let! index := st_gets st_index in
    if cache_contains key index then
      let! _ := poisoning (st_lift (check_hit io)) in
      let! pin := pinned key in
      st_ret (key, Some pin)
    else
      let! _ := st_lift (map_err (fun _ => StoreFile)
                  (validate_download parse_url d object url expires_unix_ms (pr_wall io))) in
      let! _ := st_lift (map_err (fun _ => StoreFile) (validate_manifest manifest)) in
      let! victims := st_lift (map_err Policy (plan_eviction (ov_size_bytes object) index)) in
      let! _ := evict_victims io 0 victims in
      st_ret (key, None).

(** What becomes of a tree that could not be indexed. *)
Definition discard (io : store_prepare_io) (key : string) (e : CacheStoreError)
  : st CacheStore CacheStoreError CachePin :=
  fun s =>
    let s1 := if cache_contains key (st_index s)
              then with_index (cache_remove key (st_index s)).2 s else s in
    match delete_tree (pr_cleanup io) key s1 with
    | (Ok _, s2) => (Err e, s2)
    | (Err _, s2) => (Err e, poison s2)
    end.

(** From the transfer on. *)
Definition prepare_tree (io : store_prepare_io) (d : DatasetDownloader) (object : ObjectVersion)
  (url : string) (expires_unix_ms : Z) (manifest : DatasetManifest) (key : string)
  : st CacheStore CacheStoreError CachePin :=
  fun s =>
    let (r, staged) := prepare_dataset sha256 parse_url untar (pr_dataset io) d object url
                         expires_unix_ms manifest (st_trees s !! key) in
    let s1 := with_trees (partial_alter (fun _ => staged) key (st_trees s)) s in
    match r with
    | Err e =>
        if pr_leftover io then
          match delete_tree (pr_cleanup io) key s1 with
          | (Ok _, s2) => (Err (Preparation e), s2)
          | (Err _, s2) => (Err StorePoisoned, poison s2)
          end
        else (Err (Preparation e), s1)
    | Ok _ =>
        let s2 := fold_left (fun s k => drop_pin k s) (pr_drops io 1) s1 in
        match indexed (cache_insert key (ov_size_bytes object)) s2 with
        | (Err e, s3) => discard io key e s3
        | (Ok _, s3) =>
            match pinned key s3 with
            | (Ok p, s4) => (Ok p, s4)
            | (Err e, s4) => discard io key e s4
            end
        end
    end.

(** [CacheStore::prepare]. *)
Definition store_prepare (io : store_prepare_io) (d : DatasetDownloader) (object : ObjectVersion)
  (url : string) (expires_unix_ms : Z) (manifest : DatasetManifest)
  : st CacheStore CacheStoreError CachePin :=
  let! '(key, hit) := prepare_room io d object url expires_unix_ms manifest in
  match hit with
  | Some pin => st_ret pin
  | None => prepare_tree io d object url expires_unix_ms manifest key
  end.
End Prepare.

(** * Identities

    The comment in the source: distinct objects cannot share an identity. *)

Definition small_object (o : ObjectVersion) : Prop :=
  str_len (ov_key o) <= U64_MAX /\ str_len (ov_version_id o) <= U64_MAX
  /\ str_len (ov_sha256 o) <= U64_MAX /\ ov_size_bytes o <= U64_MAX.

Lemma be8_inj (x y : N) (a b : bytes) :
  x <= U64_MAX -> y <= U64_MAX -> to_be_bytes 8 x ++ a = to_be_bytes 8 y ++ b -> x = y /\ a = b.
Proof.
  intros Hx Hy H. apply app_inj_1 in H as [H ->]; [|by rewrite !length_to_be_bytes]. split; [|done].
  rewrite <- (from_to_be_bytes_small 8 x), <- (from_to_be_bytes_small 8 y); [by rewrite H|..];
    change (256 ^ N.of_nat 8) with (U64_MAX + 1); lia.
Qed.

Lemma str_bytes_inj (s t : string) : str_bytes s = str_bytes t -> s = t.
Proof.
  intros H. rewrite <- (string_of_list_byte_of_string s), <- (string_of_list_byte_of_string t).
  unfold str_bytes in H. by rewrite H.
Qed.

Lemma field_inj (s t : string) (a b : bytes) :
  str_len s <= U64_MAX -> str_len t <= U64_MAX ->
  (to_be_bytes 8 (str_len s) ++ str_bytes s) ++ a = (to_be_bytes 8 (str_len t) ++ str_bytes t) ++ b ->
  s = t /\ a = b.
Proof.
  intros Hs Ht H. rewrite <- !app_assoc in H. apply be8_inj in H as [Hl H]; [|done..].
  apply app_inj_1 in H as [H ->]; [split; [by apply str_bytes_inj|done]|].
  rewrite !length_str_bytes. unfold str_len in Hl. lia.
Qed.

Lemma identity_bytes_inj (o o' : ObjectVersion) (m m' : bytes) :
  small_object o -> small_object o' -> identity_bytes o m = identity_bytes o' m' -> o = o' /\ m = m'.
Proof.
  intros (Hk & Hv & Hh & Hn) (Hk' & Hv' & Hh' & Hn') H. unfold identity_bytes in H.
  apply field_inj in H as [Ek H]; [|done..]. apply field_inj in H as [Ev H]; [|done..].
  apply field_inj in H as [Eh H]; [|done..]. apply be8_inj in H as [En Em]; [|done..].
  destruct o, o'; simpl in *; subst. done.
Qed.

(** * Runs of the store *)

Section Runs.
Context (sha256 : bytes -> bytes).
Context (parse_url : string -> option Url).
Context (untar : bytes -> result unit (list (result unit tar_entry))).
Context (to_vec : DatasetManifest -> option bytes).

(** A call, a call dropped while it awaits its transfer, the end of a pin. *)
Inductive store_op : Type :=
| OpPrepare (io : store_prepare_io) (d : DatasetDownloader) (object : ObjectVersion) (url : string)
    (expires_unix_ms : Z) (manifest : DatasetManifest)
| OpCancelled (io : store_prepare_io) (d : DatasetDownloader) (object : ObjectVersion) (url : string)
    (expires_unix_ms : Z) (manifest : DatasetManifest)
| OpDrop (key : string).

Definition run_store (op : store_op) (s : CacheStore) : CacheStore :=
  match op with
  | OpPrepare io d object url expires manifest =>
      (store_prepare sha256 parse_url untar to_vec io d object url expires manifest s).2
  | OpCancelled io d object url expires manifest =>
      (prepare_room sha256 parse_url to_vec io d object url expires manifest s).2
  | OpDrop key => drop_pin key s
  end.

Definition run_ops (ops : list store_op) (s : CacheStore) : CacheStore :=
  fold_left (fun s op => run_store op s) ops s.

(** A pin of the key is alive in every state of the run. *)
Definition held (key : string) (ops : list store_op) (s : CacheStore) : Prop :=
  forall n, key ∈ st_pins (run_ops (take n ops) s).

(** ** The invariant *)

Abbreviation entries s := (ci_entries (st_index s)).

(** Every pin alive is counted, every counted tree exists, except those in [out],
    and every tree with a pin exists. *)
Record kept_but (out : gset string) (s : CacheStore) : Prop := {
  k_count : forall k, N.of_nat (multiplicity k (st_pins s))
    = match entries s !! k with Some e => en_pins e | None => 0 end;
  k_trees : st_poisoned s = false -> forall k, k ∉ out -> is_Some (entries s !! k) -> is_Some (st_trees s !! k);
  k_pinned : forall k, k ∈ st_pins s -> is_Some (st_trees s !! k);
}.

Abbreviation kept := (kept_but ∅).

Lemma kept_unpinned (out : gset string) (s : CacheStore) (k : string) :
  kept_but out s -> (k ∉ st_pins s) <-> (forall e, entries s !! k = Some e -> en_pins e = 0).
Proof.
  intros Hs. pose proof (k_count _ _ Hs k) as Hc. rewrite elem_of_multiplicity.
  destruct (entries s !! k) as [e|]; [|split; [done|lia]]. split.
  - intros Hk e' [= <-]. lia.
  - intros He. rewrite (He e) in Hc by done. lia.
Qed.

(** From [s] to [s'] only pins end, and pinned trees stay. *)
Record shrinks (s s' : CacheStore) : Prop := {
  sk_pins : st_pins s' ⊆ st_pins s;
  sk_trees : forall k, k ∈ st_pins s' -> st_trees s' !! k = st_trees s !! k;
  sk_absent : forall k, entries s !! k = None -> entries s' !! k = None;
}.

Lemma shrinks_refl (s : CacheStore) : shrinks s s.
Proof. by split. Qed.

Lemma shrinks_trans (s1 s2 s3 : CacheStore) : shrinks s1 s2 -> shrinks s2 s3 -> shrinks s1 s3.
Proof.
  intros [Hp Ht Ha] [Hp' Ht' Ha']. split; [multiset_solver| |auto].
  intros k Hk. rewrite Ht' by done. apply Ht. multiset_solver.
Qed.

Lemma drop_pin_shrinks (out : gset string) (k : string) (s : CacheStore) :
  kept_but out s -> kept_but out (drop_pin k s) /\ shrinks s (drop_pin k s)
  /\ st_poisoned (drop_pin k s) = st_poisoned s
  /\ forall j, entries (drop_pin k s) !! j = None <-> entries s !! j = None.
Proof.
  intros Hs. unfold drop_pin. case_bool_decide as Hk; [|split_and!; [done|apply shrinks_refl|done|done]].
  pose proof (k_count _ _ Hs k) as Hc. assert (Hpos : (0 < multiplicity k (st_pins s))%nat) by (by apply elem_of_multiplicity).
  unfold unpin. destruct (entries s !! k) as [e|] eqn:He; [|lia].
  destruct (N.eqb_spec (en_pins e) 0); [lia|].
  assert (Hdom : forall j, <[k := {| en_size_bytes := en_size_bytes e; en_pins := en_pins e - 1;
      en_last_used := en_last_used e |}]> (entries s) !! j = None <-> entries s !! j = None).
  { intros j. rewrite lookup_insert_None. split; [by intros [? _]|]. intros Hj. split; [done|congruence]. }
  split_and!; [|split; cbn; [multiset_solver|done|by intros j; apply Hdom]|done|exact Hdom].
  destruct Hs as [Hcount Htrees Hpinned]. split; cbn.
  - intros j. rewrite multiplicity_difference, multiplicity_singleton. case_decide as E.
    + subst j. rewrite lookup_insert_eq. cbn. lia.
    + rewrite lookup_insert_ne by congruence. rewrite Nat.sub_0_r. apply Hcount.
  - intros Hp j Hout Hj. apply Htrees; [done|done|]. rewrite <- not_eq_None_Some in *. by rewrite <- Hdom.
  - intros j Hj. apply Hpinned. multiset_solver.
Qed.

Lemma drops_shrink (out : gset string) (ks : list string) (s : CacheStore) :
  let s' := fold_left (fun s k => drop_pin k s) ks s in
  kept_but out s -> kept_but out s' /\ shrinks s s' /\ st_poisoned s' = st_poisoned s
  /\ forall j, entries s' !! j = None <-> entries s !! j = None.
Proof.
  revert s. induction ks as [|k ks IH]; intros s s' Hs; [split_and!; [done|apply shrinks_refl|done|done]|].
  destruct (drop_pin_shrinks out k s Hs) as (Hs1 & Hsh & Hp & Hd). destruct (IH _ Hs1) as (Hs2 & Hsh2 & Hp2 & Hd2).
  split_and!; [done|by eapply shrinks_trans|by etransitivity|]. intros j. rewrite <- Hd. apply Hd2.
Qed.

Lemma drops_trees (ks : list string) (s : CacheStore) :
  st_trees (fold_left (fun s k => drop_pin k s) ks s) = st_trees s.
Proof.
  revert s. induction ks as [|k ks IH]; intros s; [done|]. cbn [fold_left]. rewrite IH. unfold drop_pin.
  by case_bool_decide.
Qed.

Lemma kept_mono (out out' : gset string) (s : CacheStore) : out ⊆ out' -> kept_but out s -> kept_but out' s.
Proof. intros Ho [Hc Ht Hp]. split; [done| |done]. intros Hpois k Hk. apply Ht; [done|set_solver]. Qed.

Lemma kept_poison (out : gset string) (s : CacheStore) : kept_but out s -> kept (poison s).
Proof. intros [Hc Ht Hp]. by split. Qed.

Lemma delete_tree_shrinks (io : tree_io) (k : string) (out : gset string) (s s' : CacheStore)
  (r : result CacheStoreError unit) :
  kept_but out s -> k ∉ st_pins s -> delete_tree io k s = (r, s') ->
  kept_but (out ∪ {[k]}) s' /\ shrinks s s' /\ st_index s' = st_index s
  /\ st_poisoned s' = st_poisoned s /\ st_pins s' = st_pins s.
Proof.
  intros Hs Hk Hr. unfold delete_tree, st_bind, st_lift, st_modify in Hr.
  assert (Hsame : kept_but (out ∪ {[k]}) s) by (eapply kept_mono; [|done]; set_solver).
  destruct (map_err _ (ti_meta io)); [|injection Hr as _ <-; split_and!; try done; apply shrinks_refl].
  destruct (negb (plain_dir _)); [injection Hr as _ <-; split_and!; try done; apply shrinks_refl|].
  destruct (map_err _ (ti_reopen io)); [|injection Hr as _ <-; split_and!; try done; apply shrinks_refl].
  injection Hr as _ <-. destruct Hs as [Hc Ht Hp]. split_and!; try done; split; cbn; try done.
  - intros Hpois j Hj He. rewrite lookup_delete_ne by set_solver. apply Ht; [done|set_solver|done].
  - intros j Hj. rewrite lookup_delete_ne by congruence. by apply Hp.
  - intros j Hj. by rewrite lookup_delete_ne by congruence.
Qed.

(** Once its tree is gone, a victim leaves the index. *)
Lemma remove_victim (v : string) (s s' : CacheStore) (r : result CacheStoreError unit) :
  kept_but {[v]} s -> v ∉ st_pins s -> indexed (cache_remove v) s = (r, s') -> kept s' /\ shrinks s s'.
Proof.
  intros Hs Hv Hr. unfold indexed, cache_remove in Hr.
  destruct (entries s !! v) as [e|] eqn:He.
  - rewrite (proj1 (kept_unpinned _ _ v Hs) Hv e He) in Hr. injection Hr as _ <-. destruct Hs as [Hc Ht Hp].
    split; split; cbn; try done.
    + intros k. rewrite Hc. destruct (decide (k = v)) as [->|Hk]; [|by rewrite lookup_delete_ne].
      rewrite lookup_delete_eq, He. apply (proj1 (kept_unpinned _ _ v (Build_kept_but _ _ Hc Ht Hp)) Hv e He).
    + intros Hpois k _ Hk. apply lookup_delete_is_Some in Hk as [Hkv Hk]. apply Ht; [done|set_solver|done].
    + intros k Hk. rewrite lookup_delete_None. by right.
  - injection Hr as _ <-. destruct Hs as [Hc Ht Hp]. split; split; cbn; try done.
    intros Hpois k _ Hk. apply Ht; [done| |done]. intros ->%elem_of_singleton. rewrite He in Hk. by destruct Hk.
Qed.

Lemma evict_shrinks (io : store_prepare_io) (victims : list string) (i : nat) (s s' : CacheStore)
  (r : result CacheStoreError unit) :
  kept s -> (forall v, v ∈ victims -> v ∉ st_pins s) -> evict_victims io i victims s = (r, s') ->
  kept s' /\ shrinks s s'.
Proof.
  revert i s. induction victims as [|v vs IH]; intros i s Hs Hv Hr; cbn [evict_victims] in Hr.
  { injection Hr as _ <-. split; [done|apply shrinks_refl]. }
  unfold st_bind at 1, poisoning in Hr. destruct (delete_tree _ v s) as [d s1] eqn:Hd.
  apply (delete_tree_shrinks _ _ ∅) in Hd as (Hs1 & Hsh1 & Hi1 & Hp1 & Hpins1); [|done|apply Hv; by left].
  rewrite (left_id_L ∅ (∪)) in Hs1.
  destruct d as [u|e]; [|injection Hr as _ <-; split; [by eapply kept_poison|by destruct Hsh1; split]].
  unfold st_bind at 1, dropped, st_modify in Hr.
  destruct (drops_shrink {[v]} (pr_drops io (S i)) s1 Hs1) as (Hs2 & Hsh2 & _ & _).
  set (s2 := fold_left _ _ s1) in *.
  assert (Hsh : shrinks s s2) by (by eapply shrinks_trans). unfold st_bind at 1 in Hr.
  destruct (indexed (cache_remove v) s2) as [d s3] eqn:Hrem.
  assert (Hv2 : v ∉ st_pins s2) by (intros Hin; apply (Hv v); [by left|]; pose proof (sk_pins _ _ Hsh); multiset_solver).
  destruct (remove_victim _ _ _ _ Hs2 Hv2 Hrem) as [Hs3 Hsh3].
  assert (Hsh' : shrinks s s3) by (by eapply shrinks_trans).
  destruct d as [u'|e]; [|by injection Hr as _ <-].
  assert (Hvs : forall w, w ∈ vs -> w ∉ st_pins s3).
  { intros w Hw Hin. apply (Hv w); [by right|]. pose proof (sk_pins _ _ Hsh'). multiset_solver. }
  destruct (IH (S i) s3 Hs3 Hvs Hr) as [Hs' Hsh4]. split; [done|by eapply shrinks_trans].
Qed.

(** A pin is counted and handed out; trees are not touched. *)
Lemma pinned_kept (key : string) (s s' : CacheStore) (r : result CacheStoreError CachePin) :
  kept s -> is_Some (st_trees s !! key) -> pinned key s = (r, s') ->
  kept s' /\ st_trees s' = st_trees s /\ st_pins s' = st_pins s ⊎ (if is_ok r then {[+ key +]} else ∅)
  /\ (is_ok r = false -> s' = s) /\ (is_ok r = true -> is_Some (entries s !! key)).
Proof.
  intros Hs Htree Hr. unfold pinned, st_bind, indexed, pin in Hr.
  destruct (entries s !! key) as [e|] eqn:He.
  2: { injection Hr as <- <-. destruct s. cbn. split_and!; try done; [multiset_solver]. }
  destruct (u64_checked_add (en_pins e) 1) as [n|] eqn:Hn, (u64_checked_add (ci_clock (st_index s)) 1) as [c|] eqn:Hcl;
    cbn in Hr; apply pair_equal_spec in Hr as [<- <-];
    try (destruct s; cbn; split_and!; try done; multiset_solver).
  apply u64_checked_add_Some in Hn as [-> _]. destruct Hs as [Hc Ht Hp]. split_and!; cbn; try done.
  split; cbn.
  - intros k. rewrite multiplicity_disj_union, multiplicity_singleton. case_decide as E.
    + subst k. rewrite lookup_insert_eq. specialize (Hc key). rewrite He in Hc. cbn. lia.
    + rewrite lookup_insert_ne by congruence. rewrite Nat.add_0_r. apply Hc.
  - intros Hpois k Hk Hent. destruct (decide (k = key)) as [->|Hne]; [done|].
    rewrite lookup_insert_ne in Hent by congruence. by apply Ht.
  - intros k [Hk|Hk]%gmultiset_elem_of_disj_union; [by apply Hp|]. by apply gmultiset_elem_of_singleton in Hk as ->.
Qed.

(** What an operation guarantees to the holders of pins. *)
Definition safe (s s' : CacheStore) : Prop :=
  kept s' /\ forall k, k ∈ st_pins s -> k ∈ st_pins s' -> st_trees s' !! k = st_trees s !! k.

Lemma shrinks_safe (s s' : CacheStore) : kept s' -> shrinks s s' -> safe s s'.
Proof. intros Hs' [_ Ht _]. split; [done|]. intros k _. apply Ht. Qed.

Lemma plan_unpinned (s : CacheStore) (incoming : N) (victims : list string) :
  kept s -> plan_eviction incoming (st_index s) = Ok victims -> forall v, v ∈ victims -> v ∉ st_pins s.
Proof.
  intros Hs Hp v Hv. apply (kept_unpinned ∅); [done|]. intros e He. unfold plan_eviction in Hp.
  destruct (_ || _); [done|]. apply rbind_Ok_inv in Hp as (p & _ & Hp). destruct (_ <=? _).
  { apply Ok_inj in Hp as <-. by apply elem_of_nil in Hv. }
  destruct (evict _ _ _) as [q vs] eqn:Hev. destruct (_ <? _); [done|]. apply Ok_inj in Hp as <-.
  assert (Hin : exists f, (v, f) ∈ candidates (st_index s)).
  { revert Hev Hv. generalize (candidates (st_index s)) as l. intros l. revert p q vs.
    induction l as [|[k f] l IH]; intros p q vs; cbn [evict]; [intros [= _ <-] ?%elem_of_nil; done|].
    destruct (_ <=? _); [intros [= _ <-] ?%elem_of_nil; done|]. destruct (evict _ _ l) as [q' vs'] eqn:E.
    intros [= _ <-] [->|Hv]%elem_of_cons; [exists f; by left|].
    destruct (IH _ _ _ E Hv) as [g Hg]. exists g. by right. }
  destruct Hin as [f Hf]. apply elem_of_candidates in Hf as [Hf Hpins]. congruence.
Qed.

Lemma prepare_room_safe (io : store_prepare_io) (d : DatasetDownloader) (object : ObjectVersion)
  (url : string) (expires : Z) (m : DatasetManifest) (s s' : CacheStore)
  (r : result CacheStoreError (string * option CachePin)) :
  kept s -> prepare_room sha256 parse_url to_vec io d object url expires m s = (r, s') ->
  safe s s' /\ forall key, r = Ok (key, None) ->
    (key ∉ st_pins s) /\ entries s' !! key = None /\ st_pins s' ⊆ st_pins s.
Proof.
  intros Hs Hr. unfold prepare_room in Hr. unfold st_bind at 1, st_gets at 1 in Hr.
  destruct (st_poisoned s) eqn:Hpois; [injection Hr as <- <-; split; [by apply shrinks_safe, shrinks_refl|done]|].
  unfold st_bind at 1, st_lift at 1 in Hr. destruct (identity sha256 to_vec object m) as [key|e];
    [|injection Hr as <- <-; split; [by apply shrinks_safe, shrinks_refl|done]].
  unfold st_bind at 1, dropped, st_modify in Hr.
  destruct (drops_shrink ∅ (pr_drops io 0) s Hs) as (Hs1 & Hsh1 & Hp1 & Hd1).
  set (s1 := fold_left _ _ s) in *. unfold st_bind at 1, st_gets at 1 in Hr.
  destruct (cache_contains key (st_index s1)) eqn:Hc; unfold cache_contains in Hc.
  - destruct (entries s1 !! key) as [ent|] eqn:Hent; [|done].
    assert (Htree : is_Some (st_trees s1 !! key)) by (apply (k_trees _ _ Hs1); [congruence|set_solver|by rewrite Hent]).
    unfold st_bind at 1, poisoning, st_lift at 1 in Hr.
    destruct (check_hit io); [|injection Hr as <- <-; split; [|done]; apply shrinks_safe;
      [by eapply kept_poison|by destruct Hsh1; split]].
    unfold st_bind at 1 in Hr. destruct (pinned key s1) as [p s2] eqn:Hpin.
    destruct (pinned_kept _ _ _ _ Hs1 Htree Hpin) as (Hs2 & Ht2 & Hpins2 & _ & _).
    assert (Hsafe : safe s s2).
    { split; [done|]. intros k Hk _. rewrite Ht2. unfold s1. by rewrite drops_trees. }
    destruct p as [p|e]; injection Hr as <- <-; by split.
  - destruct (entries s1 !! key) eqn:Hent; [done|]. unfold st_bind at 1, st_lift at 1 in Hr.
    destruct (map_err _ (validate_download _ _ _ _ _ _)); [|injection Hr as <- <-; split; [by apply shrinks_safe|done]].
    unfold st_bind at 1, st_lift at 1 in Hr.
    destruct (map_err _ (validate_manifest m)); [|injection Hr as <- <-; split; [by apply shrinks_safe|done]].
    unfold st_bind at 1, st_lift at 1 in Hr.
    destruct (plan_eviction _ _) as [victims|e] eqn:Hplan; [|injection Hr as <- <-; split; [by apply shrinks_safe|done]].
    cbn [map_err] in Hr. unfold st_bind at 1 in Hr. destruct (evict_victims io 0 victims s1) as [ev s2] eqn:Hev.
    destruct (evict_shrinks _ _ _ _ _ _ Hs1 (plan_unpinned _ _ _ Hs1 Hplan) Hev) as [Hs2 Hsh2].
    assert (Hsh : shrinks s s2) by (by eapply shrinks_trans).
    destruct ev as [u'|e]; injection Hr as <- <-; (split; [by apply shrinks_safe|]); [|done].
    intros key' [= <-]. split_and!; [|by apply (sk_absent _ _ Hsh2)|apply Hsh].
    apply (kept_unpinned ∅); [done|]. intros e He. apply Hd1 in Hent. congruence.
Qed.

Lemma kept_absent (k : string) (s : CacheStore) : kept_but {[k]} s -> entries s !! k = None -> kept s.
Proof.
  intros [Hc Ht Hp] Hk. split; [done| |done]. intros Hpois j _ Hj. apply Ht; [done| |done].
  intros ->%elem_of_singleton. rewrite Hk in Hj. by destruct Hj.
Qed.

(** Changes that only concern an unpinned key. *)
Definition beside (key : string) (s s' : CacheStore) : Prop :=
  kept s' /\ (forall k, k <> key -> st_trees s' !! k = st_trees s !! k)
  /\ st_pins s' ⊆ st_pins s ⊎ {[+ key +]}.

Lemma delete_beside (io : tree_io) (key : string) (s0 s s' : CacheStore) (r : result CacheStoreError unit) :
  kept s -> entries s !! key = None -> key ∉ st_pins s -> delete_tree io key s = (r, s') ->
  (forall k, k <> key -> st_trees s !! k = st_trees s0 !! k) -> st_pins s ⊆ st_pins s0 ->
  beside key s0 s' /\ beside key s0 (poison s').
Proof.
  intros Hs Hent Hk Hd Ht Hp. pose proof Hd as Hd'.
  apply (delete_tree_shrinks _ _ ∅) in Hd as (Hs' & _ & Hi & _ & Hpins); [|done..].
  rewrite (left_id_L ∅ (∪)) in Hs'. assert (Hk' : kept s') by (eapply kept_absent; [done|by rewrite Hi]).
  assert (Ht' : forall k, k <> key -> st_trees s' !! k = st_trees s0 !! k).
  { intros k Hne. rewrite <- Ht by done. unfold delete_tree, st_bind, st_lift, st_modify in Hd'.
    destruct (map_err _ (ti_meta io)); [|by injection Hd' as _ <-].
    destruct (negb _); [by injection Hd' as _ <-|]. destruct (map_err _ (ti_reopen io)); [|by injection Hd' as _ <-].
    injection Hd' as _ <-. cbn. by rewrite lookup_delete_ne. }
  assert (Hp' : st_pins s' ⊆ st_pins s0 ⊎ {[+ key +]}) by (rewrite Hpins; multiset_solver).
  split; (split; [|by split]); [done|by eapply kept_poison].
Qed.

Lemma discard_beside (io : store_prepare_io) (key : string) (e : CacheStoreError) (s0 s s' : CacheStore)
  (r : result CacheStoreError CachePin) :
  kept s -> key ∉ st_pins s -> discard io key e s = (r, s') ->
  (forall k, k <> key -> st_trees s !! k = st_trees s0 !! k) -> st_pins s ⊆ st_pins s0 -> beside key s0 s'.
Proof.
  intros Hs Hk Hd Ht Hp. unfold discard in Hd.
  set (s1 := if cache_contains key (st_index s) then _ else s) in *.
  assert (Hs1 : kept s1 /\ entries s1 !! key = None /\ st_trees s1 = st_trees s /\ st_pins s1 = st_pins s).
  { unfold s1, cache_contains. destruct (entries s !! key) as [ent|] eqn:He; [|by split_and!].
    destruct (indexed (cache_remove key) s) as [x y] eqn:Hx.
    destruct (remove_victim key s y x) as [Hy _]; [eapply kept_mono; [|done]; set_solver|done|done|].
    unfold indexed, cache_remove in Hx |- *. rewrite He in Hx |- *.
    rewrite (proj1 (kept_unpinned _ _ key Hs) Hk ent He) in Hx |- *. injection Hx as _ <-. split_and!; try done.
    cbn. by rewrite lookup_delete_eq. }
  destruct Hs1 as (Hs1 & Hent & Ht1 & Hp1). destruct (delete_tree (pr_cleanup io) key s1) as [x s2] eqn:Hx.
  apply (delete_beside _ _ s0) in Hx as [Hb1 Hb2]; [|done|done|by rewrite Hp1|by rewrite Ht1|by rewrite Hp1].
  destruct x; by injection Hd as _ <-.
Qed.

Lemma insert_kept (key : string) (size : N) (s s' : CacheStore) (r : result CacheStoreError unit) :
  kept s -> is_Some (st_trees s !! key) -> indexed (cache_insert key size) s = (r, s') ->
  kept s' /\ st_trees s' = st_trees s /\ st_pins s' = st_pins s.
Proof.
  intros Hs Htree Hi. unfold indexed, cache_insert in Hi.
  assert (Hsame : with_index (st_index s) s = s) by (by destruct s).
  destruct (_ || _) eqn:Hg; [injection Hi as _ <-; by rewrite Hsame|].
  destruct (DatasetCache.within _ _); [|injection Hi as _ <-; by rewrite Hsame].
  destruct (u64_checked_add _ 1); [|injection Hi as _ <-; by rewrite Hsame]. injection Hi as _ <-.
  apply orb_false_iff in Hg as [_ Hc]. unfold cache_contains in Hc.
  destruct (entries s !! key) eqn:He; [done|]. destruct Hs as [Hcount Ht Hp]. split_and!; [|done|done].
  split; cbn; [| |done].
  - intros k. rewrite Hcount. destruct (decide (k = key)) as [->|Hk]; [by rewrite lookup_insert_eq, He|].
    by rewrite lookup_insert_ne by congruence.
  - intros Hpois k Hk Hent. destruct (decide (k = key)) as [->|Hne]; [done|].
    rewrite lookup_insert_ne in Hent by congruence. by apply Ht.
Qed.

Lemma prepare_tree_beside (io : store_prepare_io) (d : DatasetDownloader) (object : ObjectVersion)
  (url : string) (expires : Z) (m : DatasetManifest) (key : string) (s s' : CacheStore)
  (r : result CacheStoreError CachePin) :
  kept s -> entries s !! key = None ->
  prepare_tree sha256 parse_url untar io d object url expires m key s = (r, s') -> beside key s s'.
Proof.
  intros Hs Hent Hr. unfold prepare_tree in Hr.
  assert (Hk : key ∉ st_pins s) by (apply (kept_unpinned ∅); [done|]; intros e He; congruence).
  destruct (prepare_dataset _ _ _ _ _ _ _ _ _ _) as [p staged] eqn:Hprep.
  set (s1 := with_trees _ s) in *.
  assert (Ht1 : forall k, k <> key -> st_trees s1 !! k = st_trees s !! k)
    by (intros k Hne; cbn; by rewrite lookup_partial_alter_ne by congruence).
  assert (Hs1 : kept s1).
  { destruct Hs as [Hc Ht Hp]. split; [done| |].
    - intros Hpois k Hout Hin. rewrite Ht1; [by apply Ht|]. intros ->. destruct Hin as [x Hx].
      change (entries s !! key = Some x) in Hx. congruence.
    - intros k Hin. rewrite Ht1; [by apply Hp|]. intros ->. done. }
  destruct p as [[]|e].
  - apply prepare_dataset_published in Hprep as [files ->].
    destruct (drops_shrink ∅ (pr_drops io 1) s1 Hs1) as (Hs2 & Hsh & _ & Hd2).
    assert (Ht2 : st_trees (fold_left (fun s k => drop_pin k s) (pr_drops io 1) s1) = st_trees s1) by apply drops_trees.
    set (s2 := fold_left _ _ s1) in *. pose proof (sk_pins _ _ Hsh) as Hp2. change (st_pins s1) with (st_pins s) in Hp2.
    assert (Htree : is_Some (st_trees s2 !! key)) by (rewrite Ht2; cbn; by rewrite lookup_partial_alter_eq).
    destruct (indexed (cache_insert _ _) s2) as [i s3] eqn:Hins.
    destruct (insert_kept _ _ _ _ _ Hs2 Htree Hins) as (Hs3 & Ht3 & Hp3).
    assert (Hk3 : key ∉ st_pins s3) by (rewrite Hp3; multiset_solver).
    assert (Hoff : forall k, k <> key -> st_trees s3 !! k = st_trees s !! k)
      by (intros k Hne; rewrite Ht3, Ht2; by apply Ht1).
    assert (Hsub : st_pins s3 ⊆ st_pins s) by (by rewrite Hp3).
    destruct i as [u|e]; [|by eapply discard_beside].
    destruct (pinned key s3) as [q s4] eqn:Hpin.
    destruct (pinned_kept _ _ _ _ Hs3 ltac:(by rewrite Ht3) Hpin) as (Hs4 & Ht4 & Hp4 & Hsame & _).
    destruct q as [pin|e].
    + injection Hr as _ <-. split_and!; [done|intros k Hne; rewrite Ht4; by apply Hoff|].
      rewrite Hp4. cbn. multiset_solver.
    + rewrite (Hsame eq_refl) in Hr. exact (discard_beside io key e s s3 s' r Hs3 Hk3 Hr Hoff Hsub).
  - destruct (pr_leftover io).
    + destruct (delete_tree (pr_cleanup io) key s1) as [x s2] eqn:Hx.
      apply (delete_beside _ _ s) in Hx as [Hb1 Hb2]; [|done..]. destruct x; by injection Hr as _ <-.
    + injection Hr as _ <-. split_and!; [done|done|cbn; multiset_solver].
Qed.

Lemma run_store_safe (op : store_op) (s : CacheStore) : kept s -> safe s (run_store op s).
Proof.
  intros Hs. destruct op as [io d object url expires m|io d object url expires m|key]; cbn [run_store].
  - unfold store_prepare, st_bind. destruct (prepare_room _ _ _ _ _ _ _ _ _ s) as [r s1] eqn:Hroom.
    destruct (prepare_room_safe _ _ _ _ _ _ _ _ _ Hs Hroom) as [Hsafe Hmiss].
    destruct r as [[key [pin|]]|e]; [done| |done]. destruct (Hmiss key eq_refl) as (Hk & Hent & Hpins).
    destruct (prepare_tree _ _ _ _ _ _ _ _ _ _ s1) as [r s2] eqn:Htree. cbn [snd].
    destruct (prepare_tree_beside _ _ _ _ _ _ _ _ _ _ (proj1 Hsafe) Hent Htree) as (Hs2 & Hoff & Hsub).
    split; [done|]. intros k Hin Hin'. assert (Hne : k <> key) by congruence.
    rewrite Hoff by done. apply Hsafe; [done|]. multiset_solver.
  - destruct (prepare_room _ _ _ _ _ _ _ _ _ s) as [r s1] eqn:Hroom. by eapply prepare_room_safe.
  - destruct (drop_pin_shrinks ∅ key s Hs) as (Hs' & Hsh & _). by apply shrinks_safe.
Qed.

Lemma run_ops_kept (ops : list store_op) (s : CacheStore) : kept s -> kept (run_ops ops s).
Proof.
  revert s. induction ops as [|op ops IH]; intros s Hs; [done|]. cbn. apply IH. by apply run_store_safe.
Qed.

Lemma held_tree (key : string) (ops : list store_op) (s : CacheStore) :
  kept s -> held key ops s ->
  st_trees (run_ops ops s) !! key = st_trees s !! key /\ is_Some (st_trees s !! key).
Proof.
  revert s. induction ops as [|op ops IH]; intros s Hs Hheld.
  { split; [done|]. apply (k_pinned _ _ Hs), (Hheld 0%nat). }
  destruct (run_store_safe op s Hs) as [Hs1 Ht]. destruct (IH (run_store op s) Hs1) as [Heq Hsome].
  { intros n. apply (Hheld (S n)). }
  specialize (Ht key (Hheld 0%nat) (Hheld 1%nat)). split; [cbn; by rewrite <- Ht|by rewrite <- Ht].
Qed.
End Runs.

Lemma store_new_kept (io : store_io) (root : string) (high low : N) (s : CacheStore) :
  store_new io root high low = Ok s -> kept_but ∅ s.
Proof.
  unfold store_new. intros Hn. apply rbind_Ok_inv in Hn as (meta & _ & Hn). destruct (_ || _); [done|].
  apply rbind_Ok_inv in Hn as (occupied & _ & Hn). destruct occupied; [done|].
  apply rbind_Ok_inv in Hn as (canonical & _ & Hn). apply rbind_Ok_inv in Hn as (index & Hi & Hn).
  apply Ok_inj in Hn as <-. apply map_err_Ok_inv in Hi. unfold cache_new in Hi. destruct (_ || _); [done|].
  apply Ok_inj in Hi as <-. split; cbn.
  - intros k. by rewrite multiplicity_empty, lookup_empty.
  - intros _ k _ Hk. rewrite lookup_empty in Hk. by destruct Hk.
  - intros k Hk. multiset_solver.
Qed.

(** C35: a pinned input stays as it was staged.  Whatever calls, cancellations and
    evictions happen, and whatever the file system answers, a tree that has a
    pin alive in every state of a run is there at its end, unchanged, so that
    no running container loses an input it has mounted. *)
Theorem pinned_tree_is_kept (sha256 : bytes -> bytes) (parse_url : string -> option Url)
  (untar : bytes -> result unit (list (result unit tar_entry))) (to_vec : DatasetManifest -> option bytes)
  (io : store_io) (root : string) (high low : N) (s : CacheStore) (before during : list store_op)
  (key : string) :
  store_new io root high low = Ok s ->
  let run := run_ops sha256 parse_url untar to_vec in
  held sha256 parse_url untar to_vec key during (run before s) ->
  exists files, st_trees (run before s) !! key = Some files
    /\ st_trees (run during (run before s)) !! key = Some files.
Proof.
  intros Hs run Hheld. apply store_new_kept in Hs.
  destruct (held_tree sha256 parse_url untar to_vec key during (run before s)) as [Heq [files Hf]];
    [by apply run_ops_kept|done|]. exists files. split; [done|]. etransitivity; [exact Heq|done].
Qed.

(** ** Witness: a second dataset does not fit beside the pinned one *)

Definition short_digest (b : bytes) : bytes :=
  if len b <? 20 then repeated_digest b
  else to_be_bytes 32 (fold_left (fun acc b => acc * 31 + byte_val b) b 7).

Definition encoded_manifest (m : DatasetManifest) : option bytes :=
  Some (flat_map (fun f => str_bytes (df_path f)) (dm_files m)).

Definition absent_tree : tree_io :=
  {| ti_meta := Err Os.NotFound; ti_reopen := Ok tt; ti_remove := Ok tt |}.

Definition prepare_answers : store_prepare_io :=
  {| pr_wall := Some 300000; pr_hit := Err Os.NotFound; pr_drops := fun _ => [];
     pr_victim := fun _ => absent_tree;
     pr_dataset := {| pi_parent := true; pi_nonce := true; pi_download := transfer_answers;
                      pi_stage := stage_answers |};
     pr_leftover := false; pr_cleanup := absent_tree |}.

Definition prepared_object (key : string) : store_op :=
  OpPrepare prepare_answers {| allow_loopback_http := true |}
    {| ov_key := key; ov_version_id := "v7"; ov_size_bytes := 7; ov_sha256 := hash_fixture |}
    "https://store.example/first" 400000 archive_manifest.

Definition cache_answers : store_io :=
  {| so_meta := Ok cache_directory; so_euid := 1000; so_entries := Ok false;
     so_canonical := Some "/srv/cache"%string |}.

Definition empty_store : CacheStore :=
  {| st_root := "/srv/cache";
     st_index := {| ci_high_bytes := 10; ci_low_bytes := 5; ci_used_bytes := 0; ci_clock := 0; ci_entries := ∅ |};
     st_poisoned := false; st_trees := ∅; st_pins := ∅ |}.

Definition pinned_key : string :=
  match identity short_digest encoded_manifest
          {| ov_key := "datasets/d1"; ov_version_id := "v7"; ov_size_bytes := 7; ov_sha256 := hash_fixture |}
          archive_manifest with
  | Ok key => key
  | Err _ => EmptyString
  end.

Abbreviation cache_run := (run_ops short_digest store_url untar_fixture encoded_manifest).

Lemma pinned_tree_is_kept_witness :
  exists files,
    st_trees (cache_run [prepared_object "datasets/d1"] empty_store) !! pinned_key = Some files
    /\ st_trees (cache_run [prepared_object "d1"] (cache_run [prepared_object "datasets/d1"] empty_store))
         !! pinned_key = Some files.
Proof.
  apply (pinned_tree_is_kept short_digest store_url untar_fixture encoded_manifest cache_answers
    "/srv/cache" 10 5 empty_store [prepared_object "datasets/d1"] [prepared_object "d1"] pinned_key).
  - vm_compute. reflexivity.
  - intros [|[|n]]; apply (bool_decide_unpack _); vm_compute; exact I.
Defined.
