(* ===== verification/Quota.v ===== *)
(** Project quotas of the strict scratch profile
    ([rust/worker/src/project_quota.rs] and [agent/quota.rs]).

    The kernel answers every call from a record; the calls that change it are
    collected in order, so that a theorem can speak of what was asked for and of
    what was read back. *)

From S2P Require Import Prelude Strings Os Protocol Lease Control Supervisor Execution RecordStore.
From S2P Require Import JournalFiles Phase ProjectIds RuntimeConfig.
Open Scope N_scope.

(** [AgentError], as far as the workspaces return one. *)
Inductive StorageError : Type :=
| StorageConfiguration
| StorageFile
| StorageTask
| StorageJournal (e : JournalError.t)
| StorageRuntime (e : RuntimeError.t).

(** * The kernel interface ([project_quota.rs]) *)

Record Fsxattr := {
  fx_xflags : N;
  fx_extsize : N;
  fx_nextents : N;
  fx_projid : N;
  fx_cowextsize : N;
}.

Definition PROJECT_INHERIT : N := 512.
Definition EXT4_SUPER_MAGIC : N := 61267.

(** [libc::dqblk]; limits of space are in blocks of 1024 bytes. *)
Record Dqblk := {
  dqb_bhardlimit : N;
  dqb_bsoftlimit : N;
  dqb_curspace : N;
  dqb_ihardlimit : N;
  dqb_isoftlimit : N;
  dqb_curinodes : N;
}.

Definition empty_quota : Dqblk :=
  {| dqb_bhardlimit := 0; dqb_bsoftlimit := 0; dqb_curspace := 0; dqb_ihardlimit := 0;
     dqb_isoftlimit := 0; dqb_curinodes := 0 |}.

Record ProjectQuota := {
  pq_project_id : N;
  pq_bytes : N;
  pq_inodes : N;
}.

Record QuotaUsage := {
  qu_bytes : N;
  qu_inodes : N;
}.

Inductive QuotaError : Type :=
| QuotaInput
| QuotaData
| QuotaUnsupported
| QuotaIo (kind : ErrorKind).

(** What the kernel answers about one directory: the file system and, for each
    later look, the enforcement state, the attributes and the quota. *)
Record directory_look := {
  dl_fstatfs : result ErrorKind N;
  dl_state : result ErrorKind (N * N);
  dl_attributes : result ErrorKind Fsxattr;
  dl_quota : result ErrorKind Dqblk;
}.

Definition sys_ok {A : Type} (r : result ErrorKind A) : result QuotaError A := map_err QuotaIo r.

Definition enforcement (l : directory_look) : result QuotaError unit :=
  let? '(version, flags) := sys_ok (dl_state l) in
  if negb (version =? 1) || negb (N.land flags 48 =? 48) then Err QuotaData else Ok tt.

Definition verify_filesystem (l : directory_look) : result QuotaError unit :=
  let? f_type := sys_ok (dl_fstatfs l) in
  if negb (f_type =? EXT4_SUPER_MAGIC) then Err QuotaUnsupported else enforcement l.

Definition assigned (a : Fsxattr) : bool :=
  negb (fx_projid a =? 0) || negb (N.land (fx_xflags a) PROJECT_INHERIT =? 0).

Definition verify_unassigned (l : directory_look) : result QuotaError unit :=
  let? _ := verify_filesystem l in
  let? attributes := sys_ok (dl_attributes l) in
  if assigned attributes then Err QuotaData else Ok tt.

Definition verify_limits (l : directory_look) (q : ProjectQuota) : result QuotaError unit :=
  let? _ := enforcement l in
  let? quota := sys_ok (dl_quota l) in
  if negb (dqb_bhardlimit quota =? pq_bytes q / 1024) || negb (dqb_bsoftlimit quota =? 0)
     || negb (dqb_ihardlimit quota =? pq_inodes q) || negb (dqb_isoftlimit quota =? 0)
  then Err QuotaData
  else Ok tt.

Definition verify_quota (l : directory_look) (q : ProjectQuota) : result QuotaError unit :=
  let? attributes := sys_ok (dl_attributes l) in
  if negb (fx_projid attributes =? pq_project_id q)
     || (N.land (fx_xflags attributes) PROJECT_INHERIT =? 0)
  then Err QuotaData
  else verify_limits l q.

(** [verify_directory]; [pinned] and [actual] are device and inode. *)
Definition verify_directory (l : directory_look) (pinned : result ErrorKind (N * N))
  (actual : result ErrorKind (Lstat * (N * N))) (canonical : result ErrorKind string) (path : string)
  (q : ProjectQuota) : result QuotaError unit :=
  let? pinned := sys_ok pinned in
  let? '(meta, actual) := sys_ok actual in
  if negb (is_absolute path) then Err QuotaData
  else
    let? canonical := sys_ok canonical in
    if negb (bool_decide (canonical = path)) || negb (plain_dir meta)
       || negb (bool_decide (pinned = actual))
    then Err QuotaData
    else verify_quota l q.

Definition usage (l : directory_look) : result QuotaError QuotaUsage :=
  let? quota := sys_ok (dl_quota l) in
  Ok {| qu_bytes := dqb_curspace quota; qu_inodes := dqb_curinodes quota |}.

(** A call that changes the kernel's state. *)
Inductive quota_call : Type :=
| SetQuota (project_id : N) (limits : Dqblk)
| SetAttributes (attributes : Fsxattr)
| SyncDirectory.

Record attach_io := {
  at_canonical : result ErrorKind string;
  at_open : io;
  at_meta : result ErrorKind Metadata;
  at_euid : N;
  at_entries : result ErrorKind bool;
  at_before : directory_look;
  at_set_quota : io;
  at_limits : directory_look;
  at_set_attributes : io;
  at_sync : io;
  at_after : directory_look;
}.

Abbreviation Q := (st (list quota_call) QuotaError).

(** A call that is made whatever it answers. *)
Definition calling (c : quota_call) (answer : io) : Q unit :=
  let! _ := st_modify (fun cs => cs ++ [c]) in st_lift (sys_ok answer).

Definition claimed (q : Dqblk) : bool :=
  negb (dqb_bhardlimit q =? 0) || negb (dqb_bsoftlimit q =? 0) || negb (dqb_ihardlimit q =? 0)
  || negb (dqb_isoftlimit q =? 0) || negb (dqb_curspace q =? 0) || negb (dqb_curinodes q =? 0).

Definition attach_empty (io : attach_io) (path : string) (project_id bytes inodes : N) : Q ProjectQuota :=
  if (project_id =? 0) || (I32_MAX <? project_id) || (bytes =? 0) || negb (bytes mod 1024 =? 0)
     || (inodes =? 0)
  then st_lift (Err QuotaInput)
  else if negb (is_absolute path) then st_lift (Err QuotaData)
  else
    let! canonical := st_lift (sys_ok (at_canonical io)) in
    if negb (bool_decide (canonical = path)) then st_lift (Err QuotaData)
    else
      let! _ := st_lift (sys_ok (at_open io)) in
      let! metadata := st_lift (sys_ok (at_meta io)) in
      if negb (uid metadata =? at_euid io) || negb (N.land (mode metadata) 511 =? 448)
      then st_lift (Err QuotaData)
      else
        let! occupied := st_lift (sys_ok (at_entries io)) in
        if occupied : bool then st_lift (Err QuotaData)
        else
          let! _ := st_lift (verify_filesystem (at_before io)) in
          let quota := {| pq_project_id := project_id; pq_bytes := bytes; pq_inodes := inodes |} in
          let! attributes := st_lift (sys_ok (dl_attributes (at_before io))) in
          if assigned attributes then st_lift (Err QuotaData)
          else
            let! previous := st_lift (sys_ok (dl_quota (at_before io))) in
            if claimed previous then st_lift (Err QuotaData)
            else
              let limits := {| dqb_bhardlimit := bytes / 1024; dqb_bsoftlimit := 0; dqb_curspace := 0;
                               dqb_ihardlimit := inodes; dqb_isoftlimit := 0; dqb_curinodes := 0 |} in
              let! _ := calling (SetQuota project_id limits) (at_set_quota io) in
              let! _ := st_lift (verify_limits (at_limits io) quota) in
              let! _ := calling (SetAttributes
                {| fx_xflags := N.lor (fx_xflags attributes) PROJECT_INHERIT;
                   fx_extsize := fx_extsize attributes; fx_nextents := fx_nextents attributes;
                   fx_projid := project_id; fx_cowextsize := fx_cowextsize attributes |})
                (at_set_attributes io) in
              let! _ := calling SyncDirectory (at_sync io) in
              let! _ := st_lift (verify_quota (at_after io) quota) in
              st_ret quota.

(** * The dedicated file system ([agent/quota.rs]) *)

(** [private_directory] on one path: the descriptor is its device and inode. *)
Record private_io := {
  pv_canonical : option string;
  pv_open : io;
  pv_meta : result ErrorKind (Metadata * (N * N));
}.

Definition storage_ok {X A : Type} (r : result X A) : result StorageError A :=
  map_err (fun _ => StorageFile) r.

Definition private_directory (euid : N) (io : private_io) (path : string)
  : result StorageError (N * N) :=
  if negb (is_absolute path) || negb (bool_decide (pv_canonical io = Some path))
  then Err StorageConfiguration
  else
    let? _ := storage_ok (pv_open io) in
    let? '(metadata, node) := storage_ok (pv_meta io) in
    if negb (euid =? 0) || negb (uid metadata =? 0) || negb (N.land (mode metadata) 511 =? 448)
    then Err StorageFile
    else Ok node.

(** One entry of the mount: its name, the checks of the directory and of its
    device, and whether a [lost+found] has entries. *)
Record layout_entry := {
  ly_name : string;
  ly_private : private_io;
  ly_device : result ErrorKind N;
  ly_entries : result ErrorKind bool;
}.

Record layout_io := {
  ly_mount_device : result ErrorKind N;
  ly_read_dir : result ErrorKind (list (result ErrorKind layout_entry));
}.

Definition layout_entry_ok (euid : N) (mount : string) (initialized : bool) (device : N)
  (item : result ErrorKind layout_entry) : result StorageError unit :=
  let? e := storage_ok item in
  let name := ly_name e in
  let lost := bool_decide (name = "lost+found"%string) in
  if negb (lost || initialized && (bool_decide (name = ".dispatch-projects"%string)
                                   || bool_decide (name = "work"%string)))
  then Err StorageConfiguration
  else
    let? _ := private_directory euid (ly_private e) (path_join mount name) in
    let? child := storage_ok (ly_device e) in
    if negb (child =? device) then Err StorageFile
    else if lost then
      let? occupied := storage_ok (ly_entries e) in
      if occupied : bool then Err StorageFile else Ok tt
    else Ok tt.

Definition layout (euid : N) (io : layout_io) (mount : string) (initialized : bool)
  : result StorageError unit :=
  let? device := storage_ok (ly_mount_device io) in
  let? entries := storage_ok (ly_read_dir io) in
  let? _ := rfold (fun _ => layout_entry_ok euid mount initialized device) tt entries in
  Ok tt.

Record lock_io := {
  lk_private : private_io;
  lk_look : directory_look;
  lk_flock : io;
}.

Definition lock_filesystem (euid : N) (io : lock_io) (mount : string) : result StorageError (N * N) :=
  let? node := private_directory euid (lk_private io) mount in
  if negb (node.2 =? 2) then Err StorageConfiguration
  else
    let? _ := storage_ok (verify_unassigned (lk_look io)) in
    match lk_flock io with
    | Ok _ => Ok node
    | Err WouldBlock => Err (StorageJournal JournalError.Busy)
    | Err _ => Err StorageFile
    end.

Section Workspaces.
Context {S : Type} {ops : RecordStore S}.

(** [QuotaWorkspaces] with the record directory of its [ProjectIds]. *)
Record QuotaWorkspaces := {
  qw_mount : string;
  qw_directory : N * N;
  qw_work : string;
  qw_work_directory : N * N;
  qw_ids : S;
}.

Definition with_ids (ids : S) (q : QuotaWorkspaces) : QuotaWorkspaces :=
  {| qw_mount := qw_mount q; qw_directory := qw_directory q; qw_work := qw_work q;
     qw_work_directory := qw_work_directory q; qw_ids := ids |}.

Abbreviation W := (st QuotaWorkspaces StorageError).

(** An operation of [ProjectIds]. *)
Definition with_project_ids {A : Type} (m : st S JournalError.t A) : W A :=
  fun q => let (r, ids) := m (qw_ids q) in (map_err StorageJournal r, with_ids ids q).

Record verify_io := {
  vf_euid : N;
  vf_mount : private_io;
  vf_mount_pinned : result ErrorKind (N * N);
  vf_work : private_io;
  vf_work_pinned : result ErrorKind (N * N);
  vf_layout : layout_io;
  vf_mount_look : directory_look;
  vf_work_look : directory_look;
  vf_control : private_io;
  vf_control_look : directory_look;
}.

(** The path still leads to the directory that was opened. *)
Definition still_there (euid : N) (io : private_io) (pinned : result ErrorKind (N * N)) (path : string)
  : result StorageError unit :=
  let? actual := private_directory euid io path in
  let? pinned := storage_ok pinned in
  if negb (bool_decide (actual = pinned)) then Err StorageFile else Ok tt.

Definition verify_layout (io : verify_io) (q : QuotaWorkspaces) : result StorageError unit :=
  let? _ := still_there (vf_euid io) (vf_mount io) (vf_mount_pinned io) (qw_mount q) in
  let? _ := still_there (vf_euid io) (vf_work io) (vf_work_pinned io) (qw_work q) in
  let? _ := layout (vf_euid io) (vf_layout io) (qw_mount q) true in
  let? _ := storage_ok (verify_unassigned (vf_mount_look io)) in
  let? _ := storage_ok (verify_unassigned (vf_work_look io)) in
  let? _ := private_directory (vf_euid io) (vf_control io) (path_join (qw_mount q) ".dispatch-projects") in
  storage_ok (verify_unassigned (vf_control_look io)).

(** [QuotaWorkspaces::verify]. *)
Definition verify_workspaces (io : verify_io) : W unit :=
  let! q := st_gets (fun q => q) in
  let! _ := st_lift (verify_layout io q) in
  with_project_ids ProjectIds.verify.

(** [QuotaWorkspaces::from_parts]. *)
Definition from_parts (euid : N) (work_io : private_io) (vio : verify_io) (mount : string)
  (directory : N * N) (ids : S) : result StorageError QuotaWorkspaces :=
  let work := path_join mount "work" in
  let? work_directory := private_directory euid work_io work in
  let store := {| qw_mount := mount; qw_directory := directory; qw_work := work;
                  qw_work_directory := work_directory; qw_ids := ids |} in
  match verify_workspaces vio store with
  | (Ok _, store') => Ok store'
  | (Err e, _) => Err e
  end.

Record initialize_io := {
  in_euid : N;
  in_lock : lock_io;
  in_layout : layout_io;
  in_create : string -> io;
  in_sync : io;
  in_ids : result JournalError.t S;
  in_work : private_io;
  in_verify : verify_io;
}.

Definition initialize_workspaces (io : initialize_io) (mount worker : string)
  : result StorageError QuotaWorkspaces :=
  if negb (canonical_uuid worker) then Err StorageConfiguration
  else
    let? directory := lock_filesystem (in_euid io) (in_lock io) mount in
    let? _ := layout (in_euid io) (in_layout io) mount false in
    let? _ := storage_ok (in_create io ".dispatch-projects") in
    let? _ := storage_ok (in_create io "work") in
    let? _ := storage_ok (in_sync io) in
    let? ids := map_err StorageJournal (ProjectIds.initialize worker (in_ids io)) in
    from_parts (in_euid io) (in_work io) (in_verify io) mount directory ids.

Definition open_workspaces (io : initialize_io) (mount worker : string)
  : result StorageError QuotaWorkspaces :=
  let? directory := lock_filesystem (in_euid io) (in_lock io) mount in
  let? _ := layout (in_euid io) (in_layout io) mount true in
  let? ids := map_err StorageJournal (open_ids worker (in_ids io)) in
  from_parts (in_euid io) (in_work io) (in_verify io) mount directory ids.

Record quota_prepare_io := {
  qp_verify : verify_io;
  qp_create : io;
  qp_work_sync : io;
  qp_attach : attach_io;
  qp_child : string -> io;
  qp_child_mode : string -> io;
  qp_sync : io;
  qp_workspace : workspace_io;
}.

(** [prepare_mount_children] ([agent/workspace.rs]). *)
Definition mount_children (create mode : string -> io) : result StorageError unit :=
  let? _ := rfold (fun _ name =>
      let? _ := storage_ok (create name) in storage_ok (mode name)) tt
    ["inputs"; "outputs"; "scratch"]%string in
  Ok tt.

Definition clamp (low high x : N) : N := N.max low (N.min high x).

(** [QuotaWorkspaces::prepare] up to the creation of the attempt's directory. *)
Definition reserve_directory (io : quota_prepare_io) (attempt : string) (bytes : N) : W (N * string) :=
  if negb (canonical_uuid attempt) || (bytes =? 0) || negb (bytes mod 1024 =? 0)
  then st_lift (Err StorageConfiguration)
  else
    let! _ := verify_workspaces (qp_verify io) in
    let! id := with_project_ids reserve in
    let! q := st_gets (fun q => q) in
    let! _ := st_lift (storage_ok (qp_create io)) in
    st_ret (id, path_join (qw_work q) attempt).

(** The rest, with the quota calls it makes. *)
Definition limit_directory (io : quota_prepare_io) (id : N) (path : string) (bytes : N)
  : result StorageError (PreparedWorkspace * ProjectQuota * list quota_call) :=
  let? _ := storage_ok (qp_work_sync io) in
  let inodes := clamp 16 1000000 (bytes / 4096) in
  match attach_empty (qp_attach io) path id bytes inodes [] with
  | (Err _, _) => Err StorageFile
  | (Ok quota, calls) =>
      let? _ := mount_children (qp_child io) (qp_child_mode io) in
      let? _ := storage_ok (qp_sync io) in
      let? w := map_err StorageRuntime (new_workspace (qp_workspace io) path (Some (pq_bytes quota))) in
      Ok (w, quota, calls)
  end.

Definition prepare_quota (io : quota_prepare_io) (attempt : string) (bytes : N)
  : W (PreparedWorkspace * ProjectQuota * list quota_call) :=
  let! '(id, path) := reserve_directory io attempt bytes in
  st_lift (limit_directory io id path bytes).
End Workspaces.

Arguments QuotaWorkspaces : clear implicits.
Arguments initialize_io : clear implicits.

(** * Lemmas *)

(** A look at the kernel that finds the limits of a quota and project
    enforcement (bits 4 and 5 of the state's flags: accounting and enforcement). *)
Record limits_enforced (l : directory_look) (q : ProjectQuota) : Prop := {
  le_state : exists flags, dl_state l = Ok (1, flags) /\ N.testbit flags 4 = true /\ N.testbit flags 5 = true;
  le_quota : exists limits, dl_quota l = Ok limits
    /\ dqb_bhardlimit limits = pq_bytes q / 1024 /\ dqb_bsoftlimit limits = 0
    /\ dqb_ihardlimit limits = pq_inodes q /\ dqb_isoftlimit limits = 0;
}.

(** Attributes that put a directory, and what is created in it (bit 9 of the
    flags), in a project. *)
Definition tags (a : Fsxattr) (project_id : N) : Prop :=
  fx_projid a = project_id /\ N.testbit (fx_xflags a) 9 = true.

(** What a quota that was attached guarantees. *)
Record enforced (io : attach_io) (q : ProjectQuota) (calls : list quota_call) : Prop := {
  ef_exact : pq_bytes q / 1024 * 1024 = pq_bytes q;
  ef_positive : 0 < pq_bytes q / 1024 /\ 0 < pq_inodes q /\ 1 <= pq_project_id q <= I32_MAX;
  ef_empty : at_entries io = Ok false /\ dl_fstatfs (at_before io) = Ok 61267;
  ef_unclaimed : exists previous, dl_quota (at_before io) = Ok previous
    /\ dqb_bhardlimit previous = 0 /\ dqb_bsoftlimit previous = 0 /\ dqb_curspace previous = 0
    /\ dqb_ihardlimit previous = 0 /\ dqb_isoftlimit previous = 0 /\ dqb_curinodes previous = 0;
  ef_untagged : exists a, dl_attributes (at_before io) = Ok a /\ fx_projid a = 0 /\ N.testbit (fx_xflags a) 9 = false;
  ef_calls : exists l a, calls = [SetQuota (pq_project_id q) l; SetAttributes a; SyncDirectory]
    /\ dqb_bhardlimit l = pq_bytes q / 1024 /\ dqb_bsoftlimit l = 0
    /\ dqb_ihardlimit l = pq_inodes q /\ dqb_isoftlimit l = 0
    /\ tags a (pq_project_id q);
  ef_limits_first : limits_enforced (at_limits io) q;
  ef_read_back : limits_enforced (at_after io) q;
  ef_tagged : exists a, dl_attributes (at_after io) = Ok a /\ tags a (pq_project_id q);
}.

Lemma inherit_bit (flags : N) : (N.land flags PROJECT_INHERIT =? 0) = negb (N.testbit flags 9).
Proof.
  change PROJECT_INHERIT with (2 ^ 9). destruct (N.testbit flags 9) eqn:Hb; cbn [negb].
  - apply N.eqb_neq. intros Hz. assert (Ht : N.testbit (N.land flags (2 ^ 9)) 9 = true)
      by (by rewrite N.land_spec, Hb, N.pow2_bits_true). by rewrite Hz in Ht.
  - apply N.eqb_eq, N.bits_inj. intros n. rewrite N.land_spec, N.pow2_bits_eqb, N.bits_0.
    destruct (N.eqb_spec 9 n) as [<-|]; [by rewrite Hb|by rewrite andb_false_r].
Qed.

Lemma enforcement_Ok (l : directory_look) :
  enforcement l = Ok tt ->
  exists flags, dl_state l = Ok (1, flags) /\ N.testbit flags 4 = true /\ N.testbit flags 5 = true.
Proof.
  unfold enforcement. destruct (dl_state l) as [[version flags]|]; [|done]. cbn. destruct (_ || _) eqn:Hg; [done|].
  intros _. apply orb_false_iff in Hg as [->%negb_false_iff%N.eqb_eq Hf%negb_false_iff%N.eqb_eq].
  exists flags. split; [done|].
  assert (Hbit : forall n, N.testbit 48 n = true -> N.testbit flags n = true).
  { intros n Hn. rewrite <- Hf, N.land_spec in Hn. by apply andb_true_iff in Hn as []. }
  split; by apply Hbit.
Qed.

Lemma verify_limits_Ok (l : directory_look) (q : ProjectQuota) :
  verify_limits l q = Ok tt -> limits_enforced l q.
Proof.
  unfold verify_limits. intros H. apply rbind_Ok_inv in H as ([] & He%enforcement_Ok & H). split; [done|].
  destruct (dl_quota l) as [limits|]; [|done]. cbn [sys_ok map_err rbind] in H. exists limits.
  destruct (_ || _) eqn:Hg; [done|]. by rewrite !orb_false_iff, !negb_false_iff, !N.eqb_eq in Hg; destruct_and! Hg.
Qed.

Lemma verify_quota_Ok (l : directory_look) (q : ProjectQuota) :
  verify_quota l q = Ok tt ->
  limits_enforced l q /\ exists a, dl_attributes l = Ok a /\ tags a (pq_project_id q).
Proof.
  unfold verify_quota. destruct (dl_attributes l) as [a|]; [|done]. cbn [sys_ok map_err rbind].
  destruct (_ || _) eqn:Hg; [done|]. rewrite inherit_bit, orb_false_iff, !negb_false_iff, N.eqb_eq in Hg.
  intros H%verify_limits_Ok. split; [done|]. by exists a.
Qed.

Lemma verify_filesystem_ext4 (l : directory_look) (u : unit) :
  verify_filesystem l = Ok u -> dl_fstatfs l = Ok 61267.
Proof.
  unfold verify_filesystem. destruct (dl_fstatfs l) as [t|]; [|done]. cbn [sys_ok map_err rbind].
  destruct (N.eqb_spec t EXT4_SUPER_MAGIC) as [->|]; done.
Qed.

Lemma not_assigned (a : Fsxattr) : assigned a = false -> fx_projid a = 0 /\ N.testbit (fx_xflags a) 9 = false.
Proof. unfold assigned. by rewrite inherit_bit, negb_involutive, orb_false_iff, negb_false_iff, N.eqb_eq. Qed.

Lemma attach_empty_enforced (io : attach_io) (path : string) (id bytes inodes : N) (q : ProjectQuota)
  (calls : list quota_call) :
  attach_empty io path id bytes inodes [] = (Ok q, calls) ->
  q = {| pq_project_id := id; pq_bytes := bytes; pq_inodes := inodes |} /\ enforced io q calls.
Proof.
  intros Ha. unfold attach_empty in Ha. destruct (_ || _) eqn:Hg; [done|].
  rewrite !orb_false_iff, negb_false_iff, N.eqb_eq, !N.eqb_neq, N.ltb_ge in Hg.
  destruct Hg as ((((Hid & Hmax) & Hb) & Hmod) & Hin).
  destruct (negb (is_absolute path)); [done|]. unfold st_bind, st_lift, calling, st_modify in Ha.
  destruct (sys_ok (at_canonical io)); [|done]. destruct (negb (bool_decide _)); [done|].
  destruct (sys_ok (at_open io)); [|done]. destruct (sys_ok (at_meta io)); [|done].
  destruct (_ || _); [done|]. destruct (at_entries io) as [[]|] eqn:Hempty; [done| |done]. cbn [sys_ok map_err] in Ha.
  destruct (verify_filesystem _) eqn:Hfs; [apply verify_filesystem_ext4 in Hfs|done].
  destruct (dl_attributes (at_before io)) as [attributes|] eqn:Hattr; [|done].
  cbn [sys_ok map_err] in Ha. destruct (assigned _) eqn:Has; [done|]. apply not_assigned in Has.
  destruct (dl_quota (at_before io)) as [previous|] eqn:Hprev; [|done].
  cbn [sys_ok map_err] in Ha. destruct (claimed previous) eqn:Hcl; [done|].
  unfold claimed in Hcl. rewrite !orb_false_iff, !negb_false_iff, !N.eqb_eq in Hcl.
  destruct (sys_ok (at_set_quota io)); [|done]. destruct (verify_limits _ _) as [[]|] eqn:Hl; [|done].
  destruct (sys_ok (at_set_attributes io)); [|done]. destruct (sys_ok (at_sync io)); [|done].
  destruct (verify_quota _ _) as [[]|] eqn:Hv; [|done]. apply pair_equal_spec in Ha as [[= <-] <-].
  assert (Hdiv : bytes / 1024 * 1024 = bytes) by (pose proof (N.div_mod bytes 1024); lia).
  apply verify_limits_Ok in Hl. apply verify_quota_Ok in Hv as [Hafter Htag].
  split; [done|]. split; cbn [pq_bytes pq_inodes pq_project_id]; try done;
    [split_and!; lia|exists previous; tauto|by exists attributes|].
  do 2 eexists. do 6 (split; [done|]). cbn [fx_xflags]. by rewrite N.lor_spec, orb_true_r.
Qed.

Lemma reserve_directory_Ok {S : Type} {ops : RecordStore S} (io : quota_prepare_io) (attempt : string)
  (bytes id : N) (path : string) (q q' : QuotaWorkspaces S) :
  reserve_directory io attempt bytes q = (Ok (id, path), q') ->
  path = path_join (qw_work q) attempt /\ exists ids, ProjectIds.verify (qw_ids q) = (Ok tt, ids) /\ reserve ids = (Ok id, qw_ids q').
Proof.
  intros Hp. unfold reserve_directory in Hp. destruct (_ || _); [done|].
  unfold st_bind at 1, verify_workspaces, st_bind at 1, st_gets, st_bind at 1, st_lift at 1 in Hp.
  destruct (verify_layout _ q); [|done]. unfold with_project_ids at 1 in Hp.
  destruct (ProjectIds.verify (qw_ids q)) as [[[]|e] ids]; [|done]. cbn [map_err] in Hp.
  unfold st_bind at 1, with_project_ids in Hp. cbn [with_ids qw_ids] in Hp.
  destruct (reserve ids) as [[i|e] ids'] eqn:Hr; [|done]. cbn [map_err] in Hp.
  unfold st_bind, st_lift in Hp. cbn [with_ids qw_work] in Hp.
  destruct (storage_ok (qp_create io)); [|done]. injection Hp as <- <- <-. split; [done|]. by exists ids.
Qed.


(** ** Witness *)

Definition root_directory (inode : N) : private_io :=
  {| pv_canonical := None; pv_open := Ok tt;
     pv_meta := Ok ({| is_file := false; is_dir := true; uid := 0; mode := 16832; nlink := 3;
                       st_size := 4096 |}, (8, inode)) |}.

Definition at_path (path : string) (inode : N) : private_io :=
  {| pv_canonical := Some path; pv_open := Ok tt; pv_meta := pv_meta (root_directory inode) |}.

Definition untagged : Fsxattr :=
  {| fx_xflags := 0; fx_extsize := 0; fx_nextents := 0; fx_projid := 0; fx_cowextsize := 0 |}.

Definition ext4_look (a : Fsxattr) (q : Dqblk) : directory_look :=
  {| dl_fstatfs := Ok EXT4_SUPER_MAGIC; dl_state := Ok (1, 48); dl_attributes := Ok a; dl_quota := Ok q |}.

Definition entry_at (name : string) (inode : N) : layout_entry :=
  {| ly_name := name; ly_private := at_path (path_join "/mnt" name) inode; ly_device := Ok 8;
     ly_entries := Ok false |}.

Definition verify_answers : verify_io :=
  {| vf_euid := 0; vf_mount := at_path "/mnt" 2; vf_mount_pinned := Ok (8, 2);
     vf_work := at_path "/mnt/work" 11; vf_work_pinned := Ok (8, 11);
     vf_layout := {| ly_mount_device := Ok 8;
                     ly_read_dir := Ok [Ok (entry_at ".dispatch-projects" 10); Ok (entry_at "work" 11)] |};
     vf_mount_look := ext4_look untagged empty_quota; vf_work_look := ext4_look untagged empty_quota;
     vf_control := at_path "/mnt/.dispatch-projects" 10;
     vf_control_look := ext4_look untagged empty_quota |}.

Definition quota_attempt : string := "1b4e28ba-2fa1-11d2-883f-0016d3cca427".

Definition child_directory : Lstat :=
  {| ls_meta := {| is_file := false; is_dir := true; uid := 0; mode := 16895; nlink := 2;
                   st_size := 4096 |}; ls_symlink := false |}.

Definition quota_answers : quota_prepare_io :=
  let path := path_join "/mnt/work" quota_attempt in
  let limits := {| dqb_bhardlimit := 1024; dqb_bsoftlimit := 0; dqb_curspace := 0;
                   dqb_ihardlimit := 256; dqb_isoftlimit := 0; dqb_curinodes := 0 |} in
  let tagged := {| fx_xflags := 512; fx_extsize := 0; fx_nextents := 0; fx_projid := 1; fx_cowextsize := 0 |} in
  let meta := {| is_file := false; is_dir := true; uid := 0; mode := 16832; nlink := 2; st_size := 4096 |} in
  {| qp_verify := verify_answers; qp_create := Ok tt; qp_work_sync := Ok tt;
     qp_attach := {| at_canonical := Ok path; at_open := Ok tt; at_meta := Ok meta; at_euid := 0;
                     at_entries := Ok false; at_before := ext4_look untagged empty_quota;
                     at_set_quota := Ok tt; at_limits := ext4_look untagged limits;
                     at_set_attributes := Ok tt; at_sync := Ok tt; at_after := ext4_look tagged limits |};
     qp_child := fun _ => Ok tt; qp_child_mode := fun _ => Ok tt; qp_sync := Ok tt;
     qp_workspace := {| wi_quota := true; wi_canonical := Some path; wi_parent := Ok meta; wi_euid := 0;
                        wi_child := fun _ => Ok child_directory |} |}.

#[local] Instance quota_store : RecordStore Directory := Directory_store digest_fixture.

Definition quota_workspaces : QuotaWorkspaces Directory :=
  {| qw_mount := "/mnt"; qw_directory := (8, 2); qw_work := "/mnt/work"; qw_work_directory := (8, 11);
     qw_ids := ids_directory |}.

