(* ===== verification/Workspaces.v ===== *)
(** Attempt workspaces of the agent ([rust/worker/src/agent/workspace.rs] and the
    file helpers of [agent.rs]).

    The root holds one directory for each attempt and the dataset cache; the state
    is the set of its entries.  The strict profile keeps the quota workspaces of
    [Quota] beside it. *)

From S2P Require Import Prelude Strings Os Protocol Lease Control Supervisor Execution RecordStore.
From S2P Require Import JournalFiles Phase ProjectIds RuntimeConfig Quota.
Open Scope N_scope.

(** * Files of the agent ([agent.rs]) *)

Record read_io := {
  rd_open : io;
  rd_meta : result ErrorKind Metadata;
  rd_euid : N;
  rd_body : result ErrorKind bytes;
}.

(** [read_file]: at most one byte over the limit is read. *)
Definition read_file (io : read_io) (limit : N) (private : bool) : result StorageError bytes :=
  let? _ := storage_ok (rd_open io) in
  let? metadata := storage_ok (rd_meta io) in
  if negb (is_file metadata)
     || private && (negb (N.land (mode metadata) 63 =? 0) || negb (uid metadata =? rd_euid io)
                    || negb (nlink metadata =? 1))
  then Err StorageFile
  else
    let? all := storage_ok (rd_body io) in
    let body := take (N.to_nat (limit + 1)) all in
    if limit <? len body then Err StorageFile else Ok body.

Record root_io := {
  rt_canonical : option string;
  rt_meta : result ErrorKind Metadata;
  rt_euid : N;
}.

(** [workspace]: the canonical private root. *)
Definition workspace (io : root_io) : result StorageError string :=
  let? path := ok_or (rt_canonical io) StorageFile in
  let? metadata := storage_ok (rt_meta io) in
  if negb (is_dir metadata) || negb (N.land (mode metadata) 511 =? 448)
     || negb (uid metadata =? rt_euid io)
  then Err StorageFile
  else Ok path.

(** [disk_pressure]; the answer of [statvfs] is the free blocks and their size.
    A path with a NUL byte is under pressure. *)
Definition disk_pressure (path : string) (stats : option (N * N)) (reservation : N) : bool :=
  if contains nul path then true
  else match stats with
  | None => true
  | Some (f_bavail, f_frsize) => f_bavail * f_frsize <? reservation + 67108864
  end.

(** * Soft workspaces *)

Abbreviation names := (gset string).

Record soft_io := {
  sf_root : root_io;
  sf_stats : option (N * N);
  sf_create : io;
  sf_child : string -> io;
  sf_child_mode : string -> io;
  sf_workspace : workspace_io;
}.

(** [prepare_attempt_workspace]; creation is exclusive. *)
Definition prepare_attempt_workspace (io : soft_io) (root attempt : string) (scratch_bytes : N)
  : st names StorageError PreparedWorkspace :=
  if negb (canonical_uuid attempt) || (scratch_bytes =? 0) then st_lift (Err StorageConfiguration)
  else
    let! canonical := st_lift (workspace (sf_root io)) in
    if negb (bool_decide (canonical = root)) then st_lift (Err StorageConfiguration)
    else if disk_pressure root (sf_stats io) scratch_bytes then st_lift (Err StorageFile)
    else
      let! present := st_gets (fun entries => bool_decide (attempt ∈ entries)) in
      if present : bool then st_lift (Err StorageFile)
      else
        let! _ := st_lift (storage_ok (sf_create io)) in
        let! _ := st_modify (fun entries => {[attempt]} ∪ entries) in
        let! _ := st_lift (mount_children (sf_child io) (sf_child_mode io)) in
        st_lift (map_err StorageRuntime
                   (new_workspace (sf_workspace io) (path_join root attempt) None)).

(** One entry of [read_dir]: its kind and the calls that remove it. *)
Record entry_answers := {
  ea_entry : io;
  ea_utf8 : bool;
  ea_is_dir : result ErrorKind bool;
  ea_reopen : io;
  ea_remove : io;
}.

Record clear_io := {
  cl_root : root_io;
  cl_read_dir : io;
  cl_entry : string -> entry_answers;
  cl_create : io;
  cl_mode : io;
}.

Definition CACHE_DIRECTORY : string := ".dataset-cache".

(** One iteration over the abandoned entries. *)
Definition clear_entry (io : clear_io) (name : string) : st names StorageError unit :=
  let a := cl_entry io name in
  let! _ := st_lift (storage_ok (ea_entry a)) in
  if negb (ea_utf8 a) then st_lift (Err StorageFile)
  else if bool_decide (name = CACHE_DIRECTORY) then
    let! directory := st_lift (storage_ok (ea_is_dir a)) in
    if negb directory then st_lift (Err StorageFile)
    else
      let! _ := st_lift (storage_ok (ea_reopen a)) in
      let! _ := st_lift (storage_ok (ea_remove a)) in
      st_modify (fun entries => entries ∖ {[name]})
  else
    let! directory := st_lift (if canonical_uuid name then storage_ok (ea_is_dir a) else Ok false) in
    if negb directory then st_lift (Err StorageFile)
    else
      let! _ := st_lift (storage_ok (ea_remove a)) in
      st_modify (fun entries => entries ∖ {[name]}).

Fixpoint clear_entries (io : clear_io) (found : list string) : st names StorageError unit :=
  match found with
  | [] => st_ret tt
  | name :: rest => let! _ := clear_entry io name in clear_entries io rest
  end.

Definition clear_abandoned_attempts (io : clear_io) (root : string) : st names StorageError unit :=
  let! canonical := st_lift (workspace (cl_root io)) in
  if negb (bool_decide (canonical = root)) then st_lift (Err StorageConfiguration)
  else
    let! _ := st_lift (storage_ok (cl_read_dir io)) in
    let! found := st_gets elements in
    let! _ := clear_entries io found in
    let! _ := st_lift (storage_ok (cl_create io)) in
    let! _ := st_modify (fun entries => {[CACHE_DIRECTORY]} ∪ entries) in
    st_lift (storage_ok (cl_mode io)).

(** * Both profiles *)

Section Profiles.
Context {S : Type} {ops : RecordStore S}.

(** [Workspaces]; the strict profile has a quota and works below its mount. *)
Record Workspaces := {
  ws_root : string;
  ws_quota : option (QuotaWorkspaces S);
  ws_entries : names;
}.

Definition ws_strict (w : Workspaces) : bool := negb (is_none (ws_quota w)).

Definition open_soft (io : root_io) (entries : names) : result StorageError Workspaces :=
  let? root := workspace io in
  Ok {| ws_root := root; ws_quota := None; ws_entries := entries |}.

Definition open_strict (io : initialize_io S) (mount worker : string) (entries : names)
  : result StorageError Workspaces :=
  let? quota := open_workspaces io mount worker in
  Ok {| ws_root := qw_work quota; ws_quota := Some quota; ws_entries := entries |}.

Definition open_profile (soft : root_io) (strict_io : initialize_io S) (root worker : string)
  (strict : bool) (entries : names) : result StorageError Workspaces :=
  if strict then open_strict strict_io root worker entries else open_soft soft entries.

Abbreviation W := (st Workspaces StorageError).

Definition with_quota (q : QuotaWorkspaces S) (w : Workspaces) : Workspaces :=
  {| ws_root := ws_root w; ws_quota := Some q; ws_entries := ws_entries w |}.

Definition with_entries (e : names) (w : Workspaces) : Workspaces :=
  {| ws_root := ws_root w; ws_quota := ws_quota w; ws_entries := e |}.

(** An operation on the entries of the root. *)
Definition on_entries {A : Type} (m : st names StorageError A) : W A :=
  fun w => let (r, e) := m (ws_entries w) in (r, with_entries e w).

(** The answers of [verify]: those of the strict profile's, or of the root. *)
Record profile_io := {
  pf_verify : verify_io;
  pf_root : root_io;
}.

Definition verify_profile (io : profile_io) : W unit :=
  fun w =>
    match ws_quota w with
    | Some q => let (r, q') := verify_workspaces (pf_verify io) q in (r, with_quota q' w)
    | None =>
        (let? root := workspace (pf_root io) in
         if negb (bool_decide (root = ws_root w)) then Err StorageFile else Ok tt, w)
    end.

Record prepare_profile_io := {
  pp_verify : profile_io;
  pp_stats : option (N * N);
  pp_quota : quota_prepare_io;
  pp_soft : soft_io;
}.

Definition prepare_profile (io : prepare_profile_io) (attempt : string) (bytes : N)
  : W PreparedWorkspace :=
  let! _ := verify_profile (pp_verify io) in
  fun w =>
    if disk_pressure (ws_root w) (pp_stats io) bytes then (Err StorageFile, w)
    else match ws_quota w with
    | Some q =>
        match reserve_directory (pp_quota io) attempt bytes q with
        | (Ok (id, path), q') =>
            (let? '(prepared, _, _) := limit_directory (pp_quota io) id path bytes in Ok prepared,
             with_entries ({[attempt]} ∪ ws_entries w) (with_quota q' w))
        | (Err e, q') => (Err e, with_quota q' w)
        end
    | None => on_entries (prepare_attempt_workspace (pp_soft io) (ws_root w) attempt bytes) w
    end.

Definition reconcile (io : profile_io) (cio : clear_io) : W unit :=
  let! _ := verify_profile io in
  fun w => on_entries (clear_abandoned_attempts cio (ws_root w)) w.

(** [Workspaces::remove] of [path]; [name] is its last component. *)
Definition remove_workspace_dir (io : profile_io) (removed synced : Os.io) (parent : string)
  (name : option string) : W unit :=
  let! _ := verify_profile io in
  let! root := st_gets ws_root in
  match name with
  | Some name =>
      if negb (bool_decide (parent = root)) || negb (canonical_uuid name)
      then st_lift (Err StorageConfiguration)
      else
        let! _ := st_lift (storage_ok removed) in
        let! _ := st_modify (fun w => with_entries (ws_entries w ∖ {[name]}) w) in
        st_lift (storage_ok synced)
  | None => st_lift (Err StorageConfiguration)
  end.
End Profiles.

Arguments Workspaces : clear implicits.

(** * Reconciliation *)

Lemma clear_entry_Ok (io : clear_io) (name : string) (e e' : names) :
  clear_entry io name e = (Ok tt, e') ->
  e' = e ∖ {[name]} /\ (name = CACHE_DIRECTORY \/ canonical_uuid name = true).
Proof.
  unfold clear_entry, st_bind, st_lift, st_modify. destruct (storage_ok (ea_entry _)); [|done].
  destruct (negb (ea_utf8 _)); [done|]. case_bool_decide as Hn.
  - destruct (storage_ok (ea_is_dir _)) as [[]|]; [|done..]. cbn [negb].
    destruct (storage_ok (ea_reopen _)); [|done]. destruct (storage_ok (ea_remove _)); [|done].
    intros [= <-]. auto.
  - destruct (canonical_uuid name); [|done]. destruct (storage_ok (ea_is_dir _)) as [[]|]; [|done..]. cbn [negb].
    destruct (storage_ok (ea_remove _)); [|done]. intros [= <-]. auto.
Qed.

Lemma clear_entries_Ok (io : clear_io) (found : list string) (e e' : names) :
  clear_entries io found e = (Ok tt, e') ->
  e' = e ∖ list_to_set found
  /\ Forall (fun n => n = CACHE_DIRECTORY \/ canonical_uuid n = true) found.
Proof.
  revert e. induction found as [|n found IH]; intros e Hc; cbn [clear_entries] in Hc.
  - injection Hc as <-. split; [set_solver|constructor].
  - unfold st_bind in Hc. destruct (clear_entry io n e) as [[[]|x] e1] eqn:Hn; [|done].
    apply clear_entry_Ok in Hn as [-> Hname]. apply IH in Hc as [-> Hall]. split; [set_solver|by constructor].
Qed.

(** Reconciliation leaves a clean root.  When it succeeds, every entry a
    predecessor left was an attempt directory or the dataset cache, all of them
    are gone, and the root holds only the new cache directory. *)
Theorem reconciled_root_is_clean {S : Type} {ops : RecordStore S} (io : profile_io) (cio : clear_io)
  (w w' : Workspaces S) :
  reconcile io cio w = (Ok tt, w') ->
  ws_entries w' = {[CACHE_DIRECTORY]}
  /\ forall n, n ∈ ws_entries w -> n = CACHE_DIRECTORY \/ canonical_uuid n = true.
Proof.
  unfold reconcile, st_bind at 1. intros Hr.
  destruct (verify_profile io w) as [[u|x] w1] eqn:Hv; [|done].
  assert (He : ws_entries w1 = ws_entries w).
  { unfold verify_profile in Hv. destruct (ws_quota w) as [q|].
    - destruct (verify_workspaces _ q). by injection Hv as _ <-.
    - by injection Hv as _ <-. }
  unfold on_entries in Hr. destruct (clear_abandoned_attempts _ _ _) as [r e] eqn:Hc.
  apply pair_equal_spec in Hr as [-> <-]. cbn [ws_entries with_entries].
  unfold clear_abandoned_attempts, st_bind, st_lift, st_gets, st_modify in Hc.
  destruct (workspace _); [|done]. destruct (negb _); [done|]. destruct (storage_ok (cl_read_dir _)); [|done].
  destruct (clear_entries _ _ _) as [[[]|x] e1] eqn:Hce; [|done].
  apply clear_entries_Ok in Hce as [-> Hall]. destruct (storage_ok (cl_create _)); [|done].
  apply pair_equal_spec in Hc as [_ <-]. rewrite He in *. split.
  - apply set_eq. intros n. rewrite elem_of_union, elem_of_difference, elem_of_list_to_set, elem_of_elements. tauto.
  - intros n Hn. by eapply (proj1 (Forall_forall _ _) Hall n), elem_of_elements.
Qed.

(** ** Witness: two abandoned attempts and an old cache *)

Definition private_root : root_io :=
  {| rt_canonical := Some "/srv/work"%string;
     rt_meta := Ok {| is_file := false; is_dir := true; uid := 1000; mode := 16832; nlink := 3;
                      st_size := 4096 |};
     rt_euid := 1000 |}.

Definition removable : entry_answers :=
  {| ea_entry := Ok tt; ea_utf8 := true; ea_is_dir := Ok true; ea_reopen := Ok tt; ea_remove := Ok tt |}.

Definition clearing : clear_io :=
  {| cl_root := private_root; cl_read_dir := Ok tt; cl_entry := fun _ => removable; cl_create := Ok tt;
     cl_mode := Ok tt |}.

Definition abandoned_root : Workspaces Directory :=
  {| ws_root := "/srv/work"; ws_quota := None;
     ws_entries := {["1b4e28ba-2fa1-11d2-883f-0016d3cca427"; CACHE_DIRECTORY;
                     "2b4e28ba-2fa1-11d2-883f-0016d3cca427"]} |}.

#[local] Instance workspace_store : RecordStore Directory := Directory_store digest_fixture.

Definition soft_answers : profile_io := {| pf_verify := verify_answers; pf_root := private_root |}.

Lemma reconciled_root_is_clean_witness :
  ws_entries (snd (reconcile soft_answers clearing abandoned_root)) = {[CACHE_DIRECTORY]}
  /\ forall n, n ∈ ws_entries abandoned_root -> n = CACHE_DIRECTORY \/ canonical_uuid n = true.
Proof.
  apply (reconciled_root_is_clean soft_answers clearing abandoned_root). vm_compute. reflexivity.
Defined.
