(* ===== verification/Outputs.v ===== *)
(** Bounded collection of declared output files ([rust/worker/src/outputs.rs]).

    The file system is what the calls answer: [oi_openat] for each [openat]
    relative to a directory descriptor, held as the components opened below
    [outputs], and [oi_file] for the calls on an opened file. *)

From S2P Require Import Prelude Strings Os Protocol Lease Control Execution Completion RuntimeConfig.
From S2P Require Import RecordStore JournalRecord Codec JournalEvidence.
Open Scope N_scope.

Module CollectionError.
Inductive t : Type :=
| Configuration | Missing | Unsafe | TooLarge | Limit | Changed | Io (kind : ErrorKind).

#[global] Instance eq_dec : EqDecision t.
Proof. solve_decision. Defined.
End CollectionError.

(** [std::io::Error]: whether the raw error is ELOOP or ENOTDIR, and its kind. *)
Record IoError := {
  ie_not_plain : bool;
  ie_kind : ErrorKind;
}.

Definition from_io (e : IoError) : CollectionError.t :=
  if ie_not_plain e then CollectionError.Unsafe
  else if bool_decide (ie_kind e = Os.NotFound) then CollectionError.Missing
  else CollectionError.Io (ie_kind e).

Record CollectionLimits := {
  max_file_bytes : N;
  max_total_bytes : N;
}.

Definition MAX_FILE_BYTES : N := 67108864.
Definition MAX_TOTAL_BYTES : N := 8589934592.

Definition default_collection_limits : CollectionLimits :=
  {| max_file_bytes := MAX_FILE_BYTES; max_total_bytes := MAX_TOTAL_BYTES |}.

(** [CollectedOutput]; the open file is named by its components. *)
Record CollectedOutput := {
  co_name : string;
  co_size : N;
  co_sha256 : string;
  co_file : list string;
}.

(** [fstat] of an output: the modification and change times in its stamp. *)
Record OutputStat := {
  ou_meta : Metadata;
  ou_times : Z * Z * Z * Z;
}.

Definition regular (m : OutputStat) : result CollectionError.t unit :=
  if negb (is_file (ou_meta m)) || negb (nlink (ou_meta m) =? 1) then Err CollectionError.Unsafe
  else Ok tt.

Definition stamp (m : OutputStat) : N * (Z * Z * Z * Z) := (st_size (ou_meta m), ou_times m).

(** The calls on one open file while it is collected. *)
Record output_io := {
  oo_before : result IoError OutputStat;
  oo_reads : list (result IoError bytes);
  oo_after : result IoError OutputStat;
  oo_rewind : result IoError unit;
}.

(** The calls of [read_metrics]; [mo_body] is [read_to_end] of the whole file. *)
Record metrics_io := {
  mo_before : result IoError OutputStat;
  mo_rewind : result IoError unit;
  mo_body : result IoError bytes;
  mo_after : result IoError OutputStat;
  mo_rewind_again : result IoError unit;
}.

Record collect_io := {
  oi_root : result IoError unit;
  oi_root_stat : result IoError Metadata;
  oi_euid : N;
  oi_openat : list string -> string -> bool -> result IoError unit;
  oi_clone : result IoError unit;
  oi_file : list string -> output_io;
}.

Definition io_ok {A : Type} (r : result IoError A) : result CollectionError.t A := map_err from_io r.

Definition READ_BUFFER : N := 65536.

Section Collection.
Context {lib : Libraries}.

(** The loop over [take(limit)]: the bytes hashed, once the file ends. *)
Fixpoint hash_file (reads : list (result IoError bytes)) (limit size : N) (hashed : bytes)
  : result CollectionError.t bytes :=
  match reads with
  | [] => Ok hashed
  | read :: reads' =>
      let? chunk := io_ok read in
      let got := take (N.to_nat (N.min limit READ_BUFFER)) chunk in
      if bool_decide (got = []) then Ok hashed
      else if size <? len (hashed ++ got) then Err CollectionError.Changed
      else hash_file reads' (limit - len got) size (hashed ++ got)
  end.

Definition read_metrics (io : metrics_io) (o : CollectedOutput)
  : result CollectionError.t (option bytes) :=
  if negb (bool_decide (co_name o = "metrics"%string)) then Err CollectionError.Configuration
  else
    let? before := io_ok (mo_before io) in
    let? _ := regular before in
    if negb (st_size (ou_meta before) =? co_size o) then Err CollectionError.Changed
    else if 65536 <? co_size o then Ok None
    else
      let? _ := io_ok (mo_rewind io) in
      let? all := io_ok (mo_body io) in
      let body := take (N.to_nat (co_size o + 1)) all in
      let? after := io_ok (mo_after io) in
      let? _ := regular after in
      if negb (len body =? co_size o) || negb (bool_decide (stamp before = stamp after))
         || negb (bool_decide (hex (lib_sha256 body) = co_sha256 o))
      then Err CollectionError.Changed
      else
        let? _ := io_ok (mo_rewind_again io) in
        Ok (if valid_metrics lib_metrics body then Some body else None).

Definition open_child (io : collect_io) (parent : list string) (component : string)
  (directory : bool) : result CollectionError.t (list string) :=
  if contains nul component then Err CollectionError.Unsafe
  else
    let? _ := io_ok (oi_openat io parent component directory) in
    Ok (parent ++ [component]).

Fixpoint open_components (io : collect_io) (parent components : list string)
  : result CollectionError.t (list string) :=
  match components with
  | [] => Ok parent
  | component :: rest =>
      let? next := open_child io parent component (negb (bool_decide (rest = []))) in
      open_components io next rest
  end.

(** Below the descriptor of [outputs], from [declaration.path[9..]]. *)
Definition open_declared (io : collect_io) (outputs : list string) (path : string)
  : result CollectionError.t (list string) :=
  let? _ := io_ok (oi_clone io) in
  open_components io outputs (split_on "/" path).

Definition below_outputs (path : string) : string := substring 9 (String.length path - 9) path.

(** A declared file that was opened. *)
Definition collect_file (io : output_io) (limits : CollectionLimits) (d : Output) (file : list string)
  (total : N) : result CollectionError.t (CollectedOutput * N) :=
  let? before := io_ok (oo_before io) in
  let? _ := regular before in
  let size := st_size (ou_meta before) in
  if N.min (out_max_bytes d) (max_file_bytes limits) <? size then Err CollectionError.TooLarge
  else
    let? total := ok_or (u64_checked_add total size) CollectionError.Limit in
    if max_total_bytes limits <? total then Err CollectionError.Limit
    else
      let? body := hash_file (oo_reads io) (size + 1) size [] in
      let? after := io_ok (oo_after io) in
      let? _ := regular after in
      if negb (len body =? size) || negb (bool_decide (stamp before = stamp after))
      then Err CollectionError.Changed
      else
        let? _ := io_ok (oo_rewind io) in
        Ok ({| co_name := out_name d; co_size := len body; co_sha256 := hex (lib_sha256 body);
               co_file := file |}, total).

Fixpoint collect_declared (io : collect_io) (limits : CollectionLimits) (outputs : list string)
  (declarations : list Output) (total : N) : result CollectionError.t (list CollectedOutput) :=
  match declarations with
  | [] => Ok []
  | d :: rest =>
      match open_declared io outputs (below_outputs (out_path d)) with
      | Err CollectionError.Missing =>
          if negb (out_required d) then collect_declared io limits outputs rest total
          else Err CollectionError.Missing
      | Err e => Err e
      | Ok file =>
          let? '(o, total') := collect_file (oi_file io file) limits d file total in
          let? others := collect_declared io limits outputs rest total' in
          Ok (o :: others)
      end
  end.

Definition collect_outputs (io : collect_io) (execution : ExecutionSpec) (limits : CollectionLimits)
  : result CollectionError.t (list CollectedOutput) :=
  if (max_file_bytes limits =? 0) || (MAX_FILE_BYTES <? max_file_bytes limits)
     || (max_total_bytes limits =? 0) || (MAX_TOTAL_BYTES <? max_total_bytes limits)
  then Err CollectionError.Configuration
  else
    let? _ := io_ok (oi_root io) in
    let? metadata := io_ok (oi_root_stat io) in
    if negb (uid metadata =? oi_euid io) || negb (N.land (mode metadata) 18 =? 0)
    then Err CollectionError.Unsafe
    else
      let? outputs := open_child io [] "outputs" true in
      collect_declared io limits outputs (js_outputs (job_spec (es_job execution))) 0.

(** * Lemmas *)

(** What is known of a collected file. *)
Record collected_from (io : output_io) (limits : CollectionLimits) (d : Output) (o : CollectedOutput)
  : Prop := {
  cf_name : co_name o = out_name d;
  cf_size : co_size o <= N.min (out_max_bytes d) (max_file_bytes limits);
  cf_body : exists body, len body = co_size o /\ co_sha256 o = hex (lib_sha256 body)
    /\ hash_file (oo_reads io) (co_size o + 1) (co_size o) [] = Ok body;
  cf_plain : exists before after, oo_before io = Ok before /\ oo_after io = Ok after
    /\ regular before = Ok tt /\ regular after = Ok tt /\ stamp before = stamp after
    /\ st_size (ou_meta before) = co_size o;
}.

Lemma io_ok_Ok {A : Type} (r : result IoError A) (a : A) : io_ok r = Ok a -> r = Ok a.
Proof. by destruct r; intros [= ->]. Qed.

Lemma collect_file_Ok (io : output_io) (limits : CollectionLimits) (d : Output) (file : list string)
  (total total' : N) (o : CollectedOutput) :
  collect_file io limits d file total = Ok (o, total') ->
  collected_from io limits d o /\ co_file o = file /\ total' = total + co_size o
  /\ total' <= max_total_bytes limits.
Proof.
  unfold collect_file. intros H.
  apply rbind_Ok_inv in H as (before & Hb%io_ok_Ok & H).
  apply rbind_Ok_inv in H as ([] & Hr & H).
  destruct (N.ltb_spec (N.min (out_max_bytes d) (max_file_bytes limits)) (st_size (ou_meta before))); [done|].
  apply rbind_Ok_inv in H as (t & Ht%ok_or_Ok_inv & H). apply u64_checked_add_Some in Ht as [-> _].
  destruct (N.ltb_spec (max_total_bytes limits) (total + st_size (ou_meta before))); [done|].
  apply rbind_Ok_inv in H as (body & Hh & H). apply rbind_Ok_inv in H as (after & Ha%io_ok_Ok & H).
  apply rbind_Ok_inv in H as ([] & Hra & H).
  destruct (negb (len body =? _) || _) eqn:Hc; [done|]. rewrite orb_false_iff, !negb_false_iff in Hc.
  destruct Hc as [Hlen%N.eqb_eq Hst%bool_decide_eq_true].
  apply rbind_Ok_inv in H as (u & _ & H). apply Ok_inj, pair_equal_spec in H as [<- <-].
  cbn [co_size co_file]. rewrite Hlen. split_and!; [|done|done|done].
  split; cbn [co_name co_size co_sha256]; [done|lia| |].
  - exists body. rewrite Hlen in *. done.
  - by exists before, after.
Qed.

Definition total_size (l : list CollectedOutput) : N := foldr N.add 0 (map co_size l).

(** The outputs that a list of declarations may yield, in their order: optional
    files that are missing are left out. *)
Inductive collects (io : collect_io) (limits : CollectionLimits) (outputs : list string)
  : list Output -> list CollectedOutput -> Prop :=
| collects_nil : collects io limits outputs [] []
| collects_skip (d : Output) (ds : list Output) (os : list CollectedOutput) :
    out_required d = false ->
    open_declared io outputs (below_outputs (out_path d)) = Err CollectionError.Missing ->
    collects io limits outputs ds os -> collects io limits outputs (d :: ds) os
| collects_file (d : Output) (ds : list Output) (o : CollectedOutput) (os : list CollectedOutput) :
    open_declared io outputs (below_outputs (out_path d)) = Ok (co_file o) ->
    collected_from (oi_file io (co_file o)) limits d o ->
    collects io limits outputs ds os -> collects io limits outputs (d :: ds) (o :: os).

Lemma collect_declared_Ok (io : collect_io) (limits : CollectionLimits) (outputs : list string)
  (ds : list Output) (total : N) (os : list CollectedOutput) :
  collect_declared io limits outputs ds total = Ok os -> total <= max_total_bytes limits ->
  collects io limits outputs ds os /\ total + total_size os <= max_total_bytes limits.
Proof.
  revert total os. induction ds as [|d ds IH]; intros total os H Ht; cbn [collect_declared] in H.
  { apply Ok_inj in H as <-. split; [constructor|]. unfold total_size. simpl. lia. }
  destruct (open_declared _ _ _) as [file|e] eqn:Ho.
  - apply rbind_Ok_inv in H as ([o t'] & Hf & H). apply rbind_Ok_inv in H as (others & Hr & H).
    apply Ok_inj in H as <-. apply collect_file_Ok in Hf as (Hfrom & Hfile & -> & Hmax).
    apply IH in Hr as [Hc Hsum]; [|done]. subst file. split; [by constructor|].
    unfold total_size in *. simpl. lia.
  - destruct e; try done. destruct (out_required d) eqn:Hreq; [done|]. cbn [negb] in H.
    apply IH in H as [Hc Hsum]; [|done]. split; [by constructor|done].
Qed.

Lemma collect_outputs_collects (io : collect_io) (x : ExecutionSpec) (limits : CollectionLimits)
  (os : list CollectedOutput) :
  collect_outputs io x limits = Ok os ->
  collects io limits ["outputs"%string] (js_outputs (job_spec (es_job x))) os
  /\ total_size os <= max_total_bytes limits
  /\ max_total_bytes limits <= MAX_TOTAL_BYTES /\ max_file_bytes limits <= MAX_FILE_BYTES.
Proof.
  unfold collect_outputs. destruct (_ || _) eqn:Hl; [done|].
  rewrite !orb_false_iff, !N.ltb_ge, !N.eqb_neq in Hl. destruct Hl as (((Hf0 & Hf) & Ht0) & Ht). intros H.
  apply rbind_Ok_inv in H as (u & _ & H). apply rbind_Ok_inv in H as (m & _ & H).
  destruct (_ || _); [done|]. apply rbind_Ok_inv in H as (outputs & Ho & H).
  assert (outputs = ["outputs"%string]) as ->.
  { unfold open_child in Ho. change (contains nul "outputs") with false in Ho. cbv iota in Ho.
    apply rbind_Ok_inv in Ho as (v & _ & Ho). by apply Ok_inj in Ho as <-. }
  apply collect_declared_Ok in H as [Hc Hsum]; [|lia]. by split_and!; [|lia|..].
Qed.

(** Collection is bounded and faithful.  Outputs that are collected are those
    declared, in their order, without the optional ones that are missing; each is
    a regular file with one link that did not change while it was hashed, of at
    most its declared size and 64 MiB, with the digest of exactly the bytes read,
    and together they are at most 8 GiB. *)
Theorem collected_outputs_are_declared (io : collect_io) (x : ExecutionSpec) (limits : CollectionLimits)
  (os : list CollectedOutput) :
  collect_outputs io x limits = Ok os ->
  collects io limits ["outputs"%string] (js_outputs (job_spec (es_job x))) os
  /\ total_size os <= MAX_TOTAL_BYTES
  /\ Forall (fun o => co_size o <= MAX_FILE_BYTES) os.
Proof.
  intros (Hc & Hsum & Ht & Hf)%collect_outputs_collects. split_and!; [done|lia|].
  clear Hsum. induction Hc as [|d ds os Hr Hm Hc IH|d ds o os Hm Hfrom Hc IH]; [constructor|done|].
  constructor; [|done]. pose proof (cf_size _ _ _ _ Hfrom). lia.
Qed.

(** Metrics that are read are the bytes of the collected file. *)
Lemma read_metrics_Ok (io : metrics_io) (o : CollectedOutput) (body : bytes) :
  read_metrics io o = Ok (Some body) ->
  co_name o = "metrics"%string /\ len body = co_size o /\ co_sha256 o = hex (lib_sha256 body)
  /\ valid_metrics lib_metrics body = true.
Proof.
  unfold read_metrics. intros H. case_bool_decide as Hn; [|done]. cbn [negb] in H.
  apply rbind_Ok_inv in H as (before & _ & H). apply rbind_Ok_inv in H as ([] & _ & H).
  destruct (negb _); [done|]. destruct (_ <? _); [done|].
  apply rbind_Ok_inv in H as (u & _ & H). apply rbind_Ok_inv in H as (all & _ & H).
  apply rbind_Ok_inv in H as (after & _ & H). apply rbind_Ok_inv in H as ([] & _ & H).
  destruct (_ || _) eqn:Hc; [done|]. rewrite !orb_false_iff, !negb_false_iff in Hc.
  destruct Hc as [[Hlen%N.eqb_eq _] Hsha%bool_decide_eq_true].
  apply rbind_Ok_inv in H as (v & _ & H). destruct (valid_metrics _ _) eqn:Hv; [|done].
  by apply Ok_inj in H as [= <-].
Qed.
End Collection.

(** ** Witness *)

Definition plain_stat (size : N) : OutputStat :=
  {| ou_meta := {| is_file := true; is_dir := false; uid := 0; mode := 420; nlink := 1; st_size := size |};
     ou_times := (1, 2, 3, 4)%Z |}.

Definition no_entry : IoError := {| ie_not_plain := false; ie_kind := Os.NotFound |}.

(** The first declared output holds "hello"; the second, optional, is missing. *)
Definition collect_io_fixture : collect_io :=
  {| oi_root := Ok tt;
     oi_root_stat := Ok {| is_file := false; is_dir := true; uid := 0; mode := 448; nlink := 2; st_size := 0 |};
     oi_euid := 0;
     oi_openat := fun _ component _ => if bool_decide (component = "eval"%string) then Err no_entry else Ok tt;
     oi_clone := Ok tt;
     oi_file := fun _ => {| oo_before := Ok (plain_stat 5);
                            oo_reads := [Ok (str_bytes "he"); Ok (str_bytes "llo"); Ok []];
                            oo_after := Ok (plain_stat 5); oo_rewind := Ok tt |} |}.

Lemma collected_outputs_are_declared_witness :
  exists o, collect_outputs collect_io_fixture spec_fixture default_collection_limits = Ok [o]
  /\ co_name o = "model"%string /\ co_size o <= MAX_FILE_BYTES.
Proof.
  eexists. split_and!; [vm_compute; reflexivity|reflexivity|].
  assert (H : collect_outputs collect_io_fixture spec_fixture default_collection_limits
    = Ok [{| co_name := "model"; co_size := 5; co_sha256 := hex (lib_sha256 (str_bytes "hello"));
             co_file := ["outputs"; "model"]%string |}]) by (vm_compute; reflexivity).
  destruct (collected_outputs_are_declared collect_io_fixture spec_fixture default_collection_limits _ H)
    as (_ & _ & Hall).
  exact (Forall_inv Hall).
Defined.
