(* ===== verification/Async.v ===== *)
(** Futures of the worker.

    An [async fn] is a [task]: a function of an environment and of an execution
    so far.  The environment answers every awaited call, lets other tasks act on
    the shared state while a call is pending, and decides what the authority
    channel shows; theorems quantify over it.  [ex_left] is the number of awaits
    that still complete before the future is dropped, so that [None] is a future
    dropped at an await and a theorem over all [ex_left] covers cancellation at
    every await point.  [ex_calls] is the log of the calls issued and of the answers
    received. *)

From S2P Require Import Prelude Lease Supervisor.

(** What a future that polls an operation between checks sees: a look before the
    operation is first polled, one look for each later turn with the number of
    awaits the operation has completed by then, and the look of the check that
    follows completion. *)
Record guard_plan (L : Type) := {
  gd_first : L;
  gd_wakes : list (nat * L);
  gd_final : L;
}.
Arguments gd_first {L}.
Arguments gd_wakes {L}.
Arguments gd_final {L}.

(** How a [select!] of two futures goes: the awaits the first completes before
    it is ready or dropped, those the second completes, and which one is taken
    when both are ready. *)
Record race_plan := {
  rc_first : nat;
  rc_second : nat;
  rc_takes_first : bool;
}.

(** A clock reading, as [MonoTime::now] returns it. *)
Abbreviation reading := (result LeaseError MonoTime).

Section Tasks.
Context {St : Type} {E : Type -> Type}.

Inductive some_call : Type :=
| Call {X : Type} (e : E X)
| Answer {X : Type} (e : E X) (x : X).

Record env := {
  en_answer : nat -> forall X, E X -> X;
  en_others : nat -> St -> St;
  en_guard : nat -> guard_plan look;
  en_deadline : nat -> guard_plan reading;
  en_look : nat -> look;
  en_race : nat -> race_plan;
  en_started : nat -> bool;
}.

Record exec := {
  ex_state : St;
  ex_authority : SupervisedAuthority;
  ex_clock : nat;
  ex_left : nat;
  ex_calls : list some_call;
}.

Definition task (A : Type) : Type := env -> exec -> option A * exec.

Definition set_left (n : nat) (r : exec) : exec :=
  {| ex_state := ex_state r; ex_authority := ex_authority r; ex_clock := ex_clock r;
     ex_left := n; ex_calls := ex_calls r |}.

Definition set_authority (sa : SupervisedAuthority) (r : exec) : exec :=
  {| ex_state := ex_state r; ex_authority := sa; ex_clock := ex_clock r;
     ex_left := ex_left r; ex_calls := ex_calls r |}.

Definition set_state (s : St) (r : exec) : exec :=
  {| ex_state := s; ex_authority := ex_authority r; ex_clock := ex_clock r;
     ex_left := ex_left r; ex_calls := ex_calls r |}.

Definition tick (r : exec) : exec :=
  {| ex_state := ex_state r; ex_authority := ex_authority r; ex_clock := S (ex_clock r);
     ex_left := ex_left r; ex_calls := ex_calls r |}.

Definition issue {X : Type} (e : E X) (r : exec) : exec :=
  {| ex_state := ex_state r; ex_authority := ex_authority r; ex_clock := ex_clock r;
     ex_left := ex_left r; ex_calls := ex_calls r ++ [Call e] |}.

Definition hear {X : Type} (e : E X) (x : X) (r : exec) : exec :=
  {| ex_state := ex_state r; ex_authority := ex_authority r; ex_clock := ex_clock r;
     ex_left := ex_left r; ex_calls := ex_calls r ++ [Answer e x] |}.

(** * Combinators *)

Definition tret {A : Type} (a : A) : task A := fun _ r => (Some a, r).

Definition tbind {A B : Type} (t : task A) (k : A -> task B) : task B :=
  fun en r =>
    match t en r with
    | (Some a, r') => k a en r'
    | (None, r') => (None, r')
    end.

(** [?] in an [async fn]. *)
Definition tbind_ok {X A B : Type} (t : task (result X A)) (k : A -> task (result X B))
  : task (result X B) :=
  tbind t (fun m => match m with Ok a => k a | Err e => tret (Err e) end).

Definition tmap {A B : Type} (f : A -> B) (t : task A) : task B := tbind t (fun a => tret (f a)).

(** A pending await: dropped, or completed after other tasks have acted. *)
Definition await {A : Type} (answer : nat -> A) : task A :=
  fun en r =>
    match ex_left r with
    | O => (None, r)
    | S n => (Some (answer (ex_clock r)),
              tick (set_left n (set_state (en_others en (ex_clock r) (ex_state r)) r)))
    end.

(** A call of the environment. *)
Definition call {X : Type} (e : E X) : task X :=
  fun en r =>
    match await (fun n => en_answer en n X e) en (issue e r) with
    | (Some x, r') => (Some x, hear e x r')
    | (None, r') => (None, r')
    end.

(** An operation on the shared state that waits for its turn and then runs to its
    end on a thread of its own.  [en_started] says whether the operation of a
    future that is dropped here had been started; then it runs all the same. *)
Definition op {A : Type} (f : St -> A * St) : task A :=
  fun en r =>
    let (a, s) := f (ex_state r) in
    match ex_left r with
    | O => (None, if en_started en (ex_clock r) then set_state s r else r)
    | S _ => await (fun _ => a) en (set_state s r)
    end.

(** An operation on the shared state without an await. *)
Definition act {A : Type} (f : St -> A * St) : task A :=
  fun _ r => let (a, s) := f (ex_state r) in (Some a, set_state s r).

(** A read of the authority channel and of the clock, without an await. *)
Definition observe : task look := fun en r => (Some (en_look en (ex_clock r)), tick r).

(** A synchronous query of the environment. *)
Definition ask {X : Type} (e : E X) : task X :=
  fun en r =>
    let x := en_answer en (ex_clock r) X e in
    (Some x, tick (hear e x (issue e r))).

(** The supervised side's own copy of its authority. *)
Definition authority : task SupervisedAuthority := fun _ r => (Some (ex_authority r), r).

(** [loop]: [inl] is another iteration.  Every iteration of the worker's loops
    completes an await, so the awaits left bound the iterations. *)
Fixpoint iterate {I B : Type} (fuel : nat) (body : I -> task (I + B)) (i : I) : task B :=
  match fuel with
  | O => fun _ r => (None, r)
  | S n => tbind (body i) (fun x => match x with inl i' => iterate n body i' | inr b => tret b end)
  end.

Definition loop {I B : Type} (body : I -> task (I + B)) (i : I) : task B :=
  fun en r => iterate (S (ex_left r)) body i en r.

(** ** An operation polled between checks

    The operation runs until the first turn whose check fails, and is dropped
    there; when it completes, one more check decides. *)
Section Guard.
Context {L C X R A : Type} (check : L -> C -> result X R * C).

(** The first turn whose check fails. *)
Fixpoint first_failure (wakes : list (nat * L)) (c : C) : option (nat * (X * C)) :=
  match wakes with
  | [] => None
  | (k, l) :: wakes' =>
      match check l c with
      | (Err reason, c') => Some (k, (reason, c'))
      | (Ok _, c') => first_failure wakes' c'
      end
  end.

(** The turns taken before the operation completed its await number [used]. *)
Definition taken (used : nat) (wakes : list (nat * L)) : list L :=
  map snd (filter (fun w => (fst w < used)%nat) wakes).

Definition see (looks : list L) (c : C) : C := fold_left (fun c l => snd (check l c)) looks c.

(** Runs [t] up to await number [k]; a task that is still pending then is
    dropped for the reason given. *)
Definition interrupt {Y : Type} (failure : option (nat * Y)) (t : task A) : task (A * nat + Y) :=
  fun en r =>
    let limit := match failure with
                 | Some (k, _) => Nat.min k (ex_left r)
                 | None => ex_left r
                 end in
    let (o, r') := t en (set_left limit r) in
    let used := (limit - ex_left r')%nat in
    let r'' := set_left (ex_left r - used) r' in
    match o, failure with
    | Some a, _ => (Some (inl (a, used)), r'')
    | None, Some (k, y) => if (k <=? ex_left r)%nat then (Some (inr y), r'') else (None, r'')
    | None, None => (None, r'')
    end.

Definition guarded (plan : guard_plan L) (c : C) (t : task A) : task (result X A * C) :=
  match check (gd_first plan) c with
  | (Err reason, c1) => tret (Err reason, c1)
  | (Ok _, c1) =>
      tbind (interrupt (first_failure (gd_wakes plan) c1) t) (fun x =>
        match x with
        | inl (a, used) =>
            let '(checked, c2) := check (gd_final plan) (see (taken used (gd_wakes plan)) c1) in
            tret (let? _ := checked in Ok a, c2)
        | inr (reason, c2) => tret (Err reason, c2)
        end)
  end.
End Guard.

(** [select!] of two futures, the other one being dropped.  Their calls are
    logged one future after the other. *)
Definition select {A B : Type} (first : task A) (second : task B) : task (A + B) :=
  fun en r =>
    let plan := en_race en (ex_clock r) in
    tbind (interrupt (Some (rc_first plan, tt)) first) (fun x =>
      match x with
      | inr _ => tmap inr second
      | inl (a, _) =>
          tmap (fun y => match y with
                         | inl (b, _) => if rc_takes_first plan then inl a else inr b
                         | inr _ => inl a
                         end)
            (interrupt (Some (rc_second plan, tt)) second)
      end) en r.

(** [tokio::time::timeout] of a future with several awaits. *)
Definition timeout {A : Type} (t : task A) : task (option A) :=
  fun en r =>
    tmap (fun x => match x with inl (a, _) => Some a | inr _ => None end)
      (interrupt (Some (rc_first (en_race en (ex_clock r)), tt)) t) en r.

(** [SupervisedAuthority::while_live]. *)
Definition while_live {A : Type} (t : task A) : task (result StopReason A) :=
  fun en r =>
    tbind (guarded check_at (en_guard en (ex_clock r)) (ex_authority r) t)
      (fun '(res, sa) _ r' => (Some res, set_authority sa r')) en r.

(** [while_live] of a borrowed future: whether the future has completed by then,
    so that it must not be polled again. *)
Definition while_live_ref {A : Type} (t : task A) : task (result StopReason A * bool) :=
  fun en r =>
    let plan := en_guard en (ex_clock r) in
    let sa := ex_authority r in
    match check_at (gd_first plan) sa with
    | (Err reason, sa1) => (Some (Err reason, false), set_authority sa1 r)
    | (Ok _, sa1) =>
        tbind (interrupt (first_failure check_at (gd_wakes plan) sa1) t) (fun x =>
          match x with
          | inl (a, used) => fun _ r' =>
              let '(checked, sa2) := check_at (gd_final plan)
                                       (see check_at (taken used (gd_wakes plan)) sa1) in
              (Some (let? _ := checked in Ok a, true), set_authority sa2 r')
          | inr (reason, sa2) => fun _ r' => (Some (Err reason, false), set_authority sa2 r')
          end) en r
    end.

(** [SupervisedAuthority::window], with the two looks it takes. *)
Definition authority_window : task (result StopReason AuthorityWindow) :=
  fun en r =>
    let '(res, sa) := window (en_look en (ex_clock r)) (en_look en (S (ex_clock r)))
                        (ex_authority r) in
    (Some res, tick (tick (set_authority sa r))).
End Tasks.

Arguments some_call : clear implicits.
Arguments env : clear implicits.
Arguments exec : clear implicits.
Arguments task : clear implicits.

Notation "'let&' x ':=' t 'in' k" := (tbind t (fun x => k))
  (at level 10, x name, t at level 100, k at level 200) : dispatch_scope.

Notation "'let&' ' p ':=' t 'in' k" := (tbind t (fun p => k))
  (at level 10, p strict pattern, t at level 100, k at level 200) : dispatch_scope.

Notation "'let&?' x ':=' t 'in' k" := (tbind_ok t (fun x => k))
  (at level 10, x name, t at level 100, k at level 200) : dispatch_scope.

Notation "'let&?' ' p ':=' t 'in' k" := (tbind_ok t (fun p => k))
  (at level 10, p strict pattern, t at level 100, k at level 200) : dispatch_scope.

Definition tlift {St E X A} (m : result X A) : task St E (result X A) := tret m.

(** [map_err] on the outcome of a task. *)
Definition tmap_err {St E X Y A} (f : X -> Y) (t : task St E (result X A)) : task St E (result Y A) :=
  tmap (map_err f) t.

(** * Reasoning about tasks

    [spec en I P t Q]: run from a shared state and a call log in [P], the task
    completes in [Q], or is dropped in [I].  The rules are those of a Hoare
    logic; the invariant [I] is what cancellation at any await leaves. *)

Section Logic.
Context {St : Type} {E : Type -> Type}.
Implicit Types (I P : St -> list (some_call E) -> Prop).

Definition spec (en : env St E) I P {A : Type} (t : task St E A)
  (Q : A -> St -> list (some_call E) -> Prop) : Prop :=
  forall r, P (ex_state r) (ex_calls r) ->
  match t en r with
  | (Some a, r') => Q a (ex_state r') (ex_calls r')
  | (None, r') => I (ex_state r') (ex_calls r')
  end.

Context (en : env St E).

Lemma spec_conseq {A : Type} I P P' (t : task St E A) (Q Q' : A -> St -> list (some_call E) -> Prop) :
  spec en I P' t Q' -> (forall s cs, P s cs -> P' s cs) ->
  (forall a s cs, Q' a s cs -> Q a s cs) -> spec en I P t Q.
Proof.
  intros H HP HQ r Hr. specialize (H r (HP _ _ Hr)). destruct (t en r) as [[a|] r']; auto.
Qed.

(** A fact of no state. *)
Lemma spec_fact {A : Type} (F : Prop) I P (t : task St E A) (Q : A -> St -> list (some_call E) -> Prop) :
  (F -> spec en I P t Q) -> spec en I (fun s cs => F /\ P s cs) t Q.
Proof. intros Ht r [HF Hr]. by apply Ht. Qed.

Lemma spec_fact_of {A : Type} (F : Prop) I P (t : task St E A) (Q : A -> St -> list (some_call E) -> Prop) :
  (forall s cs, P s cs -> F) -> (F -> spec en I P t Q) -> spec en I P t Q.
Proof. intros HF Ht r Hr. apply Ht; [by eapply HF|done]. Qed.

Lemma spec_exists {A X : Type} I (P : X -> St -> list (some_call E) -> Prop) (t : task St E A)
  (Q : A -> St -> list (some_call E) -> Prop) :
  (forall x, spec en I (P x) t Q) -> spec en I (fun s cs => exists x, P x s cs) t Q.
Proof. intros Ht r [x Hx]. by eapply Ht. Qed.

Lemma spec_ret {A : Type} I P (a : A) (Q : A -> St -> list (some_call E) -> Prop) :
  (forall s cs, P s cs -> Q a s cs) -> spec en I P (tret a) Q.
Proof. intros H r Hr. by apply H. Qed.

Lemma spec_bind {A B : Type} I P (t : task St E A) (k : A -> task St E B)
  (R : A -> St -> list (some_call E) -> Prop) (Q : B -> St -> list (some_call E) -> Prop) :
  spec en I P t R -> (forall a, spec en I (R a) (k a) Q) -> spec en I P (tbind t k) Q.
Proof.
  intros Ht Hk r Hr. unfold tbind. specialize (Ht r Hr). destruct (t en r) as [[a|] r']; [|done].
  by apply Hk.
Qed.

(** [?]: an error ends the task. *)
Lemma spec_bind_ok {X A B : Type} I P (t : task St E (result X A)) (k : A -> task St E (result X B))
  (R : A -> St -> list (some_call E) -> Prop)
  (F : X -> St -> list (some_call E) -> Prop)
  (Q : result X B -> St -> list (some_call E) -> Prop) :
  spec en I P t (fun m => match m with Ok a => R a | Err e => F e end) ->
  (forall e s cs, F e s cs -> Q (Err e) s cs) ->
  (forall a, spec en I (R a) (k a) Q) -> spec en I P (tbind_ok t k) Q.
Proof.
  intros Ht HF Hk. eapply spec_bind; [exact Ht|]. intros [a|e]; [apply Hk|].
  apply spec_ret. apply HF.
Qed.

(** [?] on a computed result. *)
Lemma spec_pure {X A B : Type} I P (m : result X A) (k : A -> task St E (result X B))
  (Q : result X B -> St -> list (some_call E) -> Prop) :
  (forall e s cs, m = Err e -> P s cs -> Q (Err e) s cs) ->
  (forall a, m = Ok a -> spec en I P (k a) Q) -> spec en I P (tbind_ok (tret m) k) Q.
Proof.
  intros He Hk. destruct m as [a|e]; [exact (Hk a eq_refl)|].
  intros r Hr. by apply He.
Qed.

Lemma spec_map {A B : Type} I P (f : A -> B) (t : task St E A)
  (Q : B -> St -> list (some_call E) -> Prop) :
  spec en I P t (fun a => Q (f a)) -> spec en I P (tmap f t) Q.
Proof. intros Ht. eapply spec_bind; [exact Ht|]. intros a. by apply spec_ret. Qed.

Lemma spec_await {A : Type} I P (answer : nat -> A) (Q : A -> St -> list (some_call E) -> Prop) :
  (forall s cs, P s cs -> I s cs) ->
  (forall n s cs, P s cs -> Q (answer n) (en_others en n s) cs) ->
  spec en I P (await answer) Q.
Proof.
  intros HI HQ r Hr. unfold await. destruct (ex_left r); simpl; [by apply HI|by apply HQ].
Qed.

Lemma spec_call {X : Type} I P (e : E X) (Q : X -> St -> list (some_call E) -> Prop) :
  (forall s cs, P s cs -> I s (cs ++ [Call e])) ->
  (forall n x s cs, P s cs -> x = en_answer en n X e ->
     Q x (en_others en n s) ((cs ++ [Call e]) ++ [Answer e x])) ->
  spec en I P (call e) Q.
Proof.
  intros HI HQ r Hr. unfold call, await. simpl.
  destruct (ex_left r); simpl; [by apply HI|by apply HQ].
Qed.

Lemma spec_op {A : Type} I P (f : St -> A * St) (Q : A -> St -> list (some_call E) -> Prop) :
  (forall s cs, P s cs -> I s cs) ->
  (forall s cs a s', P s cs -> f s = (a, s') -> I s' cs) ->
  (forall n s cs a s', P s cs -> f s = (a, s') -> Q a (en_others en n s') cs) ->
  spec en I P (op f) Q.
Proof.
  intros HP HI HQ r Hr. unfold op, await. destruct (f (ex_state r)) as [a s] eqn:Hf.
  destruct (ex_left r) eqn:Hl; simpl.
  - destruct (en_started en _); [by eapply HI|by apply HP].
  - rewrite Hl. by eapply HQ.
Qed.

Lemma spec_act {A : Type} I P (f : St -> A * St) (Q : A -> St -> list (some_call E) -> Prop) :
  (forall s cs a s', P s cs -> f s = (a, s') -> Q a s' cs) -> spec en I P (act f) Q.
Proof.
  intros HQ r Hr. unfold act. destruct (f (ex_state r)) as [a s] eqn:Hf. simpl. by eapply HQ.
Qed.

Lemma spec_ask {X : Type} I P (e : E X) (Q : X -> St -> list (some_call E) -> Prop) :
  (forall x s cs, P s cs -> Q x s ((cs ++ [Call e]) ++ [Answer e x])) -> spec en I P (ask e) Q.
Proof. intros HQ r Hr. by apply HQ. Qed.

Lemma spec_observe I P (Q : look -> St -> list (some_call E) -> Prop) :
  (forall l s cs, P s cs -> Q l s cs) -> spec en I P observe Q.
Proof. intros HQ r Hr. by apply HQ. Qed.

Lemma spec_authority I P (Q : SupervisedAuthority -> St -> list (some_call E) -> Prop) :
  (forall sa s cs, P s cs -> Q sa s cs) -> spec en I P authority Q.
Proof. intros HQ r Hr. by apply HQ. Qed.

Lemma spec_authority_window I P (Q : result StopReason AuthorityWindow -> St -> list (some_call E) -> Prop) :
  (forall w s cs, P s cs -> Q w s cs) -> spec en I P authority_window Q.
Proof. intros HQ r Hr. unfold authority_window. destruct (window _ _ _). by apply HQ. Qed.

Lemma spec_interrupt {A Y : Type} I P (f : option (nat * Y)) (t : task St E A)
  (Q : A * nat + Y -> St -> list (some_call E) -> Prop) :
  spec en I P t (fun a s cs => forall n, Q (inl (a, n)) s cs) ->
  (forall y s cs, I s cs -> Q (inr y) s cs) -> spec en I P (interrupt f t) Q.
Proof.
  intros Ht HI r Hr. unfold interrupt. set (limit := match f with Some _ => _ | None => _ end).
  specialize (Ht (set_left limit r) Hr). destruct (t en _) as [[a|] r']; simpl; [done|].
  destruct f as [[k y]|]; simpl; [|done]. destruct (_ <=? _)%nat; simpl; auto.
Qed.

Lemma spec_guarded {L C X R A : Type} (check : L -> C -> result X R * C) (plan : guard_plan L)
  (c : C) (t : task St E A) I P (Q : A -> St -> list (some_call E) -> Prop)
  (Q' : result X A * C -> St -> list (some_call E) -> Prop) :
  (forall s cs, P s cs -> I s cs) -> (forall a s cs, Q a s cs -> I s cs) -> spec en I P t Q ->
  (forall a c' s cs, Q a s cs -> Q' (Ok a, c') s cs) ->
  (forall e c' s cs, I s cs -> Q' (Err e, c') s cs) ->
  spec en I P (guarded check plan c t) Q'.
Proof.
  intros HP HQ Ht Hok Herr. unfold guarded. destruct (check (gd_first plan) c) as [[rem|e] c1].
  2: { apply spec_ret. auto. }
  eapply (spec_bind _ _ _ _ (fun x s cs => match x with inl (a, _) => Q a s cs | inr _ => I s cs end)).
  - apply spec_interrupt; [|done]. eapply spec_conseq; [exact Ht|done|]. by intros a s cs H n.
  - intros [[a n]|[e c2]].
    + destruct (check (gd_final plan) _) as [[?|e] c2]; apply spec_ret; simpl; eauto.
    + by apply spec_ret; auto.
Qed.

(** Under [while_live] the operation completes, or an error leaves what
    dropping it leaves. *)
Lemma spec_while_live {A : Type} I P (t : task St E A) (Q : A -> St -> list (some_call E) -> Prop)
  (Q' : result StopReason A -> St -> list (some_call E) -> Prop) :
  (forall s cs, P s cs -> I s cs) -> (forall a s cs, Q a s cs -> I s cs) -> spec en I P t Q ->
  (forall a s cs, Q a s cs -> Q' (Ok a) s cs) ->
  (forall e s cs, I s cs -> Q' (Err e) s cs) ->
  spec en I P (while_live t) Q'.
Proof.
  intros HP HQ Ht Hok Herr r Hr. unfold while_live.
  apply (spec_bind I P (guarded check_at (en_guard en (ex_clock r)) (ex_authority r) t) _
    (fun x => Q' (fst x))); [|by intros [res sa] r' Hr'|done].
  by eapply (spec_guarded _ _ _ _ _ _ Q); simpl; auto.
Qed.

Lemma spec_drop {A : Type} I I' P (t : task St E A) (Q : A -> St -> list (some_call E) -> Prop) :
  spec en I P t Q -> (forall s cs, I s cs -> I' s cs) -> spec en I' P t Q.
Proof. intros Ht HI r Hr. specialize (Ht r Hr). destruct (t en r) as [[a|] r']; auto. Qed.

(** The first future keeps what the second starts from. *)
Lemma spec_select {A B : Type} I P (t : task St E A) (u : task St E B) (F : A -> Prop)
  (Q : A + B -> St -> list (some_call E) -> Prop) :
  (forall s cs, P s cs -> I s cs) ->
  spec en P P t (fun a s cs => P s cs /\ F a) ->
  spec en I P u (fun b => Q (inr b)) ->
  (forall a s cs, F a -> I s cs -> Q (inl a) s cs) ->
  (forall b s cs, Q (inr b) s cs -> I s cs) ->
  spec en I P (select t u) Q.
Proof.
  intros HI Ht Hu Ha Hb r Hr. unfold select. set (plan := en_race en (ex_clock r)).
  refine (spec_bind I P (interrupt _ t) _
    (fun x s cs => P s cs /\ match x with inl (a, _) => F a | inr _ => True end) Q _ _ r Hr).
  - apply (spec_drop P); [apply spec_interrupt|done]; [|by intros].
    eapply spec_conseq; [exact Ht|done|]. by intros a s cs H n.
  - intros [[a n]|u0].
    + intros r' [Hr' HF]. refine (spec_map I P _ (interrupt _ u) Q _ r' Hr').
      apply spec_interrupt; [|auto].
      eapply spec_conseq; [exact Hu|done|]. intros b s cs H k.
      destruct (rc_takes_first plan); [|done]. apply Ha; [done|]. exact (Hb b _ _ H).
    + intros r' [Hr' _]. refine (spec_map I P _ u Q _ r' Hr'). exact Hu.
Qed.

Lemma spec_timeout {A : Type} I P (t : task St E A) (Q : option A -> St -> list (some_call E) -> Prop) :
  spec en I P t (fun a => Q (Some a)) -> (forall s cs, I s cs -> Q None s cs) ->
  spec en I P (timeout t) Q.
Proof.
  intros Ht HI r Hr. unfold timeout. refine (spec_map I P _ (interrupt _ t) Q _ r Hr).
  apply spec_interrupt; [|by intros []]. eapply spec_conseq; [exact Ht|done|]. by intros a s cs Ha n.
Qed.

(** A borrowed future sees the same checks. *)
Lemma while_live_ref_fst {A : Type} (t : task St E A) (r : exec St E) :
  while_live t en r = tmap fst (while_live_ref t) en r.
Proof.
  unfold while_live, guarded, tmap, while_live_ref, tbind, tret.
  destruct (check_at _ _) as [[d|e] sa1]; [|done].
  destruct (interrupt _ t en r) as [[[[a used]|[e sa2]]|] r']; [|done..].
  by destruct (check_at _ _) as [checked sa2].
Qed.

Lemma spec_while_live_ref {A : Type} I P (t : task St E A)
  (Q : result StopReason A * bool -> St -> list (some_call E) -> Prop) :
  (forall e s cs, P s cs -> Q (Err e, false) s cs) -> (forall e s cs, I s cs -> Q (Err e, false) s cs) ->
  spec en I P t (fun a s cs => Q (Ok a, true) s cs /\ forall e, Q (Err e, true) s cs) ->
  spec en I P (while_live_ref t) Q.
Proof.
  intros HP HI Ht r Hr. unfold while_live_ref. destruct (check_at _ _) as [[d|e] sa1]; [|by apply HP].
  refine (spec_bind I P _ _ (fun x s cs => match x with
    | inl (a, _) => Q (Ok a, true) s cs /\ (forall e, Q (Err e, true) s cs)
    | inr (e, _) => Q (Err e, false) s cs end) Q _ _ r Hr).
  - apply spec_interrupt; [|intros [e sa2]; apply HI]. eapply spec_conseq; [exact Ht|done|]. by intros a s cs Ha n.
  - intros [[a n]|[e sa2]] r' Hr'; [|done]. destruct (check_at _ _) as [[d'|e] sa2]; apply Hr'.
Qed.

Lemma spec_loop {J B : Type} I (Inv : J -> St -> list (some_call E) -> Prop)
  (body : J -> task St E (J + B)) (j : J) (Q : B -> St -> list (some_call E) -> Prop) :
  (forall i s cs, Inv i s cs -> I s cs) ->
  (forall i, spec en I (Inv i) (body i)
     (fun x s cs => match x with inl i' => Inv i' s cs | inr b => Q b s cs end)) ->
  spec en I (Inv j) (loop body j) Q.
Proof.
  intros HI Hb r Hr. unfold loop. generalize (S (ex_left r)) as fuel. intros fuel.
  revert j r Hr. induction fuel as [|n IH]; intros j r Hr; simpl; [by eapply HI|].
  unfold tbind. specialize (Hb j r Hr). destruct (body j en r) as [[[j'|x]|] r']; simpl; [|done..].
  by apply IH.
Qed.
End Logic.

(** ** What a task keeps

    [keeps en P t]: [P] holds throughout, when the task is dropped and when it
    completes. *)
Section Keeps.
Context {St : Type} {E : Type -> Type} (en : env St E) (P : St -> list (some_call E) -> Prop).

Definition keeps {A : Type} (t : task St E A) : Prop := spec en P P t (fun _ => P).

Lemma keeps_ret {A : Type} (a : A) : keeps (tret a).
Proof. by apply spec_ret. Qed.

Lemma keeps_bind {A B : Type} (t : task St E A) (k : A -> task St E B) :
  keeps t -> (forall a, keeps (k a)) -> keeps (tbind t k).
Proof. intros Ht Hk. by eapply spec_bind; [exact Ht|]. Qed.

Lemma keeps_bind_ok {X A B : Type} (t : task St E (result X A)) (k : A -> task St E (result X B)) :
  keeps t -> (forall a, keeps (k a)) -> keeps (tbind_ok t k).
Proof. intros Ht Hk. apply keeps_bind; [done|]. intros [a|e]; [apply Hk|apply keeps_ret]. Qed.

Lemma keeps_map {A B : Type} (f : A -> B) (t : task St E A) : keeps t -> keeps (tmap f t).
Proof. intros Ht. apply keeps_bind; [done|]. intros a. apply keeps_ret. Qed.

Lemma keeps_observe : keeps observe.
Proof. by apply spec_observe. Qed.

Lemma keeps_authority : keeps authority.
Proof. by apply spec_authority. Qed.

Lemma keeps_window : keeps authority_window.
Proof. by apply spec_authority_window. Qed.

Lemma keeps_ask {X : Type} (e : E X) :
  (forall s cs, P s cs -> P s (cs ++ [Call e])) ->
  (forall x s cs, P s cs -> P s (cs ++ [Answer e x])) -> keeps (ask e).
Proof. intros Hc Ha. apply spec_ask. intros x s cs Hs. by apply Ha, Hc. Qed.

Lemma keeps_loop {I B : Type} (body : I -> task St E (I + B)) (i : I) :
  (forall i, keeps (body i)) -> keeps (loop body i).
Proof.
  intros Hb. apply (spec_loop en P (fun _ => P)); [done|]. intros j.
  eapply spec_conseq; [apply Hb|done|]. by intros [?|?].
Qed.

Lemma keeps_interrupt {A Y : Type} (f : option (nat * Y)) (t : task St E A) :
  keeps t -> keeps (interrupt f t).
Proof. intros Ht. apply spec_interrupt; [|done]. by eapply spec_conseq; [exact Ht| |]. Qed.

Lemma keeps_guarded {L C X R A : Type} (check : L -> C -> result X R * C) (plan : guard_plan L)
  (c : C) (t : task St E A) : keeps t -> keeps (guarded check plan c t).
Proof. intros Ht. by eapply spec_guarded; [..|exact Ht| |]. Qed.

Lemma keeps_while_live {A : Type} (t : task St E A) : keeps t -> keeps (while_live t).
Proof. intros Ht. by eapply spec_while_live; [..|exact Ht| |]. Qed.

Lemma keeps_select {A B : Type} (t : task St E A) (u : task St E B) :
  keeps t -> keeps u -> keeps (select t u).
Proof.
  intros Ht Hu. apply (spec_select en P P t u (fun _ => True)); try done.
  by eapply spec_conseq; [exact Ht|done|].
Qed.

Lemma keeps_timeout {A : Type} (t : task St E A) : keeps t -> keeps (timeout t).
Proof. intros Ht. by apply spec_timeout. Qed.

Lemma keeps_while_live_ref {A : Type} (t : task St E A) : keeps t -> keeps (while_live_ref t).
Proof. intros Ht. apply spec_while_live_ref; [done..|]. by eapply spec_conseq; [exact Ht| |]. Qed.

(** A task that keeps [P], inside one that gives up to [I]. *)
Lemma keeps_spec {A : Type} (I : St -> list (some_call E) -> Prop) (t : task St E A) :
  keeps t -> (forall s cs, P s cs -> I s cs) -> spec en I P t (fun _ => P).
Proof. intros Ht HI. by eapply spec_drop; [exact Ht|]. Qed.

Lemma keeps_try {X A B : Type} (I : St -> list (some_call E) -> Prop) (t : task St E (result X A))
  (k : A -> task St E (result X B)) (Q : result X B -> St -> list (some_call E) -> Prop) :
  keeps t -> (forall s cs, P s cs -> I s cs) -> (forall e s cs, P s cs -> Q (Err e) s cs) ->
  (forall a, spec en I P (k a) Q) -> spec en I P (tbind_ok t k) Q.
Proof.
  intros Ht HI He Hk. eapply spec_bind; [by apply keeps_spec|]. intros [a|e]; [apply Hk|].
  apply spec_ret. apply He.
Qed.
End Keeps.

(** Two specifications of the same task. *)
Lemma spec_and {St : Type} {E : Type -> Type} (en : env St E) {A : Type} (t : task St E A)
  (I P I' P' : St -> list (some_call E) -> Prop) (Q Q' : A -> St -> list (some_call E) -> Prop) :
  spec en I P t Q -> spec en I' P' t Q' ->
  spec en (fun s cs => I s cs /\ I' s cs) (fun s cs => P s cs /\ P' s cs) t (fun a s cs => Q a s cs /\ Q' a s cs).
Proof.
  intros Ht Ht' r [Hp Hp']. specialize (Ht r Hp). specialize (Ht' r Hp'). by destruct (t en r) as [[a|] r'].
Qed.

(** What the task keeps can be added to what it establishes. *)
Lemma spec_frame {St : Type} {E : Type -> Type} (en : env St E) {A : Type} (t : task St E A)
  (I P F : St -> list (some_call E) -> Prop) (Q : A -> St -> list (some_call E) -> Prop) :
  spec en I P t Q -> keeps en F t ->
  spec en (fun s cs => I s cs /\ F s cs) (fun s cs => P s cs /\ F s cs) t (fun a s cs => Q a s cs /\ F s cs).
Proof. intros Ht Hf. exact (spec_and en t I P F F Q (fun _ => F) Ht Hf). Qed.

Lemma spec_trivial {St : Type} {E : Type -> Type} (en : env St E) {A : Type} (t : task St E A)
  (P : St -> list (some_call E) -> Prop) : spec en (fun _ _ => True) P t (fun _ _ _ => True).
Proof. intros r _. by destruct (t en r) as [[a|] r']. Qed.

(** * Termination

    [within n t]: whatever the environment does, the task takes at most [n]
    awaits, and completes unless it is dropped before. *)

Section Termination.
Context {St : Type} {E : Type -> Type}.

Definition within (n : nat) {A : Type} (t : task St E A) : Prop :=
  forall en r, let (o, r') := t en r in
  (ex_left r' <= ex_left r <= ex_left r' + n)%nat /\ ((n <= ex_left r)%nat -> o <> None).

Lemma within_ret {A : Type} (a : A) : within 0 (tret a).
Proof. intros en r. simpl. split; [lia|done]. Qed.

Lemma within_mono {A : Type} (n m : nat) (t : task St E A) :
  within n t -> (n <= m)%nat -> within m t.
Proof.
  intros H Hm en r. specialize (H en r). destruct (t en r) as [o r'] eqn:Ht.
  destruct H as [Hl Ho]. split; [lia|]. intros Hr. apply Ho. lia.
Qed.

Lemma within_bind {A B : Type} (n m : nat) (t : task St E A) (k : A -> task St E B) :
  within n t -> (forall a, within m (k a)) -> within (n + m) (tbind t k).
Proof.
  intros Ht Hk en r. unfold tbind. specialize (Ht en r). destruct (t en r) as [[a|] r1].
  - specialize (Hk a en r1). destruct (k a en r1) as [o r2]. destruct Ht as [H1 _], Hk as [H2 Ho].
    split; [lia|]. intros Hr. apply Ho. lia.
  - destruct Ht as [H1 Ho]. split; [lia|]. intros Hr. exfalso. apply Ho; [lia|done].
Qed.

Lemma within_bind_ok {X A B : Type} (n m : nat) (t : task St E (result X A))
  (k : A -> task St E (result X B)) :
  within n t -> (forall a, within m (k a)) -> within (n + m) (tbind_ok t k).
Proof.
  intros Ht Hk. apply within_bind; [done|]. intros [a|e]; [apply Hk|].
  eapply within_mono; [apply within_ret|lia].
Qed.

Lemma within_map {A B : Type} (n : nat) (f : A -> B) (t : task St E A) :
  within n t -> within n (tmap f t).
Proof.
  intros Ht. rewrite <- (Nat.add_0_r n). apply within_bind; [done|]. intros a. apply within_ret.
Qed.

(** A task with a smaller bound, then the rest. *)
Lemma within_then {A B : Type} (n m k : nat) (t : task St E A) (f : A -> task St E B) :
  within n t -> (n + m <= k)%nat -> (forall a, within m (f a)) -> within k (tbind t f).
Proof. intros Ht Hk Hf. eapply within_mono; [by apply within_bind|done]. Qed.

Lemma within_try {X A B : Type} (n m k : nat) (t : task St E (result X A))
  (f : A -> task St E (result X B)) :
  within n t -> (n + m <= k)%nat -> (forall a, within m (f a)) -> within k (tbind_ok t f).
Proof. intros Ht Hk Hf. eapply within_mono; [by apply within_bind_ok|done]. Qed.

Lemma within_ret_any {A : Type} (n : nat) (a : A) : within n (tret a).
Proof. eapply within_mono; [apply within_ret|lia]. Qed.

(** [?] on a computed result. *)
Lemma within_pure {X A B : Type} (n : nat) (m : result X A) (k : A -> task St E (result X B)) :
  (forall a, m = Ok a -> within n (k a)) -> within n (tbind_ok (tret m) k).
Proof.
  intros Hk. destruct m as [a|e]; [exact (Hk a eq_refl)|]. intros en r. simpl. split; [lia|done].
Qed.

Lemma within_await {A : Type} (answer : nat -> A) : within 1 (await answer : task St E A).
Proof.
  intros en r. unfold await. destruct (ex_left r) as [|n] eqn:Hn; simpl; (split; [lia|]); [lia|done].
Qed.

Lemma within_call {X : Type} (e : E X) : within 1 (call e : task St E X).
Proof.
  intros en r. pose proof (within_await (fun n => en_answer en n X e) en (issue e r)) as Hw.
  unfold call. destruct (await _ en (issue e r)) as [[x|] r']; exact Hw || (split; [apply Hw|done]).
Qed.

Lemma within_op {A : Type} (f : St -> A * St) : within 1 (op f : task St E A).
Proof.
  intros en r. unfold op. destruct (f (ex_state r)) as [a s]. destruct (ex_left r) eqn:Hl.
  - destruct (en_started en _); simpl; (split; [lia|]); lia.
  - rewrite <- Hl. apply (within_await _ en (set_state s r)).
Qed.

Lemma within_act {A : Type} (f : St -> A * St) : within 0 (act f : task St E A).
Proof. intros en r. unfold act. destruct (f _) as [a s]. simpl. split; [lia|done]. Qed.

Lemma within_ask {X : Type} (e : E X) : within 0 (ask e : task St E X).
Proof. intros en r. simpl. split; [lia|done]. Qed.

Lemma within_observe : within 0 (observe : task St E look).
Proof. intros en r. simpl. split; [lia|done]. Qed.

Lemma within_authority : within 0 (authority : task St E SupervisedAuthority).
Proof. intros en r. simpl. split; [lia|done]. Qed.

Lemma within_authority_window : within 0 (authority_window : task St E _).
Proof.
  intros en r. unfold authority_window. destruct (window _ _ _) as [w sa]. simpl. split; [lia|done].
Qed.

(** Interruption only shortens a task. *)
Lemma within_interrupt {A Y : Type} (n : nat) (f : option (nat * Y)) (t : task St E A) :
  within n t -> within n (interrupt f t).
Proof.
  intros Ht en r. unfold interrupt. set (limit := match f with Some _ => _ | None => _ end).
  specialize (Ht en (set_left limit r)). destruct (t en _) as [o r']. cbn [set_left ex_left] in Ht.
  assert (Hlim : (limit <= ex_left r)%nat) by (subst limit; destruct f as [[k y]|]; lia).
  destruct Ht as [Hl Ho], o as [a|]; simpl; [split; [lia|done]|].
  destruct f as [[k y]|]; simpl.
  - destruct (Nat.leb_spec k (ex_left r)); simpl; [split; [lia|done]|].
    split; [lia|]. intros Hn. exfalso. apply Ho; [subst limit; lia|done].
  - split; [lia|]. intros Hn. exfalso. apply Ho; [subst limit; lia|done].
Qed.

Lemma within_guarded {L C X R A : Type} (check : L -> C -> result X R * C) (plan : guard_plan L)
  (c : C) (n : nat) (t : task St E A) :
  within n t -> within n (guarded check plan c t).
Proof.
  intros Ht. unfold guarded. destruct (check (gd_first plan) c) as [[rem|e] c1].
  - rewrite <- (Nat.add_0_r n). apply within_bind; [by apply within_interrupt|].
    intros [[a k]|[e c2]]; [destruct (check _ _) as [? ?]|]; apply within_ret.
  - eapply within_mono; [apply within_ret|lia].
Qed.

Lemma within_while_live {A : Type} (n : nat) (t : task St E A) :
  within n t -> within n (while_live t).
Proof.
  intros Ht en r. unfold while_live, tbind.
  pose proof (within_guarded check_at (en_guard en (ex_clock r)) (ex_authority r) n t Ht en r) as H.
  destruct (guarded _ _ _ _ _ _) as [[[res sa]|] r']; destruct H as [Hl Ho]; (split; [done|]); [done|].
  intros Hn. by destruct (Ho Hn).
Qed.

Lemma within_select {A B : Type} (n m : nat) (t : task St E A) (u : task St E B) :
  within n t -> within m u -> within (n + m) (select t u).
Proof.
  intros Ht Hu en r. unfold select.
  match goal with |- context [tbind ?t0 ?k0 en r] => apply (within_bind n m t0 k0) end.
  - by apply within_interrupt.
  - intros [[a k]|u0]; apply within_map; [by apply within_interrupt|done].
Qed.

Lemma within_timeout {A : Type} (n : nat) (t : task St E A) : within n t -> within n (timeout t).
Proof. intros Ht en r. unfold timeout. apply within_map. by apply within_interrupt. Qed.

(** ** Loops *)

(** An iteration that is followed by another one has used an await. *)
Definition advances {I B : Type} (t : task St E (I + B)) : Prop :=
  forall en r i r', t en r = (Some (inl i), r') -> (ex_left r' < ex_left r)%nat.

(** Fuel beyond the awaits left changes nothing. *)
Lemma iterate_fuel {I B : Type} (body : I -> task St E (I + B)) (n m : nat) (i : I) (en : env St E)
  (r : exec St E) :
  (forall i, advances (body i)) -> (ex_left r < n)%nat -> (ex_left r < m)%nat ->
  iterate n body i en r = iterate m body i en r.
Proof.
  intros Hb. revert m i r. induction n as [|n IH]; intros m i r Hn Hm; [lia|].
  destruct m as [|m]; [lia|]. simpl. unfold tbind. specialize (Hb i en r) as Hi.
  destruct (body i en r) as [[[i'|b]|] r']; [|done..].
  specialize (Hi _ _ eq_refl). apply IH; lia.
Qed.

(** The equation of a Rust [loop]. *)
Lemma loop_unfold {I B : Type} (body : I -> task St E (I + B)) (i : I) (en : env St E) (r : exec St E) :
  (forall i, advances (body i)) ->
  loop body i en r
  = tbind (body i) (fun x => match x with inl i' => loop body i' | inr b => tret b end) en r.
Proof.
  intros Hb. unfold loop at 1. cbn [iterate]. unfold tbind. specialize (Hb i en r) as Hi.
  destruct (body i en r) as [[[i'|b]|] r']; [|done..].
  specialize (Hi _ _ eq_refl). unfold loop. apply iterate_fuel; [done|lia..].
Qed.
End Termination.

#[export] Hint Resolve keeps_ret keeps_map keeps_observe keeps_authority keeps_window
  keeps_while_live keeps_select : dispatch.

#[export] Hint Resolve within_ret_any within_call within_op within_act within_ask within_observe within_authority
  within_authority_window within_map within_while_live : dispatch.

(** ** Agreement with the supervised side

    [Supervisor.while_live] is the same loop over the turns of the executor, one
    at a time.  When the operation completes, the turns it took and its
    completion determine the outcome and the authority kept; when it is dropped,
    the failing turn does. *)

(** Turns that end with the completion of the operation. *)
Fixpoint completed_turns {A : Type} (l : look) (looks : list look) (final : look) (a : A)
  : list (look * wake A) :=
  match looks with
  | [] => [(l, Completed a final)]
  | l' :: looks' => (l, Woken) :: completed_turns l' looks' final a
  end.

(** Every check of a list of looks passes. *)
Fixpoint passing (looks : list look) (sa : SupervisedAuthority) : Prop :=
  match looks with
  | [] => True
  | l :: looks' => is_ok (fst (check_at l sa)) = true /\ passing looks' (snd (check_at l sa))
  end.

Lemma completed_turns_spec {A : Type} (l : look) (looks : list look) (final : look) (a : A)
  (sa : SupervisedAuthority) :
  passing (l :: looks) sa ->
  Supervisor.while_live (completed_turns l looks final a) sa
  = let '(checked, sa') := check_at final (see check_at (l :: looks) sa) in
    (Some (let? _ := checked in Ok a), sa').
Proof.
  revert l sa. induction looks as [|l' looks IH]; intros l sa [Hl H]; unfold see;
    cbn [completed_turns Supervisor.while_live fold_left];
    destruct (check_at l sa) as [[d|e] sa1]; try done.
  - cbn [snd]. by destruct (check_at final sa1) as [[?|?] sa2].
  - by rewrite IH.
Qed.

(** Turns in the order of the awaits completed: those before a failing one pass. *)
Definition in_order (wakes : list (nat * look)) : Prop :=
  StronglySorted (fun v w => (fst v <= fst w)%nat) wakes.

Lemma taken_none (used : nat) (k : nat) (wakes : list (nat * look)) :
  Forall (fun w => (k <= fst w)%nat) wakes -> (used <= k)%nat -> taken used wakes = [].
Proof.
  intros H Hk. unfold taken. induction H as [|w wakes Hw H IH]; [done|].
  rewrite filter_cons_False by lia. done.
Qed.

Lemma taken_passing (used : nat) (wakes : list (nat * look)) (sa : SupervisedAuthority) :
  in_order wakes ->
  match first_failure check_at wakes sa with Some (k, _) => (used <= k)%nat | None => True end ->
  passing (taken used wakes) sa.
Proof.
  intros Hs. revert sa. induction Hs as [|[k l] wakes Hs IH Hk]; intros sa Hf; [done|].
  cbn [first_failure] in Hf. destruct (Nat.lt_ge_cases k used) as [Hlt|Hge].
  - destruct (check_at l sa) as [[d|e] sa1] eqn:Hc; [|lia].
    unfold taken. rewrite filter_cons_True by done. cbn [map snd passing]. rewrite Hc.
    split; [done|]. by apply IH.
  - unfold taken. rewrite filter_cons_False by (simpl; lia). fold (taken used wakes).
    by rewrite (taken_none _ k).
Qed.

Lemma failing_turns {A : Type} (wakes : list (nat * look)) (sa sa' : SupervisedAuthority) (k : nat)
  (reason : StopReason) :
  first_failure check_at wakes sa = Some (k, (reason, sa')) ->
  Supervisor.while_live (map (fun w => (snd w, Woken : wake A)) wakes) sa = (Some (Err reason), sa').
Proof.
  revert sa. induction wakes as [|[n l] wakes IH]; intros sa H; [done|].
  cbn [first_failure] in H. cbn [map snd Supervisor.while_live].
  destruct (check_at l sa) as [[d|e] sa1]; [by apply IH|]. by simplify_eq.
Qed.

Lemma interrupt_used {St : Type} {E : Type -> Type} {A Y : Type} (f : option (nat * Y))
  (t : task St E A) (en : env St E) (r r' : exec St E) (a : A) (used : nat) :
  interrupt f t en r = (Some (inl (a, used)), r') ->
  match f with Some (k, _) => (used <= k)%nat | None => True end.
Proof.
  unfold interrupt. set (limit := match f with Some _ => _ | None => _ end).
  destruct (t en _) as [[b|] r1].
  - intros [= <- <- <-]. destruct f as [[k y]|]; [subst limit; lia|done].
  - destruct f as [[k y]|]; [|done]. by destruct (_ <=? _)%nat.
Qed.

Lemma interrupt_reason {St : Type} {E : Type -> Type} {A Y : Type} (f : option (nat * Y))
  (t : task St E A) (en : env St E) (r r' : exec St E) (y : Y) :
  interrupt f t en r = (Some (inr y), r') -> exists k, f = Some (k, y).
Proof.
  unfold interrupt. set (limit := match f with Some _ => _ | None => _ end).
  destruct (t en _) as [[b|] r1]; [done|]. destruct f as [[k z]|]; [|done].
  destruct (_ <=? _)%nat; [|done]. intros [= <- _]. by exists k.
Qed.

(** The guard of a task is the guard of [Supervisor]: whatever the task does, a
    completed [while_live] is a run of the executor's turns with the same
    outcome and the same authority kept. *)
Theorem guarded_task_is_supervised {St : Type} {E : Type -> Type} {A : Type} (t : task St E A)
  (en : env St E) (r r' : exec St E) (res : result StopReason A) :
  in_order (gd_wakes (en_guard en (ex_clock r))) ->
  while_live t en r = (Some res, r') ->
  exists turns : list (look * wake A),
    Supervisor.while_live turns (ex_authority r) = (Some res, ex_authority r').
Proof.
  intros Hs. unfold while_live, tbind, guarded.
  set (plan := en_guard en (ex_clock r)) in *.
  destruct (check_at (gd_first plan) (ex_authority r)) as [[d|e] sa1] eqn:Hc.
  2: { intros [= <- <-]. exists [(gd_first plan, Woken)]. cbn [Supervisor.while_live]. by rewrite Hc. }
  unfold tbind. destruct (interrupt _ t en r) as [[[[a used]|[e sa2]]|] r1] eqn:Hi; [..|done].
  - apply interrupt_used in Hi. apply (taken_passing _ _ _ Hs) in Hi.
    destruct (check_at (gd_final plan) _) as [checked sa3] eqn:Hf. intros [= <- <-].
    exists (completed_turns (gd_first plan) (taken used (gd_wakes plan)) (gd_final plan) a).
    rewrite completed_turns_spec; [|cbn [passing]; by rewrite Hc]. unfold see. cbn [fold_left].
    rewrite Hc. cbn [snd]. unfold see in Hf. by rewrite Hf.
  - apply interrupt_reason in Hi as [k Hk]. intros [= <- <-].
    exists ((gd_first plan, Woken) :: map (fun w => (snd w, Woken)) (gd_wakes plan)).
    cbn [Supervisor.while_live]. rewrite Hc. by eapply failing_turns.
Qed.
