(* ===== verification/Docker.v ===== *)
(** The Docker runtime ([DockerRuntime] of [rust/worker/src/runtime.rs] and
    [runtime/image.rs]): its operations as tasks over the calls of the daemon.

    [bollard] and the daemon are the environment: [docker] is every call with the
    type of its answer, and a stream is read with one call for each item. *)

From S2P Require Import Prelude Strings Os Protocol Lease Control Supervisor Execution LogFormat LogSpool.
From S2P Require Import LogCapture LogAssembler LogLive RuntimeConfig Async.
Open Scope N_scope.

Definition RPC_TIMEOUT : Duration := from_secs 5.

(** [bollard::errors::Error], by what [From<DockerError>] distinguishes. *)
Inductive DockerError : Type :=
| ServerError (status_code : N)
| RequestTimeoutError
| OtherDockerError.

Definition from_docker (e : DockerError) : RuntimeError.t :=
  match e with
  | ServerError status_code => RuntimeError.Daemon status_code
  | RequestTimeoutError => RuntimeError.Deadline
  | OtherDockerError => RuntimeError.Transport
  end.

(** [ContainerStateStatusEnum]; [EMPTY] stands for the values without a case. *)
Inductive StatusEnum : Type :=
| CREATED | RUNNING | PAUSED | RESTARTING | REMOVING | STOPPING | EXITED | DEAD | EMPTY.

#[global] Instance StatusEnum_eq_dec : EqDecision StatusEnum.
Proof. solve_decision. Defined.

Record DockerState := {
  ds_status : option StatusEnum;
  ds_running : option bool;
  ds_exit_code : option Z;
  ds_oom_killed : option bool;
}.

Record InspectResponse := {
  ir_id : option string;
  ir_name : option string;
  ir_inspect : ContainerInspect;
  ir_state : option DockerState;
}.

Record ImageInspect := {
  im_id : option string;
  im_volumes : option (list string);
}.

Record SystemInfo := {
  sy_os_type : option string;
  sy_limits : list (option bool);
  sy_security_options : option (list string);
  sy_architecture : option string;
  sy_ncpu : option Z;
  sy_mem_total : option Z;
}.

Inductive LogOutput : Type :=
| StdOut (message : bytes)
| StdErr (message : bytes)
| OtherOutput.

Inductive docker : Type -> Type :=
| Connect (socket : string) : docker (result DockerError unit)
| NegotiateVersion : docker (result DockerError unit)
| Info : docker (result DockerError SystemInfo)
| InspectImage (image : string) : docker (result DockerError ImageInspect)
| CreateImage (image : string) : docker unit
| NextProgress : docker (option (result DockerError bool))
| InspectContainer (id : string) : docker (result DockerError InspectResponse)
| ListContainers (worker_id : string) (limit : N) : docker (result DockerError (list (option string)))
| CreateContainer (name : string) (body : ContainerCreateBody) : docker (result DockerError unit)
| StartContainer (id : string) : docker (result DockerError unit)
| StopContainer (id : string) (grace_seconds : N) : docker (result DockerError unit)
| KillContainer (id : string) : docker (result DockerError unit)
| RemoveContainer (id : string) (force volumes : bool) : docker (result DockerError unit)
| WaitContainer (id : string) : docker (option unit)
| OpenLogs (id : string) (follow : bool) : docker unit
| NextFrame : docker (option (result DockerError LogOutput))
| AttachContainer (id : string) : docker (result DockerError unit)
| NewShared : docker (result LiveLogError unit)
| SpawnCollector : docker unit
| CollectorReady : docker bool
| AbortCollector : docker unit
| StartGate : docker unit
| DockerSleep (d : Duration) : docker unit
| DockerClock : docker reading
| WorkspaceAnswers : docker workspace_io
| Pushing : docker (nat -> push_env)
| Within (d : Duration) {X : Type} (e : docker X) : docker (option X).

Abbreviation D := (task unit docker).

(** [bounded]. *)
Definition bounded_call {X : Type} (d : Duration) (e : docker (result DockerError X))
  : D (result RuntimeError.t X) :=
  let& r := call (Within d e) in
  tret (match r with
        | None => Err RuntimeError.Deadline
        | Some m => map_err from_docker m
        end).

(** [remaining] of an authority, capped by the time of one call. *)
Definition remaining_time (w : AuthorityWindow) : D (result RuntimeError.t Duration) :=
  let& now := ask DockerClock in
  tret (let? d := map_err (fun _ => RuntimeError.Authority) (remaining w now) in
        Ok (N.min d RPC_TIMEOUT)).

Definition state_of (s : StatusEnum) : option ContainerState.t :=
  match s with
  | CREATED => Some ContainerState.Created
  | RUNNING => Some ContainerState.Running
  | PAUSED => Some ContainerState.Paused
  | RESTARTING => Some ContainerState.Restarting
  | REMOVING => Some ContainerState.Removing
  | STOPPING => Some ContainerState.Stopping
  | EXITED => Some ContainerState.Exited
  | DEAD => Some ContainerState.Dead
  | EMPTY => None
  end.

Definition container_status (actual : InspectResponse) : result RuntimeError.t ContainerStatus :=
  let? state := ok_or (ir_state actual) RuntimeError.Identity in
  let? raw := ok_or (ds_status state) RuntimeError.Identity in
  let? status := ok_or (state_of raw) RuntimeError.Identity in
  let? running := ok_or (ds_running state) RuntimeError.Identity in
  let? oom := ok_or (ds_oom_killed state) RuntimeError.Identity in
  Ok {| running := running;
        exit_code := if at_rest status then ds_exit_code state else None;
        oom_killed := oom; container_state := status |}.

(** * Set-up *)

Definition check_quota_support : D (result RuntimeError.t unit) :=
  let&? info := bounded_call RPC_TIMEOUT Info in
  let options := default [] (sy_security_options info) in
  tret (if negb (bool_decide ("name=userns"%string ∈ options))
           || negb (bool_decide ("name=seccomp,profile=builtin"%string ∈ options))
           || bool_decide ("name=rootless"%string ∈ options)
        then Err RuntimeError.Unsupported
        else Ok tt).

Definition architecture_of (a : option string) : option string :=
  match a with
  | Some a =>
      if bool_decide (a ∈ ["aarch64"; "arm64"]%string) then Some "arm64"%string
      else if bool_decide (a ∈ ["x86_64"; "amd64"]%string) then Some "amd64"%string
      else None
  | None => None
  end.

Definition check_capacity (r : Resources) (architecture : string) : D (result RuntimeError.t unit) :=
  let&? info := bounded_call RPC_TIMEOUT Info in
  let&? arch := tret (ok_or (architecture_of (sy_architecture info)) RuntimeError.Unsupported) in
  let ncpu := default 0%Z (sy_ncpu info) in
  let mem_total := default 0%Z (sy_mem_total info) in
  tret (if (rs_cpu_millis r =? 0) || (rs_memory_bytes r =? 0)
           || negb (bool_decide (arch = architecture))
           || (ncpu <=? 0)%Z || (mem_total <=? 0)%Z
           || (Z.to_N ncpu * 1000 <? rs_cpu_millis r)
           || (Z.to_N mem_total <? rs_memory_bytes r)
        then Err RuntimeError.Unsupported
        else Ok tt).

Definition connect (socket : string) : D (result RuntimeError.t unit) :=
  if negb (is_absolute socket) || contains nul socket then tret (Err RuntimeError.Configuration)
  else
    let&? _ := tmap_err from_docker (ask (Connect socket)) in
    let&? _ := bounded_call RPC_TIMEOUT NegotiateVersion in
    let&? info := bounded_call RPC_TIMEOUT Info in
    tret (if negb (bool_decide (sy_os_type info = Some "linux"%string))
             || existsb (fun v => negb (bool_decide (v = Some true))) (sy_limits info)
             || negb (match sy_security_options info with
                      | Some options => existsb (starts_with "name=seccomp,") options
                      | None => false
                      end)
          then Err RuntimeError.Unsupported
          else Ok tt).

(** * Images ([image.rs]) *)

(** One record of a pull; [records] were read before. *)
Definition progress_turn (records : N) : D (N + result RuntimeError.t unit) :=
  let& progress := call NextProgress in
  tret (match progress with
        | None => inr (Ok tt)
        | Some (Err e) => inr (Err (from_docker e))
        | Some (Ok failed) =>
            let records := records + 1 in
            if (65536 <? records) || failed then inr (Err RuntimeError.Transport) else inl records
        end).

Definition prepare_pinned_image (image : string) : D (result RuntimeError.t unit) :=
  let& found := bounded_call RPC_TIMEOUT (InspectImage image) in
  match found with
  | Ok _ => tret (Ok tt)
  | Err (RuntimeError.Daemon 404) =>
      let& _ := ask (CreateImage image) in
      let&? _ := loop progress_turn 0 in
      let&? _ := bounded_call RPC_TIMEOUT (InspectImage image) in
      tret (Ok tt)
  | Err e => tret (Err e)
  end.

(** The budget is the startup time. *)
Definition prepare_image (x : ExecutionSpec) : D (result RuntimeError.t unit) :=
  let& r := timeout (prepare_pinned_image (js_image (job_spec (es_job x)))) in
  tret (match r with
        | Some m => m
        | None => Err RuntimeError.Deadline
        end).

(** * Containers *)

(** [CaptureSlot] holds the running capture or why there is none; [cp_before] says
    whether the reader was attached before the container could run. *)
Record CaptureSlot := {
  cp_before : bool;
  cp_result : result LiveLogError unit;
}.

Record ContainerHandle := {
  ch_id : string;
  ch_expected : ContainerCreateBody;
  ch_image_id : string;
  ch_capture : option CaptureSlot;
}.

Definition strict_scratch (expected : ContainerCreateBody) : bool :=
  match cc_labels (cb_config expected) with
  | Some labels => bool_decide (labels !! "dev.dispatch.scratch-policy"%string
                                = Some "ext4-project-quota-v1"%string)
  | None => false
  end.

Definition checked (h : ContainerHandle) (launching : bool) : D (result RuntimeError.t InspectResponse) :=
  let&? actual := bounded_call RPC_TIMEOUT (InspectContainer (ch_id h)) in
  let&? _ :=
    (if launching then
       let&? _ := (if strict_scratch (ch_expected h) then check_quota_support else tret (Ok tt)) in
       tret (verify (ir_inspect actual) (ch_expected h) (ch_image_id h))
     else tret (verify_identity (ir_inspect actual) (ch_expected h) (ch_image_id h))) in
  tret (if negb (bool_decide (ir_id actual = Some (ch_id h))) then Err RuntimeError.Identity
        else Ok actual).

Definition attach_capture (id : string) (before_start : bool) : D CaptureSlot :=
  let& attached := bounded_call RPC_TIMEOUT (AttachContainer id) in
  let& r :=
    match attached with
    | Err _ => tret (Err CaptureFailed)
    | Ok _ =>
        let& shared := ask NewShared in
        match shared with
        | Err e => tret (Err e)
        | Ok _ =>
            let& _ := ask SpawnCollector in
            let& ready := call (Within RPC_TIMEOUT CollectorReady) in
            match ready with
            | Some true => tret (Ok tt)
            | _ => let& _ := ask AbortCollector in tret (Err CaptureFailed)
            end
        end
    end in
  tret {| cp_before := before_start; cp_result := r |}.

(** What the spawned collector reports: a container that already ran is never
    captured completely. *)
Definition collected (slot : CaptureSlot) (c : LiveCapture) : LiveCapture :=
  {| lc_counts := lc_counts c; lc_complete := lc_complete c && cp_before slot |}.

Definition may_commit (failure : option RuntimeError.t) : bool :=
  match failure with
  | None | Some RuntimeError.Transport | Some RuntimeError.Deadline => true
  | Some (RuntimeError.Daemon code) => (code =? 409) || in_range 500 599 code
  | Some _ => false
  end.

(** One lookup of the name after an uncertain creation. *)
Definition lookup_turn (name : string) (commit : bool) (_ : unit)
  : D (unit + result RuntimeError.t InspectResponse) :=
  let& found := call (InspectContainer name) in
  match map_err from_docker found with
  | Err (RuntimeError.Daemon 404) =>
      if commit then let& _ := call (DockerSleep (from_millis 20)) in tret (inl tt)
      else tret (inr (Err (RuntimeError.Daemon 404)))
  | result => tret (inr result)
  end.

(** The container under the attempt's name, created if it is missing. *)
Definition create_or_find (w : AuthorityWindow) (name : string) (expected : ContainerCreateBody)
  : D (result RuntimeError.t InspectResponse) :=
  let&? d := remaining_time w in
  let& existing := bounded_call d (InspectContainer name) in
  match existing with
  | Err (RuntimeError.Daemon 404) =>
      let&? d := remaining_time w in
      let& created := bounded_call d (CreateContainer name expected) in
      let failure := match created with Ok _ => None | Err e => Some e end in
      let& found := timeout (loop (lookup_turn name (may_commit failure)) tt) in
      tret (match found with
            | Some (Ok actual) => Ok actual
            | Some (Err e) => Err (default e failure)
            | None => Err (default RuntimeError.Deadline failure)
            end)
  | other => tret other
  end.

(** [Runtime::create]; [capture_logs] is the runtime's flag. *)
Definition create (capture_logs : bool) (identity : AttemptAuthority) (x : ExecutionSpec)
  (ws : PreparedWorkspace) (w : AuthorityWindow) : D (result RuntimeError.t ContainerHandle) :=
  let&? _ := remaining_time w in
  let& io := ask WorkspaceAnswers in
  let&? _ := tret (validate_workspace io ws) in
  let&? _ :=
    match pw_quota ws with
    | Some limit =>
        if negb (limit =? shl20 (jr_scratch_mib (js_resources (job_spec (es_job x)))))
        then tret (Err RuntimeError.Configuration)
        else check_quota_support
    | None => tret (Ok tt)
    end in
  let&? expected := tret (build identity x ws) in
  let name := "dispatch-" +:+ aa_attempt_id identity in
  let&? d := remaining_time w in
  let&? image := bounded_call d (InspectImage (js_image (job_spec (es_job x)))) in
  if set_nonempty (im_volumes image) then tret (Err RuntimeError.Unsupported)
  else
    let&? image_id := tret (ok_or (im_id image) RuntimeError.Identity) in
    let&? actual := create_or_find w name expected in
    let&? _ := tret (verify (ir_inspect actual) expected image_id) in
    let before_start := bool_decide ((s ← ir_state actual; ds_status s) = Some CREATED) in
    let&? id := tret (ok_or (ir_id actual) RuntimeError.Identity) in
    if negb (str_len id =? 64) || negb (forallb hex_or_digit (str_bytes id))
    then tret (Err RuntimeError.Identity)
    else
      let&? _ := remaining_time w in
      let& capture := (if capture_logs : bool then tmap Some (attach_capture id before_start)
                       else tret None) in
      tret (Ok {| ch_id := id; ch_expected := expected; ch_image_id := image_id; ch_capture := capture |}).

(** [Runtime::start]. *)
Definition start (h : ContainerHandle) (w : AuthorityWindow) : D (result RuntimeError.t unit) :=
  let&? d := remaining_time w in
  let& gate := call (Within d StartGate) in
  match gate with
  | None => tret (Err RuntimeError.Deadline)
  | Some _ =>
      let&? _ := remaining_time w in
      let&? actual := checked h true in
      let&? status := tret (container_status actual) in
      if running status then
        let&? _ := remaining_time w in tret (Ok tt)
      else if negb (bool_decide (container_state status = ContainerState.Created))
      then tret (Err RuntimeError.Terminal)
      else
        let&? d := remaining_time w in
        let&? _ := bounded_call d (StartContainer (ch_id h)) in
        let&? _ := remaining_time w in
        tret (Ok tt)
  end.

(** [Runtime::inspect]. *)
Definition inspect (h : ContainerHandle) : D (result RuntimeError.t ContainerStatus) :=
  let&? actual := checked h false in
  tret (container_status actual).

(** [Runtime::wait]. *)
Definition wait (h : ContainerHandle) : D (result RuntimeError.t ContainerStatus) :=
  let&? _ := checked h false in
  let& next := call (Within RPC_TIMEOUT (WaitContainer (ch_id h))) in
  match next with
  | None => tret (Err RuntimeError.Deadline)
  | Some None => tret (Err RuntimeError.Transport)
  | Some (Some _) =>
      let&? status := inspect h in
      tret (match exit_code status with
            | None => Err RuntimeError.Transport
            | Some _ => Ok status
            end)
  end.

(** [Runtime::stop]. *)
Definition stop (h : ContainerHandle) (grace_seconds : N) : D (result RuntimeError.t unit) :=
  if 300 <? grace_seconds then tret (Err RuntimeError.Configuration)
  else
    let&? before := inspect h in
    if negb (running before) then tret (Ok tt)
    else
      let&? _ := bounded_call (RPC_TIMEOUT + from_secs grace_seconds)
                   (StopContainer (ch_id h) grace_seconds) in
      let&? after := inspect h in
      tret (if running after then Err RuntimeError.Transport else Ok tt).

(** [Runtime::kill]. *)
Definition kill (h : ContainerHandle) : D (result RuntimeError.t unit) :=
  let&? status := inspect h in
  if negb (running status) then tret (Ok tt)
  else bounded_call RPC_TIMEOUT (KillContainer (ch_id h)).

(** [Runtime::remove]. *)
Definition remove (h : ContainerHandle) : D (result RuntimeError.t unit) :=
  let& found := inspect h in
  match found with
  | Err (RuntimeError.Daemon 404) => tret (Ok tt)
  | Err e => tret (Err e)
  | Ok status =>
      if running status then tret (Err RuntimeError.Configuration)
      else
        let& r := bounded_call RPC_TIMEOUT (RemoveContainer (ch_id h) false true) in
        tret (match r with
              | Err (RuntimeError.Daemon 404) => Ok tt
              | r => r
              end)
  end.

(** * Output *)

(** [ContainerLogs]. *)
Record ContainerLogs := {
  cl_stdout : bytes;
  cl_stderr : bytes;
  cl_truncated : bool;
}.

Definition no_logs : ContainerLogs := {| cl_stdout := []; cl_stderr := []; cl_truncated := false |}.

(** One frame of a snapshot of at most [max_bytes]; [inr] ends the loop. *)
Definition add_frame (max_bytes : nat) (logs : ContainerLogs) (frame : LogOutput)
  : ContainerLogs + result RuntimeError.t ContainerLogs :=
  let available := (max_bytes - List.length (cl_stdout logs) - List.length (cl_stderr logs))%nat in
  let add bytes out err :=
    let cut := (available <? List.length bytes)%nat in
    let logs := {| cl_stdout := cl_stdout logs ++ out; cl_stderr := cl_stderr logs ++ err;
                   cl_truncated := cl_truncated logs || cut |} in
    if cut then inr (Ok logs) else inl logs in
  match frame with
  | StdOut message => add message (take available message) []
  | StdErr message => add message [] (take available message)
  | OtherOutput => inr (Err RuntimeError.Transport)
  end.

Definition logs_turn (max_bytes : nat) (logs : ContainerLogs)
  : D (ContainerLogs + result RuntimeError.t ContainerLogs) :=
  let& frame := call NextFrame in
  tret (match frame with
        | None => inr (Ok logs)
        | Some (Err e) => inr (Err (from_docker e))
        | Some (Ok frame) => add_frame max_bytes logs frame
        end).

(** [Runtime::logs]. *)
Definition logs (h : ContainerHandle) (max_bytes : N) : D (result RuntimeError.t ContainerLogs) :=
  if (max_bytes =? 0) || (1048576 <? max_bytes) then tret (Err RuntimeError.Configuration)
  else
    let&? _ := checked h false in
    let& _ := ask (OpenLogs (ch_id h) false) in
    let& r := timeout (loop (logs_turn (N.to_nat max_bytes)) no_logs) in
    tret (match r with
          | Some m => m
          | None => Err RuntimeError.Deadline
          end).

(** One frame of a followed log goes to the queue. *)
Definition push_output (env : nat -> push_env) (q : LogQueue) (frame : LogOutput)
  : LogQueue + result RuntimeError.t unit * LogQueue :=
  let push stream message :=
    match push_frame env q stream message with
    | (Ok _, q', _) => inl q'
    | (Err _, q', _) => inr (Err RuntimeError.Transport, q')
    end in
  match frame with
  | StdOut message => push LogStream.Stdout message
  | StdErr message => push LogStream.Stderr message
  | OtherOutput => inr (Err RuntimeError.Transport, q)
  end.

Definition follow_turn (q : LogQueue) : D (LogQueue + result RuntimeError.t unit * LogQueue) :=
  let& frame := call NextFrame in
  match frame with
  | None => tret (inr (Ok tt, q))
  | Some (Err e) => tret (inr (Err (from_docker e), q))
  | Some (Ok frame) => let& env := ask Pushing in tret (push_output env q frame)
  end.

(** [Runtime::follow_logs], with the queue it leaves. *)
Definition follow_logs (h : ContainerHandle) (q : LogQueue) : D (result RuntimeError.t unit * LogQueue) :=
  let& actual := checked h false in
  match actual with
  | Err e => tret (Err e, q)
  | Ok _ =>
      let& _ := ask (OpenLogs (ch_id h) true) in
      loop follow_turn q
  end.

(** * Lemmas

    The log of one operation holds its calls and the answers of the daemon in
    order; operations start from an empty one. *)

Definition fresh_log (sa : SupervisedAuthority) (clock left : nat) : exec unit docker :=
  {| ex_state := tt; ex_authority := sa; ex_clock := clock; ex_left := left; ex_calls := [] |}.

(** An answer within a time limit, as the runtime reports it. *)
Definition as_reported {X : Type} (x : option (result DockerError X)) : result RuntimeError.t X :=
  match x with
  | None => Err RuntimeError.Deadline
  | Some m => map_err from_docker m
  end.

(** The daemon answered [e] with [m]. *)
Definition told {X : Type} (cs : list (some_call docker)) (e : docker (result DockerError X))
  (m : result RuntimeError.t X) : Prop :=
  exists d x, Answer (Within d e) x ∈ cs /\ m = as_reported x.

Lemma told_app {X : Type} (cs cs' : list (some_call docker)) (e : docker (result DockerError X))
  (m : result RuntimeError.t X) : told cs e m -> told (cs ++ cs') e m.
Proof. intros (d & x & Hin & ->). exists d, x. split; [|done]. apply elem_of_app. by left. Qed.

Lemma told_last {X : Type} (cs : list (some_call docker)) (d : Duration) (e : docker (result DockerError X))
  (x : option (result DockerError X)) : told (cs ++ [Answer (Within d e) x]) e (as_reported x).
Proof. exists d, x. split; [|done]. apply elem_of_app. right. by left. Qed.

#[export] Hint Resolve told_app told_last : dispatch.

Section Docker.
Context (en : env unit docker).

Abbreviation log := (list (some_call docker)).
Abbreviation at_log P := (fun (_ : unit) (cs : log) => P cs).

(** A call that [P] does not depend on. *)
Definition unheard (P : log -> Prop) {X : Type} (e : docker X) : Prop :=
  forall cs, P cs -> P (cs ++ [Call e]) /\ forall x, P (cs ++ [Answer e x]).

Lemma spec_docker {X : Type} (P : log -> Prop) (e : docker X) :
  unheard P e -> keeps en (at_log P) (call e).
Proof. intros He. apply spec_call; intros; [by apply He|]. by apply He, He. Qed.

Lemma keeps_docker_ask {X : Type} (P : log -> Prop) (e : docker X) :
  unheard P e -> keeps en (at_log P) (ask e).
Proof. intros He. apply keeps_ask; intros; by apply He. Qed.

Lemma spec_bounded_call {X : Type} (I P : log -> Prop) (R : result RuntimeError.t X -> log -> Prop)
  (d : Duration) (e : docker (result DockerError X)) :
  (forall cs, P cs -> I (cs ++ [Call (Within d e)])) ->
  (forall cs x, P cs -> R (as_reported x) ((cs ++ [Call (Within d e)]) ++ [Answer (Within d e) x])) ->
  spec en (at_log I) (at_log P) (bounded_call d e) (fun m => at_log (R m)).
Proof.
  intros HI HR. unfold bounded_call.
  eapply (spec_bind _ _ _ _ _ (fun x _ cs => R (as_reported x) cs)).
  - apply spec_call; intros; [by apply HI|by apply HR].
  - intros x. by apply spec_ret.
Qed.

Lemma keeps_bounded_call {X : Type} (P : log -> Prop) (d : Duration) (e : docker (result DockerError X)) :
  unheard P (Within d e) -> keeps en (at_log P) (bounded_call d e).
Proof. intros He. apply (spec_bounded_call P P (fun _ => P)); intros; [by apply He|]. by apply He, He. Qed.

Lemma keeps_remaining (P : log -> Prop) (w : AuthorityWindow) :
  unheard P DockerClock -> keeps en (at_log P) (remaining_time w).
Proof. intros He. apply keeps_bind; [by apply keeps_docker_ask|]. intros now. apply keeps_ret. Qed.

(** Calls that read, and change nothing at the daemon. *)
Fixpoint reading_call {X : Type} (e : docker X) : bool :=
  match e with
  | Info | InspectImage _ | InspectContainer _ | DockerClock | WorkspaceAnswers | StartGate
  | DockerSleep _ | NegotiateVersion => true
  | Within _ e => reading_call e
  | _ => false
  end.

(** [P] does not depend on them. *)
Definition insensitive (P : log -> Prop) : Prop :=
  forall X (e : docker X), reading_call e = true -> unheard P e.

Lemma insensitive_and (P Q : log -> Prop) : insensitive P -> insensitive Q -> insensitive (fun cs => P cs /\ Q cs).
Proof.
  intros HP HQ X e He cs [Hp Hq]. destruct (HP X e He cs Hp), (HQ X e He cs Hq). split; [done|]. auto.
Qed.

Lemma insensitive_app (P : log -> Prop) : (forall cs cs', P cs -> P (cs ++ cs')) -> insensitive P.
Proof. intros HP X e He cs Hcs. split; [|intros x]; by apply HP. Qed.

(** The container the daemon reported for the handle. *)
Definition seen (h : ContainerHandle) (launching : bool) (actual : InspectResponse) (cs : log) : Prop :=
  told cs (InspectContainer (ch_id h)) (Ok actual) /\ ir_id actual = Some (ch_id h)
  /\ (if launching then verify else verify_identity) (ir_inspect actual) (ch_expected h) (ch_image_id h) = Ok tt.

Lemma seen_app (h : ContainerHandle) (launching : bool) (actual : InspectResponse) (cs cs' : log) :
  seen h launching actual cs -> seen h launching actual (cs ++ cs').
Proof. intros (Ht & Hrest). split; [by apply told_app|done]. Qed.

(** What a malformed description is refused with. *)
Lemma verify_identity_error (actual : ContainerInspect) (b : ContainerCreateBody) (image : string) (e : RuntimeError.t) :
  verify_identity actual b image = Err e -> e = RuntimeError.Identity.
Proof.
  unfold verify_identity. intros Hv. destruct (ok_or _ _) as [labels|e'] eqn:Hl; cbn [rbind] in Hv.
  - destruct (_ || _); congruence.
  - destruct (ci_config actual ≫= _); cbn [ok_or] in Hl; congruence.
Qed.

Lemma container_status_error (actual : InspectResponse) (e : RuntimeError.t) :
  container_status actual = Err e -> e = RuntimeError.Identity.
Proof.
  unfold container_status. intros Hst. destruct (ir_state actual) as [state|]; cbn in Hst; [|congruence].
  destruct (ds_status state) as [raw|]; cbn in Hst; [|congruence]. destruct (state_of raw); cbn in Hst; [|congruence].
  destruct (ds_running state); cbn in Hst; [|congruence]. destruct (ds_oom_killed state); cbn in Hst; congruence.
Qed.

(** A status says what the daemon said. *)
Lemma container_status_Ok (actual : InspectResponse) (status : ContainerStatus) :
  container_status actual = Ok status ->
  exists state raw, ir_state actual = Some state /\ ds_status state = Some raw
    /\ state_of raw = Some (container_state status) /\ ds_running state = Some (running status)
    /\ ds_oom_killed state = Some (oom_killed status).
Proof.
  unfold container_status. intros Hst. destruct (ir_state actual) as [state|]; [|done]. cbn in Hst.
  destruct (ds_status state) as [raw|] eqn:Hraw; [|done]. cbn in Hst. destruct (state_of raw) eqn:Hs; [|done].
  cbn in Hst. destruct (ds_running state) eqn:Hr; [|done]. cbn in Hst.
  destruct (ds_oom_killed state) eqn:Ho; [|done]. injection Hst as <-. by exists state, raw.
Qed.

Lemma keeps_quota_support (P : log -> Prop) : insensitive P -> keeps en (at_log P) check_quota_support.
Proof.
  intros HP. apply keeps_bind_ok; [apply keeps_bounded_call; by apply HP|]. intros info. apply keeps_ret.
Qed.

Section Insensitive.
Context (P : log -> Prop) (P_insensitive : insensitive P).

(** A look at a container, in the presence of [P]. *)
Lemma spec_look (id : string) (I : log -> Prop) :
  (forall cs, P cs -> I cs) ->
  spec en (at_log I) (at_log P) (bounded_call RPC_TIMEOUT (InspectContainer id))
    (fun m => at_log (fun cs => P cs /\ told cs (InspectContainer id) m)).
Proof.
  intros HI. apply spec_bounded_call; intros; [by apply HI, P_insensitive|].
  split; [by apply P_insensitive, P_insensitive|]. apply told_last.
Qed.

Lemma checked_spec (h : ContainerHandle) (launching : bool) :
  spec en (at_log P) (at_log P) (checked h launching)
    (fun m _ cs => P cs /\ match m with
       | Ok actual => seen h launching actual cs
       | Err e => launching = true \/ e = RuntimeError.Identity \/ told cs (InspectContainer (ch_id h)) (Err e)
       end).
Proof.
  unfold checked.
  set (T := fun actual cs => P cs /\ told cs (InspectContainer (ch_id h)) (Ok actual)).
  assert (HT : forall actual, insensitive (T actual))
    by (intros actual; apply insensitive_and; [done|apply insensitive_app; intros; by apply told_app]).
  eapply (spec_bind_ok _ _ _ _ _ (fun actual _ cs => T actual cs)
    (fun e _ cs => P cs /\ told cs (InspectContainer (ch_id h)) (Err e))); [| |intros actual].
  { eapply spec_conseq; [by apply (spec_look (ch_id h) P)|done|]. by intros [actual|e] s cs []. }
  { intros e s cs [Hp Ha]. auto. }
  eapply (spec_bind_ok _ _ _ _ _ (fun _ _ cs => (if launching then verify else verify_identity)
      (ir_inspect actual) (ch_expected h) (ch_image_id h) = Ok tt /\ T actual cs)
    (fun e _ cs => T actual cs /\ (launching = true \/ e = RuntimeError.Identity))); [| |intros u].
  - apply (spec_drop _ (at_log (T actual))); [|by intros s cs []]. destruct launching.
    + apply keeps_try; [destruct (strict_scratch _); [by apply keeps_quota_support|apply keeps_ret]|done| |].
      * intros e s cs Hp. by split; [|left].
      * intros _. apply spec_ret. intros s cs Hp. destruct (verify _ _ _) as [[]|e]; [done|]. by split; [|left].
    + apply spec_ret. intros s cs Hp. destruct (verify_identity _ _ _) as [[]|e] eqn:Hv; [done|]. split; [done|].
      right. by eapply verify_identity_error.
  - intros e s cs [[Hp _] Hc]. tauto.
  - apply spec_fact. intros Hv. apply spec_ret. intros s cs [Hp Ht]. case_bool_decide as Hid; cbn [negb]; [|auto].
    split; [done|]. by split.
Qed.

(** A status the daemon reported. *)
Definition reported_status (h : ContainerHandle) (status : ContainerStatus) (cs : log) : Prop :=
  exists actual, seen h false actual cs /\ container_status actual = Ok status.

Lemma inspect_spec (h : ContainerHandle) :
  spec en (at_log P) (at_log P) (inspect h)
    (fun m _ cs => P cs /\ match m with
       | Ok status => reported_status h status cs
       | Err e => e = RuntimeError.Identity \/ told cs (InspectContainer (ch_id h)) (Err e)
       end).
Proof.
  unfold inspect. eapply (spec_bind_ok _ _ _ _ _ (fun actual _ cs => P cs /\ seen h false actual cs)
    (fun e _ cs => P cs /\ (e = RuntimeError.Identity \/ told cs (InspectContainer (ch_id h)) (Err e)))).
  - eapply spec_conseq; [apply (checked_spec h false)|done|]. intros [actual|e] s cs [Hp Hm]; [done|].
    split; [done|]. by destruct Hm as [?|[?|?]]; [|left|right].
  - intros e s cs Hc. exact Hc.
  - intros actual. apply spec_ret. intros s cs [Hp Hs]. split; [done|].
    destruct (container_status actual) as [status|e] eqn:Hst; [by exists actual|]. left.
    by eapply container_status_error.
Qed.
End Insensitive.
End Docker.

(** * Starting and removing *)

(** What a log starts, removes (with the force flag) and creates. *)
Definition start_of (c : some_call docker) : option string :=
  match c with
  | Call (Within _ (StartContainer id)) => Some id
  | _ => None
  end.

Definition removal_of (c : some_call docker) : option (string * bool) :=
  match c with
  | Call (Within _ (RemoveContainer id force _)) => Some (id, force)
  | _ => None
  end.

Definition creation_of (c : some_call docker) : option (string * ContainerCreateBody) :=
  match c with
  | Call (Within _ (CreateContainer name body)) => Some (name, body)
  | _ => None
  end.

Definition started (cs : list (some_call docker)) : list string := omap start_of cs.
Definition removals (cs : list (some_call docker)) : list (string * bool) := omap removal_of cs.
Definition creations (cs : list (some_call docker)) : list (string * ContainerCreateBody) := omap creation_of cs.

(** A log that does none of what [f] selects, and one that does it once, for a
    reason that was in the log by then. *)
Section Once.
Context {A : Type} (f : some_call docker -> option A).

Abbreviation log := (list (some_call docker)).

Definition never (cs : log) : Prop := omap f cs = [].

Definition once (a : A) (why : log -> Prop) (cs : log) : Prop :=
  exists t1 c t2, cs = t1 ++ c :: t2 /\ f c = Some a /\ never t1 /\ never t2 /\ why t1.

Definition at_most_once (a : A) (why : log -> Prop) (cs : log) : Prop := never cs \/ once a why cs.

Lemma never_app (cs : log) (c : some_call docker) : f c = None -> never cs -> never (cs ++ [c]).
Proof. intros Hc Hn. unfold never in *. rewrite omap_app, Hn. cbn [omap list_omap]. by rewrite Hc. Qed.

Lemma once_app (a : A) (why : log -> Prop) (cs : log) (c : some_call docker) :
  f c = None -> once a why cs -> once a why (cs ++ [c]).
Proof.
  intros Hc (t1 & c' & t2 & -> & Hf & H1 & H2 & Hw). exists t1, c', (t2 ++ [c]).
  rewrite <- app_assoc. split_and!; try done. by apply never_app.
Qed.

Lemma at_most_once_app (a : A) (why : log -> Prop) (cs : log) (c : some_call docker) :
  f c = None -> at_most_once a why cs -> at_most_once a why (cs ++ [c]).
Proof. intros Hc [?|?]; [left; by apply never_app|right; by apply once_app]. Qed.

(** The selected call itself. *)
Lemma once_now (a : A) (why : log -> Prop) (cs : log) (c : some_call docker) :
  f c = Some a -> never cs -> why cs -> once a why (cs ++ [c]).
Proof. intros Hc Hn Hw. by exists cs, c, []. Qed.

Context (f_answer : forall X (e : docker X) x, f (Answer e x) = None).

Lemma never_unheard {X : Type} (e : docker X) : f (Call e) = None -> unheard never e.
Proof. intros He cs Hcs. split; [|intros x]; apply never_app; auto. Qed.

Lemma at_most_once_unheard {X : Type} (a : A) (why : log -> Prop) (e : docker X) :
  f (Call e) = None -> unheard (at_most_once a why) e.
Proof. intros He cs Hcs. split; [|intros x]; apply at_most_once_app; auto. Qed.

Context (f_reading : forall X (e : docker X), reading_call e = true -> f (Call e) = None).

Lemma never_insensitive : insensitive never.
Proof. intros X e He. by apply never_unheard, f_reading. Qed.

Lemma at_most_once_insensitive (a : A) (why : log -> Prop) : insensitive (at_most_once a why).
Proof. intros X e He. by apply at_most_once_unheard, f_reading. Qed.
End Once.

(** A reading call is none of the three. *)
Lemma reading_selected {X : Type} (e : docker X) : reading_call e = true ->
  start_of (Call e) = None /\ removal_of (Call e) = None /\ creation_of (Call e) = None.
Proof. destruct e; try done. match goal with x : docker _ |- _ => destruct x; done end. Qed.

Lemma reading_start {X : Type} (e : docker X) : reading_call e = true -> start_of (Call e) = None.
Proof. intros He. by apply reading_selected. Qed.

Lemma reading_removal {X : Type} (e : docker X) : reading_call e = true -> removal_of (Call e) = None.
Proof. intros He. by apply reading_selected. Qed.

Lemma reading_creation {X : Type} (e : docker X) : reading_call e = true -> creation_of (Call e) = None.
Proof. intros He. by apply reading_selected. Qed.

#[export] Hint Resolve never_insensitive at_most_once_insensitive reading_start reading_removal reading_creation : dispatch.

Section Started.
Context (en : env unit docker) (h : ContainerHandle).

Abbreviation before := (fun (_ : unit) cs => never start_of cs).

(** What justifies a start. *)
Definition startable (cs : list (some_call docker)) : Prop :=
  exists actual status, seen h true actual cs /\ container_status actual = Ok status
    /\ running status = false /\ container_state status = ContainerState.Created.

Abbreviation after := (fun (_ : unit) cs => at_most_once start_of (ch_id h) startable cs).

Lemma start_spec (w : AuthorityWindow) : spec en after before (start h w) (fun _ => after).
Proof.
  assert (Hw : forall (s : unit) cs, never start_of cs -> at_most_once start_of (ch_id h) startable cs) by (by left).
  assert (Hrem : keeps en before (remaining_time w)) by (apply keeps_remaining, never_unheard; done).
  unfold start. apply keeps_try; [done..|intros d].
  eapply spec_bind; [apply keeps_spec; [apply spec_docker, never_unheard; done|done]|].
  intros [[]|]; [|by apply spec_ret]. apply keeps_try; [done..|intros _].
  set (Seen := fun actual cs => never start_of cs /\ seen h true actual cs).
  assert (HSeen : forall actual, insensitive (Seen actual)).
  { intros actual. apply insensitive_and; [|apply insensitive_app; intros; by apply seen_app].
    apply never_insensitive; [done|by intros; apply reading_start]. }
  eapply (spec_bind_ok _ _ _ _ _ (fun actual _ cs => Seen actual cs) (fun _ => before)); [|done|intros actual].
  { eapply spec_drop; [eapply spec_conseq; [apply (checked_spec en (never start_of)); auto with dispatch|done|]|done].
    by intros [?|?] s cs []. }
  assert (HI : forall (s : unit) cs, Seen actual cs -> at_most_once start_of (ch_id h) startable cs) by (by intros s cs []; left).
  assert (Hrem' : keeps en (fun _ => Seen actual) (remaining_time w)) by (apply keeps_remaining, HSeen; done).
  apply spec_pure; [by intros e s cs _; apply HI|]. intros status Hst. destruct (running status) eqn:Hrun.
  { apply keeps_try; [done|done|done|intros _]. by apply spec_ret. }
  case_bool_decide as Hc; [|by apply spec_ret]. cbn [negb]. apply keeps_try; [done..|intros d'].
  assert (Hstart : forall cs, Seen actual cs -> once start_of (ch_id h) startable
    (cs ++ [Call (Within d' (StartContainer (ch_id h)))])).
  { intros cs [Hn Hs]. apply once_now; [done|done|]. by exists actual, status. }
  eapply (spec_bind_ok _ _ _ _ _ (fun _ _ cs => once start_of (ch_id h) startable cs) (fun _ => after)); [|done|intros _].
  - eapply spec_conseq; [apply (spec_bounded_call en (at_most_once start_of (ch_id h) startable) (Seen actual)
      (fun _ => once start_of (ch_id h) startable))|done|].
    + intros cs Hs. right. by apply Hstart.
    + intros cs x Hs. apply once_app; [done|]. by apply Hstart.
    + intros [?|?] s cs Hs; [done|by right].
  - apply keeps_try.
    + apply keeps_remaining. intros cs Ho. split; [|intros x]; by apply once_app.
    + by right.
    + by right.
    + intros _. apply spec_ret. by right.
Qed.
End Started.

(** A container is started at most once, and only when it was never run.
    However a [start] ends, also when it is dropped, its log asks the daemon for
    at most one start, of its own container, and before that call the daemon had
    described the container as created and not running, with exactly the isolation,
    limits and mounts that were built for the attempt. *)
Theorem only_created_containers_are_started (h : ContainerHandle) (w : AuthorityWindow)
  (en : env unit docker) (sa : SupervisedAuthority) (clock left : nat) :
  let log := ex_calls (snd (start h w en (fresh_log sa clock left))) in
  started log = []
  \/ exists t1 d t2 actual status,
       log = t1 ++ Call (Within d (StartContainer (ch_id h))) :: t2
       /\ started t1 = [] /\ started t2 = []
       /\ told t1 (InspectContainer (ch_id h)) (Ok actual)
       /\ verify (ir_inspect actual) (ch_expected h) (ch_image_id h) = Ok tt
       /\ container_status actual = Ok status
       /\ running status = false /\ container_state status = ContainerState.Created.
Proof.
  pose proof (start_spec en h w (fresh_log sa clock left) eq_refl) as Hs.
  assert (Hlog : at_most_once start_of (ch_id h) (startable h) (ex_calls (snd (start h w en (fresh_log sa clock left)))))
    by (by destruct (start h w en _) as [[m|] r']).
  destruct Hlog as [?|(t1 & c & t2 & -> & Hc & H1 & H2 & actual & status & (Ht & _ & Hv) & Hrest)]; [by left|right].
  destruct c as [X e|X e x]; [|done]. destruct e; try done.
  match goal with e : docker _ |- _ => destruct e; try done end. injection Hc as ->.
  by exists t1, d, t2, actual, status.
Qed.

(** ** Removal *)

Lemma not_404 (e : RuntimeError.t) : e = RuntimeError.Daemon 404 \/
  forall A (a b : A), match e with RuntimeError.Daemon 404 => a | _ => b end = b.
Proof.
  destruct e as [| | | | | |[|p]| |]; auto. do 9 (try destruct p as [p|p|]; auto).
Qed.

(** A removal, from a log that has none. *)
Lemma spec_removal (en : env unit docker) (P why : list (some_call docker) -> Prop) (id : string) (force volumes : bool) :
  (forall cs, P cs -> never removal_of cs /\ why cs) ->
  spec en (fun _ => at_most_once removal_of (id, force) why) (fun _ => P)
    (bounded_call RPC_TIMEOUT (RemoveContainer id force volumes))
    (fun m _ cs => at_most_once removal_of (id, force) why cs /\ told cs (RemoveContainer id force volumes) m).
Proof.
  intros HP. assert (Hnow : forall cs, P cs -> once removal_of (id, force) why
    (cs ++ [Call (Within RPC_TIMEOUT (RemoveContainer id force volumes))])).
  { intros cs Hp. destruct (HP cs Hp). by apply once_now. }
  apply (spec_bounded_call en _ P (fun m cs => at_most_once removal_of (id, force) why cs
    /\ told cs (RemoveContainer id force volumes) m)).
  - intros cs Hp. right. by apply Hnow.
  - intros cs x Hp. split; [right; by apply once_app; [|apply Hnow]|apply told_last].
Qed.

(** The removal in a log that has one. *)
Lemma once_removal (id : string) (force : bool) (why : list (some_call docker) -> Prop) (cs : list (some_call docker)) :
  at_most_once removal_of (id, force) why cs ->
  removals cs = []
  \/ exists t1 d v t2, cs = t1 ++ Call (Within d (RemoveContainer id force v)) :: t2
       /\ removals t1 = [] /\ removals t2 = [] /\ why t1.
Proof.
  intros [?|(t1 & c & t2 & -> & Hc & H1 & H2 & Hw)]; [by left|right].
  destruct c as [X e|X e x]; [|done]. destruct e; try done.
  match goal with e : docker _ |- _ => destruct e; try done end. injection Hc as -> ->.
  by eexists t1, d, _, t2.
Qed.

Section Removed.
Context (en : env unit docker) (h : ContainerHandle).

(** The daemon reported the container as not running. *)
Definition stopped (cs : list (some_call docker)) : Prop :=
  exists status, reported_status h status cs /\ running status = false.

(** The daemon confirmed the container absent. *)
Definition absent (cs : list (some_call docker)) : Prop :=
  told cs (InspectContainer (ch_id h)) (Err (RuntimeError.Daemon 404))
  \/ told cs (RemoveContainer (ch_id h) false true) (Ok tt)
  \/ told cs (RemoveContainer (ch_id h) false true) (Err (RuntimeError.Daemon 404)).

Abbreviation after := (at_most_once removal_of (ch_id h, false) stopped).

Lemma remove_spec :
  spec en (fun _ => after) (fun _ => never removal_of) (remove h)
    (fun m _ cs => after cs /\ (m = Ok tt -> absent cs)).
Proof.
  unfold remove.
  eapply (spec_bind _ _ _ _ _ (fun m _ cs => never removal_of cs /\ match m with
    | Ok status => reported_status h status cs
    | Err e => e = RuntimeError.Identity \/ told cs (InspectContainer (ch_id h)) (Err e) end)).
  { eapply spec_drop; [apply (inspect_spec en (never removal_of)); auto with dispatch|by left]. }
  intros [status|e].
  - destruct (running status) eqn:Hrun; [apply spec_ret; intros s cs [Hn _]; split; [by left|done]|].
    eapply spec_bind; [apply (spec_removal en _ stopped)|].
    + intros cs [Hn Hst]. split; [done|]. by exists status.
    + intros m. apply spec_ret. intros s cs [Hcs Ha]. split; [done|].
      destruct m as [[]|e]; [by right; left|]. destruct (not_404 e) as [->|He]; [by right; right|by rewrite He].
  - destruct (not_404 e) as [->|He].
    + apply spec_ret. intros s cs [Hcs [?|Ha]]; [done|]. split; [by left|]. by left.
    + rewrite He. apply spec_ret. intros s cs [Hcs _]. by split; [left|].
Qed.
End Removed.

(** C20: a running container is never removed, and a removal that succeeds is
    confirmed.  The log of a [remove] asks for at most one deletion, of its own
    container and never by force, and before that call the daemon had described
    the container of that id with [Running] false; when [remove] returns success the daemon
    has said that the container is gone or has carried out the deletion. *)
Theorem removal_is_confirmed_and_never_forced (h : ContainerHandle) (en : env unit docker)
  (sa : SupervisedAuthority) (clock left : nat) :
  let '(m, r) := remove h en (fresh_log sa clock left) in
  let log := ex_calls r in
  (removals log = []
   \/ exists t1 d v t2 actual state,
        log = t1 ++ Call (Within d (RemoveContainer (ch_id h) false v)) :: t2
        /\ removals t1 = [] /\ removals t2 = []
        /\ told t1 (InspectContainer (ch_id h)) (Ok actual) /\ ir_id actual = Some (ch_id h)
        /\ ir_state actual = Some state /\ ds_running state = Some false)
  /\ (m = Some (Ok tt) ->
      told log (InspectContainer (ch_id h)) (Err (RuntimeError.Daemon 404))
      \/ told log (RemoveContainer (ch_id h) false true) (Ok tt)
      \/ told log (RemoveContainer (ch_id h) false true) (Err (RuntimeError.Daemon 404))).
Proof.
  pose proof (remove_spec en h (fresh_log sa clock left) eq_refl) as Hs.
  destruct (remove h en (fresh_log sa clock left)) as [m r] eqn:E. cbv zeta.
  assert (Hlog : at_most_once removal_of (ch_id h, false) (stopped h) (ex_calls r)
    /\ (m = Some (Ok tt) -> absent h (ex_calls r))).
  { destruct m as [m|]; cbn in Hs; [|by split]. destruct Hs as [Hc Hm]. split; [done|]. by intros [= ->]; apply Hm. }
  destruct Hlog as [Hlog Hm]. split; [|exact Hm]. clear Hm Hs E.
  apply once_removal in Hlog as [?|(t1 & d & v & t2 & -> & H1 & H2 & status & (actual & (Ht & Hid & _) & Hst) & Hrun)];
    [by left|right].
  destruct (container_status_Ok _ _ Hst) as (state & raw & Hs & _ & _ & Hr & _). rewrite Hrun in Hr.
  by exists t1, d, v, t2, actual, state.
Qed.

(** ** Creation *)

Section Created.
Context (en : env unit docker) (name : string) (expected : ContainerCreateBody).

Abbreviation log := (list (some_call docker)).
Abbreviation at_log P := (fun (_ : unit) (cs : log) => P cs).

(** The daemon described a container under the name, within a time limit or not. *)
Definition described (cs : log) (actual : InspectResponse) : Prop :=
  told cs (InspectContainer name) (Ok actual) \/ Answer (InspectContainer name) (Ok actual) ∈ cs.

(** The daemon had said that the name was free. *)
Definition free (cs : log) : Prop := told cs (InspectContainer name) (Err (RuntimeError.Daemon 404)).

Abbreviation after := (at_most_once creation_of (name, expected) free).

Lemma after_other {X : Type} (e : docker X) : creation_of (Call e) = None -> unheard after e.
Proof. intros He. by apply at_most_once_unheard. Qed.

Lemma lookup_spec (commit : bool) :
  spec en (at_log after) (at_log after) (loop (lookup_turn name commit) tt)
    (fun m _ cs => after cs /\ forall actual, m = Ok actual -> described cs actual).
Proof.
  apply (spec_loop en _ (fun _ => at_log after)); [done|]. intros [].
  eapply (spec_bind _ _ _ _ _ (fun m _ cs => after cs /\ Answer (InspectContainer name) m ∈ cs)).
  { apply spec_call; intros; [by apply after_other|]. split; [by apply after_other, after_other|].
    apply elem_of_app. right. by left. }
  intros [actual|e]; cbn [map_err].
  - apply spec_ret. intros s cs [Hcs Hin]. split; [done|]. intros ? [= <-]. by right.
  - destruct (from_docker e) as [| | | | | |[|p]| |]; try (apply spec_ret; by intros s cs []).
    do 9 (try destruct p as [p|p|]; try (apply spec_ret; by intros s cs [])).
    destruct commit; [|apply spec_ret; by intros s cs []].
    eapply spec_conseq; [|intros s cs [Hcs _]; exact Hcs|intros a s cs Hq; exact Hq].
    eapply (spec_bind _ _ _ _ _ (fun _ => at_log after)); [|intros []; by apply spec_ret].
    apply spec_docker. by apply after_other.
Qed.

Lemma create_or_find_spec (w : AuthorityWindow) :
  spec en (at_log after) (at_log (never creation_of)) (create_or_find w name expected)
    (fun m _ cs => after cs /\ forall actual, m = Ok actual -> described cs actual).
Proof.
  unfold create_or_find.
  assert (Hrem : keeps en (at_log (never creation_of)) (remaining_time w)) by (apply keeps_remaining, never_unheard; done).
  apply keeps_try; [done|by left|by intros e s cs Hcs; split; [left|]|intros d].
  eapply (spec_bind _ _ _ _ _ (fun m _ cs => never creation_of cs /\ told cs (InspectContainer name) m)).
  { apply (spec_bounded_call en _ _ (fun m cs => never creation_of cs /\ told cs (InspectContainer name) m)).
    - intros cs Hn. left. by apply never_app.
    - intros cs x Hn. split; [by apply never_app; [|apply never_app]|apply told_last]. }
  intros [actual|e].
  { apply spec_ret. intros s cs [Hcs Ha]. split; [by left|]. intros ? [= <-]. by left. }
  assert (Herr : spec en (at_log after)
    (fun _ cs => never creation_of cs /\ told cs (InspectContainer name) (Err e)) (tret (Err e))
    (fun m _ cs => after cs /\ forall actual, m = Ok actual -> described cs actual))
    by (apply spec_ret; by intros s cs [Hcs _]; split; [left|]).
  destruct e as [| | | | | |[|p]| |]; try exact Herr.
  do 9 (try destruct p as [p|p|]; try exact Herr). clear Herr Hrem.
  apply keeps_try; [|by intros s cs []; left|by intros e s cs []; split; [left|]|intros d'].
  { apply keeps_remaining. intros cs [Hn Ht].
    split; [|intros x]; (split; [by apply never_app|by apply told_app]). }
  eapply (spec_bind _ _ _ _ _ (fun _ => at_log after)).
  { apply (spec_bounded_call en _ _ (fun _ => after)).
    - intros cs [Hn Ht]. right. by apply once_now.
    - intros cs x [Hn Ht]. right. apply once_app; [done|]. by apply once_now. }
  intros created.
  eapply (spec_bind _ _ _ _ _ (fun m _ cs => after cs /\ forall actual, m = Some (Ok actual) -> described cs actual)).
  - apply spec_timeout; [|by intros s cs Hcs; split]. eapply spec_conseq; [apply lookup_spec|done|].
    intros m s cs [Hcs Hm]. split; [done|]. intros actual [= ->]. by apply Hm.
  - intros [[actual|e]|]; apply spec_ret; intros s cs [Hcs Hm]; (split; [done|]); [|done..].
    intros ? [= <-]. by apply Hm.
Qed.
End Created.

(** What only grows with the log is kept. *)
Lemma create_or_find_keeps (en : env unit docker) (w : AuthorityWindow) (name : string) (expected : ContainerCreateBody)
  (P : list (some_call docker) -> Prop) :
  (forall cs cs', P cs -> P (cs ++ cs')) -> keeps en (fun _ => P) (create_or_find w name expected).
Proof.
  intros HP. assert (Hu : forall X (e : docker X), unheard P e) by (intros X e cs Hcs; split; [|intros y]; by apply HP).
  unfold create_or_find. apply keeps_bind_ok; [by apply keeps_remaining|intros d].
  apply keeps_bind; [by apply keeps_bounded_call|intros existing].
  repeat case_match; try apply keeps_ret. apply keeps_bind_ok; [by apply keeps_remaining|intros d'].
  apply keeps_bind; [by apply keeps_bounded_call|intros created].
  apply keeps_bind; [|intros r; apply keeps_ret]. apply keeps_timeout, keeps_loop. intros [].
  apply keeps_bind; [by apply spec_docker|intros m].
  repeat case_match; try apply keeps_ret.
  all: apply keeps_bind; [by apply spec_docker|]; intros []; apply keeps_ret.
Qed.

Section Creation.
Context (en : env unit docker) (capture_logs : bool) (identity : AttemptAuthority) (x : ExecutionSpec)
  (ws : PreparedWorkspace).

Abbreviation log := (list (some_call docker)).
Abbreviation name := ("dispatch-" +:+ aa_attempt_id identity).
Abbreviation image_of := (js_image (job_spec (es_job x))).

(** What a returned handle stands for. *)
Definition handle_verified (h : ContainerHandle) (cs : log) : Prop :=
  build identity x ws = Ok (ch_expected h)
  /\ (exists image, told cs (InspectImage image_of) (Ok image)
        /\ set_nonempty (im_volumes image) = false /\ im_id image = Some (ch_image_id h))
  /\ exists actual, described name cs actual /\ ir_id actual = Some (ch_id h)
        /\ verify (ir_inspect actual) (ch_expected h) (ch_image_id h) = Ok tt.

(** At most one container, the one built for the attempt. *)
Definition creates_the_attempt (cs : log) : Prop :=
  never creation_of cs
  \/ exists body, build identity x ws = Ok body /\ at_most_once creation_of (name, body) (free name) cs.

Lemma creates_other {X : Type} (e : docker X) : creation_of (Call e) = None -> unheard creates_the_attempt e.
Proof.
  intros He cs [Hn|(body & Hb & Hcs)].
  - split; [|intros y]; left; by apply never_app.
  - split; [|intros y]; right; exists body; (split; [done|]); by apply at_most_once_app.
Qed.

(** Attaching the log collector creates nothing. *)
Lemma attach_keeps (P : log -> Prop) (id : string) (before : bool) :
  (forall X (e : docker X), creation_of (Call e) = None -> unheard P e) ->
  keeps en (fun _ => P) (attach_capture id before).
Proof.
  intros HP. unfold attach_capture.
  apply keeps_bind; [apply keeps_bounded_call, HP; done|intros attached].
  apply keeps_bind; [|intros r; apply keeps_ret].
  repeat first
    [ apply keeps_ret
    | apply keeps_bind; [first [apply spec_docker, HP; done | apply keeps_docker_ask, HP; done]|intros ?]
    | case_match ].
Qed.

(** The container found under the attempt's name, and the image it was made from. *)
Definition found (expected : ContainerCreateBody) (image_id : string) (actual : InspectResponse) (cs : log) : Prop :=
  creates_the_attempt cs /\ described name cs actual
  /\ exists image, told cs (InspectImage image_of) (Ok image)
       /\ set_nonempty (im_volumes image) = false /\ im_id image = Some image_id.

Lemma described_app (cs cs' : log) (actual : InspectResponse) :
  described name cs actual -> described name (cs ++ cs') actual.
Proof. intros [Ht|Hin]; [left; by apply told_app|right]. apply elem_of_app. by left. Qed.

Lemma found_other {X : Type} (expected : ContainerCreateBody) (image_id : string) (actual : InspectResponse) (e : docker X) :
  creation_of (Call e) = None -> unheard (found expected image_id actual) e.
Proof.
  intros He cs (Hc & Hd & image & Ht & Hi). destruct (creates_other e He cs Hc) as [H1 H2].
  split; [|intros y]; (split_and!; [auto|by apply described_app|exists image; split; [by apply told_app|done]]).
Qed.

(** The rest of [create], once the container was found. *)
Lemma adopt_spec (w : AuthorityWindow) (expected : ContainerCreateBody) (image_id : string) (actual : InspectResponse) :
  build identity x ws = Ok expected ->
  spec en (fun _ => creates_the_attempt) (fun _ => found expected image_id actual)
    (let&? _ := tret (verify (ir_inspect actual) expected image_id) in
     let before_start := bool_decide ((s ← ir_state actual; ds_status s) = Some CREATED) in
     let&? id := tret (ok_or (ir_id actual) RuntimeError.Identity) in
     if negb (str_len id =? 64) || negb (forallb hex_or_digit (str_bytes id))
     then tret (Err RuntimeError.Identity)
     else
       let&? _ := remaining_time w in
       let& capture := (if capture_logs : bool then tmap Some (attach_capture id before_start)
                        else tret None) in
       tret (Ok {| ch_id := id; ch_expected := expected; ch_image_id := image_id; ch_capture := capture |}))
    (fun m _ cs => creates_the_attempt cs /\ forall h, m = Ok h -> handle_verified h cs).
Proof.
  intros Hb.
  assert (HI : forall (s : unit) cs, found expected image_id actual cs -> creates_the_attempt cs) by (by intros s cs []).
  assert (HE : forall (e : RuntimeError.t) (s : unit) cs, found expected image_id actual cs ->
    creates_the_attempt cs /\ forall h, Err e = Ok h -> handle_verified h cs) by (by intros e s cs []).
  apply spec_pure; [by intros e s cs _; apply HE|intros [] Hv].
  apply spec_pure; [by intros e s cs _; apply HE|intros id Hid]. destruct (_ || _); [apply spec_ret; auto|].
  apply keeps_try; [apply keeps_remaining, found_other; done|done|done|intros _].
  eapply (spec_bind _ _ _ _ _ (fun _ _ => found expected image_id actual)).
  { eapply spec_drop; [|exact HI]. destruct capture_logs; [|by apply spec_ret].
    apply keeps_map, attach_keeps. intros X e He. by apply found_other. }
  intros capture. apply spec_ret. intros s cs (Hc & Hd & Hi). split; [done|]. intros h [= <-].
  destruct (ir_id actual) as [i|] eqn:Hact; cbn in Hid; [injection Hid as ->|done].
  split_and!; [done|done|]. by exists actual.
Qed.

Lemma create_spec (w : AuthorityWindow) :
  spec en (fun _ => creates_the_attempt) (fun _ => never creation_of)
    (create capture_logs identity x ws w)
    (fun m _ cs => creates_the_attempt cs /\ forall h, m = Ok h -> handle_verified h cs).
Proof.
  assert (Hrem : keeps en (fun _ => never creation_of) (remaining_time w)) by (apply keeps_remaining, never_unheard; done).
  assert (HI : forall (s : unit) cs, never creation_of cs -> creates_the_attempt cs) by (by left).
  assert (HE : forall (e : RuntimeError.t) (s : unit) cs, never creation_of cs ->
    creates_the_attempt cs /\ forall h, Err e = Ok h -> handle_verified h cs) by (by split; [left|]).
  unfold create. apply keeps_try; [done..|intros _].
  eapply (spec_bind _ _ _ _ _ (fun _ _ => never creation_of));
    [eapply spec_drop; [by apply keeps_docker_ask, never_unheard|done]|intros io].
  apply spec_pure; [by intros e s cs _; apply HE|intros _ _]. apply keeps_try; [|done..|intros _].
  { destruct (pw_quota ws) as [limit|]; [|apply keeps_ret]. destruct (negb _); [apply keeps_ret|].
    apply keeps_quota_support; auto with dispatch. }
  apply spec_pure; [by intros e s cs _; apply HE|intros expected Hb]. apply keeps_try; [done..|intros d].
  eapply (spec_bind_ok _ _ _ _ _ (fun image _ cs => never creation_of cs /\ told cs (InspectImage image_of) (Ok image))
    (fun _ _ => never creation_of)); [|done|intros image].
  { eapply spec_conseq; [apply (spec_bounded_call en creates_the_attempt (never creation_of)
      (fun m cs => never creation_of cs /\ told cs (InspectImage image_of) m))|done|by intros [?|?] s cs []].
    - intros cs Hn. left. by apply never_app.
    - intros cs y Hn. split; [by apply never_app; [|apply never_app]|apply told_last]. }
  destruct (set_nonempty _) eqn:Hvol; [apply spec_ret; intros s cs [Hn _]; by apply HE|].
  apply spec_pure; [intros e s cs _ [Hn _]; by apply HE|intros image_id Hid].
  assert (Himage : im_id image = Some image_id) by (by destruct (im_id image); cbn in Hid; congruence).
  eapply (spec_bind_ok _ _ _ _ _ (fun actual _ => found expected image_id actual) (fun _ _ => creates_the_attempt));
    [|done|intros actual; by apply adopt_spec].
  assert (Happ : keeps en (fun _ cs => told cs (InspectImage image_of) (Ok image)) (create_or_find w name expected))
    by (apply create_or_find_keeps; intros; by apply told_app).
  eapply spec_drop; [eapply spec_conseq; [exact (spec_frame en _ _ _ _ _ (create_or_find_spec en name expected w) Happ)|done|]|].
  - intros [actual|e] s cs [[Hc Hm] Ht]; [|right; by exists expected].
    split_and!; [right; by exists expected|by apply Hm|by exists image].
  - intros s cs [Hc Ht]. right. by exists expected.
Qed.
End Creation.

(** C34: an attempt gets one container, and the right one.  The log of a [create],
    also of one that is dropped, asks for at most one container, under the attempt's
    name, with exactly the body built for the attempt, and after the daemon said that
    the name was free; and a handle it returns names a container the daemon described
    under that name whose configuration was verified against that body and against
    the image the daemon reported, which declares no volumes. *)
Theorem created_container_is_the_attempts (capture_logs : bool) (identity : AttemptAuthority)
  (x : ExecutionSpec) (ws : PreparedWorkspace) (w : AuthorityWindow) (en : env unit docker)
  (sa : SupervisedAuthority) (clock left : nat) :
  let '(m, r) := create capture_logs identity x ws w en (fresh_log sa clock left) in
  let log := ex_calls r in
  let name := "dispatch-" +:+ aa_attempt_id identity in
  (creations log = []
   \/ exists t1 d body t2, log = t1 ++ Call (Within d (CreateContainer name body)) :: t2
        /\ creations t1 = [] /\ creations t2 = [] /\ build identity x ws = Ok body
        /\ told t1 (InspectContainer name) (Err (RuntimeError.Daemon 404)))
  /\ (forall h, m = Some (Ok h) ->
      build identity x ws = Ok (ch_expected h)
      /\ (exists image, told log (InspectImage (js_image (job_spec (es_job x)))) (Ok image)
            /\ set_nonempty (im_volumes image) = false /\ im_id image = Some (ch_image_id h))
      /\ exists actual, described name log actual /\ ir_id actual = Some (ch_id h)
            /\ verify (ir_inspect actual) (ch_expected h) (ch_image_id h) = Ok tt).
Proof.
  pose proof (create_spec en capture_logs identity x ws w (fresh_log sa clock left) eq_refl) as Hs.
  destruct (create capture_logs identity x ws w en (fresh_log sa clock left)) as [m r] eqn:E. cbv zeta.
  assert (Hlog : creates_the_attempt identity x ws (ex_calls r)
    /\ forall h, m = Some (Ok h) -> handle_verified identity x ws h (ex_calls r)).
  { destruct m as [m|]; cbn in Hs; [|by split]. destruct Hs as [Hc Hm]. split; [done|]. by intros h [= ->]; apply Hm. }
  destruct Hlog as [Hlog Hm]. split; [|exact Hm]. clear Hm Hs E.
  destruct Hlog as [?|(body & Hb & [?|(t1 & c & t2 & -> & Hc & H1 & H2 & Hf)])]; [by left..|right].
  destruct c as [X e|X e y]; [|done]. destruct e; try done.
  match goal with e : docker _ |- _ => destruct e; try done end. injection Hc as -> ->.
  by exists t1, d, body, t2.
Qed.
