(* ===== verification/Recovery.v ===== *)
(** Cleaning up containers of earlier sessions and of attempts that are over
    ([rust/worker/src/runtime/recovery.rs]): what a container on the daemon says
    about its attempt, the inventory of a worker's containers, and the two removals. *)

From stdpp Require Import pretty.
From S2P Require Import Prelude Strings Os Protocol Lease Control Supervisor Execution.
From S2P Require Import RuntimeConfig Async Docker.
Open Scope N_scope.

Definition MAX_INVENTORY : N := 1024.

Record Fingerprint := {
  fp_id : string;
  fp_authority : AttemptAuthority;
  fp_image_id : string;
  fp_spec_sha256 : string;
  fp_scratch_policy : string;
}.

#[global] Instance Fingerprint_eq_dec : EqDecision Fingerprint.
Proof. solve_decision. Defined.

Record RecoveredContainer := {
  rc_fingerprint : Fingerprint;
  rc_status : ContainerStatus;
}.

(** [str::parse::<u64>]: an optional sign, then digits that do not overflow. *)
Fixpoint parse_digits (acc : N) (s : string) : option N :=
  match s with
  | EmptyString => Some acc
  | String a s' =>
      let c := N_of_ascii a in
      if in_range 48 57 c then
        let v := acc * 10 + (c - 48) in
        if U64_MAX <? v then None else parse_digits v s'
      else None
  end.

Definition parse_u64 (s : string) : option N :=
  let body := match s with String "+" rest => rest | _ => s end in
  if is_empty_str body then None else parse_digits 0 body.

Definition recover (actual : InspectResponse) (worker id : string)
  : result RuntimeError.t RecoveredContainer :=
  let? labels := ok_or (c ← ci_config (ir_inspect actual); cc_labels c) RuntimeError.Identity in
  let label key := ok_or (labels !! key) RuntimeError.Identity in
  let? generation := label "dev.dispatch.generation"%string in
  let? worker_id := label "dev.dispatch.worker"%string in
  let? session_id := label "dev.dispatch.session"%string in
  let? job_id := label "dev.dispatch.job"%string in
  let? attempt_id := label "dev.dispatch.attempt"%string in
  let? number := ok_or (parse_u64 generation) RuntimeError.Identity in
  let authority := {| aa_job_id := job_id; aa_attempt_id := attempt_id; aa_generation := number;
                      aa_worker_id := worker_id; aa_session_id := session_id |} in
  let? image_id := ok_or (ci_image (ir_inspect actual)) RuntimeError.Identity in
  let? spec_sha256 := label "dev.dispatch.spec-sha256"%string in
  let? scratch_policy := label "dev.dispatch.scratch-policy"%string in
  if negb (bool_decide (ir_id actual = Some id))
     || negb (lower_hash id)
     || negb (bool_decide (worker_id = worker))
     || existsb (fun v => negb (canonical_uuid v)) [worker_id; session_id; job_id; attempt_id]
     || (number =? 0) || (I64_MAX <? number)
     || negb (bool_decide (pretty number = generation))
     || negb (match strip_prefix "sha256:" image_id with
              | Some rest => lower_hash rest
              | None => false
              end)
     || negb (lower_hash spec_sha256)
     || negb (bool_decide (scratch_policy ∈ ["soft-development"; "ext4-project-quota-v1"]%string))
     || negb (bool_decide (ir_name actual = Some ("/dispatch-" +:+ attempt_id)))
  then Err RuntimeError.Identity
  else
    let? status := container_status actual in
    Ok {| rc_fingerprint := {| fp_id := id; fp_authority := authority; fp_image_id := image_id;
                               fp_spec_sha256 := spec_sha256; fp_scratch_policy := scratch_policy |};
          rc_status := status |}.

(** ** The inventory *)

(** The loop over the summaries; [ids] were seen, [found] were recovered. *)
Fixpoint recover_each (worker_id : string) (summaries : list (option string)) (ids : list string)
  (found : list RecoveredContainer) : D (result RuntimeError.t (list RecoveredContainer)) :=
  match summaries with
  | [] => tret (Ok found)
  | summary :: rest =>
      let&? id := tret (ok_or summary RuntimeError.Identity) in
      if negb (lower_hash id) || bool_decide (id ∈ ids) then tret (Err RuntimeError.Identity)
      else
        let& actual := call (InspectContainer id) in
        match actual with
        | Ok actual =>
            let&? one := tret (recover actual worker_id id) in
            recover_each worker_id rest (id :: ids) (found ++ [one])
        | Err (ServerError 404) => recover_each worker_id rest (id :: ids) found
        | Err e => tret (Err (from_docker e))
        end
  end.

Definition list_all (worker_id : string) : D (result RuntimeError.t (list RecoveredContainer)) :=
  let&? summaries := tmap_err from_docker (call (ListContainers worker_id (MAX_INVENTORY + 1))) in
  if MAX_INVENTORY <? len summaries then tret (Err RuntimeError.InventoryLimit)
  else
    let&? found := recover_each worker_id summaries [] [] in
    tret (Ok (sort_by (fun a b => str_leb (fp_id (rc_fingerprint a)) (fp_id (rc_fingerprint b))) found)).

Definition inventory (worker_id : string) : D (result RuntimeError.t (list RecoveredContainer)) :=
  if negb (canonical_uuid worker_id) then tret (Err RuntimeError.Identity)
  else
    let& r := timeout (list_all worker_id) in
    tret (match r with Some m => m | None => Err RuntimeError.Deadline end).

(** ** The removals *)

(** The last look at a container that was removed. *)
Definition confirm_absent (id : string) : D (result RuntimeError.t unit) :=
  let& found := bounded_call RPC_TIMEOUT (InspectContainer id) in
  tret (match found with
        | Err (RuntimeError.Daemon 404) => Ok tt
        | Err e => Err e
        | Ok _ => Err RuntimeError.Transport
        end).

Definition remove_previous (container : RecoveredContainer) (current_session : string)
  : D (result RuntimeError.t unit) :=
  let fingerprint := rc_fingerprint container in
  let id := fp_id fingerprint in
  let authority := fp_authority fingerprint in
  if negb (canonical_uuid current_session) || bool_decide (aa_session_id authority = current_session)
  then tret (Err RuntimeError.Identity)
  else
    let& found := bounded_call RPC_TIMEOUT (InspectContainer id) in
    match found with
    | Err (RuntimeError.Daemon 404) => tret (Ok tt)
    | Err e => tret (Err e)
    | Ok actual =>
        let&? checked := tret (recover actual (aa_worker_id authority) id) in
        if negb (bool_decide (rc_fingerprint checked = fingerprint)) then tret (Err RuntimeError.Identity)
        else
          let& removed := bounded_call RPC_TIMEOUT (RemoveContainer id true false) in
          match removed with
          | Ok _ => confirm_absent id
          | Err (RuntimeError.Daemon 404) => tret (Ok tt)
          | Err e => tret (Err e)
          end
    end.

(** A deletion whose outcome must be looked up. *)
Definition resolvable (r : result RuntimeError.t unit) : bool :=
  match r with
  | Ok _ | Err RuntimeError.Transport | Err RuntimeError.Deadline => true
  | Err (RuntimeError.Daemon code) => (code =? 404) || (code =? 409) || in_range 500 599 code
  | Err _ => false
  end.

Definition removable_state (s : ContainerState.t) : bool :=
  match s with
  | ContainerState.Created | ContainerState.Exited | ContainerState.Dead => true
  | _ => false
  end.

Definition remove_stopped_current (authority : AttemptAuthority) (container_id spec_sha256 : string)
  : D (result RuntimeError.t unit) :=
  if negb (canonical_uuid (aa_worker_id authority)) || negb (canonical_uuid (aa_session_id authority))
     || negb (canonical_uuid (aa_job_id authority)) || negb (canonical_uuid (aa_attempt_id authority))
     || negb (lower_hash container_id) || negb (lower_hash spec_sha256)
  then tret (Err RuntimeError.Identity)
  else
    let& found := bounded_call RPC_TIMEOUT (InspectContainer container_id) in
    match found with
    | Err (RuntimeError.Daemon 404) => tret (Ok tt)
    | Err e => tret (Err e)
    | Ok actual =>
        let&? checked := tret (recover actual (aa_worker_id authority) container_id) in
        if negb (bool_decide (fp_authority (rc_fingerprint checked) = authority))
           || negb (bool_decide (fp_spec_sha256 (rc_fingerprint checked) = spec_sha256))
           || running (rc_status checked)
           || negb (removable_state (container_state (rc_status checked)))
        then tret (Err RuntimeError.Identity)
        else
          let& removed := bounded_call RPC_TIMEOUT (RemoveContainer container_id false true) in
          match removed with
          | Err e => if resolvable (Err e) then confirm_absent container_id else tret (Err e)
          | Ok _ => confirm_absent container_id
          end
    end.

(** * Lemmas *)

(** A number survives printing and parsing. *)
Lemma pretty_N_char_code (d : N) : d < 10 -> N_of_ascii (pretty_N_char d) = 48 + d.
Proof.
  intros Hd. assert (d = 0 \/ d = 1 \/ d = 2 \/ d = 3 \/ d = 4 \/ d = 5 \/ d = 6 \/ d = 7 \/ d = 8 \/ d = 9) as Hc by lia.
  by repeat destruct Hc as [-> | Hc]; try subst d.
Qed.

Lemma parse_digits_pretty (n : N) (s : string) :
  n <= U64_MAX -> parse_digits 0 (pretty_N_go n s) = parse_digits n s.
Proof.
  revert s. induction (N.lt_wf_0 n) as [n _ IH]. intros s Hn.
  destruct (decide (n = 0)) as [->|Hz]; [by rewrite pretty_N_go_0|].
  rewrite pretty_N_go_step by lia. pose proof (N.div_mod n 10 ltac:(lia)) as Hdm.
  pose proof (N.mod_lt n 10 ltac:(lia)) as Hmod.
  assert (Hlt : n `div` 10 < n) by (apply N.div_lt; lia).
  rewrite (IH _ Hlt) by lia. cbn [parse_digits].
  rewrite pretty_N_char_code by done. clear IH Hlt. revert Hdm Hmod.
  generalize (n `div` 10) as q, (n `mod` 10) as d. intros q d Hdm Hd.
  assert (in_range 48 57 (48 + d) = true) as ->
    by (clear - Hd; apply andb_true_intro; split; apply N.leb_le; lia).
  replace (q * 10 + (48 + d - 48)) with n by lia. by rewrite (proj2 (N.ltb_ge U64_MAX n)).
Qed.

Lemma parse_pretty (n : N) : n <= U64_MAX -> parse_u64 (pretty n) = Some n.
Proof.
  intros Hn. assert (Hd : parse_digits 0 (pretty n) = Some n).
  { unfold pretty, pretty_N. destruct (decide (n = 0)) as [->|]; [done|]. by rewrite parse_digits_pretty. }
  assert (Hne : pretty n <> EmptyString).
  { unfold pretty, pretty_N. destruct (decide (n = 0)); [done|]. intros He. revert Hd. unfold pretty, pretty_N.
    rewrite decide_False by done. rewrite He. cbn. congruence. }
  unfold parse_u64. destruct (pretty n) as [|a rest] eqn:Hp; [done|].
  destruct (ascii_dec a "+") as [->|Ha]; [done|].
  assert (match a with "+"%char => rest | _ => String a rest end = String a rest) as ->; [|done].
  destruct a as [[] [] [] [] [] [] [] []]; done.
Qed.

(** What the daemon says of a container: a label of it, the attempt in its
    name and labels, and what a fingerprint holds besides. *)
Definition labelled (actual : InspectResponse) (key value : string) : Prop :=
  exists c labels, ci_config (ir_inspect actual) = Some c /\ cc_labels c = Some labels
    /\ labels !! key = Some value.

Record describes (actual : InspectResponse) (id : string) (a : AttemptAuthority) : Prop := {
  desc_id : ir_id actual = Some id;
  desc_name : ir_name actual = Some ("/dispatch-" +:+ aa_attempt_id a);
  desc_worker : labelled actual "dev.dispatch.worker" (aa_worker_id a);
  desc_session : labelled actual "dev.dispatch.session" (aa_session_id a);
  desc_job : labelled actual "dev.dispatch.job" (aa_job_id a);
  desc_attempt : labelled actual "dev.dispatch.attempt" (aa_attempt_id a);
  desc_generation : labelled actual "dev.dispatch.generation" (pretty (aa_generation a));
}.

Record fingerprinted (actual : InspectResponse) (fp : Fingerprint) : Prop := {
  fpd_attempt : describes actual (fp_id fp) (fp_authority fp);
  fpd_image : ci_image (ir_inspect actual) = Some (fp_image_id fp);
  fpd_spec : labelled actual "dev.dispatch.spec-sha256" (fp_spec_sha256 fp);
  fpd_policy : labelled actual "dev.dispatch.scratch-policy" (fp_scratch_policy fp);
}.

(** A recovered container is as the daemon describes it. *)
Lemma recover_Ok (actual : InspectResponse) (worker id : string) (rc : RecoveredContainer) :
  recover actual worker id = Ok rc ->
  fp_id (rc_fingerprint rc) = id /\ aa_worker_id (fp_authority (rc_fingerprint rc)) = worker
  /\ container_status actual = Ok (rc_status rc) /\ fingerprinted actual (rc_fingerprint rc).
Proof.
  unfold recover. intros Hr.
  destruct (ci_config (ir_inspect actual)) as [c|] eqn:Hc; [|done]. cbn [mbind option_bind] in Hr.
  destruct (cc_labels c) as [labels|] eqn:Hl; [|done]. cbn [ok_or rbind] in Hr.
  assert (Hlab : forall k v, labels !! k = Some v -> labelled actual k v) by (intros k v Hv; by exists c, labels).
  guards. bools. subst. cbn. split_and!; try done; [naive_solver|].
  split; cbn; [split; cbn|..]; destruct_and?; subst; auto.
Qed.

Lemma build_identity (identity : AttemptAuthority) (x : ExecutionSpec) (w : PreparedWorkspace)
  (b : ContainerCreateBody) :
  build identity x w = Ok b ->
  cc_labels (cb_config b) = Some (identity_labels identity x w)
  /\ 0 < aa_generation identity <= I64_MAX
  /\ existsb (fun s => negb (canonical_uuid s)) [aa_worker_id identity; aa_session_id identity;
       aa_job_id identity; aa_attempt_id identity] = false.
Proof.
  intros Hb. split; [by apply build_Ok in Hb as (_ & _ & ? & _)|]. unfold build in Hb. guards. bools.
  split; [lia|naive_solver].
Qed.

(** C33: a worker recognises its own containers after a restart. A container that
    was created with the body built for an attempt, and that the daemon reports
    under the attempt's name with those labels, is recovered as exactly that
    attempt: its five-part authority with the generation read back from its
    decimal label, its specification and its scratch policy. *)
Theorem built_container_is_recovered (identity : AttemptAuthority) (x : ExecutionSpec)
  (w : PreparedWorkspace) (body : ContainerCreateBody) (actual : InspectResponse) (c : ContainerConfig)
  (id digest : string) (status : ContainerStatus) :
  build identity x w = Ok body ->
  ci_config (ir_inspect actual) = Some c -> cc_labels c = cc_labels (cb_config body) ->
  ir_id actual = Some id -> lower_hash id = true ->
  ir_name actual = Some ("/dispatch-" +:+ aa_attempt_id identity) ->
  ci_image (ir_inspect actual) = Some ("sha256:" +:+ digest) -> lower_hash digest = true ->
  lower_hash (es_sha256 x) = true ->
  container_status actual = Ok status ->
  recover actual (aa_worker_id identity) id =
    Ok {| rc_fingerprint :=
            {| fp_id := id; fp_authority := identity; fp_image_id := "sha256:" +:+ digest;
               fp_spec_sha256 := es_sha256 x; fp_scratch_policy := scratch_policy w |};
          rc_status := status |}.
Proof.
  intros Hb Hc Hl Hid Hhid Hname Himage Hdigest Hspec Hst.
  pose proof (build_identity identity x w body Hb) as (Hlabels & Hgen & Huuids).
  unfold recover. rewrite Hc. cbn [mbind option_bind ok_or rbind]. rewrite Hl, Hlabels. cbn [ok_or rbind].
  set (labels := identity_labels identity x w).
  assert (Hg : parse_u64 (pretty (aa_generation identity)) = Some (aa_generation identity)).
  { apply parse_pretty. unfold I64_MAX, U64_MAX in *. lia. }
  assert (Hpolicy : scratch_policy w ∈ ["soft-development"; "ext4-project-quota-v1"]%string)
    by (unfold scratch_policy; case_match; set_solver).
  assert (Hlook : labels !! "dev.dispatch.generation"%string = Some (pretty (aa_generation identity))
    /\ labels !! "dev.dispatch.worker"%string = Some (aa_worker_id identity)
    /\ labels !! "dev.dispatch.session"%string = Some (aa_session_id identity)
    /\ labels !! "dev.dispatch.job"%string = Some (aa_job_id identity)
    /\ labels !! "dev.dispatch.attempt"%string = Some (aa_attempt_id identity)
    /\ labels !! "dev.dispatch.spec-sha256"%string = Some (es_sha256 x)
    /\ labels !! "dev.dispatch.scratch-policy"%string = Some (scratch_policy w)) by (by repeat split).
  destruct Hlook as (-> & -> & -> & -> & -> & -> & ->). cbn [ok_or rbind]. rewrite Hg, Himage. cbn [ok_or rbind].
  rewrite Hid, Hhid, Hname, Hspec, Hst, (proj2 (strip_prefix_Some "sha256:" _ digest) eq_refl), Hdigest, Huuids.
  rewrite !bool_decide_true by done. rewrite (proj2 (N.eqb_neq _ 0)), (proj2 (N.ltb_ge _ _)) by lia.
  cbn. by destruct identity.
Qed.

#[local] Definition recovered_digest : string := "0123456789abcdef0123456789abcdef0123456789abcdef0123456789abcdef".

#[local] Definition recovered_response : InspectResponse :=
  {| ir_id := Some recovered_digest;
     ir_name := Some ("/dispatch-" +:+ aa_attempt_id attempt_identity);
     ir_inspect := {| ci_image := Some ("sha256:" +:+ recovered_digest);
                      ci_config := Some (cb_config built_fixture); ci_host_config := None |};
     ir_state := Some {| ds_status := Some EXITED; ds_running := Some false; ds_exit_code := Some 0%Z;
                         ds_oom_killed := Some false |} |}.

Lemma built_container_is_recovered_witness :
  exists rc, recover recovered_response (aa_worker_id attempt_identity) recovered_digest = Ok rc
    /\ fp_authority (rc_fingerprint rc) = attempt_identity.
Proof.
  eexists. split.
  - apply (built_container_is_recovered attempt_identity spec_fixture workspace_fixture built_fixture
      recovered_response (cb_config built_fixture) recovered_digest recovered_digest
      {| running := false; exit_code := Some 0%Z; oom_killed := false; container_state := ContainerState.Exited |}).
    + vm_compute. reflexivity.
    + reflexivity.
    + reflexivity.
    + reflexivity.
    + vm_compute. reflexivity.
    + reflexivity.
    + reflexivity.
    + vm_compute. reflexivity.
    + vm_compute. reflexivity.
    + vm_compute. reflexivity.
  - reflexivity.
Defined.

(** ** The removals *)

(** The daemon said that there is no such container. *)
Definition missing (id : string) (cs : list (some_call docker)) : Prop :=
  told cs (InspectContainer id) (Err (RuntimeError.Daemon 404)).

Section Removal.
Context (en : env unit docker) (id : string) (force : bool).
Context (why gone : list (some_call docker) -> Prop).
Context (missing_is_gone : forall cs, missing id cs -> gone cs).

Abbreviation after := (at_most_once removal_of (id, force) why).

(** What a removal ends with: success means [gone]. *)
Definition removed (m : result RuntimeError.t unit) (_ : unit) (cs : list (some_call docker)) : Prop :=
  after cs /\ (m = Ok tt -> gone cs).

Lemma spec_refuse (e : RuntimeError.t) (P : unit -> list (some_call docker) -> Prop) :
  (forall s cs, P s cs -> after cs) -> spec en (fun _ => after) P (tret (Err e)) removed.
Proof. intros HP. apply spec_ret. intros s cs Hcs. split; [by eapply HP|done]. Qed.

Lemma spec_confirm : spec en (fun _ => after) (fun _ => after) (confirm_absent id) removed.
Proof.
  unfold confirm_absent. eapply spec_bind; [apply (spec_look en after); auto with dispatch|].
  intros [actual|e]; apply spec_ret; intros s cs [Hcs Ha]; [by split|]. split; [done|].
  destruct (not_404 e) as [->|He]; [intros _; by apply missing_is_gone|by rewrite He].
Qed.

(** The first look: an absent container is removed already. *)
Lemma spec_first_look (k : InspectResponse -> D (result RuntimeError.t unit)) :
  (forall actual, spec en (fun _ => after)
     (fun _ cs => never removal_of cs /\ told cs (InspectContainer id) (Ok actual)) (k actual) removed) ->
  spec en (fun _ => after) (fun _ => never removal_of)
    (let& found := bounded_call RPC_TIMEOUT (InspectContainer id) in
     match found with
     | Err (RuntimeError.Daemon 404) => tret (Ok tt)
     | Err e => tret (Err e)
     | Ok actual => k actual
     end) removed.
Proof.
  intros Hk. eapply spec_bind; [apply (spec_look en (never removal_of)); [auto with dispatch|by left]|].
  intros [actual|e]; [apply Hk|].
  destruct (not_404 e) as [->|He]; [|rewrite He; apply spec_refuse; by intros s cs []; left].
  apply spec_ret. intros s cs [Hcs Ha]. split; [by left|]. intros _. by apply missing_is_gone.
Qed.
End Removal.

Section Removals.
Context (en : env unit docker).

(** Why a previous session's container is removed. *)
Definition superseded (fp : Fingerprint) (current : string) (cs : list (some_call docker)) : Prop :=
  aa_session_id (fp_authority fp) <> current
  /\ exists actual, told cs (InspectContainer (fp_id fp)) (Ok actual) /\ fingerprinted actual fp.

Definition forced_away (id : string) (cs : list (some_call docker)) : Prop :=
  missing id cs \/ told cs (RemoveContainer id true false) (Err (RuntimeError.Daemon 404)).

Lemma remove_previous_spec (container : RecoveredContainer) (current : string) :
  let fp := rc_fingerprint container in
  spec en (fun _ => at_most_once removal_of (fp_id fp, true) (superseded fp current)) (fun _ => never removal_of)
    (remove_previous container current) (removed (fp_id fp) true (superseded fp current) (forced_away (fp_id fp))).
Proof.
  intros fp. unfold remove_previous. fold fp.
  destruct (_ || _) eqn:Hguard; [apply spec_refuse; by left|]. bools.
  apply spec_first_look; [by left|]. intros actual.
  apply spec_pure; [intros e s cs _ [Hn _]; by split; [left|]|]. intros rc Hrc.
  case_bool_decide as Hfp; cbn [negb]; [|apply spec_refuse; by intros s cs []; left].
  eapply spec_bind; [apply (spec_removal en _ (superseded fp current))|].
  { intros cs [Hn Ht]. split; [done|]. split; [tauto|]. exists actual. split; [done|].
    destruct (recover_Ok _ _ _ _ Hrc) as (_ & _ & _ & Hd). by rewrite Hfp in Hd. }
  intros [[]|e].
  - eapply spec_conseq; [apply (spec_confirm en (fp_id fp) true (superseded fp current) (forced_away (fp_id fp))); by left|by intros s cs []|done].
  - destruct (not_404 e) as [->|He]; [|rewrite He; apply spec_refuse; by intros s cs []].
    apply spec_ret. intros s cs [Hr Ht]. split; [done|]. intros _. by right.
Qed.

(** Why a container of the current session is removed. *)
Definition over (authority : AttemptAuthority) (id sha : string) (cs : list (some_call docker)) : Prop :=
  exists actual state, told cs (InspectContainer id) (Ok actual)
    /\ describes actual id authority /\ labelled actual "dev.dispatch.spec-sha256" sha
    /\ ir_state actual = Some state /\ ds_running state = Some false
    /\ (ds_status state = Some CREATED \/ ds_status state = Some EXITED \/ ds_status state = Some DEAD).

Lemma recovered_over (actual : InspectResponse) (authority : AttemptAuthority) (id sha : string)
  (rc : RecoveredContainer) (cs : list (some_call docker)) :
  told cs (InspectContainer id) (Ok actual) -> recover actual (aa_worker_id authority) id = Ok rc ->
  fp_authority (rc_fingerprint rc) = authority -> fp_spec_sha256 (rc_fingerprint rc) = sha ->
  running (rc_status rc) = false -> removable_state (container_state (rc_status rc)) = true ->
  over authority id sha cs.
Proof.
  intros Ht Hrc Ha Hsha Hrun Hrest. destruct (recover_Ok _ _ _ _ Hrc) as (Hid & _ & Hst & [Hd _ Hs _]).
  destruct (container_status_Ok _ _ Hst) as (state & raw & Hstate & Hraw & Hof & Hr & _).
  exists actual, state. rewrite Hid, Ha in Hd. rewrite Hsha in Hs. rewrite Hrun in Hr. split_and!; try done.
  rewrite Hraw. destruct raw; try discriminate Hof; injection Hof as Hof; rewrite <- Hof in Hrest; auto; done.
Qed.

Lemma remove_stopped_spec (authority : AttemptAuthority) (id sha : string) :
  spec en (fun _ => at_most_once removal_of (id, false) (over authority id sha)) (fun _ => never removal_of)
    (remove_stopped_current authority id sha) (removed id false (over authority id sha) (missing id)).
Proof.
  unfold remove_stopped_current.
  destruct (_ || _) eqn:Hguard; [apply spec_refuse; by left|]. apply spec_first_look; [done|]. intros actual.
  apply spec_pure; [intros e s cs _ [Hn _]; by split; [left|]|]. intros rc Hrc.
  destruct (_ || negb (removable_state _)) eqn:Hguard'; [apply spec_refuse; by intros s cs []; left|].
  rewrite !orb_false_iff, !negb_false_iff, !bool_decide_eq_true in Hguard'.
  eapply spec_bind; [apply (spec_removal en _ (over authority id sha))|].
  { intros cs [Hn Ht]. split; [done|]. destruct Hguard' as [[[Ha Hsha] Hrun] Hrest]. by eapply recovered_over. }
  assert (Hconf : forall m, spec en (fun _ => at_most_once removal_of (id, false) (over authority id sha))
    (fun _ cs => at_most_once removal_of (id, false) (over authority id sha) cs
       /\ told cs (RemoveContainer id false true) m) (confirm_absent id)
    (removed id false (over authority id sha) (missing id)))
    by (intros m; eapply spec_conseq; [by apply (spec_confirm en id false (over authority id sha) (missing id))|by intros s cs []|done]).
  intros [[]|e]; [apply Hconf|]. destruct (resolvable _); [apply Hconf|apply spec_refuse; by intros s cs []].
Qed.
End Removals.

(** C32: recovery never touches work that may still be ours to run.  The log of
    [remove_previous] forcibly removes at most one container, the given one, and
    only when the daemon had described it before with the image and the labels of the
    fingerprint, whose session is another one; that of [remove_stopped_current] removes at most one
    container, never by force, and only when the daemon had described it under the
    name and labels of that very attempt and specification, with [Running] false and
    its status created, exited or dead.  Either returns success only
    when the daemon said that the container does not exist. *)
Theorem cleanup_spares_live_work (en : env unit docker) (sa : SupervisedAuthority) (clock left : nat) :
  (forall (container : RecoveredContainer) (current : string),
   let fp := rc_fingerprint container in
   let '(m, r) := remove_previous container current en (fresh_log sa clock left) in
   (removals (ex_calls r) = []
    \/ exists t1 d v t2, ex_calls r = t1 ++ Call (Within d (RemoveContainer (fp_id fp) true v)) :: t2
         /\ removals t1 = [] /\ removals t2 = []
         /\ aa_session_id (fp_authority fp) <> current
         /\ exists actual, told t1 (InspectContainer (fp_id fp)) (Ok actual) /\ fingerprinted actual fp)
   /\ (m = Some (Ok tt) -> forced_away (fp_id fp) (ex_calls r)))
  /\ (forall (authority : AttemptAuthority) (id sha : string),
   let '(m, r) := remove_stopped_current authority id sha en (fresh_log sa clock left) in
   (removals (ex_calls r) = []
    \/ exists t1 d v t2, ex_calls r = t1 ++ Call (Within d (RemoveContainer id false v)) :: t2
         /\ removals t1 = [] /\ removals t2 = []
         /\ exists actual state, told t1 (InspectContainer id) (Ok actual)
              /\ describes actual id authority /\ labelled actual "dev.dispatch.spec-sha256" sha
              /\ ir_state actual = Some state /\ ds_running state = Some false
              /\ (ds_status state = Some CREATED \/ ds_status state = Some EXITED \/ ds_status state = Some DEAD))
   /\ (m = Some (Ok tt) -> missing id (ex_calls r))).
Proof.
  assert (Hend : forall (id : string) (force : bool) (why gone : list (some_call docker) -> Prop)
    (m : option (result RuntimeError.t unit)) (r : exec unit docker),
    match m with
    | Some m => removed id force why gone m (ex_state r) (ex_calls r)
    | None => at_most_once removal_of (id, force) why (ex_calls r)
    end -> at_most_once removal_of (id, force) why (ex_calls r) /\ (m = Some (Ok tt) -> gone (ex_calls r))).
  { intros id force why gone [m|] r; [|done]. intros [Hc Hm]. split; [done|]. by intros [= ->]; apply Hm. }
  split.
  - intros container current fp.
    pose proof (remove_previous_spec en container current (fresh_log sa clock left) eq_refl) as Hs.
    destruct (remove_previous container current en _) as [m r] eqn:E. apply Hend in Hs as [Hc Hm].
    split; [|exact Hm]. apply once_removal in Hc as [?|(t1 & d & v & t2 & Hrest)]; [by left|right]. by exists t1, d, v, t2.
  - intros authority id sha.
    pose proof (remove_stopped_spec en authority id sha (fresh_log sa clock left) eq_refl) as Hs.
    destruct (remove_stopped_current authority id sha en _) as [m r] eqn:E. apply Hend in Hs as [Hc Hm].
    split; [|exact Hm]. apply once_removal in Hc as [?|(t1 & d & v & t2 & Hrest)]; [by left|right]. by exists t1, d, v, t2.
Qed.
