(* ===== verification/Transfer.v ===== *)
(** Single-part uploads to object storage ([rust/worker/src/transfer.rs]).

    The URL parser and the header types are those of [reqwest], a parameter
    here.  [put_io] is what the machine and the storage answer during one
    upload: the wall clock, the file, how often the transport polled the body,
    and the response. *)

From stdpp Require Import pretty.
From S2P Require Import Prelude Strings Protocol Lease Control Os Uploads Execution Net DatasetInputs.
Open Scope N_scope.

Module TransferError.
Inductive t : Type :=
| Configuration | Grant | Expired | Integrity | Transport | Deadline | Status (code : N) | Version.

#[global] Instance eq_dec : EqDecision t.
Proof. solve_decision. Defined.
End TransferError.

(** A parsed URL, with [host().to_string()] and [port()]. *)
Record StorageUrl := {
  su_url : Url;
  su_host : option string;
  su_port : option N;
}.

(** [Url::parse], [HeaderName::from_bytes] (which lower-cases) and
    [HeaderValue::from_str] (which keeps the bytes it accepts). *)
Class HttpLibraries := {
  http_url : string -> option StorageUrl;
  http_header_name : string -> option string;
  http_header_value : string -> bool;
}.

Record TransferClient := { tc_allow_loopback_http : bool }.

(** [TransferClient::new]; [built] says whether the HTTP client could be built. *)
Definition transfer_new (built allow : bool) : result TransferError.t TransferClient :=
  if built then Ok {| tc_allow_loopback_http := allow |} else Err TransferError.Configuration.

(** * The destination of an upload *)

Section Destination.
Context {http : HttpLibraries}.

Definition bad_destination (c : TransferClient) (g : CreateUploadResponse) (url : Url) : bool :=
  negb (is_empty_str (url_username url))
  || bool_decide (is_Some (url_password url))
  || bool_decide (is_Some (url_fragment url))
  || contains "\" (cr_upload_url g)
  || existsb is_ascii_control (str_bytes (cr_upload_url g))
  || negb (bool_decide (url_scheme url = "https"%string)
           || tc_allow_loopback_http c && bool_decide (url_scheme url = "http"%string) && loopback url)
  || negb (ends_with (String "/" (cr_object_key g)) (url_path url)).

(** [map_or_else(|| host.clone(), |port| format!("{host}:{port}"))]. *)
Definition authority_of (host : string) (port : option N) : string :=
  match port with
  | None => host
  | Some port => host +:+ ":" +:+ pretty port
  end.

(** One iteration over the required headers. *)
Definition check_header (d : CreateUploadRequest) (url : StorageUrl) (headers : gmap string string)
  (entry : string * string) : result TransferError.t (gmap string string) :=
  let '(raw, value) := entry in
  let? name := ok_or (http_header_name raw) TransferError.Grant in
  if negb (http_header_value value) then Err TransferError.Grant
  else if bool_decide (is_Some (headers !! name)) then Err TransferError.Grant
  else if bool_decide (name = "content-length"%string) then
    if negb (bool_decide (value = pretty (cu_size_bytes d))) then Err TransferError.Grant
    else Ok (<[name := value]> headers)
  else if bool_decide (name ∈ ["x-amz-checksum-sha256"; "x-amz-content-sha256"; "content-type"]%string)
  then Ok (<[name := value]> headers)
  else if bool_decide (name = "host"%string) then
    let? host := ok_or (su_host url) TransferError.Grant in
    if negb (bool_decide (value = authority_of host (su_port url))) then Err TransferError.Grant
    else Ok (<[name := value]> headers)
  else Err TransferError.Grant.

Definition destination (c : TransferClient) (d : CreateUploadRequest) (g : CreateUploadResponse)
  : result TransferError.t (StorageUrl * gmap string string) :=
  let? url := ok_or (http_url (cr_upload_url g)) TransferError.Grant in
  if bad_destination c g (su_url url) then Err TransferError.Grant
  else
    let? headers := rfold (check_header d url) ∅ (map_to_list (cr_required_headers g)) in
    let headers := delete "host"%string headers in
    if negb (http_header_value (pretty (cu_size_bytes d))) then Err TransferError.Configuration
    else Ok (url, <["content-length"%string := pretty (cu_size_bytes d)]> headers).
End Destination.

(** * The body *)

Record BodyState := {
  bs_remaining : N;
  bs_hashed : bytes;
  bs_expected : string;
  bs_verified : bool;
  bs_done : bool;
}.

(** What the file gives to one poll of the body: the bytes from its position
    on, and the result of the read past the declared end. *)
Record chunk_io := {
  ci_available : result ErrorKind bytes;
  ci_extra : result ErrorKind N;
}.

Definition read_exact (want : N) (available : result ErrorKind bytes) : result ErrorKind bytes :=
  let? b := available in
  if want <=? len b then Ok (take (N.to_nat want) b) else Err OtherKind.

Section Put.
Context {http : HttpLibraries} (sha256 : bytes -> bytes).

Definition next_chunk (io : chunk_io) (s : BodyState)
  : result ErrorKind (option (bytes * BodyState)) :=
  if bs_done s then Ok None
  else
    let? chunk := read_exact (N.min (bs_remaining s) 65536) (ci_available io) in
    let hashed := bs_hashed s ++ chunk in
    let remaining := bs_remaining s - len chunk in
    if remaining =? 0 then
      let? extra := ci_extra io in
      if negb (extra =? 0) || negb (bool_decide (hex (sha256 hashed) = bs_expected s))
      then Err OtherKind
      else Ok (Some (chunk, {| bs_remaining := remaining; bs_hashed := hashed;
                               bs_expected := bs_expected s; bs_verified := true;
                               bs_done := true |}))
    else Ok (Some (chunk, {| bs_remaining := remaining; bs_hashed := hashed;
                             bs_expected := bs_expected s; bs_verified := bs_verified s;
                             bs_done := bs_done s |})).

(** [try_unfold] as far as the transport polled it: the chunks it was given. *)
Fixpoint polled (ios : list chunk_io) (s : BodyState) : list bytes * BodyState :=
  match ios with
  | [] => ([], s)
  | io :: ios' =>
      match next_chunk io s with
      | Ok (Some (chunk, s')) => let '(chunks, s'') := polled ios' s' in (chunk :: chunks, s'')
      | _ => ([], s)
      end
  end.

Definition body_state (d : CreateUploadRequest) : BodyState :=
  {| bs_remaining := cu_size_bytes d; bs_hashed := []; bs_expected := cu_sha256 d;
     bs_verified := false; bs_done := false |}.

(** * One upload *)

(** The response's status and its [x-amz-version-id] headers ([None] where
    [to_str] fails). *)
Record HttpResponse := {
  hr_status : N;
  hr_versions : list (option string);
}.

Definition is_success (status : N) : bool := in_range 200 299 status.

Inductive SendError : Type := SendTimeout | SendOther.

Record put_io := {
  pi_wall : option N;
  pi_elapsed : bool;
  pi_permit : bool;
  pi_rewind : io;
  pi_metadata : result ErrorKind Metadata;
  pi_chunks : list chunk_io;
  pi_empty : chunk_io;
  pi_response : result SendError HttpResponse;
}.

(** [i64 as u128]. *)
Definition u128_of_i64 (z : Z) : N := Z.to_N (Z.modulo z (2 ^ 128)).

Definition put_budget (g : CreateUploadResponse) (wall : option N) : result TransferError.t Duration :=
  let? now := ok_or wall TransferError.Expired in
  let? remaining := ok_or (checked_sub (u128_of_i64 (cr_expires_unix_ms g)) now) TransferError.Expired in
  if 0 <? remaining then Ok (from_millis (N.min remaining 30000)) else Err TransferError.Expired.

Definition single_version (versions : list (option string)) : option string :=
  match versions with
  | [Some v] => if valid_version v then Some v else None
  | _ => None
  end.

(** The future under the timeout, and the body the transport was given. *)
Definition put_inner (d : CreateUploadRequest) (g : CreateUploadResponse) (i : put_io)
  : result TransferError.t ObjectVersion * list bytes :=
  if negb (pi_permit i) then (Err TransferError.Configuration, [])
  else if negb (is_ok (pi_rewind i)) then (Err TransferError.Integrity, [])
  else
    match pi_metadata i with
    | Err _ => (Err TransferError.Integrity, [])
    | Ok metadata =>
        if negb (is_file metadata) || negb (st_size metadata =? cu_size_bytes d)
        then (Err TransferError.Integrity, [])
        else
          let body :=
            if cu_size_bytes d =? 0 then
              match next_chunk (pi_empty i) (body_state d) with
              | Err _ => Err TransferError.Integrity
              | Ok (Some (_, s)) => Ok ([], s)
              | Ok None => Ok ([], body_state d)
              end
            else Ok (polled (pi_chunks i) (body_state d)) in
          match body with
          | Err e => (Err e, [])
          | Ok (chunks, s) =>
              (let? response := map_err (fun e => match e with
                                                  | SendTimeout => TransferError.Deadline
                                                  | SendOther => TransferError.Transport
                                                  end) (pi_response i) in
               if negb (is_success (hr_status response))
               then Err (TransferError.Status (hr_status response))
               else if negb (bs_verified s) then Err TransferError.Integrity
               else
                 let? version := ok_or (single_version (hr_versions response)) TransferError.Version in
                 Ok {| ov_key := cr_object_key g; ov_version_id := version;
                       ov_size_bytes := cu_size_bytes d; ov_sha256 := cu_sha256 d |}, chunks)
          end
    end.

Definition put (c : TransferClient) (d : CreateUploadRequest) (g : CreateUploadResponse) (i : put_io)
  : result TransferError.t ObjectVersion * list bytes :=
  match (let? _ := map_err (fun _ => TransferError.Configuration) (validate_create d) in
         let? _ := map_err (fun _ => TransferError.Grant) (validate_grant d g) in
         let? '(url, headers) := destination c d g in
         let? budget := put_budget g (pi_wall i) in
         Ok (url, headers, budget)) with
  | Err e => (Err e, [])
  | Ok _ =>
      let '(res, chunks) := put_inner d g i in
      (if pi_elapsed i then Err TransferError.Deadline else res, chunks)
  end.
End Put.

(** * Lemmas *)

(** The headers an upload may carry. *)
Definition storage_headers : list string :=
  ["content-length"; "x-amz-checksum-sha256"; "x-amz-content-sha256"; "content-type"; "host"]%string.

Section Headers.
Context {http : HttpLibraries}.

Lemma check_header_Ok (d : CreateUploadRequest) (url : StorageUrl) (headers headers' : gmap string string)
  (entry : string * string) :
  check_header d url headers entry = Ok headers' ->
  exists name, name ∈ storage_headers /\ headers' = <[name := snd entry]> headers.
Proof.
  destruct entry as [raw value]. unfold check_header. intros H. guards.
  match goal with H : http_header_name _ = Some ?n |- _ => exists n end.
  unfold storage_headers.
  case_bool_decide as E1; [guards; subst; set_solver|].
  case_bool_decide as E2; [guards; subst; set_solver|].
  guards. subst. bools. set_solver.
Qed.

Lemma check_headers_Ok (d : CreateUploadRequest) (url : StorageUrl) (l : list (string * string))
  (headers headers' : gmap string string) :
  (forall k, is_Some (headers !! k) -> k ∈ storage_headers) ->
  rfold (check_header d url) headers l = Ok headers' ->
  forall k, is_Some (headers' !! k) -> k ∈ storage_headers.
Proof.
  revert headers. induction l as [|e l IH]; intros headers Hh H; simpl in H; [by simplify_eq|].
  apply rbind_Ok_inv in H as (h1 & H1 & H). apply check_header_Ok in H1 as (name & Hn & ->).
  eapply IH; [|done]. intros k Hk. apply lookup_insert_is_Some in Hk as [<-|[_ Hk]]; auto.
Qed.

(** Where an accepted upload goes: to a URL of the granted key, over TLS or to
    this machine, with no header beyond those of the request. *)
Lemma destination_Ok (c : TransferClient) (d : CreateUploadRequest) (g : CreateUploadResponse)
  (url : StorageUrl) (headers : gmap string string) :
  destination c d g = Ok (url, headers) ->
  ends_with (String "/" (cr_object_key g)) (url_path (su_url url)) = true
  /\ (url_scheme (su_url url) = "https"%string
      \/ tc_allow_loopback_http c = true /\ loopback (su_url url) = true)
  /\ headers !! "content-length"%string = Some (pretty (cu_size_bytes d))
  /\ headers !! "host"%string = None
  /\ forall k, is_Some (headers !! k) -> k ∈ storage_headers.
Proof.
  unfold destination. intros H. guards. apply pair_equal_spec in H as [<- <-].
  match goal with H : bad_destination _ _ _ = false |- _ => unfold bad_destination in H; bools_in H end.
  match goal with H : rfold _ _ _ = Ok _ |- _ => rename H into Hh end.
  destruct_and!. split_and!; try naive_solver.
  - by rewrite lookup_insert_eq.
  - rewrite lookup_insert_ne by done. by rewrite lookup_delete_eq.
  - intros k Hk. apply lookup_insert_is_Some in Hk as [<-|[_ Hk]]; [unfold storage_headers; set_solver|].
    apply lookup_delete_is_Some in Hk as [_ Hk]. revert k Hk.
    eapply check_headers_Ok; [|exact Hh]. intros k [v Hv]. by rewrite lookup_empty in Hv.
Qed.
End Headers.

Section Body.
Context (sha256 : bytes -> bytes).

(** The state of a body of [size] bytes: what was hashed and what remains, and
    verified only at the end and with the expected digest. *)
Record body_wf (size : N) (s : BodyState) : Prop := {
  bw_size : len (bs_hashed s) + bs_remaining s = size;
  bw_verified : bs_verified s = true ->
    bs_remaining s = 0 /\ hex (sha256 (bs_hashed s)) = bs_expected s;
}.

Lemma read_exact_Ok (want : N) (a : result ErrorKind bytes) (b : bytes) :
  read_exact want a = Ok b -> len b = want.
Proof.
  unfold read_exact. intros H. guards. subst. bools. unfold len in *. rewrite length_take. lia.
Qed.

Lemma next_chunk_wf (size : N) (io : chunk_io) (s s' : BodyState) (chunk : bytes) :
  body_wf size s -> next_chunk sha256 io s = Ok (Some (chunk, s')) ->
  body_wf size s' /\ bs_hashed s' = bs_hashed s ++ chunk /\ bs_expected s' = bs_expected s.
Proof.
  intros [Hs Hv]. unfold next_chunk. intros H.
  destruct (bs_done s); [done|]. apply rbind_Ok_inv in H as (c & Hc & H). apply read_exact_Ok in Hc.
  assert (Hlen : len (bs_hashed s ++ c) + (bs_remaining s - len c) = size).
  { rewrite len_app. lia. }
  destruct (N.eqb_spec (bs_remaining s - len c) 0) as [E|E].
  - apply rbind_Ok_inv in H as (extra & _ & H). destruct (_ || _) eqn:Hg; [done|].
    apply Ok_inj in H. simplify_eq. bools_in Hg. split_and!; try done. split; [exact Hlen|].
    intros _. simpl. naive_solver.
  - apply Ok_inj in H. simplify_eq. split_and!; try done. split; [exact Hlen|]. simpl.
    intros Hb. destruct (Hv Hb). lia.
Qed.

Lemma polled_wf (size : N) (ios : list chunk_io) (s s' : BodyState) (chunks : list bytes) :
  body_wf size s -> polled sha256 ios s = (chunks, s') ->
  body_wf size s' /\ bs_hashed s' = bs_hashed s ++ concat chunks /\ bs_expected s' = bs_expected s.
Proof.
  revert s chunks. induction ios as [|io ios IH]; intros s chunks Hs H; simpl in H.
  { simplify_eq. by rewrite app_nil_r. }
  destruct (next_chunk sha256 io s) as [[[chunk s1]|]|e] eqn:Hn.
  2,3: simplify_eq; by rewrite app_nil_r.
  destruct (polled sha256 ios s1) as [cs s2] eqn:Hp. simplify_eq.
  destruct (next_chunk_wf _ _ _ _ _ Hs Hn) as (H1 & Hh & He).
  destruct (IH _ _ H1 Hp) as (H2 & Hh2 & He2). split_and!; [done| |congruence].
  cbn [concat]. by rewrite Hh2, Hh, (assoc_L (++)).
Qed.

Lemma body_state_wf (d : CreateUploadRequest) : body_wf (cu_size_bytes d) (body_state d).
Proof. by split. Qed.

(** A verified body is the declared one. *)
Lemma verified_body (d : CreateUploadRequest) (s : BodyState) (chunks : list bytes) :
  body_wf (cu_size_bytes d) s -> bs_hashed s = concat chunks -> bs_expected s = cu_sha256 d ->
  bs_verified s = true ->
  len (concat chunks) = cu_size_bytes d /\ hex (sha256 (concat chunks)) = cu_sha256 d.
Proof. intros [Hs Hv] <- <- Hb. destruct (Hv Hb). split; [lia|done]. Qed.

Lemma put_inner_Ok (d : CreateUploadRequest) (g : CreateUploadResponse) (i : put_io)
  (o : ObjectVersion) (chunks : list bytes) :
  put_inner sha256 d g i = (Ok o, chunks) ->
  ov_key o = cr_object_key g /\ ov_size_bytes o = cu_size_bytes d /\ ov_sha256 o = cu_sha256 d
  /\ valid_version (ov_version_id o) = true
  /\ len (concat chunks) = cu_size_bytes d /\ hex (sha256 (concat chunks)) = cu_sha256 d.
Proof.
  unfold put_inner. destruct (negb _); [done|]. destruct (negb _); [done|].
  destruct (pi_metadata i) as [m|]; [|done]. destruct (_ || _); [done|].
  set (body := if _ =? 0 then _ else _). destruct body as [[cs s]|e] eqn:Hb; [|done].
  intros H. apply pair_equal_spec in H as [H <-].
  assert (Hs : bs_verified s = true -> len (concat cs) = cu_size_bytes d
                 /\ hex (sha256 (concat cs)) = cu_sha256 d).
  { subst body. destruct (N.eqb_spec (cu_size_bytes d) 0) as [E|E].
    - destruct (next_chunk _ _ _) as [[[c s1]|]|] eqn:Hn; simplify_eq; [|done].
      destruct (next_chunk_wf _ _ _ _ _ (body_state_wf d) Hn) as (Hw & Hh & He).
      intros Hv. apply (verified_body d s []); [done| |done|done].
      destruct Hw as [Hsz _]. apply length_zero_iff_nil. unfold len in Hsz. lia.
    - apply Ok_inj in Hb. apply (polled_wf _ _ _ _ _ (body_state_wf d)) in Hb as (Hw & Hh & He).
      intros Hv. by apply (verified_body d s cs). }
  guards. bools. destruct Hs as [Hsize Hhash]; [done|].
  match goal with H : single_version _ = Some _ |- _ => rename H into Hver end.
  unfold single_version in Hver. simplify_eq.
  repeat case_match; simplify_eq; simpl; by split_and!.
Qed.
End Body.

(** * Properties *)

(** An upload that succeeds delivered exactly the declared content, to
    the granted object.  The bytes the transport was given have the declared
    length and digest, whatever happened to the file meanwhile; the object is
    the granted key with the version storage assigned; the request went to a URL
    of that key over TLS, or to this machine where that is allowed, and carried
    no header beyond the allowed ones. *)
Theorem uploaded_content_is_declared {http : HttpLibraries} (sha256 : bytes -> bytes)
  (c : TransferClient) (d : CreateUploadRequest) (g : CreateUploadResponse) (i : put_io)
  (o : ObjectVersion) (chunks : list bytes) :
  put sha256 c d g i = (Ok o, chunks) ->
  len (concat chunks) = cu_size_bytes d /\ hex (sha256 (concat chunks)) = cu_sha256 d
  /\ ov_key o = cr_object_key g /\ ov_size_bytes o = cu_size_bytes d /\ ov_sha256 o = cu_sha256 d
  /\ valid_version (ov_version_id o) = true
  /\ exists url headers, destination c d g = Ok (url, headers)
     /\ ends_with (String "/" (cr_object_key g)) (url_path (su_url url)) = true
     /\ (url_scheme (su_url url) = "https"%string
         \/ tc_allow_loopback_http c = true /\ loopback (su_url url) = true)
     /\ headers !! "content-length"%string = Some (pretty (cu_size_bytes d))
     /\ forall k, is_Some (headers !! k) -> k ∈ storage_headers.
Proof.
  unfold put. destruct (let? _ := _ in _) as [[[url headers] budget]|e] eqn:Hg; [|done].
  destruct (put_inner sha256 d g i) as [res cs] eqn:Hi. intros H.
  destruct (pi_elapsed i); [done|]. simplify_eq.
  destruct (put_inner_Ok _ _ _ _ _ _ Hi) as (? & ? & ? & ? & ? & ?). split_and!; try done.
  apply rbind_Ok_inv in Hg as (? & _ & Hg). apply rbind_Ok_inv in Hg as (? & _ & Hg).
  apply rbind_Ok_inv in Hg as ([url' headers'] & Hd & Hg).
  apply rbind_Ok_inv in Hg as (? & _ & Hg). simplify_eq.
  destruct (destination_Ok _ _ _ _ _ Hd) as (? & ? & ? & _ & ?). exists url, headers. auto.
Qed.

(** ** Witness: five bytes in one chunk *)

Definition key_url (key : string) : StorageUrl :=
  {| su_url := {| url_scheme := "https"; url_username := EmptyString; url_password := None;
                  url_host_str := Some "storage.example"%string; url_path := String "/" key;
                  url_query_pairs := []; url_fragment := None |};
     su_host := Some "storage.example"%string; su_port := Some 9000 |}.

Definition storage_http : HttpLibraries :=
  {| http_url := fun _ => Some (key_url scoped_key_fixture); http_header_name := Some;
     http_header_value := fun _ => true |}.

Definition upload_declaration : CreateUploadRequest :=
  {| cu_authority := Some authority_fixture;
     cu_request_id := "00000000-0000-0000-0000-000000000008"; cu_name := "model"; cu_kind := 1;
     cu_size_bytes := 5; cu_sha256 := hex (flat_digest (str_bytes "hello")); cu_part_count := 1;
     cu_part_size_bytes := 0 |}.

Definition upload_grant : CreateUploadResponse :=
  {| cr_upload_id := "00000000-0000-0000-0000-000000000006"; cr_object_key := scoped_key_fixture;
     cr_upload_url := "https://storage.example:9000/";
     cr_required_headers := {["host"%string := "storage.example:9000"%string]};
     cr_expires_unix_ms := 60000; cr_parts := []; cr_part_size_bytes := 0; cr_part_count := 0 |}.

Definition upload_io : put_io :=
  let chunk := {| ci_available := Ok (str_bytes "hello"); ci_extra := Ok 0 |} in
  {| pi_wall := Some 1000; pi_elapsed := false; pi_permit := true; pi_rewind := Ok tt;
     pi_metadata := Ok {| is_file := true; is_dir := false; uid := 0; mode := 384; nlink := 1;
                          st_size := 5 |};
     pi_chunks := [chunk]; pi_empty := chunk;
     pi_response := Ok {| hr_status := 200; hr_versions := [Some "v1"%string] |} |}.

Definition uploaded : result TransferError.t ObjectVersion * list bytes :=
  @put storage_http flat_digest {| tc_allow_loopback_http := false |} upload_declaration upload_grant
    upload_io.

Lemma uploaded_content_is_declared_witness : exists o chunks,
  uploaded = (Ok o, chunks) /\ ov_version_id o = "v1"%string
  /\ len (concat chunks) = cu_size_bytes upload_declaration.
Proof.
  exists {| ov_key := scoped_key_fixture; ov_version_id := "v1"; ov_size_bytes := 5;
            ov_sha256 := cu_sha256 upload_declaration |}, [str_bytes "hello"].
  split; [vm_compute; reflexivity|]. split; [reflexivity|].
  apply (@uploaded_content_is_declared storage_http flat_digest {| tc_allow_loopback_http := false |}
    upload_declaration upload_grant upload_io
    {| ov_key := scoped_key_fixture; ov_version_id := "v1"; ov_size_bytes := 5;
       ov_sha256 := cu_sha256 upload_declaration |} [str_bytes "hello"]).
  vm_compute. reflexivity.
Defined.
