(* ===== verification/Effects.v ===== *)
(** What the worker's tasks share and what they call: the journal and the log
    assembler, the control plane, object storage, the container runtime, the
    spool directory and the clock.

    [effect] is every call a task makes; its type is what comes back.  A method
    of [ControlClient] checks the request before it sends anything, so the call
    is issued only for a valid request. *)

From S2P Require Import Net DatasetInputs Work DatasetStage CacheStore Quota Docker Recovery.
From S2P Require Import Prelude Protocol Lease Control Renew Supervisor Os LogSpool LogCapture LogAssembler.
From S2P Require Import Execution Uploads Phase LogRegistration Completion RecordStore JournalRecord.
From S2P Require Import Journal JournalFiles Codec JournalEvidence JournalFacts Delivery.
From S2P Require Import RuntimeConfig Outputs LogLive Async Transfer.
Open Scope N_scope.

(** [H] is [Runtime::Handle].  A runtime's live capture and the publisher beside
    it are tasks of their own: [TakeCapture] is whether one was attached,
    [EarlyCapture] whether it ended while the attempt was supervised, [JoinCapture]
    its end ([Err] is a [JoinError]); [StopReceived] and [StopSignal] are the
    publisher's side of its stop channel.  [FreshId] is a draw of the random source,
    [CollectOutputs] the answers to the collection of outputs on a blocking thread
    (none is a [JoinError]).

    The calls from [AcquireWork] on are the agent's.  [SpawnPreparation] starts the
    preparation of a workspace on a blocking thread and [JoinPreparation] waits for
    it; [StageInput] is [CacheStore::prepare]; [ReadyNow], [ReadyChanged] and
    [SetReady] are the two ends of the readiness channel ([ReadyChanged] answers
    whether its sender is alive), [ActiveOwner], [SetActive] and [StopOwner] those
    of the channel that holds the current attempt's controller. *)
Inductive effect (H : Type) : Type -> Type :=
| CreateUpload (q : CreateUploadRequest) : effect H (rpc_reply CreateUploadResponse)
| FinalizeUpload (q : FinalizeUploadRequest) : effect H (rpc_reply FinalizeUploadResponse)
| RegisterLogSegment (q : RegisterLogSegmentRequest) : effect H (rpc_reply MutationResponse)
| ReportPhase (q : ReportPhaseRequest) : effect H (rpc_reply MutationResponse)
| CompleteAttempt (q : CompleteAttemptRequest) : effect H (rpc_reply CompleteAttemptResponse)
| PutObject (d : CreateUploadRequest) (g : CreateUploadResponse) : effect H put_io
| Sleep (d : Duration) : effect H unit
| RuntimeCreate (identity : AttemptAuthority) (x : ExecutionSpec) (w : PreparedWorkspace)
    (authority : AuthorityWindow) : effect H (result RuntimeError.t H)
| RuntimeStart (h : H) (authority : AuthorityWindow) : effect H (result RuntimeError.t unit)
| RuntimeInspect (h : H) : effect H (result RuntimeError.t ContainerStatus)
| RuntimeStop (h : H) (grace : N) : effect H (result RuntimeError.t unit)
| RuntimeKill (h : H) : effect H (result RuntimeError.t unit)
| RuntimeRemove (h : H) : effect H (result RuntimeError.t unit)
| RuntimeLogs (h : H) (limit : N) : effect H (result RuntimeError.t ContainerLogs)
| TakeCapture (h : H) : effect H (option (result LiveLogError unit))
| EarlyCapture : effect H (option (result unit (result LiveLogError LiveCapture)))
| JoinCapture : effect H (result unit (result LiveLogError LiveCapture))
| AbortCapture : effect H unit
| StopPublisher : effect H unit
| AbortPublisher : effect H unit
| JoinPublisher : effect H unit
| StopReceived : effect H bool
| StopSignal : effect H unit
| SpoolCreate : effect H (N * create_io)
| SpoolStore : effect H store_io
| SpoolRead : effect H (N * read_io)
| SpoolRemove : effect H (N * remove_io)
| WallClock : effect H (option N)
| MonoClock : effect H reading
| RequestRefresh (revision : N) : effect H unit
| FreshId : effect H (option bytes)
| CollectOutputs : effect H (option (collect_io * metrics_io))
| CloneFile : effect H (result ErrorKind unit)
| IngestAnswers : effect H ingest_env
| AcquireWork (q : AcquireWorkRequest) : effect H (rpc_reply (option AcquireOutcome))
| AcquireLocal : effect H local
| WallClocks : effect H (nat -> option N)
| SpawnPreparation (attempt_id : string) (scratch : N) : effect H unit
| JoinPreparation : effect H (option (result StorageError PreparedWorkspace))
| PrepareImage (x : ExecutionSpec) : effect H (result RuntimeError.t unit)
| StageInput (v : ValidatedInput) : effect H (result CacheStoreError CachePin)
| BindAnswers : effect H bind_io
| RemoveStopped (identity : AttemptAuthority) (container_id spec_sha256 : string)
    : effect H (result RuntimeError.t unit)
| RemoveWorkspace (path : string) : effect H (option (result StorageError unit))
| HttpBuilt : effect H bool
| OpenCache (root : string) (high low : N) : effect H (result CacheStoreError unit)
| ReadyNow : effect H bool
| ReadyChanged : effect H bool
| SetReady (ready : bool) : effect H unit
| SetActive (owner : option AttemptAuthority) : effect H unit
| ActiveOwner : effect H (option AttemptAuthority)
| StopOwner (identity : AttemptAuthority) (reason : StopReason) : effect H unit
| SpawnRenewal (identity : AttemptAuthority) : effect H unit
| JoinRenewal : effect H (option (result ClientError unit))
| Announce (event : string) : effect H unit
| Inventory (worker_id : string) : effect H (result RuntimeError.t (list RecoveredContainer))
| RemovePrevious (c : RecoveredContainer) (session : string) : effect H (result RuntimeError.t unit)
| StorageVerified : effect H (option bool)
| QuotaSupport : effect H (result RuntimeError.t unit)
| ReconcileStorage : effect H (option (result StorageError unit))
| DiskPressure (reservation : N) : effect H (option bool)
| HeartbeatCall (q : HeartbeatRequest) : effect H (rpc_reply HeartbeatResponse)
| RegisterCall (q : RegisterWorkerRequest) : effect H (rpc_reply RegisterWorkerResponse)
| ConnectControl : effect H (result ClientError unit)
| ConnectDocker (socket : string) : effect H (result RuntimeError.t unit)
| CheckCapacity (r : Resources) (architecture : string) : effect H (result RuntimeError.t unit)
| Timeout (d : Duration) {X : Type} (e : effect H X) : effect H (option X).

Arguments CreateUpload {H} q.
Arguments FinalizeUpload {H} q.
Arguments RegisterLogSegment {H} q.
Arguments ReportPhase {H} q.
Arguments CompleteAttempt {H} q.
Arguments PutObject {H} d g.
Arguments Sleep {H} d.
Arguments RuntimeCreate {H} identity x w authority.
Arguments RuntimeStart {H} h authority.
Arguments RuntimeInspect {H} h.
Arguments RuntimeStop {H} h grace.
Arguments RuntimeKill {H} h.
Arguments RuntimeRemove {H} h.
Arguments RuntimeLogs {H} h limit.
Arguments TakeCapture {H} h.
Arguments EarlyCapture {H}.
Arguments JoinCapture {H}.
Arguments AbortCapture {H}.
Arguments StopPublisher {H}.
Arguments AbortPublisher {H}.
Arguments JoinPublisher {H}.
Arguments StopReceived {H}.
Arguments StopSignal {H}.
Arguments SpoolCreate {H}.
Arguments SpoolStore {H}.
Arguments SpoolRead {H}.
Arguments SpoolRemove {H}.
Arguments WallClock {H}.
Arguments MonoClock {H}.
Arguments RequestRefresh {H} revision.
Arguments FreshId {H}.
Arguments CollectOutputs {H}.
Arguments CloneFile {H}.
Arguments IngestAnswers {H}.
Arguments AcquireWork {H} q.
Arguments AcquireLocal {H}.
Arguments WallClocks {H}.
Arguments SpawnPreparation {H} attempt_id scratch.
Arguments JoinPreparation {H}.
Arguments PrepareImage {H} x.
Arguments StageInput {H} v.
Arguments BindAnswers {H}.
Arguments RemoveStopped {H} identity container_id spec_sha256.
Arguments RemoveWorkspace {H} path.
Arguments HttpBuilt {H}.
Arguments OpenCache {H} root high low.
Arguments ReadyNow {H}.
Arguments ReadyChanged {H}.
Arguments SetReady {H} ready.
Arguments SetActive {H} owner.
Arguments ActiveOwner {H}.
Arguments StopOwner {H} identity reason.
Arguments SpawnRenewal {H} identity.
Arguments JoinRenewal {H}.
Arguments Announce {H} event.
Arguments Inventory {H} worker_id.
Arguments RemovePrevious {H} c session.
Arguments StorageVerified {H}.
Arguments QuotaSupport {H}.
Arguments ReconcileStorage {H}.
Arguments DiskPressure {H} reservation.
Arguments HeartbeatCall {H} q.
Arguments RegisterCall {H} q.
Arguments ConnectControl {H}.
Arguments ConnectDocker {H} socket.
Arguments CheckCapacity {H} r architecture.
Arguments Timeout {H} d {X} e.

(** The state tasks share: the journal behind [AsyncJournal] and the assembler
    behind [SharedAssembler]. *)
Record Worker (S : Type) := {
  wk_journal : Journal S;
  wk_assembler : LogAssembler;
}.
Arguments wk_journal {S} w.
Arguments wk_assembler {S} w.

Definition set_journal {S : Type} (j : Journal S) (w : Worker S) : Worker S :=
  {| wk_journal := j; wk_assembler := wk_assembler w |}.

Definition set_assembler {S : Type} (a : LogAssembler) (w : Worker S) : Worker S :=
  {| wk_journal := wk_journal w; wk_assembler := a |}.

Section Client.
Context {S H : Type} {ops : RecordStore S} {lib : Libraries} {http : HttpLibraries}.

Abbreviation T := (task (Worker S) (effect H)).

(** [AsyncJournal]: the operation runs on a blocking thread to its end. *)
Definition journal {A : Type} (m : st (Journal S) JournalError.t A) : T (result JournalError.t A) :=
  op (fun w => let (r, j) := m (wk_journal w) in (r, set_journal j w)).

(** An operation under the assembler's lock. *)
Definition assembler {A : Type} (m : st LogAssembler AssembleError A) : T (result AssembleError A) :=
  op (fun w => let (r, a) := m (wk_assembler w) in (r, set_assembler a w)).

Definition client_create_upload (q : CreateUploadRequest) : T (result ClientError CreateUploadResponse) :=
  let&? _ := tret (validate_create q) in
  let& reply := call (CreateUpload q) in
  tret (create_upload q reply).

Definition client_finalize_upload (q : FinalizeUploadRequest)
  : T (result ClientError FinalizeUploadResponse) :=
  let&? _ := tret (validate_finalization q) in
  let& reply := call (FinalizeUpload q) in
  tret (finalize_upload q reply).

Definition client_register_log (q : RegisterLogSegmentRequest) : T (result ClientError LogStatus) :=
  let&? _ := tret (LogRegistration.validate_request q) in
  let& reply := call (RegisterLogSegment q) in
  tret (register_log_segment q reply).

Definition client_phase (q : ReportPhaseRequest) : T (result ClientError PhaseStatus) :=
  let&? _ := tret (Phase.validate_request q) in
  let& reply := call (ReportPhase q) in
  tret (report_phase q reply).

Definition transfer_put (c : TransferClient) (d : CreateUploadRequest) (g : CreateUploadResponse)
  : T (result TransferError.t ObjectVersion) :=
  let& io := call (PutObject d g) in
  tret (fst (put lib_sha256 c d g io)).
End Client.

(** * Awaits *)

Section Awaits.
Context {S H : Type} {ops : RecordStore S} {lib : Libraries} {http : HttpLibraries}.

Abbreviation T := (task (Worker S) (effect H)).

Lemma within_journal {A : Type} (m : st (Journal S) JournalError.t A) : within 1 (journal m : T _).
Proof. apply within_op. Qed.

Lemma within_assembler {A : Type} (m : st LogAssembler AssembleError A) :
  within 1 (assembler m : T _).
Proof. apply within_op. Qed.

Lemma within_checked {X Y A B : Type} (m : result X A) (e : effect H Y) (k : Y -> result X B) :
  within 1 (let&? _ := tret m in let& reply := call e in tret (k reply) : T _).
Proof.
  apply (within_try 0 1); [apply within_ret|done|]. intros _.
  apply (within_then 1 0); [apply within_call|done|]. intros y. apply within_ret.
Qed.

Lemma within_put (c : TransferClient) (d : CreateUploadRequest) (g : CreateUploadResponse) :
  within 1 (transfer_put c d g : T _).
Proof. apply (within_then 1 0); [apply within_call|done|]. intros io. apply within_ret. Qed.

Lemma within_create_upload (q : CreateUploadRequest) : within 1 (client_create_upload q : T _).
Proof. apply within_checked. Qed.

Lemma within_finalize_upload (q : FinalizeUploadRequest) : within 1 (client_finalize_upload q : T _).
Proof. apply within_checked. Qed.

Lemma within_register_log (q : RegisterLogSegmentRequest) : within 1 (client_register_log q : T _).
Proof. apply within_checked. Qed.

Lemma within_phase (q : ReportPhaseRequest) : within 1 (client_phase q : T _).
Proof. apply within_checked. Qed.
End Awaits.

#[export] Hint Resolve within_journal within_assembler within_put within_create_upload
  within_finalize_upload within_register_log within_phase : dispatch.

(** One step of a bound on awaits: [n] for the first task, [m] for the rest. *)
Ltac awaits n m :=
  lazymatch goal with
  | |- within _ (tbind_ok _ _) => apply (within_try n m)
  | |- within _ (tbind _ _) => apply (within_then n m)
  end;
  [ try apply within_map; auto with dispatch | lia | intros ? ].

(** * Rules *)

Section Rules.
Context {S H : Type} {ops : RecordStore S} {laws : RecordStoreLaws S}.
Context {lib : Libraries} {lib_laws : LibraryLaws} {http : HttpLibraries}.
Context (attempt_names : forall id, rs_name (attempt_file id)).

Abbreviation log := (list (some_call (effect H))).
Abbreviation T := (task (Worker S) (effect H)).

(** Other tasks only use the journal through its operations: they keep every
    attempt's evidence. *)
Definition tame (en : env (Worker S) (effect H)) : Prop :=
  forall n w, sound (wk_journal w) -> keeps_evidence (wk_journal w) (wk_journal (en_others en n w)).

Context (en : env (Worker S) (effect H)).

Lemma spec_journal {A : Type} (I P : Worker S -> log -> Prop) (m : st (Journal S) JournalError.t A)
  (Q : result JournalError.t A -> Worker S -> log -> Prop) :
  (forall w cs, P w cs -> I w cs) ->
  (forall w cs r j, P w cs -> m (wk_journal w) = (r, j) -> I (set_journal j w) cs) ->
  (forall n w cs r j, P w cs -> m (wk_journal w) = (r, j) ->
     Q r (en_others en n (set_journal j w)) cs) ->
  spec en I P (journal m) Q.
Proof.
  intros HPI HI HQ. apply spec_op; [done|intros *; destruct (m _) as [r j] eqn:Hm..].
  - intros HP [= _ <-]. by eapply HI.
  - intros HP [= <- <-]. by eapply HQ.
Qed.

(** ** Invariants that evidence keeps

    [I] is an invariant of the shared state and the call log.  [holding F L]
    adds a fact [F] of the journal that evidence keeps, and a fact [L] of the
    log. *)
Definition lasting (F : Journal S -> Prop) : Prop :=
  forall j j', keeps_evidence j j' -> F j -> F j'.

Context (I : Worker S -> log -> Prop).
Context (I_sound : forall w cs, I w cs -> sound (wk_journal w)).
Context (I_keeps : forall w w' cs, keeps_evidence (wk_journal w) (wk_journal w') -> I w cs -> I w' cs).

Definition holding (F : Journal S -> Prop) (L : log -> Prop) (w : Worker S) (cs : log) : Prop :=
  I w cs /\ F (wk_journal w) /\ L cs.

Lemma holding_I (F : Journal S -> Prop) (L : log -> Prop) (w : Worker S) (cs : log) :
  holding F L w cs -> I w cs.
Proof. by intros [? _]. Qed.

Lemma holding_keeps (F : Journal S -> Prop) (L : log -> Prop) (w w' : Worker S) (cs : log) :
  lasting F -> keeps_evidence (wk_journal w) (wk_journal w') -> holding F L w cs -> holding F L w' cs.
Proof. intros HF Hk (HI & Hf & HL). split_and!; [by eapply I_keeps|by eapply HF|done]. Qed.

Context (en_tame : tame en).

(** A journal operation: what it establishes lasts while others act. *)
Lemma journal_rule {A : Type} (m : st (Journal S) JournalError.t A) (F : Journal S -> Prop)
  (L : log -> Prop) (G : result JournalError.t A -> Journal S -> Prop) :
  preserves (fun _ => True) m -> lasting F -> (forall r, lasting (G r)) ->
  (forall j r j', sound j -> F j -> m j = (r, j') -> G r j') ->
  spec en I (holding F L) (journal m) (fun r => holding (fun j => F j /\ G r j) L).
Proof.
  intros Hm HF HG Hr. apply spec_journal; [by intros w cs []|..].
  - intros w cs r j (HI & Hf & HL) Hj. eapply (I_keeps w); [|done]. apply (Hm _ _ _ (I_sound _ _ HI) Logic.I Hj).
  - intros n w cs r j (HI & Hf & HL) Hj.
    pose proof (Hm _ _ _ (I_sound _ _ HI) Logic.I Hj) as Hk.
    assert (Hk' : keeps_evidence j (wk_journal (en_others en n (set_journal j w))))
      by (apply (en_tame n (set_journal j w)), Hk).
    split_and!; [| | |done].
    + eapply (I_keeps (set_journal j w)); [done|]. by eapply (I_keeps w).
    + eapply HF; [exact Hk'|]. by eapply HF.
    + eapply HG; [exact Hk'|]. eapply Hr; [|done|exact Hj]. by eapply I_sound.
Qed.

(** [?] on a call whose error ends the task. *)
Lemma spec_try {X Y A B : Type} (P : Worker S -> log -> Prop) (f : X -> Y) (t : T (result X A))
  (k : A -> T (result Y B)) (R : A -> Worker S -> log -> Prop)
  (Q : result Y B -> Worker S -> log -> Prop) :
  spec en I P t (fun m w cs => match m with Ok a => R a w cs | Err _ => I w cs end) ->
  (forall a, spec en I (R a) (k a) Q) -> (forall e w cs, I w cs -> Q (Err e) w cs) ->
  spec en I P (tbind_ok (tmap_err f t) k) Q.
Proof.
  intros Ht Hk HQ. eapply (spec_bind_ok _ _ _ _ _ R (fun _ => I)); [|done|done].
  apply spec_map. eapply spec_conseq; [exact Ht|done|]. by intros [a|e].
Qed.

(** What the answers in the log do not matter to. *)
Definition ignores_answers (L : log -> Prop) : Prop :=
  forall cs X (e : effect H X) x, L cs -> L (cs ++ [Answer e x]).

Context (I_answers : forall w, ignores_answers (I w)).

(** A call: the log grows by it and others act. *)
Lemma call_rule {Y : Type} (e : effect H Y) (F : Journal S -> Prop) (L L' : log -> Prop) :
  lasting F -> ignores_answers L' ->
  (forall w cs, holding F L w cs -> I w (cs ++ [Call e]) /\ L' (cs ++ [Call e])) ->
  spec en I (holding F L) (call e) (fun _ => holding F L').
Proof.
  intros HF HA HI. apply spec_call.
  - intros w cs Hw. by apply HI.
  - intros n x w cs Hw _. destruct (HI w cs Hw) as [HIw HL']. destruct Hw as (HIw0 & Hf & HL).
    eapply (holding_keeps F L' w); [done|by apply en_tame, (I_sound _ _ HIw0)|].
    split_and!; [by apply I_answers|done|by apply HA].
Qed.

(** A client method: a request that fails its check is not sent. *)
Lemma client_rule {X Y A B : Type} (m : result X A) (e : effect H Y) (k : Y -> result X B)
  (F : Journal S -> Prop) (L L' : log -> Prop) :
  lasting F -> ignores_answers L' -> (forall cs, L cs -> L' cs) ->
  (forall w cs, holding F L w cs -> I w (cs ++ [Call e]) /\ L' (cs ++ [Call e])) ->
  spec en I (holding F L) (let&? _ := tret m in let& reply := call e in tret (k reply))
    (fun _ => holding F L').
Proof.
  intros HF HA HL HI. destruct m as [a|err].
  - intros r Hr. apply (spec_bind en I (holding F L) (call e) (fun y => tret (k y))
      (fun _ => holding F L') (fun _ => holding F L'));
      [by apply call_rule|intros y; by apply spec_ret|done].
  - intros r (HIr & Hf & Hl). split_and!; auto.
Qed.
End Rules.

(** ** Facts that last

    A predicate of the shared state and the log that implies soundness and that
    evidence keeps survives what other tasks do during an await. *)
Section Lasting.
Context {S H : Type} {ops : RecordStore S} {laws : RecordStoreLaws S}.
Context {lib : Libraries} {lib_laws : LibraryLaws} {http : HttpLibraries}.

Abbreviation log := (list (some_call (effect H))).
Abbreviation T := (task (Worker S) (effect H)).

Record stable (P : Worker S -> log -> Prop) : Prop := {
  st_sound : forall w cs, P w cs -> sound (wk_journal w);
  st_keeps : forall w w' cs, keeps_evidence (wk_journal w) (wk_journal w') -> P w cs -> P w' cs;
}.

(** The call does not matter to [P]. *)
Definition deaf (P : Worker S -> log -> Prop) {X : Type} (e : effect H X) : Prop :=
  forall w cs, P w cs -> P w (cs ++ [Call e]) /\ forall x, P w (cs ++ [Answer e x]).

Context (en : env (Worker S) (effect H)) (en_tame : tame en).

Lemma stable_others (P : Worker S -> log -> Prop) (n : nat) (w : Worker S) (cs : log) :
  stable P -> P w cs -> P (en_others en n w) cs.
Proof. intros [Hs Hk] Hw. eapply (Hk w); [|done]. by apply en_tame, (Hs w cs). Qed.

Lemma keeps_call (P : Worker S -> log -> Prop) {X : Type} (e : effect H X) :
  stable P -> deaf P e -> keeps en P (call e).
Proof.
  intros HP He. apply spec_call; [intros; by apply He|]. intros n x w cs Hw _. apply stable_others; [done|].
  by apply He, He.
Qed.

Lemma keeps_query (P : Worker S -> log -> Prop) {X : Type} (e : effect H X) : deaf P e -> keeps en P (ask e).
Proof. intros He. apply keeps_ask; intros; by apply He. Qed.

Lemma keeps_checked (P : Worker S -> log -> Prop) {X Y A B : Type} (m : result X A) (e : effect H Y)
  (k : Y -> result X B) :
  stable P -> deaf P e -> keeps en P (let&? _ := tret m in let& reply := call e in tret (k reply) : T _).
Proof.
  intros HP He. apply keeps_bind_ok; [apply keeps_ret|]. intros _.
  apply keeps_bind; [by apply keeps_call|]. intros y. apply keeps_ret.
Qed.

Lemma keeps_journal (P : Worker S -> log -> Prop) {A : Type} (m : st (Journal S) JournalError.t A) :
  stable P -> preserves (fun _ => True) m -> keeps en P (journal m).
Proof.
  intros HP Hm.
  assert (Hk : forall w cs r j, P w cs -> m (wk_journal w) = (r, j) -> P (set_journal j w) cs).
  { intros w cs r j Hw Hj. eapply (st_keeps P HP w); [|done].
    exact (Hm _ _ _ (st_sound P HP _ _ Hw) Logic.I Hj). }
  apply spec_journal; [done|exact Hk|]. intros n w cs r j Hw Hj. apply stable_others; [done|]. by eapply Hk.
Qed.

(** A journal operation that establishes [Q]. *)
Lemma spec_establish (I P : Worker S -> log -> Prop) {A : Type} (m : st (Journal S) JournalError.t A)
  (Q : result JournalError.t A -> Worker S -> log -> Prop) :
  stable P -> preserves (fun _ => True) m -> (forall w cs, P w cs -> I w cs) ->
  (forall r, stable (Q r)) ->
  (forall w cs r j, P w cs -> m (wk_journal w) = (r, j) -> P (set_journal j w) cs ->
     Q r (set_journal j w) cs) ->
  spec en I P (journal m) Q.
Proof.
  intros HP Hm HI HQ HE.
  assert (Hk : forall w cs r j, P w cs -> m (wk_journal w) = (r, j) -> P (set_journal j w) cs).
  { intros w cs r j Hw Hj. eapply (st_keeps P HP w); [|done].
    exact (Hm _ _ _ (st_sound P HP _ _ Hw) Logic.I Hj). }
  apply spec_journal; [done|intros *; intros Hw Hj..]; [by eapply HI, Hk|].
  apply stable_others; [done|]. eapply HE; [done..|]. by eapply Hk.
Qed.

Lemma stable_and (P : Worker S -> log -> Prop) (F : Journal S -> Prop) :
  stable P -> lasting F -> stable (fun w cs => P w cs /\ F (wk_journal w)).
Proof.
  intros [Hs Hk] HF. split; [by intros w cs [Hw _]; eapply Hs|].
  intros w w' cs Hkeep [Hw Hf]. split; [by eapply Hk|by eapply HF].
Qed.

(** ** Facts of one attempt's record *)
Definition on_record (id : string) (P : AttemptRecord -> Prop) (j : Journal S) : Prop :=
  exists r, stored j id = Some r /\ P r.

Lemma lasting_record (id : string) (P : AttemptRecord -> Prop) :
  (forall r r', evolves r r' -> P r -> P r') -> lasting (on_record id P).
Proof.
  intros HP j j' (_ & _ & Hstep) (r & Hr & Hp). specialize (Hstep id). rewrite Hr in Hstep.
  destruct (stored j' id) as [r'|] eqn:Hr'; [|done]. exists r'. split; [done|]. by eapply HP.
Qed.
End Lasting.

(** Splits a goal about what a task keeps down to its calls and journal operations. *)
Ltac keeping :=
  repeat match goal with
  | |- forall _, _ => intros ?
  | |- keeps _ _ (tret _) => apply keeps_ret
  | |- keeps _ _ (tbind_ok _ _) => apply keeps_bind_ok
  | |- keeps _ _ (tbind _ _) => apply keeps_bind
  | |- keeps _ _ (tmap_err _ _) => apply keeps_map
  | |- keeps _ _ (tmap _ _) => apply keeps_map
  | |- keeps _ _ (while_live _) => apply keeps_while_live
  | |- keeps _ _ (while_live_ref _) => apply keeps_while_live_ref
  | |- keeps _ _ (timeout _) => apply keeps_timeout
  | |- keeps _ _ (loop _ _) => apply keeps_loop
  | |- keeps _ _ (select _ _) => apply keeps_select
  | |- keeps _ _ observe => apply keeps_observe
  | |- keeps _ _ authority => apply keeps_authority
  | |- keeps _ _ authority_window => apply keeps_window
  | |- keeps _ _ (match ?x with _ => _ end) => destruct x
  end.

(** * An environment in which nothing answers

    Witnesses override the calls they are about. *)

Definition no_disk : ErrorKind := OtherKind.

Definition no_put : put_io :=
  let chunk := {| ci_available := Err no_disk; ci_extra := Err no_disk |} in
  {| pi_wall := None; pi_elapsed := true; pi_permit := true; pi_rewind := Err no_disk;
     pi_metadata := Err no_disk; pi_chunks := []; pi_empty := chunk;
     pi_response := Err SendTimeout |}.

Definition no_store : store_io :=
  {| si_open := Err no_disk; si_write := Err no_disk; si_written := 0; si_sync := Err no_disk;
     si_link := Err no_disk; si_unlink := Err no_disk; si_dirsync := Err no_disk;
     si_cleanup_pending := Err no_disk; si_cleanup_final := Err no_disk |}.

Definition no_bind : bind_io :=
  {| bi_canonical := None; bi_source := Err no_disk; bi_euid := 0; bi_create := fun _ => Err no_disk;
     bi_existing := fun _ => Err no_disk |}.

Fixpoint outage {H X : Type} (e : effect H X) : X :=
  match e in effect _ X return X with
  | CreateUpload _ => Elapsed
  | FinalizeUpload _ => Elapsed
  | RegisterLogSegment _ => Elapsed
  | ReportPhase _ => Elapsed
  | CompleteAttempt _ => Elapsed
  | PutObject _ _ => no_put
  | Sleep _ => tt
  | RuntimeCreate _ _ _ _ => Err RuntimeError.Transport
  | RuntimeStart _ _ => Err RuntimeError.Transport
  | RuntimeInspect _ => Err RuntimeError.Transport
  | RuntimeStop _ _ => Err RuntimeError.Transport
  | RuntimeKill _ => Err RuntimeError.Transport
  | RuntimeRemove _ => Err RuntimeError.Transport
  | RuntimeLogs _ _ => Err RuntimeError.Transport
  | TakeCapture _ => None
  | EarlyCapture => None
  | JoinCapture => Err tt
  | AbortCapture => tt
  | StopPublisher => tt
  | AbortPublisher => tt
  | JoinPublisher => tt
  | StopReceived => true
  | StopSignal => tt
  | SpoolCreate => (0, {| ci_exists := false; ci_mkdir := Err no_disk; ci_open := Err no_disk;
                          ci_meta := Err no_disk; ci_sync := Err no_disk |})
  | SpoolStore => no_store
  | SpoolRead => (0, {| ri_open := Err no_disk; ri_meta := Err no_disk |})
  | SpoolRemove => (0, {| rm_read := {| ri_open := Err no_disk; ri_meta := Err no_disk |};
                          rm_unlink := Err no_disk; rm_dirsync := Err no_disk |})
  | WallClock => None
  | MonoClock => Err Clock
  | RequestRefresh _ => tt
  | FreshId => None
  | CollectOutputs => None
  | CloneFile => Ok tt
  | IngestAnswers => {| ie_opened := 0; ie_reopened := 0; ie_store := no_store |}
  | AcquireWork _ => Elapsed
  | AcquireLocal => {| wall := fun _ => None; clock := Err Clock; client_built := false |}
  | WallClocks => fun _ => None
  | SpawnPreparation _ _ => tt
  | JoinPreparation => None
  | PrepareImage _ => Err RuntimeError.Transport
  | StageInput _ => Err StorePoisoned
  | BindAnswers => no_bind
  | RemoveStopped _ _ _ => Err RuntimeError.Transport
  | RemoveWorkspace _ => None
  | HttpBuilt => true
  | OpenCache _ _ _ => Err StorePoisoned
  | ReadyNow => false
  | ReadyChanged => false
  | SetReady _ => tt
  | SetActive _ => tt
  | ActiveOwner => None
  | StopOwner _ _ => tt
  | SpawnRenewal _ => tt
  | JoinRenewal => None
  | Announce _ => tt
  | Inventory _ => Err RuntimeError.Transport
  | RemovePrevious _ _ => Err RuntimeError.Transport
  | StorageVerified => None
  | QuotaSupport => Err RuntimeError.Transport
  | ReconcileStorage => None
  | DiskPressure _ => None
  | HeartbeatCall _ => Elapsed
  | RegisterCall _ => Elapsed
  | ConnectControl => Err Connection
  | ConnectDocker _ => Err RuntimeError.Transport
  | CheckCapacity _ _ => Err RuntimeError.Transport
  | Timeout _ e => Some (outage e)
  end.

Definition unseen : look :=
  {| lk_shared := {| sh_identity := identity_fixture; sh_state := Stop ControllerLost;
                     sh_requested := 0; sh_acknowledged := 0; sh_senders := 0; sh_receivers := 1 |};
     lk_clock := Err Clock |}.

Definition unseen_plan {L : Type} (l : L) : guard_plan L :=
  {| gd_first := l; gd_wakes := []; gd_final := l |}.

(** An environment whose other tasks leave the state alone. *)
Definition quiet_env {S H : Type} (answer : nat -> forall X, effect H X -> X) (seen : look)
  (now : reading) : env (Worker S) (effect H) :=
  {| en_answer := answer; en_others := fun _ w => w; en_guard := fun _ => unseen_plan seen;
     en_deadline := fun _ => unseen_plan now; en_look := fun _ => seen;
     en_race := fun _ => {| rc_first := 0; rc_second := 0; rc_takes_first := false |};
     en_started := fun _ => true |}.

Lemma keeps_evidence_refl {S : Type} {ops : RecordStore S} {laws : RecordStoreLaws S}
  {lib : Libraries} (j : Journal S) : sound j -> keeps_evidence j j.
Proof. intros Hj. split_and!; [done|done|]. intros id. apply attempt_step_refl. Qed.

Lemma quiet_env_tame {S H : Type} {ops : RecordStore S} {laws : RecordStoreLaws S}
  {lib : Libraries} (answer : nat -> forall X, effect H X -> X) (seen : look) (now : reading) :
  tame (quiet_env (S := S) answer seen now).
Proof. intros n w. apply keeps_evidence_refl. Qed.

Definition idle_authority : SupervisedAuthority :=
  {| sa_identity := identity_fixture; sa_last_window := {| sent := 0; deadline := 1 |} |}.

Definition idle_assembler : LogAssembler :=
  {| la_attempt_id := attempt_fixture;
     la_spool := {| sp_root := EmptyString; sp_attempt_id := attempt_fixture; sp_cap := 0;
                    sp_used := 0; sp_entries := ∅; sp_poisoned := false |};
     la_files := ∅; la_open := Two None None; la_last_seen := Two 0 0; la_last_stored := Two 0 0;
     la_pending := [] |}.
