(* ===== verification/UploadDelivery.v ===== *)
(** Delivery of journaled uploads ([rust/worker/src/upload.rs] and
    [log_delivery.rs]): create, put and finalize an output, and additionally
    register a log segment, each step durable before the next.

    [source] says whether the local file is at hand. *)

From S2P Require Import Prelude Strings Protocol Lease Control Renew Supervisor Os Execution Uploads Phase.
From S2P Require Import LogRegistration Completion RecordStore JournalRecord Journal JournalUploads.
From S2P Require Import JournalLogs JournalFiles Codec JournalEvidence JournalFacts Delivery.
From S2P Require Import Async Transfer Effects.
Open Scope N_scope.

Inductive UploadError : Type :=
| UploadJournal (e : JournalError.t)
| UploadControl (e : ClientError)
| UploadTransfer (e : TransferError.t)
| UploadMissingSource.

Inductive LogDeliveryError : Type :=
| LogJournal (e : JournalError.t)
| LogControl (e : ClientError)
| LogTransfer (e : TransferError.t)
| LogMissingSource
| LogRejected (d : Decision_.t).

Section Delivery.
Context {S H : Type} {ops : RecordStore S} {lib : Libraries} {http : HttpLibraries}.

Abbreviation T := (task (Worker S) (effect H)).

Definition named (name : string) (u : OutputUpload) : bool :=
  bool_decide (cu_name (ou_declaration u) = name).

(** The upload of an output that has no version yet. *)
Definition upload_output (c : TransferClient) (attempt_id : string) (source : bool)
  (declaration : CreateUploadRequest) : T (result UploadError FinalizeUploadRequest) :=
  if negb source then tret (Err UploadMissingSource)
  else
    let&? grant := tmap_err UploadControl (client_create_upload declaration) in
    let&? _ := tmap_err UploadJournal (journal (record_output_grant declaration grant)) in
    let&? object := tmap_err UploadTransfer (transfer_put c declaration grant) in
    tmap_err UploadJournal
      (journal (prepare_output_finalization attempt_id (cu_request_id declaration) object)).

Definition deliver_output (c : TransferClient) (attempt_id name : string) (source : bool)
  : T (result UploadError FinalizeUploadResponse) :=
  let&? found := tmap_err UploadJournal (journal (load_attempt attempt_id)) in
  let&? saved := tret (ok_or found (UploadJournal JournalError.Invalid)) in
  let&? upload := tret (ok_or (List.find (named name) (rc_outputs saved))
                          (UploadJournal JournalError.Invalid)) in
  match ou_response upload with
  | Some response => tret (Ok response)
  | None =>
      let&? finalize := match ou_finalization upload with
                        | Some request => tret (Ok request)
                        | None => upload_output c attempt_id source (ou_declaration upload)
                        end in
      let&? response := tmap_err UploadControl (client_finalize_upload finalize) in
      let&? _ := tmap_err UploadJournal (journal (record_output_response finalize response)) in
      tret (Ok response)
  end.

(** The upload of a segment that has no version yet. *)
Definition upload_log (c : TransferClient) (attempt_id : string) (source : bool)
  (declaration : CreateUploadRequest) : T (result LogDeliveryError FinalizeUploadRequest) :=
  if negb source then tret (Err LogMissingSource)
  else
    let&? grant := tmap_err LogControl (client_create_upload declaration) in
    let&? _ := tmap_err LogJournal (journal (record_log_grant declaration grant)) in
    let&? object := tmap_err LogTransfer (transfer_put c declaration grant) in
    tmap_err LogJournal
      (journal (prepare_log_finalization attempt_id (cu_request_id declaration) object)).

(** The registration of a segment: the saved one, or a new one once the
    artifact is durable. *)
Definition log_registration (c : TransferClient) (attempt_id : string) (source : bool)
  (log : LogUpload) : T (result LogDeliveryError RegisterLogSegmentRequest) :=
  match lu_registration log with
  | Some request => tret (Ok request)
  | None =>
      let&? _ :=
        match lu_response log with
        | Some _ => tret (Ok tt)
        | None =>
            let&? finalize := match lu_finalization log with
                              | Some request => tret (Ok request)
                              | None => upload_log c attempt_id source (lu_declaration log)
                              end in
            let&? response := tmap_err LogControl (client_finalize_upload finalize) in
            tmap_err LogJournal (journal (record_log_response finalize response))
        end in
      tmap_err LogJournal
        (journal (prepare_log_registration attempt_id (cu_request_id (lu_declaration log))))
  end.

Definition segment_at (stream : LogStream.t) (first : N) (s : LogUpload) : bool :=
  (lu_stream s =? LogStream.to_i32 stream)%Z && (lu_first_sequence s =? first).

Definition deliver_log (c : TransferClient) (attempt_id : string) (stream : LogStream.t)
  (first_sequence : N) (source : bool) : T (result LogDeliveryError unit) :=
  let&? found := tmap_err LogJournal (journal (load_attempt attempt_id)) in
  let&? saved := tret (ok_or found (LogJournal JournalError.Invalid)) in
  let&? log := tret (ok_or (List.find (segment_at stream first_sequence) (rc_logs saved))
                       (LogJournal JournalError.Invalid)) in
  if lu_registered log then tret (Ok tt)
  else
    let&? registration := log_registration c attempt_id source log in
    let&? status := tmap_err LogControl (client_register_log registration) in
    if negb (bool_decide (ls_decision status = Decision_.Accepted))
    then tret (Err (LogRejected (ls_decision status)))
    else
      let&? _ := tmap_err LogJournal
                   (journal (record_log_registration registration (ls_decision status) (ls_state status))) in
      tret (Ok tt).
End Delivery.

(** ** How long a delivery takes *)

Section DeliveryAwaits.
Context {S H : Type} {ops : RecordStore S} {lib : Libraries} {http : HttpLibraries}.

Abbreviation T := (task (Worker S) (effect H)).

Lemma within_upload_output (c : TransferClient) (id : string) (source : bool) (d : CreateUploadRequest) :
  within 4 (upload_output c id source d : T _).
Proof.
  unfold upload_output. destruct source; simpl; [|apply within_ret_any].
  awaits 1%nat 3%nat. awaits 1%nat 2%nat. awaits 1%nat 1%nat. apply within_map, within_journal.
Qed.

Lemma within_deliver_output (c : TransferClient) (id name : string) (source : bool) :
  within 7 (deliver_output c id name source : T _).
Proof.
  unfold deliver_output. awaits 1%nat 6%nat. awaits 0%nat 6%nat. awaits 0%nat 6%nat.
  destruct (ou_response _); [apply within_ret_any|]. awaits 4%nat 2%nat.
  { destruct (ou_finalization _); [apply within_ret_any|apply within_upload_output]. }
  awaits 1%nat 1%nat. awaits 1%nat 0%nat. apply within_ret.
Qed.

Lemma within_upload_log (c : TransferClient) (id : string) (source : bool) (d : CreateUploadRequest) :
  within 4 (upload_log c id source d : T _).
Proof.
  unfold upload_log. destruct source; simpl; [|apply within_ret_any].
  awaits 1%nat 3%nat. awaits 1%nat 2%nat. awaits 1%nat 1%nat. apply within_map, within_journal.
Qed.

Lemma within_log_registration (c : TransferClient) (id : string) (source : bool) (u : LogUpload) :
  within 7 (log_registration c id source u : T _).
Proof.
  unfold log_registration. destruct (lu_registration u); [apply within_ret_any|]. awaits 6%nat 1%nat.
  - destruct (lu_response u); [apply within_ret_any|]. awaits 4%nat 2%nat.
    { destruct (lu_finalization u); [apply within_ret_any|apply within_upload_log]. }
    awaits 1%nat 1%nat. apply within_map, within_journal.
  - apply within_map, within_journal.
Qed.

Lemma within_deliver_log (c : TransferClient) (id : string) (stream : LogStream.t) (first : N)
  (source : bool) : within 10 (deliver_log c id stream first source : T _).
Proof.
  unfold deliver_log. awaits 1%nat 9%nat. awaits 0%nat 9%nat. awaits 0%nat 9%nat.
  destruct (lu_registered _); [apply within_ret_any|]. awaits 7%nat 2%nat.
  { apply within_log_registration. }
  awaits 1%nat 1%nat. destruct (negb _); [apply within_ret_any|]. awaits 1%nat 0%nat.
  apply within_ret.
Qed.
End DeliveryAwaits.

#[export] Hint Resolve within_deliver_output within_deliver_log : dispatch.

(** * The identities of a record's outputs *)

Section Identities.
Context {lib : Libraries}.

(** The request identities an upload uses. *)
Definition upload_ids (u : OutputUpload) : list string :=
  cu_request_id (ou_declaration u)
  :: match ou_finalization u with Some f => [fu_request_id f] | None => [] end.

Lemma validate_output_step (record : AttemptRecord) (x : ExecutionSpec) (seen seen' : seen_ids)
  (u : OutputUpload) :
  validate_output record x seen u = Ok seen' ->
  (cu_name (ou_declaration u) ∉ si_names seen)
  /\ si_names seen' = cu_name (ou_declaration u) :: si_names seen
  /\ (forall i, i ∈ upload_ids u -> i ∉ si_requests seen)
  /\ (forall i, i ∈ si_requests seen' <-> i ∈ upload_ids u \/ i ∈ si_requests seen)
  /\ cu_authority (ou_declaration u) = as_authority (rc_assignment record)
  /\ (forall f, ou_finalization u = Some f -> fu_authority f = cu_authority (ou_declaration u)).
Proof.
  unfold validate_output. intros H. guards.
  repeat match goal with H : _ || _ = false |- _ => apply orb_false_iff in H as [? ?] end.
  rewrite ?bool_decide_negb_false, ?bool_decide_eq_false in *.
  unfold upload_ids.
  destruct (is_empty_str (ou_upload_id u)) eqn:He.
  - guards. repeat match goal with H : _ || _ = false |- _ => apply orb_false_iff in H as [? ?] end.
    destruct (ou_finalization u); [done|]. subst seen'. cbn [with_request with_name si_names si_requests].
    split_and!; set_solver.
  - guards. repeat match goal with H : _ || _ = false |- _ => apply orb_false_iff in H as [? ?] end.
    destruct (ou_finalization u) as [f|].
    + guards. repeat match goal with H : _ || _ = false |- _ => apply orb_false_iff in H as [? ?] end.
      match goal with H : finalization_mismatch _ _ _ _ _ = false |- _ =>
        unfold finalization_mismatch in H; rewrite !orb_false_iff, !bool_decide_negb_false in H;
        destruct_and! H end.
      rewrite ?bool_decide_eq_false in *.
      assert (Hs : si_names seen' = cu_name (ou_declaration u) :: si_names seen
                   /\ si_requests seen' = fu_request_id f :: cu_request_id (ou_declaration u) :: si_requests seen).
      { destruct (ou_response u); guards; by subst seen'. }
      destruct Hs as [Hs1 Hs2]. rewrite Hs2.
      match goal with H : fu_request_id f ∉ _ |- _ =>
        cbn [with_upload with_request with_name si_requests] in H end.
      split_and!; set_solver.
    + guards. subst seen'. cbn [with_upload with_request with_name si_names si_requests].
      split_and!; set_solver.
Qed.

Lemma validate_outputs_distinct (record : AttemptRecord) (x : ExecutionSpec) (l : list OutputUpload)
  (seen seen' : seen_ids) :
  rfold (validate_output record x) seen l = Ok seen' ->
  (forall i u, l !! i = Some u -> (cu_name (ou_declaration u) ∉ si_names seen)
     /\ forall n, n ∈ upload_ids u -> n ∉ si_requests seen)
  /\ (forall i j u v, l !! i = Some u -> l !! j = Some v ->
       cu_name (ou_declaration u) = cu_name (ou_declaration v) -> i = j)
  /\ (forall i j u v n, l !! i = Some u -> l !! j = Some v ->
       n ∈ upload_ids u -> n ∈ upload_ids v -> i = j)
  /\ Forall (fun u => cu_authority (ou_declaration u) = as_authority (rc_assignment record)
       /\ forall f, ou_finalization u = Some f -> fu_authority f = cu_authority (ou_declaration u)) l.
Proof.
  revert seen. induction l as [|u l IH]; intros seen H; simpl in H.
  { split_and!; [by intros []|by intros []|by intros []|constructor]. }
  apply rbind_Ok_inv in H as (seen1 & H1 & H).
  apply validate_output_step in H1 as (Hn & Hn1 & Hr & Hr1 & Ha & Hf).
  destruct (IH _ H) as (IH1 & IH2 & IH3 & IH4).
  assert (Hname : forall i v, l !! i = Some v -> cu_name (ou_declaration u) <> cu_name (ou_declaration v)).
  { intros i v Hv E. destruct (IH1 i v Hv) as [Hv1 _]. rewrite Hn1 in Hv1. set_solver. }
  assert (Hids : forall i v n, l !! i = Some v -> n ∈ upload_ids u -> n ∈ upload_ids v -> False).
  { intros i v n Hv Hu Hv'. destruct (IH1 i v Hv) as [_ Hv1]. apply (Hv1 n Hv'), Hr1. by left. }
  split_and!.
  - intros [|i] v Hv; simpl in Hv; [by simplify_eq|]. destruct (IH1 i v Hv) as [Hv1 Hv2].
    rewrite Hn1 in Hv1. split; [set_solver|]. intros n Hnv Hs. apply (Hv2 n Hnv), Hr1. by right.
  - intros [|i] [|j] v w Hv Hw; simpl in Hv, Hw; simplify_eq; try done.
    + intros E. by destruct (Hname j w Hw).
    + intros E. by destruct (Hname i v Hv).
    + intros E. f_equal. by eapply IH2.
  - intros [|i] [|j] v w n Hv Hw; simpl in Hv, Hw; simplify_eq; try done.
    + intros Hu Hw'. by destruct (Hids j w n Hw Hu Hw').
    + intros Hv' Hu. by destruct (Hids i v n Hv Hu Hv').
    + intros Hv' Hw'. f_equal. by eapply IH3.
  - constructor; [done|]. exact IH4.
Qed.

(** Names and identities tell the uploads of a valid record apart. *)
Lemma validated_outputs (r : AttemptRecord) (worker id : string) :
  validated r worker id ->
  (forall u v, u ∈ rc_outputs r -> v ∈ rc_outputs r ->
     cu_name (ou_declaration u) = cu_name (ou_declaration v) -> u = v)
  /\ (forall u v n, u ∈ rc_outputs r -> v ∈ rc_outputs r ->
     n ∈ upload_ids u -> n ∈ upload_ids v -> u = v)
  /\ (forall u f, u ∈ rc_outputs r -> ou_finalization u = Some f ->
     exists a, fu_authority f = Some a /\ aa_attempt_id a = id).
Proof.
  intros Hv. pose proof (va_outputs _ _ _ Hv) as H. unfold validate_outputs in H.
  case_bool_decide as Hlen.
  { destruct (rc_outputs r); [|done]. split_and!; set_solver. }
  destruct (_ || _); [done|]. apply rbind_Ok_inv in H as (x & _ & H).
  apply rbind_Ok_inv in H as (seen & H & _).
  destruct (validate_outputs_distinct _ _ _ _ _ H) as (_ & Hname & Hids & Hall).
  split_and!.
  - intros u v [i Hi]%list_elem_of_lookup [j Hj]%list_elem_of_lookup E. assert (i = j) as <- by (exact (Hname i j u v Hi Hj E)). congruence.
  - intros u v n [i Hi]%list_elem_of_lookup [j Hj]%list_elem_of_lookup Hu Hv'. assert (i = j) as <- by (exact (Hids i j u v n Hi Hj Hu Hv')). congruence.
  - intros u f [i Hi]%list_elem_of_lookup Hf. rewrite Forall_lookup in Hall. destruct (Hall i u Hi) as [Ha Hfa].
    destruct (va_authority _ _ _ Hv) as (a & Haa & _ & Hid). exists a. split; [|done].
    rewrite (Hfa f Hf). congruence.
Qed.
End Identities.

(** * What delivery leaves behind *)

Section Invariant.
Context {S H : Type} {ops : RecordStore S} {laws : RecordStoreLaws S}.
Context {lib : Libraries} {lib_laws : LibraryLaws} {http : HttpLibraries}.

Abbreviation log := (list (some_call (effect H))).

(** The finalizations sent, in order. *)
Definition finalize_of (c : some_call (effect H)) : option FinalizeUploadRequest :=
  match c with
  | Call (FinalizeUpload q) => Some q
  | _ => None
  end.

Definition is_put (c : some_call (effect H)) : bool :=
  match c with
  | Call (PutObject _ _) => true
  | _ => false
  end.

Definition finalizations (cs : log) : list FinalizeUploadRequest := omap finalize_of cs.

(** Every PUT comes before the first finalization. *)
Definition puts_first (cs : log) : Prop :=
  forall cs1 c cs2, cs = cs1 ++ c :: cs2 -> is_put c = true -> finalizations cs1 = [].

(** An upload of the attempt, as the journal has it. *)
Definition upload_on_record (j : Journal S) (id : string) (P : OutputUpload -> Prop) : Prop :=
  exists r u, stored j id = Some r /\ u ∈ rc_outputs r /\ P u.

Definition finalized (j : Journal S) (id name : string) (q : FinalizeUploadRequest) : Prop :=
  upload_on_record j id (fun u => cu_name (ou_declaration u) = name /\ ou_finalization u = Some q).

Definition declared (j : Journal S) (id : string) (d : CreateUploadRequest) : Prop :=
  upload_on_record j id (fun u => ou_declaration u = d).

Definition answered (j : Journal S) (id name : string) (q : FinalizeUploadRequest)
  (s : FinalizeUploadResponse) : Prop :=
  upload_on_record j id (fun u => cu_name (ou_declaration u) = name
    /\ ou_finalization u = Some q /\ ou_response u = Some s).

(** What holds whenever a delivery of the output [name] is interrupted: the
    journal is sound, it has every finalization that was sent, and nothing was
    put after one. *)
Record delivery_inv (id name : string) (w : Worker S) (cs : log) : Prop := {
  di_sound : sound (wk_journal w);
  di_final : forall q, q ∈ finalizations cs -> finalized (wk_journal w) id name q;
  di_order : puts_first cs;
}.

Lemma on_record_keeps (j j' : Journal S) (id : string) (P : OutputUpload -> Prop) :
  (forall u v, output_evolves u v -> P u -> P v) ->
  keeps_evidence j j' -> upload_on_record j id P -> upload_on_record j' id P.
Proof.
  intros HP (_ & _ & Hstep) (r & u & Hr & Hu & Hf). specialize (Hstep id). rewrite Hr in Hstep.
  destruct (stored j' id) as [r'|] eqn:Hr'; [|done].
  destruct (ev_outputs _ _ Hstep) as (k1 & k2 & Hk & Hall).
  apply list_elem_of_lookup in Hu as [i Hi].
  destruct (Forall2_lookup_l _ _ _ _ _ Hall Hi) as (v & Hv & Huv).
  exists r', v. split; [done|]. split; [|by eapply HP]. rewrite Hk. apply elem_of_app. left.
  apply list_elem_of_lookup. by exists i.
Qed.

Lemma finalized_keeps (j j' : Journal S) (id name : string) (q : FinalizeUploadRequest) :
  keeps_evidence j j' -> finalized j id name q -> finalized j' id name q.
Proof.
  apply on_record_keeps. intros u v Huv [Hn Hq]. rewrite (oe_declaration _ _ Huv). split; [done|].
  by apply (oe_finalization _ _ Huv).
Qed.

Lemma declared_keeps (j j' : Journal S) (id : string) (d : CreateUploadRequest) :
  keeps_evidence j j' -> declared j id d -> declared j' id d.
Proof. apply on_record_keeps. intros u v Huv <-. apply (oe_declaration _ _ Huv). Qed.

Lemma answered_keeps (j j' : Journal S) (id name : string) (q : FinalizeUploadRequest)
  (s : FinalizeUploadResponse) :
  keeps_evidence j j' -> answered j id name q s -> answered j' id name q s.
Proof.
  apply on_record_keeps. intros u v Huv (Hn & Hq & Hs). rewrite (oe_declaration _ _ Huv).
  split_and!; [done|by apply (oe_finalization _ _ Huv)|by apply (oe_response _ _ Huv)].
Qed.

Lemma delivery_inv_keeps (id name : string) (w w' : Worker S) (cs : log) :
  keeps_evidence (wk_journal w) (wk_journal w') -> delivery_inv id name w cs ->
  delivery_inv id name w' cs.
Proof.
  intros Hk [Hs Hf Ho]. split; [apply Hk| |done]. intros q Hq. eapply finalized_keeps; eauto.
Qed.

Lemma finalizations_app (cs cs' : log) :
  finalizations (cs ++ cs') = finalizations cs ++ finalizations cs'.
Proof. apply omap_app. Qed.

Lemma puts_first_app (cs : log) (c : some_call (effect H)) :
  puts_first cs -> (is_put c = true -> finalizations cs = []) -> puts_first (cs ++ [c]).
Proof.
  intros Hcs Hc cs1 c' cs2 Heq Hp. symmetry in Heq. apply app_eq_app in Heq as [l [[H1 H2]|[H1 H2]]].
  - destruct l as [|x l].
    + rewrite app_nil_r in H1. subst. simpl in H2. by simplify_eq; apply Hc.
    + simpl in H2. simplify_eq. destruct l; [|done]. simplify_eq.
  - destruct l as [|x l].
    + rewrite app_nil_r in H1. subst. simpl in H2. by simplify_eq; apply Hc.
    + simpl in H2. simplify_eq. by eapply Hcs.
Qed.

(** The call log grows by one call. *)
Lemma delivery_inv_call (id name : string) (w : Worker S) (cs : log) (c : some_call (effect H)) :
  delivery_inv id name w cs ->
  (is_put c = true -> finalizations cs = []) ->
  (forall q, finalize_of c = Some q -> finalized (wk_journal w) id name q) ->
  delivery_inv id name w (cs ++ [c]).
Proof.
  intros [Hs Hf Ho] Hp Hq. split; [done| |by apply puts_first_app].
  intros q. rewrite finalizations_app, elem_of_app. intros [Hin|Hin]; [by apply Hf|].
  unfold finalizations in Hin. simpl in Hin. destruct (finalize_of c) as [q'|]; [|set_solver].
  apply list_elem_of_singleton in Hin as ->. by apply Hq.
Qed.

(** Answers are neither puts nor finalizations. *)
Lemma delivery_inv_answers (id name : string) (w : Worker S) : ignores_answers (delivery_inv id name w).
Proof. intros cs X e x Hw. by apply delivery_inv_call. Qed.

Lemma finalizations_answers (l : list FinalizeUploadRequest) :
  ignores_answers (fun cs : log => finalizations cs = l).
Proof. intros cs X e x Hl. rewrite finalizations_app, Hl. simpl. apply app_nil_r. Qed.

(** ** The journal's part *)

Context (attempt_names : forall id, rs_name (attempt_file id)).

Lemma prepare_finalization_Ok (id name : string) (d : CreateUploadRequest) (o : ObjectVersion)
  (j j' : Journal S) (q : FinalizeUploadRequest) :
  sound j -> declared j id d -> cu_name d = name ->
  prepare_output_finalization id (cu_request_id d) o j = (Ok q, j') -> finalized j' id name q.
Proof.
  intros Hj Hd Hname Hq.
  pose proof (prepare_output_finalization_preserves attempt_names _ _ _ _ _ _ Hj I Hq) as Hk.
  apply (declared_keeps _ _ _ _ Hk) in Hd as (r' & v & Hr' & Hv & Hvd).
  cut (exists u, u ∈ rc_outputs r' /\ cu_request_id (ou_declaration u) = cu_request_id d
    /\ ou_finalization u = Some q).
  { intros (u & Hu & Hid & Hf).
    destruct (validated_outputs _ _ _ (sound_stored _ _ _ (proj1 Hk) Hr')) as (_ & Hids & _).
    assert (u = v) as ->.
    { apply (Hids u v (cu_request_id d)); [done|done| |]; unfold upload_ids.
      - rewrite Hid. left.
      - rewrite Hvd. left. }
    exists r', v. split_and!; [done..| |done]. by rewrite Hvd. }
  unfold prepare_output_finalization in Hq.
  apply (required_bind_Ok attempt_names) in Hq as (rec & j1 & Hst & Hs & Hj1 & Hq); [|done].
  unfold st_bind at 1, st_lift at 1 in Hq. destruct (find_first _ _) as [[i saved]|] eqn:Hf; [|done].
  apply find_first_Some in Hf as [Hi Hid]. apply bool_decide_eq_true in Hid. cbn [ok_or] in Hq.
  destruct (ou_finalization saved) as [old|] eqn:Hold.
  - unfold unless in Hq. destruct (bool_decide _); [|done]. injection Hq as -> <-.
    assert (r' = rec) as -> by (rewrite (same_records_stored _ _ _ Hs) in Hr'; congruence).
    exists saved. split_and!; [|done|done]. apply list_elem_of_lookup. eauto.
  - destruct (negb _); [done|].
    apply (draw_save_Ok attempt_names id
      (fun f => finalization_for (ou_declaration saved) f (ou_upload_id saved) o [])
      (fun q => set_output i (set_finalization q saved) rec)) in Hq as [Hq _]; [|done].
    assert (r' = set_output i (set_finalization q saved) rec) as -> by congruence.
    exists (set_finalization q saved). split_and!; [|done|done]. apply list_elem_of_lookup.
    exists i. apply list_lookup_insert_eq. by eapply lookup_lt_Some.
Qed.

Lemma record_response_Ok (id name : string) (q : FinalizeUploadRequest) (s : FinalizeUploadResponse)
  (j j' : Journal S) :
  sound j -> finalized j id name q -> record_output_response q s j = (Ok tt, j') ->
  answered j' id name q s.
Proof.
  intros Hj Hfin Hq.
  pose proof (record_output_response_preserves attempt_names _ _ _ _ _ Hj I Hq) as Hk.
  destruct Hfin as (r0 & u0 & Hr0 & Hu0 & Hn0 & Hf0).
  destruct (validated_outputs _ _ _ (sound_stored _ _ _ Hj Hr0)) as (_ & _ & Hauth).
  destruct (Hauth u0 q Hu0 Hf0) as (a & Ha & Hid). subst id.
  assert (Hfin' : finalized j' (aa_attempt_id a) name q).
  { eapply finalized_keeps; [exact Hk|]. by exists r0, u0. }
  destruct Hfin' as (r' & v & Hr' & Hv & Hvn & Hvf).
  cut (exists u, u ∈ rc_outputs r' /\ ou_finalization u = Some q /\ ou_response u = Some s).
  { intros (u & Hu & Huf & Hus).
    destruct (validated_outputs _ _ _ (sound_stored _ _ _ (proj1 Hk) Hr')) as (_ & Hids & _).
    assert (u = v) as ->; [|by exists r', v].
    apply (Hids u v (fu_request_id q)); [done|done| |]; unfold upload_ids.
    - rewrite Huf. right. left.
    - rewrite Hvf. right. left. }
  unfold record_output_response, attempt_of_authority in Hq. rewrite Ha in Hq.
  unfold st_bind at 1 in Hq. cbn [ok_or st_lift st_bind st_ret] in Hq.
  apply (required_bind_Ok attempt_names) in Hq as (rec & j1 & Hst & Hs & Hj1 & Hq); [|done].
  unfold st_bind at 1, st_lift at 1 in Hq. destruct (find_first _ _) as [[i saved]|] eqn:Hf; [|done].
  apply find_first_Some in Hf as [Hi Hsf]. apply bool_decide_eq_true in Hsf. cbn [ok_or] in Hq.
  unfold st_bind at 1, st_lift at 1 in Hq. destruct (invalid _); [|done].
  destruct (ou_response saved) as [old|] eqn:Hold.
  - unfold unless in Hq. case_bool_decide; [|done]. injection Hq as <-. subst old.
    assert (r' = rec) as -> by (rewrite (same_records_stored _ _ _ Hs) in Hr'; congruence).
    exists saved. split_and!; [|done|done]. apply list_elem_of_lookup. eauto.
  - apply (save_Ok attempt_names) in Hq; [|done].
    assert (r' = set_output i (set_response s saved) rec) as -> by congruence.
    exists (set_response s saved). split_and!; [|done|done]. apply list_elem_of_lookup.
    exists i. apply list_lookup_insert_eq. by eapply lookup_lt_Some.
Qed.
End Invariant.

Section Outputs.
Context {S H : Type} {ops : RecordStore S} {laws : RecordStoreLaws S}.
Context {lib : Libraries} {lib_laws : LibraryLaws} {http : HttpLibraries}.
Context (id name : string) (c : TransferClient).

Abbreviation log := (list (some_call (effect H))).
Abbreviation inv := (delivery_inv (H := H) id name).
Abbreviation any := (fun _ => True).

Lemma inv_sound (w : Worker S) (cs : log) : inv w cs -> sound (wk_journal w).
Proof. apply di_sound. Qed.

Lemma lasting_any : lasting (S := S) any.
Proof. done. Qed.

Lemma lasting_declared (d : CreateUploadRequest) : lasting (fun j => declared (S := S) j id d).
Proof. intros j j'. apply declared_keeps. Qed.

Lemma lasting_finalized (q : FinalizeUploadRequest) : lasting (fun j => finalized (S := S) j id name q).
Proof. intros j j'. apply finalized_keeps. Qed.

(** What loading the record tells of the upload found. *)
Definition upload_facts (u : OutputUpload) (j : Journal S) : Prop :=
  declared j id (ou_declaration u)
  /\ (forall q, ou_finalization u = Some q -> finalized j id name q)
  /\ (forall s, ou_response u = Some s -> exists q, answered j id name q s).

Definition unsent (u : OutputUpload) (cs : log) : Prop :=
  ou_finalization u = None -> finalizations cs = [].

Lemma lasting_upload_facts (u : OutputUpload) : lasting (upload_facts u).
Proof.
  intros j j' Hk (Hd & Hf & Ha). split_and!.
  - by eapply declared_keeps.
  - intros q Hq. eapply finalized_keeps; eauto.
  - intros s Hs. destruct (Ha s Hs) as [q Hq]. exists q. by eapply answered_keeps.
Qed.

Lemma validated_answer (r : AttemptRecord) (worker : string) (u : OutputUpload)
  (s : FinalizeUploadResponse) :
  validated r worker id -> u ∈ rc_outputs r -> ou_response u = Some s ->
  exists q, ou_finalization u = Some q.
Proof.
  intros Hv Hu Hs. pose proof (va_outputs _ _ _ Hv) as Hval. unfold validate_outputs in Hval.
  case_bool_decide as Hlen; [destruct (rc_outputs r); [set_solver|done]|].
  destruct (_ || _); [done|]. apply rbind_Ok_inv in Hval as (x & _ & Hval).
  apply rbind_Ok_inv in Hval as (seen & Hval & _). generalize dependent seen. generalize no_ids as s0.
  clear Hlen. induction (rc_outputs r) as [|v l IH]; intros s0 seen Hval; [set_solver|].
  simpl in Hval. apply rbind_Ok_inv in Hval as (s1 & Hstep & Hval).
  apply elem_of_cons in Hu as [<-|Hu]; [|by eapply IH].
  destruct (ou_finalization u) as [q|] eqn:Hq; [by exists q|]. exfalso.
  unfold validate_output in Hstep. rewrite Hq, Hs in Hstep. guards.
  destruct (is_empty_str (ou_upload_id u)); guards; [|done].
  by rewrite !orb_false_iff in *; destruct_and!.
Qed.

Lemma found_upload_facts (saved : AttemptRecord) (u : OutputUpload) (j : Journal S) :
  sound j -> stored j id = Some saved -> List.find (named name) (rc_outputs saved) = Some u ->
  upload_facts u j.
Proof.
  intros Hj Hst Hfind. apply List.find_some in Hfind as [Hu Hn].
  rewrite <- list_elem_of_In in Hu. apply bool_decide_eq_true in Hn.
  pose proof (sound_stored _ _ _ Hj Hst) as Hv. split_and!.
  - by exists saved, u.
  - intros q Hq. by exists saved, u.
  - intros s Hs. destruct (validated_answer _ _ _ _ Hv Hu Hs) as [q Hq]. exists q. by exists saved, u.
Qed.

Context (attempt_names : forall id, rs_name (attempt_file id)).

Lemma load_upload_facts (w : Worker S) (cs : log) (saved : AttemptRecord) (u : OutputUpload)
  (j : Journal S) :
  inv w cs -> load_attempt id (wk_journal w) = (Ok (Some saved), j) ->
  List.find (named name) (rc_outputs saved) = Some u ->
  upload_facts u j /\ unsent u cs.
Proof.
  intros Hw Hl Hfind. destruct (load_attempt_keeps attempt_names _ _ _ _ (inv_sound _ _ Hw) Hl) as (Hj & Hk & Hst).
  specialize (Hst _ eq_refl). split; [by eapply found_upload_facts|].
  apply List.find_some in Hfind as [Hu Hn]. rewrite <- list_elem_of_In in Hu. apply bool_decide_eq_true in Hn.
  intros Hnone. destruct (finalizations cs) as [|q l] eqn:Hfs; [done|]. exfalso.
  destruct (finalized_keeps (wk_journal w) j id name q Hk) as (r & v & Hr & Hv' & Hvn & Hvq).
  { apply (di_final _ _ _ _ Hw). rewrite Hfs. left. }
  destruct (validated_outputs _ _ _ (sound_stored _ _ _ Hj Hst)) as (Hnames & _).
  assert (r = saved) as -> by congruence. assert (u = v) as <- by (apply Hnames; congruence).
  congruence.
Qed.

Context (en : env (Worker S) (effect H)) (en_tame : tame en).

Lemma load_upload :
  spec en inv inv (journal (load_attempt id)) (fun m w cs =>
    match m with
    | Ok (Some saved) =>
        match List.find (named name) (rc_outputs saved) with
        | Some u => holding inv (upload_facts u) (unsent u) w cs
        | None => inv w cs
        end
    | _ => inv w cs
    end).
Proof.
  assert (Hkeep : forall w cs r j, inv w cs -> load_attempt id (wk_journal w) = (r, j) ->
    inv (set_journal j w) cs).
  { intros w cs r j Hw Hl. eapply delivery_inv_keeps; [|exact Hw].
    by apply (load_attempt_keeps attempt_names _ _ _ _ (inv_sound _ _ Hw) Hl). }
  apply spec_journal; [done|exact Hkeep|].
  intros n w cs r j Hw Hl. pose proof (Hkeep _ _ _ _ Hw Hl) as Hw'.
  assert (Hk : keeps_evidence j (wk_journal (en_others en n (set_journal j w))))
    by (apply (en_tame n (set_journal j w)), (di_sound _ _ _ _ Hw')).
  assert (Hw'' : inv (en_others en n (set_journal j w)) cs)
    by (by apply (delivery_inv_keeps id name (set_journal j w))).
  destruct r as [[saved|]|e]; [|done..]. destruct (List.find _ _) as [u|] eqn:Hf; [|done].
  destruct (load_upload_facts w cs saved u j Hw Hl Hf) as [Hfacts Huns].
  split_and!; [done| |done]. by eapply lasting_upload_facts.
Qed.

(** From a declared upload without a version and no finalization sent, to a
    finalization on record. *)
Lemma upload_output_spec (source : bool) (d : CreateUploadRequest) :
  cu_name d = name ->
  spec en inv (holding inv (fun j => declared j id d) (fun cs => finalizations cs = []))
    (upload_output c id source d)
    (fun m w cs => match m with
                   | Ok q => holding inv (fun j => finalized j id name q) any w cs
                   | Err _ => inv w cs
                   end).
Proof.
  intros Hname. unfold upload_output. destruct source; simpl.
  2: { apply spec_ret. by intros w cs [Hw _]. }
  set (P := holding inv (fun j => declared j id d) (fun cs => finalizations cs = [])).
  eapply (spec_try _ _ _ _ _ _ (fun _ => P)); [|intros grant|done].
  { eapply spec_conseq; [apply (client_rule en inv inv_sound (delivery_inv_keeps id name) en_tame (delivery_inv_answers id name)
      (validate_create d) (CreateUpload d) (create_upload d) (fun j => declared j id d)
      (fun cs => finalizations cs = []) (fun cs => finalizations cs = []))|done|].
    - apply lasting_declared.
    - apply finalizations_answers.
    - done.
    - intros w cs (Hw & _ & Hl). split; [by apply delivery_inv_call|].
      rewrite finalizations_app, Hl. done.
    - intros [g|e] w cs Hh; [exact Hh|apply Hh]. }
  eapply (spec_try _ _ _ _ _ _ (fun _ => P)); [|intros []|done].
  { eapply spec_conseq; [apply (journal_rule en inv inv_sound (delivery_inv_keeps id name) en_tame
      (record_output_grant d grant) (fun j => declared j id d) (fun cs => finalizations cs = [])
      (fun _ _ => True))|done|].
    - apply record_output_grant_preserves, attempt_names.
    - apply lasting_declared.
    - done.
    - done.
    - intros [[]|e] w cs (Hw & [Hd _] & Hl); [by split_and!|done]. }
  eapply (spec_try _ _ _ _ _ _ (fun _ => holding inv (fun j => declared j id d) any)); [|intros object|done].
  { eapply (spec_bind _ _ _ _ _ (fun _ => holding inv (fun j => declared j id d) any)).
    - apply (call_rule en inv inv_sound (delivery_inv_keeps id name) en_tame (delivery_inv_answers id name)).
      + apply lasting_declared.
      + done.
      + intros w cs (Hw & _ & Hl). split; [|done]. by apply delivery_inv_call.
    - intros io. apply spec_ret. intros w cs Hh. destruct (fst _); [exact Hh|apply Hh]. }
  apply spec_map. eapply spec_conseq; [apply (journal_rule en inv inv_sound (delivery_inv_keeps id name)
    en_tame (prepare_output_finalization id (cu_request_id d) object) (fun j => declared j id d) any
    (fun m j => forall q, m = Ok q -> finalized j id name q))|done|].
  - apply prepare_output_finalization_preserves, attempt_names.
  - apply lasting_declared.
  - intros m j j' Hk Hq q Hm. by eapply finalized_keeps; [|apply Hq].
  - intros j m j' Hj Hd Hm q ->. by eapply (prepare_finalization_Ok attempt_names).
  - intros [q|e] w cs (Hw & [_ Hq] & _); [|done]. split_and!; [done|by apply Hq|done].
Qed.

Lemma deliver_output_spec (source : bool) :
  spec en inv inv (deliver_output c id name source)
    (fun m w cs => match m with
                   | Ok s => holding inv (fun j => exists q, answered j id name q s) any w cs
                   | Err _ => inv w cs
                   end).
Proof.
  unfold deliver_output. eapply spec_try; [exact load_upload|intros found|done].
  apply spec_pure; [by destruct found|]. intros saved [= Hfound]%ok_or_Ok_inv. subst found.
  apply spec_pure; intros u Hu.
  { intros cs. by destruct (List.find _ _). }
  apply ok_or_Ok_inv in Hu. rewrite Hu. apply List.find_some in Hu as [_ Hn].
  apply bool_decide_eq_true in Hn.
  destruct (ou_response u) as [s|] eqn:Hs.
  { apply spec_ret. intros w cs (Hw & (_ & _ & Ha) & _). split_and!; [done|by apply Ha|done]. }
  eapply (spec_bind_ok _ _ _ _ _ (fun q => holding inv (fun j => finalized j id name q) any) (fun _ => inv));
    [|done|intros q].
  { destruct (ou_finalization u) as [q|] eqn:Hq.
    - apply spec_ret. intros w cs (Hw & (_ & Hf & _) & _). split_and!; [done|by apply Hf|done].
    - eapply spec_conseq; [exact (upload_output_spec source (ou_declaration u) Hn)| |by intros []].
      intros w cs (Hw & (Hd & _) & Hun). split_and!; [done..|by apply Hun]. }
  eapply (spec_try _ _ _ _ _ _ (fun _ => holding inv (fun j => finalized j id name q) any));
    [|intros s|done].
  { eapply spec_conseq; [apply (client_rule en inv inv_sound (delivery_inv_keeps id name) en_tame (delivery_inv_answers id name)
      (validate_finalization q) (FinalizeUpload q) (finalize_upload q)
      (fun j => finalized j id name q) any any)|done|].
    - apply lasting_finalized.
    - done.
    - done.
    - intros w cs (Hw & Hf & _). split; [|done]. apply delivery_inv_call; [done|done|].
      by intros q' [= <-].
    - intros [s|e] w cs Hh; [exact Hh|apply Hh]. }
  eapply (spec_try _ _ _ _ _ _ (fun _ => holding inv (fun j => exists q, answered j id name q s) any));
    [|intros []; by apply spec_ret|done].
  eapply spec_conseq; [apply (journal_rule en inv inv_sound (delivery_inv_keeps id name) en_tame
    (record_output_response q s) (fun j => finalized j id name q) any
    (fun m j => m = Ok tt -> answered j id name q s))|done|].
  - apply record_output_response_preserves, attempt_names.
  - apply lasting_finalized.
  - intros m j j' Hk Ha Hm. by eapply answered_keeps; [|apply Ha].
  - intros j m j' Hj Hf Hm ->. by eapply (record_response_Ok attempt_names).
  - intros [[]|e] w cs (Hw & [_ Ha] & _); [|done]. split_and!; [done| |done]. exists q. by apply Ha.
Qed.
End Outputs.

(** * Properties *)

Section OutputProperties.
Context {S H : Type} {ops : RecordStore S} {laws : RecordStoreLaws S}.
Context {lib : Libraries} {lib_laws : LibraryLaws} {http : HttpLibraries}.
Context (attempt_names : forall id, rs_name (attempt_file id)).

(** One try at a delivery: its environment, how many awaits complete before it
    is dropped, whether the file is at hand, and what happened to the worker
    since the previous try (other operations, or a restart). *)
Record try := {
  tr_env : env (Worker S) (effect H);
  tr_authority : SupervisedAuthority;
  tr_left : nat;
  tr_source : bool;
  tr_since : Worker S -> Worker S;
}.

Definition harmless (t : try) : Prop :=
  tame (tr_env t)
  /\ forall w, sound (wk_journal w) -> keeps_evidence (wk_journal w) (wk_journal (tr_since t w)).

Definition begin_try (t : try) (w : Worker S) (cs : list (some_call (effect H)))
  : exec (Worker S) (effect H) :=
  {| ex_state := tr_since t w; ex_authority := tr_authority t; ex_clock := 0;
     ex_left := tr_left t; ex_calls := cs |}.

(** Deliveries of one output, one after the other. *)
Fixpoint deliveries (c : TransferClient) (id name : string) (tries : list try) (w : Worker S)
  (cs : list (some_call (effect H))) : Worker S * list (some_call (effect H)) :=
  match tries with
  | [] => (w, cs)
  | t :: tries' =>
      let r := snd (deliver_output c id name (tr_source t) (tr_env t) (begin_try t w cs)) in
      deliveries c id name tries' (ex_state r) (ex_calls r)
  end.

Lemma deliveries_inv (c : TransferClient) (id name : string) (tries : list try) (w w' : Worker S)
  (cs cs' : list (some_call (effect H))) :
  Forall harmless tries -> delivery_inv id name w cs ->
  deliveries c id name tries w cs = (w', cs') -> delivery_inv id name w' cs'.
Proof.
  revert w cs. induction tries as [|t tries IH]; intros w cs Ht Hi Hd; simpl in Hd; [by simplify_eq|].
  apply Forall_cons in Ht as [[Htame Hsince] Ht]. eapply IH; [done| |exact Hd].
  assert (Hi' : delivery_inv id name (tr_since t w) cs).
  { eapply delivery_inv_keeps; [|done]. by apply Hsince, (di_sound _ _ _ _ Hi). }
  pose proof (deliver_output_spec id name c attempt_names (tr_env t) Htame (tr_source t)
    (begin_try t w cs) Hi') as Hspec.
  destruct (deliver_output _ _ _ _ _ _) as [[[s|e]|] r]; simpl; [by destruct Hspec|done|done].
Qed.

(** C27: an output is finalized as one version, whatever happens.  Over any
    number of deliveries, each dropped at any await or ended by any failure,
    with other tasks and restarts in between: every FinalizeUpload call ever
    sent for the output is the same request, that request is on record before it
    is sent, and no PUT is made after one was sent, so that no later object
    version can invalidate it. *)
Theorem an_output_has_one_version (c : TransferClient) (id name : string) (tries : list try)
  (w w' : Worker S) (cs : list (some_call (effect H))) :
  sound (wk_journal w) -> Forall harmless tries -> deliveries c id name tries w [] = (w', cs) ->
  (forall q, q ∈ finalizations cs -> finalized (wk_journal w') id name q)
  /\ (forall q q', q ∈ finalizations cs -> q' ∈ finalizations cs -> q = q')
  /\ (forall cs1 put cs2, cs = cs1 ++ put :: cs2 -> is_put put = true -> finalizations cs1 = []).
Proof.
  intros Hs Ht Hd. destruct (deliveries_inv _ _ _ _ _ _ _ _ Ht (ltac:(split; [done|set_solver|by intros []])
    : delivery_inv id name w []) Hd) as [Hs' Hf Ho].
  split_and!; [done| |done]. intros q q' Hq Hq'.
  destruct (Hf q Hq) as (r & u & Hr & Hu & Hn & Hfin).
  destruct (Hf q' Hq') as (r' & u' & Hr' & Hu' & Hn' & Hfin').
  assert (r' = r) as -> by congruence.
  destruct (validated_outputs _ _ _ (sound_stored _ _ _ Hs' Hr)) as (Hnames & _).
  assert (u = u') as <- by (apply Hnames; congruence). congruence.
Qed.

(** A delivered output is durable: when [deliver_output] returns an
    artifact, the journal has it as the answer to the finalization of that
    output, whatever the transport answered and other tasks did meanwhile. *)
Theorem delivered_output_is_durable (c : TransferClient) (id name : string) (source : bool)
  (en : env (Worker S) (effect H)) (r r' : exec (Worker S) (effect H)) (s : FinalizeUploadResponse) :
  sound (wk_journal (ex_state r)) -> ex_calls r = [] -> tame en ->
  deliver_output c id name source en r = (Some (Ok s), r') ->
  exists q, answered (wk_journal (ex_state r')) id name q s.
Proof.
  intros Hs Hc Ht Hd. pose proof (deliver_output_spec id name c attempt_names en Ht source r) as Hspec.
  rewrite Hd in Hspec. apply Hspec. split; [done|rewrite Hc; set_solver|]. rewrite Hc. by intros [].
Qed.
End OutputProperties.

(** ** Witness: the first delivery is dropped while the finalization is in
    flight, the second has no local file *)

Definition declared_journal : Journal Directory :=
  (prepare_output attempt_fixture "model" 5 (hex (flat_digest [])) finished_journal).2.

Lemma declared_journal_sound : sound declared_journal.
Proof.
  apply (preserves_snd (prepare_output attempt_fixture "model" 5 (hex (flat_digest []))));
    [apply (prepare_output_plan_preserves attempt_file_name)|apply finished_journal_sound].
Qed.

Definition granted_upload : string := "00000000-0000-0000-0000-000000000006".

Definition granted_key : string :=
  upload_key "00000000-0000-0000-0000-000000000007" identity_fixture granted_upload.

#[local] Instance key_http : HttpLibraries :=
  {| http_url := fun _ => Some (key_url granted_key); http_header_name := Some;
     http_header_value := fun _ => true |}.

Definition storing (n : nat) (X : Type) (e : effect string X) : X :=
  match e in effect _ X return X with
  | CreateUpload _ =>
      Delivered {| cr_upload_id := granted_upload; cr_object_key := granted_key;
                   cr_upload_url := "https://storage.example/"; cr_required_headers := ∅;
                   cr_expires_unix_ms := 60000; cr_parts := []; cr_part_size_bytes := 0;
                   cr_part_count := 0 |}
  | PutObject _ _ => upload_io
  | FinalizeUpload q => Delivered {| fr_artifact_id := "00000000-0000-0000-0000-00000000000e";
                                     fr_object := fu_object q |}
  | e => outage e
  end.

Definition storing_env : env (Worker Directory) (effect string) := quiet_env storing unseen (Err Clock).

Definition storage_client : TransferClient := {| tc_allow_loopback_http := false |}.

Definition try_fixture (left : nat) (source : bool) : try :=
  {| tr_env := storing_env; tr_authority := idle_authority; tr_left := left; tr_source := source;
     tr_since := fun w => w |}.

Definition upload_tries : list (try (S := Directory) (H := string)) :=
  [try_fixture 5 true; try_fixture 9 false].

Definition upload_worker : Worker Directory :=
  {| wk_journal := declared_journal; wk_assembler := idle_assembler |}.

Definition upload_run : Worker Directory * list (some_call (effect string)) :=
  deliveries storage_client attempt_fixture "model" upload_tries upload_worker [].

Lemma try_fixture_harmless (left : nat) (source : bool) : harmless (try_fixture left source).
Proof. split; [apply quiet_env_tame|]. intros w. apply keeps_evidence_refl. Qed.

Lemma an_output_has_one_version_witness :
  length (finalizations upload_run.2) = 2%nat
  /\ forall q q', q ∈ finalizations upload_run.2 -> q' ∈ finalizations upload_run.2 -> q = q'.
Proof.
  split; [vm_compute; reflexivity|].
  refine (proj1 (proj2 (an_output_has_one_version attempt_file_name storage_client attempt_fixture "model"
    upload_tries upload_worker upload_run.1 upload_run.2 _ _ _))).
  - apply declared_journal_sound.
  - do 2 (apply Forall_cons; split; [apply try_fixture_harmless|]). constructor.
  - exact (surjective_pairing upload_run).
Defined.

Definition upload_start : exec (Worker Directory) (effect string) :=
  begin_try (try_fixture 9 true) upload_worker [].

Definition artifact_fixture : FinalizeUploadResponse :=
  {| fr_artifact_id := "00000000-0000-0000-0000-00000000000e";
     fr_object := Some {| ov_key := granted_key; ov_version_id := "v1"; ov_size_bytes := 5;
                          ov_sha256 := hex (flat_digest []) |} |}.

Definition upload_end : exec (Worker Directory) (effect string) :=
  (deliver_output storage_client attempt_fixture "model" true storing_env upload_start).2.

Lemma delivered_output_is_durable_witness :
  exists q, answered (wk_journal (ex_state upload_end)) attempt_fixture "model" q artifact_fixture.
Proof.
  apply (delivered_output_is_durable attempt_file_name storage_client attempt_fixture "model" true
    storing_env upload_start upload_end artifact_fixture).
  - apply declared_journal_sound.
  - reflexivity.
  - apply quiet_env_tame.
  - vm_compute. reflexivity.
Defined.
