(* ===== verification/Launch.v ===== *)
(** Launch and supervised execution of one attempt ([rust/worker/src/launch.rs],
    [rust/worker/src/launch/run.rs]).

    Each [async fn] is a task over the shared journal.  The mutable locals of
    [launch_inner] that its error path reads, [handle] and [create_attempted], say
    how far the launch came: it is split where they are assigned. *)

From S2P Require Import Prelude Strings Os Protocol Lease Control Renew Supervisor LogSpool.
From S2P Require Import LogCapture LogAssembler.
From S2P Require Import Execution Uploads Phase Completion RecordStore JournalFiles JournalRecord.
From S2P Require Import Codec Journal JournalSession JournalEvidence JournalFacts Delivery.
From S2P Require Import RuntimeConfig LogLive Async Transfer Effects.
Open Scope N_scope.

Inductive LaunchCause : Type :=
| CauseIdentity
| CauseJournal (e : JournalError.t)
| CauseControl (e : ClientError)
| CauseRuntime (e : RuntimeError.t)
| CauseAuthority (reason : StopReason)
| UnexpectedPhase.

Inductive CleanupEvidence : Type := NotCreated | StoppedEvidence | Uncertain.

Record LaunchError := {
  le_cause : LaunchCause;
  le_cleanup : CleanupEvidence;
}.

Record LaunchInput := {
  li_assignment : Assignment;
  li_execution : ExecutionSpec;
  li_capture_logs : bool;
}.

Definition OBSERVATION_PERIOD : Duration := from_millis 100.

(** [FinalizingAttempt] without its authority, which stays with the execution. *)
Record FinalizingAttempt (H : Type) := {
  fa_handle : H;
  fa_identity : AttemptAuthority;
  fa_exit : ExitEvidence;
  fa_deadline : PhaseDeadline;
  fa_workspace : string;
  fa_capture : option (result LiveLogError LiveCapture);
}.
Arguments fa_handle {H} f.
Arguments fa_identity {H} f.
Arguments fa_exit {H} f.
Arguments fa_deadline {H} f.
Arguments fa_workspace {H} f.
Arguments fa_capture {H} f.

Definition owns_workspace {H : Type} (f : FinalizingAttempt H) (workspace : PreparedWorkspace) : bool :=
  bool_decide (fa_workspace f = pw_root workspace).

Inductive ExecutionError : Type :=
| LaunchFailed (e : LaunchError)
| AfterLaunch (cause : LaunchCause) (cleanup : CleanupEvidence).

(** [Path::file_name] of a canonical path, as a string. *)
Definition file_name (path : string) : option string :=
  match last (split_on "/"%char path) with
  | Some name => if is_empty_str name || bool_decide (name = ".."%string) then None else Some name
  | None => None
  end.

(** A container that runs, or has run to a reported exit. *)
Definition exited (status : ContainerStatus) : bool :=
  negb (running status)
  && (bool_decide (container_state status = ContainerState.Exited)
      || bool_decide (container_state status = ContainerState.Dead))
  && match exit_code status with
     | Some code => ((0 <=? code) && (code <=? 255))%Z
     | None => false
     end.

Definition is_running (status : ContainerStatus) : bool :=
  running status && bool_decide (container_state status = ContainerState.Running).

(** Errors after which the container may still have started. *)
Definition start_uncertain (e : RuntimeError.t) : bool :=
  match e with
  | RuntimeError.Transport | RuntimeError.Deadline | RuntimeError.Terminal => true
  | RuntimeError.Daemon code => (code =? 304) || (code =? 409) || in_range 500 599 code
  | _ => false
  end.

Definition refusal (d : Decision_.t) : bool :=
  match d with
  | Decision_.Fenced | Decision_.StopRequested | Decision_.AlreadyTerminal => true
  | _ => false
  end.

(** [as i32]. *)
Definition i32_of_i64 (x : Z) : Z := ((x + 2147483648) mod 4294967296 - 2147483648)%Z.

Section Launch.
Context {S H : Type} {ops : RecordStore S} {lib : Libraries}.
(** [Runtime::container_id]. *)
Context (container_id : H -> string).

Abbreviation T := (task (Worker S) (effect H)).

(** [while_live(..).await??]. *)
Definition under {A : Type} (t : T (result LaunchCause A)) : T (result LaunchCause A) :=
  let& r := while_live t in
  tret (match r with Ok m => m | Err reason => Err (CauseAuthority reason) end).

(** * Termination *)

Definition kill_and_confirm (h : H) : T bool :=
  let& _ := call (Timeout CLEANUP_BUDGET (RuntimeKill h)) in
  let& inspected := call (Timeout CLEANUP_BUDGET (RuntimeInspect h)) in
  tret (match inspected with
        | Some (Ok status) => negb (running status) && at_rest (container_state status)
        | Some (Err (RuntimeError.Daemon 404)) => true
        | _ => false
        end).

Definition stop_then_kill (h : H) (requested_grace : N) (remaining : Duration) : T bool :=
  let available := saturating_sub remaining (CLEANUP_BUDGET * 3) in
  let grace := N.min requested_grace (N.min (as_secs available) 300) in
  if 0 <? grace then
    let& stopped := call (Timeout (from_secs grace + CLEANUP_BUDGET) (RuntimeStop h grace)) in
    match stopped with
    | Some (Ok tt) => tret true
    | _ => kill_and_confirm h
    end
  else kill_and_confirm h.

Definition terminate_for_cause (h : H) (cause : LaunchCause) (grace_seconds : N) : T bool :=
  match cause with
  | CauseAuthority (StopRejected Decision_.StopRequested) =>
      let& sa := authority in
      let& now := ask MonoClock in
      stop_then_kill h (wrap32 grace_seconds) (remaining_for_cleanup sa now)
  | _ => kill_and_confirm h
  end.

(** * Launch *)

(** One turn of the loop that reports STARTING. *)
Definition starting_turn (starting : ReportPhaseRequest) (_ : unit)
  : T (unit + result LaunchCause unit) :=
  let& r := while_live (client_phase starting) in
  match r with
  | Err reason => tret (inr (Err (CauseAuthority reason)))
  | Ok (Ok status) =>
      if bool_decide (ph_decision status = Decision_.Accepted)
         && bool_decide (ph_state status = AttemptState.Starting)
      then tret (inr (Ok tt))
      else if refusal (ph_decision status)
      then tret (inr (Err (CauseAuthority (StopRejected (ph_decision status)))))
      else tret (inr (Err UnexpectedPhase))
  | Ok (Err e) =>
      if retryable e then
        let& slept := while_live (call (Sleep (from_secs 1))) in
        match slept with
        | Err reason => tret (inr (Err (CauseAuthority reason)))
        | Ok _ => tret (inl tt)
        end
      else tret (inr (Err (CauseControl e)))
  end.

(** Up to [create_attempted = true]: the durable STARTING report is accepted. *)
Definition launch_prepare (input : LaunchInput) (session : WorkerSession)
  (workspace : PreparedWorkspace) : T (result LaunchCause (AttemptAuthority * AuthorityWindow)) :=
  let&? identity := tret (ok_or (as_authority (li_assignment input)) CauseIdentity) in
  let& sa := authority in
  if negb (bool_decide (identity = sa_identity sa))
     || negb (bool_decide (aa_worker_id identity = ws_worker_id session))
     || negb (bool_decide (aa_session_id identity = ws_session_id session))
     || negb (bool_decide (file_name (pw_root workspace) = Some (aa_attempt_id identity)))
  then tret (Err CauseIdentity)
  else
    let&? starting := under (tmap_err CauseJournal
                         (journal (prepare_launch (li_assignment input) session))) in
    let&? _ := loop (starting_turn starting) tt in
    let&? w := tmap_err CauseAuthority authority_window in
    tret (Ok (identity, w)).

(** From the created container to one seen running or exited. *)
Definition launch_start (identity : AttemptAuthority) (container : H) : T (result LaunchCause unit) :=
  let&? _ := under (tmap_err CauseJournal
                      (journal (bind_container (aa_attempt_id identity) (container_id container)))) in
  let&? w := tmap_err CauseAuthority authority_window in
  let&? started := tmap_err CauseAuthority (while_live (call (RuntimeStart container w))) in
  let&? _ := tret (match started with
                   | Err e => if start_uncertain e then Ok tt else Err (CauseRuntime e)
                   | Ok _ => Ok tt
                   end) in
  let&? status := under (tmap_err CauseRuntime (call (RuntimeInspect container))) in
  tret (if negb (is_running status) && negb (exited status) then Err (CauseRuntime RuntimeError.Terminal)
        else Ok tt).

Definition launch_inner (input : LaunchInput) (session : WorkerSession)
  (workspace : PreparedWorkspace) : T (result LaunchError H) :=
  let& prepared := launch_prepare input session workspace in
  match prepared with
  | Err cause => tret (Err {| le_cause := cause; le_cleanup := NotCreated |})
  | Ok (identity, w) =>
      let& created := under (tmap_err CauseRuntime
                        (call (RuntimeCreate identity (li_execution input) workspace w))) in
      match created with
      | Err cause => tret (Err {| le_cause := cause; le_cleanup := Uncertain |})
      | Ok container =>
          let& started := launch_start identity container in
          match started with
          | Ok _ => tret (Ok container)
          | Err cause =>
              let& stopped := terminate_for_cause container cause
                (js_termination_grace_seconds (job_spec (es_job (li_execution input)))) in
              tret (Err {| le_cause := cause;
                           le_cleanup := if stopped then StoppedEvidence else Uncertain |})
          end
      end
  end.

Definition launch (assignment : Assignment) (execution : ExecutionSpec) (session : WorkerSession)
  (workspace : PreparedWorkspace) : T (result LaunchError H) :=
  launch_inner {| li_assignment := assignment; li_execution := execution; li_capture_logs := false |}
    session workspace.

(** * Supervised execution *)

(** [SupervisedAuthority::refresh] on an observer's copy of the authority.  Its
    wait ends with a change of the channel or with the timer. *)
Definition refresh_turn (revision : N) (sa : SupervisedAuthority)
  : T (SupervisedAuthority + result StopReason AuthorityWindow) :=
  let& l := observe in
  let& w1 := observe in
  let& w2 := observe in
  match refresh_poll revision l w1 w2 sa with
  | (Some res, _) => tret (inr res)
  | (None, sa') =>
      let remaining := match fst (check_at l sa) with Ok d => d | Err _ => 0 end in
      let& _ := call (Sleep (N.min remaining OBSERVATION_TICK)) in
      tret (inl sa')
  end.

Definition refresh (sa : SupervisedAuthority) : T (result StopReason AuthorityWindow) :=
  let& l := observe in
  let '(requested, sa') := refresh_request l sa in
  let&? '(revision, _) := tret requested in
  let& _ := ask (RequestRefresh revision) in
  loop (refresh_turn revision) sa'.

Definition report_turn (request : ReportPhaseRequest) (phase : AttemptState.t) (_ : unit)
  : T (unit + result LaunchCause unit) :=
  let& r := client_phase request in
  match r with
  | Ok status =>
      if bool_decide (ph_decision status = Decision_.Accepted) && bool_decide (ph_state status = phase)
      then tret (inr (Ok tt))
      else if refusal (ph_decision status)
      then tret (inr (Err (CauseAuthority (StopRejected (ph_decision status)))))
      else tret (inr (Err UnexpectedPhase))
  | Err e =>
      if retryable e then let& _ := call (Sleep (from_secs 1)) in tret (inl tt)
      else tret (inr (Err (CauseControl e)))
  end.

Definition report (identity : AttemptAuthority) (phase : AttemptState.t) (observer : SupervisedAuthority)
  : T (result LaunchCause unit) :=
  let&? request := tmap_err CauseJournal (journal (prepare_phase (aa_attempt_id identity) phase)) in
  let&? _ := loop (report_turn request phase) tt in
  let&? _ := tmap_err CauseAuthority (refresh observer) in
  tret (Ok tt).

Definition observe_turn (h : H) (_ : unit) : T (unit + result LaunchCause ContainerStatus) :=
  let& r := call (RuntimeInspect h) in
  match r with
  | Err e => tret (inr (Err (CauseRuntime e)))
  | Ok status =>
      if exited status then tret (inr (Ok status))
      else if negb (running status) || negb (bool_decide (container_state status = ContainerState.Running))
      then tret (inr (Err (CauseRuntime RuntimeError.Terminal)))
      else let& _ := call (Sleep OBSERVATION_PERIOD) in tret (inl tt)
  end.

Definition observe_exit (h : H) : T (result LaunchCause ContainerStatus) := loop (observe_turn h) tt.

Definition local_deadline (seconds : N) : T (result LaunchCause PhaseDeadline) :=
  let& now := ask MonoClock in
  tret (map_err (fun _ => CauseAuthority AuthorityExpired) (phase_start now seconds)).

(** The check of [bounded] between polls. *)
Definition check_deadline (deadline : PhaseDeadline) (now : reading) (_ : unit)
  : result StopReason Duration * unit :=
  (map_err (fun _ => AuthorityExpired) (phase_remaining deadline now), tt).

Definition before_deadline {A : Type} (deadline : PhaseDeadline) (t : T A) : T (result StopReason A) :=
  fun en r =>
    tmap fst (guarded (check_deadline deadline) (en_deadline en (ex_clock r)) tt t) en r.

Definition bounded {A : Type} (deadline : PhaseDeadline) (t : T A) : T (result StopReason A) :=
  let& r := while_live (before_deadline deadline t) in
  tret (match r with Ok m => m | Err reason => Err reason end).

(** [bounded(..).await??]. *)
Definition bounded_try {A : Type} (deadline : PhaseDeadline) (t : T (result LaunchCause A))
  : T (result LaunchCause A) :=
  let& r := bounded deadline t in
  tret (match r with Ok m => m | Err reason => Err (CauseAuthority reason) end).

(** RUNNING is reported while the runtime is observed: a fast exit may bypass
    the report. *)
Definition running_or_exit (h : H) (identity : AttemptAuthority) (observer : SupervisedAuthority)
  : T (result LaunchCause (option ContainerStatus)) :=
  let& x := select (observe_exit h) (report identity AttemptState.Running observer) in
  tret (match x with
        | inl observed => let? status := observed in Ok (Some status)
        | inr reported => let? _ := reported in Ok None
        end).

Definition wait_for_exit (h : H) (identity : AttemptAuthority) (execution_seconds : N)
  : T (result LaunchCause ContainerStatus) :=
  let&? first := under (tmap_err CauseRuntime (call (RuntimeInspect h))) in
  if exited first then tret (Ok first)
  else if is_running first then
    let&? deadline := local_deadline execution_seconds in
    let& observer := authority in
    let&? early_exit := bounded_try deadline (running_or_exit h identity observer) in
    match early_exit with
    | Some status => tret (Ok status)
    | None => under (observe_exit h)
    end
  else tret (Err (CauseRuntime RuntimeError.Terminal)).

(** The exit is durable before FINALIZING is reported. *)
Definition record_and_report (identity : AttemptAuthority) (exit : ExitEvidence)
  (observer : SupervisedAuthority) : T (result LaunchCause unit) :=
  let&? _ := tmap_err CauseJournal
               (journal (record_exit (aa_attempt_id identity) (ev_exit_code exit) (ev_oom_killed exit))) in
  report identity AttemptState.Finalizing observer.

Definition supervised (h : H) (identity : AttemptAuthority) (execution_seconds finalization_seconds : N)
  : T (result LaunchCause (ExitEvidence * PhaseDeadline)) :=
  let&? status := wait_for_exit h identity execution_seconds in
  let&? code := tret (ok_or (exit_code status) (CauseRuntime RuntimeError.Terminal)) in
  let exit := {| ev_exit_code := i32_of_i64 code; ev_oom_killed := oom_killed status |} in
  let&? deadline := local_deadline finalization_seconds in
  let& observer := authority in
  let&? _ := bounded_try deadline (record_and_report identity exit observer) in
  tret (Ok (exit, deadline)).

(** [Err] on the outside is a [JoinError]. *)
Definition flatten_capture (joined : result unit (result LiveLogError LiveCapture))
  : result LiveLogError LiveCapture :=
  match joined with
  | Ok captured => captured
  | Err _ => Err CaptureFailed
  end.

(** The end of the collector and of the publisher once the outcome is known. *)
Definition settle_publisher (finished published : bool) : T unit :=
  if published then
    let& _ := ask (if finished then StopPublisher else AbortPublisher) in
    call JoinPublisher
  else tret tt.

Definition settle_capture (finished : bool) : T (result LiveLogError LiveCapture) :=
  if finished then
    let& early := ask EarlyCapture in
    match early with
    | Some joined => tret (flatten_capture joined)
    | None =>
        let& joined := call (Timeout (from_secs 2) JoinCapture) in
        match joined with
        | Some joined => tret (flatten_capture joined)
        | None => let& _ := ask AbortCapture in tret (Err CaptureFailed)
        end
    end
  else let& _ := ask AbortCapture in tret (Err CaptureFailed).

Definition with_capture {A : Type} (h : H) (capture_logs published : bool)
  (outcome : T (result LaunchCause A))
  : T (result LaunchCause A * option (result LiveLogError LiveCapture)) :=
  if capture_logs then
    let& taken := call (TakeCapture h) in
    match taken with
    | Some (Ok _) =>
        let& result := outcome in
        let& _ := settle_publisher (is_ok result) published in
        let& captured := settle_capture (is_ok result) in
        tret (result, Some captured)
    | Some (Err e) => let& result := outcome in tret (result, Some (Err e))
    | None => let& result := outcome in tret (result, Some (Err CaptureFailed))
    end
  else let& result := outcome in tret (result, None).

(** [published] says whether a live publisher is given. *)
Definition execute_inner_impl (input : LaunchInput) (session : WorkerSession)
  (workspace : PreparedWorkspace) (published : bool) : T (result ExecutionError (FinalizingAttempt H)) :=
  let& sa := authority in
  let identity := sa_identity sa in
  let s := job_spec (es_job (li_execution input)) in
  let&? h := tmap_err LaunchFailed (launch_inner input session workspace) in
  let& '(outcome, capture) := with_capture h (li_capture_logs input) published
    (supervised h identity (to_execution_seconds (js_timeouts s))
       (to_finalization_seconds (js_timeouts s))) in
  match outcome with
  | Ok (exit, deadline) =>
      tret (Ok {| fa_handle := h; fa_identity := identity; fa_exit := exit; fa_deadline := deadline;
                  fa_workspace := pw_root workspace; fa_capture := capture |})
  | Err cause =>
      let& stopped := terminate_for_cause h cause (js_termination_grace_seconds s) in
      tret (Err (AfterLaunch cause (if stopped then StoppedEvidence else Uncertain)))
  end.

Definition execute (assignment : Assignment) (execution : ExecutionSpec) (session : WorkerSession)
  (workspace : PreparedWorkspace) : T (result ExecutionError (FinalizingAttempt H)) :=
  execute_inner_impl {| li_assignment := assignment; li_execution := execution;
                        li_capture_logs := false |} session workspace false.

Definition execute_with_logs (assignment : Assignment) (execution : ExecutionSpec)
  (session : WorkerSession) (workspace : PreparedWorkspace)
  : T (result ExecutionError (FinalizingAttempt H)) :=
  execute_inner_impl {| li_assignment := assignment; li_execution := execution;
                        li_capture_logs := true |} session workspace true.

Lemma within_bounded {A : Type} (n : nat) (d : PhaseDeadline) (t : T A) :
  within n t -> within n (bounded d t).
Proof.
  intros Ht. unfold bounded. apply (within_then n 0); [|lia|intros r; apply within_ret].
  apply within_while_live. intros en r. apply (within_map n fst). by apply within_guarded.
Qed.
End Launch.
