(* ===== verification/LaunchFacts.v ===== *)
(** What launching and executing an attempt leaves in the journal and in the log
    of calls: a container is created at most once however often the launch is
    repeated, it is started only after its identity is durable, and execution
    that ends well has its exit and its FINALIZING report on record. *)

From S2P Require Import Prelude Os Protocol Lease Control Renew Supervisor LogSpool LogCapture LogAssembler.
From S2P Require Import Execution Uploads Phase Completion RecordStore JournalFiles JournalRecord.
From S2P Require Import Codec Journal JournalSession JournalEvidence JournalFacts Delivery.
From S2P Require Import RuntimeConfig LogLive Async Transfer Effects Launch.
Open Scope N_scope.

Section Log.
Context {H : Type}.

Abbreviation log := (list (some_call (effect H))).

Definition is_create (c : some_call (effect H)) : bool :=
  match c with
  | Call (RuntimeCreate _ _ _ _) => true
  | _ => false
  end.

Definition start_of (c : some_call (effect H)) : option H :=
  match c with
  | Call (RuntimeStart h _) => Some h
  | _ => None
  end.

Definition phase_of (c : some_call (effect H)) : option ReportPhaseRequest :=
  match c with
  | Call (ReportPhase q) => Some q
  | _ => None
  end.

Definition creates (cs : log) : nat := List.length (List.filter is_create cs).
Definition starts (cs : log) : list H := omap start_of cs.
Definition phases (cs : log) : list ReportPhaseRequest := omap phase_of cs.

Lemma creates_app (cs : log) (c : some_call (effect H)) :
  creates (cs ++ [c]) = (creates cs + if is_create c then 1 else 0)%nat.
Proof. unfold creates. rewrite List.filter_app, length_app. simpl. by destruct (is_create c). Qed.

Lemma starts_app (cs : log) (c : some_call (effect H)) :
  starts (cs ++ [c]) = starts cs ++ option_list (start_of c).
Proof. unfold starts. rewrite omap_app. simpl. by destruct (start_of c). Qed.

Lemma phases_app (cs : log) (c : some_call (effect H)) :
  phases (cs ++ [c]) = phases cs ++ option_list (phase_of c).
Proof. unfold phases. rewrite omap_app. simpl. by destruct (phase_of c). Qed.

(** A call that is no creation, no start and no phase report. *)
Definition silent {X : Type} (e : effect H X) : bool :=
  negb (is_create (Call e)) && is_none (start_of (Call e)) && is_none (phase_of (Call e)).

Lemma silent_app {X : Type} (e : effect H X) (cs : log) :
  silent e = true ->
  creates (cs ++ [Call e]) = creates cs /\ starts (cs ++ [Call e]) = starts cs
  /\ phases (cs ++ [Call e]) = phases cs.
Proof.
  unfold silent. rewrite creates_app, starts_app, phases_app.
  destruct (is_create _), (start_of _), (phase_of _); try done. simpl.
  rewrite !app_nil_r, Nat.add_0_r. done.
Qed.

(** Answers are none of the three. *)
Lemma answer_app {X : Type} (e : effect H X) (x : X) (cs : log) :
  creates (cs ++ [Answer e x]) = creates cs /\ starts (cs ++ [Answer e x]) = starts cs
  /\ phases (cs ++ [Answer e x]) = phases cs.
Proof. rewrite creates_app, starts_app, phases_app. simpl. by rewrite !app_nil_r, Nat.add_0_r. Qed.
End Log.

(** * Journal operations of a launch *)

Section Operations.
Context {S : Type} {ops : RecordStore S} {laws : RecordStoreLaws S}.
Context {lib : Libraries} {lib_laws : LibraryLaws}.

Abbreviation begun id := (on_record (S := S) id (fun r => rc_phase_reports r <> [])).
Abbreviation bound id c := (on_record (S := S) id (fun r => rc_container_id r = c /\ c <> EmptyString)).
Abbreviation ended id e := (on_record (S := S) id (fun r => rc_exit r = Some e)).
Abbreviation reported id q := (on_record (S := S) id (fun r => q ∈ rc_phase_reports r)).

Lemma lasting_begun (id : string) : lasting (begun id).
Proof.
  apply lasting_record. intros r r' He Hr. destruct (ev_phases _ _ He) as [k ->].
  by destruct (rc_phase_reports r).
Qed.

Lemma lasting_bound (id c : string) : lasting (bound id c).
Proof.
  apply lasting_record. intros r r' He [Hc Hne]. split; [|done].
  rewrite (ev_container _ _ He); [done|]. congruence.
Qed.

Lemma lasting_ended (id : string) (e : ExitEvidence) : lasting (ended id e).
Proof. apply lasting_record. intros r r' He. apply (ev_exit _ _ He). Qed.

Lemma lasting_reported (id : string) (q : ReportPhaseRequest) : lasting (reported id q).
Proof.
  apply lasting_record. intros r r' He Hq. destruct (ev_phases _ _ He) as [k ->].
  apply elem_of_app. by left.
Qed.

Lemma reported_begun (id : string) (q : ReportPhaseRequest) (j : Journal S) :
  reported id q j -> begun id j.
Proof. intros (r & Hr & Hq). exists r. split; [done|]. intros E. rewrite E in Hq. set_solver. Qed.

Context (attempt_names : forall id, rs_name (attempt_file id)).

Lemma prepare_phase_reported (id : string) (phase : AttemptState.t) (j j' : Journal S)
  (q : ReportPhaseRequest) :
  sound j -> prepare_phase id phase j = (Ok q, j') ->
  reported id q j' /\ rp_phase q = AttemptState.to_i32 phase.
Proof.
  intros Hj Hp. apply (prepare_phase_Ok attempt_names) in Hp as (r & Hr & Hq); [|done].
  apply List.find_some in Hq as [Hin Heq]. split.
  - exists r. split; [done|]. by apply list_elem_of_In.
  - by apply Z.eqb_eq.
Qed.

Context (session_name : rs_name ".session").

(** An attempt with a phase on record is not launched again. *)
Lemma prepare_launch_Ok (a : Assignment) (session : WorkerSession) (identity : AttemptAuthority)
  (j j' : Journal S) (q : ReportPhaseRequest) :
  sound j -> as_authority a = Some identity -> prepare_launch a session j = (Ok q, j') ->
  reported (aa_attempt_id identity) q j' /\ ~ begun (aa_attempt_id identity) j.
Proof.
  intros Hj Ha Hp. unfold prepare_launch in Hp. rewrite Ha in Hp. cbn [ok_or st_lift] in Hp.
  unfold st_bind at 1, st_lift at 1 in Hp. unfold st_bind at 1 in Hp.
  destruct (current_session a session j) as [[u|e] j1] eqn:E1; [|done].
  pose proof (current_session_quiet session_name a session j _ j1 Hj E1) as Hs1.
  pose proof (proj1 (same_records_preserves _ _ Hj Hs1)) as Hj1.
  unfold st_bind at 1 in Hp. destruct (load_attempt _ j1) as [[saved|e] j2] eqn:E2; [|done].
  destruct (load_attempt_keeps attempt_names _ _ _ _ Hj1 E2) as (Hj2 & _ & Hst).
  apply (load_attempt_spec attempt_names) in E2 as [_ Hsaved]; [|done].
  destruct (Hsaved _ eq_refl) as [Hfound _]. rewrite (same_records_stored _ _ _ Hs1) in Hfound.
  assert (Hk : forall j3, persist_assignment a j2 = (Ok tt, j3) -> sound j3)
    by (intros j3 E; exact (proj1 (persist_assignment_preserves attempt_names a _ _ _ Hj2 I E))).
  destruct saved as [r|]; unfold st_bind at 1 in Hp;
    destruct (persist_assignment a j2) as [[[]|e] j3] eqn:E3; try done; specialize (Hk j3 eq_refl).
  - destruct (untouched r) eqn:Hu; [|done]. cbn [negb] in Hp. split.
    + by apply (prepare_phase_reported _ _ _ _ _ Hk Hp).
    + intros (r' & Hr' & Hne). assert (r' = r) as -> by congruence. unfold untouched in Hu.
      rewrite !andb_true_iff in Hu. destruct_and!.
      by match goal with Hb : bool_decide (rc_phase_reports r = _) = true |- _ =>
        apply bool_decide_eq_true in Hb end.
  - split; [by apply (prepare_phase_reported _ _ _ _ _ Hk Hp)|]. intros (r' & Hr' & _). congruence.
Qed.

Lemma bind_container_bound (id c : string) (j j' : Journal S) :
  sound j -> bind_container id c j = (Ok tt, j') -> bound id c j'.
Proof.
  intros Hj Hb. unfold bind_container in Hb. destruct (lower_hash c) eqn:Hh; [|done]. cbn [negb] in Hb.
  assert (Hne : c <> EmptyString) by (intros ->; done).
  apply (required_bind_Ok attempt_names) in Hb as (rec & j1 & Hst & Hs & Hj1 & Hb); [|done].
  destruct (bool_decide (rc_phase_reports rec = [])); [done|].
  destruct (negb (is_empty_str _)).
  - unfold unless in Hb. case_bool_decide as E; [|done]. apply pair_equal_spec in Hb as [_ <-].
    exists rec. by rewrite (same_records_stored _ _ _ Hs).
  - destruct (negb _); [done|]. apply (save_Ok attempt_names) in Hb; [|done].
    by exists (with_container c rec).
Qed.

Lemma record_exit_ended (id : string) (code : Z) (oom : bool) (j j' : Journal S) :
  sound j -> record_exit id code oom j = (Ok tt, j') ->
  ended id {| ev_exit_code := code; ev_oom_killed := oom |} j'.
Proof.
  intros Hj Hb. unfold record_exit in Hb. destruct (negb _); [done|].
  apply (required_bind_Ok attempt_names) in Hb as (rec & j1 & Hst & Hs & Hj1 & Hb); [|done].
  destruct (is_empty_str _); [done|]. destruct (rc_exit rec) as [old|] eqn:Ho.
  - unfold unless in Hb. case_bool_decide as E; [|done]. apply pair_equal_spec in Hb as [_ <-].
    exists rec. split; [by rewrite (same_records_stored _ _ _ Hs)|congruence].
  - apply (save_Ok attempt_names) in Hb; [|done]. by exists (with_exit {| ev_exit_code := code; ev_oom_killed := oom |} rec).
Qed.
End Operations.

(** * The invariant of a launch *)

Section Launching.
Context {S H : Type} {ops : RecordStore S} {laws : RecordStoreLaws S}.
Context {lib : Libraries} {lib_laws : LibraryLaws}.
Context (container_id : H -> string) (id : string).

Abbreviation log := (list (some_call (effect H))).
Abbreviation T := (task (Worker S) (effect H)).
Abbreviation begun := (on_record (S := S) id (fun r => rc_phase_reports r <> [])).
Abbreviation bound c := (on_record (S := S) id (fun r => rc_container_id r = c /\ c <> EmptyString)).
Abbreviation ended e := (on_record (S := S) id (fun r => rc_exit r = Some e)).
Abbreviation reported q := (on_record (S := S) id (fun r => q ∈ rc_phase_reports r)).

(** Whatever interrupts a launch: every container started is on record, and so is
    every phase reported; a second creation or start needs a launch that finds no
    phase on record, so there is at most one. *)
Record launch_inv (w : Worker S) (cs : log) : Prop := {
  li_sound : sound (wk_journal w);
  li_bound : forall h, h ∈ starts cs -> bound (container_id h) (wk_journal w);
  li_reported : forall q, q ∈ phases cs -> reported q (wk_journal w);
  li_once : (creates cs = 0%nat /\ starts cs = [])
    \/ (begun (wk_journal w) /\ (creates cs <= 1)%nat /\ (List.length (starts cs) <= 1)%nat);
}.

(** ... with a fact of the journal, and the creations and starts so far. *)
Definition at_stage (F : Journal S -> Prop) (n : nat) (hs : list H) (w : Worker S) (cs : log) : Prop :=
  launch_inv w cs /\ F (wk_journal w) /\ creates cs = n /\ starts cs = hs.

Lemma stable_launch_inv : stable launch_inv.
Proof.
  split; [by intros w cs []|]. intros w w' cs Hk [Hs Hb Hr Ho]. split.
  - apply Hk.
  - intros h Hh. eapply lasting_bound; [exact Hk|by apply Hb].
  - intros q Hq. eapply lasting_reported; [exact Hk|by apply Hr].
  - destruct Ho as [?|(Hbeg & ?)]; [by left|right]. split; [|done].
    by eapply lasting_begun.
Qed.

Lemma stable_stage (F : Journal S -> Prop) (n : nat) (hs : list H) : lasting F -> stable (at_stage F n hs).
Proof.
  intros HF. split; [by intros w cs [[] _]|]. intros w w' cs Hk (Hw & Hf & Hn & Hh).
  split_and!; [by eapply (st_keeps _ stable_launch_inv)|by eapply HF|done..].
Qed.

(** Logs with the same creations, starts and reports. *)
Definition same_log (cs cs' : log) : Prop :=
  creates cs' = creates cs /\ starts cs' = starts cs /\ phases cs' = phases cs.

Lemma same_log_inv (w : Worker S) (cs cs' : log) : same_log cs cs' -> launch_inv w cs -> launch_inv w cs'.
Proof.
  intros (E1 & E2 & E3) [Hs Hb Hr Ho]. split; [done|by rewrite E2|by rewrite E3|by rewrite E1, E2].
Qed.

Lemma same_log_stage (F : Journal S -> Prop) (n : nat) (hs : list H) (w : Worker S) (cs cs' : log) :
  same_log cs cs' -> at_stage F n hs w cs -> at_stage F n hs w cs'.
Proof.
  intros Hsame (Hw & Hf & Hn & Hh). split_and!; [by eapply same_log_inv|done|..];
    destruct Hsame as (E1 & E2 & _); congruence.
Qed.

Lemma silent_launch_inv {X : Type} (e : effect H X) : silent e = true -> deaf launch_inv e.
Proof.
  intros He w cs Hw. split; [|intros x]; (eapply same_log_inv; [|exact Hw]); [by apply silent_app|apply answer_app].
Qed.

Lemma silent_stage {X : Type} (e : effect H X) (F : Journal S -> Prop) (n : nat) (hs : list H) :
  silent e = true -> deaf (at_stage F n hs) e.
Proof.
  intros He w cs Hw. split; [|intros x]; (eapply same_log_stage; [|exact Hw]); [by apply silent_app|apply answer_app].
Qed.

(** A report on record may be sent. *)
Lemma reported_stage (q : ReportPhaseRequest) (F : Journal S -> Prop) (n : nat) (hs : list H) :
  (forall j, F j -> reported q j) -> deaf (at_stage F n hs) (ReportPhase q).
Proof.
  intros Hq w cs Hw. split; [|intros x; eapply same_log_stage; [apply answer_app|exact Hw]].
  destruct Hw as ([Hs Hb Hr Ho] & Hf & Hn & Hh). unfold at_stage.
  rewrite creates_app, starts_app. simpl. rewrite Nat.add_0_r, app_nil_r.
  split_and!; [|done..]. split; [done| | |].
  - by rewrite starts_app, app_nil_r.
  - rewrite phases_app. intros p Hp. apply elem_of_app in Hp as [Hp|Hp]; [auto|].
    apply list_elem_of_singleton in Hp as ->. auto.
  - by rewrite creates_app, starts_app, Nat.add_0_r, app_nil_r.
Qed.

Lemma stage_weaken (F G : Journal S -> Prop) (n : nat) (hs : list H) (w : Worker S) (cs : log) :
  (forall j, F j -> G j) -> at_stage F n hs w cs -> at_stage G n hs w cs.
Proof. intros HFG (Hw & Hf & Hn). split_and!; auto; apply Hn. Qed.

Context (en : env (Worker S) (effect H)) (en_tame : tame en).

Lemma spec_under {A : Type} (I P : Worker S -> log -> Prop) (t : T (result LaunchCause A))
  (R : A -> Worker S -> log -> Prop) :
  (forall w cs, P w cs -> I w cs) -> (forall a w cs, R a w cs -> I w cs) ->
  spec en I P t (fun m => match m with Ok a => R a | Err _ => I end) ->
  spec en I P (under t) (fun m => match m with Ok a => R a | Err _ => I end).
Proof.
  intros HP HR Ht. unfold under.
  eapply (spec_bind _ _ _ _ _ (fun r w cs => match r with Ok (Ok a) => R a w cs | _ => I w cs end)).
  - eapply spec_while_live; [exact HP| |exact Ht| |].
    + intros [a|e] w cs Hm; [by eapply HR|done].
    + by intros [a|e].
    + done.
  - intros [[a|e]|e]; by apply spec_ret.
Qed.

Lemma keeps_under {A : Type} (P : Worker S -> log -> Prop) (t : T (result LaunchCause A)) :
  keeps en P t -> keeps en P (under t).
Proof. intros Ht. unfold under. keeping; done. Qed.

Lemma keeps_phase (q : ReportPhaseRequest) (F : Journal S -> Prop) (n : nat) (hs : list H) :
  lasting F -> (forall j, F j -> reported q j) -> keeps en (at_stage F n hs) (client_phase q).
Proof. intros HF Hq. apply keeps_checked; [done|by apply stable_stage|by apply reported_stage]. Qed.

Lemma keeps_silent {X : Type} (e : effect H X) (F : Journal S -> Prop) (n : nat) (hs : list H) :
  lasting F -> silent e = true -> keeps en (at_stage F n hs) (call e).
Proof. intros HF He. apply keeps_call; [done|by apply stable_stage|by apply silent_stage]. Qed.

Lemma keeps_starting (q : ReportPhaseRequest) (F : Journal S -> Prop) (n : nat) (hs : list H) :
  lasting F -> (forall j, F j -> reported q j) ->
  keeps en (at_stage F n hs) (loop (starting_turn q) tt).
Proof.
  intros HF Hq. unfold starting_turn. keeping; [by apply keeps_phase|by apply keeps_silent].
Qed.

Lemma keeps_terminate (h : H) (cause : LaunchCause) (grace : N) :
  keeps en launch_inv (terminate_for_cause h cause grace).
Proof.
  assert (Hc : forall X (e : effect H X), silent e = true -> keeps en launch_inv (call e))
    by (intros X e He; apply keeps_call; [done|apply stable_launch_inv|by apply silent_launch_inv]).
  assert (Hk : keeps en launch_inv (kill_and_confirm h)) by (unfold kill_and_confirm; keeping; by apply Hc).
  unfold terminate_for_cause, stop_then_kill. keeping; try done; [|by apply Hc].
  apply keeps_query. by apply silent_launch_inv.
Qed.

Context (attempt_names : forall id, rs_name (attempt_file id)).
Context (session_name : rs_name ".session").

Abbreviation any := (fun _ : Journal S => True).

(** A preparation that succeeds found nothing begun. *)
Lemma prepare_launch_spec (a : Assignment) (session : WorkerSession) (identity : AttemptAuthority)
  (n : nat) (hs : list H) :
  as_authority a = Some identity -> aa_attempt_id identity = id ->
  spec en (at_stage any n hs) (at_stage any n hs) (journal (prepare_launch a session))
    (fun r w cs => match r with
                   | Ok q => (n = 0%nat /\ hs = []) /\ at_stage (reported q) n hs w cs
                   | Err _ => at_stage any n hs w cs
                   end).
Proof.
  intros Ha Hid. apply (spec_establish en en_tame).
  - by apply stable_stage.
  - by apply prepare_launch_preserves.
  - done.
  - intros [q|e]; [|by apply stable_stage].
    pose proof (stable_stage (reported q) n hs (lasting_reported id q)) as [Hs Hk].
    split; [by intros w cs [_ Hw]; eapply Hs|]. intros w w' cs Hkeep [Hpure Hw]. split; [done|by eapply Hk].
  - intros w cs [q|e] j Hw Hj Hw'; [|done]. destruct Hw as ([Hs _ _ Ho] & _ & Hn & Hh).
    destruct (prepare_launch_Ok attempt_names session_name a session identity _ _ _ Hs Ha Hj) as [Hq Hnot].
    rewrite Hid in *. destruct Ho as [[E1 E2]|[Hb _]]; [|done]. split; [split; congruence|].
    by destruct Hw' as (? & _ & ? & ?).
Qed.

Lemma launch_prepare_spec (input : LaunchInput) (session : WorkerSession) (ws : PreparedWorkspace)
  (identity : AttemptAuthority) (n : nat) (hs : list H) :
  as_authority (li_assignment input) = Some identity -> aa_attempt_id identity = id ->
  spec en (at_stage any n hs) (at_stage any n hs) (launch_prepare input session ws)
    (fun r w cs => match r with
                   | Ok (i, _) => i = identity /\ n = 0%nat /\ hs = [] /\ at_stage begun 0 [] w cs
                   | Err _ => at_stage any n hs w cs
                   end).
Proof.
  intros Ha Hid. unfold launch_prepare. rewrite Ha. apply spec_pure; [done|]. intros i [= <-].
  eapply spec_bind; [apply (keeps_authority en)|]. intros sa.
  destruct (_ || _); [by apply spec_ret|].
  eapply (spec_bind_ok _ _ _ _ _ (fun q w cs => (n = 0%nat /\ hs = []) /\ at_stage (reported q) n hs w cs)
    (fun _ => at_stage any n hs)); [|done|].
  { apply (spec_under (at_stage any n hs)); [done| |].
    - intros q w cs [_ Hw]. by eapply stage_weaken; [|exact Hw].
    - apply spec_map. eapply spec_conseq; [by eapply prepare_launch_spec|done|]. by intros [q|e]. }
  intros q. apply spec_fact. intros [-> ->].
  eapply (spec_bind_ok _ _ _ _ _ (fun _ => at_stage (reported q) 0 []) (fun _ => at_stage any 0 []));
    [|done|].
  - eapply spec_conseq; [apply keeps_spec; [apply keeps_starting; [apply lasting_reported|done]|]|done|].
    + intros w cs. by apply stage_weaken.
    + intros [u|e] w cs Hw; [done|]. by eapply stage_weaken; [|exact Hw].
  - intros _. eapply (spec_bind_ok _ _ _ _ _ (fun _ => at_stage (reported q) 0 []) (fun _ => at_stage any 0 []));
      [apply spec_map, spec_authority_window|done|].
    + intros [win|e] w cs Hw; [done|]. by eapply stage_weaken; [|exact Hw].
    + intros win. apply spec_ret. intros w cs Hw. split_and!; [done..|].
      eapply stage_weaken; [|exact Hw]. apply reported_begun.
Qed.

(** From the created container to a started one. *)
Lemma launch_start_spec (identity : AttemptAuthority) (h : H) :
  aa_attempt_id identity = id ->
  spec en launch_inv (at_stage begun 1 []) (launch_start container_id identity h)
    (fun r => match r with
              | Ok _ => at_stage (bound (container_id h)) 1 [h]
              | Err _ => launch_inv
              end).
Proof.
  intros Hid. unfold launch_start. set (bd := bound (container_id h)).
  assert (Hlast : lasting bd) by apply lasting_bound.
  eapply (spec_bind_ok _ _ _ _ _ (fun _ => at_stage bd 1 []) (fun _ => launch_inv)); [|done|intros _].
  { apply (spec_under launch_inv); [by intros w cs []|by intros _ w cs []|]. apply spec_map.
    eapply spec_conseq; [apply (spec_establish en en_tame launch_inv (at_stage begun 1 []) _
      (fun r => match r with Ok _ => at_stage bd 1 [] | Err _ => launch_inv end))|done|by intros [?|?]].
    - apply stable_stage, lasting_begun.
    - by apply bind_container_preserves.
    - by intros w cs [].
    - intros [?|?]; [by apply stable_stage|apply stable_launch_inv].
    - intros w cs [[]|e] j Hw Hj Hw'; [|by destruct Hw']. destruct Hw as ([Hs _ _ _] & _).
      destruct Hw' as (? & _ & ? & ?). split_and!; [done| |done..]. rewrite Hid in Hj.
      by eapply bind_container_bound. }
  eapply (spec_bind_ok _ _ _ _ _ (fun _ => at_stage bd 1 []) (fun _ => launch_inv));
    [apply spec_map, spec_authority_window|done|intros win].
  { intros [win|e] w cs Hw; [done|by destruct Hw]. }
  eapply (spec_bind_ok _ _ _ _ _ (fun _ => at_stage bd 1 [h]) (fun _ => launch_inv)); [|done|intros started].
  { apply spec_map. eapply (spec_while_live en launch_inv _ _ (fun _ => at_stage bd 1 [h]));
      [by intros w cs []|by intros _ w cs []| |done|done].
    assert (Hcall : forall w cs, at_stage bd 1 [] w cs -> at_stage bd 1 [h] w (cs ++ [Call (RuntimeStart h win)])).
    { intros w cs ([Hs Hb Hr Ho] & Hbd & Hn & Hh). unfold at_stage.
      rewrite creates_app, starts_app. simpl. rewrite Hn, Hh. split_and!; [|done..]. split; [done| | |].
      - rewrite starts_app, Hh. intros x Hx. by apply list_elem_of_singleton in Hx as ->.
      - by rewrite phases_app, app_nil_r.
      - right. rewrite creates_app, starts_app, Hn, Hh. simpl. split_and!; [|lia..].
        destruct Ho as [[? _]|[? _]]; [congruence|done]. }
    apply spec_call; [by intros w cs []%Hcall|]. intros n x w cs Hw _.
    eapply (stable_others en en_tame); [by apply stable_stage|].
    eapply same_log_stage; [apply answer_app|]. by apply Hcall. }
  apply spec_pure; [by intros e w cs _ []|intros _ _].
  eapply (spec_bind_ok _ _ _ _ _ (fun _ => at_stage bd 1 [h]) (fun _ => launch_inv)); [|done|intros status].
  { eapply spec_conseq; [apply keeps_spec; [apply keeps_under, keeps_map, keeps_silent|by intros w cs []]|done|];
      [done..|]. intros [st|e] w cs Hw; [done|by destruct Hw]. }
  apply spec_ret. intros w cs Hw. destruct (_ && _); [by destruct Hw|done].
Qed.

Lemma launch_inner_spec (input : LaunchInput) (session : WorkerSession) (ws : PreparedWorkspace)
  (identity : AttemptAuthority) (n : nat) (hs : list H) :
  as_authority (li_assignment input) = Some identity -> aa_attempt_id identity = id ->
  spec en launch_inv (at_stage any n hs) (launch_inner container_id input session ws)
    (fun r => match r with
              | Ok h => at_stage (bound (container_id h)) 1 [h]
              | Err e => fun w cs => launch_inv w cs /\ (le_cleanup e = NotCreated -> creates cs = n)
              end).
Proof.
  intros Ha Hid. unfold launch_inner.
  eapply spec_bind; [eapply spec_drop; [by eapply launch_prepare_spec|by intros w cs []]|].
  intros [[i win]|cause]; [|apply spec_ret; intros w cs (? & _ & ? & _); by split].
  apply spec_fact. intros ->. apply spec_fact. intros ->. apply spec_fact. intros ->.
  eapply (spec_bind _ _ _ _ _ (fun r => match r with Ok _ => at_stage begun 1 [] | Err _ => launch_inv end)).
  { apply (spec_under launch_inv); [by intros w cs []|by intros _ w cs []|]. apply spec_map.
    assert (Hcall : forall w cs, at_stage begun 0 [] w cs -> at_stage begun 1 [] w
      (cs ++ [Call (RuntimeCreate identity (li_execution input) ws win)])).
    { intros w cs ([Hs Hb Hr Ho] & Hbd & Hn & Hh). unfold at_stage.
      rewrite creates_app, starts_app. simpl. rewrite Hn, Hh. split_and!; [|done..]. split; [done| | |].
      - rewrite starts_app, Hh. by intros x ?%elem_of_nil.
      - by rewrite phases_app, app_nil_r.
      - right. rewrite creates_app, starts_app, Hn, Hh. simpl. split_and!; [done|lia..]. }
    apply spec_call; [by intros w cs []%Hcall|]. intros k created w cs Hw _.
    assert (Hw' : at_stage begun 1 [] (en_others en k w)
      ((cs ++ [Call (RuntimeCreate identity (li_execution input) ws win)]) ++ [Answer (RuntimeCreate identity (li_execution input) ws win) created])).
    { eapply (stable_others en en_tame); [apply stable_stage, lasting_begun|].
      eapply same_log_stage; [apply answer_app|]. by apply Hcall. }
    destruct created as [h|e]; cbn [map_err]; [exact Hw'|apply Hw']. }
  intros [h|cause]; [|by apply spec_ret; intros w cs Hw; split].
  eapply spec_bind; [by apply launch_start_spec|]. intros [u|cause]; [by apply spec_ret|].
  eapply spec_bind; [apply keeps_terminate|]. intros stopped. apply spec_ret. intros w cs Hw.
  split; [done|]. by destruct stopped.
Qed.

(** ** Execution *)

Lemma spec_bounded {A : Type} (I P : Worker S -> log -> Prop) (d : PhaseDeadline) (t : T A)
  (Q : A -> Worker S -> log -> Prop) :
  (forall w cs, P w cs -> I w cs) -> (forall a w cs, Q a w cs -> I w cs) -> spec en I P t Q ->
  spec en I P (bounded d t) (fun m => match m with Ok a => Q a | Err _ => I end).
Proof.
  intros HP HQ Ht. unfold bounded.
  eapply (spec_bind _ _ _ _ _ (fun r w cs => match r with Ok (Ok a) => Q a w cs | _ => I w cs end));
    [|intros [[a|e]|e]; by apply spec_ret].
  eapply (spec_while_live en I P _ (fun m w cs => match m with Ok a => Q a w cs | Err _ => I w cs end));
    [done| | |by intros [a|e]|done].
  - intros [a|e] w cs Hm; [by eapply HQ|done].
  - intros r Hr. refine (spec_map en I P fst (guarded _ _ _ t)
      (fun m w cs => match m with Ok a => Q a w cs | Err _ => I w cs end) _ r Hr).
    by eapply (spec_guarded en _ _ _ _ I P Q).
Qed.

Lemma spec_bounded_try {A : Type} (I P : Worker S -> log -> Prop) (d : PhaseDeadline)
  (t : T (result LaunchCause A)) (R : A -> Worker S -> log -> Prop) :
  (forall w cs, P w cs -> I w cs) -> (forall a w cs, R a w cs -> I w cs) ->
  spec en I P t (fun m => match m with Ok a => R a | Err _ => I end) ->
  spec en I P (bounded_try d t) (fun m => match m with Ok a => R a | Err _ => I end).
Proof.
  intros HP HR Ht. unfold bounded_try. eapply spec_bind; [eapply (spec_bounded I P); [done| |exact Ht]|].
  - intros [a|e] w cs Hm; [by eapply HR|done].
  - intros [[a|e]|e]; by apply spec_ret.
Qed.

Lemma keeps_refresh (F : Journal S -> Prop) (n : nat) (hs : list H) (sa : SupervisedAuthority) :
  lasting F -> keeps en (at_stage F n hs) (refresh sa).
Proof.
  intros HF. unfold refresh. apply keeps_bind; [apply keeps_observe|intros l].
  destruct (refresh_request l sa) as [requested sa']. unfold refresh_turn. keeping.
  - apply keeps_query. by apply silent_stage.
  - by apply keeps_silent.
Qed.

(** A phase that is reported with success is on record. *)
Definition phase_reported (phase : AttemptState.t) (j : Journal S) : Prop :=
  exists q, reported q j /\ rp_phase q = AttemptState.to_i32 phase.

Lemma lasting_phase_reported (phase : AttemptState.t) : lasting (phase_reported phase).
Proof. intros j j' Hk (q & Hq & Hp). exists q. split; [by eapply lasting_reported|done]. Qed.

Lemma lasting_and (F G : Journal S -> Prop) : lasting F -> lasting G -> lasting (fun j => F j /\ G j).
Proof. intros HF HG j j' Hk [Hf Hg]. split; [by eapply HF|by eapply HG]. Qed.

Lemma report_spec (identity : AttemptAuthority) (phase : AttemptState.t) (sa : SupervisedAuthority)
  (F : Journal S -> Prop) (n : nat) (hs : list H) :
  aa_attempt_id identity = id -> lasting F ->
  spec en (at_stage F n hs) (at_stage F n hs) (report identity phase sa)
    (fun r => match r with
              | Ok _ => at_stage (fun j => F j /\ phase_reported phase j) n hs
              | Err _ => at_stage F n hs
              end).
Proof.
  intros Hid HF. unfold report. rewrite Hid.
  assert (HG : forall q, lasting (fun j => F j /\ reported q j))
    by (intros q; apply lasting_and; [done|apply lasting_reported]).
  assert (Hw : forall q w cs, at_stage (fun j => F j /\ reported q j) n hs w cs -> at_stage F n hs w cs)
    by (intros q w cs; apply stage_weaken; by intros j []).
  eapply (spec_bind_ok _ _ _ _ _ (fun q w cs => rp_phase q = AttemptState.to_i32 phase
    /\ at_stage (fun j => F j /\ reported q j) n hs w cs) (fun _ => at_stage F n hs)); [|done|intros q].
  { apply spec_map. eapply spec_conseq; [apply (spec_establish en en_tame (at_stage F n hs) (at_stage F n hs)
      _ (fun r w cs => match r with
         | Ok q => rp_phase q = AttemptState.to_i32 phase
             /\ at_stage (fun j => F j /\ reported q j) n hs w cs
         | Err _ => at_stage F n hs w cs end))|done|by intros [?|?]].
    - by apply stable_stage.
    - by apply prepare_phase_preserves.
    - done.
    - intros [q|e]; [|by apply stable_stage]. destruct (stable_stage _ n hs (HG q)) as [Hs Hk].
      split; [intros w cs [_ ?]; by eapply Hs|]. intros w w' cs Hkeep [? ?]. split; [done|by eapply Hk].
    - intros w cs [q|e] j Hst Hj Hst'; [|done]. destruct Hst as ([Hs _ _ _] & _).
      destruct (prepare_phase_reported attempt_names _ _ _ _ _ Hs Hj) as [Hq Hp]. split; [done|].
      destruct Hst' as (? & ? & ? & ?). by split_and!. }
  apply spec_fact. intros Hp.
  apply keeps_try; [|by apply Hw|intros e; by apply Hw|intros _].
  { unfold report_turn. keeping; [apply keeps_phase; [done|by intros j []]|by apply keeps_silent]. }
  apply keeps_try; [apply keeps_map; by apply keeps_refresh|by apply Hw|intros e; by apply Hw|intros _].
  apply spec_ret. intros w cs Hst. eapply stage_weaken; [|exact Hst]. intros j [? ?]. split; [done|]. by exists q.
Qed.

(** A container is observed without touching anything, up to a reported exit. *)
Lemma observe_exit_spec (h : H) (F : Journal S -> Prop) (n : nat) (hs : list H) :
  lasting F ->
  spec en (at_stage F n hs) (at_stage F n hs) (observe_exit h)
    (fun m w cs => at_stage F n hs w cs /\ forall st, m = Ok st -> Launch.exited st = true).
Proof.
  intros HF. unfold observe_exit. apply (spec_loop en _ (fun _ => at_stage F n hs)); [done|]. intros [].
  unfold observe_turn. eapply spec_bind; [by apply keeps_silent|]. intros [st|e].
  - destruct (Launch.exited st) eqn:He; [apply spec_ret; intros w cs Hw; split; [done|by intros ? [= <-]]|].
    destruct (_ || _); [by apply spec_ret|]. eapply spec_bind; [by apply keeps_silent|]. intros [].
    by apply spec_ret.
  - by apply spec_ret.
Qed.

Lemma keeps_local_deadline (seconds : N) (F : Journal S -> Prop) (n : nat) (hs : list H) :
  keeps en (at_stage F n hs) (local_deadline seconds).
Proof. unfold local_deadline. keeping. apply keeps_query. by apply silent_stage. Qed.

Lemma wait_for_exit_spec (h : H) (identity : AttemptAuthority) (seconds : N) (F : Journal S -> Prop)
  (n : nat) (hs : list H) :
  aa_attempt_id identity = id -> lasting F ->
  spec en (at_stage F n hs) (at_stage F n hs) (wait_for_exit h identity seconds)
    (fun m w cs => at_stage F n hs w cs /\ forall st, m = Ok st -> Launch.exited st = true).
Proof.
  intros Hid HF. unfold wait_for_exit.
  assert (Hrun : forall sa, spec en (at_stage F n hs) (at_stage F n hs) (running_or_exit h identity sa)
    (fun m => match m with
       | Ok found => fun w cs => at_stage F n hs w cs /\ forall st, found = Some st -> Launch.exited st = true
       | Err _ => at_stage F n hs end)).
  { intros sa. unfold running_or_exit.
    eapply (spec_bind _ _ _ _ _ (fun x w cs => at_stage F n hs w cs
      /\ match x with inl m => forall st, m = Ok st -> Launch.exited st = true | inr _ => True end)).
    - apply (spec_select en _ _ _ _ (fun m => forall st, m = Ok st -> Launch.exited st = true)); [done| | | |].
      + by apply observe_exit_spec.
      + eapply spec_conseq; [by apply report_spec|done|]. intros [u|e] w cs Hw; (split; [|done]); [|done].
        eapply stage_weaken; [|exact Hw]. by intros j [].
      + done.
      + by intros b w cs [].
    - intros [[st|e]|[u|e]]; apply spec_ret; intros w cs [Hw Hx]; try done; split; try done.
      intros st' [= <-]. by apply Hx. }
  apply keeps_try; [apply keeps_under, keeps_map; by apply keeps_silent|done..|intros first].
  destruct (Launch.exited first) eqn:He.
  { apply spec_ret. intros w cs Hw. split; [done|by intros st [= <-]]. }
  destruct (is_running first); [|by apply spec_ret].
  apply keeps_try; [by apply keeps_local_deadline|done..|intros d].
  eapply spec_bind; [apply (keeps_authority en)|intros sa].
  eapply (spec_bind_ok _ _ _ _ _ (fun found w cs => at_stage F n hs w cs
    /\ forall st, found = Some st -> Launch.exited st = true) (fun _ => at_stage F n hs)); [|done|].
  { apply (spec_bounded_try (at_stage F n hs)); [done|by intros a w cs []|apply Hrun]. }
  intros [st|].
  - apply spec_ret. intros w cs [Hw Hx]. split; [done|]. intros st' [= <-]. by apply Hx.
  - eapply spec_conseq; [apply (spec_under (at_stage F n hs) (at_stage F n hs) (observe_exit h)
      (fun st w cs => at_stage F n hs w cs /\ Launch.exited st = true)); [done|by intros a w cs []|]|by intros w cs []|].
    + eapply spec_conseq; [by apply observe_exit_spec|done|]. intros [st|e] w cs [Hw Hx]; [|done].
      split; [done|by apply Hx].
    + intros [st|e] w cs Hw; [|done]. destruct Hw as [Hw Hx]. split; [done|]. by intros st' [= <-].
Qed.

Lemma record_and_report_spec (identity : AttemptAuthority) (e : ExitEvidence) (sa : SupervisedAuthority)
  (F : Journal S -> Prop) (n : nat) (hs : list H) :
  aa_attempt_id identity = id -> lasting F ->
  spec en (at_stage F n hs) (at_stage F n hs) (record_and_report identity e sa)
    (fun r => match r with
              | Ok _ => at_stage (fun j => F j /\ ended e j /\ phase_reported AttemptState.Finalizing j) n hs
              | Err _ => at_stage F n hs
              end).
Proof.
  intros Hid HF. unfold record_and_report. rewrite Hid.
  assert (HG : lasting (fun j => F j /\ ended e j)) by (apply lasting_and; [done|apply lasting_ended]).
  assert (Hw : forall w cs, at_stage (fun j => F j /\ ended e j) n hs w cs -> at_stage F n hs w cs)
    by (intros w cs; apply stage_weaken; by intros j []).
  eapply (spec_bind_ok _ _ _ _ _ (fun _ => at_stage (fun j => F j /\ ended e j) n hs) (fun _ => at_stage F n hs));
    [|done|intros _].
  { apply spec_map. eapply spec_conseq; [apply (spec_establish en en_tame (at_stage F n hs) (at_stage F n hs)
      _ (fun r => match r with Ok _ => at_stage (fun j => F j /\ ended e j) n hs | Err _ => at_stage F n hs end))
      |done|by intros [?|?]].
    - by apply stable_stage.
    - by apply record_exit_preserves.
    - done.
    - intros [?|?]; by apply stable_stage.
    - intros w cs [[]|x] j Hst Hj Hst'; [|done]. destruct Hst as ([Hs _ _ _] & _).
      pose proof (record_exit_ended attempt_names _ _ _ _ _ Hs Hj) as He.
      destruct Hst' as (? & ? & ? & ?). split_and!; try done. by destruct e. }
  eapply spec_drop; [|exact Hw]. eapply spec_conseq; [apply (report_spec _ _ _ (fun j => F j /\ ended e j)); done|done|].
  intros [u|x] w cs Hst; [|by apply Hw]. eapply stage_weaken; [|exact Hst]. by intros j [[? ?] ?].
Qed.

Definition concluded (F : Journal S -> Prop) (e : ExitEvidence) (j : Journal S) : Prop :=
  F j /\ ended e j /\ phase_reported AttemptState.Finalizing j.

Lemma lasting_concluded (F : Journal S -> Prop) (e : ExitEvidence) : lasting F -> lasting (concluded F e).
Proof.
  intros HF. apply lasting_and; [done|]. apply lasting_and; [apply lasting_ended|apply lasting_phase_reported].
Qed.

Lemma supervised_spec (h : H) (identity : AttemptAuthority) (seconds fin : N) (F : Journal S -> Prop)
  (n : nat) (hs : list H) :
  aa_attempt_id identity = id -> lasting F ->
  spec en (at_stage F n hs) (at_stage F n hs) (supervised h identity seconds fin)
    (fun r w cs => match r with
                   | Ok (e, _) => at_stage (concluded F e) n hs w cs
                   | Err _ => at_stage F n hs w cs
                   end).
Proof.
  intros Hid HF. unfold supervised.
  eapply (spec_bind_ok _ _ _ _ _ (fun _ => at_stage F n hs) (fun _ => at_stage F n hs)); [|done|intros st].
  { eapply spec_conseq; [by apply wait_for_exit_spec|done|]. by intros [?|?] w cs []. }
  apply spec_pure; [done|intros code _].
  set (e := {| ev_exit_code := i32_of_i64 code; ev_oom_killed := oom_killed st |}).
  apply keeps_try; [apply keeps_local_deadline|done..|intros d].
  eapply spec_bind; [apply (keeps_authority en)|intros sa].
  eapply (spec_bind_ok _ _ _ _ _ (fun _ => at_stage (concluded F e) n hs) (fun _ => at_stage F n hs));
    [|done|intros _; by apply spec_ret].
  apply (spec_bounded_try (at_stage F n hs)); [done| |].
  - intros _ w cs. apply stage_weaken. by intros j [].
  - eapply spec_conseq; [by apply record_and_report_spec|done|]. by intros [?|?].
Qed.

(** Capture and publication are settled around the outcome without a trace in it. *)
Lemma with_capture_spec {A : Type} (h : H) (capture published : bool) (t : T (result LaunchCause A))
  (I P : Worker S -> log -> Prop) (Q : result LaunchCause A -> Worker S -> log -> Prop) :
  stable P -> (forall X (e : effect H X), silent e = true -> deaf P e) ->
  (forall r, stable (Q r)) -> (forall r X (e : effect H X), silent e = true -> deaf (Q r) e) ->
  (forall w cs, P w cs -> I w cs) -> (forall r w cs, Q r w cs -> I w cs) -> spec en I P t Q ->
  spec en I P (with_capture h capture published t) (fun x => Q (fst x)).
Proof.
  intros HP HPe HQ HQe HI HQI Ht. unfold with_capture.
  assert (Hend : forall B (f : _ -> B), spec en I P (tbind t (fun r => tret (r, f r))) (fun x => Q (fst x))).
  { intros B f. eapply spec_bind; [exact Ht|]. intros r. by apply spec_ret. }
  destruct capture; [|apply Hend].
  eapply spec_bind; [apply keeps_spec; [by apply keeps_call; [| |apply HPe]|done]|].
  intros [[u|e]|]; [|apply Hend..]. eapply spec_bind; [exact Ht|]. intros r.
  assert (Hs : forall X (e : effect H X), silent e = true -> keeps en (Q r) (call e))
    by (intros X e He; apply keeps_call; [done|apply HQ|by apply HQe]).
  assert (Ha : forall X (e : effect H X), silent e = true -> keeps en (Q r) (ask e))
    by (intros X e He; apply keeps_query; by apply HQe).
  eapply (spec_bind _ _ _ _ _ (fun _ => Q r)); [apply keeps_spec; [|by apply HQI]|intros _].
  { unfold settle_publisher. keeping; [|by apply Hs]. apply Ha. by destruct (is_ok r). }
  eapply (spec_bind _ _ _ _ _ (fun _ => Q r)); [apply keeps_spec; [|by apply HQI]|intros captured; by apply spec_ret].
  unfold settle_capture. keeping; by (apply Ha || apply Hs).
Qed.

Lemma execute_spec (input : LaunchInput) (session : WorkerSession) (ws : PreparedWorkspace)
  (published : bool) (identity : AttemptAuthority) (n : nat) (hs : list H) (r : exec (Worker S) (effect H)) :
  as_authority (li_assignment input) = Some identity -> aa_attempt_id identity = id ->
  aa_attempt_id (sa_identity (ex_authority r)) = id ->
  at_stage any n hs (ex_state r) (ex_calls r) ->
  match execute_inner_impl container_id input session ws published en r with
  | (Some (Ok f), r') =>
      at_stage (concluded (bound (container_id (fa_handle f))) (fa_exit f)) 1 [fa_handle f]
        (ex_state r') (ex_calls r')
  | (_, r') => launch_inv (ex_state r') (ex_calls r')
  end.
Proof.
  intros Ha Hid Hsa Hr. unfold execute_inner_impl, tbind at 1, authority.
  match goal with |- context [tbind_ok ?t0 ?k0 en r] =>
    enough (Hspec : spec en launch_inv (at_stage any n hs) (tbind_ok t0 k0) (fun m w cs => match m with
      | Ok f => at_stage (concluded (bound (container_id (fa_handle f))) (fa_exit f)) 1 [fa_handle f] w cs
      | Err _ => launch_inv w cs end)) end.
  { specialize (Hspec r Hr). destruct (tbind_ok _ _ en r) as [[[f|e]|] r']; exact Hspec. }
  eapply (spec_bind_ok _ _ _ _ _ (fun h => at_stage (bound (container_id h)) 1 [h]) (fun _ => launch_inv));
    [|done|intros h].
  { apply spec_map. eapply spec_conseq; [by eapply launch_inner_spec|done|]. intros [h|e] w cs Hw; [exact Hw|apply Hw]. }
  assert (HF : lasting (bound (container_id h))) by apply lasting_bound.
  set (F := bound (container_id h)) in *.
  eapply (spec_bind _ _ _ _ _ (fun x w cs => match fst x with
    | Ok (e, _) => at_stage (concluded F e) 1 [h] w cs | Err _ => at_stage F 1 [h] w cs end)).
  { apply (with_capture_spec h _ _ _ launch_inv (at_stage F 1 [h]) (fun m w cs => match m with
      | Ok (e, _) => at_stage (concluded F e) 1 [h] w cs | Err _ => at_stage F 1 [h] w cs end)).
    - by apply stable_stage.
    - intros X e He. by apply silent_stage.
    - intros [[e d]|c]; apply stable_stage; [by apply lasting_concluded|done].
    - intros [[e d]|c] X x Hx; by apply silent_stage.
    - by intros w cs [].
    - by intros [[e d]|c] w cs [].
    - eapply spec_drop; [by apply supervised_spec|by intros w cs []]. }
  intros [[[e d]|cause] captured]; cbn [fst].
  - by apply spec_ret.
  - eapply spec_bind; [eapply spec_conseq; [apply keeps_terminate|by intros w cs []|done]|]. intros stopped.
    by apply spec_ret.
Qed.
End Launching.

(** * Properties *)

Section LaunchProperties.
Context {S H : Type} {ops : RecordStore S} {laws : RecordStoreLaws S}.
Context {lib : Libraries} {lib_laws : LibraryLaws} (container_id : H -> string).
Context (attempt_names : forall id, rs_name (attempt_file id)).
Context (session_name : rs_name ".session").

Abbreviation log := (list (some_call (effect H))).

(** One try at executing the attempt: its arguments, its environment, how many
    awaits complete before it is dropped, and what happened to the worker since
    the previous try. *)
Record attempted := {
  at_input : LaunchInput;
  at_session : WorkerSession;
  at_workspace : PreparedWorkspace;
  at_publish : bool;
  at_env : env (Worker S) (effect H);
  at_authority : SupervisedAuthority;
  at_left : nat;
  at_since : Worker S -> Worker S;
}.

Definition for_attempt (id : string) (t : attempted) : Prop :=
  aa_attempt_id (sa_identity (at_authority t)) = id
  /\ (exists identity, as_authority (li_assignment (at_input t)) = Some identity
      /\ aa_attempt_id identity = id)
  /\ tame (at_env t)
  /\ forall w, sound (wk_journal w) -> keeps_evidence (wk_journal w) (wk_journal (at_since t w)).

Definition begin_attempt (t : attempted) (w : Worker S) (cs : log) : exec (Worker S) (effect H) :=
  {| ex_state := at_since t w; ex_authority := at_authority t; ex_clock := 0;
     ex_left := at_left t; ex_calls := cs |}.

Fixpoint executions (tries : list attempted) (w : Worker S) (cs : log) : Worker S * log :=
  match tries with
  | [] => (w, cs)
  | t :: tries' =>
      let r := snd (execute_inner_impl container_id (at_input t) (at_session t) (at_workspace t)
                      (at_publish t) (at_env t) (begin_attempt t w cs)) in
      executions tries' (ex_state r) (ex_calls r)
  end.

Lemma executions_inv (id : string) (tries : list attempted) (w w' : Worker S) (cs cs' : log) :
  Forall (for_attempt id) tries -> launch_inv container_id id w cs ->
  executions tries w cs = (w', cs') -> launch_inv container_id id w' cs'.
Proof.
  revert w cs. induction tries as [|t tries IH]; intros w cs Ht Hi He; simpl in He; [by simplify_eq|].
  apply Forall_cons in Ht as [(Hsa & (identity & Ha & Hid) & Htame & Hsince) Ht].
  eapply IH; [done| |exact He].
  assert (Hi' : launch_inv container_id id (at_since t w) cs).
  { eapply (st_keeps _ (stable_launch_inv container_id id)); [|exact Hi].
    by apply Hsince, (li_sound _ _ _ _ Hi). }
  pose proof (execute_spec container_id id (at_env t) Htame attempt_names session_name (at_input t)
    (at_session t) (at_workspace t) (at_publish t) identity (creates cs) (starts cs)
    (begin_attempt t w cs) Ha Hid Hsa (ltac:(by split_and!))) as Hspec.
  destruct (execute_inner_impl _ _ _ _ _ _ _) as [[[f|e]|] r]; simpl; [by destruct Hspec|done|done].
Qed.

(** C4: an attempt runs at most once.  Over any number of executions of the same
    attempt, each dropped at any await or ended by any failure of the journal,
    the control plane or the runtime, with other tasks and restarts in between:
    at most one container is created and at most one start is issued, only for a
    container whose identity is on record, and every phase reported is on record. *)
Theorem an_attempt_runs_at_most_once (id : string) (tries : list attempted) (w w' : Worker S)
  (cs : log) :
  sound (wk_journal w) -> Forall (for_attempt id) tries -> executions tries w [] = (w', cs) ->
  (creates cs <= 1)%nat /\ (List.length (starts cs) <= 1)%nat
  /\ (forall h, h ∈ starts cs -> exists r, stored (wk_journal w') id = Some r
        /\ rc_container_id r = container_id h)
  /\ (forall q, q ∈ phases cs -> exists r, stored (wk_journal w') id = Some r
        /\ q ∈ rc_phase_reports r).
Proof.
  intros Hs Ht He. apply (executions_inv id) in He as [_ Hb Hr Ho]; [|done|].
  - split_and!.
    + destruct Ho as [[-> _]|(_ & ? & _)]; lia.
    + destruct Ho as [[_ ->]|(_ & _ & ?)]; simpl; lia.
    + intros h Hh. destruct (Hb h Hh) as (r & ? & ? & _). by exists r.
    + intros q Hq. apply (Hr q Hq).
  - split; [done|set_solver|set_solver|]. by left.
Qed.

(** Evidence that nothing was created is true: a launch that fails with
    [NotCreated] has issued no creation, so there is no container to stop or to
    account for. *)
Theorem uncreated_launch_made_no_container (input : LaunchInput) (session : WorkerSession)
  (ws : PreparedWorkspace) (identity : AttemptAuthority) (en : env (Worker S) (effect H))
  (r r' : exec (Worker S) (effect H)) (e : LaunchError) :
  sound (wk_journal (ex_state r)) -> ex_calls r = [] -> tame en ->
  as_authority (li_assignment input) = Some identity ->
  launch_inner container_id input session ws en r = (Some (Err e), r') ->
  le_cleanup e = NotCreated -> creates (ex_calls r') = 0%nat.
Proof.
  intros Hs Hc Ht Ha Hl He.
  pose proof (launch_inner_spec container_id (aa_attempt_id identity) en Ht attempt_names session_name
    input session ws identity 0 [] Ha eq_refl r) as Hspec.
  rewrite Hl in Hspec. apply Hspec; [|done]. rewrite Hc. split_and!; [|done..].
  split; [done|set_solver|set_solver|]. by left.
Qed.

(** C31: an execution that reaches finalization is on record.  When it returns,
    exactly one container was created and it is the one started, the journal has
    its identity, the exit that is returned and the FINALIZING report; the exit
    was durable before FINALIZING was sent. *)
Theorem concluded_execution_is_on_record (input : LaunchInput) (session : WorkerSession)
  (ws : PreparedWorkspace) (published : bool) (identity : AttemptAuthority)
  (en : env (Worker S) (effect H)) (r r' : exec (Worker S) (effect H)) (f : FinalizingAttempt H) :
  sound (wk_journal (ex_state r)) -> ex_calls r = [] -> tame en ->
  as_authority (li_assignment input) = Some identity -> sa_identity (ex_authority r) = identity ->
  execute_inner_impl container_id input session ws published en r = (Some (Ok f), r') ->
  creates (ex_calls r') = 1%nat /\ starts (ex_calls r') = [fa_handle f]
  /\ exists record q, stored (wk_journal (ex_state r')) (aa_attempt_id identity) = Some record
     /\ rc_container_id record = container_id (fa_handle f)
     /\ rc_exit record = Some (fa_exit f)
     /\ q ∈ rc_phase_reports record /\ rp_phase q = AttemptState.to_i32 AttemptState.Finalizing.
Proof.
  intros Hs Hc Ht Ha Hsa He.
  pose proof (execute_spec container_id (aa_attempt_id identity) en Ht attempt_names session_name
    input session ws published identity 0 [] r Ha eq_refl ltac:(by rewrite Hsa)) as Hspec.
  rewrite He in Hspec. destruct Hspec as (_ & (Hb & Hx & q & Hq & Hp) & Hn & Hh).
  { rewrite Hc. split_and!; [|done..]. split; [done|set_solver|set_solver|]. by left. }
  split_and!; [done..|]. destruct Hb as (r1 & E1 & Ec & _), Hx as (r2 & E2 & Ee), Hq as (r3 & E3 & Eq).
  assert (r2 = r1) as -> by congruence. assert (r3 = r1) as -> by congruence.
  by exists r1, q.
Qed.
End LaunchProperties.

(** ** Witnesses *)

Definition worker_claims : RegisterWorkerRequest :=
  {| rw_worker_id := worker_fixture; rw_request_id := EmptyString;
     rw_requested_session_id := EmptyString; rw_protocol_version := VERSION;
     rw_allocatable := Some {| rs_cpu_millis := 1000; rs_memory_bytes := mib; rs_scratch_bytes := mib |};
     rw_execution_slots := 1; rw_labels := {[ "os" := "linux"; "architecture" := "amd64" ]}%string;
     rw_capabilities := ["docker.v1"; "cpu.hard"; "memory.hard"; "pids.hard"; "scratch.quota"]%string |}.

Definition open_session : string * Journal Directory :=
  let (r, j) := begin_incarnation worker_claims journal_fixture in
  (match r with Ok s => rw_requested_session_id (sr_registration s) | Err _ => EmptyString end, j).

Definition worker_session : WorkerSession :=
  {| ws_worker_id := worker_fixture; ws_session_id := fst open_session |}.

(** A journal whose worker has a registered session. *)
Definition registered_journal : Journal Directory :=
  (record_registration {| rr_session := Some worker_session; rr_session_generation := 1;
                          rr_protocol_version := VERSION; rr_cleanup_required := false |}
     (snd open_session)).2.

Lemma registered_journal_sound : sound registered_journal.
Proof.
  assert (H1 : sound (snd open_session)).
  { unfold open_session. destruct (begin_incarnation _ _) as [r j] eqn:E.
    apply (quiet_preserves (fun _ => True) _ (begin_incarnation_quiet session_file_name worker_claims)) in E;
      [by apply E|apply journal_fixture_sound|done]. }
  unfold registered_journal. destruct (record_registration _ _) as [r j] eqn:E.
  by apply (quiet_preserves (fun _ => True) _ (record_registration_quiet session_file_name _)) in E; [apply E| |].
Qed.

Definition launch_identity : AttemptAuthority :=
  {| aa_job_id := "00000000-0000-0000-0000-00000000000b"; aa_attempt_id := attempt_fixture;
     aa_generation := 1; aa_worker_id := worker_fixture;
     aa_session_id := "02000000-0000-4000-8000-000000000000" |}.

Definition launch_assignment : Assignment :=
  {| as_authority := Some launch_identity;
     as_image_digest := as_image_digest job_assignment; as_argv := as_argv job_assignment;
     as_resources := as_resources job_assignment;
     as_canonical_job_spec_json := as_canonical_job_spec_json job_assignment;
     as_spec_sha256 := as_spec_sha256 job_assignment;
     as_lease_duration_ms := as_lease_duration_ms job_assignment;
     as_server_time_unix_ms := as_server_time_unix_ms job_assignment;
     as_phase_remaining_ms := as_phase_remaining_ms job_assignment;
     as_inputs := as_inputs job_assignment |}.

Definition launch_input : LaunchInput :=
  {| li_assignment := launch_assignment; li_execution := spec_fixture; li_capture_logs := true |}.

Definition launch_workspace : PreparedWorkspace :=
  {| pw_root := "/var/lib/dispatch/00000000-0000-0000-0000-00000000000a"; pw_inputs := [];
     pw_quota := None |}.

Definition granted_shared : Shared :=
  {| sh_identity := launch_identity;
     sh_state := Live {| sent := 100000000000; deadline := 125000000000 |};
     sh_requested := 0; sh_acknowledged := 5; sh_senders := 1; sh_receivers := 1 |}.

Definition granted_look : look := {| lk_shared := granted_shared; lk_clock := Ok 101000000000 |}.

Definition launch_authority : SupervisedAuthority :=
  {| sa_identity := launch_identity;
     sa_last_window := {| sent := 100000000000; deadline := 125000000000 |} |}.

(** A control plane that accepts phases and a runtime whose container exits with
    code 3. *)
Definition cooperative (n : nat) (X : Type) (e : effect string X) : X :=
  match e in effect _ X return X with
  | ReportPhase q => Delivered {| mr_decision := 1; mr_state := rp_phase q |}
  | RuntimeCreate _ _ _ _ => Ok container_fixture
  | RuntimeStart _ _ => Ok tt
  | RuntimeInspect _ => Ok exit_fixture
  | MonoClock => Ok 101000000000
  | e' => outage e'
  end.

Definition launch_env : env (Worker Directory) (effect string) :=
  quiet_env cooperative granted_look (Ok 101000000000).

Definition launch_exec (left : nat) : exec (Worker Directory) (effect string) :=
  {| ex_state := {| wk_journal := registered_journal; wk_assembler := idle_assembler |};
     ex_authority := launch_authority; ex_clock := 0; ex_left := left; ex_calls := [] |}.

Definition executed : option (result ExecutionError (FinalizingAttempt string))
  * exec (Worker Directory) (effect string) :=
  execute_inner_impl id launch_input worker_session launch_workspace true launch_env (launch_exec 30).

Lemma launch_env_tame : tame launch_env.
Proof. apply quiet_env_tame. Qed.

Lemma concluded_execution_is_on_record_witness :
  exists f, fst executed = Some (Ok f) /\ fa_exit f = {| ev_exit_code := 3; ev_oom_killed := false |}
  /\ starts (ex_calls (snd executed)) = [container_fixture].
Proof.
  destruct executed as [o r'] eqn:E.
  assert (Ho : exists f, o = Some (Ok f) /\ fa_exit f = {| ev_exit_code := 3; ev_oom_killed := false |}
    /\ fa_handle f = container_fixture).
  { change o with (fst (o, r')). rewrite <- E. eexists. split_and!; vm_compute; reflexivity. }
  destruct Ho as (f & -> & Hf & Hh). exists f. split_and!; [done..|]. rewrite <- Hh.
  apply (concluded_execution_is_on_record id attempt_file_name session_file_name launch_input
    worker_session launch_workspace true launch_identity launch_env (launch_exec 30) r' f
    registered_journal_sound eq_refl launch_env_tame eq_refl eq_refl E).
Defined.

(** The first execution is dropped while the container is being created; the
    second finds the launch on record. *)
Definition attempt_with (left : nat) : attempted :=
  {| at_input := launch_input; at_session := worker_session; at_workspace := launch_workspace;
     at_publish := true; at_env := launch_env; at_authority := launch_authority; at_left := left;
     at_since := fun w => w |}.

Definition twice : Worker Directory * list (some_call (effect string)) :=
  executions id [attempt_with 2; attempt_with 30] (ex_state (launch_exec 0)) [].

Lemma an_attempt_runs_at_most_once_witness :
  creates (snd twice) = 1%nat /\ (List.length (starts (snd twice)) <= 1)%nat.
Proof.
  split; [vm_compute; reflexivity|].
  apply (an_attempt_runs_at_most_once id attempt_file_name session_file_name attempt_fixture
    [attempt_with 2; attempt_with 30] (ex_state (launch_exec 0)) (fst twice)).
  - apply registered_journal_sound.
  - assert (forall n, for_attempt attempt_fixture (attempt_with n)).
    { intros n. split_and!; [done| |apply launch_env_tame|intros w; apply keeps_evidence_refl].
      by exists launch_identity. }
    apply Forall_cons_2; [apply H|]. apply Forall_cons_2; [apply H|]. apply Forall_nil_2.
  - exact (surjective_pairing twice).
Defined.

(** A control plane that refuses the attempt. *)
Definition refusing (n : nat) (X : Type) (e : effect string X) : X :=
  match e in effect _ X return X with
  | ReportPhase q => Delivered {| mr_decision := 2; mr_state := 1 |}
  | e' => outage e'
  end.

Definition refused : option (result LaunchError string) * exec (Worker Directory) (effect string) :=
  launch_inner id launch_input worker_session launch_workspace
    (quiet_env refusing granted_look (Ok 101000000000)) (launch_exec 30).

Lemma uncreated_launch_made_no_container_witness :
  fst refused = Some (Err {| le_cause := CauseAuthority (StopRejected Decision_.Fenced);
                             le_cleanup := NotCreated |})
  /\ creates (ex_calls (snd refused)) = 0%nat.
Proof.
  destruct refused as [o r'] eqn:E.
  assert (Ho : o = Some (Err {| le_cause := CauseAuthority (StopRejected Decision_.Fenced);
    le_cleanup := NotCreated |})) by (change o with (fst (o, r')); rewrite <- E; vm_compute; reflexivity).
  subst o. split; [done|].
  apply (uncreated_launch_made_no_container id attempt_file_name session_file_name launch_input
    worker_session launch_workspace launch_identity (quiet_env refusing granted_look (Ok 101000000000))
    (launch_exec 30) r' _ registered_journal_sound eq_refl (quiet_env_tame _ _ _) eq_refl E eq_refl).
Defined.
