(* ===== verification/Finalize.v ===== *)
(** Finalization of an attempt ([rust/worker/src/finalization.rs]) and live
    publication of its log segments ([log_publish.rs]): logs and outputs are
    delivered under the finalization deadline, then one completion is sealed in
    the journal.

    A panic ends a task as dropping it does; [summarize] returns [None] where the
    source panics. *)

From S2P Require Import Prelude Strings Os Protocol Lease Control Renew Supervisor LogFormat LogSpool.
From S2P Require Import LogCapture LogAssembler LogSummary LogLive Execution Uploads Phase LogRegistration.
From S2P Require Import Completion RecordStore JournalFiles JournalRecord Codec Journal JournalUploads.
From S2P Require Import JournalLogs JournalEvidence JournalFacts Delivery RuntimeConfig Outputs Async.
From S2P Require Import Transfer Effects UploadDelivery Launch.
Open Scope N_scope.

Definition MAX_DELIVERY_ATTEMPTS : nat := 3.
Definition MAX_FINAL_LOG_BYTES : N := 1048576.
Definition POLL_INTERVAL : Duration := from_millis 200.

Inductive FinalizationError : Type :=
| FinIdentity
| StopUnconfirmed
| FinAuthority (reason : StopReason)
| FinJournal (e : JournalError.t)
| FinCollection (e : CollectionError.t)
| FinUpload (e : UploadError)
| FinPayload (e : ClientError)
| FinLog.

(** [log_summary::summarize]; [None] is the panic of [LogUpload::stream]. *)
Definition range_of (u : LogUpload) : option Range :=
  stream ← LogStream.try_from (lu_stream u);
  Some {| rg_range_stream := stream; rg_first := lu_first_sequence u; rg_last := lu_last_sequence u;
          rg_range_gaps := lu_gaps u; rg_registered := lu_registered u |}.

Definition summarize (logs : list LogUpload) (captured : two N) (capture_finished : bool)
  : option (result SummaryError LogSummary) :=
  ranges ← mapM range_of logs; Some (summarize_ranges ranges captured capture_finished).

(** Which upload failures end an attempt, with the reason and whether another
    round may help. *)
Definition upload_failure (e : UploadError) : option (FailureReason.t * bool) :=
  match e with
  | UploadControl e => if retryable e then Some (FailureReason.TransferFailed, true) else None
  | UploadTransfer TransferError.Integrity => Some (FailureReason.OutputInvalid, false)
  | UploadTransfer TransferError.Configuration | UploadTransfer TransferError.Grant => None
  | UploadTransfer e =>
      Some (FailureReason.TransferFailed,
            match e with
            | TransferError.Transport | TransferError.Deadline | TransferError.Expired => true
            | TransferError.Status code => (code =? 408) || (code =? 429) || in_range 500 599 code
            | _ => false
            end)
  | _ => None
  end.

Section Finalize.
Context {S H : Type} {ops : RecordStore S} {lib : Libraries} {http : HttpLibraries}.

Abbreviation T := (task (Worker S) (effect H)).

(** A panic. *)
Definition panic {A : Type} : T A := fun _ r => (None, r).

Definition unwrap {A : Type} (o : option A) : T A :=
  match o with
  | Some a => tret a
  | None => panic
  end.

(** [journal::new_uuid]. *)
Definition fresh_uuid : T (result JournalError.t string) :=
  let& raw := ask FreshId in
  tret (match raw with
        | Some raw => Ok (uuid_text (Journal.stamp (resize 16 "000"%byte raw)))
        | None => Err JournalError.Random
        end).

Definition while_finalizing {A : Type} (attempt : FinalizingAttempt H) (t : T A)
  : T (result StopReason A) :=
  bounded (fa_deadline attempt) t.

(** [while_finalizing(..).await.map_err(Authority)?]. *)
Definition finalizing {A : Type} (attempt : FinalizingAttempt H) (t : T (result FinalizationError A))
  : T (result FinalizationError A) :=
  let& r := while_finalizing attempt t in
  tret (match r with Ok m => m | Err reason => Err (FinAuthority reason) end).

Definition load_saved (id : string) (missing : FinalizationError)
  : T (result FinalizationError AttemptRecord) :=
  let&? found := tmap_err FinJournal (journal (load_attempt id)) in
  tret (ok_or found missing).

(** The completion with its digest, made durable. *)
Definition with_digest (digest : string) (q : CompleteAttemptRequest) : CompleteAttemptRequest :=
  {| ca_authority := ca_authority q; ca_completion_id := ca_completion_id q;
     ca_payload_sha256 := digest; ca_exit_code := ca_exit_code q; ca_reason := ca_reason q;
     ca_stopped := ca_stopped q; ca_outputs := ca_outputs q; ca_logs_complete := ca_logs_complete q;
     ca_gaps := ca_gaps q; ca_metrics_json := ca_metrics_json q |}.

Definition seal_with (persist : CompleteAttemptRequest -> st (Journal S) JournalError.t unit)
  (make : string -> CompleteAttemptRequest) : T (result FinalizationError CompleteAttemptRequest) :=
  let&? completion_id := tmap_err FinJournal fresh_uuid in
  let request := make completion_id in
  let&? digest := tret (map_err FinPayload (completion_digest lib_sha256 lib_metrics lib_payload request)) in
  let request := with_digest digest request in
  let&? _ := tmap_err FinJournal (journal (persist request)) in
  tret (Ok request).

(** A completion without outputs, logs or metrics. *)
Definition bare_completion (identity : AttemptAuthority) (reason : FailureReason.t) (exit_code : option Z)
  (completion_id : string) : CompleteAttemptRequest :=
  {| ca_authority := Some identity; ca_completion_id := completion_id; ca_payload_sha256 := EmptyString;
     ca_exit_code := exit_code; ca_reason := FailureReason.to_i32 reason; ca_stopped := true;
     ca_outputs := []; ca_logs_complete := false; ca_gaps := []; ca_metrics_json := [] |}.

(** A completion on record stands when it says the same. *)
Definition replayed (reason : FailureReason.t) (q : CompleteAttemptRequest)
  : result FinalizationError CompleteAttemptRequest :=
  if (ca_reason q =? FailureReason.to_i32 reason)%Z && ca_stopped q then Ok q else Err FinIdentity.

Definition has_container (r : AttemptRecord) : bool := negb (is_empty_str (rc_container_id r)).

Definition prepare_unlaunched_failure (identity : AttemptAuthority) (reason : FailureReason.t)
  : T (result FinalizationError CompleteAttemptRequest) :=
  let&? saved := load_saved (aa_attempt_id identity) FinIdentity in
  if negb (bool_decide (as_authority (rc_assignment saved) = Some identity)) then tret (Err FinIdentity)
  else if has_container saved || negb (is_none (rc_exit saved)) then tret (Err StopUnconfirmed)
  else match rc_completion saved with
  | Some request => tret (replayed reason request)
  | None => seal_with persist_completion (bare_completion identity reason None)
  end.

Definition prepare_unlaunched_transfer_failure (identity : AttemptAuthority) :=
  prepare_unlaunched_failure identity FailureReason.TransferFailed.

Definition prepare_unlaunched_runtime_failure (identity : AttemptAuthority) :=
  prepare_unlaunched_failure identity FailureReason.RuntimeUnavailable.

Definition prepare_removed_launch_failure (identity : AttemptAuthority)
  : T (result FinalizationError CompleteAttemptRequest) :=
  let&? saved := load_saved (aa_attempt_id identity) FinIdentity in
  if negb (bool_decide (as_authority (rc_assignment saved) = Some identity)) then tret (Err FinIdentity)
  else if negb (has_container saved) || negb (is_none (rc_exit saved))
          || negb (bool_decide (rp_phase <$> last (rc_phase_reports saved)
                                = Some (AttemptState.to_i32 AttemptState.Starting)))
  then tret (Err StopUnconfirmed)
  else match rc_completion saved with
  | Some request => tret (replayed FailureReason.RuntimeUnavailable request)
  | None => seal_with persist_completion
              (bare_completion identity FailureReason.RuntimeUnavailable None)
  end.

(** Cleanup evidence that the container on record, if any, no longer runs. *)
Definition cleanup_confirmed (cleanup : CleanupEvidence) (created : bool) : bool :=
  match cleanup, created with
  | StoppedEvidence, true | NotCreated, false => true
  | _, _ => false
  end.

Definition stop_was_requested (saved : AttemptRecord) : bool :=
  match rc_completion_response saved with
  | Some response => (cs_decision response =? Decision_.to_i32 Decision_.StopRequested)%Z
  | None => false
  end.

Definition prepare_cancelled_completion (identity : AttemptAuthority) (cleanup : CleanupEvidence)
  : T (result FinalizationError CompleteAttemptRequest) :=
  let&? saved := load_saved (aa_attempt_id identity) FinIdentity in
  if negb (bool_decide (as_authority (rc_assignment saved) = Some identity)) then tret (Err FinIdentity)
  else if negb (cleanup_confirmed cleanup (has_container saved)) then tret (Err StopUnconfirmed)
  else
    let cancelled := bare_completion identity FailureReason.UserCancelled
                       (ev_exit_code <$> rc_exit saved) in
    match rc_completion saved with
    | Some request =>
        if (ca_reason request =? FailureReason.to_i32 FailureReason.UserCancelled)%Z && ca_stopped request
        then tret (Ok request)
        else if stop_was_requested saved then seal_with supersede_rejected_completion cancelled
        else tret (Err FinIdentity)
    | None => seal_with persist_completion cancelled
    end.

(** * Outputs *)

Definition is_metrics (o : CollectedOutput) : bool := bool_decide (co_name o = "metrics"%string).

(** The blocking collection: outputs with the metrics read from one of them. *)
Definition collect_with_metrics (cio : collect_io) (mio : metrics_io) (execution : ExecutionSpec)
  : result CollectionError.t (list CollectedOutput * option bytes) :=
  let? outputs := collect_outputs cio execution default_collection_limits in
  let? metrics := match List.find is_metrics outputs with
                  | Some o => read_metrics mio o
                  | None => Ok None
                  end in
  Ok (outputs, metrics).

(** What is delivered, with the failure known so far. *)
Definition settle_collection (answers : option (collect_io * metrics_io)) (execution : ExecutionSpec)
  : result FinalizationError (list CollectedOutput * option bytes * FailureReason.t) :=
  let? '(cio, mio) := ok_or answers (FinCollection CollectionError.Unsafe) in
  let? '(outputs, metrics, failure) :=
    match collect_with_metrics cio mio execution with
    | Ok (outputs, metrics) => Ok (outputs, metrics, FailureReason.Unspecified)
    | Err CollectionError.Configuration => Err (FinCollection CollectionError.Configuration)
    | Err _ => Ok ([], None, FailureReason.OutputInvalid)
    end in
  Ok (outputs, metrics,
      if existsb is_metrics outputs && is_none metrics then FailureReason.OutputInvalid else failure).

(** Rounds of delivery of one output, [left] after this one: the reply, or the
    reason delivery was given up. *)
Fixpoint deliver_rounds (c : TransferClient) (attempt_id name : string) (left : nat)
  : T (result FinalizationError (FinalizeUploadResponse + FailureReason.t)) :=
  let& cloned := ask CloneFile in
  let&? _ := tret (map_err (fun k => FinCollection (CollectionError.Io k)) cloned) in
  let& delivered := deliver_output c attempt_id name true in
  match delivered with
  | Ok reply => tret (Ok (inl reply))
  | Err e =>
      if match e with UploadControl control => upload_stop_requested control | _ => false end
      then tret (Err (FinAuthority (StopRejected Decision_.StopRequested)))
      else match upload_failure e with
      | None => tret (Err (FinUpload e))
      | Some (reason, again) =>
          match again, left with
          | true, Datatypes.S left' =>
              let& _ := call (Sleep (from_secs 1)) in deliver_rounds c attempt_id name left'
          | _, _ => tret (Ok (inr reason))
          end
      end
  end.

(** What the loop over the outputs accumulates. *)
Record delivered := {
  dl_references : list OutputReference;
  dl_metrics : option bytes;
  dl_metrics_json : bytes;
  dl_failure : FailureReason.t;
}.

Definition fail_delivery (reason : FailureReason.t) (d : delivered) : delivered :=
  {| dl_references := dl_references d; dl_metrics := dl_metrics d; dl_metrics_json := dl_metrics_json d;
     dl_failure := if bool_decide (dl_failure d = FailureReason.OutputInvalid) then dl_failure d else reason |}.

(** A delivered output; invalid metrics are kept out of the completion. *)
Definition refer (name : string) (reply : FinalizeUploadResponse) (d : delivered) : delivered :=
  let reference := {| or_name := name; or_artifact_id := fr_artifact_id reply |} in
  if bool_decide (name = "metrics"%string) then
    match dl_metrics d with
    | None => d
    | Some source =>
        {| dl_references := dl_references d ++ [reference]; dl_metrics := None;
           dl_metrics_json := source; dl_failure := dl_failure d |}
    end
  else
    {| dl_references := dl_references d ++ [reference]; dl_metrics := dl_metrics d;
       dl_metrics_json := dl_metrics_json d; dl_failure := dl_failure d |}.

Fixpoint deliver_outputs (c : TransferClient) (attempt_id : string) (outputs : list CollectedOutput)
  (d : delivered) : T (result FinalizationError delivered) :=
  match outputs with
  | [] => tret (Ok d)
  | o :: rest =>
      let&? _ := tmap_err FinJournal
                   (journal (prepare_output attempt_id (co_name o) (co_size o) (co_sha256 o))) in
      let&? reply := deliver_rounds c attempt_id (co_name o) (MAX_DELIVERY_ATTEMPTS - 1) in
      match reply with
      | inr reason => tret (Ok (fail_delivery reason d))
      | inl reply => deliver_outputs c attempt_id rest (refer (co_name o) reply d)
      end
  end.

(** The execution failure comes first. *)
Definition completion_reason (exit : ExitEvidence) (failure : FailureReason.t) : FailureReason.t :=
  if ev_oom_killed exit then FailureReason.Oom
  else if negb (ev_exit_code exit =? 0)%Z then FailureReason.ApplicationExit
  else failure.

Definition full_completion (identity : AttemptAuthority) (exit : ExitEvidence) (logs : LogSummary)
  (d : delivered) (completion_id : string) : CompleteAttemptRequest :=
  {| ca_authority := Some identity; ca_completion_id := completion_id; ca_payload_sha256 := EmptyString;
     ca_exit_code := Some (ev_exit_code exit);
     ca_reason := FailureReason.to_i32 (completion_reason exit (dl_failure d)); ca_stopped := true;
     ca_outputs := dl_references d; ca_logs_complete := sm_complete logs; ca_gaps := sm_gaps logs;
     ca_metrics_json := dl_metrics_json d |}.

(** Collection, delivery and sealing, when no completion is on record. *)
Definition complete_outputs (c : TransferClient) (identity : AttemptAuthority) (exit : ExitEvidence)
  (logs : LogSummary) (assignment : Assignment) : T (result FinalizationError CompleteAttemptRequest) :=
  let&? execution := tret (map_err (fun _ => FinIdentity) (execution_of assignment)) in
  let& answers := call CollectOutputs in
  let&? '(outputs, metrics, failure) := tret (settle_collection answers execution) in
  let&? d := deliver_outputs c (aa_attempt_id identity) outputs
               {| dl_references := []; dl_metrics := metrics; dl_metrics_json := [];
                  dl_failure := failure |} in
  seal_with persist_completion (full_completion identity exit logs d).

Definition prepare_completion (c : TransferClient) (attempt : FinalizingAttempt H)
  (workspace : PreparedWorkspace) (logs : LogSummary)
  : T (result FinalizationError CompleteAttemptRequest) :=
  if negb (owns_workspace attempt workspace) then tret (Err FinIdentity)
  else
    let identity := fa_identity attempt in
    finalizing attempt (
      let&? saved := load_saved (aa_attempt_id identity) (FinJournal JournalError.Invalid) in
      if negb (bool_decide (as_authority (rc_assignment saved) = Some identity))
         || negb (bool_decide (rc_exit saved = Some (fa_exit attempt)))
      then tret (Err FinIdentity)
      else match rc_completion saved with
      | Some request => tret (Ok request)
      | None => complete_outputs c identity (fa_exit attempt) logs (rc_assignment saved)
      end).

(** * Logs *)

(** [assembler.lock().await.front()]. *)
Definition front : T (option PendingSegment) := op (fun w => (head (la_pending (wk_assembler w)), w)).

(** [read_front] and [acknowledge_front], with the answers of the spool's calls. *)
Definition open_front : T (result AssembleError bool) :=
  let& '(euid, io) := ask SpoolRead in
  assembler (fun a => (let? body := read_front euid io a in Ok (negb (is_none body)), a)).

Definition drop_front : T (result AssembleError unit) :=
  let& '(euid, io) := ask SpoolRemove in
  assembler (acknowledge_front euid io).

Definition prepare_segment (attempt_id : string) (p : PendingSegment)
  : T (result JournalError.t CreateUploadRequest) :=
  journal (prepare_log attempt_id (ps_stream p) (ps_first_sequence p) (ps_last_sequence p) (ps_gaps p)
             (ss_size (ps_entry p)) (ps_sha256 p)).

(** Errors of a delivery that end finalization. *)
Definition fatal_log_error (e : LogDeliveryError) : option FinalizationError :=
  match e with
  | LogControl control =>
      if upload_stop_requested control then Some (FinAuthority (StopRejected Decision_.StopRequested))
      else None
  | LogRejected decision => Some (FinAuthority (StopRejected decision))
  | LogJournal e => Some (FinJournal e)
  | _ => None
  end.

(** Rounds of delivery of one segment, [left] after this one. *)
Fixpoint deliver_segment (c : TransferClient) (attempt_id : string) (p : PendingSegment) (left : nat)
  : T (result FinalizationError bool) :=
  let&? source := tmap_err (fun _ => FinLog) open_front in
  let& delivered := deliver_log c attempt_id (ps_stream p) (ps_first_sequence p) source in
  match delivered with
  | Ok _ => tret (Ok true)
  | Err e =>
      match fatal_log_error e, left with
      | Some fatal, _ => tret (Err fatal)
      | None, Datatypes.S left' =>
          let& _ := call (Sleep (from_secs 1)) in deliver_segment c attempt_id p left'
      | None, O => tret (Ok false)
      end
  end.

(** One turn of the loop over the pending segments: whether all were delivered. *)
Definition pending_turn (c : TransferClient) (attempt_id : string) (_ : unit)
  : T (unit + result FinalizationError bool) :=
  let& pending := front in
  match pending with
  | None => tret (inr (Ok true))
  | Some p =>
      let& r :=
        (let&? _ := tmap_err FinJournal (prepare_segment attempt_id p) in
         let&? accepted := deliver_segment c attempt_id p (MAX_DELIVERY_ATTEMPTS - 1) in
         if negb accepted then tret (Ok false)
         else
           let&? _ := tmap_err (fun _ => FinLog) drop_front in
           tret (Ok true)) in
      tret (match r with Ok true => inl tt | _ => inr r end)
  end.

(** The chunks of one stream of a snapshot, numbered from [sequence + 1]. *)
Fixpoint ingest_snapshot (stream : LogStream.t) (payloads : list bytes) (sequence : N)
  : T (result FinalizationError N) :=
  match payloads with
  | [] => tret (Ok sequence)
  | payload :: rest =>
      let sequence := u64_add sequence 1 in
      let& nanos := ask WallClock in
      let&? capture := tret (map_err (fun _ => FinLog) (capture_time nanos)) in
      let& env := ask IngestAnswers in
      let&? _ := tmap_err (fun _ => FinLog)
                   (assembler (ingest lib_sha256 env
                      {| ck_stream := stream; ck_sequence := sequence;
                         ck_capture_unix_nanos := capture; ck_payload := payload |})) in
      ingest_snapshot stream rest sequence
  end.

Definition new_assembler (workspace : PreparedWorkspace) : T (result FinalizationError unit) :=
  let& '(euid, io) := ask SpoolCreate in
  act (fun w =>
    match assembler_new euid (pw_root workspace) (file_name (pw_root workspace)) MAX_SPOOL_BYTES io ∅ with
    | Ok a => (Ok tt, set_assembler a w)
    | Err _ => (Err FinLog, w)
    end).

(** The numbers captured and whether capture finished; none when no logs can be had. *)
Definition snapshot_logs (attempt : FinalizingAttempt H) (workspace : PreparedWorkspace)
  : T (result FinalizationError (option (two N * bool))) :=
  match fa_capture attempt with
  | Some (Ok capture) => tret (Ok (Some (lc_counts capture, lc_complete capture)))
  | Some (Err _) => tret (Ok None)
  | None =>
      let& answer := call (RuntimeLogs (fa_handle attempt) MAX_FINAL_LOG_BYTES) in
      match answer with
      | Err _ => tret (Ok None)
      | Ok logs =>
          let&? _ := new_assembler workspace in
          let&? out := ingest_snapshot LogStream.Stdout (chunks MAX_CHUNK_BYTES (Docker.cl_stdout logs)) 0 in
          let&? err := ingest_snapshot LogStream.Stderr (chunks MAX_CHUNK_BYTES (Docker.cl_stderr logs)) 0 in
          let& c0 := ask SpoolStore in
          let& c1 := ask SpoolStore in
          let&? _ := tmap_err (fun _ => FinLog) (assembler (flush_all lib_sha256 c0 c1)) in
          tret (Ok (Some (Two out err, negb (Docker.cl_truncated logs))))
      end
  end.

Definition publish_finished_logs (c : TransferClient) (attempt : FinalizingAttempt H)
  (workspace : PreparedWorkspace) : T (result FinalizationError LogSummary) :=
  if negb (owns_workspace attempt workspace) then tret (Err FinIdentity)
  else
    let id := aa_attempt_id (fa_identity attempt) in
    finalizing attempt (
      let&? snapshot := snapshot_logs attempt workspace in
      match snapshot with
      | None => tret (Ok {| sm_complete := false; sm_gaps := [] |})
      | Some (captured, capture_finished) =>
          let&? delivered := loop (pending_turn c id) tt in
          let&? saved := load_saved id (FinJournal JournalError.Invalid) in
          let& summary := unwrap (summarize (rc_logs saved) captured (capture_finished && delivered)) in
          tret (map_err (fun _ => FinLog) summary)
      end).

(** ** While the container runs ([log_publish.rs]) *)

Definition publish_segment (c : TransferClient) (attempt_id : string) (p : PendingSegment)
  : T (result unit unit) :=
  let&? _ := tmap_err (fun _ => tt) (prepare_segment attempt_id p) in
  let&? source := tmap_err (fun _ => tt) open_front in
  let&? _ := tmap_err (fun _ => tt)
               (deliver_log c attempt_id (ps_stream p) (ps_first_sequence p) source) in
  tmap_err (fun _ => tt) drop_front.

Definition publish_turn (c : TransferClient) (attempt_id : string) (_ : unit) : T (unit + unit) :=
  let& stopped := ask StopReceived in
  if stopped : bool then tret (inr tt)
  else
    let& pending := front in
    match pending with
    | None =>
        let& x := select (call StopSignal) (call (Sleep POLL_INTERVAL)) in
        tret (match x with inl _ => inr tt | inr _ => inl tt end)
    | Some p =>
        let& result := while_live (publish_segment c attempt_id p) in
        tret (match result with Ok (Ok _) => inl tt | _ => inr tt end)
    end.

Definition publish_running (c : TransferClient) (attempt_id : string) : T unit :=
  loop (publish_turn c attempt_id) tt.
End Finalize.
