(* ===== verification/FinalizeFacts.v ===== *)
(** What finalization guarantees: it ends after a bounded number of awaits, a
    completion it returns is on record, and one that claims success references
    every declared output that was found, each durable. *)

From S2P Require Import Prelude Strings Os Protocol Lease Control Renew Supervisor LogFormat LogSpool.
From S2P Require Import LogCapture LogAssembler LogSummary LogLive Execution Uploads Phase LogRegistration.
From S2P Require Import Completion RecordStore JournalFiles JournalRecord Codec Journal JournalUploads.
From S2P Require Import JournalLogs JournalEvidence JournalFacts Delivery RuntimeConfig Outputs Async.
From S2P Require Import Transfer Effects UploadDelivery Launch LaunchFacts Finalize.
Open Scope N_scope.

(** * Bounds *)

Lemma validate_outputs_count (job : Job) :
  Execution.validate job = Ok tt -> (List.length (js_outputs (job_spec job)) <= 64)%nat.
Proof.
  unfold Execution.validate. destruct (_ || _) eqn:Hguard; [done|]. intros _.
  rewrite !orb_false_iff, !N.ltb_ge in Hguard. destruct_and! Hguard.
  assert (Hl : len (js_outputs (job_spec job)) <= 64) by done. unfold len in Hl. lia.
Qed.

Lemma execution_outputs_count {lib : Libraries} (a : Assignment) (x : ExecutionSpec) :
  execution_of a = Ok x -> (List.length (js_outputs (job_spec (es_job x))) <= 64)%nat.
Proof.
  unfold execution_of. intros H%invalid_Ok. unfold from_assignment in H. guards. subst.
  apply validate_outputs_count. by match goal with u : unit |- _ => destruct u end.
Qed.

Lemma collects_length {lib : Libraries} (io : collect_io) (limits : CollectionLimits)
  (outputs : list string) (ds : list Output) (os : list CollectedOutput) :
  collects io limits outputs ds os -> (List.length os <= List.length ds)%nat.
Proof. induction 1; simpl; lia. Qed.

(** What settling a collection tells. *)
Lemma settle_collection_Ok {lib : Libraries} (answers : option (collect_io * metrics_io)) (x : ExecutionSpec)
  (os : list CollectedOutput) (metrics : option bytes) (failure : FailureReason.t) :
  settle_collection answers x = Ok (os, metrics, failure) ->
  (List.length os <= List.length (js_outputs (job_spec (es_job x))))%nat
  /\ (failure = FailureReason.Unspecified -> exists cio mio,
       answers = Some (cio, mio) /\ collect_outputs cio x default_collection_limits = Ok os
       /\ (existsb is_metrics os = true -> metrics <> None)).
Proof.
  unfold settle_collection. intros H. apply rbind_Ok_inv in H as ([cio mio] & Ha%ok_or_Ok_inv & H).
  apply rbind_Ok_inv in H as ([[os' metrics'] failure'] & Hc & H).
  apply Ok_inj, pair_equal_spec in H as [[<- <-]%pair_equal_spec <-].
  destruct (collect_with_metrics cio mio x) as [[os1 m1]|e] eqn:Hm.
  - apply Ok_inj, pair_equal_spec in Hc as [[<- <-]%pair_equal_spec <-].
    unfold collect_with_metrics in Hm. apply rbind_Ok_inv in Hm as (os2 & Ho & Hm).
    apply rbind_Ok_inv in Hm as (m2 & _ & Hm). apply Ok_inj, pair_equal_spec in Hm as [<- <-]. split.
    + apply collect_outputs_collects in Ho as [Ho _]. by eapply collects_length.
    + intros Hf. exists cio, mio. split_and!; [done..|]. intros He Hn. rewrite He, Hn in Hf. done.
  - destruct e; try done; apply Ok_inj, pair_equal_spec in Hc as [[<- <-]%pair_equal_spec <-];
      (split; [simpl; lia|done]).
Qed.

Section Bounds.
Context {S H : Type} {ops : RecordStore S} {lib : Libraries} {http : HttpLibraries}.

Abbreviation T := (task (Worker S) (effect H)).

Lemma within_deliver_rounds (c : TransferClient) (id name : string) (left : nat) :
  within (8 * left + 7) (deliver_rounds c id name left : T _).
Proof.
  induction left as [|n IH]; cbn [deliver_rounds].
  - awaits 0%nat 7%nat. awaits 0%nat 7%nat. awaits 7%nat 0%nat.
    destruct a1 as [reply|e]; [apply within_ret|]. destruct (match e with UploadControl _ => _ | _ => _ end);
      [apply within_ret|]. destruct (upload_failure e) as [[reason [|]]|]; apply within_ret.
  - awaits 0%nat (8 * Datatypes.S n + 7)%nat. awaits 0%nat (8 * Datatypes.S n + 7)%nat.
    awaits 7%nat (8 * n + 8)%nat. destruct a1 as [reply|e]; [apply within_ret_any|].
    destruct (match e with UploadControl _ => _ | _ => _ end); [apply within_ret_any|].
    destruct (upload_failure e) as [[reason [|]]|]; [|apply within_ret_any..].
    awaits 1%nat (8 * n + 7)%nat. exact IH.
Qed.

Lemma within_deliver_outputs (c : TransferClient) (id : string) (os : list CollectedOutput) (d : delivered) :
  within (24 * List.length os) (deliver_outputs c id os d : T _).
Proof.
  revert d. induction os as [|o os IH]; intros d; cbn [deliver_outputs]; [apply within_ret|].
  cbn [List.length]. awaits 1%nat (24 * List.length os + 23)%nat.
  apply (within_try (8 * 2 + 7) (24 * List.length os)); [apply within_deliver_rounds|lia|].
  intros [reply|reason]; [apply IH|apply within_ret_any].
Qed.

Lemma within_seal (persist : CompleteAttemptRequest -> st (Journal S) JournalError.t unit)
  (make : string -> CompleteAttemptRequest) : within 1 (seal_with persist make : T _).
Proof.
  unfold seal_with, fresh_uuid. apply (within_try 0 1); [apply within_map|lia|intros fresh].
  - apply (within_then 0 0); [apply within_ask|lia|intros raw; apply within_ret].
  - awaits 0%nat 1%nat. awaits 1%nat 0%nat. apply within_ret.
Qed.

Lemma within_load_saved (id : string) (missing : FinalizationError) :
  within 1 (load_saved id missing : T _).
Proof. unfold load_saved. awaits 1%nat 0%nat. apply within_ret. Qed.

(** C28: finalization ends.  Whatever the environment answers, [prepare_completion]
    takes at most 1539 awaits, the delivery rounds of 64 outputs with their
    backoffs included, and returns unless it is dropped before. *)
Theorem finalization_is_bounded (c : TransferClient) (attempt : FinalizingAttempt H)
  (ws : PreparedWorkspace) (logs : LogSummary) :
  within 1539 (prepare_completion c attempt ws logs : T _).
Proof.
  unfold prepare_completion. destruct (negb _); [apply within_ret_any|]. unfold finalizing.
  apply (within_then 1539 0); [apply within_bounded|lia|intros r; apply within_ret].
  apply (within_try 1 1538); [apply within_load_saved|lia|intros saved].
  destruct (_ || _); [apply within_ret_any|]. destruct (rc_completion saved); [apply within_ret_any|].
  unfold complete_outputs. apply within_pure. intros x Hx. apply map_err_Ok_inv in Hx.
  apply execution_outputs_count in Hx. awaits 1%nat 1537%nat. apply within_pure.
  intros [[os metrics] failure] [Hlen _]%settle_collection_Ok.
  apply (within_try (24 * List.length os) 1); [apply within_deliver_outputs|lia|intros d].
  apply within_seal.
Qed.
End Bounds.

(** * Evidence *)

Section Evidence.
Context {S H : Type} {ops : RecordStore S} {laws : RecordStoreLaws S}.
Context {lib : Libraries} {lib_laws : LibraryLaws} {http : HttpLibraries}.

Abbreviation log := (list (some_call (effect H))).
Abbreviation T := (task (Worker S) (effect H)).

(** A fact of the journal, whatever was called. *)
Definition journaled (F : Journal S -> Prop) (w : Worker S) (_ : log) : Prop :=
  sound (wk_journal w) /\ F (wk_journal w).

Lemma stable_journaled (F : Journal S -> Prop) : lasting F -> stable (journaled F).
Proof.
  intros HF. split; [by intros w cs []|]. intros w w' cs Hk [Hs Hf]. split; [apply Hk|by eapply HF].
Qed.

Lemma deaf_journaled (F : Journal S -> Prop) {X : Type} (e : effect H X) : deaf (journaled F) e.
Proof. intros w cs Hw. split; [|intros x]; exact Hw. Qed.

Lemma journaled_weaken (F G : Journal S -> Prop) (w : Worker S) (cs : log) :
  (forall j, F j -> G j) -> journaled F w cs -> journaled G w cs.
Proof. intros HFG [Hs Hf]. split; auto. Qed.

Context (en : env (Worker S) (effect H)) (en_tame : tame en).

Lemma keeps_any_call (F : Journal S -> Prop) {X : Type} (e : effect H X) :
  lasting F -> keeps en (journaled F) (call e).
Proof. intros HF. apply keeps_call; [done|by apply stable_journaled|apply deaf_journaled]. Qed.

Lemma keeps_any_client (F : Journal S -> Prop) {X Y A B : Type} (m : result X A) (e : effect H Y)
  (k : Y -> result X B) :
  lasting F -> keeps en (journaled F) (let&? _ := tret m in let& reply := call e in tret (k reply) : T _).
Proof. intros HF. apply keeps_checked; [done|by apply stable_journaled|apply deaf_journaled]. Qed.

(** A journal operation in the presence of [F], and what it establishes. *)
Lemma journaled_op {A : Type} (m : st (Journal S) JournalError.t A) (F : Journal S -> Prop)
  (G : A -> Journal S -> Prop) :
  preserves (fun _ => True) m -> lasting F -> (forall a, lasting (G a)) ->
  (forall j a j', sound j -> F j -> m j = (Ok a, j') -> G a j') ->
  spec en (journaled F) (journaled F) (journal m)
    (fun r => match r with Ok a => journaled (fun j => F j /\ G a j) | Err _ => journaled F end).
Proof.
  intros Hm HF HG Hr. eapply spec_establish; [done|by apply stable_journaled|done|done| |].
  - intros [a|e]; apply stable_journaled; [|done]. by apply lasting_and.
  - intros w cs [a|e] j [Hs Hf] Hj Hw; [|done]. destruct Hw as [Hs' Hf']. split; [done|].
    split; [done|]. exact (Hr _ _ _ Hs Hf Hj).
Qed.

Context (attempt_names : forall id, rs_name (attempt_file id)).

(** ** Outputs *)

Lemma upload_output_finalized (c : TransferClient) (id : string) (source : bool) (d : CreateUploadRequest)
  (F : Journal S -> Prop) :
  lasting F ->
  spec en (journaled F) (journaled (fun j => F j /\ declared j id d)) (upload_output c id source d)
    (fun m => match m with
              | Ok q => journaled (fun j => F j /\ finalized j id (cu_name d) q)
              | Err _ => journaled F
              end).
Proof.
  intros HF. unfold upload_output.
  assert (HG : lasting (fun j => F j /\ declared j id d))
    by (apply lasting_and; [done|apply lasting_declared]).
  assert (Hw : forall w cs, journaled (fun j => F j /\ declared j id d) w cs -> journaled F w cs)
    by (intros w cs; apply journaled_weaken; by intros j []).
  destruct source; simpl; [|by apply spec_ret].
  apply keeps_try; [apply keeps_map; by apply keeps_any_client|done|by intros e|intros grant].
  apply keeps_try; [apply keeps_map, keeps_journal; [done|by apply stable_journaled|by apply record_output_grant_preserves]
    |done|by intros e|intros _].
  apply keeps_try; [apply keeps_map|done|by intros e|intros object].
  { unfold transfer_put. keeping. by apply keeps_any_call. }
  eapply spec_drop; [|exact Hw]. apply spec_map.
  eapply spec_conseq; [apply (journaled_op _ (fun j => F j /\ declared j id d) (fun q j => finalized j id (cu_name d) q))
    |done|].
  - by apply prepare_output_finalization_preserves.
  - done.
  - intros q. apply lasting_finalized.
  - intros j q j' Hj [_ Hd] Hq. by eapply (prepare_finalization_Ok attempt_names).
  - intros [q|e] w cs Hq; [|by apply Hw]. eapply journaled_weaken; [|exact Hq]. by intros j [[? _] ?].
Qed.

Lemma deliver_output_answered (c : TransferClient) (id name : string) (source : bool)
  (F : Journal S -> Prop) :
  lasting F ->
  spec en (journaled F) (journaled F) (deliver_output c id name source)
    (fun m => match m with
              | Ok s => journaled (fun j => F j /\ exists q, answered j id name q s)
              | Err _ => journaled F
              end).
Proof.
  intros HF. unfold deliver_output.
  set (found_at := fun (o : option AttemptRecord) (j : Journal S) => forall saved u, o = Some saved ->
    List.find (named name) (rc_outputs saved) = Some u -> upload_facts id name u j).
  eapply (spec_bind_ok _ _ _ _ _ (fun o => journaled (fun j => F j /\ found_at o j)) (fun _ => journaled F));
    [|done|intros found].
  { apply spec_map. eapply spec_conseq; [apply (journaled_op (load_attempt id) F found_at)|done|by intros [?|?]].
    - eapply quiet_preserves. intros j r j' Hj Hl. by eapply (load_attempt_spec attempt_names).
    - done.
    - intros o j j' Hk Ho saved u Hs Hu. by eapply lasting_upload_facts; [|eapply Ho].
    - intros j o j' Hj _ Hl saved u -> Hu.
      destruct (load_attempt_keeps attempt_names _ _ _ _ Hj Hl) as (Hj' & _ & Hst).
      by eapply found_upload_facts; [|apply Hst|]. }
  assert (Hw : forall o w cs, journaled (fun j => F j /\ found_at o j) w cs -> journaled F w cs)
    by (intros o w cs; apply journaled_weaken; by intros j []).
  apply spec_pure; [intros e w cs _; apply Hw|]. intros saved Hsaved%ok_or_Ok_inv.
  apply spec_pure; [intros e w cs _; apply Hw|]. intros u Hu%ok_or_Ok_inv.
  eapply (spec_conseq _ _ _ (journaled (fun j => F j /\ upload_facts id name u j)));
    [| |intros m w cs Hm; exact Hm].
  2: { intros w cs. apply journaled_weaken. intros j [Hf Hat]. split; [done|]. by eapply Hat. }
  apply List.find_some in Hu as [_ Hn]. apply bool_decide_eq_true in Hn.
  destruct (ou_response u) as [s|] eqn:Hs.
  { apply spec_ret. intros w cs. apply journaled_weaken. intros j (Hf & _ & _ & Ha). split; [done|by apply Ha]. }
  eapply (spec_bind_ok _ _ _ _ _ (fun q => journaled (fun j => F j /\ finalized j id name q)) (fun _ => journaled F));
    [|done|intros q].
  { destruct (ou_finalization u) as [q|] eqn:Hq.
    - apply spec_ret. intros w cs. apply journaled_weaken. intros j (Hf & _ & Hfin & _).
      split; [done|by apply Hfin].
    - rewrite <- Hn. eapply spec_conseq; [by apply (upload_output_finalized c id source (ou_declaration u) F)| |by intros [?|?]].
      intros w cs. apply journaled_weaken. by intros j (Hf & Hd & _). }
  assert (HG : lasting (fun j => F j /\ finalized j id name q))
    by (apply lasting_and; [done|apply lasting_finalized]).
  assert (Hw' : forall w cs, journaled (fun j => F j /\ finalized j id name q) w cs -> journaled F w cs)
    by (intros w cs; apply journaled_weaken; by intros j []).
  apply keeps_try; [apply keeps_map; by apply keeps_any_client|done|by intros e|intros s].
  eapply (spec_bind_ok _ _ _ _ _ (fun _ => journaled (fun j => F j /\ exists q, answered j id name q s)) (fun _ => journaled F));
    [|done|intros []; by apply spec_ret].
  eapply spec_drop; [|exact Hw']. apply spec_map.
  eapply spec_conseq; [apply (journaled_op _ (fun j => F j /\ finalized j id name q)
    (fun _ j => exists q, answered j id name q s))|done|].
  - by apply record_output_response_preserves.
  - done.
  - intros _ j j' Hk (q' & Hq'). exists q'. by eapply answered_keeps.
  - intros j [] j' Hj [_ Hf] Hq. exists q. by eapply (record_response_Ok attempt_names).
  - intros [[]|e] w cs Hq; [|by apply Hw']. eapply journaled_weaken; [|exact Hq]. by intros j [[? _] ?].
Qed.

Lemma upload_failure_reason (e : UploadError) (reason : FailureReason.t) (again : bool) :
  upload_failure e = Some (reason, again) -> reason <> FailureReason.Unspecified.
Proof. destruct e as [|x|[]|]; simpl; try destruct (retryable x); by intros [= <- <-]. Qed.

Lemma deliver_rounds_spec (c : TransferClient) (id name : string) (left : nat) (F : Journal S -> Prop) :
  lasting F ->
  spec en (journaled F) (journaled F) (deliver_rounds c id name left)
    (fun m w cs => match m with
                   | Ok (inl s) => journaled (fun j => F j /\ exists q, answered j id name q s) w cs
                   | Ok (inr reason) => reason <> FailureReason.Unspecified /\ journaled F w cs
                   | Err _ => journaled F w cs
                   end).
Proof.
  intros HF. induction left as [|n IH]; cbn [deliver_rounds].
  all: eapply spec_bind; [apply (keeps_query en (journaled F)); apply deaf_journaled|intros cloned].
  all: apply spec_pure; [done|intros _ _].
  all: eapply spec_bind; [by apply deliver_output_answered|]; intros [s|e]; [by apply spec_ret|].
  all: destruct (match e with UploadControl _ => _ | _ => _ end); [by apply spec_ret|].
  all: destruct (upload_failure e) as [[reason [|]]|] eqn:Hf; try apply upload_failure_reason in Hf;
    try by apply spec_ret.
  eapply spec_bind; [by apply keeps_any_call|]. intros []. exact IH.
Qed.

(** Every reference is to a durable artifact. *)
Definition backed (id : string) (refs : list OutputReference) (j : Journal S) : Prop :=
  Forall (fun ref => exists q s, answered j id (or_name ref) q s /\ or_artifact_id ref = fr_artifact_id s) refs.

Lemma lasting_backed (id : string) (refs : list OutputReference) : lasting (backed id refs).
Proof.
  intros j j' Hk Hb. eapply Forall_impl; [exact Hb|]. intros ref (q & s & Ha & He). exists q, s.
  split; [by eapply answered_keeps|done].
Qed.

Lemma refer_backed (id name : string) (s : FinalizeUploadResponse) (d : delivered) (j : Journal S) :
  backed id (dl_references d) j -> (exists q, answered j id name q s) ->
  backed id (dl_references (refer name s d)) j.
Proof.
  intros Hb [q Hq]. unfold refer.
  assert (Hnew : backed id (dl_references d ++ [{| or_name := name; or_artifact_id := fr_artifact_id s |}]) j)
    by (apply Forall_app; split; [done|]; apply Forall_singleton; by exists q, s).
  case_bool_decide; [destruct (dl_metrics d)|]; done.
Qed.

Abbreviation names d := (map or_name (dl_references d)).

(** Metrics to come can still be referenced, or are already. *)
Definition metrics_ready (os : list CollectedOutput) (d : delivered) : Prop :=
  existsb is_metrics os = true -> dl_metrics d <> None \/ "metrics"%string ∈ names d.

Lemma refer_named (name : string) (s : FinalizeUploadResponse) (d : delivered) :
  names d ⊆ names (refer name s d)
  /\ (name = "metrics"%string -> dl_metrics d <> None \/ "metrics"%string ∈ names d ->
      "metrics"%string ∈ names (refer name s d))
  /\ (name <> "metrics"%string -> name ∈ names (refer name s d)
      /\ dl_metrics (refer name s d) = dl_metrics d)
  /\ dl_failure (refer name s d) = dl_failure d.
Proof.
  unfold refer. case_bool_decide as Hn.
  - destruct (dl_metrics d) as [src|] eqn:Hm; cbn [dl_references dl_metrics dl_failure].
    + rewrite map_app. split_and!; [set_solver| |done|done]. intros _ _. cbn [map or_name]. set_solver.
    + split_and!; [done| |done|done]. by intros _ [|].
  - cbn [dl_references dl_metrics dl_failure]. rewrite map_app. cbn [map or_name].
    split_and!; [set_solver|done| |done]. intros _. split; [set_solver|done].
Qed.

Definition all_referenced (os : list CollectedOutput) (d d' : delivered) : Prop :=
  dl_failure d' = FailureReason.Unspecified ->
  dl_failure d = FailureReason.Unspecified
  /\ (metrics_ready os d -> names d ⊆ names d' /\ forall o, o ∈ os -> co_name o ∈ names d').

Lemma all_referenced_cons (o : CollectedOutput) (os : list CollectedOutput) (s : FinalizeUploadResponse)
  (d d' : delivered) :
  all_referenced os (refer (co_name o) s d) d' -> all_referenced (o :: os) d d'.
Proof.
  intros H0 Hf. destruct (H0 Hf) as [Hf' Hall]. destruct (refer_named (co_name o) s d) as (Hsub & Hm & Ho & He).
  split; [congruence|]. intros Hready.
  destruct (decide (co_name o = "metrics"%string)) as [Hn|Hn].
  - assert (Hin : "metrics"%string ∈ names (refer (co_name o) s d)).
    { apply Hm; [done|]. apply Hready. simpl. unfold is_metrics. by rewrite bool_decide_eq_true_2. }
    destruct Hall as [Hsub' Hall]; [by right|]. split; [set_solver|].
    intros x [->|Hx]%elem_of_cons; [rewrite Hn; set_solver|by apply Hall].
  - destruct (Ho Hn) as [Hin Hmd]. destruct Hall as [Hsub' Hall].
    { intros Hex. rewrite Hmd. destruct Hready as [?|?]; [simpl; by rewrite Hex, orb_true_r|by left|right; set_solver]. }
    split; [set_solver|]. intros x [->|Hx]%elem_of_cons; [set_solver|by apply Hall].
Qed.

Lemma deliver_outputs_spec (c : TransferClient) (id : string) (os : list CollectedOutput)
  (F : Journal S -> Prop) (d : delivered) :
  lasting F ->
  spec en (journaled F) (journaled (fun j => F j /\ backed id (dl_references d) j))
    (deliver_outputs c id os d)
    (fun m w cs => match m with
       | Ok d' => journaled (fun j => F j /\ backed id (dl_references d') j) w cs /\ all_referenced os d d'
       | Err _ => journaled F w cs
       end).
Proof.
  intros HF. revert d. induction os as [|o os IH]; intros d; cbn [deliver_outputs].
  { apply spec_ret. intros w cs Hw. split; [done|]. intros Hf. split; [done|]. split; [done|set_solver]. }
  set (B := fun j => F j /\ backed id (dl_references d) j).
  assert (HB : lasting B) by (apply lasting_and; [done|apply lasting_backed]).
  assert (Hw : forall w cs, journaled B w cs -> journaled F w cs)
    by (intros w cs; apply journaled_weaken; by intros j []).
  apply keeps_try; [apply keeps_map, keeps_journal;
    [done|by apply stable_journaled|by apply prepare_output_plan_preserves]|exact Hw|intros e; exact Hw|intros declared].
  eapply (spec_bind_ok _ _ _ _ _ (fun x w cs => match x with
    | inl s => journaled (fun j => B j /\ exists q, answered j id (co_name o) q s) w cs
    | inr reason => reason <> FailureReason.Unspecified /\ journaled B w cs end) (fun _ => journaled F)); [|done|].
  { eapply spec_drop; [|exact Hw]. eapply spec_conseq; [by apply deliver_rounds_spec|done|].
    intros [[s|reason]|e] w cs Hx; [exact Hx|exact Hx|by apply Hw]. }
  intros [s|reason].
  - eapply spec_conseq; [apply IH| |].
    + intros w cs. apply journaled_weaken. intros j [[Hf Hb] Hq]. split; [done|by apply refer_backed].
    + intros [d'|e] w cs Hd; [|exact Hd]. destruct Hd as [Hd Hall]. split; [done|].
      by eapply all_referenced_cons.
  - apply spec_ret. intros w cs [Hr Hj]. split; [exact Hj|]. intros Hf. exfalso. revert Hf. simpl.
    case_bool_decide as Hi; [by rewrite Hi|done].
Qed.

(** ** Sealing *)

(** A completion of the attempt, on record or moved aside by a cancellation. *)
Abbreviation sealed_as id q := (on_record (S := S) id
  (fun r => rc_completion r = Some q \/ rc_rejected_completion r = Some q)).

Lemma lasting_sealed (id : string) (q : CompleteAttemptRequest) : lasting (sealed_as id q).
Proof.
  apply lasting_record. intros r r' He [Hq|Hq].
  - destruct (ev_completion _ _ He q Hq) as [?|(_ & ? & _)]; auto.
  - right. by apply (ev_rejected _ _ He).
Qed.

Lemma supersede_Ok (q : CompleteAttemptRequest) (a : AttemptAuthority) (j j' : Journal S) :
  sound j -> ca_authority q = Some a -> supersede_rejected_completion q j = (Ok tt, j') ->
  sealed_as (aa_attempt_id a) q j'.
Proof.
  intros Hj Ha Hs. unfold supersede_rejected_completion in Hs. unfold st_bind at 1, st_lift at 1 in Hs.
  destruct (completion_request_ok q); [|done]. rewrite Ha in Hs. cbn [ok_or] in Hs.
  unfold st_bind at 1, st_lift at 1 in Hs.
  apply (required_bind_Ok attempt_names) in Hs as (rec & j1 & Hst & Hsame & Hj1 & Hs); [|done].
  destruct (_ || _); [done|]. unfold st_bind at 1, st_lift at 1 in Hs.
  destruct (rc_completion rec) as [previous|]; [|done]. cbn [ok_or] in Hs.
  unfold st_bind at 1, st_lift at 1 in Hs. destruct (rc_completion_response rec) as [response|]; [|done].
  cbn [ok_or] in Hs. destruct (_ || _); [done|]. apply (save_Ok attempt_names) in Hs; [|done].
  exists (with_superseded previous response q rec). split; [done|by left].
Qed.

Lemma seal_with_spec (persist : CompleteAttemptRequest -> st (Journal S) JournalError.t unit)
  (make : string -> CompleteAttemptRequest) (identity : AttemptAuthority) (F : Journal S -> Prop) :
  (forall q, preserves (fun _ => True) (persist q)) ->
  (forall q j j', sound j -> ca_authority q = Some identity -> persist q j = (Ok tt, j') ->
     sealed_as (aa_attempt_id identity) q j') ->
  (forall i, ca_authority (make i) = Some identity) -> lasting F ->
  spec en (journaled F) (journaled F) (seal_with persist make)
    (fun m w cs => match m with
       | Ok q => journaled (fun j => F j /\ sealed_as (aa_attempt_id identity) q j) w cs
           /\ exists i digest, q = with_digest digest (make i)
       | Err _ => journaled F w cs
       end).
Proof.
  intros Hp Hq Hm HF. unfold seal_with, fresh_uuid.
  apply keeps_try; [keeping; apply keeps_query, deaf_journaled|done..|intros i].
  apply spec_pure; [done|intros digest _].
  eapply (spec_bind_ok _ _ _ _ _ (fun _ => journaled (fun j => F j
    /\ sealed_as (aa_attempt_id identity) (with_digest digest (make i)) j)) (fun _ => journaled F)); [|done|].
  - apply spec_map. eapply spec_conseq; [apply (journaled_op _ F
      (fun _ => sealed_as (aa_attempt_id identity) (with_digest digest (make i))))|done|by intros [?|?]].
    + apply Hp.
    + done.
    + intros _. apply lasting_sealed.
    + intros j [] j' Hj _ Hr. eapply Hq; [done| |exact Hr]. apply Hm.
  - intros _. apply spec_ret. intros w cs Hw. split; [done|]. by exists i, digest.
Qed.

Lemma persist_sealed (identity : AttemptAuthority) (q : CompleteAttemptRequest) (j j' : Journal S) :
  sound j -> ca_authority q = Some identity -> persist_completion q j = (Ok tt, j') ->
  sealed_as (aa_attempt_id identity) q j'.
Proof.
  intros Hj Ha Hq. destruct (persist_completion_Ok attempt_names q identity j j' Hj Ha Hq) as (r & Hr & Hc).
  exists r. split; [done|by left].
Qed.

Definition clean_exit (e : ExitEvidence) : Prop := e = {| ev_exit_code := 0; ev_oom_killed := false |}.

Lemma reason_clean (e : ExitEvidence) (failure : FailureReason.t) :
  completion_reason e failure = FailureReason.Unspecified ->
  clean_exit e /\ failure = FailureReason.Unspecified.
Proof.
  unfold completion_reason, clean_exit. destruct e as [code oom]. simpl. destruct oom; [done|].
  destruct (Z.eqb_spec code 0) as [->|]; [done|done].
Qed.

Lemma collects_required (io : collect_io) (limits : CollectionLimits) (outputs : list string)
  (ds : list Output) (os : list CollectedOutput) (d : Output) :
  collects io limits outputs ds os -> d ∈ ds -> out_required d = true ->
  exists o, o ∈ os /\ co_name o = out_name d.
Proof.
  intros Hc Hd Hr. induction Hc as [|d' ds os Hopt Hm Hc IH|d' ds o os Hopen Hfrom Hc IH].
  - by apply elem_of_nil in Hd.
  - apply elem_of_cons in Hd as [->|Hd]; [congruence|by apply IH].
  - apply elem_of_cons in Hd as [->|Hd].
    + exists o. split; [left|apply (cf_name _ _ _ _ Hfrom)].
    + destruct (IH Hd) as (o' & Ho' & Hn). exists o'. split; [by right|done].
Qed.

(** What a completion that is sealed now says. *)
Definition truthful (id : string) (exit : ExitEvidence) (x : ExecutionSpec) (q : CompleteAttemptRequest) : Prop :=
  ca_reason q = FailureReason.to_i32 FailureReason.Unspecified ->
  clean_exit exit
  /\ forall d, d ∈ js_outputs (job_spec (es_job x)) -> out_required d = true ->
     exists ref, ref ∈ ca_outputs q /\ or_name ref = out_name d.

Lemma to_i32_unspecified (r : FailureReason.t) :
  FailureReason.to_i32 r = FailureReason.to_i32 FailureReason.Unspecified -> r = FailureReason.Unspecified.
Proof. by destruct r. Qed.

Lemma complete_outputs_spec (c : TransferClient) (identity : AttemptAuthority) (exit : ExitEvidence)
  (logs : LogSummary) (a : Assignment) (x : ExecutionSpec) (F : Journal S -> Prop) :
  execution_of a = Ok x -> lasting F ->
  spec en (journaled F) (journaled F) (complete_outputs c identity exit logs a)
    (fun m w cs => match m with
       | Ok q => journaled (fun j => F j /\ backed (aa_attempt_id identity) (ca_outputs q) j
             /\ sealed_as (aa_attempt_id identity) q j) w cs
           /\ ca_authority q = Some identity /\ truthful (aa_attempt_id identity) exit x q
       | Err _ => journaled F w cs
       end).
Proof.
  intros Hx HF. unfold complete_outputs. rewrite Hx. apply spec_pure; [done|]. intros x' [= <-].
  eapply spec_bind; [by apply keeps_any_call|]. intros answers.
  apply spec_pure; [done|]. intros [[os metrics] failure] [_ Hsettled]%settle_collection_Ok.
  set (id := aa_attempt_id identity).
  eapply (spec_bind_ok _ _ _ _ _ (fun d w cs => all_referenced os
    {| dl_references := []; dl_metrics := metrics; dl_metrics_json := []; dl_failure := failure |} d
    /\ journaled (fun j => F j /\ backed id (dl_references d) j) w cs) (fun _ => journaled F)); [|done|].
  { eapply spec_conseq; [by apply (deliver_outputs_spec c id os F)| |].
    - intros w cs. apply journaled_weaken. intros j Hf. split; [done|]. apply Forall_nil_2.
    - intros [d|e] w cs Hd; [by destruct Hd|done]. }
  intros d. apply spec_fact. intros Hall.
  assert (HB : lasting (fun j => F j /\ backed id (dl_references d) j))
    by (apply lasting_and; [done|apply lasting_backed]).
  eapply spec_drop; [eapply spec_conseq; [apply (seal_with_spec persist_completion (full_completion identity exit logs d)
    identity (fun j => F j /\ backed id (dl_references d) j))|done|]|].
  - intros q. by apply persist_completion_preserves.
  - intros q. apply persist_sealed.
  - done.
  - done.
  - intros [q|e] w cs Hq.
    2: { eapply journaled_weaken; [|exact Hq]. by intros j []. }
    destruct Hq as [Hq (i & digest & ->)]. split_and!; [|done|].
    { eapply journaled_weaken; [|exact Hq]. by intros j [[? ?] ?]. }
    intros Hr%to_i32_unspecified. apply reason_clean in Hr as [Hexit Hf]. split; [done|].
    intros o Ho Hreq. destruct (Hall Hf) as [Hf0 Href]. destruct (Hsettled Hf0) as (cio & mio & _ & Hc & Hm).
    apply collect_outputs_collects in Hc as [Hc _].
    destruct (collects_required _ _ _ _ _ o Hc Ho Hreq) as (co & Hco & Hn).
    destruct Href as [_ Href]; [intros He; left; by apply Hm|]. specialize (Href co Hco).
    apply list_elem_of_In, List.in_map_iff in Href as (ref & Hrn & Hrin).
    exists ref. split; [by apply list_elem_of_In|congruence].
  - intros w cs. apply journaled_weaken. by intros j [].
Qed.

(** A record loaded is on record while evidence lasts. *)
Lemma load_saved_from (id : string) (missing : FinalizationError) (F : Journal S -> Prop)
  (G : AttemptRecord -> Journal S -> Prop) :
  lasting F -> (forall r, lasting (G r)) ->
  (forall r j, sound j -> F j -> stored j id = Some r -> G r j) ->
  spec en (journaled (fun _ => True)) (journaled F) (load_saved id missing)
    (fun m => match m with Ok r => journaled (G r) | Err _ => journaled (fun _ => True) end).
Proof.
  intros HF HG Hr. unfold load_saved.
  eapply (spec_bind_ok _ _ _ _ _ (fun o => journaled (fun j => forall r, o = Some r -> G r j))
    (fun _ => journaled (fun _ => True))); [|done|].
  - apply spec_map. eapply spec_drop; [eapply spec_conseq; [apply (journaled_op (load_attempt id) F
      (fun o j => forall r, o = Some r -> G r j))|done|]|by intros w cs; apply journaled_weaken].
    + eapply quiet_preserves. intros j r j' Hj Hl. by eapply (load_attempt_spec attempt_names).
    + done.
    + intros o j j' Hk Ho r Heq. eapply HG; [exact Hk|by apply Ho].
    + intros j o j' Hj Hf Hl r ->.
      destruct (load_attempt_keeps attempt_names _ _ _ _ Hj Hl) as (Hj' & Hk & Hst). apply Hr; [done|by eapply HF|by apply Hst].
    + intros [o|e] w cs; apply journaled_weaken; [by intros j []|done].
  - intros [r|]; apply spec_ret; intros w cs; apply journaled_weaken; [|done]. intros j Ho. by apply Ho.
Qed.

Lemma load_saved_spec (id : string) (missing : FinalizationError) (G : AttemptRecord -> Journal S -> Prop) :
  (forall r, lasting (G r)) ->
  (forall r j, sound j -> stored j id = Some r -> G r j) ->
  spec en (journaled (fun _ => True)) (journaled (fun _ => True)) (load_saved id missing)
    (fun m => match m with Ok r => journaled (G r) | Err _ => journaled (fun _ => True) end).
Proof. intros HG Hr. apply load_saved_from; auto. by intros j j'. Qed.

Abbreviation nothing := (fun _ : Journal S => True).

Lemma spec_finalizing {A : Type} (f : FinalizingAttempt H) (t : T (result FinalizationError A))
  (R : A -> Worker S -> log -> Prop) :
  (forall a w cs, R a w cs -> journaled nothing w cs) ->
  spec en (journaled nothing) (journaled nothing) t
    (fun m => match m with Ok a => R a | Err _ => journaled nothing end) ->
  spec en (journaled nothing) (journaled nothing) (finalizing f t)
    (fun m => match m with Ok a => R a | Err _ => journaled nothing end).
Proof.
  intros HR Ht. unfold finalizing, while_finalizing.
  eapply spec_bind; [eapply (spec_bounded en (journaled nothing)); [done| |exact Ht]|].
  - intros [a|e] w cs Hm; [by eapply HR|done].
  - intros [[a|e]|reason]; by apply spec_ret.
Qed.

(** What is known of a completion found on record. *)
Definition standing (id : string) (r : AttemptRecord) (q : CompleteAttemptRequest) (j : Journal S) : Prop :=
  sealed_as id q j /\ ca_authority q = as_authority (rc_assignment r)
  /\ (ca_reason q = FailureReason.to_i32 FailureReason.Unspecified ->
      exists e, rc_exit r = Some e /\ clean_exit e).

Lemma lasting_standing (id : string) (r : AttemptRecord) :
  lasting (fun j => forall q, rc_completion r = Some q -> standing id r q j).
Proof.
  intros j j' Hk Hq q Hc. destruct (Hq q Hc) as (Hs & Ha). split; [by eapply lasting_sealed|done].
Qed.

Lemma completion_stands (id : string) (r : AttemptRecord) (j : Journal S) :
  sound j -> stored j id = Some r -> forall q, rc_completion r = Some q -> standing id r q j.
Proof.
  intros Hj Hr q Hq. pose proof (sound_stored _ _ _ Hj Hr) as Hv. split_and!.
  - exists r. split; [done|by left].
  - pose proof (va_completion _ _ _ Hv) as Hc. unfold validate_completion in Hc. rewrite Hq in Hc.
    apply rbind_Ok_inv in Hc as (u & _ & Hc). apply rbind_Ok_inv in Hc as (v & _ & Hc).
    destruct (_ || _) eqn:Hb; [done|]. apply orb_false_iff in Hb as [Hb%bool_decide_negb_false _]. done.
  - intros Hreason. destruct (validated_success _ _ _ _ Hv Hq Hreason) as [Hexit _ _ _]. by eexists.
Qed.

Lemma prepare_completion_spec (c : TransferClient) (f : FinalizingAttempt H) (ws : PreparedWorkspace)
  (logs : LogSummary) :
  spec en (journaled nothing) (journaled nothing) (prepare_completion c f ws logs)
    (fun m w cs => match m with
       | Ok q => journaled (sealed_as (aa_attempt_id (fa_identity f)) q) w cs
           /\ ca_authority q = Some (fa_identity f)
           /\ (ca_reason q = FailureReason.to_i32 FailureReason.Unspecified -> clean_exit (fa_exit f))
       | Err _ => journaled nothing w cs
       end).
Proof.
  unfold prepare_completion. destruct (negb _); [by apply spec_ret|]. set (id := aa_attempt_id (fa_identity f)).
  eapply spec_conseq; [apply (spec_finalizing f _ (fun q w cs => journaled (sealed_as id q) w cs
    /\ ca_authority q = Some (fa_identity f)
    /\ (ca_reason q = FailureReason.to_i32 FailureReason.Unspecified -> clean_exit (fa_exit f))))|done|by intros [?|?]].
  { intros q w cs [Hq _]. by eapply journaled_weaken; [|exact Hq]. }
  eapply (spec_bind_ok _ _ _ _ _ (fun r => journaled (fun j => forall q, rc_completion r = Some q -> standing id r q j))
    (fun _ => journaled nothing)); [apply load_saved_spec|done|intros saved].
  { intros r. apply lasting_standing. }
  { intros r j. apply completion_stands. }
  destruct (_ || _) eqn:Hguard; [apply spec_ret; intros w cs; by apply journaled_weaken|].
  apply orb_false_iff in Hguard as [Ha%bool_decide_negb_false He%bool_decide_negb_false].
  destruct (rc_completion saved) as [q|].
  - apply spec_ret. intros w cs [Hs Hq]. destruct (Hq q eq_refl) as (Hseal & Hauth & Hclean).
    split_and!; [by split|congruence|]. intros Hr. destruct (Hclean Hr) as (e & He' & Hc). congruence.
  - destruct (execution_of (rc_assignment saved)) as [x|e] eqn:Hx.
    2: { unfold complete_outputs. rewrite Hx. apply spec_pure; [|done]. intros e' w cs _. by apply journaled_weaken. }
    eapply spec_conseq; [by apply (complete_outputs_spec c (fa_identity f) (fa_exit f) logs (rc_assignment saved) x nothing Hx)
      |intros w cs; by apply (journaled_weaken _ nothing)|].
    intros [q|e] w cs Hq; [|done]. destruct Hq as (Hq & Hauth & Ht). split_and!; [|done|].
    + eapply journaled_weaken; [|exact Hq]. by intros j (_ & _ & ?).
    + intros Hr. by apply Ht.
Qed.

(** A completion without outputs: found on record, or sealed now. *)
Definition closed_as (identity : AttemptAuthority) (reason : FailureReason.t) (q : CompleteAttemptRequest)
  (j : Journal S) : Prop :=
  sealed_as (aa_attempt_id identity) q j /\ ca_authority q = Some identity
  /\ ca_reason q = FailureReason.to_i32 reason /\ ca_stopped q = true.

Lemma seal_bare_spec (persist : CompleteAttemptRequest -> st (Journal S) JournalError.t unit)
  (identity : AttemptAuthority) (reason : FailureReason.t) (code : option Z) (F : Journal S -> Prop) :
  (forall q, preserves (fun _ => True) (persist q)) ->
  (forall q j j', sound j -> ca_authority q = Some identity -> persist q j = (Ok tt, j') ->
     sealed_as (aa_attempt_id identity) q j') -> lasting F ->
  spec en (journaled nothing) (journaled F) (seal_with persist (bare_completion identity reason code))
    (fun m => match m with Ok q => journaled (fun j => F j /\ closed_as identity reason q j) | Err _ => journaled nothing end).
Proof.
  intros Hp Hq HF. assert (Hw : forall w cs, journaled F w cs -> journaled nothing w cs)
    by (intros w cs; by apply journaled_weaken).
  eapply spec_drop; [eapply spec_conseq; [by apply (seal_with_spec persist _ identity F)|done|]|exact Hw].
  intros [q|e] w cs Hm; [|by apply Hw]. destruct Hm as [Hm (i & digest & ->)].
  eapply journaled_weaken; [|exact Hm]. intros j [Hf Hs]. split; [done|]. by split_and!.
Qed.

Lemma standing_closed (identity : AttemptAuthority) (reason : FailureReason.t) (r : AttemptRecord)
  (q : CompleteAttemptRequest) (j : Journal S) :
  standing (aa_attempt_id identity) r q j -> as_authority (rc_assignment r) = Some identity ->
  (ca_reason q =? FailureReason.to_i32 reason)%Z && ca_stopped q = true -> closed_as identity reason q j.
Proof.
  intros (Hs & Ha & _) Hi [Hr%Z.eqb_eq Hst]%andb_true_iff. split_and!; [done|congruence|done|done].
Qed.

(** Before a container exists. *)
Lemma prepare_unlaunched_spec (identity : AttemptAuthority) (reason : FailureReason.t) :
  spec en (journaled nothing) (journaled nothing) (prepare_unlaunched_failure identity reason)
    (fun m => match m with Ok q => journaled (closed_as identity reason q) | Err _ => journaled nothing end).
Proof.
  unfold prepare_unlaunched_failure. set (id := aa_attempt_id identity).
  eapply (spec_bind_ok _ _ _ _ _ (fun r => journaled (fun j => forall q, rc_completion r = Some q -> standing id r q j))
    (fun _ => journaled nothing)); [apply load_saved_spec|done|intros saved].
  { intros r. apply lasting_standing. }
  { intros r j. apply completion_stands. }
  assert (Hw : forall w cs, journaled (fun j => forall q, rc_completion saved = Some q -> standing id saved q j) w cs ->
    journaled nothing w cs) by (intros w cs; by apply journaled_weaken).
  case_bool_decide as Ha; [|by apply spec_ret]. cbn [negb]. destruct (_ || _); [by apply spec_ret|].
  destruct (rc_completion saved) as [q|].
  - apply spec_ret. intros w cs Hq. unfold replayed. destruct (_ && _) eqn:Hr; [|by apply Hw].
    eapply journaled_weaken; [|exact Hq]. intros j Hj. by eapply standing_closed; [apply Hj| |].
  - eapply spec_conseq; [apply (seal_bare_spec persist_completion identity reason None nothing)| |].
    + intros q. by apply persist_completion_preserves.
    + intros q. apply persist_sealed.
    + done.
    + exact Hw.
    + intros [q|e] w cs Hq; [|done]. eapply journaled_weaken; [|exact Hq]. by intros j [].
Qed.

(** The attempt has a container on record. *)
Abbreviation created id := (on_record (S := S) id (fun r => rc_container_id r <> EmptyString)).

Lemma lasting_created (id : string) : lasting (created id).
Proof. apply lasting_record. intros r r' He Hc. by rewrite (ev_container _ _ He). Qed.

(** Cleanup evidence that fits the record. *)
Definition confirmed (id : string) (cleanup : CleanupEvidence) (j : Journal S) : Prop :=
  cleanup = NotCreated \/ (cleanup = StoppedEvidence /\ created id j).

Lemma lasting_confirmed (id : string) (cleanup : CleanupEvidence) : lasting (confirmed id cleanup).
Proof. intros j j' Hk [?|[? Hc]]; [by left|right]. split; [done|by eapply lasting_created]. Qed.

(** A loaded record: its completion stands, and confirmed cleanup fits it. *)
Definition loaded_facts (id : string) (cleanup : CleanupEvidence) (r : AttemptRecord) (j : Journal S) : Prop :=
  (forall q, rc_completion r = Some q -> standing id r q j)
  /\ (cleanup_confirmed cleanup (has_container r) = true -> confirmed id cleanup j).

Lemma lasting_loaded (id : string) (cleanup : CleanupEvidence) (r : AttemptRecord) :
  lasting (loaded_facts id cleanup r).
Proof.
  apply lasting_and; [apply lasting_standing|]. intros j j' Hk Hc Hb. by eapply lasting_confirmed; [|apply Hc].
Qed.

Lemma stored_loaded (id : string) (cleanup : CleanupEvidence) (r : AttemptRecord) (j : Journal S) :
  sound j -> stored j id = Some r -> loaded_facts id cleanup r j.
Proof.
  intros Hj Hr. split; [by apply completion_stands|]. unfold has_container, confirmed.
  destruct cleanup; [by left| |done]. intros Hc. right. split; [done|]. exists r. split; [done|].
  by destruct (rc_container_id r).
Qed.

Lemma prepare_cancelled_spec (identity : AttemptAuthority) (cleanup : CleanupEvidence) :
  spec en (journaled nothing) (journaled nothing) (prepare_cancelled_completion identity cleanup)
    (fun m => match m with
       | Ok q => journaled (fun j => confirmed (aa_attempt_id identity) cleanup j
           /\ closed_as identity FailureReason.UserCancelled q j)
       | Err _ => journaled nothing
       end).
Proof.
  unfold prepare_cancelled_completion. set (id := aa_attempt_id identity).
  eapply (spec_bind_ok _ _ _ _ _ (fun r => journaled (loaded_facts id cleanup r)) (fun _ => journaled nothing));
    [apply load_saved_spec; [apply lasting_loaded|apply stored_loaded]|done|intros saved].
  assert (Hw : forall w cs, journaled (loaded_facts id cleanup saved) w cs -> journaled nothing w cs)
    by (intros w cs; by apply journaled_weaken).
  case_bool_decide as Ha; [|by apply spec_ret]. cbn [negb].
  destruct (cleanup_confirmed cleanup (has_container saved)) eqn:Hc; [|by apply spec_ret]. cbn [negb].
  assert (Hseal : forall persist, (forall q, preserves (fun _ => True) (persist q)) ->
    (forall q j j', sound j -> ca_authority q = Some identity -> persist q j = (Ok tt, j') ->
      sealed_as (aa_attempt_id identity) q j') ->
    spec en (journaled nothing) (journaled (loaded_facts id cleanup saved))
      (seal_with persist (bare_completion identity FailureReason.UserCancelled (ev_exit_code <$> rc_exit saved)))
      (fun m => match m with
         | Ok q => journaled (fun j => confirmed id cleanup j /\ closed_as identity FailureReason.UserCancelled q j)
         | Err _ => journaled nothing end)).
  { intros persist Hp Hq. eapply spec_conseq; [by apply (seal_bare_spec persist identity FailureReason.UserCancelled _ (confirmed id cleanup)), lasting_confirmed| |done].
    intros w cs. apply journaled_weaken. intros j [_ Hj]. by apply Hj. }
  destruct (rc_completion saved) as [q|] eqn:Hcomp.
  - destruct (_ && _) eqn:Hr.
    + apply spec_ret. intros w cs. apply journaled_weaken. intros j [Hs Hj].
      split; [by apply Hj|]. by eapply standing_closed; [apply Hs| |].
    + destruct (stop_was_requested saved); [|by apply spec_ret].
      apply Hseal; [intros q'; by apply supersede_preserves|intros q' j j' Hj; by apply supersede_Ok].
  - apply Hseal; [intros q'; by apply persist_completion_preserves|intros q'; apply persist_sealed].
Qed.

(** A container on record is not one that was never created. *)
Lemma prepare_cancelled_refuses (identity : AttemptAuthority) :
  spec en (journaled nothing) (journaled (created (aa_attempt_id identity)))
    (prepare_cancelled_completion identity NotCreated) (fun m _ _ => is_ok m = false).
Proof.
  unfold prepare_cancelled_completion.
  eapply (spec_bind_ok _ _ _ _ _ (fun r => journaled (fun _ => rc_container_id r <> EmptyString)) (fun _ => journaled nothing));
    [apply load_saved_from; [apply lasting_created|by intros r j j'|]|done|intros saved].
  { intros r j _ (r' & Hr' & Hc) Hr. by simplify_eq. }
  destruct (negb _); [by apply spec_ret|].
  eapply spec_fact_of; [intros w cs [_ Hc]; exact Hc|intros Hc]. unfold has_container, cleanup_confirmed.
  destruct (rc_container_id saved); [done|]. by apply spec_ret.
Qed.
End Evidence.

(** * Properties *)

Section FinalizeProperties.
Context {S H : Type} {ops : RecordStore S} {laws : RecordStoreLaws S}.
Context {lib : Libraries} {lib_laws : LibraryLaws} {http : HttpLibraries}.
Context (attempt_names : forall id, rs_name (attempt_file id)).

(** A completion that finalization returns is on record and truthful.  The
    journal has it, as the attempt's completion or as the one a cancellation
    moved aside; it is for the attempt's authority; and it claims success only
    for an exit with code 0 that was not an OOM kill. *)
Theorem returned_completion_is_on_record (c : TransferClient) (f : FinalizingAttempt H)
  (ws : PreparedWorkspace) (logs : LogSummary) (en : env (Worker S) (effect H))
  (r r' : exec (Worker S) (effect H)) (q : CompleteAttemptRequest) :
  sound (wk_journal (ex_state r)) -> tame en ->
  prepare_completion c f ws logs en r = (Some (Ok q), r') ->
  (exists record, stored (wk_journal (ex_state r')) (aa_attempt_id (fa_identity f)) = Some record
    /\ (rc_completion record = Some q \/ rc_rejected_completion record = Some q))
  /\ ca_authority q = Some (fa_identity f)
  /\ (ca_reason q = FailureReason.to_i32 FailureReason.Unspecified ->
      ev_exit_code (fa_exit f) = 0%Z /\ ev_oom_killed (fa_exit f) = false).
Proof.
  intros Hs Ht Hp. pose proof (prepare_completion_spec en Ht attempt_names c f ws logs r) as Hspec.
  rewrite Hp in Hspec. destruct Hspec as ([_ Hq] & Ha & Hc); [by split|]. split_and!; [done|done|].
  intros Hr. by rewrite (Hc Hr).
Qed.

(** C18: success references every required output.  A completion sealed from
    collected outputs that claims success refers to an artifact for every
    required output the job declares, and each of its references is the answer
    on record to the finalization of that output. *)
Theorem success_references_every_output (c : TransferClient) (identity : AttemptAuthority)
  (exit : ExitEvidence) (logs : LogSummary) (a : Assignment) (x : ExecutionSpec)
  (en : env (Worker S) (effect H)) (r r' : exec (Worker S) (effect H)) (q : CompleteAttemptRequest) :
  sound (wk_journal (ex_state r)) -> tame en -> execution_of a = Ok x ->
  complete_outputs c identity exit logs a en r = (Some (Ok q), r') ->
  ca_reason q = FailureReason.to_i32 FailureReason.Unspecified ->
  (forall d, d ∈ js_outputs (job_spec (es_job x)) -> out_required d = true ->
     exists ref, ref ∈ ca_outputs q /\ or_name ref = out_name d)
  /\ forall ref, ref ∈ ca_outputs q -> exists f s,
     answered (wk_journal (ex_state r')) (aa_attempt_id identity) (or_name ref) f s
     /\ or_artifact_id ref = fr_artifact_id s.
Proof.
  intros Hs Ht Hx Hp Hr.
  pose proof (complete_outputs_spec en Ht attempt_names c identity exit logs a x (fun _ => True) Hx
    ltac:(done) r) as Hspec.
  rewrite Hp in Hspec. destruct Hspec as ([_ (_ & Hb & _)] & _ & Htrue); [by split|].
  split; [by apply (Htrue Hr)|]. intros ref Href. unfold backed in Hb. rewrite Forall_forall in Hb.
  by apply Hb.
Qed.

(** C29: a cancellation is acknowledged only once the container is known not to
    run.  A completion with the reason UserCancelled is prepared only with the
    evidence that nothing was created, and then no container was on the attempt's
    record when the call began; or with the evidence that it stopped, and then one
    is on record.  It is on record when it is returned. *)
Theorem cancellation_needs_confirmed_cleanup (identity : AttemptAuthority) (cleanup : CleanupEvidence)
  (en : env (Worker S) (effect H)) (r r' : exec (Worker S) (effect H)) (q : CompleteAttemptRequest) :
  let id := aa_attempt_id identity in
  sound (wk_journal (ex_state r)) -> tame en ->
  prepare_cancelled_completion identity cleanup en r = (Some (Ok q), r') ->
  ((cleanup = NotCreated
    /\ forall record, stored (wk_journal (ex_state r)) id = Some record -> rc_container_id record = EmptyString)
   \/ (cleanup = StoppedEvidence
       /\ exists record, stored (wk_journal (ex_state r')) id = Some record /\ rc_container_id record <> EmptyString))
  /\ closed_as identity FailureReason.UserCancelled q (wk_journal (ex_state r')).
Proof.
  intros id Hs Ht Hp. pose proof (prepare_cancelled_spec en Ht attempt_names identity cleanup r) as Hspec.
  rewrite Hp in Hspec. destruct Hspec as [_ [Hc Hq]]; [done|]. split; [|done].
  destruct Hc as [->|[-> Hc]]; [left|by right]. split; [done|]. intros record Hr.
  destruct (decide (rc_container_id record = EmptyString)) as [|Hne]; [done|].
  pose proof (prepare_cancelled_refuses en Ht attempt_names identity r) as Href. rewrite Hp in Href.
  discriminate Href. split; [done|]. by exists record.
Qed.
End FinalizeProperties.

(** ** Witnesses *)

#[local] Existing Instance key_http.

Definition no_file : IoError := {| ie_not_plain := false; ie_kind := Os.NotFound |}.

Definition no_metrics : metrics_io :=
  {| mo_before := Err no_file; mo_rewind := Ok tt; mo_body := Err no_file; mo_after := Err no_file;
     mo_rewind_again := Ok tt |}.

(** Storage that accepts, and a workspace with the declared model. *)
Definition finishing (n : nat) (X : Type) (e : effect string X) : X :=
  match e in effect _ X return X with
  | CollectOutputs => Some (collect_io_fixture, no_metrics)
  | FreshId => Some ["009"%byte]
  | e' => storing n _ e'
  end.

Definition open_look : look :=
  {| lk_shared := {| sh_identity := identity_fixture;
                     sh_state := Live {| sent := 100000000000; deadline := 125000000000 |};
                     sh_requested := 0; sh_acknowledged := 0; sh_senders := 1; sh_receivers := 1 |};
     lk_clock := Ok 101000000000 |}.

Definition finishing_env : env (Worker Directory) (effect string) :=
  quiet_env finishing open_look (Ok 101000000000).

Definition finishing_exec : exec (Worker Directory) (effect string) :=
  {| ex_state := {| wk_journal := finished_journal; wk_assembler := idle_assembler |};
     ex_authority := {| sa_identity := identity_fixture;
                        sa_last_window := {| sent := 100000000000; deadline := 125000000000 |} |};
     ex_clock := 0; ex_left := 40; ex_calls := [] |}.

Definition finalizing_fixture : FinalizingAttempt string :=
  {| fa_handle := container_fixture; fa_identity := identity_fixture;
     fa_exit := {| ev_exit_code := 0; ev_oom_killed := false |};
     fa_deadline := {| sent := 100000000000; deadline := 400000000000 |};
     fa_workspace := "/var/lib/dispatch/00000000-0000-0000-0000-00000000000a"; fa_capture := None |}.

Definition log_claim : LogSummary := {| sm_complete := false; sm_gaps := [] |}.

Definition finished_run : option (result FinalizationError CompleteAttemptRequest)
  * exec (Worker Directory) (effect string) :=
  prepare_completion storage_client finalizing_fixture launch_workspace log_claim finishing_env finishing_exec.

Definition success_fixture : CompleteAttemptRequest :=
  {| ca_authority := Some identity_fixture; ca_completion_id := "09000000-0000-4000-8000-000000000000";
     ca_payload_sha256 := hex (flat_digest []); ca_exit_code := Some 0%Z; ca_reason := 0;
     ca_stopped := true;
     ca_outputs := [{| or_name := "model"; or_artifact_id := "00000000-0000-0000-0000-00000000000e" |}];
     ca_logs_complete := false; ca_gaps := []; ca_metrics_json := [] |}.

Lemma returned_completion_is_on_record_witness :
  exists record, stored (wk_journal (ex_state (snd finished_run))) attempt_fixture = Some record
  /\ (rc_completion record = Some success_fixture \/ rc_rejected_completion record = Some success_fixture).
Proof.
  refine (proj1 (returned_completion_is_on_record attempt_file_name storage_client finalizing_fixture
    launch_workspace log_claim finishing_env finishing_exec (snd finished_run) success_fixture _ _ _)).
  - apply finished_journal_sound.
  - apply quiet_env_tame.
  - vm_compute. reflexivity.
Defined.

Definition completed_run : option (result FinalizationError CompleteAttemptRequest)
  * exec (Worker Directory) (effect string) :=
  complete_outputs storage_client identity_fixture {| ev_exit_code := 0; ev_oom_killed := false |} log_claim
    job_assignment finishing_env finishing_exec.

Lemma success_references_every_output_witness :
  exists ref, ref ∈ ca_outputs success_fixture /\ or_name ref = "model"%string.
Proof.
  assert (Hx : execution_of job_assignment = Ok spec_fixture) by (vm_compute; reflexivity).
  destruct (success_references_every_output attempt_file_name storage_client identity_fixture
    {| ev_exit_code := 0; ev_oom_killed := false |} log_claim job_assignment spec_fixture finishing_env
    finishing_exec (snd completed_run) success_fixture finished_journal_sound (quiet_env_tame _ _ _) Hx)
    as [Hreq _]; [vm_compute; reflexivity|reflexivity|].
  apply (Hreq {| out_name := "model"; out_path := "/outputs/model"; out_required := true;
                 out_max_bytes := out_max_bytes (hd {| out_name := EmptyString; out_path := EmptyString;
                   out_required := false; out_max_bytes := 0 |}
                   (js_outputs (job_spec (es_job spec_fixture)))) |}); [|reflexivity].
  left.
Defined.

(** Cancelled after its container was stopped. *)
Definition cancelled_run : option (result FinalizationError CompleteAttemptRequest)
  * exec (Worker Directory) (effect string) :=
  prepare_cancelled_completion identity_fixture StoppedEvidence finishing_env finishing_exec.

Definition cancellation_fixture : CompleteAttemptRequest :=
  {| ca_authority := Some identity_fixture; ca_completion_id := "09000000-0000-4000-8000-000000000000";
     ca_payload_sha256 := hex (flat_digest []); ca_exit_code := Some 0%Z; ca_reason := 9;
     ca_stopped := true; ca_outputs := []; ca_logs_complete := false; ca_gaps := [];
     ca_metrics_json := [] |}.

Lemma cancellation_needs_confirmed_cleanup_witness :
  closed_as identity_fixture FailureReason.UserCancelled cancellation_fixture
    (wk_journal (ex_state (snd cancelled_run))).
Proof.
  apply (cancellation_needs_confirmed_cleanup attempt_file_name identity_fixture StoppedEvidence
    finishing_env finishing_exec (snd cancelled_run) cancellation_fixture).
  - apply finished_journal_sound.
  - apply quiet_env_tame.
  - vm_compute. reflexivity.
Defined.
