(* ===== verification/Acquisition.v ===== *)
(** Admission of work ([rust/worker/src/agent/acquisition.rs]): one attempt at a
    time, from its acquisition to a terminal decision and the removal of its
    workspace, with the errors of [agent.rs].

    The workspaces, the dataset cache and the Docker runtime are called through the
    environment; their own behaviour is in [Workspaces], [CacheStore], [Docker] and
    [Recovery]. *)

From S2P Require Import Net DatasetInputs Work DatasetStage CacheStore Quota Docker Recovery.
From S2P Require Import Prelude Strings Os Protocol Lease Control Renew Supervisor LogSpool.
From S2P Require Import LogSummary LogAssembler.
From S2P Require Import Execution Uploads Phase LogRegistration Completion RecordStore JournalRecord.
From S2P Require Import Codec Journal JournalUploads JournalLogs JournalSession JournalEvidence.
From S2P Require Import JournalFacts Delivery.
From S2P Require Import RuntimeConfig Outputs LogLive Async Transfer Effects UploadDelivery Launch Finalize.
Open Scope N_scope.

Inductive InputStageError : Type :=
| StageAssignment (e : InputError)
| StageCache (e : CacheStoreError)
| StageMount (e : RuntimeError.t).

(** [AgentError]. *)
Inductive AgentError : Type :=
| AgentConfiguration
| AgentFile
| AgentTask
| AgentJournal (e : JournalError.t)
| AgentControl (e : ClientError)
| AgentRuntime (e : RuntimeError.t)
| AgentExecution (e : ExecutionError)
| AgentFinalization (e : FinalizationError)
| AgentCache (e : CacheStoreError)
| AgentInput (e : InputStageError).

(** The storage components use part of [AgentError]. *)
Definition from_storage (e : StorageError) : AgentError :=
  match e with
  | StorageConfiguration => AgentConfiguration
  | StorageFile => AgentFile
  | StorageTask => AgentTask
  | StorageJournal e => AgentJournal e
  | StorageRuntime e => AgentRuntime e
  end.

(** [From<DeliveryError>]. *)
Definition from_delivery (e : DeliveryError) : AgentError :=
  match e with
  | DeliveryJournal e => AgentJournal e
  | DeliveryControl e => AgentControl e
  end.

Inductive StageReplayError : Type :=
| ReplayControl (e : ClientError)
| ReplayInput (e : InputStageError)
| ReplayStopRequested.

(** A joined blocking task: [map_err(|_| AgentError::Task)??]. *)
Definition joined {A : Type} (j : option (result StorageError A)) : result AgentError A :=
  match j with
  | None => Err AgentTask
  | Some m => map_err from_storage m
  end.

Definition is_stop_requested (reason : StopReason) : bool :=
  bool_decide (reason = StopRejected Decision_.StopRequested).

Definition terminal_decision (reply : CompleteAttemptResponse) : bool :=
  match Decision_.try_from (cs_decision reply) with
  | Some (Decision_.Accepted | Decision_.AlreadyTerminal | Decision_.Fenced) => true
  | _ => false
  end.

Definition reply_stops (reply : CompleteAttemptResponse) : bool :=
  (cs_decision reply =? Decision_.to_i32 Decision_.StopRequested)%Z.

Definition confirmed_cancellation (error : ExecutionError) : option CleanupEvidence :=
  let '(cause, cleanup) := match error with
                           | LaunchFailed e => (le_cause e, le_cleanup e)
                           | AfterLaunch cause cleanup => (cause, cleanup)
                           end in
  match cause, cleanup with
  | CauseAuthority (StopRejected Decision_.StopRequested), (StoppedEvidence | NotCreated) => Some cleanup
  | _, _ => None
  end.

(** A launch that failed in the runtime. *)
Definition launch_failed_in_runtime (error : ExecutionError) : bool :=
  match error with
  | LaunchFailed {| le_cause := CauseRuntime _ |} => true
  | _ => false
  end.

Section Acquisition.
Context {S H : Type} {ops : RecordStore S} {lib : Libraries} {http : HttpLibraries}.
Context (parse_url : string -> option Url) (from_slice_manifest : bytes -> option DatasetManifest).
Context (container_id : H -> string) (root : string) (transfers : TransferClient) (downloader : DatasetDownloader).

Abbreviation T := (task (Worker S) (effect H)).

(** ** Calls *)

(** What [acquire] checks before it sends. *)
Definition sendable (q : AcquireWorkRequest) (before : reading) : result ClientError unit :=
  let? _ := valid_session (aw_session q) in
  if negb (canonical_uuid (aw_request_id q)) then Err Configuration
  else let? _ := map_err (fun _ => ClockFailed) before in Ok tt.

Definition client_acquire (q : AcquireWorkRequest) : T (result ClientError WorkOutcome) :=
  let& before := ask MonoClock in
  let&? _ := tret (sendable q before) in
  let& reply := call (AcquireWork q) in
  let& after := ask MonoClock in
  let& l := ask AcquireLocal in
  tret (acquire lib_sha256 lib_value lib_job parse_url from_slice_manifest q before after reply l).

Definition client_complete (q : CompleteAttemptRequest) : T (result ClientError CompletionStatus) :=
  let&? _ := tret (Completion.validate_request lib_sha256 lib_metrics lib_payload q) in
  let& reply := call (CompleteAttempt q) in
  tret (complete_attempt lib_sha256 lib_metrics lib_payload lib_manifest q reply).

(** [completion::deliver_pending] among the other tasks. *)
Definition deliver_pending_task (attempt_id : string)
  : T (result DeliveryError (option CompleteAttemptResponse)) :=
  let&? found := tmap_err DeliveryJournal (journal (load_attempt attempt_id)) in
  let&? saved := tret (ok_or found (DeliveryJournal JournalError.Invalid)) in
  match rc_completion saved with
  | None => tret (Ok None)
  | Some request =>
      match settled_reply saved with
      | Some reply => tret (Ok (Some reply))
      | None =>
          let&? status := tmap_err DeliveryControl (client_complete request) in
          let reply := response_of status in
          let&? _ := tmap_err DeliveryJournal (journal (record_completion_response request reply)) in
          tret (Ok (Some reply))
      end
  end.

(** ** Terminal delivery *)

Definition terminal_turn (attempt_id : string) (_ : unit)
  : T (unit + result AgentError CompleteAttemptResponse) :=
  let& delivered := deliver_pending_task attempt_id in
  match delivered with
  | Ok (Some reply) => tret (inr (Ok reply))
  | Ok None => tret (inr (Err AgentTask))
  | Err (DeliveryControl e) =>
      if retryable e then let& _ := call (Sleep (from_secs 1)) in tret (inl tt)
      else tret (inr (Err (AgentControl e)))
  | Err e => tret (inr (Err (from_delivery e)))
  end.

Definition deliver_terminal (attempt_id : string) : T (result AgentError CompleteAttemptResponse) :=
  loop (terminal_turn attempt_id) tt.

Definition remove_workspace (path : string) : T (result AgentError unit) :=
  let& removed := call (RemoveWorkspace path) in
  tret (joined removed).

(** The delivery that must end in a terminal decision. *)
Definition deliver_decided (attempt_id : string) : T (result AgentError unit) :=
  let&? reply := deliver_terminal attempt_id in
  tret (if negb (terminal_decision reply) then Err AgentTask else Ok tt).

Definition cancelled (identity : AttemptAuthority) (cleanup : CleanupEvidence) : T (result AgentError unit) :=
  let&? _ := tmap_err AgentFinalization (prepare_cancelled_completion identity cleanup) in
  tret (Ok tt).

Definition acknowledge_unlaunched (identity : AttemptAuthority) (workspace : option string)
  : T (result AgentError unit) :=
  let&? _ := cancelled identity NotCreated in
  let&? _ := match workspace with
             | Some path => remove_workspace path
             | None => tret (Ok tt)
             end in
  deliver_decided (aa_attempt_id identity).

Definition deliver_unlaunched_failure (identity : AttemptAuthority) (path : string)
  : T (result AgentError unit) :=
  let&? reply := deliver_terminal (aa_attempt_id identity) in
  let&? _ :=
    (if reply_stops reply then
       let&? _ := cancelled identity NotCreated in
       deliver_decided (aa_attempt_id identity)
     else tret (if negb (terminal_decision reply) then Err AgentTask else Ok tt)) in
  remove_workspace path.

Definition complete_unlaunched_transfer_failure (identity : AttemptAuthority) (path : string)
  : T (result AgentError unit) :=
  let&? _ := tmap_err AgentFinalization (prepare_unlaunched_transfer_failure identity) in
  deliver_unlaunched_failure identity path.

(** The record of the attempt. *)
Definition load_own (attempt_id : string) : T (result AgentError AttemptRecord) :=
  let&? found := tmap_err AgentJournal (journal (load_attempt attempt_id)) in
  tret (ok_or found AgentTask).

Definition remove_stopped (identity : AttemptAuthority) (container spec_sha256 : string)
  : T (result AgentError unit) :=
  tmap_err AgentRuntime (call (RemoveStopped identity container spec_sha256)).

Definition complete_removed_launch_failure (grant : GrantedAssignment) : T (result AgentError unit) :=
  let&? identity := tret (ok_or (as_authority (ga_assignment grant)) AgentTask) in
  let id := aa_attempt_id identity in
  let&? saved := load_own id in
  if negb (is_none (rc_exit saved))
     || negb (bool_decide (rp_phase <$> last (rc_phase_reports saved)
                           = Some (AttemptState.to_i32 AttemptState.Starting)))
  then tret (Err AgentTask)
  else if negb (has_container saved) then tret (Err AgentTask)
  else
    let&? _ := remove_stopped identity (rc_container_id saved) (as_spec_sha256 (ga_assignment grant)) in
    let&? _ := tmap_err AgentFinalization (prepare_removed_launch_failure identity) in
    let&? reply := deliver_terminal id in
    if reply_stops reply then
      let&? _ := cancelled identity StoppedEvidence in
      deliver_decided id
    else tret (if negb (terminal_decision reply) then Err AgentTask else Ok tt).

(** ** Inputs *)

Definition stage_validated_input (input : ValidatedInput) (w : PreparedWorkspace)
  : T (result InputStageError (CachePin * PreparedWorkspace)) :=
  let&? pin := tmap_err StageCache (call (StageInput input)) in
  let& io := ask BindAnswers in
  tret (let? w := map_err StageMount (bind_input io w (vi_mount_path input) (cp_path pin)) in
        Ok (pin, w)).

(** One acquisition of the replayed grant. *)
Definition replay_turn (q : AcquireWorkRequest) (_ : unit)
  : T (unit + result StageReplayError GrantedAssignment) :=
  let& outcome := client_acquire q in
  match outcome with
  | Ok (WorkAssignment replay) => tret (inr (Ok replay))
  | Ok (WorkRejected Decision_.StopRequested) => tret (inr (Err ReplayStopRequested))
  | Ok _ => tret (inr (Err (ReplayInput (StageAssignment SpecMismatch))))
  | Err e =>
      if retryable e then let& _ := call (Sleep (from_secs 1)) in tret (inl tt)
      else tret (inr (Err (ReplayControl e)))
  end.

(** The inputs from [index] on, [left] of them; [pins] and the workspace so far. *)
Fixpoint stage_from (q : AcquireWorkRequest) (grant : GrantedAssignment) (left index : nat)
  (pins : list CachePin) (w : PreparedWorkspace)
  : T (result StageReplayError (list CachePin * PreparedWorkspace)) :=
  match left with
  | O => tret (Ok (pins, w))
  | Datatypes.S left' =>
      let&? replay := loop (replay_turn q) tt in
      let& walls := ask WallClocks in
      let&? input := tret (map_err (fun e => ReplayInput (StageAssignment e))
        (validate_replayed_input parse_url from_slice_manifest (ga_assignment grant) (ga_assignment replay)
           (js_inputs (job_spec (es_job (ga_execution grant)))) index downloader walls)) in
      let&? '(pin, w) := tmap_err ReplayInput (stage_validated_input input w) in
      stage_from q grant left' (Datatypes.S index) (pins ++ [pin]) w
  end.

Definition stage_refreshed_inputs (q : AcquireWorkRequest) (grant : GrantedAssignment)
  (w : PreparedWorkspace) : T (result StageReplayError (list CachePin * PreparedWorkspace)) :=
  stage_from q grant (List.length (js_inputs (job_spec (es_job (ga_execution grant))))) 0 [] w.

(** ** One assignment

    A part of [run_assignment] either goes on with a value or returns early. *)

Abbreviation part A := (T (A + result AgentError unit)).

Definition go_on {A : Type} (t : part A) (k : A -> T (result AgentError unit)) : T (result AgentError unit) :=
  let& x := t in match x with inl a => k a | inr r => tret r end.

Definition return_with {A : Type} (t : T (result AgentError unit)) : part A := tmap inr t.

(** The end of an attempt that never launched, once its authority is lost. *)
Definition abandon (identity : AttemptAuthority) (path : string) (reason : StopReason)
  : T (result AgentError unit) :=
  if is_stop_requested reason then acknowledge_unlaunched identity (Some path)
  else let&? _ := remove_workspace path in tret (Err AgentTask).

(** The workspace, prepared on a blocking thread that is waited for in any case.
    Awaiting a join handle that has completed panics. *)
Definition prepare_storage (identity : AttemptAuthority) (path : string) (scratch : N)
  : part PreparedWorkspace :=
  let& _ := ask (SpawnPreparation (aa_attempt_id identity) scratch) in
  let& '(outcome, completed) := while_live_ref (call JoinPreparation) in
  match outcome with
  | Ok prepared =>
      tret (match joined prepared with Ok w => inl w | Err e => inr (Err e) end)
  | Err reason =>
      let& prepared := (if completed : bool then panic else call JoinPreparation) in
      match joined prepared with
      | Ok _ => return_with (abandon identity path reason)
      | Err e => tret (inr (Err e))
      end
  end.

Definition prepare_pulled (identity : AttemptAuthority) (path : string) (x : ExecutionSpec) : part unit :=
  let& outcome := while_live (call (PrepareImage x)) in
  match outcome with
  | Ok (Ok _) => tret (inl tt)
  | Ok (Err _) =>
      return_with (
        let&? _ := tmap_err AgentFinalization (prepare_unlaunched_runtime_failure identity) in
        deliver_unlaunched_failure identity path)
  | Err reason => return_with (abandon identity path reason)
  end.

Definition prepare_inputs (identity : AttemptAuthority) (path : string) (q : AcquireWorkRequest)
  (grant : GrantedAssignment) (w : PreparedWorkspace) : part PreparedWorkspace :=
  if bool_decide (as_inputs (ga_assignment grant) = []) then tret (inl w)
  else
    let& outcome := while_live (stage_refreshed_inputs q grant w) in
    match outcome with
    | Ok (Ok (_, w)) => tret (inl w)
    | Ok (Err (ReplayInput (StageCache (Preparation _)))) =>
        return_with (complete_unlaunched_transfer_failure identity path)
    | Ok (Err (ReplayInput e)) =>
        return_with (let&? _ := remove_workspace path in tret (Err (AgentInput e)))
    | Ok (Err (ReplayControl e)) =>
        return_with (let&? _ := remove_workspace path in tret (Err (AgentControl e)))
    | Ok (Err ReplayStopRequested) => return_with (acknowledge_unlaunched identity (Some path))
    | Err reason => return_with (abandon identity path reason)
    end.

(** An execution that did not reach finalization. *)
Definition not_executed (identity : AttemptAuthority) (path : string) (grant : GrantedAssignment)
  (error : ExecutionError) : T (result AgentError unit) :=
  if launch_failed_in_runtime error then
    let&? _ := complete_removed_launch_failure grant in
    remove_workspace path
  else match confirmed_cancellation error with
  | None => tret (Err (AgentExecution error))
  | Some cleanup =>
      let&? _ := cancelled identity cleanup in
      let&? saved := load_own (aa_attempt_id identity) in
      let&? _ := (if has_container saved
                  then remove_stopped identity (rc_container_id saved) (as_spec_sha256 (ga_assignment grant))
                  else tret (Ok tt)) in
      let&? _ := deliver_decided (aa_attempt_id identity) in
      remove_workspace path
  end.

Definition remove_container (h : H) : T (result AgentError unit) :=
  tmap_err AgentRuntime (call (RuntimeRemove h)).

(** Acknowledges the cancellation of a container that has exited. *)
Definition cancel_exited (identity : AttemptAuthority) (path : string) (h : H) : T (result AgentError unit) :=
  let&? _ := cancelled identity StoppedEvidence in
  let&? _ := remove_container h in
  let&? _ := deliver_decided (aa_attempt_id identity) in
  remove_workspace path.

(** A terminal reply ends the attempt: its container and workspace are removed. *)
Definition conclude (path : string) (h : H) (reply : CompleteAttemptResponse) : T (result AgentError unit) :=
  if negb (terminal_decision reply) then tret (Err AgentTask)
  else let&? _ := remove_container h in remove_workspace path.

(** A finalization that failed. *)
Definition not_finalized (identity : AttemptAuthority) (path : string) (h : H) (error : FinalizationError)
  : T (result AgentError unit) :=
  match error with
  | FinAuthority (StopRejected Decision_.StopRequested) =>
      let&? saved := load_own (aa_attempt_id identity) in
      match rc_completion saved with
      | Some _ =>
          let&? reply := deliver_terminal (aa_attempt_id identity) in
          if negb (reply_stops reply) then conclude path h reply else cancel_exited identity path h
      | None => cancel_exited identity path h
      end
  | error => tret (Err (AgentFinalization error))
  end.

Definition finish_attempt (identity : AttemptAuthority) (path : string) (w : PreparedWorkspace)
  (f : FinalizingAttempt H) : T (result AgentError unit) :=
  let& prepared := (let&? logs := publish_finished_logs transfers f w in
                    prepare_completion transfers f w logs) in
  match prepared with
  | Err error => not_finalized identity path (fa_handle f) error
  | Ok _ =>
      let&? reply := deliver_terminal (aa_attempt_id identity) in
      if reply_stops reply then cancel_exited identity path (fa_handle f)
      else conclude path (fa_handle f) reply
  end.

Definition run_assignment (q : AcquireWorkRequest) (session : WorkerSession) (grant : GrantedAssignment)
  : T (result AgentError unit) :=
  let&? identity := tret (ok_or (as_authority (ga_assignment grant)) AgentTask) in
  let path := path_join root (aa_attempt_id identity) in
  let&? resources := tret (ok_or (as_resources (ga_assignment grant)) AgentTask) in
  let&? _ := tmap_err AgentJournal (journal (claim_assignment (ga_assignment grant) session)) in
  let& live := authority_window in
  match live with
  | Err reason =>
      if is_stop_requested reason then acknowledge_unlaunched identity None
      else tret (Err AgentTask)
  | Ok _ =>
      go_on (prepare_storage identity path (rs_scratch_bytes resources)) (fun w =>
      go_on (prepare_pulled identity path (ga_execution grant)) (fun _ =>
      go_on (prepare_inputs identity path q grant w) (fun w =>
      let& outcome := execute_with_logs container_id (ga_assignment grant) (ga_execution grant) session w in
      match outcome with
      | Ok f => finish_attempt identity path w f
      | Err error => not_executed identity path grant error
      end)))
  end.

(** ** Admission *)

Definition ready_turn (_ : unit) : T (unit + result AgentError unit) :=
  let& ready := ask ReadyNow in
  if ready : bool then tret (inr (Ok tt))
  else
    let& alive := call ReadyChanged in
    tret (if alive : bool then inl tt else inr (Err AgentTask)).

Definition wait_ready : T (result AgentError unit) := loop ready_turn tt.

(** The same request until the control plane answers. *)
Definition acquire_turn (q : AcquireWorkRequest) (_ : unit) : T (unit + result AgentError WorkOutcome) :=
  let& outcome := client_acquire q in
  match outcome with
  | Ok result => tret (inr (Ok result))
  | Err e =>
      if retryable e then let& _ := call (Sleep (from_secs 1)) in tret (inl tt)
      else tret (inr (Err (AgentControl e)))
  end.

(** The supervised side of a new authority channel. *)
Definition supervise (sa : SupervisedAuthority) : T unit := fun _ r => (Some tt, set_authority sa r).

(** One grant, with its renewal beside it. *)
Definition run_grant (q : AcquireWorkRequest) (session : WorkerSession) (grant : GrantedAssignment)
  : T (result AgentError unit) :=
  let&? identity := tret (ok_or (as_authority (ga_assignment grant)) AgentTask) in
  let& now := ask MonoClock in
  let&? '(_, sa) := tret (map_err (fun _ => AgentTask) (authority_channel identity (ga_authority grant) now)) in
  let& _ := supervise sa in
  let& _ := ask (SetActive (Some identity)) in
  let& _ := ask (SpawnRenewal identity) in
  let& result := run_assignment q session grant in
  let& _ := ask (SetActive None) in
  let& renewal := call JoinRenewal in
  let&? renewed := tret (ok_or renewal AgentTask) in
  let&? _ := tret result in
  let&? _ := tret (map_err AgentControl renewed) in
  let& _ := ask (Announce "attempt_terminal"%string) in
  tret (Ok tt).

(** One turn of the admission loop, which only errors end. *)
Definition admission_turn (session : WorkerSession) (_ : unit) : T (unit + result AgentError unit) :=
  let& turn := (
    let&? _ := wait_ready in
    let&? request_id := tmap_err AgentJournal fresh_uuid in
    let q := {| aw_session := Some session; aw_request_id := request_id |} in
    let&? outcome := loop (acquire_turn q) tt in
    match outcome with
    | WorkAssignment grant => run_grant q session grant
    | WorkRejected Decision_.Fenced => tret (Err AgentTask)
    | _ => let& _ := call (Sleep (from_secs 1)) in tret (Ok tt)
    end) in
  tret (match turn with Ok _ => inl tt | Err e => inr (Err e) end).
End Acquisition.
