(* ===== verification/AcquisitionFacts.v ===== *)
(** An attempt that [run_assignment] reports as done is over on both sides: its
    terminal decision is on record, its container and its workspace are removed.
    Deliveries that only meet a passing outage return. *)

From S2P Require Import Net DatasetInputs Work DatasetStage CacheStore Quota Docker Recovery.
From S2P Require Import Prelude Strings Os Protocol Lease Control Renew Supervisor LogSpool.
From S2P Require Import LogSummary LogAssembler.
From S2P Require Import Execution Uploads Phase LogRegistration Completion RecordStore JournalFiles.
From S2P Require Import JournalRecord.
From S2P Require Import Codec Journal JournalUploads JournalLogs JournalSession JournalEvidence.
From S2P Require Import JournalFacts Delivery.
From S2P Require Import RuntimeConfig Outputs LogLive Async Transfer Effects UploadDelivery Launch.
From S2P Require Import LaunchFacts Finalize.
From S2P Require Import FinalizeFacts Acquisition.
Open Scope N_scope.

Create HintDb preserved.

Section Leaves.
Context {S H : Type} {ops : RecordStore S} {laws : RecordStoreLaws S}.
Context {lib : Libraries} {lib_laws : LibraryLaws} {http : HttpLibraries}.
Context (en : env (Worker S) (effect H)).

Abbreviation log := (list (some_call (effect H))).
Abbreviation T := (task (Worker S) (effect H)).

(** ** What does not touch the log or the journal *)

Lemma keeps_op {A : Type} (P : Worker S -> log -> Prop) (f : Worker S -> A * Worker S) :
  (forall w cs, P w cs -> P (snd (f w)) cs) -> (forall n w cs, P w cs -> P (en_others en n w) cs) ->
  keeps en P (op f).
Proof.
  intros Hf Ho. apply spec_op; [done|intros *; intros Hw Hfw..];
    (assert (Hs : P s' cs) by (replace s' with (snd (f s)) by (by rewrite Hfw); by apply Hf)); auto.
Qed.

Lemma keeps_panic {A : Type} (P : Worker S -> log -> Prop) : keeps en P (panic : T A).
Proof. by intros r Hr. Qed.

Lemma keeps_before_deadline {A : Type} (P : Worker S -> log -> Prop) (d : PhaseDeadline) (t : T A) :
  keeps en P t -> keeps en P (before_deadline d t).
Proof.
  intros Ht r Hr. unfold before_deadline. refine (keeps_map en P _ _ _ r Hr). by apply keeps_guarded.
Qed.

Lemma keeps_bounded {A : Type} (P : Worker S -> log -> Prop) (d : PhaseDeadline) (t : T A) :
  keeps en P t -> keeps en P (bounded d t).
Proof.
  intros Ht. unfold bounded. apply keeps_bind; [by apply keeps_while_live, keeps_before_deadline|].
  intros r. apply keeps_ret.
Qed.

Lemma keeps_supervise (P : Worker S -> log -> Prop) (sa : SupervisedAuthority) : keeps en P (supervise sa : T unit).
Proof. by intros r Hr. Qed.
End Leaves.

(** ** What a whole task keeps

    A predicate that the calls of a task keep, and that the journal's operations
    keep, is kept by the task. *)

Section Whole.
Context {S H : Type} {ops : RecordStore S} {laws : RecordStoreLaws S}.
Context {lib : Libraries} {lib_laws : LibraryLaws} {http : HttpLibraries}.

Abbreviation log := (list (some_call (effect H))).
Abbreviation T := (task (Worker S) (effect H)).

(** Neither the creation of a container nor the start of a preparation. *)
Definition plain {X : Type} (e : effect H X) : bool :=
  match e with
  | RuntimeCreate _ _ _ _ | SpawnPreparation _ _ => false
  | _ => true
  end.

Context (en : env (Worker S) (effect H)) (P : Worker S -> log -> Prop).
Context (P_call : forall X (e : effect H X), plain e = true -> keeps en P (call e)).
Context (P_ask : forall X (e : effect H X), plain e = true -> keeps en P (ask e)).
Context (P_journal : forall A (m : st (Journal S) JournalError.t A), preserves (fun _ => True) m -> keeps en P (journal m)).
Context (P_local : forall A (f : Worker S -> A * Worker S),
  (forall w, wk_journal (snd (f w)) = wk_journal w) -> keeps en P (op f) /\ keeps en P (act f)).
Context (attempt_names : forall id, rs_name (attempt_file id)).
Context (session_name : rs_name ".session").

Lemma load_preserves (id : string) : preserves (fun _ => True) (load_attempt id : st (Journal S) _ _).
Proof. eapply quiet_preserves. intros j r j' Hj Hl. by eapply (load_attempt_spec attempt_names). Qed.

Lemma keeps_assembler {A : Type} (m : st LogAssembler AssembleError A) : keeps en P (assembler m).
Proof. apply P_local. intros w. by destruct (m _). Qed.

Ltac leaf :=
  first
    [ apply keeps_panic
    | by apply P_call
    | by apply P_ask
    | apply keeps_assembler
    | apply P_journal; first [apply load_preserves | solve [eauto with preserved]]
    | apply P_local; intros ?w; by repeat case_match ].

Ltac whole :=
  repeat first
    [ progress keeping
    | match goal with
      | |- keeps _ _ (bounded _ _) => apply keeps_bounded
      | |- keeps _ _ (unwrap ?o) => unfold unwrap
      end
    | leaf ].

#[local] Hint Resolve claim_assignment_preserves persist_completion_preserves supersede_preserves
  record_completion_response_preserves prepare_launch_preserves bind_container_preserves record_exit_preserves
  prepare_phase_preserves prepare_output_plan_preserves record_output_grant_preserves
  prepare_output_finalization_preserves record_output_response_preserves prepare_log_preserves
  record_log_grant_preserves prepare_log_finalization_preserves record_log_response_preserves
  prepare_log_registration_preserves record_log_registration_preserves : preserved.

Lemma keeps_deliver_terminal (id : string) : keeps en P (deliver_terminal id : T _).
Proof. unfold deliver_terminal, terminal_turn, deliver_pending_task, client_complete. whole. Qed.

Lemma keeps_deliver_decided (id : string) : keeps en P (deliver_decided id : T _).
Proof. unfold deliver_decided. whole. apply keeps_deliver_terminal. Qed.

Lemma keeps_remove_workspace (path : string) : keeps en P (remove_workspace path : T _).
Proof. unfold remove_workspace. whole. Qed.

Lemma keeps_seal (persist : CompleteAttemptRequest -> st (Journal S) JournalError.t unit)
  (make : string -> CompleteAttemptRequest) :
  (forall q, preserves (fun _ => True) (persist q)) -> keeps en P (seal_with persist make : T _).
Proof. intros Hp. unfold seal_with, fresh_uuid. whole. Qed.

Lemma keeps_cancelled (identity : AttemptAuthority) (cleanup : CleanupEvidence) :
  keeps en P (cancelled identity cleanup : T _).
Proof.
  unfold cancelled, prepare_cancelled_completion, load_saved. whole; apply keeps_seal; eauto with preserved.
Qed.

Lemma keeps_unlaunched (identity : AttemptAuthority) (reason : FailureReason.t) :
  keeps en P (prepare_unlaunched_failure identity reason : T _).
Proof. unfold prepare_unlaunched_failure, load_saved. whole; apply keeps_seal; eauto with preserved. Qed.

Lemma keeps_removed_launch (identity : AttemptAuthority) : keeps en P (prepare_removed_launch_failure identity : T _).
Proof. unfold prepare_removed_launch_failure, load_saved. whole; apply keeps_seal; eauto with preserved. Qed.

Lemma keeps_load_own (id : string) : keeps en P (load_own id : T _).
Proof. unfold load_own. whole. Qed.

(** What follows the load in [complete_removed_launch_failure] and in
    [not_executed]. *)
Lemma keeps_failure_delivery (identity : AttemptAuthority) (container sha : string) :
  keeps en P (let&? _ := remove_stopped identity container sha in
    let&? _ := tmap_err AgentFinalization (prepare_removed_launch_failure identity) in
    let&? reply := deliver_terminal (aa_attempt_id identity) in
    if reply_stops reply then
      (let&? _ := cancelled identity StoppedEvidence in deliver_decided (aa_attempt_id identity))
    else tret (if negb (terminal_decision reply) then Err AgentTask else Ok tt) : T _).
Proof.
  unfold remove_stopped. whole;
    first [apply keeps_removed_launch | apply keeps_deliver_terminal | apply keeps_cancelled | apply keeps_deliver_decided].
Qed.

Lemma keeps_stopped_delivery (identity : AttemptAuthority) (container sha path : string) :
  keeps en P (let&? _ := remove_stopped identity container sha in
    let&? _ := deliver_decided (aa_attempt_id identity) in remove_workspace path : T _).
Proof. unfold remove_stopped. whole; first [apply keeps_deliver_decided | apply keeps_remove_workspace]. Qed.

(** *** Inputs *)

Section Inputs.
Context (parse_url : string -> option Url) (from_slice_manifest : bytes -> option DatasetManifest)
  (downloader : DatasetDownloader).

Lemma keeps_acquire (q : AcquireWorkRequest) :
  keeps en P (client_acquire parse_url from_slice_manifest q : T _).
Proof. unfold client_acquire. whole. Qed.

Lemma keeps_stage (q : AcquireWorkRequest) (grant : GrantedAssignment) (left index : nat) (pins : list CachePin)
  (w : PreparedWorkspace) :
  keeps en P (stage_from parse_url from_slice_manifest downloader q grant left index pins w : T _).
Proof.
  revert index pins w. induction left as [|left IH]; intros index pins w; cbn [stage_from]; [apply keeps_ret|].
  unfold replay_turn, stage_validated_input. whole; [apply keeps_acquire|apply IH].
Qed.
End Inputs.

(** *** Execution *)

Lemma keeps_terminated (h : H) (cause : LaunchCause) (grace : N) : keeps en P (terminate_for_cause h cause grace : T _).
Proof. unfold terminate_for_cause, stop_then_kill, kill_and_confirm. whole. Qed.

Lemma keeps_launch_prepare (input : LaunchInput) (session : WorkerSession) (ws : PreparedWorkspace) :
  keeps en P (launch_prepare input session ws : T _).
Proof. unfold launch_prepare, under, starting_turn, client_phase. whole. Qed.

Lemma keeps_report (identity : AttemptAuthority) (phase : AttemptState.t) (sa : SupervisedAuthority) :
  keeps en P (report identity phase sa : T _).
Proof. unfold report, report_turn, refresh, refresh_turn, under, client_phase. whole. Qed.

Lemma keeps_supervised (h : H) (identity : AttemptAuthority) (seconds fin : N) :
  keeps en P (supervised h identity seconds fin : T _).
Proof.
  unfold supervised, wait_for_exit, record_and_report, running_or_exit, observe_exit, observe_turn, local_deadline,
    bounded_try, under. whole; apply keeps_report.
Qed.

Lemma keeps_with_capture {A : Type} (h : H) (capture published : bool) (t : T (result LaunchCause A)) :
  keeps en P t -> keeps en P (with_capture h capture published t).
Proof.
  intros Ht. unfold with_capture, settle_publisher, settle_capture.
  whole; first [done | destruct (is_ok _); by apply P_ask].
Qed.

Lemma keeps_launch_start (container_id : H -> string) (identity : AttemptAuthority) (h : H) :
  keeps en P (launch_start container_id identity h).
Proof. unfold launch_start, under. whole. Qed.

Section Execution.
Context (P_create : forall identity x w window, keeps en P (call (RuntimeCreate identity x w window))).

Lemma keeps_launch (container_id : H -> string) (input : LaunchInput) (session : WorkerSession) (ws : PreparedWorkspace) :
  keeps en P (launch_inner container_id input session ws).
Proof.
  unfold launch_inner, launch_start, under. whole;
    first [apply keeps_launch_prepare | apply P_create | apply keeps_terminated].
Qed.

Lemma keeps_execute (container_id : H -> string) (a : Assignment) (x : ExecutionSpec) (session : WorkerSession)
  (ws : PreparedWorkspace) : keeps en P (execute_with_logs container_id a x session ws).
Proof.
  unfold execute_with_logs, execute_inner_impl. whole;
    first [apply keeps_launch | apply keeps_with_capture, keeps_supervised | apply keeps_terminated].
Qed.
End Execution.

(** *** Logs and outputs *)

Lemma keeps_deliver_log (c : TransferClient) (id : string) (st : LogStream.t) (first : N) (source : bool) :
  keeps en P (deliver_log c id st first source : T _).
Proof.
  unfold deliver_log, log_registration, upload_log, client_create_upload, client_finalize_upload, client_register_log,
    transfer_put. whole.
Qed.

Lemma keeps_deliver_segment (c : TransferClient) (id : string) (p : PendingSegment) (left : nat) :
  keeps en P (deliver_segment c id p left : T _).
Proof.
  induction left as [|left IH]; cbn [deliver_segment]; unfold open_front; whole; first [apply keeps_deliver_log | done].
Qed.

Lemma keeps_ingest (st : LogStream.t) (payloads : list bytes) (sequence : N) :
  keeps en P (ingest_snapshot st payloads sequence : T _).
Proof. revert sequence. induction payloads as [|p ps IH]; intros sequence; cbn [ingest_snapshot]; whole; done. Qed.

Lemma keeps_snapshot (f : FinalizingAttempt H) (ws : PreparedWorkspace) : keeps en P (snapshot_logs f ws).
Proof.
  unfold snapshot_logs, new_assembler. destruct (fa_capture f) as [[capture|e]|]; [apply keeps_ret..|].
  whole; apply keeps_ingest.
Qed.

Lemma keeps_pending (c : TransferClient) (id : string) : keeps en P (loop (pending_turn c id) tt : T _).
Proof.
  unfold pending_turn, prepare_segment, front, drop_front. whole; apply keeps_deliver_segment.
Qed.

Lemma keeps_publish (c : TransferClient) (f : FinalizingAttempt H) (ws : PreparedWorkspace) :
  keeps en P (publish_finished_logs c f ws).
Proof.
  unfold publish_finished_logs, finalizing, while_finalizing, load_saved.
  destruct (negb _); [apply keeps_ret|]. apply keeps_bind; [apply keeps_bounded|intros r; apply keeps_ret].
  apply keeps_bind_ok; [apply keeps_snapshot|intros [[captured finished]|]; [|apply keeps_ret]].
  apply keeps_bind_ok; [apply keeps_pending|intros delivered]. whole.
Qed.

Lemma keeps_deliver_rounds (c : TransferClient) (id name : string) (left : nat) :
  keeps en P (deliver_rounds c id name left : T _).
Proof.
  induction left as [|left IH]; cbn [deliver_rounds]; unfold deliver_output, upload_output, client_create_upload,
    client_finalize_upload, transfer_put; whole; done.
Qed.

Lemma keeps_deliver_outputs (c : TransferClient) (id : string) (outputs : list CollectedOutput) (d : delivered) :
  keeps en P (deliver_outputs c id outputs d : T _).
Proof.
  revert d. induction outputs as [|o rest IH]; intros d; cbn [deliver_outputs]; whole; [apply keeps_deliver_rounds|apply IH].
Qed.

Lemma keeps_prepare_completion (c : TransferClient) (f : FinalizingAttempt H) (ws : PreparedWorkspace)
  (logs : LogSummary) : keeps en P (prepare_completion c f ws logs).
Proof.
  unfold prepare_completion, finalizing, while_finalizing, load_saved, complete_outputs.
  whole; first [apply keeps_deliver_outputs | apply keeps_seal; eauto with preserved].
Qed.
End Whole.

Section Settled.
Context {S H : Type} {ops : RecordStore S} {laws : RecordStoreLaws S}.
Context {lib : Libraries} {lib_laws : LibraryLaws} {http : HttpLibraries}.
Context (attempt_names : forall id, rs_name (attempt_file id)).
Context (session_name : rs_name ".session").

Abbreviation log := (list (some_call (effect H))).
Abbreviation T := (task (Worker S) (effect H)).
Abbreviation nothing := (fun _ : Journal S => True).

(** A fact of the log that only a creation or the start of a preparation may end. *)
Definition lax (L : log -> Prop) : Prop :=
  (forall cs X (e : effect H X), plain e = true -> L cs -> L (cs ++ [Call e]))
  /\ (forall cs X (e : effect H X) x, L cs -> L (cs ++ [Answer e x])).

Lemma lax_and (L M : log -> Prop) : lax L -> lax M -> lax (fun cs => L cs /\ M cs).
Proof. intros [H1 H2] [G1 G2]. split; intros; destruct_and!; auto. Qed.

Lemma lax_or (L M : log -> Prop) : lax L -> lax M -> lax (fun cs => L cs \/ M cs).
Proof. intros [H1 H2] [G1 G2]. split; intros; destruct_or!; auto. Qed.

Lemma lax_answer {X : Type} (e : effect H X) (x : X) : lax (fun cs => Answer e x ∈ cs).
Proof. split; intros; apply elem_of_app; by left. Qed.

Lemma lax_exists {A : Type} (L : A -> log -> Prop) : (forall a, lax (L a)) -> lax (fun cs => exists a, L a cs).
Proof. intros HL. split; intros cs X e; [intros He|intros x]; intros [a Ha]; exists a; by apply (HL a). Qed.

Definition is_spawn (c : some_call (effect H)) : bool :=
  match c with
  | Call (SpawnPreparation _ _) => true
  | _ => false
  end.

Definition unspawned (cs : log) : Prop := forall c, c ∈ cs -> is_spawn c = false.

Lemma lax_unspawned : lax unspawned.
Proof.
  split; intros cs X e; [intros He|intros x]; intros Hc c [Hin|Hin]%elem_of_app; auto;
    apply list_elem_of_singleton in Hin as ->; [by destruct e|done].
Qed.

Definition uncreated (cs : log) : Prop := creates cs = 0%nat.

Lemma lax_uncreated : lax uncreated.
Proof.
  split; intros cs X e; [intros He|intros x]; unfold uncreated; intros Hc; rewrite creates_app, Hc; [|done].
  by destruct e.
Qed.

Context (en : env (Worker S) (effect H)) (en_tame : tame en).

Section Facts.
Context (F : Journal S -> Prop) (F_lasting : lasting F).

Lemma journaled_call {X : Type} (e : effect H X) : keeps en (journaled F) (call e).
Proof. by apply keeps_any_call. Qed.

Lemma journaled_ask {X : Type} (e : effect H X) : keeps en (journaled F) (ask e).
Proof. apply keeps_query, deaf_journaled. Qed.

Lemma journaled_journal {A : Type} (m : st (Journal S) JournalError.t A) :
  preserves (fun _ => True) m -> keeps en (journaled F) (journal m).
Proof. intros Hm. apply keeps_journal; [done|by apply stable_journaled|done]. Qed.

Lemma journaled_local {A : Type} (f : Worker S -> A * Worker S) :
  (forall w, wk_journal (snd (f w)) = wk_journal w) -> keeps en (journaled F) (op f) /\ keeps en (journaled F) (act f).
Proof.
  intros Hf. assert (Hw : forall w (cs : log) a w', journaled F w cs -> f w = (a, w') -> journaled F w' cs).
  { intros w cs a w' Hw Hfw. specialize (Hf w). rewrite Hfw in Hf. cbn in Hf. unfold journaled. by rewrite Hf. }
  split; [apply spec_op; [done|..]|apply spec_act]; intros *; intros Hs Hfs; try by eapply Hw.
  apply (stable_others en en_tame); [by apply stable_journaled|]. by eapply Hw.
Qed.
End Facts.

Section LogFacts.
Context (L : log -> Prop) (L_lax : lax L).

Abbreviation at_log := (fun (_ : Worker S) cs => L cs).

Lemma lax_call {X : Type} (e : effect H X) : plain e = true -> keeps en at_log (call e).
Proof. intros He. apply spec_call; intros; [by apply L_lax|]. by apply L_lax, L_lax. Qed.

Lemma lax_ask {X : Type} (e : effect H X) : plain e = true -> keeps en at_log (ask e).
Proof. intros He. apply keeps_ask; intros; by apply L_lax. Qed.

Lemma lax_journal {A : Type} (m : st (Journal S) JournalError.t A) :
  preserves (fun _ => True) m -> keeps en at_log (journal m).
Proof. intros _. by apply spec_journal. Qed.

Lemma lax_local {A : Type} (f : Worker S -> A * Worker S) :
  (forall w, wk_journal (snd (f w)) = wk_journal w) -> keeps en at_log (op f) /\ keeps en at_log (act f).
Proof. intros _. by split; [apply spec_op|apply spec_act]. Qed.
End LogFacts.

(** A spec of the journal, in the presence of a fact of the log. *)
Lemma spec_beside {A : Type} (t : T A) (F : Journal S -> Prop) (L : log -> Prop) (Q : A -> Worker S -> log -> Prop) :
  spec en (journaled nothing) (journaled F) t Q -> keeps en (fun _ cs => L cs) t ->
  spec en (journaled nothing) (fun w cs => journaled F w cs /\ L cs) t (fun a w cs => Q a w cs /\ L cs).
Proof. intros Ht Hl. eapply spec_drop; [by apply spec_frame|]. by intros w cs []. Qed.

(** ** Terminal decisions *)

(** The attempt's completion was answered with a terminal decision. *)
Definition settled (id : string) (j : Journal S) : Prop :=
  on_record id (fun r => exists q s, rc_completion r = Some q /\ rc_completion_response r = Some s
    /\ terminal_decision s = true) j.

Lemma lasting_settled (id : string) : lasting (settled id).
Proof.
  apply lasting_record. intros r r' He (q & s & Hq & Hs & Ht).
  destruct (ev_settled _ _ He q s Hq Hs) as [Hq' Hs']; [|by exists q, s].
  intros Hd. unfold terminal_decision in Ht. by rewrite Hd in Ht.
Qed.

(** The attempt's completion was answered, for good, with [s]. *)
Definition replied (id : string) (s : CompleteAttemptResponse) (j : Journal S) : Prop :=
  reply_stops s = false ->
  on_record id (fun r => exists q, rc_completion r = Some q /\ rc_completion_response r = Some s) j.

Lemma lasting_replied (id : string) (s : CompleteAttemptResponse) : lasting (replied id s).
Proof.
  intros j j' Hk Hr Hs. specialize (Hr Hs). revert j j' Hk Hr. apply lasting_record.
  intros r r' He (q & Hq & Hs'). destruct (ev_settled _ _ He q s Hq Hs') as [? ?]; [|by exists q].
  unfold reply_stops in Hs. by apply Z.eqb_neq in Hs.
Qed.

Lemma terminal_stands (s : CompleteAttemptResponse) : terminal_decision s = true -> reply_stops s = false.
Proof.
  unfold terminal_decision, reply_stops. intros Ht. apply Z.eqb_neq. intros Hd. by rewrite Hd in Ht.
Qed.

Lemma replied_settled (id : string) (s : CompleteAttemptResponse) (j : Journal S) :
  replied id s j -> terminal_decision s = true -> settled id j.
Proof.
  intros Hr Ht. destruct (Hr (terminal_stands _ Ht)) as (r & Hst & q & Hq & Hs). exists r. split; [done|]. by exists q, s.
Qed.

(** A reply on record is one of the decisions a completion call accepts. *)
Lemma replied_terminal (id : string) (s : CompleteAttemptResponse) (j : Journal S) :
  sound j -> replied id s j -> reply_stops s = false ->
  terminal_decision s = true
  /\ on_record id (fun r => exists q, rc_completion r = Some q /\ rc_completion_response r = Some s) j.
Proof.
  intros Hj Hr Hs. destruct (Hr Hs) as (r & Hst & q & Hq & Hc). split; [|exists r; split; [done|by exists q]].
  pose proof (va_completion _ _ _ (sound_stored _ _ _ Hj Hst)) as Hv. unfold validate_completion in Hv.
  apply rbind_Ok_inv in Hv as (? & _ & Hv). rewrite Hq in Hv. apply rbind_Ok_inv in Hv as (? & _ & Hv).
  destruct (_ || _); [done|]. destruct (_ && _); [done|]. rewrite Hc in Hv.
  apply rbind_Ok_inv in Hv as (? & Hv & _). unfold completion_response_ok in Hv.
  unfold terminal_decision. unfold reply_stops in Hs.
  destruct (Completion.validate_response _ q s) as [status|] eqn:Hd; [|done].
  apply rbind_Ok_inv in Hd as (d & Hd%ok_or_Ok_inv & Hrest). rewrite Hd.
  apply Decision_.decision_try_from_Some in Hd. rewrite Hd in Hs.
  apply rbind_Ok_inv in Hrest as (state & _ & Hrest). apply rbind_Ok_inv in Hrest as (expected & _ & Hrest).
  by destruct d.
Qed.

(** What a record loaded when [F] held tells of the attempt. *)
Definition completed (id : string) : Journal S -> Prop := on_record id (fun r => is_Some (rc_completion r)).

Definition known (F : Journal S -> Prop) (id : string) (r : AttemptRecord) (j : Journal S) : Prop :=
  (forall q, rc_completion r = Some q -> exists a, ca_authority q = Some a /\ aa_attempt_id a = id)
  /\ (forall q s, rc_completion r = Some q -> settled_reply r = Some s -> replied id s j)
  /\ (rc_completion r = None -> ~ forall j, F j -> completed id j).

Lemma stored_known (F : Journal S -> Prop) (id : string) (r : AttemptRecord) (j : Journal S) :
  sound j -> F j -> stored j id = Some r -> known F id r j.
Proof.
  intros Hj Hf Hr. split_and!.
  - intros q Hq. by eapply completion_authority; [apply sound_stored|].
  - intros q s Hq Hs _. exists r. split; [done|]. unfold settled_reply in Hs.
    destruct (rc_completion_response r) as [s'|]; [|done]. destruct (_ =? _)%Z; [done|].
    injection Hs as ->. by exists q.
  - intros Hn Hc. destruct (Hc j Hf) as (r' & Hr' & q & Hq). congruence.
Qed.

Lemma lasting_known (F : Journal S -> Prop) (id : string) (r : AttemptRecord) : lasting (known F id r).
Proof.
  intros j j' Hk (Ha & Hs & Hn). split_and!; [done| |done]. intros q s Hq Hr. eapply lasting_replied; [done|]. by eapply Hs.
Qed.

(** A reply of a delivery, and what is known then. *)
Definition delivered_as (F : Journal S -> Prop) (id : string) (m : result DeliveryError (option CompleteAttemptResponse))
  (w : Worker S) (cs : log) : Prop :=
  match m with
  | Ok (Some reply) => journaled (fun j => F j /\ replied id reply j) w cs
  | Ok None => journaled F w cs /\ ~ forall j, F j -> completed id j
  | Err _ => journaled F w cs
  end.

Lemma deliver_pending_spec (id : string) (F : Journal S -> Prop) :
  lasting F -> spec en (journaled F) (journaled F) (deliver_pending_task id : T _) (delivered_as F id).
Proof.
  intros HF. unfold deliver_pending_task.
  eapply (spec_bind_ok _ _ _ _ _ (fun o => journaled (fun j => F j /\ forall r, o = Some r -> known F id r j))
    (fun _ => journaled F)); [|done|intros found].
  { apply spec_map. eapply spec_conseq; [apply (journaled_op en en_tame (load_attempt id) F
      (fun o j => forall r, o = Some r -> known F id r j))|done|by intros [?|?]].
    - by apply load_preserves.
    - done.
    - intros o j j' Hk Ho r Hr. eapply lasting_known; [done|]. by apply Ho.
    - intros j o j' Hj Hf Hl r ->. destruct (load_attempt_keeps attempt_names _ _ _ _ Hj Hl) as (Hj' & Hk & Hst).
      apply stored_known; [done|by eapply HF|by apply Hst]. }
  assert (Hw : forall w (cs : log), journaled (fun j => F j /\ forall r, found = Some r -> known F id r j) w cs -> journaled F w cs)
    by (intros w cs; apply journaled_weaken; by intros j []).
  apply spec_pure; [intros e w cs _; apply Hw|]. intros saved Hfound%ok_or_Ok_inv. subst found.
  destruct (rc_completion saved) as [q|] eqn:Hq.
  2: { apply spec_ret. intros w cs Hc. split; [by apply Hw|]. destruct Hc as [_ [_ Hk]]. by apply (Hk saved eq_refl). }
  destruct (settled_reply saved) as [s|] eqn:Hs.
  { apply spec_ret. intros w cs. apply journaled_weaken. intros j [Hf Hk]. split; [done|].
    destruct (Hk saved eq_refl) as (_ & Hset & _). by eapply Hset. }
  eapply spec_fact_of; [intros w cs [_ [_ Hk]]; exact (proj1 (Hk saved eq_refl) q Hq)|]. intros (a & Ha & Hid).
  eapply spec_conseq; [|exact Hw|intros m w cs Hm; exact Hm].
  apply keeps_try; [unfold client_complete; keeping; by apply journaled_call|done|done|intros status].
  set (reply := response_of status).
  eapply (spec_bind_ok _ _ _ _ _ (fun _ => journaled (fun j => F j /\ replied id reply j)) (fun _ => journaled F));
    [|done|intros []; by apply spec_ret].
  apply spec_map. eapply spec_conseq; [apply (journaled_op en en_tame (record_completion_response q reply) F
    (fun _ => replied id reply))|done|by intros [?|?]].
  - by apply record_completion_response_preserves.
  - done.
  - intros _. apply lasting_replied.
  - intros j [] j' Hj _ Hr _. subst id.
    destruct (record_completion_response_Ok attempt_names q reply a j j' Hj Ha Hr) as (r & Hst & Hc & Hresp).
    exists r. split; [done|]. by exists q.
Qed.

(** A fact of the journal and a fact of the log. *)
Definition held (F : Journal S -> Prop) (L : log -> Prop) (w : Worker S) (cs : log) : Prop :=
  journaled F w cs /\ L cs.

(** The outcome of a part that goes on after [Ok]. *)
Definition onward {X A : Type} (R : A -> Worker S -> log -> Prop) (m : result X A) : Worker S -> log -> Prop :=
  match m with Ok a => R a | Err _ => journaled nothing end.

Lemma held_weaken (F G : Journal S -> Prop) (L M : log -> Prop) (w : Worker S) (cs : log) :
  (forall j, F j -> G j) -> (forall cs, L cs -> M cs) -> held F L w cs -> held G M w cs.
Proof. intros HF HL [Hj Hl]. split; [by eapply journaled_weaken|auto]. Qed.

Lemma held_journaled (F : Journal S -> Prop) (L : log -> Prop) (w : Worker S) (cs : log) :
  held F L w cs -> journaled nothing w cs.
Proof. intros [Hj _]. by eapply journaled_weaken. Qed.

Lemma keeps_held {A : Type} (F : Journal S -> Prop) (L : log -> Prop) (t : T A) :
  keeps en (journaled F) t -> keeps en (fun _ cs => L cs) t -> keeps en (held F L) t.
Proof. intros Hj Hl. by apply spec_frame. Qed.

(** [?] inside the logic of [held]. *)
Lemma held_try {X Y A B : Type} (P : Worker S -> log -> Prop) (f : X -> Y) (t : T (result X A)) (k : A -> T (result Y B))
  (R : A -> Worker S -> log -> Prop) (Q : B -> Worker S -> log -> Prop) :
  spec en (journaled nothing) P t (onward R) -> (forall a, spec en (journaled nothing) (R a) (k a) (onward Q)) ->
  spec en (journaled nothing) P (tbind_ok (tmap_err f t) k) (onward Q).
Proof.
  intros Ht Hk. eapply (spec_bind_ok _ _ _ _ _ R (fun _ => journaled nothing)); [|done|done].
  apply spec_map. eapply spec_conseq; [exact Ht|done|]. by intros [a|e].
Qed.

Lemma held_bind {X A B : Type} (P : Worker S -> log -> Prop) (t : T (result X A)) (k : A -> T (result X B))
  (R : A -> Worker S -> log -> Prop) (Q : B -> Worker S -> log -> Prop) :
  spec en (journaled nothing) P t (onward R) -> (forall a, spec en (journaled nothing) (R a) (k a) (onward Q)) ->
  spec en (journaled nothing) P (tbind_ok t k) (onward Q).
Proof. intros Ht Hk. by eapply (spec_bind_ok _ _ _ _ _ R (fun _ => journaled nothing)). Qed.

(** Discharges the hypotheses of what a whole task keeps. *)
Ltac laxly := intros; first [done | by apply lax_call | by apply lax_ask | by apply lax_journal | by apply lax_local].

Ltac soundly :=
  intros; first [done | by apply journaled_call | by apply journaled_ask | by apply journaled_journal | by apply journaled_local].

Section Parts.
Context (L : log -> Prop) (L_lax : lax L).

(** A task of the journal beside a fact of the log. *)
Lemma held_beside {X A : Type} (F : Journal S -> Prop) (t : T (result X A)) (R : A -> Journal S -> Prop) :
  spec en (journaled nothing) (journaled F) t (onward (fun a => journaled (R a))) ->
  keeps en (fun _ cs => L cs) t ->
  spec en (journaled nothing) (held F L) t (onward (fun a => held (R a) L)).
Proof.
  intros Ht Hl. eapply spec_conseq; [by apply (spec_beside t F L)|done|]. intros [a|e] w cs [Hq Hcs]; [by split|done].
Qed.

Lemma deliver_terminal_replied (id : string) :
  spec en (journaled nothing) (held nothing L) (deliver_terminal id : T _)
    (onward (fun reply => held (replied id reply) L)).
Proof.
  apply (held_beside nothing _ (fun reply => replied id reply)).
  - unfold deliver_terminal. apply (spec_loop en _ (fun _ => journaled nothing)); [done|]. intros [].
    eapply spec_bind; [by apply (deliver_pending_spec id nothing)|].
    intros [[reply|]|[e|e]]; [apply spec_ret; intros w cs; apply journaled_weaken; by intros j [_ Hr]|
      apply spec_ret; by intros w cs []|by apply spec_ret|].
    destruct (retryable e); [|by apply spec_ret].
    eapply spec_bind; [by apply (journaled_call nothing)|]. intros []. by apply spec_ret.
  - apply keeps_deliver_terminal; by laxly.
Qed.

Lemma deliver_terminal_spec (id : string) :
  spec en (journaled nothing) (held nothing L) (deliver_terminal id : T _)
    (onward (fun reply => held (fun j => terminal_decision reply = true -> settled id j) L)).
Proof.
  eapply spec_conseq; [apply deliver_terminal_replied|done|]. intros [reply|e] w cs; [|done].
  apply held_weaken; [|done]. intros j. apply replied_settled.
Qed.

Lemma deliver_decided_spec (id : string) :
  spec en (journaled nothing) (held nothing L) (deliver_decided id : T _) (onward (fun _ => held (settled id) L)).
Proof.
  unfold deliver_decided. eapply held_bind; [apply deliver_terminal_spec|]. intros reply. apply spec_ret.
  intros w cs Hw. destruct (terminal_decision reply); cbn [negb onward]; [|by eapply held_journaled].
  eapply held_weaken; [|done|exact Hw]. auto.
Qed.

Lemma cancelled_spec (identity : AttemptAuthority) (cleanup : CleanupEvidence) :
  spec en (journaled nothing) (held nothing L) (cancelled identity cleanup : T _)
    (onward (fun _ => held (confirmed (aa_attempt_id identity) cleanup) L)).
Proof.
  apply (held_beside nothing _ (fun _ => confirmed (aa_attempt_id identity) cleanup)).
  - unfold cancelled. eapply (held_try _ _ _ _ (fun _ => journaled (confirmed (aa_attempt_id identity) cleanup))); [|intros q; by apply spec_ret].
    eapply spec_conseq; [by apply prepare_cancelled_spec|done|].
    intros [q|e] w cs; [apply journaled_weaken; by intros j []|done].
  - apply keeps_cancelled; by laxly.
Qed.

(** A call whose success is remembered. *)
Lemma remembered_call {X Y A : Type} (e : effect H Y) (F : Journal S -> Prop) (f : Y -> result X A) (y : Y) (a : A) :
  plain e = true -> lasting F -> (forall x, f x = Ok a -> x = y) -> (forall x b, f x = Ok b -> b = a) ->
  spec en (journaled nothing) (held F L) (let& x := call e in tret (f x) : T _)
    (onward (fun _ => held F (fun cs => L cs /\ Answer e y ∈ cs))).
Proof.
  intros He HF Hy Ha.
  eapply (spec_bind _ _ _ _ _ (fun x => held F (fun cs => L cs /\ Answer e x ∈ cs))).
  - apply spec_call; [by intros w cs [[Hs _] _]|]. intros n x w cs [Hj Hl] _. split_and!.
    + apply (stable_others en en_tame (journaled F) n w); [by apply stable_journaled|exact Hj].
    + by apply L_lax, L_lax.
    + apply elem_of_app. right. by left.
  - intros x. apply spec_ret. intros w cs Hw. destruct (f x) as [b|err] eqn:Hf; [|by eapply held_journaled].
    rewrite (Ha x b Hf) in Hf. by rewrite (Hy x Hf) in Hw.
Qed.

Lemma remove_workspace_spec (F : Journal S -> Prop) (path : string) :
  lasting F ->
  spec en (journaled nothing) (held F L) (remove_workspace path : T _)
    (onward (fun _ => held F (fun cs => L cs /\ Answer (RemoveWorkspace path) (Some (Ok tt)) ∈ cs))).
Proof.
  intros HF. apply (remembered_call _ F joined (Some (Ok tt)) tt); [done|done| |by intros x []].
  by intros [[[]|e]|].
Qed.

Lemma remove_container_spec (h : H) (F : Journal S -> Prop) :
  lasting F ->
  spec en (journaled nothing) (held F L) (remove_container h : T _)
    (onward (fun _ => held F (fun cs => L cs /\ Answer (RuntimeRemove h) (Ok tt) ∈ cs))).
Proof.
  intros HF. apply (remembered_call _ F (map_err AgentRuntime) (Ok tt) tt); [done|done| |by intros x []].
  by intros [[]|e].
Qed.

Lemma stopped_removal_spec (identity : AttemptAuthority) (container sha : string) (F : Journal S -> Prop) :
  lasting F ->
  spec en (journaled nothing) (held F L) (remove_stopped identity container sha : T _)
    (onward (fun _ => held F (fun cs => L cs /\ Answer (RemoveStopped identity container sha) (Ok tt) ∈ cs))).
Proof.
  intros HF. apply (remembered_call _ F (map_err AgentRuntime) (Ok tt) tt); [done|done| |by intros x []].
  by intros [[]|e].
Qed.
End Parts.

(** ** The ends of an attempt *)

Section Attempt.
Context (identity : AttemptAuthority) (path : string).

Abbreviation id := (aa_attempt_id identity).

(** The runtime created the container for the attempt. *)
Definition made (h : H) (cs : log) : Prop :=
  exists x w window, Answer (RuntimeCreate identity x w window) (Ok h) ∈ cs.

Lemma lax_made (h : H) : lax (made h).
Proof. repeat (apply lax_exists; intros ?). apply lax_answer. Qed.

Section Ends.
Context (container sha : string).

(** No container was asked for; or the runtime confirmed the removal of
    [container], under the attempt's identity and specification; or it confirmed the
    removal of the container it created for the attempt. *)
Definition container_gone (cs : log) : Prop :=
  uncreated cs
  \/ (container <> EmptyString /\ Answer (RemoveStopped identity container sha) (Ok tt) ∈ cs)
  \/ exists h, made h cs /\ Answer (RuntimeRemove h) (Ok tt) ∈ cs.

(** No workspace was prepared, or its removal succeeded. *)
Definition workspace_gone (cs : log) : Prop :=
  unspawned cs \/ Answer (RemoveWorkspace path) (Some (Ok tt)) ∈ cs.

Lemma lax_container_gone : lax container_gone.
Proof.
  apply lax_or; [apply lax_uncreated|]. apply lax_or; [apply lax_and; [by split|apply lax_answer]|].
  apply lax_exists. intros h. apply lax_and; [apply lax_made|apply lax_answer].
Qed.

Lemma lax_workspace_gone : lax workspace_gone.
Proof. apply lax_or; [apply lax_unspawned|apply lax_answer]. Qed.

(** The attempt is over. *)
Definition over : Worker S -> log -> Prop := held (settled id) (fun cs => container_gone cs /\ workspace_gone cs).

Abbreviation start F L := (held F L).
Abbreviation finishes P t := (spec en (journaled nothing) P t (onward (fun _ => over))).

Lemma held_any (F : Journal S -> Prop) (L : log -> Prop) (w : Worker S) (cs : log) :
  held F L w cs -> held nothing L w cs.
Proof. by apply held_weaken. Qed.

(** From a settled attempt whose container is gone. *)
Lemma clear_spec : finishes (held (settled id) container_gone) (remove_workspace path : T _).
Proof.
  eapply spec_conseq; [apply (remove_workspace_spec _ lax_container_gone); apply lasting_settled|done|].
  intros [u|e] w cs; [|done]. apply held_weaken; [done|]. intros cs' [Hc Hr]. split; [done|by right].
Qed.

Lemma decided_then_clear :
  finishes (held nothing container_gone) (let&? _ := deliver_decided id in remove_workspace path : T _).
Proof.
  eapply held_bind; [apply deliver_decided_spec, lax_container_gone|]. intros []. apply clear_spec.
Qed.

Lemma acknowledge_spec : finishes (held nothing container_gone) (acknowledge_unlaunched identity (Some path) : T _).
Proof.
  unfold acknowledge_unlaunched. eapply held_bind; [apply (cancelled_spec _ lax_container_gone)|intros ?].
  eapply held_bind; [eapply spec_conseq; [apply (remove_workspace_spec _ lax_container_gone nothing)|apply held_any|]|]; [done|..].
  { intros m w cs Hm. exact Hm. }
  intros ?. eapply spec_conseq; [apply (deliver_decided_spec (fun cs => container_gone cs /\ Answer (RemoveWorkspace path) (Some (Ok tt)) ∈ cs)), lax_and; [apply lax_container_gone|apply lax_answer]|done|].
  intros [u|e] w cs; [|done]. apply held_weaken; [done|]. intros cs' [Hc Hr]. split; [done|by right].
Qed.

Lemma acknowledge_early_spec :
  finishes (held nothing (fun cs => container_gone cs /\ unspawned cs)) (acknowledge_unlaunched identity None : T _).
Proof.
  assert (Hl : lax (fun cs => container_gone cs /\ unspawned cs)) by (apply lax_and; [apply lax_container_gone|apply lax_unspawned]).
  unfold acknowledge_unlaunched. eapply held_bind; [by apply cancelled_spec|intros ?].
  eapply (held_bind _ _ _ (fun _ => held nothing (fun cs => container_gone cs /\ unspawned cs))).
  { apply spec_ret. apply held_any. }
  intros ?. eapply spec_conseq; [by apply deliver_decided_spec|done|].
  intros [u|e] w cs; [|done]. apply held_weaken; [done|]. intros cs' [Hc Hr]. split; [done|by left].
Qed.

Lemma cancel_then_decide (cleanup : CleanupEvidence) :
  spec en (journaled nothing) (held nothing container_gone)
    (let&? _ := cancelled identity cleanup in deliver_decided id : T _) (onward (fun _ => held (settled id) container_gone)).
Proof.
  eapply held_bind; [apply (cancelled_spec _ lax_container_gone)|intros ?].
  eapply spec_conseq; [apply (deliver_decided_spec _ lax_container_gone)|apply held_any|]. intros m w cs Hm. exact Hm.
Qed.

(** A reply that settles, or leads to a cancellation. *)
Lemma settle_or_cancel (cleanup : CleanupEvidence) (reply : CompleteAttemptResponse) :
  spec en (journaled nothing) (held (fun j => terminal_decision reply = true -> settled id j) container_gone)
    (if reply_stops reply then (let&? _ := cancelled identity cleanup in deliver_decided id)
     else tret (if negb (terminal_decision reply) then Err AgentTask else Ok tt) : T _)
    (onward (fun _ => held (settled id) container_gone)).
Proof.
  destruct (reply_stops reply).
  - eapply spec_conseq; [apply cancel_then_decide|apply held_any|intros m w cs Hm; exact Hm].
  - apply spec_ret. intros w cs Hw. destruct (terminal_decision reply); cbn [negb onward]; [|by eapply held_journaled].
    eapply held_weaken; [|done|exact Hw]. auto.
Qed.

Lemma deliver_unlaunched_spec : finishes (held nothing container_gone) (deliver_unlaunched_failure identity path : T _).
Proof.
  unfold deliver_unlaunched_failure. eapply held_bind; [apply (deliver_terminal_spec _ lax_container_gone)|intros reply].
  eapply held_bind; [apply settle_or_cancel|intros ?]. apply clear_spec.
Qed.

Lemma unlaunched_spec (reason : FailureReason.t) :
  finishes (held nothing container_gone)
    (let&? _ := tmap_err AgentFinalization (prepare_unlaunched_failure identity reason) in
     deliver_unlaunched_failure identity path : T _).
Proof.
  eapply (held_try _ _ _ _ (fun _ => held nothing container_gone)); [|intros q; apply deliver_unlaunched_spec].
  apply (held_beside _ nothing).
  - eapply spec_conseq; [by apply keeps_unlaunched; soundly|done|by intros [?|?]].
  - pose proof lax_container_gone. apply keeps_unlaunched; by laxly.
Qed.

Lemma abandon_spec (reason : StopReason) : finishes (held nothing container_gone) (abandon identity path reason : T _).
Proof.
  unfold abandon. destruct (is_stop_requested reason); [apply acknowledge_spec|].
  eapply held_bind; [by apply (remove_workspace_spec _ lax_container_gone nothing)|]. intros ?. apply spec_ret.
  intros w cs Hw. by eapply held_journaled.
Qed.

(** *** After a container may exist *)

Lemma load_own_spec (L : log -> Prop) (F : Journal S -> Prop) (G : AttemptRecord -> Journal S -> Prop) :
  lax L -> lasting F -> (forall r, lasting (G r)) ->
  (forall j r, sound j -> F j -> stored j id = Some r -> G r j) ->
  spec en (journaled nothing) (held F L) (load_own id : T _) (onward (fun r => held (G r) L)).
Proof.
  intros HL HF HG Hr. apply (held_beside _ F); [|apply keeps_load_own; by laxly].
  unfold load_own. eapply (held_try _ _ _ _ (fun o => journaled (fun j => forall r, o = Some r -> G r j))).
  - eapply spec_drop; [eapply spec_conseq; [apply (journaled_op en en_tame (load_attempt id) F
      (fun o j => forall r, o = Some r -> G r j))|done|]|by intros w cs; apply journaled_weaken].
    + by apply load_preserves.
    + done.
    + intros o j j' Hk Ho r Hor. eapply HG; [done|by apply Ho].
    + intros j o j' Hj Hf Hl r ->. destruct (load_attempt_keeps attempt_names _ _ _ _ Hj Hl) as (Hj' & Hk & Hst).
      apply Hr; [done|by eapply HF|by apply Hst].
    + intros [o|e] w cs; [apply journaled_weaken; by intros j []|by apply journaled_weaken].
  - intros [r|]; apply spec_ret; intros w cs; cbn; apply journaled_weaken; [|done]. intros j Ho. by apply Ho.
Qed.

Lemma cancel_exited_spec (h : H) : finishes (held nothing (made h)) (cancel_exited identity path h : T _).
Proof.
  pose proof (lax_made h) as Hl.
  unfold cancel_exited. eapply held_bind; [by apply (cancelled_spec _ Hl)|intros ?].
  eapply held_bind; [eapply spec_conseq; [by apply (remove_container_spec _ Hl h nothing)|apply held_any|]|intros ?].
  { intros m w cs Hm. exact Hm. }
  eapply spec_conseq; [apply decided_then_clear| |intros m w cs Hm; exact Hm].
  intros w cs. apply held_weaken; [done|]. intros cs' [Hm Ha]. right. right. by exists h.
Qed.

Lemma conclude_spec (h : H) (reply : CompleteAttemptResponse) :
  finishes (held (fun j => terminal_decision reply = true -> settled id j) (made h)) (conclude path h reply : T _).
Proof.
  unfold conclude. destruct (terminal_decision reply); cbn [negb].
  - eapply held_bind; [eapply spec_conseq; [apply (remove_container_spec _ (lax_made h)); [apply (lasting_settled id)]| |]|intros ?].
    + intros w cs. apply held_weaken; auto.
    + intros m w cs Hm. exact Hm.
    + eapply spec_conseq; [apply clear_spec| |intros m w cs Hm; exact Hm].
      intros w cs. apply held_weaken; [done|]. intros cs' [Hm Ha]. right. right. by exists h.
  - apply spec_ret. intros w cs Hw. by eapply held_journaled.
Qed.

Lemma not_finalized_spec (h : H) (error : FinalizationError) :
  finishes (held nothing (made h)) (not_finalized identity path h error : T _).
Proof.
  pose proof (lax_made h) as Hl.
  assert (Herr : forall e : AgentError, finishes (held nothing (made h)) (tret (Err e) : T (result AgentError unit)))
    by (intros e; apply spec_ret; intros w cs Hw; by eapply held_journaled).
  unfold not_finalized. destruct error as [| |reason| | | | |]; try apply Herr.
  destruct reason as [|d| | |]; try apply Herr. destruct d; try apply Herr.
  eapply held_bind; [by apply (load_own_spec _ nothing (fun _ => nothing))|intros saved].
  destruct (rc_completion saved) as [q|]; [|apply cancel_exited_spec].
  eapply held_bind; [apply (deliver_terminal_spec _ Hl)|intros reply].
  destruct (reply_stops reply); cbn [negb]; [|by apply conclude_spec].
  eapply spec_conseq; [apply cancel_exited_spec|apply held_any|intros m w cs Hm; exact Hm].
Qed.

Lemma finish_spec (c : TransferClient) (ws : PreparedWorkspace) (f : FinalizingAttempt H) :
  finishes (held nothing (made (fa_handle f))) (finish_attempt c identity path ws f).
Proof.
  pose proof (lax_made (fa_handle f)) as Hl.
  unfold finish_attempt. eapply (spec_bind _ _ _ _ _ (fun _ => held nothing (made (fa_handle f)))).
  - eapply spec_drop; [apply keeps_bind_ok|intros w cs; apply held_journaled].
    + apply keeps_held; apply keeps_publish; first [by soundly | by laxly].
    + intros logs. apply keeps_held; apply keeps_prepare_completion; first [by soundly | by laxly].
  - intros [q|error]; [|apply not_finalized_spec].
    eapply held_bind; [apply (deliver_terminal_spec _ Hl)|intros reply].
    destruct (reply_stops reply); [|by apply conclude_spec].
    eapply spec_conseq; [apply cancel_exited_spec|apply held_any|intros m w cs Hm; exact Hm].
Qed.

(** *** An execution that failed *)

(** From the removal of the container on. *)
Lemma failure_delivered_spec :
  container <> EmptyString ->
  spec en (journaled nothing) (held nothing (fun _ => True))
    (let&? _ := remove_stopped identity container sha in
     let&? _ := tmap_err AgentFinalization (prepare_removed_launch_failure identity) in
     let&? reply := deliver_terminal id in
     if reply_stops reply then (let&? _ := cancelled identity StoppedEvidence in deliver_decided id)
     else tret (if negb (terminal_decision reply) then Err AgentTask else Ok tt) : T _)
    (onward (fun _ => held (settled id) container_gone)).
Proof.
  intros Hne. assert (Hl : lax (fun _ => True)) by (by split). pose proof lax_container_gone as Hgone.
  eapply held_bind; [by apply (stopped_removal_spec _ Hl identity container sha nothing)|intros ?].
  eapply (held_try _ _ _ _ (fun _ => held nothing container_gone)).
  - eapply spec_conseq; [apply (held_beside container_gone nothing _ (fun _ => nothing))| |intros m w cs Hm; exact Hm].
    + eapply spec_conseq; [by apply keeps_removed_launch; soundly|done|by intros [?|?]].
    + apply keeps_removed_launch; by laxly.
    + intros w cs. apply held_weaken; [done|]. intros cs' [_ Hr]. right. by left.
  - intros q. eapply held_bind; [by apply (deliver_terminal_spec _ Hgone)|intros reply]. apply settle_or_cancel.
Qed.

Lemma stopped_delivered_spec (L : log -> Prop) :
  lax L -> container <> EmptyString ->
  finishes (held nothing L)
    (let&? _ := remove_stopped identity container sha in let&? _ := deliver_decided id in remove_workspace path : T _).
Proof.
  intros HL Hne. eapply (held_bind _ _ _ (fun _ => held nothing container_gone)); [|intros ?; apply decided_then_clear].
  eapply spec_conseq; [by apply (stopped_removal_spec _ HL identity container sha nothing)|done|].
  intros [u|e] w cs; [|done]. apply held_weaken; [done|]. intros cs' [_ Hr]. right. by left.
Qed.
End Ends.

Section Ended.
Context (grant : GrantedAssignment) (granted : as_authority (ga_assignment grant) = Some identity).

Abbreviation sha := (as_spec_sha256 (ga_assignment grant)).

(** [container] is on the attempt's record. *)
Definition bound (container : string) : Journal S -> Prop :=
  on_record id (fun r => rc_container_id r = container /\ container <> EmptyString).

Lemma lasting_bound_record (container : string) : lasting (bound container).
Proof. apply lasting_record. intros r r' He [<- Hne]. split; [|done]. by apply (ev_container _ _ He). Qed.

Lemma stored_bound (j : Journal S) (r : AttemptRecord) :
  sound j -> stored j id = Some r -> has_container r = true -> bound (rc_container_id r) j.
Proof.
  intros _ Hr Hc. exists r. split; [done|]. split; [done|]. intros E. unfold has_container in Hc. by rewrite E in Hc.
Qed.

(** The attempt is over, and a removal by identifier was that of the container on
    its record. *)
Definition ended (w : Worker S) (cs : log) : Prop :=
  exists container, over container sha w cs /\ (container = EmptyString \/ journaled (bound container) w cs).

Abbreviation ends P t := (spec en (journaled nothing) P t (onward (fun _ => ended))).

Lemma ends_over {A : Type} (P : Worker S -> log -> Prop) (t : T (result AgentError A)) :
  spec en (journaled nothing) P t (onward (fun _ => over EmptyString sha)) -> ends P t.
Proof.
  intros Ht. eapply spec_conseq; [exact Ht|done|]. intros [a|e] w cs Hw; [|done]. exists EmptyString. by split; [|left].
Qed.

(** A task that starts with the container on record. *)
Lemma spec_bound {A : Type} (container : string) (P : Worker S -> log -> Prop) (t : T (result AgentError A))
  (R : A -> Worker S -> log -> Prop) :
  spec en (journaled nothing) P t (onward R) -> keeps en (journaled (bound container)) t ->
  spec en (journaled nothing) (fun w cs => P w cs /\ journaled (bound container) w cs) t
    (onward (fun a w cs => R a w cs /\ journaled (bound container) w cs)).
Proof.
  intros Ht Hk. eapply spec_drop; [eapply spec_conseq; [exact (spec_frame en t _ _ _ _ Ht Hk)|done|]|].
  - intros [a|e] w cs [Hm Hb]; [by split|done].
  - by intros w cs [].
Qed.

Lemma held_bound (container : string) (L : log -> Prop) (w : Worker S) (cs : log) :
  held (bound container) L w cs -> held nothing L w cs /\ journaled (bound container) w cs.
Proof. intros [Hj Hl]. split; [split; [by eapply journaled_weaken|done]|done]. Qed.

Lemma removed_launch_spec :
  spec en (journaled nothing) (held nothing (fun _ => True)) (complete_removed_launch_failure grant : T _)
    (onward (fun _ w cs => exists container,
       held (settled id) (container_gone container sha) w cs /\ journaled (bound container) w cs)).
Proof.
  assert (Hl : lax (fun _ => True)) by (by split).
  unfold complete_removed_launch_failure. rewrite granted. cbn [ok_or]. apply spec_pure; [done|]. intros i [= <-].
  eapply held_bind; [apply (load_own_spec _ nothing (fun r j => has_container r = true -> bound (rc_container_id r) j) Hl)|intros saved].
  { done. }
  { intros r j j' Hk Hb Hc. by eapply lasting_bound_record; [|apply Hb]. }
  { intros j r Hj _ Hr. by apply stored_bound. }
  destruct (_ || _); [apply spec_ret; intros w cs; apply held_journaled|].
  destruct (has_container saved) eqn:Hc; cbn [negb]; [|apply spec_ret; intros w cs; apply held_journaled].
  assert (Hne : rc_container_id saved <> EmptyString) by (unfold has_container in Hc; by destruct (rc_container_id saved)).
  eapply spec_conseq; [apply (spec_bound (rc_container_id saved)); [by apply failure_delivered_spec|]|..].
  - pose proof (lasting_bound_record (rc_container_id saved)). apply keeps_failure_delivery; by soundly.
  - intros w cs Hw. apply held_bound. eapply held_weaken; [|done|exact Hw]. auto.
  - intros [u|e] w cs Hm; [|done]. by exists (rc_container_id saved).
Qed.

Lemma not_executed_spec (error : ExecutionError) :
  ends (held nothing (fun cs => confirmed_cancellation error = Some NotCreated -> uncreated cs))
    (not_executed identity path grant error : T _).
Proof.
  unfold not_executed. destruct (launch_failed_in_runtime error).
  { eapply held_bind; [eapply spec_conseq; [by apply removed_launch_spec|by intros w cs; apply held_weaken|]|].
    - intros m w cs Hm. exact Hm.
    - intros ?. apply spec_exists. intros container.
      eapply spec_conseq; [apply (spec_bound container); [apply (clear_spec container sha)|]|done|].
      + pose proof (lasting_bound_record container). apply keeps_remove_workspace; by soundly.
      + intros [u'|e] w cs Hm; [|done]. exists container. destruct Hm. by split; [|right]. }
  destruct (confirmed_cancellation error) as [cleanup|] eqn:Hc;
    [|apply spec_ret; intros w cs; apply held_journaled].
  set (L := fun cs => cleanup = NotCreated -> uncreated cs).
  assert (HL : lax L) by (destruct lax_uncreated as [H1 H2]; split; intros; intros ?; auto).
  eapply spec_conseq; [|intros w cs; apply (held_weaken _ nothing _ L); [done|]; intros cs' Hu Heq; apply Hu; by f_equal|
    intros m w cs Hm; exact Hm].
  eapply held_bind; [by apply (cancelled_spec _ HL)|intros ?].
  eapply held_bind; [apply (load_own_spec L _ (fun r j => (cleanup = NotCreated \/ has_container r = true)
    /\ (has_container r = true -> bound (rc_container_id r) j)) HL)|intros saved].
  { apply lasting_confirmed. }
  { intros r j j' Hk [Hr Hb]. split; [done|]. intros Hh. by eapply lasting_bound_record; [|apply Hb]. }
  { intros j r Hj Hcf Hr. split; [|by apply stored_bound]. destruct Hcf as [?|[_ (r' & Hr' & Hcont)]]; [by left|right].
    rewrite Hr in Hr'. injection Hr' as <-. unfold has_container. by destruct (rc_container_id r). }
  destruct (has_container saved) eqn:Hhas.
  - assert (Hne : rc_container_id saved <> EmptyString) by (unfold has_container in Hhas; by destruct (rc_container_id saved)).
    eapply spec_conseq; [apply (spec_bound (rc_container_id saved)); [by apply (stopped_delivered_spec _ sha L)|]|..].
    + pose proof (lasting_bound_record (rc_container_id saved)). apply keeps_stopped_delivery; by soundly.
    + intros w cs Hw. apply held_bound. eapply held_weaken; [|done|exact Hw]. naive_solver.
    + intros [u|e] w cs Hm; [|done]. exists (rc_container_id saved). destruct Hm. by split; [|right].
  - apply ends_over. eapply (held_bind _ _ _ (fun _ => held nothing (container_gone EmptyString sha)));
      [|intros ?; apply decided_then_clear].
    apply spec_ret. intros w cs [[Hs [[->|Hd] _]] Hl]; [|congruence]. split; [by split|]. left. by apply Hl.
Qed.

(** A launch that says it created nothing created nothing. *)
Section Execution.
Context (container_id : H -> string).

Lemma launch_uncreated (input : LaunchInput) (session : WorkerSession) (ws : PreparedWorkspace) :
  spec en (fun _ _ => True) (fun _ cs => uncreated cs) (launch_inner container_id input session ws)
    (fun m _ cs => forall e, m = Err e -> le_cleanup e = NotCreated -> uncreated cs).
Proof.
  pose proof lax_uncreated as Hu. unfold launch_inner.
  eapply (spec_bind _ _ _ _ _ (fun _ _ cs => uncreated cs)).
  { eapply keeps_spec; [apply keeps_launch_prepare; by laxly|done]. }
  intros [[i w]|cause]; [|apply spec_ret; by intros w' cs Hc e [= <-]].
  eapply spec_bind; [apply spec_trivial|]. intros [h|cause]; [|apply spec_ret; by intros w' cs _ e [= <-]].
  eapply spec_bind; [apply spec_trivial|]. intros [u|cause]; [by apply spec_ret|].
  eapply spec_bind; [apply spec_trivial|]. intros stopped. apply spec_ret. intros w' cs _ e [= <-]. by destruct stopped.
Qed.

Lemma create_made (x : ExecutionSpec) (ws : PreparedWorkspace) (window : AuthorityWindow) :
  spec en (fun _ _ => True) (fun _ _ => True)
    (under (tmap_err CauseRuntime (call (RuntimeCreate identity x ws window))) : T _)
    (fun m _ cs => forall h, m = Ok h -> made h cs).
Proof.
  unfold under. set (Q := fun (m : result LaunchCause H) (_ : Worker S) (cs : log) => forall h, m = Ok h -> made h cs).
  eapply (spec_bind _ _ _ _ _ (fun r w cs => forall m, r = Ok m -> Q m w cs)).
  - apply (spec_while_live en _ _ _ Q); [done|done| |by intros m w cs Hm m' [= <-]|by intros].
    apply spec_map, spec_call; [done|]. intros n [h|e] w cs _ Hx h' [=]. subst h'.
    exists x, ws, window. apply elem_of_app. right. by apply list_elem_of_singleton.
  - intros [m|reason]; apply spec_ret; [|by intros w cs _ h [=]]. intros w cs Hm. by apply Hm.
Qed.

Lemma launch_prepare_identity (input : LaunchInput) (session : WorkerSession) (ws : PreparedWorkspace) :
  as_authority (li_assignment input) = Some identity ->
  spec en (fun _ _ => True) (fun _ _ => True) (launch_prepare input session ws : T _)
    (fun m _ _ => forall i window, m = Ok (i, window) -> i = identity).
Proof.
  intros Ha.
  assert (onto : forall X A (t : T (result LaunchCause A)) (k : A -> T (result LaunchCause (AttemptAuthority * X))),
    (forall a, spec en (fun _ _ => True) (fun _ _ => True) (k a) (fun m _ _ => forall i x, m = Ok (i, x) -> i = identity)) ->
    spec en (fun _ _ => True) (fun _ _ => True) (tbind_ok t k) (fun m _ _ => forall i x, m = Ok (i, x) -> i = identity)).
  { intros X A t k Hk. eapply (spec_bind_ok _ _ _ _ _ (fun _ _ _ => True) (fun _ _ _ => True)); [|by intros|exact Hk].
    intros r _. by destruct (t en r) as [[[?|?]|] ?]. }
  unfold launch_prepare. rewrite Ha. cbn [ok_or]. apply spec_pure; [by intros|]. intros i [= <-].
  eapply spec_bind; [apply spec_trivial|intros sa]. destruct (_ || _); [apply spec_ret; by intros|].
  apply onto; intros starting.
  apply onto; intros ?.
  apply onto; intros window.
  apply spec_ret. by intros w cs _ i' window' [= <- _].
Qed.

Lemma launch_made (input : LaunchInput) (session : WorkerSession) (ws : PreparedWorkspace) :
  as_authority (li_assignment input) = Some identity ->
  spec en (fun _ _ => True) (fun _ _ => True) (launch_inner container_id input session ws)
    (fun m _ cs => forall h, m = Ok h -> made h cs).
Proof.
  intros Ha. unfold launch_inner. eapply spec_bind; [by apply launch_prepare_identity|].
  intros [[i window]|cause]; [|apply spec_ret; by intros w cs _ h [=]].
  eapply spec_fact_of; [intros w cs Hi; exact (Hi i window eq_refl)|intros ->].
  eapply (spec_bind _ _ _ _ _ (fun m _ cs => forall h, m = Ok h -> made h cs)).
  { eapply spec_conseq; [apply create_made|done|done]. }
  intros [h|cause]; [|apply spec_ret; by intros w cs _ h [=]].
  eapply (spec_bind _ _ _ _ _ (fun _ _ cs => made h cs)).
  { pose proof (lax_made h). eapply spec_conseq; [eapply spec_drop; [apply keeps_launch_start|done]; by laxly| |done].
    intros w cs Hm. by apply Hm. }
  intros [u|cause]; [apply spec_ret; by intros w cs Hm h' [= <-]|].
  eapply spec_bind; [apply spec_trivial|]. intros stopped. apply spec_ret. by intros w cs _ h' [=].
Qed.

Lemma execute_made (a : Assignment) (x : ExecutionSpec) (session : WorkerSession) (ws : PreparedWorkspace) :
  as_authority a = Some identity ->
  spec en (fun _ _ => True) (fun _ _ => True) (execute_with_logs container_id a x session ws)
    (fun m _ cs => forall f, m = Ok f -> made (fa_handle f) cs).
Proof.
  intros Ha. unfold execute_with_logs, execute_inner_impl. eapply spec_bind; [apply spec_trivial|intros sa].
  eapply (spec_bind_ok _ _ _ _ _ (fun h _ cs => made h cs) (fun _ _ _ => True)).
  - apply spec_map. eapply spec_conseq; [by apply launch_made|done|]. intros [h|e] w cs Hm; cbn [map_err]; [by apply Hm|done].
  - done.
  - intros h. eapply (spec_bind _ _ _ _ _ (fun _ _ cs => made h cs)).
    + pose proof (lax_made h). eapply spec_drop; [apply keeps_with_capture, keeps_supervised|done]; by laxly.
    + intros [[[exit deadline]|cause] capture].
      * apply spec_ret. by intros w cs Hm f [= <-].
      * eapply spec_bind; [apply spec_trivial|]. intros stopped. apply spec_ret. by intros w cs _ f [=].
Qed.

Lemma execute_uncreated (a : Assignment) (x : ExecutionSpec) (session : WorkerSession) (ws : PreparedWorkspace) :
  spec en (fun _ _ => True) (fun _ cs => uncreated cs) (execute_with_logs container_id a x session ws)
    (fun m _ cs => forall e, m = Err e -> confirmed_cancellation e = Some NotCreated -> uncreated cs).
Proof.
  unfold execute_with_logs, execute_inner_impl. eapply spec_bind; [apply spec_authority; intros sa w cs Hu; exact Hu|intros sa].
  eapply (spec_bind_ok _ _ _ _ _ (fun _ _ _ => True) (fun e _ cs => exists e', e = LaunchFailed e'
    /\ (le_cleanup e' = NotCreated -> uncreated cs))).
  - apply spec_map. eapply spec_conseq; [apply launch_uncreated|done|].
    intros [h|e] w cs Hm; cbn [map_err]; [done|]. exists e. split; [done|by apply Hm].
  - intros e w cs (e' & -> & He) e'' [= <-] Hc. apply He. unfold confirmed_cancellation in Hc.
    by repeat case_match; simplify_eq.
  - intros h. eapply spec_bind; [apply spec_trivial|]. intros [[[exit deadline]|cause] capture]; [by apply spec_ret|].
    eapply spec_bind; [apply spec_trivial|]. intros stopped. apply spec_ret. intros w cs _ e [= <-] Hc.
    unfold confirmed_cancellation in Hc. by repeat case_match; simplify_eq.
Qed.

(** What an execution tells about its container. *)
Definition executed_as (m : result ExecutionError (FinalizingAttempt H)) (cs : log) : Prop :=
  match m with
  | Ok f => made (fa_handle f) cs
  | Err e => confirmed_cancellation e = Some NotCreated -> uncreated cs
  end.

Lemma execute_outcome (a : Assignment) (x : ExecutionSpec) (session : WorkerSession) (ws : PreparedWorkspace) :
  as_authority a = Some identity ->
  spec en (journaled nothing) (held nothing uncreated) (execute_with_logs container_id a x session ws)
    (fun m => held nothing (executed_as m)).
Proof.
  intros Ha. eapply (spec_conseq en _ _ _ _ _ (fun m w cs => journaled nothing w cs /\ (forall f, m = Ok f -> made (fa_handle f) cs)
    /\ forall e, m = Err e -> confirmed_cancellation e = Some NotCreated -> uncreated cs)).
  - eapply spec_drop; [apply (spec_and en _ (journaled nothing) (journaled nothing) (fun _ _ => True /\ True)
      (fun _ cs => True /\ uncreated cs) (fun _ => journaled nothing)); [apply keeps_execute; by soundly|]|by intros w cs []].
    eapply spec_and; [by apply execute_made|apply execute_uncreated].
  - by intros w cs [].
  - intros [f|e] w cs (Hj & Hm & Hu); (split; [done|]); [by apply Hm|exact (Hu e eq_refl)].
Qed.

(** *** The whole assignment *)

Context (parse_url : string -> option Url) (from_slice_manifest : bytes -> option DatasetManifest).
Context (transfers : TransferClient) (downloader : DatasetDownloader).

Abbreviation clean := (held nothing uncreated).

Lemma clean_call {X : Type} (e : effect H X) : plain e = true -> keeps en clean (call e).
Proof. intros He. pose proof lax_uncreated. apply keeps_held; [by apply (journaled_call nothing)|by laxly]. Qed.

Lemma clean_gone (w : Worker S) (cs : log) : clean w cs -> held nothing (container_gone EmptyString sha) w cs.
Proof. apply held_weaken; [done|]. intros cs' Hu. by left. Qed.

(** A part that goes on clean or finishes. *)
Definition parted {A : Type} (x : A + result AgentError unit) : Worker S -> log -> Prop :=
  match x with inl _ => clean | inr m => onward (fun _ => ended) m end.

Lemma part_return {A : Type} (t : T (result AgentError unit)) :
  ends clean t -> spec en (journaled nothing) clean (return_with t : T (A + _)) parted.
Proof. intros Ht. unfold return_with. apply spec_map. exact Ht. Qed.

Lemma abandon_clean (reason : StopReason) : ends clean (abandon identity path reason : T _).
Proof.
  apply ends_over. eapply spec_conseq; [apply abandon_spec|apply clean_gone|intros m w cs Hm; exact Hm].
Qed.

Lemma part_err {A : Type} (e : AgentError) : spec en (journaled nothing) clean (tret (inr (Err e)) : T (A + _)) parted.
Proof. apply spec_ret. intros w cs. apply held_journaled. Qed.

Lemma go_on_spec {A : Type} (t : T (A + result AgentError unit)) (k : A -> T (result AgentError unit)) :
  spec en (journaled nothing) clean t parted -> (forall a, ends clean (k a)) -> ends clean (go_on t k).
Proof.
  intros Ht Hk. unfold go_on. eapply spec_bind; [exact Ht|]. intros [a|m]; [apply Hk|]. by apply spec_ret.
Qed.

Lemma prepare_storage_spec (scratch : N) :
  spec en (journaled nothing) clean (prepare_storage identity path scratch : T _) parted.
Proof.
  unfold prepare_storage. eapply (spec_bind _ _ _ _ _ (fun _ => clean)).
  { apply spec_ask. intros x w cs [Hj Hu]. split; [exact Hj|]. unfold uncreated in *. by rewrite !creates_app, Hu. }
  intros _. eapply (spec_bind _ _ _ _ _ (fun _ => clean)).
  { eapply spec_drop; [apply keeps_while_live_ref; by apply clean_call|intros w cs; apply held_journaled]. }
  intros [[prepared|reason] completed].
  - destruct (joined prepared); [by apply spec_ret|apply part_err].
  - eapply (spec_bind _ _ _ _ _ (fun _ => clean)).
    { eapply spec_drop; [destruct completed; [apply keeps_panic|by apply clean_call]|intros w cs; apply held_journaled]. }
    intros prepared. destruct (joined prepared); [apply part_return, abandon_clean|apply part_err].
Qed.

Lemma prepare_pulled_spec (x : ExecutionSpec) :
  spec en (journaled nothing) clean (prepare_pulled identity path x : T _) parted.
Proof.
  unfold prepare_pulled. eapply (spec_bind _ _ _ _ _ (fun _ => clean)).
  { eapply spec_drop; [apply keeps_while_live; by apply clean_call|intros w cs; apply held_journaled]. }
  intros [[[]|e]|reason]; [by apply spec_ret| |apply part_return, abandon_clean].
  apply part_return, ends_over. eapply spec_conseq; [apply unlaunched_spec|apply clean_gone|intros m w cs Hm; exact Hm].
Qed.

Lemma prepare_inputs_spec (q : AcquireWorkRequest) (ws : PreparedWorkspace) :
  spec en (journaled nothing) clean
    (prepare_inputs parse_url from_slice_manifest downloader identity path q grant ws : T _) parted.
Proof.
  unfold prepare_inputs. case_bool_decide; [by apply spec_ret|]. eapply (spec_bind _ _ _ _ _ (fun _ => clean)).
  { pose proof lax_uncreated. eapply spec_drop; [apply keeps_while_live, keeps_held|intros w cs; apply held_journaled].
    - apply keeps_stage; by soundly.
    - apply keeps_stage; by laxly. }
  assert (Hrem : forall e : AgentError, ends clean (let&? _ := remove_workspace path in tret (Err e) : T (result AgentError unit))).
  { intros e. eapply held_bind; [apply (remove_workspace_spec _ lax_uncreated nothing); done|intros ?].
    apply spec_ret. intros w cs. apply held_journaled. }
  assert (Hack : ends clean (acknowledge_unlaunched identity (Some path) : T _))
    by (apply ends_over; eapply spec_conseq; [apply acknowledge_spec|apply clean_gone|intros m w cs Hm; exact Hm]).
  intros [[[pins w']|e]|reason]; [by apply spec_ret| |apply part_return, abandon_clean].
  destruct e as [e|e|]; [apply part_return, Hrem| |apply part_return, Hack].
  destruct e as [e|e|e]; try (apply part_return, Hrem). destruct e; try (apply part_return, Hrem).
  apply part_return, ends_over. eapply spec_conseq; [apply unlaunched_spec|apply clean_gone|intros m w cs Hm; exact Hm].
Qed.

Lemma run_assignment_spec (q : AcquireWorkRequest) (session : WorkerSession) (root : string) :
  path = path_join root id ->
  ends (held nothing (fun cs => uncreated cs /\ unspawned cs))
    (run_assignment parse_url from_slice_manifest container_id root transfers downloader q session grant).
Proof.
  intros Hpath. unfold run_assignment. rewrite granted. cbn [ok_or]. apply spec_pure; [done|]. intros i [= <-].
  rewrite <- Hpath. apply spec_pure; [intros e w cs _; apply held_journaled|intros resources _].
  pose proof (lax_and _ _ lax_uncreated lax_unspawned) as Hl.
  eapply (held_try _ _ _ _ (fun _ => held nothing (fun cs => uncreated cs /\ unspawned cs))).
  { eapply spec_drop; [eapply spec_conseq; [apply keeps_held|done|by intros [?|?] w cs Hw; [|apply held_journaled in Hw]]|
      intros w cs; apply held_journaled].
    - apply journaled_journal; [done|]. by apply claim_assignment_preserves.
    - apply lax_journal. by apply claim_assignment_preserves. }
  intros _. eapply spec_bind; [apply spec_authority_window; intros live w cs Hw; exact Hw|].
  intros [window|reason].
  - eapply spec_conseq; [|intros w cs; apply (held_weaken _ nothing _ uncreated); [done|by intros cs' []]|intros m w cs Hm; exact Hm].
    apply go_on_spec; [apply prepare_storage_spec|intros ws].
    apply go_on_spec; [apply prepare_pulled_spec|intros _]. apply go_on_spec; [apply prepare_inputs_spec|intros ws'].
    eapply spec_bind; [by apply execute_outcome|].
    intros [f|error]; [apply ends_over, finish_spec|by apply not_executed_spec].
  - destruct (is_stop_requested reason); [|apply spec_ret; intros w cs; apply held_journaled].
    apply ends_over. eapply spec_conseq; [apply acknowledge_early_spec| |intros m w cs Hm; exact Hm].
    intros w cs. apply held_weaken; [done|]. intros cs' [Hu Hn]. split; [by left|done].
Qed.
End Execution.
End Ended.
End Attempt.

(** C6: an assignment that ends well left nothing behind.  When [run_assignment]
    returns [Ok], whatever the journal, the control plane, the runtime and the other
    tasks did: the journal holds the attempt's completion with a terminal answer to
    it; no container was asked for, or the runtime confirmed the removal of the
    container on the attempt's record, or of the one it created for the attempt; and
    no workspace was prepared or its removal succeeded. *)
Theorem settled_attempt_left_nothing_behind (parse_url : string -> option Url)
  (from_slice_manifest : bytes -> option DatasetManifest) (container_id : H -> string) (root : string)
  (transfers : TransferClient) (downloader : DatasetDownloader) (q : AcquireWorkRequest)
  (session : WorkerSession) (grant : GrantedAssignment) (identity : AttemptAuthority)
  (r r' : exec (Worker S) (effect H)) :
  sound (wk_journal (ex_state r)) -> ex_calls r = [] -> as_authority (ga_assignment grant) = Some identity ->
  run_assignment parse_url from_slice_manifest container_id root transfers downloader q session grant en r
    = (Some (Ok tt), r') ->
  exists record, stored (wk_journal (ex_state r')) (aa_attempt_id identity) = Some record
  /\ (exists request reply, rc_completion record = Some request /\ rc_completion_response record = Some reply
        /\ terminal_decision reply = true)
  /\ container_gone identity (rc_container_id record) (as_spec_sha256 (ga_assignment grant)) (ex_calls r')
  /\ workspace_gone (path_join root (aa_attempt_id identity)) (ex_calls r').
Proof.
  intros Hs Hc Ha Hr.
  pose proof (run_assignment_spec identity (path_join root (aa_attempt_id identity)) grant Ha container_id parse_url
    from_slice_manifest transfers downloader q session root eq_refl r) as Hspec.
  rewrite Hr in Hspec. destruct Hspec as (container & [(_ & record & Hst & request & reply & Hrest) [Hgone Hwork]] & Hb).
  - rewrite Hc. split; [by split|]. split; [done|]. by intros c Hin%elem_of_nil.
  - exists record. split_and!; [done|by exists request, reply| |done].
    destruct Hb as [->|[_ (record' & Hst' & <- & _)]]; [|by simplify_eq].
    destruct Hgone as [?|[[Hne _]|?]]; [by left|done|by right; right].
Qed.
End Settled.

(** ** Witnesses *)

#[local] Existing Instance key_http.

(** An image that cannot be pulled: the failure is delivered and the control plane
    answers that the attempt is fenced. *)
Definition unpullable (n : nat) (X : Type) (e : effect string X) : X :=
  match e in effect _ X return X with
  | JoinPreparation => Some (Ok launch_workspace)
  | CompleteAttempt _ => Delivered {| cs_decision := 2; cs_state := 1; cs_accepted_manifest_json := [] |}
  | RemoveWorkspace _ => Some (Ok tt)
  | FreshId => Some ["009"%byte]
  | e' => cooperative n _ e'
  end.

Definition launch_grant : GrantedAssignment :=
  {| ga_assignment := launch_assignment;
     ga_authority := {| sent := 100000000000; deadline := 125000000000 |}; ga_execution := spec_fixture |}.

Definition replay_fixture : AcquireWorkRequest :=
  {| aw_session := Some worker_session; aw_request_id := attempt_fixture |}.

Definition assigned : option (result AgentError unit) * exec (Worker Directory) (effect string) :=
  run_assignment (fun _ => None) (fun _ => None) id "/var/lib/dispatch" storage_client
    {| allow_loopback_http := false |} replay_fixture worker_session launch_grant
    (quiet_env unpullable granted_look (Ok 101000000000)) (launch_exec 40).

Lemma settled_attempt_left_nothing_behind_witness :
  fst assigned = Some (Ok tt)
  /\ workspace_gone "/var/lib/dispatch/00000000-0000-0000-0000-00000000000a" (ex_calls (snd assigned)).
Proof.
  assert (Ho : fst assigned = Some (Ok tt)) by (vm_compute; reflexivity).
  split; [exact Ho|].
  destruct (settled_attempt_left_nothing_behind attempt_file_name session_file_name
    (quiet_env unpullable granted_look (Ok 101000000000)) (quiet_env_tame _ _ _) (fun _ => None) (fun _ => None) id
    "/var/lib/dispatch" storage_client {| allow_loopback_http := false |} replay_fixture worker_session
    launch_grant launch_identity (launch_exec 40) (snd assigned) registered_journal_sound eq_refl eq_refl)
    as (record & _ & _ & _ & Hw); [rewrite <- Ho; exact (surjective_pairing assigned)|exact Hw].
Defined.

(** ** A preparation that is awaited twice

    When the stop is seen by the check that follows the completion of the blocking
    task, [while_live] fails although the join handle has completed, and awaiting it
    once more panics: the future ends with awaits left, the workspace was prepared,
    and it is neither removed nor is the cancellation acknowledged. *)

Definition stop_look : look :=
  {| lk_shared := {| sh_identity := launch_identity; sh_state := Stop (StopRejected Decision_.StopRequested);
                     sh_requested := 0; sh_acknowledged := 5; sh_senders := 1; sh_receivers := 1 |};
     lk_clock := Ok 101000000000 |}.

Definition late_stop : env (Worker Directory) (effect string) :=
  {| en_answer := unpullable; en_others := fun _ w => w;
     en_guard := fun _ => {| gd_first := granted_look; gd_wakes := []; gd_final := stop_look |};
     en_deadline := fun _ => unseen_plan (Ok 101000000000); en_look := fun _ => granted_look;
     en_race := fun _ => {| rc_first := 0; rc_second := 0; rc_takes_first := false |};
     en_started := fun _ => true |}.

Definition late_stopped : option (result AgentError unit) * exec (Worker Directory) (effect string) :=
  run_assignment (fun _ => None) (fun _ => None) id "/var/lib/dispatch" storage_client
    {| allow_loopback_http := false |} replay_fixture worker_session launch_grant late_stop (launch_exec 40).

Example preparation_awaited_after_completion :
  fst late_stopped = None /\ (0 < ex_left (snd late_stopped))%nat
  /\ last (ex_calls (snd late_stopped)) = Some (Answer JoinPreparation (Some (Ok launch_workspace))).
Proof. split_and!; [vm_compute; reflexivity|vm_compute; lia|vm_compute; reflexivity]. Qed.
