(* ===== verification/Progress.v ===== *)
(** Retries that only meet a passing outage end.

    The worker's delivery and acquisition loops retry for as long as the control
    plane is out of reach.  Here: once it answers again they return, within a
    number of awaits that depends only on when it does. *)

From S2P Require Import Net DatasetInputs Work DatasetStage CacheStore Quota Docker Recovery.
From S2P Require Import Prelude Strings Os Protocol Lease Control Renew Supervisor LogSpool.
From S2P Require Import LogSummary LogAssembler.
From S2P Require Import Execution Uploads Phase LogRegistration Completion RecordStore JournalFiles.
From S2P Require Import JournalRecord.
From S2P Require Import Codec Journal JournalUploads JournalLogs JournalSession JournalEvidence.
From S2P Require Import JournalFacts Delivery.
From S2P Require Import RuntimeConfig Outputs LogLive Async Transfer Effects UploadDelivery Launch.
From S2P Require Import LaunchFacts Finalize.
From S2P Require Import FinalizeFacts Acquisition AcquisitionFacts.
Open Scope N_scope.

(** ** Loops that end *)

Section Loops.
Context {St : Type} {E : Type -> Type}.

Lemma tbind_Some {A B : Type} (t : task St E A) (k : A -> task St E B) (en : env St E) (r r' : exec St E) (b : B) :
  tbind t k en r = (Some b, r') -> exists a r1, t en r = (Some a, r1) /\ k a en r1 = (Some b, r').
Proof. unfold tbind. destruct (t en r) as [[a|] r1]; [|done]. intros Hk. by exists a, r1. Qed.

Lemma call_Some {X : Type} (e : E X) (en : env St E) (r r' : exec St E) (x : X) :
  call e en r = (Some x, r') ->
  x = en_answer en (ex_clock r) X e /\ ex_clock r' = S (ex_clock r) /\ ex_left r = S (ex_left r').
Proof. unfold call, await. simpl. destruct (ex_left r) as [|n]; [done|]. by intros [= <- <-]. Qed.

Lemma op_Some {A : Type} (f : St -> A * St) (en : env St E) (r r' : exec St E) (a : A) :
  op f en r = (Some a, r') -> ex_clock r' = S (ex_clock r) /\ ex_left r = S (ex_left r').
Proof.
  unfold op, await. destruct (f _) as [b s]. simpl. destruct (ex_left r) as [|n]; [done|]. by intros [= _ <-].
Qed.

Lemma tbind_ok_Err {X A B : Type} (t : task St E (result X A)) (k : A -> task St E (result X B)) (en : env St E)
  (r r' : exec St E) (e : X) :
  tbind_ok t k en r = (Some (Err e), r') ->
  t en r = (Some (Err e), r') \/ exists a r1, t en r = (Some (Ok a), r1) /\ k a en r1 = (Some (Err e), r').
Proof.
  intros Hb. apply tbind_Some in Hb as ([a|e'] & r1 & Ht & Hk); [right; by exists a, r1|left]. by injection Hk as -> ->.
Qed.

Lemma tmap_err_Err {X Y A : Type} (f : X -> Y) (t : task St E (result X A)) (en : env St E) (r r' : exec St E) (y : Y) :
  tmap_err f t en r = (Some (Err y), r') -> exists x, t en r = (Some (Err x), r') /\ y = f x.
Proof.
  intros Hb. apply tbind_Some in Hb as ([a|e'] & r1 & Ht & Hk); unfold tret in Hk; cbn in Hk; simplify_eq. by exists e'.
Qed.

Lemma tmap_err_Ok {X Y A : Type} (f : X -> Y) (t : task St E (result X A)) (en : env St E) (r r' : exec St E) (a : A) :
  tmap_err f t en r = (Some (Ok a), r') -> t en r = (Some (Ok a), r').
Proof.
  intros Hb. apply tbind_Some in Hb as ([a'|e'] & r1 & Ht & Hk); unfold tret in Hk; cbn in Hk; by simplify_eq.
Qed.

(** A task that completes has used [k] awaits at least. *)
Definition spends (k : nat) {A : Type} (t : task St E A) : Prop :=
  forall en r a r', t en r = (Some a, r') -> (ex_left r' + k <= ex_left r)%nat.

Lemma spends_bind {A B : Type} (k m : nat) (t : task St E A) (f : A -> task St E B) :
  spends k t -> (forall a, spends m (f a)) -> spends (k + m) (tbind t f).
Proof.
  intros Ht Hf en r b r' Hb. apply tbind_Some in Hb as (a & r1 & Ha & Hb). apply Ht in Ha. apply Hf in Hb. lia.
Qed.

Lemma spends_ret {A : Type} (a : A) : spends 0 (tret a : task St E A).
Proof. intros en r b r' [= _ <-]. lia. Qed.

Lemma spends_then {A B : Type} (k : nat) (t : task St E A) (f : A -> task St E B) :
  spends k t -> (forall a, spends 0 (f a)) -> spends k (tbind t f).
Proof. intros Ht Hf. rewrite <- (Nat.add_0_r k). by apply spends_bind. Qed.

Lemma spends_try {X A B : Type} (k : nat) (t : task St E (result X A)) (f : A -> task St E (result X B)) :
  spends k t -> (forall a, spends 0 (f a)) -> spends k (tbind_ok t f).
Proof. intros Ht Hf. apply spends_then; [done|]. intros [a|e]; [apply Hf|apply spends_ret]. Qed.

Lemma spends_map {A B : Type} (k : nat) (f : A -> B) (t : task St E A) : spends k t -> spends k (tmap f t).
Proof. intros Ht. apply spends_then; [done|]. intros a. apply spends_ret. Qed.

Lemma spends_weaken {A : Type} (k : nat) (t : task St E A) : spends k t -> spends 0 t.
Proof. intros Ht en r a r' Ha. apply Ht in Ha. lia. Qed.

Lemma spends_call {X : Type} (e : E X) : spends 1 (call e : task St E X).
Proof. intros en r x r' Hc. apply call_Some in Hc as (_ & _ & Hl). lia. Qed.

Lemma spends_op {A : Type} (f : St -> A * St) : spends 1 (op f : task St E A).
Proof. intros en r a r' Hc. apply op_Some in Hc as [_ Hl]. lia. Qed.

Lemma spends_ask {X : Type} (e : E X) : spends 0 (ask e : task St E X).
Proof. intros en r x r' [= _ <-]. cbn. lia. Qed.

Lemma spends_advances {I B : Type} (t : task St E (I + B)) : spends 1 t -> advances t.
Proof. intros Ht en r i r' Hi. apply Ht in Hi. lia. Qed.

(** A loop whose turns take at most [k] awaits, and that turns again only while
    the clock is before [limit], returns. *)
Lemma loop_returns {I B : Type} (body : I -> task St E (I + B)) (en : env St E) (k limit : nat) (i : I)
  (r : exec St E) :
  (forall i, within k (body i)) -> (forall i, advances (body i)) ->
  (forall i r i' r', body i en r = (Some (inl i'), r') -> (ex_clock r < limit)%nat /\ (ex_clock r < ex_clock r')%nat) ->
  (k * S (limit - ex_clock r) <= ex_left r)%nat ->
  exists b r', loop body i en r = (Some b, r').
Proof.
  intros Hk Ha Ht. remember (limit - ex_clock r)%nat as d eqn:Hd. revert i r Hd.
  induction (lt_wf d) as [d _ IH]. intros i r Hd Hl. rewrite loop_unfold by done. unfold tbind.
  specialize (Hk i en r) as Hw. destruct (body i en r) as [[[i'|b]|] r1] eqn:Hb.
  - destruct (Ht _ _ _ _ Hb) as [H1 H2]. destruct Hw as [Hw _].
    apply (IH (limit - ex_clock r1)%nat); [lia|done|]. nia.
  - by exists b, r1.
  - exfalso. by apply Hw; [nia|].
Qed.
End Loops.

(** What follows the first await of a turn. *)
Ltac spending :=
  repeat match goal with
  | |- forall _, _ => intros ?
  | |- spends 0 (tret _) => apply spends_ret
  | |- spends 0 (ask _) => apply spends_ask
  | |- spends 0 (call _) => eapply spends_weaken, spends_call
  | |- spends 0 (op _) => eapply spends_weaken, spends_op
  | |- spends 0 (tbind_ok _ _) => apply spends_try
  | |- spends 0 (tbind _ _) => apply spends_then
  | |- spends 0 (tmap_err _ _) => apply spends_map
  | |- spends 0 (tmap _ _) => apply spends_map
  | |- spends 0 (match ?x with _ => _ end) => destruct x
  end.

(** ** Errors that are not retried *)

Definition firm {A : Type} (m : result ClientError A) : Prop := forall e, m = Err e -> retryable e = false.

(** A reply that settles the call. *)
Definition decided {A : Type} (reply : rpc_reply A) : bool :=
  match reply with
  | Elapsed => false
  | Refused status => negb (retryable (Rpc status))
  | Delivered _ => true
  end.

Lemma firm_ok {A : Type} (a : A) : firm (Ok a).
Proof. by intros e [=]. Qed.

Lemma firm_err {A : Type} (e : ClientError) : retryable e = false -> firm (Err e : result _ A).
Proof. by intros He e' [= <-]. Qed.

Lemma firm_bind {A B : Type} (m : result ClientError A) (f : A -> result ClientError B) :
  firm m -> (forall a, firm (f a)) -> firm (let? a := m in f a).
Proof. intros Hm Hf. destruct m as [a|e]; [apply Hf|]. intros e' [= <-]. by apply Hm. Qed.

Lemma firm_ok_or {A : Type} (o : option A) (e : ClientError) : retryable e = false -> firm (ok_or o e).
Proof. intros He. destruct o; [apply firm_ok|by apply firm_err]. Qed.

Lemma firm_map_err {X A : Type} (m : result X A) (f : X -> ClientError) :
  (forall x, retryable (f x) = false) -> firm (map_err f m).
Proof. intros Hf. destruct m; [apply firm_ok|by apply firm_err]. Qed.

Lemma firm_rmap {A B : Type} (f : A -> result ClientError B) (l : list A) :
  (forall a, firm (f a)) -> firm (rmap f l).
Proof.
  intros Hf. induction l as [|a l IH]; simpl; [apply firm_ok|].
  apply firm_bind; [apply Hf|intros b]. apply firm_bind; [done|intros bs; apply firm_ok].
Qed.

Lemma firm_rfold {A B : Type} (f : B -> A -> result ClientError B) (s : B) (l : list A) :
  (forall s a, firm (f s a)) -> firm (rfold f s l).
Proof.
  intros Hf. revert s. induction l as [|a l IH]; intros s; simpl; [apply firm_ok|].
  apply firm_bind; [apply Hf|intros s'; apply IH].
Qed.

Lemma firm_into_inner {A : Type} (reply : rpc_reply A) : decided reply = true -> firm (into_inner reply).
Proof.
  destruct reply; simpl; [done| |intros _; apply firm_ok]. intros Hd. apply firm_err. by apply negb_true_iff.
Qed.

Ltac firm :=
  repeat first
    [ apply firm_ok
    | by apply firm_err
    | by apply firm_ok_or
    | by apply firm_map_err
    | apply firm_rmap; intros ?
    | apply firm_rfold; intros ? ?
    | apply firm_bind; [|intros ?]
    | match goal with
      | |- firm (if ?b then _ else _) => destruct b
      | |- firm (match ?x with _ => _ end) => destruct x
      end ].

Section Firm.
Context {lib : Libraries}.

Lemma firm_validate_request (q : CompleteAttemptRequest) :
  firm (Completion.validate_request lib_sha256 lib_metrics lib_payload q).
Proof. unfold Completion.validate_request, completion_digest, check_reason, push_output, payload_gap. firm. Qed.

Lemma firm_complete (q : CompleteAttemptRequest) (reply : rpc_reply CompleteAttemptResponse) :
  decided reply = true -> firm (complete_attempt lib_sha256 lib_metrics lib_payload lib_manifest q reply).
Proof.
  intros Hd. unfold complete_attempt. apply firm_bind; [apply firm_validate_request|intros _].
  apply firm_bind; [by apply firm_into_inner|intros response].
  unfold Completion.validate_response, validate_manifest. firm.
Qed.

Lemma firm_acquire (parse_url : string -> option Url) (from_slice_manifest : bytes -> option DatasetManifest)
  (q : AcquireWorkRequest) (before after : reading) (reply : rpc_reply (option AcquireOutcome)) (l : local) :
  decided reply = true ->
  firm (acquire lib_sha256 lib_value lib_job parse_url from_slice_manifest q before after reply l).
Proof.
  intros Hd. unfold acquire. apply firm_bind; [unfold valid_session; firm|intros session].
  destruct (negb _); [by apply firm_err|]. apply firm_bind; [by apply firm_map_err|intros sent].
  apply firm_bind; [by apply firm_into_inner|intros response].
  apply firm_bind; [by apply firm_map_err|intros received].
  unfold decode_acquisition, check_assignment, check_inputs. firm.
Qed.
End Firm.

(** ** The loops *)

Section Progress.
Context {S H : Type} {ops : RecordStore S} {laws : RecordStoreLaws S}.
Context {lib : Libraries} {lib_laws : LibraryLaws}.

Abbreviation log := (list (some_call (effect H))).
Abbreviation T := (task (Worker S) (effect H)).
Abbreviation run := (exec (Worker S) (effect H)).

(** A request whose reply is decided is not retried; the others may be. *)
Lemma client_complete_retry (q : CompleteAttemptRequest) (en : env (Worker S) (effect H)) (r r' : run) (e : ClientError) :
  client_complete q en r = (Some (Err e), r') -> retryable e = true ->
  decided (en_answer en (ex_clock r) _ (CompleteAttempt q)) = false
  /\ ex_clock r' = Datatypes.S (ex_clock r) /\ ex_left r = Datatypes.S (ex_left r').
Proof.
  intros Hc Hr. unfold client_complete, tbind_ok in Hc. apply tbind_Some in Hc as (v & r1 & [= <- <-] & Hc).
  destruct (Completion.validate_request _ _ _ q) as [u|e'] eqn:Hv.
  - apply tbind_Some in Hc as (reply & r2 & Hc & [= He <-]). apply call_Some in Hc as (-> & Hclock & Hleft).
    split_and!; [|done..]. destruct (decided _) eqn:Hd; [|done].
    rewrite (firm_complete _ _ Hd _ He) in Hr. done.
  - injection Hc as -> <-. rewrite (firm_validate_request _ _ Hv) in Hr. done.
Qed.

Lemma deliver_pending_retry (id : string) (en : env (Worker S) (effect H)) (r r' : run) (e : ClientError) :
  deliver_pending_task id en r = (Some (Err (DeliveryControl e)), r') -> retryable e = true ->
  exists q, decided (en_answer en (Datatypes.S (ex_clock r)) _ (CompleteAttempt q)) = false
  /\ (ex_clock r < ex_clock r')%nat /\ (ex_left r' < ex_left r)%nat.
Proof.
  unfold deliver_pending_task. intros Hd Hr.
  apply tbind_ok_Err in Hd as [Hd|(found & r1 & Hload & Hd)]; [by apply tmap_err_Err in Hd as (? & _ & [=])|].
  apply tmap_err_Ok in Hload. unfold journal in Hload. apply op_Some in Hload as [Hc1 Hl1].
  apply tbind_ok_Err in Hd as [Hd|(saved & r2 & Hd1 & Hd)]; [by destruct found|].
  injection Hd1 as _ <-. destruct (rc_completion saved) as [q|]; [|done].
  destruct (settled_reply saved); [done|].
  apply tbind_ok_Err in Hd as [Hd|(status & r3 & _ & Hd)].
  - apply tmap_err_Err in Hd as (e' & Hcall & [= <-]). rewrite <- Hc1.
    apply client_complete_retry in Hcall as (Hq & Hc & Hl); [|done]. exists q. split_and!; [done|lia..].
  - apply tbind_ok_Err in Hd as [Hd|(u & r4 & _ & Hd)]; [by apply tmap_err_Err in Hd as (? & _ & [=])|done].
Qed.

(** What a turn that goes round has seen. *)
Lemma terminal_turn_again (id : string) (u v : unit) (en : env (Worker S) (effect H)) (r r' : run) :
  terminal_turn id u en r = (Some (inl v), r') ->
  (exists q, decided (en_answer en (Datatypes.S (ex_clock r)) _ (CompleteAttempt q)) = false)
  /\ (ex_clock r < ex_clock r')%nat /\ (ex_left r' < ex_left r)%nat.
Proof.
  intros Ht. unfold terminal_turn in Ht. apply tbind_Some in Ht as (m & r1 & Hd & Ht).
  destruct m as [[reply|]|[e|e]]; try discriminate Ht. destruct (retryable e) eqn:Hr; [|discriminate Ht].
  apply tbind_Some in Ht as (w & r2 & Hs & [= _ <-]). apply call_Some in Hs as (_ & Hc2 & Hl2).
  apply (deliver_pending_retry id) in Hd as (q & Hq & Hc1 & Hl1); [|done]. split_and!; [by exists q|lia..].
Qed.

Lemma within_terminal_turn (id : string) (u : unit) : within 4 (terminal_turn id u : T _).
Proof.
  unfold terminal_turn. eapply (within_then 3 1); [|lia|].
  - unfold deliver_pending_task. eapply (within_try 1 2); [apply within_map, within_op|lia|intros found].
    apply within_pure. intros saved _. destruct (rc_completion saved) as [q|]; [|apply within_ret_any].
    destruct (settled_reply saved); [apply within_ret_any|].
    eapply (within_try 1 1); [apply within_map|lia|intros status].
    + unfold client_complete. apply within_pure. intros _ _. eapply (within_then 1 0); [apply within_call|lia|].
      intros reply. apply within_ret.
    + eapply (within_try 1 0); [apply within_map, within_op|lia|intros ?; apply within_ret].
  - intros [[reply|]|[e|e]]; try apply within_ret_any. destruct (retryable e); [|apply within_ret_any].
    eapply (within_then 1 0); [apply within_call|lia|]. intros ?. apply within_ret.
Qed.

Lemma firm_terminal (id : string) (en : env (Worker S) (effect H)) :
  spec en (fun _ _ => True) (fun _ _ => True) (deliver_terminal id : T _)
    (fun m _ _ => forall e, m = Err (AgentControl e) -> retryable e = false).
Proof.
  apply (spec_loop en _ (fun _ _ _ => True)); [done|]. intros u. unfold terminal_turn.
  eapply spec_bind; [apply spec_trivial|]. intros [[reply|]|[e|e]]; try (apply spec_ret; by intros w cs _ e' [=]).
  destruct (retryable e) eqn:Hr; [|apply spec_ret; by intros w cs _ e' [= <-]].
  eapply spec_bind; [apply spec_trivial|]. intros ?. by apply spec_ret.
Qed.

(** C16: the delivery of a completion outlasts an outage of the control plane.  If
    from some instant on every completion call gets a reply that settles it, then
    [deliver_terminal] returns, however often it had to retry before.  It returns
    STOP_REQUESTED, the one decision that asks for other evidence; or a terminal
    decision, which is on record as the answer to the attempt's completion; or an
    error, and an error of the control plane is not one of reachability. *)
Theorem terminal_delivery_outlasts_an_outage (attempt_names : forall id, rs_name (attempt_file id)) (id : string)
  (en : env (Worker S) (effect H)) (r : run) (limit : nat) :
  sound (wk_journal (ex_state r)) -> tame en ->
  (forall n q, (limit <= n)%nat -> decided (en_answer en n _ (CompleteAttempt q)) = true) ->
  (4 * Datatypes.S (limit - ex_clock r) <= ex_left r)%nat ->
  exists m r', deliver_terminal id en r = (Some m, r')
  /\ (forall reply, m = Ok reply -> reply_stops reply = true
        \/ (terminal_decision reply = true
            /\ exists record request, stored (wk_journal (ex_state r')) id = Some record
               /\ rc_completion record = Some request /\ rc_completion_response record = Some reply))
  /\ (forall e, m = Err (AgentControl e) -> retryable e = false).
Proof.
  intros Hs Ht Hd Hl.
  destruct (loop_returns (terminal_turn id) en 4 limit tt r) as (m & r' & Hm); [apply within_terminal_turn|..|done|].
  - intros i en' r0 i' r1 Hb. apply terminal_turn_again in Hb as (_ & _ & Hb). exact Hb.
  - intros i r0 i' r1 Hb. apply terminal_turn_again in Hb as ((q & Hq) & Hc & _). split; [|done].
    destruct (decide (ex_clock r0 < limit)%nat) as [|Hn]; [done|]. rewrite Hd in Hq; [done|lia].
  - exists m, r'. split; [done|].
    pose proof (deliver_terminal_replied attempt_names en Ht (fun _ => True) ltac:(by split) id r) as H1.
    pose proof (firm_terminal id en r I) as H2. unfold deliver_terminal in H1, H2. rewrite Hm in H1, H2.
    split; [|exact H2]. intros reply ->. destruct H1 as [[Hj H1] _]; [by split|].
    destruct (reply_stops reply) eqn:Hstop; [by left|right].
    destruct (replied_terminal _ _ _ Hj H1 Hstop) as (Hterm & record & Hst & request & Hrest).
    split; [done|]. by exists record, request.
Qed.
End Progress.

(** ** Witness: the control plane is out of reach for five calls, then answers that
    the attempt is already terminal *)

Definition back_after (limit n : nat) (X : Type) (e : effect string X) : X :=
  match e in effect _ X return X with
  | CompleteAttempt _ => if (n <? limit)%nat then Elapsed else Delivered terminal_reply
  | e' => outage e'
  end.

Definition outage_exec : exec (Worker Directory) (effect string) :=
  {| ex_state := {| wk_journal := completed_journal; wk_assembler := idle_assembler |};
     ex_authority := launch_authority; ex_clock := 0; ex_left := 80; ex_calls := [] |}.

Definition outage_env : env (Worker Directory) (effect string) :=
  quiet_env (back_after 15) granted_look (Ok 101000000000).

Lemma terminal_delivery_outlasts_an_outage_witness :
  exists m r', deliver_terminal attempt_fixture outage_env outage_exec = (Some m, r')
  /\ m = Ok terminal_reply /\ (ex_left r' < 70)%nat.
Proof.
  destruct (terminal_delivery_outlasts_an_outage attempt_file_name attempt_fixture outage_env outage_exec 15)
    as (m & r' & Hm & _).
  - apply completed_journal_sound.
  - apply quiet_env_tame.
  - intros n q Hn. apply Nat.ltb_ge in Hn. unfold outage_env, quiet_env, en_answer, back_after. rewrite Hn. reflexivity.
  - cbn. lia.
  - assert (Hrun : (fst (deliver_terminal attempt_fixture outage_env outage_exec),
      (ex_left (snd (deliver_terminal attempt_fixture outage_env outage_exec)) <? 70)%nat) = (Some (Ok terminal_reply), true))
      by (vm_compute; reflexivity).
    rewrite Hm in Hrun. cbn [fst snd] in Hrun. apply pair_equal_spec in Hrun as [Hfst Hlt].
    exists m, r'. split; [exact Hm|]. split; [congruence|by apply Nat.ltb_lt].
Defined.
