(* ===== verification/Agent.v ===== *)
(** The worker process ([rust/worker/src/agent.rs] and [main.rs]): its command
    line, its configuration, its start-up, and the three tasks it then runs beside each other: the health loop,
    the delivery of completions left by earlier sessions, and the admission of work
    ([acquire_and_run] of [agent/acquisition.rs]).  Each of them is a task of its
    own; the other two are part of its environment. *)

From S2P Require Import Net DatasetInputs Work DatasetStage CacheStore Quota Docker Recovery.
From S2P Require Import Prelude Strings Os Protocol Lease Control Renew Supervisor LogSpool.
From S2P Require Import LogSummary LogAssembler.
From S2P Require Import Execution Uploads Phase LogRegistration Completion RecordStore JournalRecord.
From S2P Require Import Codec Journal JournalUploads JournalLogs JournalSession JournalEvidence.
From S2P Require Import JournalFacts Delivery.
From S2P Require Import RuntimeConfig Outputs LogLive Async Transfer Effects UploadDelivery Launch Finalize.
From S2P Require Import Workspaces Acquisition.
Open Scope N_scope.

(** * Configuration *)

Record AgentConfig := {
  ac_worker_id : string;
  ac_server_url : string;
  ac_ca_cert : string;
  ac_client_cert : string;
  ac_client_key : string;
  ac_journal_dir : string;
  ac_workspace_root : string;
  ac_docker_socket : string;
  ac_cpu_millis : N;
  ac_memory_mib : N;
  ac_scratch_mib : N;
  ac_dataset_cache_high_mib : N;
  ac_dataset_cache_low_mib : N;
  ac_execution_slots : N;
  ac_labels : gmap string string;
}.

Definition default_cache_high_mib : N := 512.
Definition default_cache_low_mib : N := 384.

(** What serde hands over: fields with a default may be missing, and the labels are
    entries for [unique_map]. *)
Record RawConfig := {
  rg_high : option N;
  rg_low : option N;
  rg_labels : list (string * string);
  rg_config : N -> N -> gmap string string -> AgentConfig;
}.

Definition config_of (r : RawConfig) : option AgentConfig :=
  labels ← unique_map ∅ (rg_labels r);
  Some (rg_config r (default default_cache_high_mib (rg_high r)) (default default_cache_low_mib (rg_low r)) labels).

(** [http::Uri]. *)
Record Uri := {
  uri_scheme : option string;
  uri_host : option string;
  uri_path : string;
}.

Section Configuration.
Context (from_slice_config : bytes -> option RawConfig) (from_shared : string -> option Uri).

(** [control::endpoint]; the endpoint is its address. *)
Definition endpoint (address : string) : result ClientError Uri :=
  if existsb (fun c => contains c address) ["@"; "?"; "#"]%char then Err Configuration
  else
    let? uri := ok_or (from_shared address) Configuration in
    if negb (bool_decide (uri_scheme uri = Some "https"%string)) || is_none (uri_host uri)
       || negb (bool_decide (uri_path uri ∈ [EmptyString; "/"%string]))
    then Err Configuration
    else Ok uri.

Definition decode_config (bytes : bytes) : result AgentError AgentConfig :=
  if 65536 <? len bytes then Err AgentConfiguration
  else
    let? c := ok_or (raw ← from_slice_config bytes; config_of raw) AgentConfiguration in
    if negb (canonical_uuid (ac_worker_id c))
       || negb (is_ok (endpoint (ac_server_url c)))
       || negb (in_range 1 1024000 (ac_cpu_millis c))
       || negb (in_range 1 16777216 (ac_memory_mib c))
       || negb (in_range 1 1073741824 (ac_scratch_mib c))
       || negb (in_range 64 65536 (ac_dataset_cache_high_mib c))
       || (ac_dataset_cache_low_mib c =? 0)
       || (ac_dataset_cache_high_mib c <=? ac_dataset_cache_low_mib c)
       || negb (in_range 1 1000 (ac_execution_slots c))
       || existsb (fun p => negb (is_absolute p))
            [ac_ca_cert c; ac_client_cert c; ac_client_key c; ac_journal_dir c; ac_workspace_root c]
       || negb (is_absolute (ac_docker_socket c))
    then Err AgentConfiguration
    else Ok c.

(** [AgentConfig::load]. *)
Definition load_config (io : Workspaces.read_io) : result AgentError AgentConfig :=
  let? bytes := map_err from_storage (read_file io 65536 false) in
  decode_config bytes.
End Configuration.

Definition claims (c : AgentConfig) (strict : bool) : RegisterWorkerRequest :=
  {| rw_worker_id := ac_worker_id c; rw_request_id := EmptyString;
     rw_requested_session_id := EmptyString; rw_protocol_version := VERSION;
     rw_allocatable := Some {| rs_cpu_millis := ac_cpu_millis c;
                               rs_memory_bytes := shl20 (ac_memory_mib c);
                               rs_scratch_bytes := shl20 (ac_scratch_mib c) |};
     rw_execution_slots := ac_execution_slots c; rw_labels := ac_labels c;
     rw_capabilities := ["docker.v1"; "cpu.hard"; "memory.hard"; "pids.hard";
                         if strict then "scratch.quota" else "scratch.soft"]%string |}.

Definition registration_retryable (e : ClientError) : bool :=
  retryable e
  || match e with
     | Rpc status => bool_decide (code status = FailedPrecondition)
                     && bool_decide (message status = "SESSION_ACTIVE"%string)
     | _ => false
     end.

(** * The command line ([main.rs]) *)

Inductive invocation :=
| PrintVersion
| InitScratch (config : string)
| Run (config : string)
| RunDevelopment (config : string)
| Usage.

Definition invoked (args : list string) : invocation :=
  let arg := fun n => default EmptyString (args !! n) in
  if bool_decide (args = ["--version"%string]) then PrintVersion
  else if ((len args =? 3) || (len args =? 4))
          && bool_decide (arg 0%nat ∈ ["run"; "init-scratch"]%string)
          && bool_decide (arg 1%nat = "--config"%string)
          && ((len args =? 3)
              || bool_decide (arg 0%nat = "run"%string) && bool_decide (arg 3%nat = "--dev-soft-scratch"%string))
  then
    if bool_decide (arg 0%nat = "init-scratch"%string) then InitScratch (arg 2%nat)
    else if len args =? 4 then RunDevelopment (arg 2%nat)
    else Run (arg 2%nat)
  else Usage.

(** Soft scratch space has to be asked for. *)
Lemma soft_scratch_is_explicit (args : list string) (config : string) :
  invoked args = RunDevelopment config ->
  args = ["run"; "--config"; config; "--dev-soft-scratch"]%string.
Proof.
  unfold invoked. case_bool_decide; [done|]. destruct (_ && _) eqn:Hg; [|done].
  destruct (bool_decide (_ = "init-scratch"%string)); [done|].
  destruct (N.eqb_spec (len args) 4) as [Hl|]; [|done]. intros [= <-].
  destruct args as [|a [|b [|c [|d [|]]]]]; try (by unfold len in Hl; cbn in Hl; lia).
  cbn in Hg. rewrite !andb_true_iff in Hg. bools.
  destruct Hg as [[_ ->] [Hl'|[-> ->]]]; [by rewrite Hl in Hl'|done].
Qed.

(** * Start-up *)

Section Agent.
Context {S H : Type} {ops : RecordStore S} {lib : Libraries} {http : HttpLibraries}.

Abbreviation T := (task (Worker S) (effect H)).

(** The answers while the process opens its files. *)
Record process_io := {
  po_root : root_io;
  po_journal_root : option string;
  po_ca : Workspaces.read_io;
  po_cert : Workspaces.read_io;
  po_key : Workspaces.read_io;
  po_soft : root_io;
  po_strict : initialize_io S;
  po_entries : names;
  po_opened : result JournalError.t S;
  po_random : nat -> option bytes;
}.

Record process := {
  pc_journal : Journal S;
  pc_saved : SessionRecord;
  pc_workspaces : Workspaces S;
  pc_ca : bytes;
  pc_cert : bytes;
  pc_key : bytes;
}.

(** The blocking part of [run_profile]. *)
Definition open_process (io : process_io) (c : AgentConfig) (strict : bool) : result AgentError process :=
  let? root := map_err from_storage (workspace (po_root io)) in
  let? journal_root := ok_or (po_journal_root io) AgentFile in
  if bool_decide (root = journal_root) || path_starts_with journal_root root
     || path_starts_with root journal_root
  then Err AgentConfiguration
  else
    let? ca := map_err from_storage (read_file (po_ca io) 1048576 false) in
    let? cert := map_err from_storage (read_file (po_cert io) 1048576 false) in
    let? key := map_err from_storage (read_file (po_key io) 1048576 true) in
    let? workspaces := map_err from_storage
      (open_profile (po_soft io) (po_strict io) root (ac_worker_id c) strict (po_entries io)) in
    let? journal := map_err AgentJournal
      (open_journal (ac_worker_id c) default_limits (po_opened io) (po_random io)) in
    let (saved, journal) := begin_incarnation (claims c strict) journal in
    let? saved := map_err AgentJournal saved in
    Ok {| pc_journal := journal; pc_saved := saved; pc_workspaces := workspaces;
          pc_ca := ca; pc_cert := cert; pc_key := key |}.

Definition initialize_scratch (io : initialize_io S) (c : AgentConfig) : result AgentError unit :=
  let? _ := map_err from_storage (initialize_workspaces io (ac_workspace_root c) (ac_worker_id c)) in
  Ok tt.

(** The checks of the runtime; [unwrap] and indexing panic. *)
Definition check_runtime (c : AgentConfig) (saved : SessionRecord) (strict : bool) : T (result AgentError unit) :=
  let& _ := ask (Announce "session_pending"%string) in
  let&? _ := tmap_err AgentRuntime (call (ConnectDocker (ac_docker_socket c))) in
  let&? _ := (if strict then tmap_err AgentRuntime (call QuotaSupport) else tret (Ok tt)) in
  let& allocatable := unwrap (rw_allocatable (sr_registration saved)) in
  let& architecture := unwrap (rw_labels (sr_registration saved) !! "architecture"%string) in
  tmap_err AgentRuntime (call (CheckCapacity allocatable architecture)).

Definition connect_turn (_ : unit) : T (unit + result AgentError unit) :=
  let& connected := call ConnectControl in
  match connected with
  | Ok _ => tret (inr (Ok tt))
  | Err e =>
      if retryable e then let& _ := call (Sleep (from_secs 1)) in tret (inl tt)
      else tret (inr (Err (AgentControl e)))
  end.

Definition client_register (q : RegisterWorkerRequest) : T (result ClientError RegisterWorkerResponse) :=
  let& reply := call (RegisterCall q) in
  tret (register q reply).

(** The same registration until it is answered. *)
Definition register_turn (q : RegisterWorkerRequest) (_ : unit)
  : T (unit + result AgentError RegisterWorkerResponse) :=
  let& registered := client_register q in
  match registered with
  | Ok reply => tret (inr (Ok reply))
  | Err e =>
      if registration_retryable e then let& _ := call (Sleep (from_secs 1)) in tret (inl tt)
      else tret (inr (Err (AgentControl e)))
  end.

(** From the opened files to a registered session. *)
Definition start_session (c : AgentConfig) (saved : SessionRecord) (strict : bool) : T (result AgentError unit) :=
  let&? _ := check_runtime c saved strict in
  let&? _ := loop connect_turn tt in
  let&? registration := loop (register_turn (sr_registration saved)) tt in
  let&? _ := tmap_err AgentJournal (journal (record_registration registration)) in
  let& _ := ask (Announce "registered"%string) in
  tret (Ok tt).

(** * Completions of earlier sessions *)

(** Whether the attempt is put back at the end of the queue. *)
Definition recovery_retry (delivered : result DeliveryError (option CompleteAttemptResponse))
  : T (result AgentError bool) :=
  match delivered with
  | Ok (Some reply) =>
      if reply_stops reply then tret (Ok true)
      else let& _ := ask (Announce "completion_recovered"%string) in tret (Ok false)
  | Ok None => tret (Ok false)
  | Err (DeliveryControl e) => tret (if retryable e then Ok true else Err (AgentControl e))
  | Err e => tret (Err (from_delivery e))
  end.

Definition recovery_turn (pending : list string) : T (list string + result AgentError unit) :=
  match pending with
  | [] => tret (inr (Ok tt))
  | attempt :: rest =>
      let& delivered := deliver_pending_task attempt in
      let& retry := recovery_retry delivered in
      match retry with
      | Err e => tret (inr (Err e))
      | Ok true => let& _ := call (Sleep (from_secs 1)) in tret (inl (rest ++ [attempt]))
      | Ok false => tret (inl rest)
      end
  end.

Definition recover_completions : T (result AgentError unit) :=
  let&? pending := tmap_err AgentJournal (journal attempt_ids) in
  loop recovery_turn pending.

(** * The health loop *)

Record health := {
  hl_sequence : N;
  hl_pending : option HeartbeatRequest;
  hl_announced : string;
  hl_reconciled : bool;
}.

Definition starting_health : health :=
  {| hl_sequence := 0; hl_pending := None; hl_announced := "registered"; hl_reconciled := false |}.

(** What one look at the host found. *)
Record survey := {
  sv_inventory : list RecoveredContainer;
  sv_healthy : bool;
  sv_owner : option AttemptAuthority;
  sv_reconciled : bool;
  sv_pressure : bool;
}.

Definition owned (owner : option AttemptAuthority) (c : RecoveredContainer) : bool :=
  bool_decide (owner = Some (fp_authority (rc_fingerprint c))).

Definition sv_known (v : survey) : bool := forallb (owned (sv_owner v)) (sv_inventory v).

Definition quota_healthy (strict : bool) : T bool :=
  if strict then let& m := call QuotaSupport in tret (is_ok m) else tret true.

(** Lost enforcement stops the running attempt. *)
Definition revoke (strict storage quota : bool) (owner : option AttemptAuthority) : T unit :=
  if strict && (negb storage || negb quota) then
    match owner with
    | Some identity => ask (StopOwner identity RuntimeUnavailable)
    | None => tret tt
    end
  else tret tt.

Definition reconcile_once (due : bool) : T (result AgentError bool) :=
  if due then
    let& done := call ReconcileStorage in
    tret (let? _ := joined done in Ok true)
  else tret (Ok false).

Definition look_around (c : AgentConfig) (strict reconciled : bool) : T (result AgentError survey) :=
  let& found := call (Inventory (ac_worker_id c)) in
  let& verified := call StorageVerified in
  let&? storage := tret (ok_or verified AgentTask) in
  let& quota := quota_healthy strict in
  let healthy := is_ok found && storage && quota in
  let inventory := match found with Ok l => l | Err _ => [] end in
  let& owner := ask ActiveOwner in
  let& _ := (if negb healthy then ask (SetReady false) else tret tt) in
  let& _ := revoke strict storage quota owner in
  let&? now := reconcile_once (negb reconciled && healthy && bool_decide (inventory = []) && is_none owner) in
  let& pressed := call (DiskPressure (shl20 (ac_scratch_mib c))) in
  let&? pressure := tret (ok_or pressed AgentTask) in
  tret (Ok {| sv_inventory := inventory; sv_healthy := healthy; sv_owner := owner;
              sv_reconciled := reconciled || now; sv_pressure := pressure |}).

Definition inventory_entry_of (c : RecoveredContainer) : ExecutionInventory :=
  {| ei_authority := Some (fp_authority (rc_fingerprint c)); ei_container_id := fp_id (rc_fingerprint c);
     ei_running := running (rc_status c) |}.

(** The pending report, or the next one. *)
Definition next_report (c : AgentConfig) (session : string) (v : survey) (h : health)
  : T (result AgentError (N * HeartbeatRequest)) :=
  match hl_pending h with
  | Some q => tret (Ok (hl_sequence h, q))
  | None =>
      let&? sequence := tret (ok_or (s ← u64_checked_add (hl_sequence h) 1;
                                     if s <=? I64_MAX then Some s else None) AgentConfiguration) in
      let&? request_id := tmap_err AgentJournal fresh_uuid in
      tret (Ok (sequence,
        {| hb_session := Some {| ws_worker_id := ac_worker_id c; ws_session_id := session |};
           hb_request_id := request_id; hb_runtime_healthy := sv_healthy v;
           hb_disk_pressure := sv_pressure v;
           hb_reconciliation_complete := sv_healthy v && sv_known v && sv_reconciled v;
           hb_inventory := map inventory_entry_of (sv_inventory v); hb_report_sequence := sequence |}))
  end.

Definition client_heartbeat (q : HeartbeatRequest) : T (result ClientError HeartbeatResponse) :=
  let& reply := call (HeartbeatCall q) in
  tret (heartbeat q reply).

Definition is_ready (q : HeartbeatRequest) (v : survey) (reply : HeartbeatResponse) : bool :=
  hb_reconciliation_complete q && hb_runtime_healthy q && negb (hb_disk_pressure q)
  && sv_healthy v && negb (sv_pressure v) && sv_known v && sv_reconciled v
  && negb (hr_reconcile reply) && bool_decide (hr_stop reply = []).

Definition stop_listed (owner : option AttemptAuthority) (stop : list AttemptAuthority) : T unit :=
  match owner with
  | Some identity =>
      if bool_decide (identity ∈ stop)
      then ask (StopOwner identity (StopRejected Decision_.StopRequested)) else tret tt
  | None => tret tt
  end.

(** The report and what its reply changes: the state to announce, and whether the
    report is still pending. *)
Definition report_health (q : HeartbeatRequest) (v : survey) : T (result AgentError (string * bool)) :=
  let& replied := client_heartbeat q in
  match replied with
  | Ok reply =>
      let ready := is_ready q v reply in
      let& _ := stop_listed (sv_owner v) (hr_stop reply) in
      let& _ := ask (SetReady (ready && negb (hr_drain reply))) in
      tret (Ok (if ready then if hr_drain reply then "draining" else "ready" else "reconciling", false))%string
  | Err e =>
      if retryable e then
        let& _ := ask (SetReady false) in
        tret (Ok ("control_unavailable"%string, true))
      else tret (Err (AgentControl e))
  end.

(** At most one container of an earlier session is removed; [true] goes on at once. *)
Definition remove_one (session : string) (inventory : list RecoveredContainer) : T bool :=
  match List.find (fun c => negb (bool_decide (aa_session_id (fp_authority (rc_fingerprint c)) = session))) inventory with
  | Some c => let& removed := call (RemovePrevious c session) in tret (is_ok removed)
  | None => tret false
  end.

Definition health_turn (c : AgentConfig) (strict : bool) (session : string) (h : health)
  : T (health + result AgentError unit) :=
  let& turn := (
    let&? v := look_around c strict (hl_reconciled h) in
    let&? '(sequence, q) := next_report c session v h in
    let&? '(state, waiting) := report_health q v in
    let& _ := (if bool_decide (state <> hl_announced h) then ask (Announce state) else tret tt) in
    let& at_once := remove_one session (sv_inventory v) in
    let& _ := (if at_once : bool then tret tt else call (Sleep (from_secs (if waiting : bool then 1 else 5)))) in
    tret (Ok {| hl_sequence := sequence; hl_pending := if waiting : bool then Some q else None;
                hl_announced := state; hl_reconciled := sv_reconciled v |})) in
  tret (match turn with Ok h => inl h | Err e => inr (Err e) end).

Definition health_loop (c : AgentConfig) (strict : bool) (session : string) : T (result AgentError unit) :=
  loop (health_turn c strict session) starting_health.

(** * Admission *)

Section Admission.
Context (parse_url : string -> option Url) (from_slice_manifest : bytes -> option DatasetManifest).
Context (container_id : H -> string).

Definition acquire_and_run (c : AgentConfig) (root session_id : string) : T (result AgentError unit) :=
  let session := {| ws_worker_id := ac_worker_id c; ws_session_id := session_id |} in
  let& built := ask HttpBuilt in
  let&? transfers := tret (map_err (fun _ => AgentConfiguration) (transfer_new built true)) in
  let& built := ask HttpBuilt in
  let&? downloader := tret (map_err (fun _ => AgentConfiguration) (downloader_new built true)) in
  let&? _ := wait_ready in
  let&? _ := tmap_err AgentCache (ask (OpenCache (path_join root CACHE_DIRECTORY)
               (shl20 (ac_dataset_cache_high_mib c)) (shl20 (ac_dataset_cache_low_mib c)))) in
  loop (admission_turn parse_url from_slice_manifest container_id root transfers downloader session) tt.
End Admission.
End Agent.
