(* ===== verification/AgentFacts.v ===== *)
(** What the worker process guarantees: when the health loop opens admission, the
    order of its reports, the delivery of completions left by earlier sessions, and
    the start-up. *)

From S2P Require Import Net DatasetInputs Work DatasetStage CacheStore Quota Docker Recovery.
From S2P Require Import Prelude Strings Os Protocol Lease Control Renew Supervisor LogSpool.
From S2P Require Import LogSummary LogAssembler.
From S2P Require Import Execution Uploads Phase LogRegistration Completion RecordStore JournalFiles.
From S2P Require Import JournalRecord.
From S2P Require Import Codec Journal JournalUploads JournalLogs JournalSession JournalEvidence.
From S2P Require Import JournalFacts Delivery.
From S2P Require Import RuntimeConfig Outputs LogLive Async Transfer Effects UploadDelivery Launch.
From S2P Require Import LaunchFacts Finalize.
From S2P Require Import FinalizeFacts Workspaces Acquisition AcquisitionFacts Progress Agent.
Open Scope N_scope.

(** ** What a log shows last *)

Section Latest.
Context {C A : Type} (f : C -> option A).

Definition latest (cs : list C) : option A := last (omap f cs).

Lemma latest_snoc (cs : list C) (c : C) :
  latest (cs ++ [c]) = match f c with Some a => Some a | None => latest cs end.
Proof.
  unfold latest. rewrite omap_app. cbn [omap list_omap].
  destruct (f c) as [a|]; [by rewrite last_snoc|by rewrite app_nil_r].
Qed.
End Latest.
Arguments latest : simpl never.

(** Every occurrence of [c] comes after a log in [P]. *)
Definition guarded_by {C : Type} (P : list C -> Prop) (c : C) (cs : list C) : Prop :=
  forall before after, cs = before ++ c :: after -> P before.

Lemma guarded_by_nil {C : Type} (P : list C -> Prop) (c : C) : guarded_by P c [].
Proof. intros before after H. by destruct before. Qed.

Lemma guarded_by_snoc {C : Type} (P : list C -> Prop) (c d : C) (cs : list C) :
  guarded_by P c cs -> (d = c -> P cs) -> guarded_by P c (cs ++ [d]).
Proof.
  intros Hcs Hd before after H. destruct after as [|x after _] using rev_ind.
  - apply app_inj_tail in H as [-> ->]. by apply Hd.
  - rewrite app_comm_cons, app_assoc in H. apply app_inj_tail in H as [H _]. by eapply Hcs.
Qed.

Section Health.
Context {S H : Type} {ops : RecordStore S} {lib : Libraries}.

Abbreviation log := (list (some_call (effect H))).
Abbreviation T := (task (Worker S) (effect H)).

(** The answers of the host and of the control plane. *)
Definition inventory_seen (c : some_call (effect H)) : option (result RuntimeError.t (list RecoveredContainer)) :=
  match c with
  | Answer e x => (match e in effect _ X return X -> option _ with Inventory _ => Some | _ => fun _ => None end) x
  | Call _ => None
  end.

Definition storage_seen (c : some_call (effect H)) : option (option bool) :=
  match c with
  | Answer e x => (match e in effect _ X return X -> option _ with StorageVerified => Some | _ => fun _ => None end) x
  | Call _ => None
  end.

Definition quota_seen (c : some_call (effect H)) : option (result RuntimeError.t unit) :=
  match c with
  | Answer e x => (match e in effect _ X return X -> option _ with QuotaSupport => Some | _ => fun _ => None end) x
  | Call _ => None
  end.

Definition owner_seen (c : some_call (effect H)) : option (option AttemptAuthority) :=
  match c with
  | Answer e x => (match e in effect _ X return X -> option _ with ActiveOwner => Some | _ => fun _ => None end) x
  | Call _ => None
  end.

Definition pressure_seen (c : some_call (effect H)) : option (option bool) :=
  match c with
  | Answer e x => (match e in effect _ X return X -> option _ with DiskPressure _ => Some | _ => fun _ => None end) x
  | Call _ => None
  end.

Definition reconciliation_seen (c : some_call (effect H)) : option (option (result StorageError unit)) :=
  match c with
  | Answer e x => (match e in effect _ X return X -> option _ with ReconcileStorage => Some | _ => fun _ => None end) x
  | Call _ => None
  end.

Definition report_seen (c : some_call (effect H)) : option (HeartbeatRequest * rpc_reply HeartbeatResponse) :=
  match c with
  | Answer e x =>
      (match e in effect _ X return X -> option _ with
       | HeartbeatCall q => fun reply => Some (q, reply)
       | _ => fun _ => None
       end) x
  | Call _ => None
  end.

(** ** Admission *)

Record survey_shown (strict : bool) (v : survey) (cs : log) : Prop := {
  ss_inventory : sv_healthy v = true -> latest inventory_seen cs = Some (Ok (sv_inventory v));
  ss_storage : sv_healthy v = true -> latest storage_seen cs = Some (Some true);
  ss_quota : sv_healthy v = true -> strict = true -> latest quota_seen cs = Some (Ok tt);
  ss_owner : latest owner_seen cs = Some (sv_owner v);
  ss_reconciled : sv_reconciled v = true -> latest reconciliation_seen cs = Some (Some (Ok tt));
  ss_pressure : latest pressure_seen cs = Some (Some (sv_pressure v));
}.

(** The host is in order and the control plane has agreed to a report that said so. *)
Record admissible (strict : bool) (cs : log) : Prop := {
  ad_inventory : exists found owner, latest inventory_seen cs = Some (Ok found)
    /\ latest owner_seen cs = Some owner
    /\ forall c, c ∈ found -> owner = Some (fp_authority (rc_fingerprint c));
  ad_storage : latest storage_seen cs = Some (Some true);
  ad_quota : strict = true -> latest quota_seen cs = Some (Ok tt);
  ad_pressure : latest pressure_seen cs = Some (Some false);
  ad_reconciled : latest reconciliation_seen cs = Some (Some (Ok tt));
  ad_report : exists q reply, latest report_seen cs = Some (q, Delivered reply)
    /\ hb_reconciliation_complete q = true /\ hb_runtime_healthy q = true /\ hb_disk_pressure q = false
    /\ hr_reconcile reply = false /\ hr_drain reply = false /\ hr_stop reply = [];
}.

Section Admission.
Context (strict : bool) (en : env (Worker S) (effect H)).

Definition opening : log -> Prop := guarded_by (admissible strict) (Call (SetReady true)).

(** What holds of the log before the call and of its answer. *)
Definition after {X : Type} (R : log -> Prop) (e : effect H X) (x : X) (cs : log) : Prop :=
  exists before, R before /\ cs = (before ++ [Call e]) ++ [Answer e x].

Definition opened (R : log -> Prop) (_ : Worker S) (cs : log) : Prop := opening cs /\ R cs.

Definition opens {X : Type} (e : effect H X) : bool :=
  match e with SetReady ready => ready | _ => false end.

Definition opens_call (c : some_call (effect H)) : bool :=
  match c with Call e => opens e | Answer _ _ => false end.

Lemma opening_issue {X : Type} (e : effect H X) (cs : log) :
  opening cs -> (opens e = true -> admissible strict cs) -> opening (cs ++ [Call e]).
Proof.
  intros Hcs He. apply guarded_by_snoc; [done|]. intros Hc. apply He.
  change (opens_call (Call e) = true). by rewrite Hc.
Qed.

Lemma opening_answer {X : Type} (e : effect H X) (x : X) (cs : log) : opening cs -> opening (cs ++ [Answer e x]).
Proof. intros Hcs. by apply guarded_by_snoc. Qed.

Lemma opened_call {X : Type} (e : effect H X) (R : log -> Prop) :
  opens e = false ->
  spec en (fun _ => opening) (opened R) (call e) (fun x => opened (after R e x)).
Proof.
  intros He. apply spec_call.
  - intros w cs [Ho _]. apply opening_issue; [done|congruence].
  - intros n x w cs [Ho Hr] _. split; [|by exists cs]. apply opening_answer, opening_issue; [done|congruence].
Qed.

Lemma opened_set {X : Type} (e : effect H X) (R : log -> Prop) :
  (forall cs, R cs -> opens e = true -> admissible strict cs) ->
  spec en (fun _ => opening) (opened R) (ask e) (fun x => opened (after R e x)).
Proof.
  intros He. apply spec_ask. intros x w cs [Ho Hr]. split; [|by exists cs].
  apply opening_answer, opening_issue; [done|]. by apply He.
Qed.

Lemma opened_ask {X : Type} (e : effect H X) (R : log -> Prop) :
  opens e = false ->
  spec en (fun _ => opening) (opened R) (ask e) (fun x => opened (after R e x)).
Proof. intros He. apply opened_set. intros cs _. congruence. Qed.

Lemma opened_weaken (R R' : log -> Prop) (w : Worker S) (cs : log) :
  (forall cs, R cs -> R' cs) -> opened R w cs -> opened R' w cs.
Proof. intros Hr [Ho Hcs]. split; auto. Qed.

(** An error ends the loop. *)
Definition or_ended {X A : Type} (R : A -> log -> Prop) (m : result X A) : Worker S -> log -> Prop :=
  match m with Ok a => opened (R a) | Err _ => fun _ => opening end.

Definition reconciled_shown (b : bool) (cs : log) : Prop :=
  b = true -> latest reconciliation_seen cs = Some (Some (Ok tt)).

(** The looks a survey takes before it acts. *)
Record looked (found : result RuntimeError.t (list RecoveredContainer)) (storage quota : bool)
  (owner : option AttemptAuthority) (reconciled : bool) (cs : log) : Prop := {
  lk_inventory : latest inventory_seen cs = Some found;
  lk_storage : latest storage_seen cs = Some (Some storage);
  lk_quota : quota = true -> strict = true -> latest quota_seen cs = Some (Ok tt);
  lk_owner : latest owner_seen cs = Some owner;
  lk_reconciled : reconciled_shown reconciled cs;
}.

Ltac show := unfold reconciled_shown in *; rewrite ?latest_snoc; cbn.

Lemma looked_revoke (storage quota : bool) (owner : option AttemptAuthority)
  (found : result RuntimeError.t (list RecoveredContainer)) (reconciled : bool) :
  spec en (fun _ => opening) (opened (looked found storage quota owner reconciled))
    (revoke strict storage quota owner) (fun _ => opened (looked found storage quota owner reconciled)).
Proof.
  unfold revoke. destruct (strict && _); [|by apply spec_ret]. destruct owner as [identity|]; [|by apply spec_ret].
  eapply spec_conseq; [by apply opened_ask|intros w cs Hw; exact Hw|]. intros [] w cs. apply opened_weaken.
  intros cs' (before & [] & ->). split; by show.
Qed.

Lemma looked_reconcile (due reconciled storage quota : bool) (owner : option AttemptAuthority)
  (found : result RuntimeError.t (list RecoveredContainer)) :
  spec en (fun _ => opening) (opened (looked found storage quota owner reconciled)) (reconcile_once due)
    (or_ended (fun now => looked found storage quota owner (reconciled || now))).
Proof.
  unfold reconcile_once. destruct due.
  - eapply spec_bind; [by apply opened_call|]. intros [[[]|e]|]; apply spec_ret; intros w cs; [|by intros []..].
    apply opened_weaken. intros cs' (before & [] & ->). split; by show.
  - apply spec_ret. intros w cs. apply opened_weaken. intros cs'. by rewrite orb_false_r.
Qed.

Lemma quota_shown (b : bool) (R : log -> Prop) :
  (forall cs m, R cs -> R ((cs ++ [Call QuotaSupport]) ++ [Answer QuotaSupport m])) ->
  spec en (fun _ => opening) (opened R) (quota_healthy b)
    (fun ok => opened (fun cs => R cs /\ (ok = true -> b = true -> latest quota_seen cs = Some (Ok tt)))).
Proof.
  intros Hr. unfold quota_healthy. destruct b.
  - eapply spec_bind; [by apply opened_call|]. intros m. apply spec_ret. intros w cs. apply opened_weaken.
    intros cs' (before & Hb & ->). split; [by apply Hr|]. show. by destruct m as [[]|].
  - apply spec_ret. intros w cs. by apply opened_weaken.
Qed.

Lemma look_around_shows (c : AgentConfig) (reconciled : bool) :
  spec en (fun _ => opening) (opened (reconciled_shown reconciled)) (look_around c strict reconciled)
    (or_ended (survey_shown strict)).
Proof.
  unfold look_around. eapply spec_bind; [by apply opened_call|intros found].
  eapply spec_bind; [by apply opened_call|intros verified].
  apply spec_pure; [by intros e w cs _ []|intros storage Hst%ok_or_Ok_inv]. subst verified.
  eapply spec_conseq; [|intros w cs; apply (opened_weaken _ (fun cs => latest inventory_seen cs = Some found
    /\ latest storage_seen cs = Some (Some storage) /\ reconciled_shown reconciled cs));
    intros cs' (b1 & (b0 & Hb & ->) & ->); split_and!; by show|intros m w cs Hm; exact Hm].
  eapply spec_bind; [apply quota_shown; intros cs m (H1 & H2 & H3); split_and!; by show|intros quota].
  eapply spec_bind; [by apply opened_ask|intros owner].
  set (healthy := is_ok found && storage && quota).
  eapply (spec_bind _ _ _ _ _ (fun _ => opened (looked found storage quota owner reconciled))).
  { destruct (negb healthy); [eapply spec_conseq; [by apply opened_ask|intros w cs Hw; exact Hw|intros []]|apply spec_ret];
      intros w cs; apply opened_weaken; [intros cs' (b1 & (b0 & ((H1 & H2 & H3) & H4) & ->) & ->)|
        intros cs' (b0 & ((H1 & H2 & H3) & H4) & ->)]; split; by show. }
  intros []. eapply spec_bind; [apply looked_revoke|intros []].
  eapply spec_bind_ok; [apply looked_reconcile|by intros e w cs Hw; exact Hw|intros now].
  eapply spec_bind; [by apply opened_call|intros pressed].
  apply spec_pure; [by intros e w cs _ []|intros pressure Hp%ok_or_Ok_inv]. subst pressed.
  apply spec_ret. intros w cs. apply opened_weaken. intros cs' (b0 & [] & ->).
  assert (Hh : healthy = true -> is_ok found = true /\ storage = true /\ quota = true)
    by (unfold healthy; intros; bools; tauto).
  split; cbn [sv_healthy sv_owner sv_reconciled sv_pressure sv_inventory]; show; try done; intros Hv;
    destruct (Hh Hv) as (Hf & -> & ->); [|done|by apply lk_quota0]. destruct found; [done|by cbn in Hf].
Qed.

Lemma survey_deaf {X : Type} (e : effect H X) (x : X) (v : survey) (cs : log) :
  inventory_seen (Answer e x) = None -> storage_seen (Answer e x) = None -> quota_seen (Answer e x) = None ->
  owner_seen (Answer e x) = None -> reconciliation_seen (Answer e x) = None -> pressure_seen (Answer e x) = None ->
  survey_shown strict v cs -> survey_shown strict v ((cs ++ [Call e]) ++ [Answer e x]).
Proof.
  intros H1 H2 H3 H4 H5 H6 []. split; rewrite ?latest_snoc; [rewrite H1|rewrite H2|rewrite H3|rewrite H4|rewrite H5|rewrite H6];
    done.
Qed.

Lemma next_report_shows (c : AgentConfig) (session : string) (v : survey) (h : health) :
  spec en (fun _ => opening) (opened (survey_shown strict v)) (next_report c session v h)
    (or_ended (fun _ => survey_shown strict v)).
Proof.
  unfold next_report. destruct (hl_pending h) as [q|]; [by apply spec_ret|].
  apply spec_pure; [by intros e w cs _ []|intros sequence _].
  eapply (spec_bind_ok _ _ _ _ _ (fun _ => opened (survey_shown strict v)) (fun _ _ => opening)); [|done|by intros a; apply spec_ret].
  apply spec_map. eapply spec_bind; [by apply opened_ask|intros raw]. apply spec_ret. intros w cs Hw.
  destruct raw as [raw|]; [|by destruct Hw]. revert Hw. apply opened_weaken. intros cs' (b0 & Hb & ->). by apply survey_deaf.
Qed.

(** The survey and the exchange it led to. *)
Definition exchanged (v : survey) (q : HeartbeatRequest) (reply : HeartbeatResponse) (cs : log) : Prop :=
  survey_shown strict v cs /\ latest report_seen cs = Some (q, Delivered reply).

Lemma exchanged_admissible (v : survey) (q : HeartbeatRequest) (reply : HeartbeatResponse) (cs : log) :
  exchanged v q reply cs -> is_ready q v reply && negb (hr_drain reply) = true -> admissible strict cs.
Proof.
  intros [[] Hr]. unfold is_ready. rewrite !andb_true_iff, !negb_true_iff, bool_decide_eq_true.
  intros [(((((((( Hq1 & Hq2) & Hq3) & Hh) & Hp) & Hk) & Hrec) & Hrc) & Hst) Hd].
  split; [|auto..|].
  - exists (sv_inventory v), (sv_owner v). split_and!; [auto|done|]. intros c Hc.
    unfold sv_known in Hk. rewrite forallb_forall in Hk. apply list_elem_of_In in Hc. specialize (Hk c Hc).
    unfold owned in Hk. by apply bool_decide_eq_true in Hk.
  - rewrite ss_pressure0. by rewrite Hp.
  - by exists q, reply.
Qed.

Lemma stop_listed_exchanged (v : survey) (q : HeartbeatRequest) (reply : HeartbeatResponse) :
  spec en (fun _ => opening) (opened (exchanged v q reply)) (stop_listed (sv_owner v) (hr_stop reply))
    (fun _ => opened (exchanged v q reply)).
Proof.
  unfold stop_listed. destruct (sv_owner v) as [identity|]; [|by apply spec_ret].
  case_bool_decide; [|by apply spec_ret].
  eapply spec_conseq; [by apply opened_ask|intros w cs Hw; exact Hw|]. intros [] w cs. apply opened_weaken.
  intros cs' (b0 & [Hb Hr] & ->). split; [by apply survey_deaf|by show].
Qed.

Lemma report_health_shows (q : HeartbeatRequest) (v : survey) :
  spec en (fun _ => opening) (opened (survey_shown strict v)) (report_health q v)
    (or_ended (fun _ => survey_shown strict v)).
Proof.
  unfold report_health. eapply (spec_bind _ _ _ _ _ (fun m => opened (fun cs => survey_shown strict v cs
    /\ forall reply, m = Ok reply -> exchanged v q reply cs))).
  { unfold client_heartbeat. eapply spec_bind; [by apply opened_call|intros answer]. apply spec_ret.
    intros w cs. apply opened_weaken. intros cs' (b0 & Hb & ->). assert (Hv := survey_deaf (HeartbeatCall q) answer v b0).
    split; [by apply Hv|]. intros reply Hr. split; [by apply Hv|]. unfold heartbeat in Hr.
    apply rbind_Ok_inv in Hr as (a & Ha & Hr). apply rbind_Ok_inv in Hr as (u & _ & [= ->]).
    destruct answer; [done..|]. injection Ha as ->. by show. }
  intros [reply|e].
  - eapply spec_conseq; [|intros w cs; apply (opened_weaken _ (exchanged v q reply)); intros cs' [_ Hx]; by apply Hx|intros m w cs Hm; exact Hm].
    eapply spec_bind; [apply stop_listed_exchanged|intros []].
    eapply spec_bind; [apply opened_set; apply exchanged_admissible|intros []]. apply spec_ret.
    intros w cs. apply opened_weaken. intros cs' (b0 & [Hb _] & ->). by apply survey_deaf.
  - destruct (retryable e); [|by apply spec_ret; intros w cs []].
    eapply spec_bind; [by apply opened_ask|intros []]. apply spec_ret. intros w cs. apply opened_weaken.
    intros cs' (b0 & [Hb _] & ->). by apply survey_deaf.
Qed.

Lemma reconciled_deaf {X : Type} (e : effect H X) (x : X) (b : bool) (cs : log) :
  reconciliation_seen (Answer e x) = None -> reconciled_shown b cs -> reconciled_shown b ((cs ++ [Call e]) ++ [Answer e x]).
Proof. intros He Hb. unfold reconciled_shown. by rewrite !latest_snoc, He. Qed.

Lemma health_turn_shows (c : AgentConfig) (session : string) (h : health) :
  spec en (fun _ => opening) (opened (reconciled_shown (hl_reconciled h))) (health_turn c strict session h)
    (fun x => match x with inl h' => opened (reconciled_shown (hl_reconciled h')) | inr _ => fun _ => opening end).
Proof.
  unfold health_turn.
  eapply (spec_bind _ _ _ _ _ (or_ended (fun h' => reconciled_shown (hl_reconciled h')))); [|by intros [h'|e]; apply spec_ret].
  eapply spec_bind_ok; [apply look_around_shows|by intros e w cs Hw; exact Hw|intros v].
  eapply spec_bind_ok; [apply next_report_shows|by intros e w cs Hw; exact Hw|intros [sequence q]].
  eapply spec_bind_ok; [apply report_health_shows|by intros e w cs Hw; exact Hw|intros [state waiting]].
  eapply (spec_bind _ _ _ _ _ (fun _ => opened (reconciled_shown (sv_reconciled v)))).
  { case_bool_decide; [eapply spec_conseq; [by apply opened_ask|intros w cs Hw; exact Hw|]|apply spec_ret].
    - intros [] w cs. apply opened_weaken. intros cs' (b0 & Hb & ->). apply reconciled_deaf; [done|by destruct Hb].
    - intros w cs. apply opened_weaken. by intros cs' []. }
  intros []. eapply (spec_bind _ _ _ _ _ (fun _ => opened (reconciled_shown (sv_reconciled v)))).
  { unfold remove_one. destruct (List.find _ _) as [k|]; [|by apply spec_ret].
    eapply spec_bind; [by apply opened_call|intros m]. apply spec_ret. intros w cs. apply opened_weaken.
    intros cs' (b0 & Hb & ->). by apply reconciled_deaf. }
  intros at_once. eapply (spec_bind _ _ _ _ _ (fun _ => opened (reconciled_shown (sv_reconciled v)))); [|by intros []; apply spec_ret].
  destruct at_once; [by apply spec_ret|]. eapply spec_conseq; [by apply opened_call|intros w cs Hw; exact Hw|].
  intros [] w cs. apply opened_weaken. intros cs' (b0 & Hb & ->). by apply reconciled_deaf.
Qed.
End Admission.

(** C7: admission is opened only on a host in order.  Whenever the health loop sets
    the worker ready, the last inventory of containers was obtained and names only
    the attempt this process owns, the storage was verified and, in the strict
    profile, quotas are enforced, the disk is not under pressure, the workspaces of
    earlier sessions were reconciled, and the control plane answered a report that
    said so without asking to reconcile, to drain or to stop anything. *)
Theorem admission_opens_only_in_order (c : AgentConfig) (strict : bool) (session : string)
  (en : env (Worker S) (effect H)) (r r' : exec (Worker S) (effect H)) (o : option (result AgentError unit))
  (before after : log) :
  ex_calls r = [] -> health_loop c strict session en r = (o, r') ->
  ex_calls r' = before ++ Call (SetReady true) :: after -> admissible strict before.
Proof.
  intros Hr Ho. assert (Hspec : spec en (fun _ => opening strict) (opened strict (reconciled_shown (hl_reconciled starting_health)))
    (health_loop c strict session) (fun _ _ => opening strict)).
  { apply (spec_loop en _ (fun h => opened strict (reconciled_shown (hl_reconciled h)))); [by intros h w cs []|].
    intros h. eapply spec_conseq; [apply health_turn_shows|done|]. by intros [h'|m]. }
  specialize (Hspec r). rewrite Ho, Hr in Hspec.
  assert (Hopen : opening strict (ex_calls r')) by (destruct o; apply Hspec; (split; [apply guarded_by_nil|done])).
  apply Hopen.
Qed.

(** ** The sequence of reports *)

Abbreviation exchange := (HeartbeatRequest * rpc_reply HeartbeatResponse)%type.

Definition report_follows (x y : exchange) : Prop :=
  if is_ok (heartbeat x.1 x.2) then hb_report_sequence y.1 = hb_report_sequence x.1 + 1 else y.1 = x.1.

Record in_order (l : list exchange) : Prop := {
  io_first : forall x, head l = Some x -> hb_report_sequence x.1 = 1;
  io_next : forall before x y after, l = before ++ x :: y :: after -> report_follows x y;
  io_bounded : forall x, x ∈ l -> hb_report_sequence x.1 <= I64_MAX;
}.

Lemma in_order_nil : in_order [].
Proof. split; [done|by intros [|]|]. by intros x ?%not_elem_of_nil. Qed.

Lemma in_order_snoc (l : list exchange) (x : exchange) :
  in_order l -> hb_report_sequence x.1 <= I64_MAX ->
  match last l with None => hb_report_sequence x.1 = 1 | Some y => report_follows y x end -> in_order (l ++ [x]).
Proof.
  intros [Hf Hn Hb] Hx Hl. split.
  - intros y. destruct l as [|z l]; cbn; [by intros [= <-]|]. apply Hf.
  - intros before y z after Heq. destruct after as [|u after _] using rev_ind.
    + replace (before ++ [y; z]) with ((before ++ [y]) ++ [z]) in Heq by (by rewrite <- app_assoc).
      apply app_inj_tail in Heq as [-> ->]. by rewrite last_snoc in Hl.
    + rewrite !app_comm_cons, app_assoc in Heq. apply app_inj_tail in Heq as [-> _]. by eapply Hn.
  - intros y [Hy|Hy]%elem_of_app; [by apply Hb|]. by apply list_elem_of_singleton in Hy as ->.
Qed.

Section Reports.
Context (en : env (Worker S) (effect H)).

Definition reports (P : list exchange -> Prop) (_ : Worker S) (cs : log) : Prop := P (omap report_seen cs).

Lemma unreported_call {X : Type} (e : effect H X) (P : list exchange -> Prop) :
  (forall x, report_seen (Answer e x) = None) -> keeps en (reports P) (call e) /\ keeps en (reports P) (ask e).
Proof.
  intros He. assert (Ha : forall (w : Worker S) cs x, reports P w cs -> reports P w ((cs ++ [Call e]) ++ [Answer e x])).
  { intros w cs x. unfold reports. rewrite !omap_app. cbn [omap list_omap]. rewrite He. cbn. by rewrite !app_nil_r. }
  split; [apply spec_call|apply spec_ask]; [|intros; by apply Ha..].
  intros w cs. unfold reports. rewrite omap_app. cbn. by rewrite app_nil_r.
Qed.

(** What the loop knows of the last report. *)
Definition reporting (h : health) (l : list exchange) : Prop :=
  in_order l
  /\ match last l with
     | None => hl_sequence h = 0 /\ hl_pending h = None
     | Some x => hb_report_sequence x.1 = hl_sequence h
         /\ match hl_pending h with
            | Some q => q = x.1 /\ is_ok (heartbeat x.1 x.2) = false
            | None => is_ok (heartbeat x.1 x.2) = true
            end
     end.

Definition due (sequence : N) (q : HeartbeatRequest) (l : list exchange) : Prop :=
  in_order l /\ (forall reply, in_order (l ++ [(q, reply)])) /\ hb_report_sequence q = sequence.

Definition reported (sequence : N) (q : HeartbeatRequest) (waiting : bool) (l : list exchange) : Prop :=
  in_order l /\ hb_report_sequence q = sequence
  /\ exists reply, last l = Some (q, reply) /\ is_ok (heartbeat q reply) = negb waiting.

Ltac unreported := keeping; by apply unreported_call.

Lemma due_pending (h : health) (q : HeartbeatRequest) (l : list exchange) :
  hl_pending h = Some q -> reporting h l -> due (hl_sequence h) q l.
Proof.
  intros Hq [Ho Hl]. rewrite Hq in Hl. destruct (last l) as [[q' reply']|] eqn:Hlast; [|by destruct Hl].
  cbn in Hl. destruct Hl as (Hs & -> & Hn). split_and!; [done| |done]. intros reply. apply in_order_snoc; [done|..].
  - apply (io_bounded _ Ho (q', reply')). by apply last_Some_elem_of.
  - rewrite Hlast. unfold report_follows. cbn. by rewrite Hn.
Qed.

Lemma due_next (h : health) (q : HeartbeatRequest) (sequence : N) (l : list exchange) :
  hl_pending h = None -> sequence = hl_sequence h + 1 -> sequence <= I64_MAX -> hb_report_sequence q = sequence ->
  reporting h l -> due sequence q l.
Proof.
  intros Hn Hs Hb Hq [Ho Hl]. rewrite Hn in Hl. split_and!; [done| |done]. intros reply.
  apply in_order_snoc; [done|cbn; lia|]. destruct (last l) as [x|]; cbn; [|destruct Hl as [Hz _]; lia].
  destruct Hl as [Hx Hok]. unfold report_follows. rewrite Hok. cbn. lia.
Qed.

Lemma next_report_due (c : AgentConfig) (session : string) (v : survey) (h : health) :
  spec en (reports in_order) (reports (reporting h)) (next_report c session v h)
    (fun m => match m with Ok (sequence, q) => reports (due sequence q) | Err _ => reports in_order end).
Proof.
  unfold next_report. destruct (hl_pending h) as [q|] eqn:Hp.
  { apply spec_ret. intros w cs. by apply due_pending. }
  apply spec_pure; [by intros e w cs _ []|]. intros sequence Hs%ok_or_Ok_inv.
  destruct (u64_checked_add (hl_sequence h) 1) as [n|] eqn:Hadd; [|done]. cbn in Hs.
  destruct (N.leb_spec n I64_MAX); [|done]. injection Hs as <-. apply u64_checked_add_Some in Hadd as [-> _].
  apply (keeps_try en _ _ (tmap_err AgentJournal fresh_uuid)); [unfold fresh_uuid; unreported|by intros w cs []|by intros e w cs []|].
  intros request_id. apply spec_ret. intros w cs. by apply due_next.
Qed.

Lemma report_health_reports (sequence : N) (q : HeartbeatRequest) (v : survey) :
  spec en (reports in_order) (reports (due sequence q)) (report_health q v)
    (fun m => match m with Ok (_, waiting) => reports (reported sequence q waiting) | Err _ => reports in_order end).
Proof.
  unfold report_health. eapply (spec_bind _ _ _ _ _ (fun m => reports (reported sequence q (negb (is_ok m))))).
  { unfold client_heartbeat. eapply (spec_bind _ _ _ _ _ (fun reply => reports (reported sequence q (negb (is_ok (heartbeat q reply))))));
      [|intros reply; by apply spec_ret].
    apply spec_call; [intros w cs [Ho _]|intros n reply w cs (Ho & Hd & Hq) _]; unfold reports; rewrite !omap_app; cbn.
    - by rewrite app_nil_r.
    - rewrite app_nil_r. split_and!; [apply Hd|done|]. exists reply. by rewrite last_snoc, negb_involutive. }
  intros [reply|e]; cbn [is_ok negb].
  - eapply spec_bind; [apply keeps_spec; [unfold stop_listed; unreported|by intros w cs []]|intros []].
    eapply spec_bind; [apply keeps_spec; [unreported|by intros w cs []]|intros []]. by apply spec_ret.
  - destruct (retryable e); [|apply spec_ret; by intros w cs []].
    eapply spec_bind; [apply keeps_spec; [unreported|by intros w cs []]|intros []]. by apply spec_ret.
Qed.

Lemma health_turn_reports (c : AgentConfig) (strict : bool) (session : string) (h : health) :
  spec en (reports in_order) (reports (reporting h)) (health_turn c strict session h)
    (fun x => match x with inl h' => reports (reporting h') | inr _ => reports in_order end).
Proof.
  unfold health_turn.
  eapply (spec_bind _ _ _ _ _ (fun m => match m with Ok h' => reports (reporting h') | Err _ => reports in_order end));
    [|by intros [h'|e]; apply spec_ret].
  apply keeps_try; [|by intros w cs []|by intros e w cs []|intros v].
  { unfold look_around, quota_healthy, revoke, reconcile_once. unreported. }
  eapply (spec_bind_ok _ _ _ _ _ (fun p => reports (due p.1 p.2)) (fun _ => reports in_order)); [|done|intros [sequence q]].
  { eapply spec_conseq; [apply next_report_due|done|]. by intros [[? ?]|?]. }
  eapply (spec_bind_ok _ _ _ _ _ (fun p => reports (reported sequence q p.2)) (fun _ => reports in_order)); [|done|intros [state waiting]].
  { eapply spec_conseq; [apply report_health_reports|done|]. by intros [[? ?]|?]. }
  eapply spec_bind; [apply keeps_spec; [unreported|by intros w cs []]|intros []].
  eapply spec_bind; [apply keeps_spec; [unfold remove_one; unreported|by intros w cs []]|intros at_once].
  eapply spec_bind; [apply keeps_spec; [unreported|by intros w cs []]|intros []].
  apply spec_ret. intros w cs (Ho & Hq & reply & Hl & Hr). split; [done|]. rewrite Hl. cbn. split; [done|].
  by destruct waiting.
Qed.
End Reports.

(** C30: the reports of a session are numbered without gaps and repeated unchanged.
    The first report has sequence number one; a report that was not answered is sent
    again as it was, and one that was answered is followed by the next number, which
    never exceeds the range of a signed integer. *)
Theorem reports_are_numbered_and_replayed (c : AgentConfig) (strict : bool) (session : string)
  (en : env (Worker S) (effect H)) (r r' : exec (Worker S) (effect H)) (o : option (result AgentError unit)) :
  ex_calls r = [] -> health_loop c strict session en r = (o, r') -> in_order (omap report_seen (ex_calls r')).
Proof.
  intros Hr Ho. assert (Hspec : spec en (reports in_order) (reports (reporting starting_health))
    (health_loop c strict session) (fun _ => reports in_order)).
  { apply (spec_loop en _ (fun h => reports (reporting h))); [by intros h w cs []|].
    intros h. eapply spec_conseq; [apply health_turn_reports|done|]. by intros [h'|m]. }
  specialize (Hspec r). rewrite Ho, Hr in Hspec.
  destruct o; apply Hspec; (split; [apply in_order_nil|done]).
Qed.
End Health.

(** ** Completions of earlier sessions *)

Section Recovered.
Context {S H : Type} {ops : RecordStore S} {laws : RecordStoreLaws S}.
Context {lib : Libraries} {lib_laws : LibraryLaws} {http : HttpLibraries}.
Context (attempt_names : forall id, rs_name (attempt_file id)).

Abbreviation log := (list (some_call (effect H))).
Abbreviation T := (task (Worker S) (effect H)).

Lemma quiet_attempt_ids : quiet attempt_ids.
Proof.
  unfold attempt_ids. apply quiet_bind; [|intros records; apply quiet_ret].
  intros j r j' Hj. unfold on_store. destruct (rs_inventory (jn_store j)) as [r1 s1] eqn:Hi.
  intros [= <- <-]. destruct (rs_inventory_spec _ _ _ (sd_store _ Hj) Hi) as [Hinv Hl]. by split_and!.
Qed.

Lemma attempt_ids_lists (j j' : Journal S) (ids : list string) (id : string) :
  sound j -> attempt_ids j = (Ok ids, j') -> is_Some (stored j id) -> id ∈ ids.
Proof.
  intros Hj Ha [record Hst]. unfold attempt_ids, st_bind, on_store in Ha.
  destruct (rs_inventory (jn_store j)) as [[l|e] s1] eqn:Hi; [|done]. injection Ha as <- _.
  eapply rs_inventory_lists; [apply Hj|done|]. apply bind_Some in Hst as (b & Hb & _). by exists b.
Qed.

Lemma lasting_completed (id : string) : lasting (completed id).
Proof.
  apply lasting_record. intros r r' He [q Hq].
  destruct (ev_completion _ _ He q Hq) as [?|(_ & _ & _ & q' & s & ? & _)]; [by exists q|by exists q'].
Qed.

Definition finally_answered (id : string) (j : Journal S) : Prop :=
  exists s, reply_stops s = false /\ replied id s j.

Lemma finally_answered_completed (id : string) (j : Journal S) : finally_answered id j -> completed id j.
Proof. intros (s & Hs & Hr). destruct (Hr Hs) as (r & Hst & q & Hq & _). exists r. split; [done|]. by exists q. Qed.

(** The completions of [j0] that are not queued are answered for good. *)
Definition queued (j0 : Journal S) (pending : list string) (j : Journal S) : Prop :=
  forall id, completed id j0 -> id ∈ pending /\ completed id j \/ finally_answered id j.

Lemma lasting_queued (j0 : Journal S) (pending : list string) : lasting (queued j0 pending).
Proof.
  intros j j' Hk Hq id Hid. destruct (Hq id Hid) as [[Hin Hc]|(s & Hs & Hr)].
  - left. split; [done|by eapply lasting_completed].
  - right. exists s. split; [done|by eapply lasting_replied].
Qed.

Lemma queued_again (j0 j : Journal S) (id : string) (rest : list string) :
  queued j0 (id :: rest) j -> queued j0 (rest ++ [id]) j.
Proof.
  intros Hq i Hi. destruct (Hq i Hi) as [[Hin Hc]|]; [left|by right]. split; [|done].
  apply elem_of_app. apply elem_of_cons in Hin as [->|]; [right; by apply list_elem_of_singleton|by left].
Qed.

Lemma queued_done (j0 j : Journal S) (id : string) (rest : list string) :
  queued j0 (id :: rest) j -> (completed id j0 -> finally_answered id j) -> queued j0 rest j.
Proof.
  intros Hq Hd i Hi. destruct (Hq i Hi) as [[Hin Hc]|]; [|by right].
  apply elem_of_cons in Hin as [->|]; [right; by apply Hd|by left].
Qed.

Context (en : env (Worker S) (effect H)) (en_tame : tame en).

Lemma recovery_turn_queued (j0 : Journal S) (pending : list string) :
  spec en (fun _ _ => True) (journaled (queued j0 pending)) (recovery_turn pending : T _)
    (fun x => match x with
              | inl rest => journaled (queued j0 rest)
              | inr m => fun w cs => m = Ok tt -> journaled (queued j0 []) w cs
              end).
Proof.
  unfold recovery_turn. destruct pending as [|id rest]; [by apply spec_ret|].
  eapply spec_bind; [eapply spec_drop; [by apply deliver_pending_spec, lasting_queued|done]|intros delivered].
  set (kept (retry : bool) (w : Worker S) (cs : log) := journaled (queued j0 (if retry then id :: rest else rest)) w cs).
  eapply (spec_bind _ _ _ _ _ (fun m => match m with Ok retry => kept retry | Err _ => fun _ (_ : log) => True end)).
  { unfold recovery_retry. destruct delivered as [[reply|]|[e|e]].
    - cbn [delivered_as]. destruct (reply_stops reply) eqn:Hs; [apply spec_ret; intros w cs; apply journaled_weaken; by intros j []|].
      eapply spec_bind; [eapply keeps_spec; [apply journaled_ask|done]|intros []].
      apply spec_ret. intros w cs. apply journaled_weaken. intros j [Hq Hr].
      apply (queued_done _ _ id); [done|]. intros _. by exists reply.
    - apply spec_ret. intros w cs [Hj Hn]. revert Hj. apply journaled_weaken. intros j Hq.
      apply (queued_done _ _ id); [done|]. intros Hid. destruct Hn. intros j' Hq'.
      destruct (Hq' id Hid) as [[_ Hc]|Hf]; [done|by apply finally_answered_completed].
    - by apply spec_ret.
    - apply spec_ret. intros w cs Hw. by destruct (retryable e). }
  intros [[]|e]; [..|apply spec_ret; by intros w cs _ [=]].
  - eapply spec_bind; [eapply keeps_spec; [by apply journaled_call, lasting_queued|done]|intros []].
    apply spec_ret. intros w cs. apply journaled_weaken. intros j. apply queued_again.
  - by apply spec_ret.
Qed.

Lemma recover_completions_queued (j0 : Journal S) :
  spec en (fun _ _ => True) (fun w _ => wk_journal w = j0 /\ sound j0) (recover_completions : T _)
    (fun m w cs => m = Ok tt -> journaled (queued j0 []) w cs).
Proof.
  unfold recover_completions.
  eapply (spec_bind_ok _ _ _ _ _ (fun pending => journaled (queued j0 pending)) (fun _ _ _ => True));
    [|by intros e w cs _ [=]|intros pending].
  - apply spec_map, spec_journal; [done|done|]. intros n w cs m j [Hw Hj] Hm. rewrite Hw in Hm.
    destruct m as [pending|e]; [|done]. cbn [map_err].
    assert (Hk : keeps_evidence j0 j) by (by apply (quiet_preserves (fun _ => True) _ quiet_attempt_ids _ _ _ Hj I Hm)).
    apply (stable_others en en_tame (journaled (queued j0 pending)) n (set_journal j w) cs);
      [by apply stable_journaled, lasting_queued|].
    split; [apply Hk|]. apply (lasting_queued j0 pending j0 j Hk). intros id Hid. left. split; [|done].
    eapply attempt_ids_lists; [done|done|]. destruct Hid as (r & Hr & _). by exists r.
  - apply (spec_loop en _ (fun pending => journaled (queued j0 pending))); [done|]. intros l.
    eapply spec_conseq; [apply recovery_turn_queued|done|]. by intros [?|?].
Qed.

(** C17: recovery leaves no completion unanswered.  When the delivery of completions
    left by earlier sessions ends without an error, every attempt that had a
    completion on record when it began has a final answer of the control plane on
    record: none of them is skipped, and none is given up because the control plane
    was out of reach or asked to stop first. *)
Theorem recovery_answers_every_completion (id : string) (r r' : exec (Worker S) (effect H)) :
  sound (wk_journal (ex_state r)) -> recover_completions en r = (Some (Ok tt), r') ->
  completed id (wk_journal (ex_state r)) ->
  exists record q s, stored (wk_journal (ex_state r')) id = Some record /\ rc_completion record = Some q
    /\ rc_completion_response record = Some s /\ reply_stops s = false.
Proof.
  intros Hs Hr Hid. pose proof (recover_completions_queued (wk_journal (ex_state r)) r (conj eq_refl Hs)) as Hq.
  rewrite Hr in Hq. destruct (Hq eq_refl) as [_ Hall].
  destruct (Hall id Hid) as [[Hin _]|(s & Hst & Hrep)]; [by apply not_elem_of_nil in Hin|].
  destruct (Hrep Hst) as (record & Hrec & q & Hc & Ha). by exists record, q, s.
Qed.
End Recovered.

(** ** Start-up *)

Section Startup.
Context {S H : Type} {ops : RecordStore S} {lib : Libraries}.
Context (from_slice_config : bytes -> option RawConfig) (from_shared : string -> option Uri).

Definition labels_accepted (labels : gmap string string) : bool :=
  negb (64 <? N.of_nat (base.size labels))
  && bool_decide (labels !! "os"%string = Some "linux"%string)
  && bool_decide (labels !! "architecture"%string ∈ [Some "amd64"; Some "arm64"]%string)
  && negb (existsb bad_label (map_to_list labels)).

Lemma validate_claims_parts (q : RegisterWorkerRequest) (worker : string) :
  validate_claims q worker = Ok tt ->
  is_Some (rw_allocatable q) /\ is_Some (rw_labels q !! "architecture"%string).
Proof.
  unfold validate_claims. intros Hv. apply rbind_Ok_inv in Hv as (resources & Hr%ok_or_Ok_inv & Hv).
  split; [by exists resources|]. destruct (_ || _) eqn:Hg in Hv; [done|].
  rewrite !orb_false_iff, !negb_false_iff in Hg. destruct Hg as [[_ Ha] _]. apply bool_decide_eq_true in Ha.
  rewrite !elem_of_cons in Ha. destruct Ha as [->|[->|[]%not_elem_of_nil]]; by eexists.
Qed.

Lemma begin_incarnation_valid (q : RegisterWorkerRequest) (j j' : Journal S) (saved : SessionRecord) :
  begin_incarnation q j = (Ok saved, j') -> exists worker, validate_claims (sr_registration saved) worker = Ok tt.
Proof.
  unfold begin_incarnation. intros Hb. apply st_bind_Ok in Hb as (i & j1 & _ & Hb).
  destruct (negb _); [done|]. destruct (_ || _); [done|].
  do 4 (apply st_bind_Ok in Hb as (? & ? & _ & Hb)).
  apply st_bind_Ok in Hb as ([] & j2 & [= Hv _] & Hb). eexists.
  do 2 (apply st_bind_Ok in Hb as (? & ? & _ & Hb)). injection Hb as <- _. exact Hv.
Qed.

Lemma open_process_valid (io : process_io (S := S)) (c : AgentConfig) (strict : bool) (p : process) :
  open_process io c strict = Ok p -> exists worker, validate_claims (sr_registration (pc_saved p)) worker = Ok tt.
Proof.
  unfold open_process. intros Ho. apply rbind_Ok_inv in Ho as (root & _ & Ho).
  apply rbind_Ok_inv in Ho as (journal_root & _ & Ho). destruct (_ || _); [done|].
  do 5 (apply rbind_Ok_inv in Ho as (? & _ & Ho)). destruct (begin_incarnation _ _) as [m j'] eqn:Hb.
  apply rbind_Ok_inv in Ho as (saved & Hs%map_err_Ok_inv & [= <-]). subst m. by eapply begin_incarnation_valid.
Qed.

(** C38: start-up does not panic.  The registration a process has stored once its
    files are open has the resources and the architecture that the checks of the
    runtime unwrap, so that these checks come to a result in at most three awaits,
    whatever the runtime answers. *)
Theorem opened_process_never_panics (io : process_io (S := S)) (c : AgentConfig) (strict : bool) (p : process) :
  open_process io c strict = Ok p ->
  within 3 (check_runtime c (pc_saved p) strict : task (Worker S) (effect H) _).
Proof.
  intros (worker & [[resources Hr] [architecture Ha]]%validate_claims_parts)%open_process_valid.
  unfold check_runtime. rewrite Hr, Ha. apply (within_then 0 3); [apply within_ask|lia|intros []].
  apply (within_try 1 2); [apply within_map, within_call|lia|intros []].
  apply (within_try 1 1); [|lia|intros []].
  - destruct strict; [apply within_map, within_call|apply within_ret_any].
  - apply (within_then 0 1); [apply within_ret|lia|intros r]. apply (within_then 0 1); [apply within_ret|lia|intros a].
    apply within_map, within_call.
Qed.

Lemma decode_config_bounds (b : bytes) (c : AgentConfig) :
  decode_config from_slice_config from_shared b = Ok c ->
  canonical_uuid (ac_worker_id c) = true /\ 1 <= ac_cpu_millis c <= 1024000 /\ 1 <= ac_memory_mib c <= 16777216
  /\ 1 <= ac_scratch_mib c <= 1073741824 /\ 64 <= ac_dataset_cache_high_mib c <= 65536
  /\ 1 <= ac_dataset_cache_low_mib c < ac_dataset_cache_high_mib c /\ 1 <= ac_execution_slots c <= 1000.
Proof.
  unfold decode_config. destruct (_ <? _); [done|]. intros Hd.
  apply rbind_Ok_inv in Hd as (c' & _ & Hd). destruct (_ || _) eqn:Hg in Hd; [done|]. injection Hd as ->.
  unfold in_range in Hg. rewrite !orb_false_iff, !negb_false_iff, !andb_true_iff, N.eqb_neq, N.leb_gt, !N.leb_le in Hg.
  destruct_and? Hg. split_and!; first [done|lia].
Qed.

(** An accepted configuration can be registered.  Its sizes in bytes are exact
    (no shift overflows), and the claims built from it pass the journal's validation
    in both profiles, its labels apart: the configuration decoder does not check
    those. *)
Theorem decoded_configuration_can_register (b : bytes) (c : AgentConfig) (strict : bool) (request_id session_id : string) :
  decode_config from_slice_config from_shared b = Ok c ->
  canonical_uuid request_id = true -> canonical_uuid session_id = true ->
  rw_allocatable (claims c strict)
    = Some {| rs_cpu_millis := ac_cpu_millis c; rs_memory_bytes := ac_memory_mib c * 1048576;
              rs_scratch_bytes := ac_scratch_mib c * 1048576 |}
  /\ shl20 (ac_dataset_cache_low_mib c) < shl20 (ac_dataset_cache_high_mib c)
  /\ validate_claims (identified (claims c strict) request_id session_id) (ac_worker_id c)
     = if labels_accepted (ac_labels c) then Ok tt else Err JournalError.Invalid.
Proof.
  intros (Hw & Hcpu & Hmem & Hscr & Hhigh & Hlow & Hslots)%decode_config_bounds Hr Hs.
  unfold claims. cbn [rw_allocatable]. rewrite !shl20_small by lia. split_and!; [done|lia|].
  unfold validate_claims, identified. cbn [rw_allocatable ok_or rbind rw_worker_id rw_request_id
    rw_requested_session_id rw_protocol_version rw_execution_slots rw_labels rw_capabilities
    rs_cpu_millis rs_memory_bytes rs_scratch_bytes].
  rewrite (bool_decide_true _ eq_refl), Hr, Hs.
  change (N.shiftl 16777216 20) with 17592186044416. change (N.shiftl 1073741824 20) with 1125899906842624.
  repeat rewrite (proj2 (in_range_spec _ _ _)) by (unfold mib; lia).
  unfold mib. rewrite !N.Div0.mod_mul, !N.eqb_refl. cbn [negb orb].
  unfold labels_accepted. destruct (64 <? _); [done|]. destruct (bool_decide (_ = Some "linux"%string)); [|done].
  destruct (bool_decide (_ !! "architecture"%string ∈ _)); [|done]. destruct (existsb bad_label _); [done|].
  destruct strict; vm_compute; reflexivity.
Qed.
End Startup.

(** ** The loops of the process

    Every turn completes an await, so that the awaits left are fuel enough and
    [loop_unfold] applies. *)

Section Turns.
Context {S H : Type} {ops : RecordStore S} {lib : Libraries}.

Abbreviation T := (task (Worker S) (effect H)).

Lemma health_turn_advances (c : AgentConfig) (strict : bool) (session : string) (h : health) :
  advances (health_turn c strict session h : T _).
Proof.
  apply spends_advances. unfold health_turn. apply spends_then; [|spending]. apply spends_try.
  - unfold look_around. apply spends_then; [apply spends_call|].
    unfold quota_healthy, revoke, reconcile_once. spending.
  - unfold next_report, report_health, remove_one, client_heartbeat, stop_listed, fresh_uuid. spending.
Qed.

Lemma recovery_turn_advances (pending : list string) : advances (recovery_turn pending : T _).
Proof.
  unfold recovery_turn. destruct pending as [|id rest]; [by intros en r i r' [=]|].
  apply spends_advances. apply spends_then; [|unfold recovery_retry; spending].
  unfold deliver_pending_task. apply spends_try; [apply spends_map, spends_op|].
  unfold client_complete, journal. spending.
Qed.

Lemma connect_turn_advances (u : unit) : advances (connect_turn u : T _).
Proof. apply spends_advances. unfold connect_turn. apply spends_then; [apply spends_call|spending]. Qed.

Lemma register_turn_advances (q : RegisterWorkerRequest) (u : unit) : advances (register_turn q u : T _).
Proof.
  apply spends_advances. unfold register_turn, client_register. apply spends_then; [|spending].
  apply spends_then; [apply spends_call|spending].
Qed.

(** The health loop is a turn, and the loop again after it. *)
Corollary health_loop_turns (c : AgentConfig) (strict : bool) (session : string) (h : health)
  (en : env (Worker S) (effect H)) (r : exec (Worker S) (effect H)) :
  loop (health_turn c strict session) h en r
  = tbind (health_turn c strict session h)
      (fun x => match x with inl h' => loop (health_turn c strict session) h' | inr m => tret m end) en r.
Proof. apply loop_unfold. apply health_turn_advances. Qed.
End Turns.

(** ** Witnesses: a host in order, and a control plane that answers from some instant on *)

Definition config_fixture (high low : N) (labels : gmap string string) : AgentConfig :=
  {| ac_worker_id := worker_fixture; ac_server_url := "https://control.example";
     ac_ca_cert := "/etc/dispatch/ca.pem"; ac_client_cert := "/etc/dispatch/cert.pem";
     ac_client_key := "/etc/dispatch/key.pem"; ac_journal_dir := "/var/lib/dispatch/journal";
     ac_workspace_root := "/var/lib/dispatch/work"; ac_docker_socket := "/run/docker.sock";
     ac_cpu_millis := 4000; ac_memory_mib := 16777216; ac_scratch_mib := 1073741824;
     ac_dataset_cache_high_mib := high; ac_dataset_cache_low_mib := low; ac_execution_slots := 1;
     ac_labels := labels |}.

Definition raw_fixture : RawConfig :=
  {| rg_high := None; rg_low := Some 100; rg_labels := [("os", "linux"); ("architecture", "arm64")]%string;
     rg_config := config_fixture |}.

Definition host_labels : gmap string string := {["os" := "linux"; "architecture" := "arm64"]}%string.

Definition agent_config : AgentConfig := config_fixture default_cache_high_mib 100 host_labels.

Definition in_order_host (limit n : nat) (X : Type) (e : effect string X) : X :=
  match e in effect _ X return X with
  | Inventory _ => Ok []
  | StorageVerified => Some true
  | QuotaSupport => Ok tt
  | ReconcileStorage => Some (Ok tt)
  | DiskPressure _ => Some false
  | FreshId => Some (repeat "007"%byte 16)
  | HeartbeatCall _ =>
      if (n <? limit)%nat then Elapsed
      else Delivered {| hr_drain := false; hr_reconcile := false; hr_stop := [] |}
  | CompleteAttempt _ => if (n <? limit)%nat then Elapsed else Delivered terminal_reply
  | e' => outage e'
  end.

Definition host_env : env (Worker Directory) (effect string) :=
  quiet_env (in_order_host 12) granted_look (Ok 101000000000).

Definition agent_exec (j : Journal Directory) (awaits : nat) : exec (Worker Directory) (effect string) :=
  {| ex_state := {| wk_journal := j; wk_assembler := idle_assembler |};
     ex_authority := launch_authority; ex_clock := 0; ex_left := awaits; ex_calls := [] |}.

Abbreviation health_run :=
  (health_loop agent_config true (ws_session_id session_fixture) host_env (agent_exec registered_journal 40)).

Lemma admission_opens_only_in_order_witness :
  admissible true (take 34 (ex_calls (snd health_run)))
  /\ ex_calls (snd health_run)
     = take 34 (ex_calls (snd health_run)) ++ Call (SetReady true) :: drop 35 (ex_calls (snd health_run)).
Proof.
  assert (Hs : ex_calls (snd health_run)
     = take 34 (ex_calls (snd health_run)) ++ Call (SetReady true) :: drop 35 (ex_calls (snd health_run)))
    by (vm_compute; reflexivity).
  split; [|exact Hs].
  apply (admission_opens_only_in_order agent_config true (ws_session_id session_fixture) host_env
    (agent_exec registered_journal 40) (snd health_run) (fst health_run) _ (drop 35 (ex_calls (snd health_run))) eq_refl);
    [exact (surjective_pairing health_run)|exact Hs].
Defined.

Lemma reports_are_numbered_and_replayed_witness :
  in_order (omap report_seen (ex_calls (snd health_run)))
  /\ map (fun x => hb_report_sequence x.1) (omap report_seen (ex_calls (snd health_run))) = [1; 1; 2; 3; 4; 5].
Proof.
  split; [|vm_compute; reflexivity].
  apply (reports_are_numbered_and_replayed agent_config true (ws_session_id session_fixture) host_env
    (agent_exec registered_journal 40) (snd health_run) (fst health_run) eq_refl).
  exact (surjective_pairing health_run).
Defined.

Abbreviation recovery_run := (recover_completions host_env (agent_exec completed_journal 80)).

Lemma recovery_answers_every_completion_witness :
  exists record q s, stored (wk_journal (ex_state (snd recovery_run))) attempt_fixture = Some record
    /\ rc_completion record = Some q /\ rc_completion_response record = Some s /\ reply_stops s = false.
Proof.
  assert (Hrun : fst recovery_run = Some (Ok tt)) by (vm_compute; reflexivity).
  apply (recovery_answers_every_completion attempt_file_name host_env (quiet_env_tame _ _ _) attempt_fixture
    (agent_exec completed_journal 80) (snd recovery_run)).
  - apply completed_journal_sound.
  - rewrite <- Hrun. exact (surjective_pairing recovery_run).
  - unfold completed, on_record. eexists. split; [vm_compute; reflexivity|]. by eexists.
Defined.

Definition credential : Workspaces.read_io :=
  {| rd_open := Ok tt;
     rd_meta := Ok {| is_file := true; is_dir := false; uid := 1000; mode := 33152; nlink := 1; st_size := 3 |};
     rd_euid := 1000; rd_body := Ok (str_bytes "pem") |}.

Definition opening_answers : process_io (S := Directory) :=
  {| po_root := private_root; po_journal_root := Some "/var/lib/dispatch/journal"%string;
     po_ca := credential; po_cert := credential; po_key := credential; po_soft := private_root;
     po_strict := {| in_euid := 0; in_lock := {| lk_private := at_path "/mnt" 2;
                       lk_look := ext4_look untagged empty_quota; lk_flock := Ok tt |};
                     in_layout := vf_layout verify_answers; in_create := fun _ => Ok tt; in_sync := Ok tt;
                     in_ids := Ok (jn_store journal_fixture); in_work := at_path "/mnt/work" 11;
                     in_verify := verify_answers |};
     po_entries := ∅; po_opened := Ok (jn_store journal_fixture); po_random := random_fixture |}.

Lemma opened_process_never_panics_witness :
  exists p, open_process opening_answers agent_config false = Ok p
  /\ within 3 (check_runtime agent_config (pc_saved p) false : task (Worker Directory) (effect string) _).
Proof.
  destruct (open_process opening_answers agent_config false) as [p|e] eqn:Hp.
  - exists p. split; [done|]. exact (opened_process_never_panics opening_answers agent_config false p Hp).
  - exfalso. assert (Hok : is_ok (open_process opening_answers agent_config false) = true) by (vm_compute; reflexivity).
    by rewrite Hp in Hok.
Defined.

Lemma decoded_configuration_can_register_witness :
  validate_claims (identified (claims agent_config true) attempt_fixture worker_fixture) worker_fixture = Ok tt.
Proof.
  refine (eq_trans (proj2 (proj2 (decoded_configuration_can_register (fun _ => Some raw_fixture)
    (fun _ => Some {| uri_scheme := Some "https"; uri_host := Some "control.example"; uri_path := "/" |}%string)
    (str_bytes "{}") agent_config true attempt_fixture worker_fixture _ _ _))) _); vm_compute; reflexivity.
Defined.
