(* ===== verification/SpecJob.v ===== *)
(** The submission contract of the control plane ([internal/spec/job.go]): the
    job document as Go decodes it, its validation and its canonical form, and
    the agreement of that validation with the worker's ([Execution.validate]).

    Go's [int] and [int64] are [Z]; [encoding/json] and SHA-256 are parameters;
    [path.Clean], [regexp] matching and [slices.Sort] are written out. *)

From S2P Require Import Prelude Strings Execution.
Open Scope Z_scope.

(** * The document *)

Record Metadata := {
  meta_Name : string;
  meta_Project : string;
  meta_Labels : gmap string string;
}.

Record Resources := {
  CPUMillis : Z;
  MemoryMiB : Z;
  ScratchMiB : Z;
}.

Record SpecInput := {
  Dataset : string;
  MountPath : string;
}.

Record SpecOutput := {
  output_Name : string;
  output_Path : string;
  output_Required : bool;
  output_MaxBytes : Z;
}.

Record SpecTimeouts := {
  StartupSeconds : Z;
  ExecutionSeconds : Z;
  FinalizationSeconds : Z;
}.

Record SpecRetry := {
  MaxAttempts : Z;
  On : list string;
  InitialBackoffSeconds : Z;
  MaxBackoffSeconds : Z;
}.

Record JobSpec := {
  Priority : Z;
  Image : string;
  Command : list string;
  Args : list string;
  Env : gmap string string;
  spec_Resources : Resources;
  PlacementLabels : gmap string string;
  Inputs : list SpecInput;
  spec_Outputs : list SpecOutput;
  spec_Timeouts : SpecTimeouts;
  spec_Retry : SpecRetry;
  TerminationGraceSeconds : Z;
  Network : string;
}.

Record SpecJob := {
  APIVersion : string;
  Kind : string;
  job_Metadata : Metadata;
  Spec : JobSpec;
}.

#[global] Instance Metadata_eq_dec : EqDecision Metadata.
Proof. solve_decision. Defined.
#[global] Instance Resources_eq_dec : EqDecision Resources.
Proof. solve_decision. Defined.
#[global] Instance SpecInput_eq_dec : EqDecision SpecInput.
Proof. solve_decision. Defined.
#[global] Instance SpecOutput_eq_dec : EqDecision SpecOutput.
Proof. solve_decision. Defined.
#[global] Instance SpecTimeouts_eq_dec : EqDecision SpecTimeouts.
Proof. solve_decision. Defined.
#[global] Instance SpecRetry_eq_dec : EqDecision SpecRetry.
Proof. solve_decision. Defined.
#[global] Instance JobSpec_eq_dec : EqDecision JobSpec.
Proof. solve_decision. Defined.
#[global] Instance SpecJob_eq_dec : EqDecision SpecJob.
Proof. solve_decision. Defined.

(** The error of [Validate], one per message. *)
Inductive JobProblem : Type :=
| ExpectedJob | BadName | BadMap | BadPriority | BadImage | BadCommand | BadArgument
| BadResources | BadTimeouts | BadNetwork | BadRetry | BadReason | TooMany | BadInput | BadOutput.

(** * Validation *)

(** [`^[a-zA-Z0-9][a-zA-Z0-9_.-]{0,127}$`] and [`^[a-zA-Z_][a-zA-Z0-9_]{0,127}$`]. *)
Definition name_class (b : byte) : bool :=
  is_ascii_alphanumeric b || (byte_val b =? 95)%N || (byte_val b =? 46)%N || (byte_val b =? 45)%N.

Definition namePattern (s : string) : bool :=
  match str_bytes s with
  | [] => false
  | b :: rest => is_ascii_alphanumeric b && (len rest <=? 127)%N && forallb name_class rest
  end.

Definition envPattern (s : string) : bool :=
  match str_bytes s with
  | [] => false
  | b :: rest =>
      (is_ascii_alphabetic b || (byte_val b =? 95)%N) && (len rest <=? 127)%N
      && forallb (fun c => is_ascii_alphanumeric c || (byte_val c =? 95)%N) rest
  end.

(** [pinnedImage] of [internal/store/jobs.go]: [`^[^\s@]+@sha256:[0-9a-f]{64}$`];
    [\s] is [[\t\n\f\r ]]. *)
Definition regexp_space (a : ascii) : bool :=
  bool_decide (N_of_ascii a ∈ [9; 10; 12; 13; 32]%N).

Fixpoint image_name (s : string) : option (string * string) :=
  match s with
  | EmptyString => None
  | String a s' =>
      if bool_decide (a = "@"%char) then Some (EmptyString, s')
      else if regexp_space a then None
      else match image_name s' with
           | Some (name, rest) => Some (String a name, rest)
           | None => None
           end
  end.

Definition pinnedImage (s : string) : bool :=
  match image_name s with
  | Some (name, rest) =>
      negb (is_empty_str name)
      && match strip_prefix "sha256:" rest with
         | Some hash => (str_len hash =? 64)%N && forallb hash_byte (str_bytes hash)
         | None => false
         end
  | None => false
  end.

Definition between (n low high : Z) : bool := (low <=? n) && (n <=? high).

Definition textWithin (s : string) (n : N) : bool :=
  (0 <? str_len s)%N && (str_len s <=? n)%N && negb (contains nul s).

Definition validateMap (m : gmap string string) (environment : bool) : result JobProblem unit :=
  if (128 <? base.size m)%nat then Err BadMap
  else if existsb (fun '(k, v) =>
         let valid := if environment then envPattern k && negb (starts_with "DISPATCH_" k) else namePattern k in
         negb valid || (8192 <? str_len v)%N || contains nul v) (map_to_list m)
  then Err BadMap
  else Ok tt.

(** [path.Clean]: the elements between slashes, with empty ones and [.] dropped
    and each [..] taking away the element before it; above the root there is
    nothing, and a relative path keeps its leading [..]. *)
Definition clean_step (rooted : bool) (out : list string) (part : string) : list string :=
  if bool_decide (part = EmptyString) || bool_decide (part = "."%string) then out
  else if bool_decide (part = ".."%string) then
    match reverse out with
    | last :: before =>
        if bool_decide (last = ".."%string) then out ++ [part] else reverse before
    | [] => if rooted then [] else [part]
    end
  else out ++ [part].

Definition path_Clean (p : string) : string :=
  let rooted := starts_with "/" p in
  let out := foldl (clean_step rooted) [] (split_on "/" p) in
  let body := join_with "/" out in
  if rooted then String "/" body
  else if is_empty_str body then "."%string else body.

Definition containedPath (p root : string) : bool :=
  (str_len p <=? 4096)%N && bool_decide (path_Clean p = p) && starts_with (root +:+ "/") p
  && negb (contains "\" p || contains nul p).

Definition pathOverlaps (existing : list string) (p : string) : bool :=
  existsb (fun q => bool_decide (p = q) || starts_with (q +:+ "/") p || starts_with (p +:+ "/") q) existing.

Definition Metadata_validate (m : Metadata) : result JobProblem unit :=
  if negb (namePattern (meta_Name m)) || negb (namePattern (meta_Project m)) then Err BadName
  else validateMap (meta_Labels m) false.

(** The three loops; the sets [reasons] and [names] and the slices [mounts] and
    [outputs] hold what the loop has passed. *)
Fixpoint check_reasons (reasons : list string) (on : list string) : result JobProblem unit :=
  match on with
  | [] => Ok tt
  | reason :: rest =>
      if negb (bool_decide (reason ∈ ["WORKER_LOST"; "RUNTIME_UNAVAILABLE"; "TRANSFER_FAILED"]%string))
         || bool_decide (reason ∈ reasons)
      then Err BadReason
      else check_reasons (reasons ++ [reason]) rest
  end.

Fixpoint check_inputs (mounts : list string) (inputs : list SpecInput) : result JobProblem unit :=
  match inputs with
  | [] => Ok tt
  | input :: rest =>
      if negb (namePattern (Dataset input)) || negb (containedPath (MountPath input) "/inputs")
         || pathOverlaps mounts (MountPath input)
      then Err BadInput
      else check_inputs (mounts ++ [MountPath input]) rest
  end.

Fixpoint check_outputs (names outputs : list string) (l : list SpecOutput) : result JobProblem unit :=
  match l with
  | [] => Ok tt
  | output :: rest =>
      if negb (namePattern (output_Name output)) || bool_decide (output_Name output ∈ names)
         || negb (containedPath (output_Path output) "/outputs")
         || pathOverlaps outputs (output_Path output)
         || negb (between (output_MaxBytes output) 1 (Z.shiftl 1 40))
      then Err BadOutput
      else check_outputs (names ++ [output_Name output]) (outputs ++ [output_Path output]) rest
  end.

Definition Validate (j : SpecJob) : result JobProblem unit :=
  if negb (bool_decide (APIVersion j = "dispatch.dev/v1alpha1"%string))
     || negb (bool_decide (Kind j = "Job"%string)) then Err ExpectedJob
  else let? _ := Metadata_validate (job_Metadata j) in
  let s := Spec j in
  if (Priority s <? 0) || (3 <? Priority s) then Err BadPriority
  else if negb (textWithin (Image s) 1024)
       || existsb (fun c => contains c (Image s)) [" "; "009"; "013"; "010"]%char then Err BadImage
  else if bool_decide (Command s = []) || (256 <? len (Command s) + len (Args s))%N
       || first_empty (Command s) then Err BadCommand
  else if existsb (fun a => (8192 <? str_len a)%N || contains nul a) (Command s ++ Args s) then Err BadArgument
  else let? _ := validateMap (Env s) true in
  let? _ := validateMap (PlacementLabels s) false in
  if negb (between (CPUMillis (spec_Resources s)) 1 1024000)
     || negb (between (MemoryMiB (spec_Resources s)) 1 16777216)
     || negb (between (ScratchMiB (spec_Resources s)) 1 1073741824) then Err BadResources
  else if negb (between (StartupSeconds (spec_Timeouts s)) 1 3600)
       || negb (between (ExecutionSeconds (spec_Timeouts s)) 1 604800)
       || negb (between (FinalizationSeconds (spec_Timeouts s)) 1 3600)
       || negb (between (TerminationGraceSeconds s) 0 300) then Err BadTimeouts
  else if negb (bool_decide (Network s = "disabled"%string)) then Err BadNetwork
  else if (MaxAttempts (spec_Retry s) <? 1) || (10 <? MaxAttempts (spec_Retry s))
       || negb (between (InitialBackoffSeconds (spec_Retry s)) 1 3600)
       || negb (between (MaxBackoffSeconds (spec_Retry s)) (InitialBackoffSeconds (spec_Retry s)) 3600)
  then Err BadRetry
  else let? _ := check_reasons [] (On (spec_Retry s)) in
  if (64 <? len (Inputs s))%N || (64 <? len (spec_Outputs s))%N then Err TooMany
  else let? _ := check_inputs [] (Inputs s) in
  check_outputs [] [] (spec_Outputs s).

(** * The canonical form *)

Definition with_On (on : list string) (j : SpecJob) : SpecJob :=
  let s := Spec j in
  let r := spec_Retry s in
  {| APIVersion := APIVersion j; Kind := Kind j; job_Metadata := job_Metadata j;
     Spec := {| Priority := Priority s; Image := Image s; Command := Command s; Args := Args s;
                Env := Env s; spec_Resources := spec_Resources s; PlacementLabels := PlacementLabels s;
                Inputs := Inputs s; spec_Outputs := spec_Outputs s; spec_Timeouts := spec_Timeouts s;
                spec_Retry := {| MaxAttempts := MaxAttempts r; On := on;
                                 InitialBackoffSeconds := InitialBackoffSeconds r;
                                 MaxBackoffSeconds := MaxBackoffSeconds r |};
                TerminationGraceSeconds := TerminationGraceSeconds s; Network := Network s |} |}.

Section Canonical.
Context (marshal_job : SpecJob -> bytes) (sha256 : bytes -> bytes).

Definition Canonical (j : SpecJob) : result JobProblem (bytes * string) :=
  let? _ := Validate j in
  let b := marshal_job (with_On (sort_by str_leb (On (spec_Retry (Spec j)))) j) in
  Ok (b, hex (sha256 b)).

End Canonical.

(** The document the worker's structs hold after decoding the same JSON. *)
Definition worker_input (i : SpecInput) : Input := {| in_dataset := Dataset i; in_mount_path := MountPath i |}.

Definition worker_output (o : SpecOutput) : Output :=
  {| out_name := output_Name o; out_path := output_Path o; out_required := output_Required o;
     out_max_bytes := Z.to_N (output_MaxBytes o) |}.

Definition worker_job (j : SpecJob) : Job :=
  let s := Spec j in
  {| job_api_version := APIVersion j;
     job_kind := Kind j;
     job_metadata := {| md_name := meta_Name (job_Metadata j); md_project := meta_Project (job_Metadata j);
                        md_labels := meta_Labels (job_Metadata j) |};
     job_spec :=
       {| js_priority := Z.to_N (Priority s);
          js_image := Image s;
          js_command := Command s;
          js_args := Args s;
          js_env := Env s;
          js_resources := {| jr_cpu_millis := Z.to_N (CPUMillis (spec_Resources s));
                             jr_memory_mib := Z.to_N (MemoryMiB (spec_Resources s));
                             jr_scratch_mib := Z.to_N (ScratchMiB (spec_Resources s)) |};
          js_placement := {| pl_labels := PlacementLabels s |};
          js_inputs := worker_input <$> Inputs s;
          js_outputs := worker_output <$> spec_Outputs s;
          js_timeouts := {| to_startup_seconds := Z.to_N (StartupSeconds (spec_Timeouts s));
                            to_execution_seconds := Z.to_N (ExecutionSeconds (spec_Timeouts s));
                            to_finalization_seconds := Z.to_N (FinalizationSeconds (spec_Timeouts s)) |};
          js_retry := {| re_max_attempts := Z.to_N (MaxAttempts (spec_Retry s));
                         re_on := On (spec_Retry s);
                         re_initial_backoff_seconds := Z.to_N (InitialBackoffSeconds (spec_Retry s));
                         re_max_backoff_seconds := Z.to_N (MaxBackoffSeconds (spec_Retry s)) |};
          js_termination_grace_seconds := Z.to_N (TerminationGraceSeconds s);
          js_network := Network s |} |}.

(** * Names *)

Lemma name_class_ident (b : byte) : name_class b = ident_byte b.
Proof. by destruct b. Qed.

Lemma name_class_forall (l : bytes) : forallb name_class l = forallb ident_byte l.
Proof. induction l as [|b l IH]; [done|]. cbn [forallb]. by rewrite IH, name_class_ident. Qed.

Lemma alnum_name (b : byte) : is_ascii_alphanumeric b = true -> name_class b = true.
Proof. unfold name_class. by intros ->. Qed.

Lemma str_len_bytes (s : string) : str_len s = len (str_bytes s).
Proof.
  unfold str_len, len, str_bytes. f_equal. induction s as [|a s IH]; [done|].
  cbn [String.length list_byte_of_string List.length]. by rewrite IH.
Qed.

Lemma namePattern_identifier (s : string) : namePattern s = identifier s false.
Proof.
  unfold namePattern, identifier. rewrite str_len_bytes. destruct s as [|a s]; [done|].
  unfold is_empty_str. rewrite bool_decide_false by done.
  change (str_bytes (String a s)) with (byte_of_ascii a :: str_bytes s).
  unfold len. cbn [List.length forallb orb].
  destruct (is_ascii_alphanumeric (byte_of_ascii a)) eqn:Ha; cbn [andb]; [|by destruct (_ <? _)%N].
  rewrite <-name_class_ident, (alnum_name _ Ha). cbn [andb].
  rewrite name_class_forall.
  destruct (N.leb_spec (N.of_nat (List.length (str_bytes s))) 127),
    (N.ltb_spec 128 (N.of_nat (S (List.length (str_bytes s))))); (lia || done).
Qed.

Lemma envPattern_identifier (s : string) :
  envPattern s && negb (starts_with "DISPATCH_" s) = identifier s true.
Proof.
  unfold envPattern, identifier. rewrite str_len_bytes. destruct s as [|a s]; [done|].
  unfold is_empty_str. rewrite bool_decide_false by done.
  change (str_bytes (String a s)) with (byte_of_ascii a :: str_bytes s).
  unfold len. cbn [List.length forallb orb].
  set (b := byte_of_ascii a). change (fun c => _ || _) with env_byte.
  destruct (is_ascii_alphabetic b || (byte_val b =? 95)%N) eqn:Ha; cbn [andb]; [|by destruct (_ <? _)%N].
  assert (env_byte b = true) as -> by (revert Ha; clearbody b; clear; by destruct b).
  cbn [andb]. destruct (N.leb_spec (N.of_nat (List.length (str_bytes s))) 127),
    (N.ltb_spec 128 (N.of_nat (S (List.length (str_bytes s))))); (lia || done).
Qed.

Lemma validateMap_valid_map (m : gmap string string) (environment : bool) :
  validateMap m environment = Ok tt <-> valid_map m environment = true.
Proof.
  unfold validateMap, valid_map. rewrite andb_true_iff, N.leb_le.
  destruct (Nat.ltb_spec 128 (base.size m)) as [Hs|Hs]; [split; [done|lia]|].
  transitivity (existsb (fun '(k, v) =>
    negb (if environment then envPattern k && negb (starts_with "DISPATCH_" k) else namePattern k)
    || (8192 <? str_len v)%N || contains nul v) (map_to_list m) = false).
  { by destruct (existsb _ _). }
  rewrite <-not_true_iff_false, existsb_exists, forallb_forall. split.
  - intros Hno. split; [lia|]. intros [k v] Hin. destruct (identifier k environment) eqn:Hk.
    + destruct (N.leb_spec (str_len v) 8192), (contains nul v) eqn:Hv; try done; exfalso; apply Hno;
        exists (k, v); split; try done; rewrite ?Hv; bools; auto.
      all: left; right; by apply N.ltb_lt.
    + exfalso. apply Hno. exists (k, v). split; [done|].
      destruct environment; rewrite ?envPattern_identifier, ?namePattern_identifier, Hk; done.
  - intros [_ Hall] ([k v] & Hin & Hbad). specialize (Hall _ Hin). cbn in Hall. bools.
    destruct Hall as [[Hk Hv] Hn].
    destruct environment; rewrite ?envPattern_identifier, ?namePattern_identifier, Hk in Hbad;
      cbn [negb orb] in Hbad; rewrite Hn in Hbad; bools; destruct Hbad; (lia || done).
Qed.

(** * Paths *)

Definition plain_part (p : string) : Prop := normal_part p = true /\ contains "/" p = false.

Lemma split_on_plain_parts (c : ascii) (s : string) :
  Forall (fun p => contains c p = false) (split_on c s).
Proof.
  induction s as [|a s IH]; cbn [split_on]; [by repeat constructor|].
  case_bool_decide as Ha; [by constructor|].
  destruct (split_on c s) as [|p ps]; inversion IH; subst; constructor; try done;
    cbn [contains]; rewrite bool_decide_false by done; done.
Qed.

Lemma clean_step_plain (out : list string) (part : string) :
  Forall plain_part out -> contains "/" part = false ->
  Forall plain_part (clean_step true out part)
  /\ (normal_part part = true -> clean_step true out part = out ++ [part]).
Proof.
  intros Hout Hpart. unfold clean_step, normal_part.
  destruct (decide (part = EmptyString)) as [->|H1]; [done|].
  destruct (decide (part = "."%string)) as [->|H2]; [done|].
  rewrite !bool_decide_false by done. cbn [orb].
  destruct (decide (part = ".."%string)) as [->|H3].
  - split; [|done]. rewrite bool_decide_true by done.
    destruct (reverse out) as [|last before] eqn:Hrev; [done|].
    apply Forall_reverse in Hout. rewrite Hrev in Hout. apply Forall_cons in Hout as [[Hlast _] Hbefore].
    rewrite bool_decide_false by (by intros ->). by apply Forall_reverse.
  - rewrite bool_decide_false by done. split; [|done].
    apply Forall_app. split; [done|]. repeat constructor; [|done].
    unfold normal_part. rewrite bool_decide_false; [done|]. set_solver.
Qed.

Lemma foldl_clean_plain (parts out : list string) :
  Forall plain_part out -> Forall (fun p => contains "/" p = false) parts ->
  Forall plain_part (foldl (clean_step true) out parts)
  /\ (forallb normal_part parts = true -> foldl (clean_step true) out parts = out ++ parts).
Proof.
  revert out. induction parts as [|p parts IH]; intros out Hout Hparts; cbn [foldl forallb].
  { by rewrite app_nil_r. }
  apply Forall_cons in Hparts as [Hp Hparts].
  destruct (clean_step_plain out p Hout Hp) as [Hs Hn]. destruct (IH _ Hs Hparts) as [IH1 IH2].
  split; [done|]. intros [Hnp Hnps]%andb_true_iff. rewrite IH2, Hn by done. by rewrite <-app_assoc.
Qed.

Lemma path_Clean_rooted (rest : string) :
  rest <> EmptyString ->
  path_Clean (String "/" rest) = String "/" rest <-> forallb normal_part (split_on "/" rest) = true.
Proof.
  intros Hne. unfold path_Clean. change (starts_with "/" (String "/" rest)) with true. cbn iota zeta.
  change (split_on "/" (String "/" rest)) with (EmptyString :: split_on "/" rest). cbn [foldl].
  change (clean_step true [] EmptyString) with (@nil string).
  destruct (foldl_clean_plain (split_on "/" rest) []) as [Hplain Hall];
    [constructor|apply split_on_plain_parts|]. split.
  - intros [= Hj]. set (out := foldl _ _ _) in *.
    assert (out <> []) by (intros Ho; rewrite Ho in Hj; cbn in Hj; congruence).
    rewrite <-Hj, split_join; [|done|by eapply Forall_impl; [apply Hplain|intros p [_ Hp]]].
    clearbody out. clear -Hplain. induction Hplain as [|p ps [Hp _] _ IH]; [done|].
    cbn [forallb]. by rewrite Hp, IH.
  - intros Hn. by rewrite Hall, app_nil_l, join_split.
Qed.

Lemma starts_with_app (p s : string) : starts_with p s = true <-> exists rest, s = p +:+ rest.
Proof.
  unfold starts_with. destruct (strip_prefix p s) as [rest|] eqn:E.
  - apply strip_prefix_Some in E. naive_solver.
  - split; [done|]. intros [rest H]. apply strip_prefix_Some in H. congruence.
Qed.

Lemma containedPath_path_under (dir p : string) :
  containedPath p (String "/" dir) = path_under (String "/" dir +:+ "/") p.
Proof.
  unfold containedPath, path_under.
  destruct (starts_with (String "/" dir +:+ "/") p) eqn:Hs; [|by rewrite !andb_false_r].
  apply starts_with_app in Hs as [rest Hp].
  assert (exists r, p = String "/" r /\ r <> EmptyString) as (r & -> & Hr).
  { cbn in Hp. eexists. split; [exact Hp|]. by destruct dir. }
  cbn [rest_of]. rewrite !andb_true_r. pose proof (path_Clean_rooted r Hr) as Hc.
  destruct (forallb normal_part (split_on "/" r)).
  - rewrite bool_decide_true by (by apply Hc). by rewrite !andb_true_r.
  - rewrite bool_decide_false by (rewrite Hc; done). by rewrite !andb_false_r.
Qed.

Lemma strictly_below_prefix (a b : string) : strictly_below a b = starts_with (b +:+ "/") a.
Proof.
  unfold strictly_below. apply eq_true_iff_eq. destruct (strip_prefix b a) as [rest|] eqn:E.
  - apply strip_prefix_Some in E as ->. rewrite !starts_with_app. split.
    + intros [r ->]. exists r. by rewrite append_assoc_str.
    + intros [r Hr]. exists r. rewrite append_assoc_str in Hr. by apply (inj (String.append b)) in Hr.
  - split; [done|]. intros [r ->]%starts_with_app. rewrite append_assoc_str in E.
    assert (strip_prefix b (b +:+ ("/" +:+ r)) = Some ("/" +:+ r)) by (by apply strip_prefix_Some).
    congruence.
Qed.

Lemma pathOverlaps_overlaps {A : Type} (path : A -> string) (before : list A) (p : string) :
  pathOverlaps (path <$> before) p = existsb (fun previous => overlaps (path previous) p) before.
Proof.
  unfold pathOverlaps. induction before as [|a before IH]; [done|]. cbn [fmap list_fmap existsb].
  rewrite <-IH. f_equal. unfold overlaps. rewrite !strictly_below_prefix.
  rewrite (bool_decide_ext (p = path a) (path a = p)) by done.
  by rewrite <-!orb_assoc, (orb_comm (starts_with (path a +:+ "/") p)).
Qed.

(** * The loops *)

Lemma check_reasons_each (before on : list string) :
  check_reasons before on = Ok tt <-> check_each bad_reason before on = true.
Proof.
  revert before. induction on as [|r on IH]; intros before; cbn [check_reasons check_each]; [done|].
  fold (bad_reason before r). destruct (bad_reason before r); [done|]. apply IH.
Qed.

Lemma check_inputs_each (before l : list SpecInput) :
  check_inputs (MountPath <$> before) l = Ok tt
  <-> check_each bad_input (worker_input <$> before) (worker_input <$> l) = true.
Proof.
  revert before. induction l as [|i l IH]; intros before; cbn [check_inputs check_each fmap list_fmap]; [done|].
  assert (bad_input (worker_input <$> before) (worker_input i)
    = negb (namePattern (Dataset i)) || negb (containedPath (MountPath i) "/inputs")
      || pathOverlaps (MountPath <$> before) (MountPath i)) as ->.
  { unfold bad_input, input_path. cbn [in_dataset in_mount_path worker_input].
    rewrite <-namePattern_identifier, (containedPath_path_under "inputs").
    rewrite pathOverlaps_overlaps. f_equal. clear. induction before as [|b before IH]; [done|].
    cbn [fmap list_fmap existsb]. by rewrite <-IH. }
  destruct (_ || _); [done|]. cbn [negb andb]. specialize (IH (before ++ [i])).
  by rewrite !fmap_app in IH.
Qed.

Lemma between_in_range (n lo hi : Z) :
  1 <= lo -> 1 <= hi -> between n lo hi = in_range (Z.to_N lo) (Z.to_N hi) (Z.to_N n).
Proof.
  intros. unfold between, in_range. apply eq_true_iff_eq. rewrite !andb_true_iff, !Z.leb_le, !N.leb_le. lia.
Qed.

Lemma existsb_outputs (before : list SpecOutput) (o : SpecOutput) :
  existsb (fun previous => bool_decide (out_name previous = out_name (worker_output o))
             || overlaps (out_path previous) (out_path (worker_output o))) (worker_output <$> before)
  = bool_decide (output_Name o ∈ output_Name <$> before) || pathOverlaps (output_Path <$> before) (output_Path o).
Proof.
  rewrite pathOverlaps_overlaps. induction before as [|b before IH]; cbn [fmap list_fmap existsb]; [done|].
  rewrite IH. cbn [out_name out_path worker_output].
  rewrite (bool_decide_ext (output_Name o ∈ output_Name b :: (output_Name <$> before))
    (output_Name b = output_Name o \/ output_Name o ∈ output_Name <$> before)) by set_solver.
  rewrite bool_decide_or. set (x := bool_decide _). set (y := overlaps _ _). set (z := bool_decide _).
  by destruct x, y, z.
Qed.

Lemma check_outputs_each (before l : list SpecOutput) :
  check_outputs (output_Name <$> before) (output_Path <$> before) l = Ok tt
  <-> check_each bad_output (worker_output <$> before) (worker_output <$> l) = true.
Proof.
  revert before. induction l as [|o l IH]; intros before; cbn [check_outputs check_each fmap list_fmap]; [done|].
  assert (bad_output (worker_output <$> before) (worker_output o)
    = negb (namePattern (output_Name o)) || bool_decide (output_Name o ∈ output_Name <$> before)
      || negb (containedPath (output_Path o) "/outputs")
      || pathOverlaps (output_Path <$> before) (output_Path o)
      || negb (between (output_MaxBytes o) 1 (Z.shiftl 1 40))) as ->.
  { unfold bad_output, output_path. rewrite existsb_outputs. cbn [out_name out_path out_max_bytes worker_output].
    rewrite <-namePattern_identifier, (containedPath_path_under "outputs").
    change (Z.shiftl 1 40) with 1099511627776. rewrite between_in_range by lia.
    change (Z.to_N 1) with 1%N. change (Z.to_N 1099511627776) with 1099511627776%N.
    change (String "/" "outputs" +:+ "/") with "/outputs/"%string.
    set (a := namePattern _). set (b := path_under _ _). set (c := in_range _ _ _).
    set (d := bool_decide _). set (e := pathOverlaps _ _). by destruct a, b, c, d, e. }
  destruct (_ || _); [done|]. cbn [negb andb]. specialize (IH (before ++ [o])).
  by rewrite !fmap_app in IH.
Qed.

(** * Images *)

Lemma image_name_app (s name rest : string) :
  image_name s = Some (name, rest) ->
  s = name +:+ String "@" rest /\ forall c, regexp_space c = true -> contains c name = false.
Proof.
  revert name. induction s as [|a s IH]; intros name; cbn [image_name]; [done|].
  case_bool_decide as Ha; [by intros [= <- <-]; subst a|].
  destruct (regexp_space a) eqn:Hsp; [done|]. destruct (image_name s) as [[n r]|]; [|done].
  intros [= <- <-]. destruct (IH n eq_refl) as [-> Hc]. split; [done|]. intros c Hsc.
  cbn [contains]. rewrite Hc by done. rewrite bool_decide_false by congruence. done.
Qed.

Lemma hash_no_at (hash : string) : forallb hash_byte (str_bytes hash) = true -> contains "@" hash = false.
Proof. intros H. by apply (forallb_bytes_contains hash_byte). Qed.

Lemma contains_app (c : ascii) (a b : string) : contains c (a +:+ b) = contains c a || contains c b.
Proof.
  induction a as [|x a IH]; [done|]. change (String x a +:+ b) with (String x (a +:+ b)).
  cbn [contains]. by rewrite IH, orb_assoc.
Qed.

Lemma rsplit_once_none (q s : string) : contains "@" s = false -> rsplit_once (String "@" q) s = None.
Proof.
  induction s as [|a s IH]; cbn [rsplit_once strip_prefix]; [done|]. intros H. cbn in H. bools.
  destruct H as [Ha Hs]. rewrite IH by done. rewrite bool_decide_false by done. done.
Qed.

Lemma rsplit_once_last (q name rest : string) :
  contains "@" (q +:+ rest) = false ->
  rsplit_once (String "@" q) (name +:+ String "@" (q +:+ rest)) = Some (name, rest).
Proof.
  intros H. induction name as [|a name IH].
  - change (EmptyString +:+ String "@" (q +:+ rest)) with (String "@" (q +:+ rest)).
    cbn [rsplit_once strip_prefix]. rewrite rsplit_once_none by done. rewrite bool_decide_true by done.
    assert (strip_prefix q (q +:+ rest) = Some rest) as -> by (by apply strip_prefix_Some). done.
  - change (String a name +:+ String "@" (q +:+ rest)) with (String a (name +:+ String "@" (q +:+ rest))).
    cbn [rsplit_once]. by rewrite IH.
Qed.

Lemma pinnedImage_parts (s : string) :
  pinnedImage s = true ->
  exists name hash, s = name +:+ String "@" ("sha256:" +:+ hash) /\ is_empty_str name = false
    /\ (forall c, regexp_space c = true -> contains c name = false)
    /\ str_len hash = 64%N /\ forallb hash_byte (str_bytes hash) = true.
Proof.
  unfold pinnedImage. destruct (image_name s) as [[name rest]|] eqn:Hn; [|done].
  apply image_name_app in Hn as [Hn Hsp]. intros [Hne Hrest]%andb_true_iff.
  destruct (strip_prefix "sha256:" rest) as [hash|] eqn:Hh; [|done].
  apply strip_prefix_Some in Hh as ->. apply andb_true_iff in Hrest as [Hl Hb].
  exists name, hash. apply negb_true_iff in Hne. apply N.eqb_eq in Hl. done.
Qed.

Lemma pinnedImage_pinned (s : string) : pinnedImage s = true -> Execution.pinned s = true.
Proof.
  intros (name & hash & -> & Hn & _ & Hl & Hh)%pinnedImage_parts. unfold Execution.pinned.
  rewrite (rsplit_once_last "sha256:").
  - by rewrite Hn, Hl, Hh.
  - by rewrite contains_app, (hash_no_at hash Hh).
Qed.

Lemma pinnedImage_no_space (s : string) :
  pinnedImage s = true -> existsb (fun c => contains c s) [" "; "009"; "013"; "010"]%char = false.
Proof.
  intros (name & hash & -> & _ & Hsp & _ & Hh)%pinnedImage_parts.
  assert (forall c, regexp_space c = true -> contains c hash = false -> contains c "@sha256:" = false ->
    contains c (name +:+ String "@" ("sha256:" +:+ hash)) = false) as Hno.
  { intros c Hc Hch Hca. rewrite contains_app, Hsp by done.
    change (String "@" ("sha256:" +:+ hash)) with ("@sha256:" +:+ hash). by rewrite contains_app, Hca, Hch. }
  cbn [existsb]. rewrite !Hno; try done; by apply (forallb_bytes_contains hash_byte).
Qed.

(** What image resolution hands over: a pinned reference without control
    characters. *)
Definition resolved_image (s : string) : bool :=
  pinnedImage s && negb (unprintable s) && negb (contains nul s).

(** A document used by witnesses. *)
Definition example_job : SpecJob :=
  {| APIVersion := "dispatch.dev/v1alpha1"; Kind := "Job";
     job_Metadata := {| meta_Name := "train"; meta_Project := "vision"; meta_Labels := {["owner" := "ada"]} |};
     Spec :=
       {| Priority := 1;
          Image := "registry.example/train@sha256:00112233445566778899aabbccddeeff00112233445566778899aabbccddeeff";
          Command := ["/bin/train"]; Args := ["--epochs"; "3"]; Env := {["SEED" := "7"]};
          spec_Resources := {| CPUMillis := 2000; MemoryMiB := 4096; ScratchMiB := 1024 |};
          PlacementLabels := ∅;
          Inputs := [{| Dataset := "images"; MountPath := "/inputs/images" |}];
          spec_Outputs := [{| output_Name := "model"; output_Path := "/outputs/model"; output_Required := true;
                              output_MaxBytes := 1048576 |}];
          spec_Timeouts := {| StartupSeconds := 600; ExecutionSeconds := 3600; FinalizationSeconds := 600 |};
          spec_Retry := {| MaxAttempts := 3; On := ["WORKER_LOST"]; InitialBackoffSeconds := 10;
                           MaxBackoffSeconds := 60 |};
          TerminationGraceSeconds := 10; Network := "disabled" |} |}%string.

(** A chain of guards succeeds when every guard does. *)
Lemma guard_iff {E : Type} (b : bool) (e : E) (k : result E unit) :
  (if b then Err e else k) = Ok tt <-> b = false /\ k = Ok tt.
Proof. destruct b; naive_solver. Qed.

Lemma then_iff {E : Type} (m k : result E unit) :
  (let? _ := m in k) = Ok tt <-> m = Ok tt /\ k = Ok tt.
Proof. destruct m as [[]|]; naive_solver. Qed.

Lemma between_negb (n lo hi : Z) : negb (between n lo hi) = false <-> lo <= n <= hi.
Proof. unfold between. rewrite negb_false_iff, andb_true_iff, !Z.leb_le. lia. Qed.

Lemma in_range_negb (n lo hi : N) : negb (in_range lo hi n) = false <-> (lo <= n <= hi)%N.
Proof. unfold in_range. rewrite negb_false_iff, andb_true_iff, !N.leb_le. lia. Qed.

Lemma textWithin_resolved (s : string) :
  resolved_image s = true ->
  negb (textWithin s 1024) || existsb (fun c => contains c s) [" "; "009"; "013"; "010"]%char = false
  <-> (1024 <? str_len s)%N = false.
Proof.
  unfold resolved_image. rewrite !andb_true_iff, !negb_true_iff. intros [[Hp _] Hn].
  rewrite pinnedImage_no_space, orb_false_r by done. unfold textWithin. rewrite Hn.
  assert (0 < str_len s)%N.
  { apply pinnedImage_parts in Hp as (name & hash & -> & Hne & _). destruct name as [|c name]; [done|].
    change (String c name +:+ ?t) with (String c (name +:+ t)). unfold str_len. cbn [String.length]. lia. }
  rewrite negb_false_iff, !andb_true_iff, N.ltb_lt, N.leb_le, N.ltb_ge. naive_solver.
Qed.

(** C12: the control plane and the worker agree on which jobs are well formed.
    For a resolved image, and numbers the worker's unsigned fields can hold, Go's
    [Validate] accepts a document exactly when the worker's [validate] accepts
    it: what is admitted to the queue is never refused by the worker it reaches,
    and the worker accepts nothing the control plane would refuse. *)
Theorem admission_agrees_with_worker (j : SpecJob) :
  resolved_image (Image (Spec j)) = true ->
  0 <= Priority (Spec j) -> 0 <= TerminationGraceSeconds (Spec j) ->
  Validate j = Ok tt <-> Execution.validate (worker_job j) = Ok tt.
Proof.
  intros Himg Hpri Hgrace. pose proof (textWithin_resolved _ Himg) as Htext.
  unfold resolved_image in Himg. rewrite !andb_true_iff, !negb_true_iff in Himg. destruct Himg as [[Hpin Hun] _].
  apply pinnedImage_pinned in Hpin.
  unfold Validate, Metadata_validate, Execution.validate, worker_job.
  cbn [job_api_version job_kind job_metadata job_spec md_name md_project md_labels js_priority js_image
    js_command js_args js_env js_resources js_placement js_inputs js_outputs js_timeouts js_retry
    js_termination_grace_seconds js_network jr_cpu_millis jr_memory_mib jr_scratch_mib pl_labels
    to_startup_seconds to_execution_seconds to_finalization_seconds re_max_attempts re_on
    re_initial_backoff_seconds re_max_backoff_seconds].
  rewrite Hpin, Hun.
  repeat (rewrite guard_iff || rewrite then_iff).
  rewrite Htext, check_reasons_each, (check_inputs_each []), (check_outputs_each []), !validateMap_valid_map.
  rewrite !orb_false_iff, !between_negb, !in_range_negb, !namePattern_identifier, !negb_false_iff.
  rewrite !N.ltb_ge, !Z.ltb_ge. unfold len. rewrite !length_fmap.
  fold bad_argument. split; intros; destruct_and!; split_and!; (done || lia).
Qed.

Lemma admission_agrees_with_worker_witness :
  Validate example_job = Ok tt <-> Execution.validate (worker_job example_job) = Ok tt.
Proof. apply admission_agrees_with_worker; vm_compute; done. Defined.
