(* ===== verification/Store.v ===== *)
(** The database of the control plane ([migrations/*.up.sql]) and the
    transactions over it ([internal/store]): the rows, the tables, the values
    requests carry, and what a transaction is.

    A table is a finite map from its primary key.  A [timestamptz] is [Z],
    nanoseconds since 1970; a JSON column is the value it decodes to.  A
    transaction body is a function of the database; its statements see what the
    earlier ones wrote, and nothing is applied unless it commits.  Row locks and
    the cluster lock make transactions on the same rows take effect one after
    the other, so a run of the control plane is a sequence of transactions.

    What the schema checks beyond primary keys (unique indexes, foreign keys,
    [CHECK]s, triggers) is not part of the transactions: [StoreFacts] shows that
    none of the checks on ownership could fail. *)

From S2P Require Import Prelude Strings Protocol Control Execution SpecJob.
Open Scope Z_scope.

Definition second : Z := 1000000000.
Definition millisecond : Z := 1000000.

(** The zero [time.Time], 1 January of the year 1. *)
Definition zero_time : Z := -62135596800 * second.

Definition InitialLease : Z := 30 * second.
Definition WorkerSuspectAfter : Z := 15 * second.
Definition SessionInactivity : Z := 30 * second.
Definition MaxLeaseRenewalBatch : N := 64.
Definition MaxReapBatch : Z := 64.

(** * States *)

Inductive JobState : Type :=
| J_QUEUED | J_ACTIVE | J_RETRY_WAIT | J_CANCELLING | J_SUCCEEDED | J_FAILED | J_CANCELLED.

Inductive WorkerState : Type :=
| W_REGISTERING | W_READY | W_DRAINING | W_SUSPECT | W_OFFLINE | W_QUARANTINED.

Inductive ReservationState : Type := R_active | R_released | R_quarantined.

#[global] Instance JobState_eq_dec : EqDecision JobState.
Proof. solve_decision. Defined.
#[global] Instance WorkerState_eq_dec : EqDecision WorkerState.
Proof. solve_decision. Defined.
#[global] Instance ReservationState_eq_dec : EqDecision ReservationState.
Proof. solve_decision. Defined.

(** [state IN ('ASSIGNED','STARTING','RUNNING','FINALIZING')], and the job
    states that own an attempt, wait in the queue, or are final. *)
Definition active (s : AttemptState.t) : bool :=
  match s with
  | AttemptState.Assigned | AttemptState.Starting | AttemptState.Running | AttemptState.Finalizing => true
  | _ => false
  end.

Definition owning (s : JobState) : bool :=
  match s with J_ACTIVE | J_CANCELLING => true | _ => false end.

Definition queued (s : JobState) : bool :=
  match s with J_QUEUED | J_RETRY_WAIT => true | _ => false end.

Definition final (s : JobState) : bool :=
  match s with J_SUCCEEDED | J_FAILED | J_CANCELLED => true | _ => false end.

#[global] Arguments active : simpl never.
#[global] Arguments owning : simpl never.
#[global] Arguments queued : simpl never.
#[global] Arguments final : simpl never.

(** * Errors *)

Inductive StoreError : Type :=
| ErrConflict | ErrNotFound | ErrQuota | ErrDisabled | ErrInvalid | ErrUnauthorized
| ErrSessionActive | ErrFenced | ErrStaleHeartbeat
| ErrNoRows        (** [pgx.ErrNoRows] passed on *)
| ErrUnique        (** a primary key is taken, SQLSTATE 23505 *)
| ErrReservation   (** [active attempt lacks active reservation] *)
| ErrDatabase.     (** a statement or the commit failed *)

#[global] Instance StoreError_eq_dec : EqDecision StoreError.
Proof. solve_decision. Defined.

(** * Authorities *)

Record Authority := {
  JobID : string;
  AttemptID : string;
  Generation : Z;
  WorkerID : string;
  SessionID : string;
}.

#[global] Instance Authority_eq_dec : EqDecision Authority.
Proof. solve_decision. Defined.

Record WorkerIdentity := { identity_WorkerID : string; identity_CredentialID : string }.

(** The zero value, what a Go map gives for a missing key. *)
Definition no_authority : Authority :=
  {| JobID := EmptyString; AttemptID := EmptyString; Generation := 0; WorkerID := EmptyString;
     SessionID := EmptyString |}.

Record LeaseGrant := {
  grant_Authority : Authority;
  grant_Decision : Decision_.t;
  grant_LeaseExpiresAt : Z;
  grant_PhaseDeadline : Z;
  grant_ServerTime : Z;
}.

(** * Rows *)

Record ProjectRow := {
  pj_name : string;
  pj_cpu_quota : Z;
  pj_memory_quota : Z;
  pj_concurrency_quota : Z;
  pj_enabled : bool;
}.

Record WorkerRow := {
  wk_state : WorkerState;
  wk_labels : gmap string string;
  wk_capabilities : gmap string bool;
  wk_resources : Resources;
  wk_slots : Z;
  wk_current : option string;
  wk_drain : bool;
  wk_heartbeat : option Z;
  wk_reconciled : bool;
  wk_healthy : bool;
  wk_pressure : bool;
}.

Record AuthorizationRow := {
  au_limit : Resources;
  au_slots : Z;
  au_labels : gmap string string;
}.

Record SessionRow := {
  se_worker : string;
  se_generation : Z;
  se_created : Z;
  se_fenced : option Z;
  se_hash : option string;
  se_sequence : Z;
  se_request : option string;
  se_report_hash : option string;
}.

Record JobRow := {
  jb_project : string;
  jb_spec : SpecJob;
  jb_spec_hash : string;
  jb_state : JobState;
  jb_resources : Resources;
  jb_priority : Z;
  jb_eligible : Z;
  jb_counter : Z;
  jb_current : option string;
  jb_cancel : bool;
  jb_accepted : option string;
  jb_manifest : option bytes;
  jb_events : Z;
  jb_created : Z;
  jb_sweep : option string;
}.

(** [generation = attempt_number] by a [CHECK] of the table: one column. *)
Record AttemptRow := {
  at_job : string;
  at_number : Z;
  at_worker : string;
  at_session : string;
  at_state : AttemptState.t;
  at_lease : Z;
  at_phase : Z;
  at_exit : option Z;
  at_reason : option string;
  at_completion : option string;
  at_digest : option string;
  at_cleanup : bool;
  at_created : Z;
  at_finished : option Z;
  at_container : option string;
}.

Record ReservationRow := {
  rv_worker : string;
  rv_resources : Resources;
  rv_state : ReservationState;
}.

Record CompletionRow := {
  co_job : string;
  co_worker : string;
  co_session : string;
  co_generation : Z;
  co_id : string;
  co_digest : string;
  co_state : AttemptState.t;
  co_manifest : bytes;
}.

Record SweepRow := {
  sw_max_concurrent : Z;
  sw_fail_fast : bool;
  sw_cancel_running : bool;
}.

(** [worker_takeovers], keyed by the worker and the session taken over. *)
Record TakeoverRow := { tk_to : string; tk_used : option Z }.

Record CredentialRow := { cr_worker : string; cr_revoked : bool }.

Record TokenRow := { to_project : string; to_operator : bool; to_revoked : bool }.

Record RequestRow := {
  rq_hash : string;
  rq_attempt : option string;
  rq_reason : option string;
}.

Record LeaseRequestRow := { lq_hash : string; lq_results : list LeaseGrant }.

Record BlockerRow := {
  bl_id : Z;
  bl_worker : string;
  bl_session : string;
  bl_request : string;
  bl_counter : Z;
  bl_reason : string;
  bl_observed : Z;
}.

Record DatasetFile := { file_Path : string; file_SizeBytes : Z; file_SHA256 : string }.
Record DatasetManifest := { Format : string; Files : list DatasetFile }.

(** [datasets] joined with its [dataset_uploads] row. *)
Record DatasetRow := {
  ds_project : string;
  ds_name : string;
  ds_key : string;
  ds_version : string;
  ds_size : Z;
  ds_sha256 : string;
  ds_manifest : DatasetManifest;
}.

Record JobInputRow := { ji_project : string; ji_dataset : string; ji_mount : string }.

(** [artifact_uploads], [artifacts] and [log_segments]. *)
Record UploadRow := {
  up_attempt : string;
  up_name : string;
  up_kind : ArtifactKind.t;
  up_key : string;
  up_size : Z;
  up_sha256 : string;
}.

Record ArtifactRow := { ar_upload : string; ar_version : string }.

Record SegmentRow := {
  sg_attempt : string;
  sg_stream : string;
  sg_first : Z;
  sg_artifact : string;
  sg_upload : string;
  sg_gaps : list (Z * Z);
}.

Inductive JobEvent : Type :=
| SUBMITTED (hash : string)
| ASSIGNED (attempt worker session : string) (generation : Z)
| PHASE_CHANGED (attempt : string) (from to : AttemptState.t) (deadline : Z) (container : string)
    (exit : option Z)
| ATTEMPT_ENDED (attempt : string) (state : AttemptState.t) (reason : string) (next : JobState)
    (eligible : Z)
| ATTEMPT_COMPLETED (attempt completion : string) (state : AttemptState.t) (next : JobState)
    (reason : string) (cleanup : bool) (eligible : Z)
| CANCEL_REQUESTED (previous next : JobState)
| SWEEP_FAIL_FAST (sweep failed : string) (previous next : JobState).

(** * Tables

    Those that record who owns what; those that make requests repeatable; those
    other parts of the control plane fill; and the trail of events. *)

Record Core := {
  jobs : gmap string JobRow;
  attempts : gmap string AttemptRow;
  reservations : gmap string ReservationRow;
  completions : gmap string CompletionRow;
  sessions : gmap string SessionRow;
  workers : gmap string WorkerRow;
  takeovers : gmap (string * string) TakeoverRow;
}.

Record Replay := {
  worker_requests : gmap (string * string * string) RequestRow;
  lease_requests : gmap (string * string * string) LeaseRequestRow;
  phase_reports : gmap (string * string * string) string;
  registrations : gmap (string * string) (string * string);
  idempotency_keys : gmap (string * string) (string * string);
}.

Record Catalog := {
  projects : gmap string ProjectRow;
  sweeps : gmap string SweepRow;
  authorizations : gmap string AuthorizationRow;
  credentials : gmap string CredentialRow;
  worker_projects : gset (string * string);
  tokens : gmap string TokenRow;
  datasets : gmap string DatasetRow;
  job_inputs : gmap (string * Z) JobInputRow;
  uploads : gmap string UploadRow;
  artifacts : gmap string ArtifactRow;
  segments : gmap string SegmentRow;
}.

Record Trail := {
  job_events : gmap (string * Z) JobEvent;
  completion_artifacts : gmap (string * string) (string * string * ArtifactKind.t);
  worker_audit : list (string * string);
  audit : list (string * string);
  blockers : gmap (string * Z) BlockerRow;
  blocker_sequence : Z;
  cursor : option (option string);
}.

Record Db := {
  core : Core;
  replay : Replay;
  catalog : Catalog;
  trail : Trail;
}.

Definition set_jobs (f : gmap string JobRow -> gmap string JobRow) (c : Core) : Core :=
  {| jobs := f (jobs c); attempts := attempts c; reservations := reservations c;
     completions := completions c; sessions := sessions c; workers := workers c; takeovers := takeovers c |}.

Definition set_attempts (f : gmap string AttemptRow -> gmap string AttemptRow) (c : Core) : Core :=
  {| jobs := jobs c; attempts := f (attempts c); reservations := reservations c;
     completions := completions c; sessions := sessions c; workers := workers c; takeovers := takeovers c |}.

Definition set_reservations (f : gmap string ReservationRow -> gmap string ReservationRow) (c : Core) : Core :=
  {| jobs := jobs c; attempts := attempts c; reservations := f (reservations c);
     completions := completions c; sessions := sessions c; workers := workers c; takeovers := takeovers c |}.

Definition set_completions (f : gmap string CompletionRow -> gmap string CompletionRow) (c : Core) : Core :=
  {| jobs := jobs c; attempts := attempts c; reservations := reservations c;
     completions := f (completions c); sessions := sessions c; workers := workers c;
     takeovers := takeovers c |}.

Definition set_sessions (f : gmap string SessionRow -> gmap string SessionRow) (c : Core) : Core :=
  {| jobs := jobs c; attempts := attempts c; reservations := reservations c; completions := completions c;
     sessions := f (sessions c); workers := workers c; takeovers := takeovers c |}.

Definition set_workers (f : gmap string WorkerRow -> gmap string WorkerRow) (c : Core) : Core :=
  {| jobs := jobs c; attempts := attempts c; reservations := reservations c; completions := completions c;
     sessions := sessions c; workers := f (workers c); takeovers := takeovers c |}.

Definition set_takeovers (f : gmap (string * string) TakeoverRow -> gmap (string * string) TakeoverRow) (c : Core) : Core :=
  {| jobs := jobs c; attempts := attempts c; reservations := reservations c; completions := completions c;
     sessions := sessions c; workers := workers c; takeovers := f (takeovers c) |}.

Definition on_worker_requests (f : gmap (string * string * string) RequestRow -> gmap (string * string * string) RequestRow) (db : Db) : Db :=
  {| core := core db; replay := {| worker_requests := f (worker_requests (replay db));
     lease_requests := lease_requests (replay db); phase_reports := phase_reports (replay db);
     registrations := registrations (replay db); idempotency_keys := idempotency_keys (replay db) |};
     catalog := catalog db; trail := trail db |}.

Definition on_lease_requests (f : gmap (string * string * string) LeaseRequestRow -> gmap (string * string * string) LeaseRequestRow) (db : Db) : Db :=
  {| core := core db; replay := {| worker_requests := worker_requests (replay db);
     lease_requests := f (lease_requests (replay db)); phase_reports := phase_reports (replay db);
     registrations := registrations (replay db); idempotency_keys := idempotency_keys (replay db) |};
     catalog := catalog db; trail := trail db |}.

Definition on_phase_reports (f : gmap (string * string * string) string -> gmap (string * string * string) string) (db : Db) : Db :=
  {| core := core db; replay := {| worker_requests := worker_requests (replay db);
     lease_requests := lease_requests (replay db); phase_reports := f (phase_reports (replay db));
     registrations := registrations (replay db); idempotency_keys := idempotency_keys (replay db) |};
     catalog := catalog db; trail := trail db |}.

Definition on_registrations (f : gmap (string * string) (string * string) -> gmap (string * string) (string * string)) (db : Db) : Db :=
  {| core := core db; replay := {| worker_requests := worker_requests (replay db);
     lease_requests := lease_requests (replay db); phase_reports := phase_reports (replay db);
     registrations := f (registrations (replay db)); idempotency_keys := idempotency_keys (replay db) |};
     catalog := catalog db; trail := trail db |}.

Definition on_idempotency_keys (f : gmap (string * string) (string * string) -> gmap (string * string) (string * string)) (db : Db) : Db :=
  {| core := core db; replay := {| worker_requests := worker_requests (replay db);
     lease_requests := lease_requests (replay db); phase_reports := phase_reports (replay db);
     registrations := registrations (replay db); idempotency_keys := f (idempotency_keys (replay db)) |};
     catalog := catalog db; trail := trail db |}.

Definition on_job_inputs (f : gmap (string * Z) JobInputRow -> gmap (string * Z) JobInputRow) (db : Db) : Db :=
  {| core := core db; replay := replay db; catalog := {| projects := projects (catalog db);
     sweeps := sweeps (catalog db); authorizations := authorizations (catalog db);
     credentials := credentials (catalog db); worker_projects := worker_projects (catalog db);
     tokens := tokens (catalog db); datasets := datasets (catalog db);
     job_inputs := f (job_inputs (catalog db)); uploads := uploads (catalog db);
     artifacts := artifacts (catalog db); segments := segments (catalog db) |}; trail := trail db |}.

Definition on_job_events (f : gmap (string * Z) JobEvent -> gmap (string * Z) JobEvent) (db : Db) : Db :=
  {| core := core db; replay := replay db; catalog := catalog db;
     trail := {| job_events := f (job_events (trail db));
     completion_artifacts := completion_artifacts (trail db); worker_audit := worker_audit (trail db);
     audit := audit (trail db); blockers := blockers (trail db);
     blocker_sequence := blocker_sequence (trail db); cursor := cursor (trail db) |} |}.

Definition on_completion_artifacts (f : gmap (string * string) (string * string * ArtifactKind.t) -> gmap (string * string) (string * string * ArtifactKind.t)) (db : Db) : Db :=
  {| core := core db; replay := replay db; catalog := catalog db;
     trail := {| job_events := job_events (trail db);
     completion_artifacts := f (completion_artifacts (trail db)); worker_audit := worker_audit (trail db);
     audit := audit (trail db); blockers := blockers (trail db);
     blocker_sequence := blocker_sequence (trail db); cursor := cursor (trail db) |} |}.

Definition on_worker_audit (f : list (string * string) -> list (string * string)) (db : Db) : Db :=
  {| core := core db; replay := replay db; catalog := catalog db;
     trail := {| job_events := job_events (trail db);
     completion_artifacts := completion_artifacts (trail db); worker_audit := f (worker_audit (trail db));
     audit := audit (trail db); blockers := blockers (trail db);
     blocker_sequence := blocker_sequence (trail db); cursor := cursor (trail db) |} |}.

Definition on_audit (f : list (string * string) -> list (string * string)) (db : Db) : Db :=
  {| core := core db; replay := replay db; catalog := catalog db;
     trail := {| job_events := job_events (trail db);
     completion_artifacts := completion_artifacts (trail db); worker_audit := worker_audit (trail db);
     audit := f (audit (trail db)); blockers := blockers (trail db);
     blocker_sequence := blocker_sequence (trail db); cursor := cursor (trail db) |} |}.

Definition on_blockers (f : gmap (string * Z) BlockerRow -> gmap (string * Z) BlockerRow) (db : Db) : Db :=
  {| core := core db; replay := replay db; catalog := catalog db;
     trail := {| job_events := job_events (trail db);
     completion_artifacts := completion_artifacts (trail db); worker_audit := worker_audit (trail db);
     audit := audit (trail db); blockers := f (blockers (trail db));
     blocker_sequence := blocker_sequence (trail db); cursor := cursor (trail db) |} |}.

Definition on_blocker_sequence (f : Z -> Z) (db : Db) : Db :=
  {| core := core db; replay := replay db; catalog := catalog db;
     trail := {| job_events := job_events (trail db);
     completion_artifacts := completion_artifacts (trail db); worker_audit := worker_audit (trail db);
     audit := audit (trail db); blockers := blockers (trail db);
     blocker_sequence := f (blocker_sequence (trail db)); cursor := cursor (trail db) |} |}.

Definition on_cursor (f : option (option string) -> option (option string)) (db : Db) : Db :=
  {| core := core db; replay := replay db; catalog := catalog db;
     trail := {| job_events := job_events (trail db);
     completion_artifacts := completion_artifacts (trail db); worker_audit := worker_audit (trail db);
     audit := audit (trail db); blockers := blockers (trail db);
     blocker_sequence := blocker_sequence (trail db); cursor := f (cursor (trail db)) |} |}.

Definition on_core (f : Core -> Core) (db : Db) : Db :=
  {| core := f (core db); replay := replay db; catalog := catalog db; trail := trail db |}.

(** * Transactions *)

Definition tx (A : Type) : Type := st Db StoreError A.

(** How a body ends when it does not return an error: [tx.Commit] and its
    result, or a plain return, which the deferred [rollback] undoes. *)
Inductive Done (A : Type) : Type :=
| Commit (a : A)
| Return (a : A).
Arguments Commit {A} a.
Arguments Return {A} a.

(** What the connection does: all statements and the commit go through; one of
    them fails and nothing is applied; or the commit is applied and its answer is
    lost. *)
Inductive TxAnswer : Type := TxApplied | TxAborted | TxUnknown.

Definition transact {A : Type} (answer : TxAnswer) (body : tx (Done A)) : tx A :=
  fun db =>
    match answer with
    | TxAborted => (Err ErrDatabase, db)
    | TxApplied | TxUnknown =>
        match body db with
        | (Ok (Commit a), db') =>
            (match answer with TxUnknown => Err ErrDatabase | _ => Ok a end, db')
        | (Ok (Return a), _) => (Ok a, db)
        | (Err e, _) => (Err e, db)
        end
    end.

(** [QueryRow(...).Scan(...)]: no row is [pgx.ErrNoRows]. *)
Definition row {A : Type} (o : option A) (e : StoreError) : tx A := st_lift (ok_or o e).

Definition query {A : Type} (f : Db -> option A) (e : StoreError) : tx A :=
  fun db => (ok_or (f db) e, db).

Definition guard (b : bool) (e : StoreError) : tx unit := if b then st_ret tt else st_err e.

Definition exec (f : Db -> Db) : tx unit := st_modify f.

(** [INSERT] of a row whose key is taken fails. *)
Definition insert_event (job : string) (sequence : Z) (e : JobEvent) : tx unit :=
  let! db := st_gets id in
  let! _ := guard (bool_decide (job_events (trail db) !! (job, sequence) = None)) ErrUnique in
  exec (on_job_events <[(job, sequence) := e]>).

Definition update_job (f : JobRow -> JobRow) (job : string) : tx unit :=
  exec (on_core (set_jobs (alter f job))).

Definition update_attempt (f : AttemptRow -> AttemptRow) (attempt : string) : tx unit :=
  exec (on_core (set_attempts (alter f attempt))).

Definition worker_event (worker action : string) : tx unit :=
  exec (on_worker_audit (fun l => l ++ [(worker, action)])).

(** [UPDATE jobs SET ..., event_sequence=event_sequence+1 ... RETURNING
    event_sequence] followed by the event's [INSERT]; no row is
    [pgx.ErrNoRows]. *)
Definition update_job_event (f : JobRow -> JobRow) (job : string) (e : JobEvent) : tx unit :=
  let! j := query (fun db => jobs (core db) !! job) ErrNoRows in
  let! _ := update_job f job in
  insert_event job (jb_events j + 1) e.

(** A sum over the rows of a query. *)
Definition sum_rows {A : Type} (f : string -> A -> Z) (m : gmap string A) : Z :=
  map_fold (fun k a acc => f k a + acc) 0 m.

Definition count_rows {A : Type} (p : string -> A -> bool) (m : gmap string A) : Z :=
  sum_rows (fun k a => if p k a then 1 else 0) m.

(** A loop over rows or request members, in order. *)
Fixpoint for_each {A : Type} (f : A -> tx unit) (l : list A) : tx unit :=
  match l with
  | [] => st_ret tt
  | a :: l' => let! _ := f a in for_each f l'
  end.

(** * Encodings and hashes outside the repository *)

Record PhaseReport := {
  phase_Authority : Authority;
  EventID : string;
  Phase : AttemptState.t;
  ContainerID : string;
  ExitCode : option Z;
}.

Record Registration := {
  reg_RequestID : string;
  reg_SessionID : string;
  ProtocolVersion : Z;
  reg_Resources : Resources;
  Slots : Z;
  Labels : gmap string string;
  Capabilities : list string;
}.

Record ExecutionRecord := {
  record_Authority : Authority;
  record_ContainerID : string;
  record_Running : bool;
}.

Record HeartbeatReport := {
  hb_RequestID : string;
  hb_SessionID : string;
  Sequence : Z;
  RuntimeHealthy : bool;
  DiskPressure : bool;
  ReconciliationComplete : bool;
  Inventory : list ExecutionRecord;
}.

(** The gap of a completion: the stream and its first and last number. *)
Record CompletionOutput := { co_Name : string; co_ArtifactID : string }.
Record CompletionLogGap := { gap_Stream : string; gap_First : Z; gap_Last : Z }.

Record CompletionRequest := {
  cr_Authority : Authority;
  CompletionID : string;
  PayloadSHA256 : string;
  cr_ExitCode : option Z;
  Reason : string;
  Stopped : bool;
  Outputs : list CompletionOutput;
  LogsComplete : bool;
  Gaps : list CompletionLogGap;
  MetricsJSON : bytes;
}.

Record completionPayload := {
  cp_Authority : Authority;
  cp_ExitCode : option Z;
  cp_Reason : string;
  cp_Stopped : bool;
  cp_Outputs : list CompletionOutput;
  cp_LogsComplete : bool;
  cp_Gaps : list CompletionLogGap;
  cp_Metrics : list (string * string);
  cp_MetricsSourceSHA256 : string;
}.

Record publishedArtifact := {
  pa_Name : string;
  pa_ArtifactID : string;
  pa_Key : string;
  pa_Version : string;
  pa_SizeBytes : Z;
  pa_SHA256 : string;
  pa_UploadID : string;
  pa_Kind : ArtifactKind.t;
}.

Record resultAttempt := {
  ra_AttemptID : string;
  ra_Number : Z;
  ra_State : AttemptState.t;
  ra_Reason : option string;
  ra_ExitCode : option Z;
  ra_CreatedAt : Z;
  ra_FinishedAt : option Z;
}.

Record resultManifest := {
  rm_Authority : Authority;
  rm_ProjectID : string;
  rm_Spec : SpecJob;
  rm_SpecSHA256 : string;
  rm_State : AttemptState.t;
  rm_ExitCode : option Z;
  rm_Reason : string;
  rm_CompletedAt : Z;
  rm_CleanupPending : bool;
  rm_Outputs : list publishedArtifact;
  rm_LogArtifacts : list publishedArtifact;
  rm_LogsComplete : bool;
  rm_Gaps : list CompletionLogGap;
  rm_Metrics : list (string * string);
  rm_MetricsArtifactID : string;
  rm_Attempts : list resultAttempt;
}.

(** The tokens a [json.Decoder] with [UseNumber] delivers. *)
Inductive Token : Type :=
| Delim (c : ascii)
| TString (s : string)
| TNumber (text : string)
| TOther.

(** [encoding/json], [strconv] and SHA-256, as the store uses them: the tokens of
    a document (up to the first malformed one, [true] when the input ended
    well), and whether a JSON number is a finite float64, and then zero. *)
Class GoLib := {
  sha256 : bytes -> bytes;
  marshal_job : SpecJob -> bytes;
  marshal_authorities : list Authority -> bytes;
  marshal_phase : PhaseReport -> bytes;
  marshal_registration : Registration -> bytes;
  marshal_heartbeat : HeartbeatReport -> bytes;
  marshal_completion : completionPayload -> bytes;
  marshal_manifest : resultManifest -> bytes;
  marshal_dataset : DatasetManifest -> bytes;
  json_tokens : bytes -> list Token * bool;
  float64_zero : string -> option bool;
}.

(** [hex.EncodeToString] of the digest of a tagged body. *)
Definition digest_of `{GoLib} (tag : string) (body : bytes) : string :=
  hex (sha256 (str_bytes tag ++ body)).

(** [hashPattern]: [`^[0-9a-f]{64}$`]. *)
Definition hashPattern (s : string) : bool :=
  (str_len s =? 64)%N && forallb Execution.hash_byte (str_bytes s).

(** [utf8.Valid]: the well-formed byte sequences of table 3-7 of Unicode. *)
Definition utf8_tail (b : byte) : bool := in_range 128 191 (byte_val b).

Definition utf8_second (first second : byte) : bool :=
  let v := byte_val second in
  if (byte_val first =? 224)%N then in_range 160 191 v
  else if (byte_val first =? 237)%N then in_range 128 159 v
  else if (byte_val first =? 240)%N then in_range 144 191 v
  else if (byte_val first =? 244)%N then in_range 128 143 v
  else in_range 128 191 v.

Fixpoint utf8_valid (l : bytes) : bool :=
  match l with
  | [] => true
  | b :: l1 =>
      if (byte_val b <? 128)%N then utf8_valid l1
      else match l1 with
      | [] => false
      | c1 :: l2 =>
          utf8_second b c1
          && (if in_range 194 223 (byte_val b) then utf8_valid l2
              else match l2 with
              | [] => false
              | c2 :: l3 =>
                  utf8_tail c2
                  && (if in_range 224 239 (byte_val b) then utf8_valid l3
                      else match l3 with
                      | [] => false
                      | c3 :: l4 => utf8_tail c3 && in_range 240 244 (byte_val b) && utf8_valid l4
                      end)
              end)
      end
  end.

(** * Shared by all requests *)

Definition canonicalUUID (id : string) : bool := canonical_uuid id.

Definition authorizeWorkerTx (identity : WorkerIdentity) : tx unit :=
  let! db := st_gets id in
  guard (match credentials (catalog db) !! identity_CredentialID identity with
         | Some c => bool_decide (cr_worker c = identity_WorkerID identity) && negb (cr_revoked c)
         | None => false
         end) ErrUnauthorized.

Definition requireCurrentWorkerSession (worker session : string) : tx unit :=
  let! db := st_gets id in
  guard (match workers (core db) !! worker, sessions (core db) !! session with
         | Some w, Some s =>
             bool_decide (wk_current w = Some session) && bool_decide (se_worker s = worker)
             && bool_decide (se_fenced s = None)
         | _, _ => false
         end) ErrFenced.
