(* ===== verification/StoreLeases.v ===== *)
(** Lease renewal and phase reports ([internal/store/leases.go],
    [internal/store/phases.go]): transactions that need no capacity and do not
    take the cluster lock. *)

From S2P Require Import Prelude Strings Protocol Control SpecJob Store.
Open Scope Z_scope.

Record LeaseRenewal := {
  renew_SessionID : string;
  renew_RequestID : string;
  Attempts : list Authority;
}.

Record leaseJob := { lj_current : option string; lj_cancelled : bool }.

Record leaseAttempt := {
  la_authority : Authority;
  la_state : AttemptState.t;
  la_expires : Z;
  la_phase : Z;
}.

(** The zero values a Go map gives for missing keys. *)
Definition no_job : leaseJob := {| lj_current := None; lj_cancelled := false |}.
Definition no_attempt : leaseAttempt :=
  {| la_authority := no_authority; la_state := AttemptState.Unspecified; la_expires := zero_time;
     la_phase := zero_time |}.
Definition no_grant : LeaseGrant :=
  {| grant_Authority := no_authority; grant_Decision := Decision_.Unspecified;
     grant_LeaseExpiresAt := zero_time; grant_PhaseDeadline := zero_time; grant_ServerTime := zero_time |}.

(** The authority columns of an attempt's row. *)
Definition row_authority (id : string) (a : AttemptRow) : Authority :=
  {| JobID := at_job a; AttemptID := id; Generation := at_number a; WorkerID := at_worker a;
     SessionID := at_session a |}.

Section Leases.
Context `{GoLib}.

(** The members are checked one after the other; the set holds the ids passed. *)
Fixpoint check_members (worker session : string) (seen : list string) (l : list Authority) : bool :=
  match l with
  | [] => true
  | a :: rest =>
      canonicalUUID (JobID a) && canonicalUUID (AttemptID a) && bool_decide (WorkerID a = worker)
      && bool_decide (SessionID a = session) && (1 <=? Generation a)
      && negb (bool_decide (AttemptID a ∈ seen))
      && check_members worker session (AttemptID a :: seen) rest
  end.

Definition LeaseRenewal_hash (r : LeaseRenewal) (worker : string) : result StoreError string :=
  if negb (canonicalUUID (renew_SessionID r)) || negb (canonicalUUID (renew_RequestID r))
     || (len (Attempts r) <? 1)%N || (MaxLeaseRenewalBatch <? len (Attempts r))%N then Err ErrInvalid
  else if negb (check_members worker (renew_SessionID r) [] (Attempts r)) then Err ErrInvalid
  else
    let ordered := sort_by (fun a b => str_leb (AttemptID a) (AttemptID b)) (Attempts r) in
    Ok (digest_of ("dispatch.worker.v1.RenewLeases" +:+ String "010" EmptyString) (marshal_authorities ordered)).

(** The rows the batch names, read under their locks. *)
Definition lockLeaseBatch (authorities : list Authority) (c : Core)
  : (string -> leaseJob) * (string -> leaseAttempt) :=
  let jobIDs := JobID <$> authorities in
  let attemptIDs := AttemptID <$> authorities in
  (fun id => match jobs c !! id with
             | Some j => if bool_decide (id ∈ jobIDs)
                         then {| lj_current := jb_current j; lj_cancelled := jb_cancel j |} else no_job
             | None => no_job
             end,
   fun id => match attempts c !! id with
             | Some a => if bool_decide (at_job a ∈ jobIDs) && bool_decide (id ∈ attemptIDs)
                         then {| la_authority := row_authority id a; la_state := at_state a;
                                 la_expires := at_lease a; la_phase := at_phase a |}
                         else no_attempt
             | None => no_attempt
             end).

Definition leaseDecision (authority : Authority) (job : leaseJob) (attempt : leaseAttempt) (now : Z)
  : Decision_.t :=
  if negb (bool_decide (authority = la_authority attempt)) then Decision_.Fenced
  else if negb (active (la_state attempt)) then Decision_.AlreadyTerminal
  else if negb (bool_decide (lj_current job = Some (AttemptID authority))) || (la_expires attempt <=? now)
  then Decision_.Fenced
  else if lj_cancelled job || (la_phase attempt <=? now) then Decision_.StopRequested
  else Decision_.Accepted.

Definition saved_grant (saved : list LeaseGrant) (attempt : string) : LeaseGrant :=
  default no_grant (List.find (fun g => bool_decide (AttemptID (grant_Authority g) = attempt)) saved).

Fixpoint check_saved (seen : list string) (grants : list LeaseGrant) : bool :=
  match grants with
  | [] => true
  | g :: rest =>
      negb (bool_decide (AttemptID (grant_Authority g) ∈ seen))
      && negb (bool_decide (grant_Decision g = Decision_.Unspecified))
      && negb (grant_ServerTime g =? zero_time)
      && (if bool_decide (grant_Decision g = Decision_.Accepted) then
            (grant_ServerTime g <? grant_LeaseExpiresAt g)
            && (grant_LeaseExpiresAt g - grant_ServerTime g <=? InitialLease)
            && (grant_ServerTime g <? grant_PhaseDeadline g)
          else (grant_LeaseExpiresAt g =? zero_time) && (grant_PhaseDeadline g =? zero_time))
      && check_saved (AttemptID (grant_Authority g) :: seen) rest
  end.

Definition decodeLeaseReplay (grants : list LeaseGrant) (authorities : list Authority)
  : result StoreError (list LeaseGrant) :=
  if negb (len grants =? len authorities)%N || negb (check_saved [] grants) then Err ErrInvalid
  else if existsb (fun a => negb (bool_decide (grant_Authority (saved_grant grants (AttemptID a)) = a)))
            authorities
  then Err ErrInvalid
  else Ok grants.

(** The grant of one member, before deadlines of refusals are cleared: a replay
    keeps the stricter of the original and the current bounds. *)
Definition member_grant (old : option LeaseGrant) (job : leaseJob) (attempt : leaseAttempt) (now : Z)
  (a : Authority) : LeaseGrant :=
  let decision := leaseDecision a job attempt now in
  let grant d lease phase :=
    {| grant_Authority := a; grant_Decision := d; grant_LeaseExpiresAt := lease;
       grant_PhaseDeadline := phase; grant_ServerTime := now |} in
  match old with
  | Some g =>
      let decision := if bool_decide (grant_Decision g = Decision_.Accepted) then decision
                      else grant_Decision g in
      if bool_decide (decision = Decision_.Accepted) then
        let lease := Z.min (la_expires attempt) (grant_LeaseExpiresAt g) in
        let phase := Z.min (la_phase attempt) (grant_PhaseDeadline g) in
        if lease <=? now then grant Decision_.Fenced lease phase
        else if phase <=? now then grant Decision_.StopRequested lease phase
        else grant Decision_.Accepted lease phase
      else grant decision zero_time zero_time
  | None =>
      if bool_decide (decision = Decision_.Accepted)
      then grant Decision_.Accepted (now + InitialLease) (la_phase attempt)
      else grant decision zero_time zero_time
  end.

Definition clear_refusal (g : LeaseGrant) : LeaseGrant :=
  if bool_decide (grant_Decision g = Decision_.Accepted) then g
  else {| grant_Authority := grant_Authority g; grant_Decision := grant_Decision g;
          grant_LeaseExpiresAt := zero_time; grant_PhaseDeadline := zero_time;
          grant_ServerTime := grant_ServerTime g |}.

Definition set_lease (t : Z) (a : AttemptRow) : AttemptRow :=
  {| at_job := at_job a; at_number := at_number a; at_worker := at_worker a; at_session := at_session a;
     at_state := at_state a; at_lease := t; at_phase := at_phase a; at_exit := at_exit a;
     at_reason := at_reason a; at_completion := at_completion a; at_digest := at_digest a;
     at_cleanup := at_cleanup a; at_created := at_created a; at_finished := at_finished a;
     at_container := at_container a |}.

Fixpoint renew_members (saved : option (list LeaseGrant)) (batch : (string -> leaseJob) * (string -> leaseAttempt))
  (now : Z) (l : list Authority) : tx (list LeaseGrant) :=
  match l with
  | [] => st_ret []
  | a :: rest =>
      let old := (fun gs => saved_grant gs (AttemptID a)) <$> saved in
      let g := member_grant old (batch.1 (JobID a)) (batch.2 (AttemptID a)) now a in
      let! _ := if bool_decide (saved = None) && bool_decide (grant_Decision g = Decision_.Accepted)
                then update_attempt (set_lease (grant_LeaseExpiresAt g)) (AttemptID a)
                else st_ret tt in
      let! gs := renew_members saved batch now rest in
      st_ret (clear_refusal g :: gs)
  end.

Definition RenewLeases_body (id : WorkerIdentity) (r : LeaseRenewal) (hash : string) (now : Z)
  : tx (Done (list LeaseGrant)) :=
  let key := (identity_WorkerID id, renew_SessionID r, renew_RequestID r) in
  let! _ := authorizeWorkerTx id in
  let! _ := requireCurrentWorkerSession (identity_WorkerID id) (renew_SessionID r) in
  let! claimed := st_gets (fun db => lease_requests (replay db) !! key) in
  let! saved := match claimed with
    | None => let! _ := exec (on_lease_requests <[key := {| lq_hash := hash; lq_results := [] |}]>) in
              st_ret None
    | Some q =>
        let! _ := guard (bool_decide (lq_hash q = hash)) ErrConflict in
        let! grants := st_lift (decodeLeaseReplay (lq_results q) (Attempts r)) in
        st_ret (Some grants)
    end in
  let! batch := st_gets (fun db => lockLeaseBatch (Attempts r) (core db)) in
  let! _ := requireCurrentWorkerSession (identity_WorkerID id) (renew_SessionID r) in
  let! grants := renew_members saved batch now (Attempts r) in
  let! _ := match saved with
    | None => exec (on_lease_requests <[key := {| lq_hash := hash; lq_results := grants |}]>)
    | Some _ => st_ret tt
    end in
  st_ret (Commit grants).

Definition RenewLeases (answer : TxAnswer) (id : WorkerIdentity) (r : LeaseRenewal) (now : Z)
  : tx (list LeaseGrant) :=
  if negb (canonicalUUID (identity_WorkerID id)) || negb (canonicalUUID (identity_CredentialID id))
  then st_err ErrUnauthorized
  else
    let! hash := st_lift (LeaseRenewal_hash r (identity_WorkerID id)) in
    transact answer (RenewLeases_body id r hash now).

(** * Phase reports *)

Record MutationResult := { mr_Decision : Decision_.t; mr_State : AttemptState.t }.

Definition PhaseReport_hash (r : PhaseReport) (worker : string) : result StoreError string :=
  let a := phase_Authority r in
  if negb (canonicalUUID (EventID r)) || negb (canonicalUUID (JobID a)) || negb (canonicalUUID (AttemptID a))
     || negb (canonicalUUID (SessionID a)) || negb (bool_decide (WorkerID a = worker))
     || (Generation a <? 1) then Err ErrInvalid
  else
    let? _ := match Phase r with
      | AttemptState.Starting =>
          if negb (is_empty_str (ContainerID r)) || negb (bool_decide (ExitCode r = None))
          then Err ErrInvalid else Ok tt
      | AttemptState.Running =>
          if negb (hashPattern (ContainerID r)) || negb (bool_decide (ExitCode r = None))
          then Err ErrInvalid else Ok tt
      | AttemptState.Finalizing =>
          if negb (hashPattern (ContainerID r))
             || match ExitCode r with Some c => (c <? 0) || (255 <? c) | None => true end
          then Err ErrInvalid else Ok tt
      | _ => Err ErrInvalid
      end in
    Ok (digest_of ("dispatch.worker.v1.ReportPhase" +:+ String "010" EmptyString) (marshal_phase r)).

Definition nextPhaseDeadline (r : PhaseReport) (attempt : leaseAttempt) (container : option string)
  (exit : option Z) (job : SpecJob) (now : Z) : result StoreError Z :=
  if match container with Some c => negb (bool_decide (ContainerID r = c)) | None => false end
  then Err ErrConflict
  else if bool_decide (la_state attempt = Phase r) then
    if negb (bool_decide (exit = ExitCode r)) then Err ErrConflict else Ok (la_phase attempt)
  else match la_state attempt, Phase r with
  | AttemptState.Assigned, AttemptState.Starting => Ok (la_phase attempt)
  | AttemptState.Starting, AttemptState.Running =>
      Ok (now + ExecutionSeconds (spec_Timeouts (Spec job)) * second)
  | AttemptState.Starting, AttemptState.Finalizing
  | AttemptState.Running, AttemptState.Finalizing =>
      Ok (now + FinalizationSeconds (spec_Timeouts (Spec job)) * second)
  | _, _ => Err ErrConflict
  end.

(** [UPDATE attempts SET state=$2,container_id=COALESCE(container_id,
    NULLIF($3,'')),exit_code=$4,phase_deadline=$5]. *)
Definition set_phase (state : AttemptState.t) (container : string) (exit : option Z) (deadline : Z)
  (a : AttemptRow) : AttemptRow :=
  {| at_job := at_job a; at_number := at_number a; at_worker := at_worker a; at_session := at_session a;
     at_state := state; at_lease := at_lease a; at_phase := deadline; at_exit := exit;
     at_reason := at_reason a; at_completion := at_completion a; at_digest := at_digest a;
     at_cleanup := at_cleanup a; at_created := at_created a; at_finished := at_finished a;
     at_container := match at_container a with
                     | Some c => Some c
                     | None => if is_empty_str container then None else Some container
                     end |}.

Definition bump_events (j : JobRow) : JobRow :=
  {| jb_project := jb_project j; jb_spec := jb_spec j; jb_spec_hash := jb_spec_hash j;
     jb_state := jb_state j; jb_resources := jb_resources j; jb_priority := jb_priority j;
     jb_eligible := jb_eligible j; jb_counter := jb_counter j; jb_current := jb_current j;
     jb_cancel := jb_cancel j; jb_accepted := jb_accepted j; jb_manifest := jb_manifest j;
     jb_events := jb_events j + 1; jb_created := jb_created j; jb_sweep := jb_sweep j |}.

Definition appendPhaseEvent (r : PhaseReport) (from : AttemptState.t) (deadline : Z) : tx unit :=
  update_job_event bump_events (JobID (phase_Authority r))
    (PHASE_CHANGED (AttemptID (phase_Authority r)) from (Phase r) deadline (ContainerID r) (ExitCode r)).

Definition ReportPhase_body (id : WorkerIdentity) (r : PhaseReport) (hash : string) (now : Z)
  : tx (Done MutationResult) :=
  let a := phase_Authority r in
  let key := (identity_WorkerID id, SessionID a, EventID r) in
  let! _ := authorizeWorkerTx id in
  let! _ := requireCurrentWorkerSession (identity_WorkerID id) (SessionID a) in
  let! batch := st_gets (fun db => lockLeaseBatch [a] (core db)) in
  let! _ := requireCurrentWorkerSession (identity_WorkerID id) (SessionID a) in
  let attempt := batch.2 (AttemptID a) in
  if negb (bool_decide (la_authority attempt = a))
  then st_ret (Return {| mr_Decision := Decision_.Fenced; mr_State := AttemptState.Unspecified |})
  else
    let! row := query (fun db => attempts (core db) !! AttemptID a) ErrNoRows in
    let! j := query (fun db => jobs (core db) !! at_job row) ErrNoRows in
    let job := jb_spec j in
    let! _ := guard (is_ok (Validate job)) ErrInvalid in
    let! claimed := st_gets (fun db => phase_reports (replay db) !! key) in
    let! _ := match claimed with
      | None => exec (on_phase_reports <[key := hash]>)
      | Some old => guard (bool_decide (old = hash)) ErrConflict
      end in
    let decision := leaseDecision a (batch.1 (JobID a)) attempt now in
    if negb (bool_decide (decision = Decision_.Accepted))
    then st_ret (Return {| mr_Decision := decision; mr_State := la_state attempt |})
    else match claimed with
    | Some _ => st_ret (Commit {| mr_Decision := decision; mr_State := la_state attempt |})
    | None =>
        let! deadline := st_lift (nextPhaseDeadline r attempt (at_container row) (at_exit row) job now) in
        let! _ := if bool_decide (la_state attempt = Phase r) then st_ret tt
                  else let! _ := update_attempt (set_phase (Phase r) (ContainerID r) (ExitCode r) deadline)
                                   (AttemptID a) in
                       appendPhaseEvent r (la_state attempt) deadline in
        st_ret (Commit {| mr_Decision := decision; mr_State := Phase r |})
    end.

Definition ReportPhase (answer : TxAnswer) (id : WorkerIdentity) (r : PhaseReport) (now : Z)
  : tx MutationResult :=
  if negb (canonicalUUID (identity_WorkerID id)) || negb (canonicalUUID (identity_CredentialID id))
  then st_err ErrUnauthorized
  else
    let! hash := st_lift (PhaseReport_hash r (identity_WorkerID id)) in
    transact answer (ReportPhase_body id r hash now).

End Leases.
