(* ===== verification/StoreRecovery.v ===== *)
(** Sessions, their recovery, and the fencing of lost attempts
    ([internal/store/sessions.go], [recovery.go], [reaper.go],
    [sweep_failure.go] and the configuration check of [workers.go]): the
    transactions that end an attempt without its worker. *)

From S2P Require Import Prelude Strings Protocol Control SpecJob Store StoreLeases.
Open Scope Z_scope.

(** A [timestamptz] column keeps microseconds. *)
Definition timestamptz (t : Z) : Z := t / 1000 * 1000.

(** * Fail-fast sweeps *)

Definition set_cancelled (next : JobState) (j : JobRow) : JobRow :=
  {| jb_project := jb_project j; jb_spec := jb_spec j; jb_spec_hash := jb_spec_hash j;
     jb_state := next; jb_resources := jb_resources j; jb_priority := jb_priority j;
     jb_eligible := jb_eligible j; jb_counter := jb_counter j; jb_current := jb_current j;
     jb_cancel := true; jb_accepted := jb_accepted j; jb_manifest := jb_manifest j;
     jb_events := jb_events j + 1; jb_created := jb_created j; jb_sweep := jb_sweep j |}.

Definition cancelled_state (previous : JobState) : JobState :=
  if bool_decide (previous = J_ACTIVE) then J_CANCELLING else J_CANCELLED.

Definition fail_fast_candidate (failed sweep : string) (s : SweepRow) (id : string) (j : JobRow) : bool :=
  bool_decide (jb_sweep j = Some sweep) && negb (bool_decide (id = failed))
  && (queued (jb_state j) || (bool_decide (jb_state j = J_ACTIVE) && sw_cancel_running s)).

Definition applySweepFailFast (failed : string) : tx unit :=
  let! db := st_gets id in
  match jobs (core db) !! failed with
  | Some j =>
      match jb_sweep j with
      | Some sweep =>
          match sweeps (catalog db) !! sweep with
          | Some s =>
              if bool_decide (jb_state j = J_FAILED) && sw_fail_fast s then
                for_each (fun '(id, c) =>
                    let next := cancelled_state (jb_state c) in
                    update_job_event (set_cancelled next) id (SWEEP_FAIL_FAST sweep failed (jb_state c) next))
                  (List.filter (fun '(id, c) => fail_fast_candidate failed sweep s id c)
                     (map_to_list (jobs (core db))))
              else st_ret tt
          | None => st_ret tt
          end
      | None => st_ret tt
      end
  | None => st_ret tt
  end.

(** * Ending an attempt *)

Record recoveryAttempt := { rec_JobID : string; rec_ID : string; rec_LeaseExpiry : Z }.

Definition expiredPhaseReason (state : AttemptState.t) (lease phase now : Z) : option string :=
  if (now <? phase) || (lease <? phase) then None
  else match state with
  | AttemptState.Assigned | AttemptState.Starting => Some "STARTUP_TIMEOUT"%string
  | AttemptState.Running => Some "EXECUTION_TIMEOUT"%string
  | AttemptState.Finalizing => Some "FINALIZATION_TIMEOUT"%string
  | _ => None
  end.

Definition set_lost (state : AttemptState.t) (reason : string) (now : Z) (a : AttemptRow) : AttemptRow :=
  {| at_job := at_job a; at_number := at_number a; at_worker := at_worker a; at_session := at_session a;
     at_state := state; at_lease := at_lease a; at_phase := at_phase a; at_exit := at_exit a;
     at_reason := Some reason; at_completion := at_completion a; at_digest := at_digest a;
     at_cleanup := true; at_created := at_created a; at_finished := Some now;
     at_container := at_container a |}.

Definition set_reservation (state : ReservationState) (r : ReservationRow) : ReservationRow :=
  {| rv_worker := rv_worker r; rv_resources := rv_resources r; rv_state := state |}.

(** [UPDATE jobs SET state=...,current_attempt_id=NULL,accepted_attempt_id=...,
    accepted_manifest=...,next_eligible_at=...,event_sequence=event_sequence+1]. *)
Definition set_ended (next : JobState) (accepted : option string) (manifest : option bytes) (eligible : Z)
  (j : JobRow) : JobRow :=
  {| jb_project := jb_project j; jb_spec := jb_spec j; jb_spec_hash := jb_spec_hash j;
     jb_state := next; jb_resources := jb_resources j; jb_priority := jb_priority j;
     jb_eligible := timestamptz eligible; jb_counter := jb_counter j; jb_current := None;
     jb_cancel := jb_cancel j; jb_accepted := accepted; jb_manifest := manifest;
     jb_events := jb_events j + 1; jb_created := jb_created j; jb_sweep := jb_sweep j |}.

(** [UPDATE reservations SET state=$2 WHERE attempt_id=$1 AND state='active'],
    which must have changed one row. *)
Definition end_reservation (state : ReservationState) (attempt : string) (e : StoreError) : tx unit :=
  let! db := st_gets id in
  let! _ := guard (match reservations (core db) !! attempt with
                   | Some r => bool_decide (rv_state r = R_active)
                   | None => false
                   end) e in
  exec (on_core (set_reservations (alter (set_reservation state) attempt))).

Section Recovery.
Context `{GoLib}.

Fixpoint backoff (steps : nat) (base maximum : Z) : Z :=
  match steps with
  | O => base
  | Datatypes.S n => if base <? maximum then backoff n (Z.min (base * 2) maximum) maximum else base
  end.

Definition retryDelay (policy : SpecRetry) (attemptNumber : Z) (attemptID : string) : Z :=
  let base := backoff (Z.to_nat (attemptNumber - 1)) (InitialBackoffSeconds policy * second)
                (MaxBackoffSeconds policy * second) in
  let half := base / 2 in
  half + Z.of_N (from_be_bytes (take 8 (sha256 (str_bytes attemptID)))) mod (base - half + 1).

(** What becomes of the job and the attempt, why, and when the job may run
    again. *)
Definition lost_outcome (job : SpecJob) (cancelled : bool) (number : Z) (id : string)
  (state : AttemptState.t) (lease phase now : Z) : JobState * AttemptState.t * string * Z :=
  if cancelled then (J_CANCELLED, AttemptState.Cancelled, "USER_CANCELLED"%string, now)
  else match expiredPhaseReason state lease phase now with
  | Some timeout => (J_FAILED, AttemptState.Failed, timeout, now)
  | None =>
      if (number <? MaxAttempts (spec_Retry (Spec job)))
         && bool_decide ("WORKER_LOST"%string ∈ On (spec_Retry (Spec job)))
      then (J_RETRY_WAIT, AttemptState.Lost, "WORKER_LOST"%string,
            now + retryDelay (spec_Retry (Spec job)) number id)
      else (J_FAILED, AttemptState.Lost, "WORKER_LOST"%string, now)
  end.

Definition fenceLostAttempt (a : recoveryAttempt) (now : Z) : tx unit :=
  let! j := query (fun db => match jobs (core db) !! rec_JobID a with
                             | Some j => if bool_decide (jb_current j = Some (rec_ID a)) then Some j else None
                             | None => None
                             end) ErrNoRows in
  let! r := query (fun db => attempts (core db) !! rec_ID a) ErrNoRows in
  let! _ := guard (is_ok (Validate (jb_spec j))) ErrInvalid in
  let '(jobState, attemptState, reason, nextEligible) :=
    lost_outcome (jb_spec j) (jb_cancel j) (jb_counter j) (rec_ID a) (at_state r) (at_lease r) (at_phase r) now in
  let! _ := update_attempt (set_lost attemptState reason now) (rec_ID a) in
  let! _ := end_reservation R_quarantined (rec_ID a) ErrReservation in
  let! _ := update_job_event (set_ended jobState (jb_accepted j) (jb_manifest j) nextEligible) (rec_JobID a)
              (ATTEMPT_ENDED (rec_ID a) attemptState reason jobState nextEligible) in
  if bool_decide (jobState = J_FAILED) then applySweepFailFast (rec_JobID a) else st_ret tt.

(** * The reaper *)

(** The rows of [attempts a JOIN jobs j ON j.current_attempt_id=a.id] whose
    earlier deadline has passed. *)
Definition expired_attempts (c : Core) (t : Z) : list (string * AttemptRow) :=
  List.filter (fun '(id, a) =>
      active (at_state a) && (Z.min (at_lease a) (at_phase a) <=? t)
      && match jobs c !! at_job a with
         | Some j => bool_decide (jb_current j = Some id)
         | None => false
         end) (map_to_list (attempts c)).

Definition deadline_leb (x y : string * AttemptRow) : bool :=
  let d (p : string * AttemptRow) := Z.min (at_lease p.2) (at_phase p.2) in
  (d x <? d y) || ((d x =? d y) && str_leb x.1 y.1).

Definition set_registering (w : WorkerRow) : WorkerRow :=
  {| wk_state := W_REGISTERING; wk_labels := wk_labels w; wk_capabilities := wk_capabilities w;
     wk_resources := wk_resources w; wk_slots := wk_slots w; wk_current := wk_current w;
     wk_drain := wk_drain w; wk_heartbeat := wk_heartbeat w; wk_reconciled := false;
     wk_healthy := wk_healthy w; wk_pressure := wk_pressure w |}.

Definition reapOneExpiredAttempt_body (scanned now : Z) : tx (Done (bool * bool)) :=
  let! db := st_gets id in
  match sort_by deadline_leb (expired_attempts (core db) scanned) with
  | [] => st_ret (Return (false, false))
  | (id, candidate) :: _ =>
      let! j := query (fun db => jobs (core db) !! at_job candidate) ErrNoRows in
      let! a := query (fun db => attempts (core db) !! id) ErrNoRows in
      if negb (bool_decide (jb_current j = Some id)) || negb (active (at_state a))
         || ((now <? at_lease a) && (now <? at_phase a))
      then st_ret (Return (true, false))
      else
        let! _ := fenceLostAttempt {| rec_JobID := at_job candidate; rec_ID := id;
                                      rec_LeaseExpiry := at_lease candidate |} now in
        let! _ := exec (on_core (set_workers (alter set_registering (at_worker a)))) in
        st_ret (Commit (true, true))
  end.

Definition reapOneExpiredAttempt (answer : TxAnswer) (scanned now : Z) : tx (bool * bool) :=
  transact answer (reapOneExpiredAttempt_body scanned now).

(** The loop of one batch; [env n] is what the [n]-th transaction meets. *)
Fixpoint reap_loop (env : nat -> TxAnswer * Z * Z) (n fuel : nat) (processed : Z) : tx Z :=
  match fuel with
  | O => st_ret processed
  | Datatypes.S fuel' =>
      let '(answer, scanned, now) := env n in
      fun db =>
        match reapOneExpiredAttempt answer scanned now db with
        | (Err e, db') => (Err e, db')
        | (Ok (found, reaped), db') =>
            if negb found then (Ok processed, db')
            else reap_loop env (Datatypes.S n) fuel' (if reaped then processed + 1 else processed) db'
        end
  end.

Definition ReapExpiredAttempts (env : nat -> TxAnswer * Z * Z) (limit : Z) : tx Z :=
  if (limit <? 1) || (MaxReapBatch <? limit) then st_err ErrInvalid
  else reap_loop env 0 (Z.to_nat limit) 0.

End Recovery.
