(* ===== verification/StoreSessions.v ===== *)
(** Worker sessions ([internal/store/sessions.go], [heartbeat.go], the session
    part of [recovery.go], [validateWorkerConfiguration] of [workers.go]):
    registration and take-over of a session, and heartbeats. *)

From S2P Require Import Prelude Strings Protocol Control SpecJob Store StoreLeases StoreRecovery.
Open Scope Z_scope.

Definition validateWorkerConfiguration (r : Resources) (slots : Z) (labels : gmap string string)
  : result StoreError unit :=
  if (CPUMillis r <? 1) || (1024000 <? CPUMillis r) || (MemoryMiB r <? 1) || (16777216 <? MemoryMiB r)
     || (ScratchMiB r <? 1) || (1073741824 <? ScratchMiB r) || (slots <? 1) || (1000 <? slots)
     || (64 <? base.size labels)%nat then Err ErrInvalid
  else if negb (bool_decide (labels !! "os"%string = Some "linux"%string))
       || (negb (bool_decide (labels !! "architecture"%string = Some "amd64"%string))
           && negb (bool_decide (labels !! "architecture"%string = Some "arm64"%string))) then Err ErrInvalid
  else if existsb (fun '(key, value) =>
         negb (namePattern key) || (str_len value =? 0)%N || (256 <? str_len value)%N
         || negb (utf8_valid (str_bytes value)) || existsb is_control (chars (str_bytes value)))
         (map_to_list labels) then Err ErrInvalid
  else Ok tt.

Definition known_capabilities : list string :=
  ["docker.v1"; "cpu.hard"; "memory.hard"; "pids.hard"; "scratch.soft"; "scratch.quota"].

Fixpoint check_capabilities (caps l : list string) : bool :=
  match l with
  | [] => true
  | c :: rest =>
      negb (bool_decide (c ∈ caps)) && bool_decide (c ∈ known_capabilities) && check_capabilities (c :: caps) rest
  end.

Definition sorted_capabilities (r : Registration) : Registration :=
  {| reg_RequestID := reg_RequestID r; reg_SessionID := reg_SessionID r; ProtocolVersion := ProtocolVersion r;
     reg_Resources := reg_Resources r; Slots := Slots r; Labels := Labels r;
     Capabilities := sort_by str_leb (Capabilities r) |}.

Section Sessions.
Context `{GoLib}.

Definition Registration_hash (r : Registration) : result StoreError string :=
  if negb (canonicalUUID (reg_RequestID r)) || negb (canonicalUUID (reg_SessionID r))
     || negb (ProtocolVersion r =? 1) then Err ErrInvalid
  else let? _ := validateWorkerConfiguration (reg_Resources r) (Slots r) (Labels r) in
  if (len (Capabilities r) <? 5)%N || (6 <? len (Capabilities r))%N then Err ErrInvalid
  else if negb (check_capabilities [] (Capabilities r)) then Err ErrInvalid
  else
    let has c := bool_decide (c ∈ Capabilities r) in
    if negb (has "docker.v1"%string) || negb (has "cpu.hard"%string) || negb (has "memory.hard"%string)
       || negb (has "pids.hard"%string) || eqb (has "scratch.soft"%string) (has "scratch.quota"%string)
    then Err ErrInvalid
    else Ok (hex (sha256 (marshal_registration (sorted_capabilities r)))).

(** * Take-over *)

Definition ApproveSessionTakeover (answer : TxAnswer) (worker from to : string) : tx unit :=
  if negb (canonicalUUID worker) || negb (canonicalUUID from) || negb (canonicalUUID to)
     || bool_decide (from = to) then st_err ErrInvalid
  else transact answer (
    let! db := st_gets id in
    match takeovers (core db) !! (worker, from) with
    | Some t => if bool_decide (tk_to t = to) then st_ret (Return tt) else st_err ErrConflict
    | None =>
        let! w := row (workers (core db) !! worker) ErrNotFound in
        let! _ := guard (bool_decide (wk_current w = Some from)) ErrFenced in
        let! _ := guard (bool_decide (sessions (core db) !! to = None)) ErrConflict in
        let! _ := exec (on_core (set_takeovers <[(worker, from) := {| tk_to := to; tk_used := None |}]>)) in
        let! _ := worker_event worker "SESSION_TAKEOVER_APPROVED" in
        st_ret (Commit tt)
    end).

(** The active attempts of the worker, ordered by job and id. *)
Definition lockWorkerAttempts (c : Core) (worker : string) : list recoveryAttempt :=
  (fun '(id, a) => {| rec_JobID := at_job a; rec_ID := id; rec_LeaseExpiry := at_lease a |})
  <$> sort_by (fun (x y : string * AttemptRow) =>
                 str_ltb (at_job x.2) (at_job y.2)
                 || (bool_decide (at_job x.2 = at_job y.2) && str_leb x.1 y.1))
        (List.filter (fun '(_, a) => bool_decide (at_worker a = worker) && active (at_state a))
           (map_to_list (attempts c))).

Definition fence_session (worker : string) (now : Z) (s : SessionRow) : SessionRow :=
  if bool_decide (se_worker s = worker) && bool_decide (se_fenced s = None) then
    {| se_worker := se_worker s; se_generation := se_generation s; se_created := se_created s;
       se_fenced := Some now; se_hash := se_hash s; se_sequence := se_sequence s;
       se_request := se_request s; se_report_hash := se_report_hash s |}
  else s.

Definition recoverSession (worker from to : string) (now : Z) : tx unit :=
  let! db := st_gets id in
  let attempts := lockWorkerAttempts (core db) worker in
  let! w := row (workers (core db) !! worker) ErrNoRows in
  let! s := row (sessions (core db) !! from) ErrNoRows in
  let! _ := guard (bool_decide (wk_current w = Some from) && bool_decide (se_worker s = worker)) ErrNoRows in
  let approved := match takeovers (core db) !! (worker, from) with
                  | Some t => bool_decide (tk_to t = to) && bool_decide (tk_used t = None)
                  | None => false
                  end in
  let! _ := if negb approved && bool_decide (se_fenced s = None) then
              let lastSeen := default (se_created s) (wk_heartbeat w) in
              let! _ := guard (SessionInactivity <=? now - lastSeen) ErrSessionActive in
              guard (negb (existsb (fun a => now <? rec_LeaseExpiry a) attempts)) ErrSessionActive
            else st_ret tt in
  let! _ := for_each (fun a => fenceLostAttempt a now) attempts in
  let! _ := exec (on_core (set_sessions (fmap (fence_session worker now)))) in
  let! _ := if approved
            then exec (on_core (set_takeovers (alter (fun t => {| tk_to := tk_to t; tk_used := Some now |})
                                                 (worker, from))))
            else st_ret tt in
  worker_event worker "SESSION_FENCED".

(** * Registration *)

Record Session := {
  session_WorkerID : string;
  session_SessionID : string;
  session_Generation : Z;
  CleanupRequired : bool;
}.

Definition max_generation (c : Core) (worker : string) : Z :=
  map_fold (fun _ s acc => if bool_decide (se_worker s = worker) then Z.max (se_generation s) acc else acc)
    0 (sessions c).

Definition recordRegistration (worker : string) (r : Registration) (hash : string) : tx unit :=
  exec (on_registrations (fun m =>
    match m !! (worker, reg_RequestID r) with
    | Some _ => m
    | None => <[(worker, reg_RequestID r) := (reg_SessionID r, hash)]> m
    end)).

Definition set_registered (r : Registration) (now : Z) (w : WorkerRow) : WorkerRow :=
  {| wk_state := W_REGISTERING; wk_labels := wk_labels w;
     wk_capabilities := list_to_map ((fun c => (c, true)) <$> Capabilities r);
     wk_resources := reg_Resources r; wk_slots := Slots r; wk_current := Some (reg_SessionID r);
     wk_drain := wk_drain w; wk_heartbeat := Some now; wk_reconciled := false; wk_healthy := false;
     wk_pressure := false |}.

(** [now] is read by the recovery, [created] and [seen] by the two statements
    after it. *)
Definition RegisterSession_body (identity : WorkerIdentity) (r : Registration) (hash : string)
  (now created seen : Z) : tx (Done Session) :=
  let worker := identity_WorkerID identity in
  let session generation cleanup :=
    {| session_WorkerID := worker; session_SessionID := reg_SessionID r;
       session_Generation := generation; CleanupRequired := cleanup |} in
  let! _ := authorizeWorkerTx identity in
  let! db := st_gets id in
  let! w := row (workers (core db) !! worker) ErrNoRows in
  let! limit := row (authorizations (catalog db) !! worker) ErrNoRows in
  let asked := reg_Resources r in
  let! _ := guard (negb ((CPUMillis (au_limit limit) <? CPUMillis asked)
                         || (MemoryMiB (au_limit limit) <? MemoryMiB asked)
                         || (ScratchMiB (au_limit limit) <? ScratchMiB asked)
                         || (au_slots limit <? Slots r)
                         || negb (bool_decide (Labels r = au_labels limit)))) ErrInvalid in
  let! _ := match registrations (replay db) !! (worker, reg_RequestID r) with
    | Some (saved, savedHash) =>
        guard (bool_decide (saved = reg_SessionID r) && bool_decide (savedHash = hash)) ErrConflict
    | None => st_ret tt
    end in
  match sessions (core db) !! reg_SessionID r with
  | Some s =>
      if bool_decide (se_worker s = worker) then
        let! _ := guard (bool_decide (se_fenced s = None) && bool_decide (wk_current w = Some (reg_SessionID r)))
                    ErrFenced in
        let! _ := guard (bool_decide (se_hash s = Some hash)) ErrConflict in
        let! _ := recordRegistration worker r hash in
        st_ret (Commit (session (se_generation s) (negb (wk_reconciled w))))
      else
        (* another worker's session: the insertion below meets its key *)
        let! _ := match wk_current w with
          | Some current => recoverSession worker current (reg_SessionID r) now
          | None => st_ret tt
          end in
        st_err ErrUnique
  | None =>
      let! _ := match wk_current w with
        | Some current => recoverSession worker current (reg_SessionID r) now
        | None => st_ret tt
        end in
      let! generation := st_gets (fun db => max_generation (core db) worker + 1) in
      let! _ := exec (on_core (set_sessions <[reg_SessionID r :=
                  {| se_worker := worker; se_generation := generation; se_created := created;
                     se_fenced := None; se_hash := Some hash; se_sequence := 0; se_request := None;
                     se_report_hash := None |}]>)) in
      let! _ := exec (on_core (set_workers (alter (set_registered r seen) worker))) in
      let! _ := recordRegistration worker r hash in
      let! _ := worker_event worker "SESSION_REGISTERED" in
      st_ret (Commit (session generation true))
  end.

Definition RegisterSession (answer : TxAnswer) (identity : WorkerIdentity) (r : Registration)
  (now created seen : Z) : tx Session :=
  let! hash := st_lift (Registration_hash r) in
  if negb (canonicalUUID (identity_WorkerID identity)) || negb (canonicalUUID (identity_CredentialID identity))
  then st_err ErrUnauthorized
  else fun db =>
    match transact answer (RegisterSession_body identity r hash now created seen) db with
    | (Err ErrUnique, db') => (Err ErrConflict, db')
    | reply => reply
    end.

(** * Heartbeats *)

Record HeartbeatResult := { Drain : bool; Reconcile : bool; Stop : list Authority }.

Fixpoint check_inventory (worker : string) (seen : list string) (l : list ExecutionRecord) : bool :=
  match l with
  | [] => true
  | r :: rest =>
      let a := record_Authority r in
      bool_decide (WorkerID a = worker) && canonicalUUID (JobID a) && canonicalUUID (AttemptID a)
      && canonicalUUID (SessionID a) && (1 <=? Generation a) && hashPattern (record_ContainerID r)
      && negb (bool_decide (record_ContainerID r ∈ seen))
      && check_inventory worker (record_ContainerID r :: seen) rest
  end.

Definition sorted_inventory (h : HeartbeatReport) : HeartbeatReport :=
  {| hb_RequestID := hb_RequestID h; hb_SessionID := hb_SessionID h; Sequence := Sequence h;
     RuntimeHealthy := RuntimeHealthy h; DiskPressure := DiskPressure h;
     ReconciliationComplete := ReconciliationComplete h;
     Inventory := sort_by (fun a b => str_leb (record_ContainerID a) (record_ContainerID b)) (Inventory h) |}.

Definition HeartbeatReport_hash (h : HeartbeatReport) (worker : string) : result StoreError string :=
  if negb (canonicalUUID (hb_RequestID h)) || negb (canonicalUUID (hb_SessionID h)) || (Sequence h <? 1)
     || (1024 <? len (Inventory h))%N then Err ErrInvalid
  else if negb (check_inventory worker [] (Inventory h)) then Err ErrInvalid
  else Ok (hex (sha256 (marshal_heartbeat (sorted_inventory h)))).

Record heartbeatAttempt := {
  ha_Authority : Authority;
  ha_State : AttemptState.t;
  ha_Reservation : ReservationState;
  ha_LeaseExpiry : Z;
  ha_Current : option string;
  ha_Fenced : option Z;
  ha_Cancelled : bool;
}.

Definition authorized (a : heartbeatAttempt) (session : string) (now : Z) : bool :=
  active (ha_State a) && bool_decide (ha_Current a = Some (AttemptID (ha_Authority a)))
  && bool_decide (SessionID (ha_Authority a) = session) && bool_decide (ha_Fenced a = None)
  && (now <? ha_LeaseExpiry a) && negb (ha_Cancelled a).

(** The join of [attempts], [jobs], [reservations] and [worker_sessions]. *)
Definition heartbeatAttempts (c : Core) (worker : string) (inventory : list ExecutionRecord)
  : gmap string heartbeatAttempt :=
  map_imap (fun id a =>
    match jobs c !! at_job a, reservations c !! id, sessions c !! at_session a with
    | Some j, Some r, Some s =>
        if bool_decide (at_worker a = worker)
           && (active (at_state a) || bool_decide (rv_state r = R_quarantined)
               || bool_decide (id ∈ (fun x => AttemptID (record_Authority x)) <$> inventory))
        then Some {| ha_Authority := row_authority id a; ha_State := at_state a; ha_Reservation := rv_state r;
                     ha_LeaseExpiry := at_lease a; ha_Current := jb_current j; ha_Fenced := se_fenced s;
                     ha_Cancelled := jb_cancel j |}
        else None
    | _, _, _ => None
    end) (attempts c).

Definition set_cleanup (pending : bool) (a : AttemptRow) : AttemptRow :=
  {| at_job := at_job a; at_number := at_number a; at_worker := at_worker a; at_session := at_session a;
     at_state := at_state a; at_lease := at_lease a; at_phase := at_phase a; at_exit := at_exit a;
     at_reason := at_reason a; at_completion := at_completion a; at_digest := at_digest a;
     at_cleanup := pending; at_created := at_created a; at_finished := at_finished a;
     at_container := at_container a |}.

Definition set_heartbeat (sequence : Z) (request hash : string) (s : SessionRow) : SessionRow :=
  {| se_worker := se_worker s; se_generation := se_generation s; se_created := se_created s;
     se_fenced := se_fenced s; se_hash := se_hash s; se_sequence := sequence;
     se_request := Some request; se_report_hash := Some hash |}.

Definition set_health (state : WorkerState) (reconciled healthy pressure : bool) (now : Z) (w : WorkerRow)
  : WorkerRow :=
  {| wk_state := state; wk_labels := wk_labels w; wk_capabilities := wk_capabilities w;
     wk_resources := wk_resources w; wk_slots := wk_slots w; wk_current := wk_current w;
     wk_drain := wk_drain w; wk_heartbeat := Some now; wk_reconciled := reconciled;
     wk_healthy := healthy; wk_pressure := pressure |}.

Definition authority_leb (a b : Authority) : bool :=
  if negb (bool_decide (AttemptID a = AttemptID b)) then str_leb (AttemptID a) (AttemptID b)
  else if negb (bool_decide (SessionID a = SessionID b)) then str_leb (SessionID a) (SessionID b)
  else if negb (Generation a =? Generation b) then Generation a <? Generation b
  else str_leb (JobID a) (JobID b).

Definition WorkerState_name (s : WorkerState) : string :=
  match s with
  | W_REGISTERING => "REGISTERING" | W_READY => "READY" | W_DRAINING => "DRAINING"
  | W_SUSPECT => "SUSPECT" | W_OFFLINE => "OFFLINE" | W_QUARANTINED => "QUARANTINED"
  end.

(** A reservation a clean report of a later session may release. *)
Definition releasable (session : string) (a : heartbeatAttempt) : bool :=
  negb (bool_decide (SessionID (ha_Authority a) = session)) && negb (bool_decide (ha_Fenced a = None))
  && negb (active (ha_State a)).

Definition RecordHeartbeat_body (identity : WorkerIdentity) (h : HeartbeatReport) (hash : string) (now : Z)
  : tx (Done HeartbeatResult) :=
  let worker := identity_WorkerID identity in
  let! _ := authorizeWorkerTx identity in
  let! db := st_gets id in
  let attempts := map_to_list (heartbeatAttempts (core db) worker (Inventory h)) in
  let! w := row (workers (core db) !! worker) ErrFenced in
  let! s := row (sessions (core db) !! hb_SessionID h) ErrFenced in
  let! _ := guard (bool_decide (wk_current w = Some (hb_SessionID h)) && bool_decide (se_worker s = worker)
                   && bool_decide (se_fenced s = None)) ErrFenced in
  let! _ := guard (se_sequence s <=? Sequence h) ErrStaleHeartbeat in
  let replay := Sequence h =? se_sequence s in
  let! _ := guard (negb replay || (bool_decide (se_request s = Some (hb_RequestID h))
                                   && bool_decide (se_report_hash s = Some hash))) ErrConflict in
  let listed r :=
    match heartbeatAttempts (core db) worker (Inventory h) !! AttemptID (record_Authority r) with
    | Some a => bool_decide (ha_Authority a = record_Authority r) && authorized a (hb_SessionID h) now
    | None => false
    end in
  let stop := (record_Authority <$> List.filter (fun r => negb (listed r)) (Inventory h))
              ++ (ha_Authority ∘ snd <$> List.filter
                    (fun '(_, a) => active (ha_State a) && negb (authorized a (hb_SessionID h) now)) attempts) in
  let missing := existsb (fun '(id, a) => bool_decide (ha_State a = AttemptState.Running)
      && negb (bool_decide (id ∈ (fun x => AttemptID (record_Authority x)) <$> Inventory h))) attempts in
  let needsReconcile := negb (ReconciliationComplete h) || missing || negb (bool_decide (stop = [])) in
  let canRelease := negb replay && RuntimeHealthy h && negb needsReconcile in
  let quarantined := List.filter (fun '(_, a) => bool_decide (ha_Reservation a = R_quarantined)) attempts in
  let! _ := for_each (fun '(id, a) =>
      if canRelease && releasable (hb_SessionID h) a then
        let! _ := exec (on_core (set_reservations (alter (set_reservation R_released) id))) in
        update_attempt (set_cleanup false) id
      else st_ret tt) quarantined in
  let needsReconcile := needsReconcile
      || existsb (fun '(_, a) => negb (canRelease && releasable (hb_SessionID h) a)) quarantined in
  let reconciled := if replay then wk_reconciled w else negb needsReconcile && RuntimeHealthy h in
  let state := if replay then wk_state w
               else if negb (RuntimeHealthy h) || DiskPressure h then W_QUARANTINED
               else if negb reconciled then W_REGISTERING
               else if wk_drain w then W_DRAINING
               else W_READY in
  let! _ := if replay then st_ret tt
            else
              let! _ := exec (on_core (set_sessions (alter (set_heartbeat (Sequence h) (hb_RequestID h) hash)
                                                       (hb_SessionID h)))) in
              let! _ := exec (on_core (set_workers (alter
                          (set_health state reconciled (RuntimeHealthy h) (DiskPressure h) now) worker))) in
              if bool_decide (state = wk_state w) then st_ret tt
              else worker_event worker ("WORKER_" +:+ WorkerState_name state) in
  st_ret (Commit {| Drain := wk_drain w || negb (bool_decide (state = W_READY));
                    Reconcile := negb reconciled || needsReconcile;
                    Stop := sort_by authority_leb (remove_dups stop) |}).

Definition RecordHeartbeat (answer : TxAnswer) (identity : WorkerIdentity) (h : HeartbeatReport) (now : Z)
  : tx HeartbeatResult :=
  if negb (canonicalUUID (identity_WorkerID identity)) || negb (canonicalUUID (identity_CredentialID identity))
  then st_err ErrUnauthorized
  else
    let! hash := st_lift (HeartbeatReport_hash h (identity_WorkerID identity)) in
    transact answer (RecordHeartbeat_body identity h hash now).

End Sessions.
