(* ===== verification/StoreAcquire.v ===== *)
(** Admission, assignment and cancellation ([internal/store/jobs.go],
    [job_inputs.go], [queue_blockers.go], [acquisition_selection.go],
    [acquisition.go], [assignments.go], [cancellation.go], [worker_drain.go],
    and the manifest check of [dataset_registration.go]). *)

From S2P Require Import Prelude Strings Protocol Control Execution SpecJob Store StoreLeases StoreRecovery.
Open Scope Z_scope.

(** * Datasets *)

(** The loop over the files; [previous] and [total] are its variables. *)
Fixpoint check_files (archive : Z) (previous : string) (total : Z) (l : list DatasetFile) : bool :=
  match l with
  | [] => true
  | f :: rest =>
      let p := file_Path f in
      negb (bool_decide (p ∈ [EmptyString; "."; ".."]%string) || starts_with "../" p
            || (512 <? str_len p)%N || starts_with "/" p || negb (bool_decide (path_Clean p = p))
            || contains "\" p || contains nul p || str_leb p previous
            || (starts_with (previous +:+ "/") p && negb (is_empty_str previous))
            || (file_SizeBytes f <? 0) || (archive - total <? file_SizeBytes f)
            || negb (hashPattern (file_SHA256 f)))
      && check_files archive p (total + file_SizeBytes f) rest
  end.

Definition DatasetManifest_validate (m : DatasetManifest) (archive : Z) : result StoreError unit :=
  if negb (bool_decide (Format m = "tar.v1"%string)) || bool_decide (Files m = [])
     || (1024 <? len (Files m))%N then Err ErrInvalid
  else if check_files archive EmptyString 0 (Files m) then Ok tt else Err ErrInvalid.

Record DatasetBinding := { db_ID : string; db_row : DatasetRow }.
Record JobInputBinding := { jib_Dataset : DatasetBinding; jib_MountPath : string }.

(** The inputs of a job in the order of their positions; the rows are those of
    the join with the dataset of the same project. *)
Definition job_input_rows (c : Catalog) (project job : string) : list (Z * JobInputBinding) :=
  sort_by (fun x y => x.1 <=? y.1)
    (omap (fun '((j, position), r) =>
        if bool_decide (j = job) && bool_decide (ji_project r = project) then
          match datasets c !! ji_dataset r with
          | Some d => if bool_decide (ds_project d = ji_project r)
                      then Some (position, {| jib_Dataset := {| db_ID := ji_dataset r; db_row := d |};
                                              jib_MountPath := ji_mount r |}) else None
          | None => None
          end
        else None) (map_to_list (job_inputs c))).

Fixpoint bind_inputs (next : Z) (expected : list SpecInput) (rows : list (Z * JobInputBinding))
  : result StoreError (list JobInputBinding) :=
  match rows, expected with
  | [], [] => Ok []
  | [], _ :: _ => Err ErrNotFound
  | _ :: _, [] => Err ErrInvalid
  | (position, b) :: rows', e :: expected' =>
      if negb (position =? next) || negb (bool_decide (ds_name (db_row (jib_Dataset b)) = Dataset e))
         || negb (bool_decide (jib_MountPath b = MountPath e))
         || negb (is_ok (DatasetManifest_validate (ds_manifest (db_row (jib_Dataset b)))
                           (ds_size (db_row (jib_Dataset b))))) then Err ErrInvalid
      else let? bs := bind_inputs (next + 1) expected' rows' in Ok (b :: bs)
  end.

Definition loadJobInputs (project job : string) (expected : list SpecInput) : tx (list JobInputBinding) :=
  let! c := st_gets catalog in
  if negb (canonicalUUID project) || negb (canonicalUUID job) || (64 <? len expected)%N then st_err ErrInvalid
  else st_lift (bind_inputs 0 expected (job_input_rows c project job)).

(** * Admission *)

Record JobRecord := {
  rec_id : string;
  rec_project : string;
  rec_state : JobState;
  rec_spec_hash : string;
  rec_accepted : option string;
  rec_manifest : option bytes;
  rec_replayed : bool;
}.

(** The manifest of the accepted completion: [LEFT JOIN attempt_completions]. *)
Definition job_record (c : Core) (id : string) (j : JobRow) (replayed : bool) : JobRecord :=
  {| rec_id := id; rec_project := jb_project j; rec_state := jb_state j; rec_spec_hash := jb_spec_hash j;
     rec_accepted := jb_accepted j;
     rec_manifest := match jb_accepted j with
                     | Some a => match completions c !! a with
                                 | Some co => if bool_decide (co_job co = id)
                                                 && bool_decide (co_state co = AttemptState.Succeeded)
                                              then Some (co_manifest co) else None
                                 | None => None
                                 end
                     | None => None
                     end;
     rec_replayed := replayed |}.

Definition GetJob (project job : string) : tx JobRecord :=
  query (fun db => match jobs (core db) !! job with
                   | Some j => if bool_decide (jb_project j = project)
                               then Some (job_record (core db) job j false) else None
                   | None => None
                   end) ErrNotFound.

Definition lookupSubmission (project key requestHash : string) : tx JobRecord :=
  let! db := st_gets id in
  match idempotency_keys (replay db) !! (project, key) with
  | None => st_err ErrNotFound
  | Some (hash, reference) =>
      let! j := row (jobs (core db) !! reference) ErrNotFound in
      if bool_decide (hash = requestHash) then st_ret (job_record (core db) reference j true)
      else st_err ErrConflict
  end.

Definition new_job (project : string) (job : SpecJob) (hash : string) (now : Z) : JobRow :=
  {| jb_project := project; jb_spec := job; jb_spec_hash := hash; jb_state := J_QUEUED;
     jb_resources := spec_Resources (Spec job); jb_priority := Priority (Spec job); jb_eligible := now;
     jb_counter := 0; jb_current := None; jb_cancel := false; jb_accepted := None; jb_manifest := None;
     jb_events := 1; jb_created := now; jb_sweep := None |}.

(** [SELECT ... FROM projects WHERE name=$1]; names are unique. *)
Definition project_named (db : Db) (name : string) : option (string * ProjectRow) :=
  List.find (fun '(_, p) => bool_decide (pj_name p = name)) (map_to_list (projects (catalog db))).

Section Acquire.
Context `{GoLib}.

(** [jobID] is [gen_random_uuid()]. *)
Definition SubmitJobResolved (answer : TxAnswer) (key requestHash : string) (job : SpecJob)
  (bindings : list (string * string)) (jobID : string) (now : Z) : tx JobRecord :=
  if (str_len key <? 1)%N || (128 <? str_len key)%N || negb (hashPattern requestHash) then st_err ErrInvalid
  else match Canonical marshal_job sha256 job with
  | Err _ => st_err ErrInvalid
  | Ok (_, executionHash) =>
      if negb (pinnedImage (Image (Spec job))) || negb (len (Inputs (Spec job)) =? len bindings)%N
      then st_err ErrInvalid
      else if existsb (fun '((bound, name), i) => negb (canonicalUUID bound) || negb (bool_decide (name = Dataset i)))
                (zip bindings (Inputs (Spec job))) then st_err ErrInvalid
      else transact answer (
        let! '(project, p) := query (fun db => project_named db (meta_Project (job_Metadata job))) ErrNotFound in
        let! taken := st_gets (fun db => idempotency_keys (replay db) !! (project, key)) in
        match taken with
        | Some _ => let! r := lookupSubmission project key requestHash in st_ret (Return r)
        | None =>
            let! _ := exec (on_idempotency_keys <[(project, key) := (requestHash, jobID)]>) in
            let! _ := guard (pj_enabled p) ErrDisabled in
            let! _ := guard (negb ((pj_cpu_quota p <? CPUMillis (spec_Resources (Spec job)))
                                   || (pj_memory_quota p <? MemoryMiB (spec_Resources (Spec job))))) ErrQuota in
            let! free := st_gets (fun db => bool_decide (jobs (core db) !! jobID = None)) in
            let! _ := guard free ErrUnique in
            let stored := with_On (sort_by str_leb (On (spec_Retry (Spec job)))) job in
            let! _ := exec (on_core (set_jobs <[jobID := new_job project stored executionHash now]>)) in
            let! _ := for_each (fun '(position, ((bound, name), i)) =>
                let! db := st_gets id in
                let! _ := guard (match datasets (catalog db) !! bound with
                                 | Some d => bool_decide (ds_project d = project) && bool_decide (ds_name d = name)
                                 | None => false
                                 end) ErrNotFound in
                exec (on_job_inputs <[(jobID, Z.of_nat position) :=
                  {| ji_project := project; ji_dataset := bound; ji_mount := MountPath i |}]>))
              (imap pair (zip bindings (Inputs (Spec job)))) in
            let! _ := insert_event jobID 1 (SUBMITTED executionHash) in
            let! j := query (fun db => jobs (core db) !! jobID) ErrNoRows in
            let! c := st_gets core in
            st_ret (Commit (job_record c jobID j false))
        end)
  end.

(** * Assignment *)

Record acquisitionWorker := {
  aw_heartbeat : option Z;
  aw_state : WorkerState;
  aw_healthy : bool;
  aw_reconciled : bool;
  aw_pressure : bool;
  aw_drain : bool;
  aw_free : Resources;
  aw_slots : Z;
  aw_labels : gmap string string;
  aw_capabilities : gmap string bool;
}.

(** What the reservations of a worker hold: those that are [active] or
    [quarantined]. *)
Definition held (f : ReservationRow -> Z) (c : Core) (worker : string) : Z :=
  sum_rows (fun _ r => if bool_decide (rv_worker r = worker) && negb (bool_decide (rv_state r = R_released))
                       then f r else 0) (reservations c).

Definition free_resources (c : Core) (worker : string) (w : WorkerRow) : Resources :=
  {| CPUMillis := CPUMillis (wk_resources w) - held (fun r => CPUMillis (rv_resources r)) c worker;
     MemoryMiB := MemoryMiB (wk_resources w) - held (fun r => MemoryMiB (rv_resources r)) c worker;
     ScratchMiB := ScratchMiB (wk_resources w) - held (fun r => ScratchMiB (rv_resources r)) c worker |}.

Definition readAcquisitionWorker (worker session : string) : tx acquisitionWorker :=
  let! c := st_gets core in
  let! w := row (workers c !! worker) ErrNoRows in
  let! _ := guard (match sessions c !! session with
                   | Some s => bool_decide (se_worker s = worker) && bool_decide (wk_current w = Some session)
                               && bool_decide (se_fenced s = None)
                   | None => false
                   end) ErrFenced in
  st_ret {| aw_heartbeat := wk_heartbeat w; aw_state := wk_state w; aw_healthy := wk_healthy w;
            aw_reconciled := wk_reconciled w; aw_pressure := wk_pressure w; aw_drain := wk_drain w;
            aw_free := free_resources c worker w; aw_slots := wk_slots w - held (fun _ => 1) c worker;
            aw_labels := wk_labels w; aw_capabilities := wk_capabilities w |}.

(** The empty reason is none. *)
Definition readiness (w : acquisitionWorker) (now : Z) (allow_soft : bool) : string :=
  let cap c := default false (aw_capabilities w !! c) in
  if negb (bool_decide (aw_state w = W_READY)) || negb (aw_healthy w) || negb (aw_reconciled w)
     || aw_pressure w || aw_drain w
     || match aw_heartbeat w with Some t => WorkerSuspectAfter <=? now - t | None => true end
  then "WORKER_NOT_READY"
  else if negb (cap "docker.v1"%string) || negb (cap "cpu.hard"%string) || negb (cap "memory.hard"%string)
       || negb (cap "pids.hard"%string)
       || (negb (cap "scratch.quota"%string) && negb (allow_soft && cap "scratch.soft"%string))
  then "PLACEMENT_MISMATCH"
  else EmptyString.

(** What the active attempts of a project, and of a sweep, use. *)
Definition project_usage (f : ReservationRow -> Z) (c : Core) (project : string) : Z :=
  sum_rows (fun id a =>
    if active (at_state a) then
      match jobs c !! at_job a, reservations c !! id with
      | Some j, Some r => if bool_decide (jb_project j = project) then f r else 0
      | _, _ => 0
      end
    else 0) (attempts c).

Definition sweep_usage (c : Core) (sweep : string) : Z :=
  count_rows (fun _ a =>
    active (at_state a)
    && match jobs c !! at_job a with
       | Some j => bool_decide (jb_sweep j = Some sweep)
       | None => false
       end) (attempts c).

Definition labels_match (have want : gmap string string) : bool :=
  forallb (fun '(k, v) => bool_decide (have !! k = Some v)) (map_to_list want).

(** Ten eligible minutes earn one level. *)
Definition effective_priority (j : JobRow) (now : Z) : Z :=
  Z.min 3 (jb_priority j + Z.min 3 (Z.max 0 (now - jb_eligible j) / (600 * second))).

Record candidate := {
  ca_id : string;
  ca_project : string;
  ca_created : Z;
  ca_priority : Z;
  ca_visible : bool;
  ca_reason : string;
}.

Definition candidate_reason (db : Db) (w : acquisitionWorker) (p : ProjectRow) (j : JobRow) (now : Z) : string :=
  let c := core db in
  let need := jb_resources j in
  if negb (pj_enabled p) then "PROJECT_DISABLED"
  else if now <? jb_eligible j then "RETRY_BACKOFF"
  else if negb (labels_match (aw_labels w) (PlacementLabels (Spec (jb_spec j)))) then "PLACEMENT_MISMATCH"
  else if (CPUMillis (aw_free w) <? CPUMillis need) || (MemoryMiB (aw_free w) <? MemoryMiB need)
       || (ScratchMiB (aw_free w) <? ScratchMiB need) || (aw_slots w <? 1) then "NO_RESOURCE_FIT"
  else if (pj_cpu_quota p - project_usage (fun r => CPUMillis (rv_resources r)) c (jb_project j) <? CPUMillis need)
       || (pj_memory_quota p - project_usage (fun r => MemoryMiB (rv_resources r)) c (jb_project j) <? MemoryMiB need)
       || (pj_concurrency_quota p <=? project_usage (fun _ => 1) c (jb_project j)) then "PROJECT_QUOTA"
  else match jb_sweep j with
  | Some sweep =>
      match sweeps (catalog db) !! sweep with
      | Some s => if sw_max_concurrent s <=? sweep_usage c sweep then "SWEEP_CONCURRENCY" else EmptyString
      | None => EmptyString
      end
  | None => EmptyString
  end.

Definition candidates (db : Db) (worker : string) (w : acquisitionWorker) (now : Z) : list candidate :=
  omap (fun '(id, j) =>
    match projects (catalog db) !! jb_project j with
    | Some p =>
        if queued (jb_state j) && negb (jb_cancel j)
           && bool_decide ((worker, jb_project j) ∈ worker_projects (catalog db))
        then Some {| ca_id := id; ca_project := jb_project j; ca_created := jb_created j;
                     ca_priority := effective_priority j now;
                     ca_visible := pj_enabled p && (jb_eligible j <=? now);
                     ca_reason := candidate_reason db w p j now |}
        else None
    | None => None
    end) (map_to_list (jobs (core db))).

(** Lexicographic order, as the columns of an [ORDER BY]. *)
Definition lex (c : comparison) (k : bool) : bool :=
  match c with Lt => true | Eq => k | Gt => false end.

Definition first_true (x y : bool) : comparison :=
  match x, y with true, false => Lt | false, true => Gt | _, _ => Eq end.

Definition selected_leb (cursor : option string) (x y : candidate) : bool :=
  let after c := match cursor with Some p => str_ltb p (ca_project c) | None => true end in
  lex (first_true (is_empty_str (ca_reason x)) (is_empty_str (ca_reason y)))
    (lex (first_true (after x) (after y))
      (lex (String.compare (ca_project x) (ca_project y))
        (lex (Z.compare (ca_priority y) (ca_priority x))
          (lex (Z.compare (ca_created x) (ca_created y)) (str_leb (ca_id x) (ca_id y)))))).

(** The latest blocker on record for a job. *)
Definition last_observed (t : Trail) (job : string) : option Z :=
  bl_observed ∘ snd <$> head (sort_by (fun x y => bl_id y.2 <=? bl_id x.2)
    (List.filter (fun '((j, _), _) => bool_decide (j = job)) (map_to_list (blockers t)))).

Definition sampled_leb (t : Trail) (x y : candidate) : bool :=
  let key c := last_observed t (ca_id c) in
  match key x, key y with
  | None, Some _ => true
  | Some _, None => false
  | kx, ky =>
      lex (Z.compare (default 0 kx) (default 0 ky))
        (lex (Z.compare (ca_created x) (ca_created y)) (str_leb (ca_id x) (ca_id y)))
  end.

Definition queueBlockerSampleLimit : nat := 16.
Definition QueueBlockerHistoryLimit : nat := 16.
Definition queueBlockerResampleAfter : Z := 30 * second.

Record acquisitionSelection := {
  sel_jobID : string;
  sel_reason : string;
  sel_blockers : list (string * string);
  sel_observedAt : Z;
}.

Definition selectAcquisitionCandidate (db : Db) (worker : string) (w : acquisitionWorker)
  (cursor : option string) (now : Z) : acquisitionSelection :=
  let all := candidates db worker w now in
  let chosen := head (sort_by (selected_leb cursor) (List.filter ca_visible all)) in
  let due c := match last_observed (trail db) (ca_id c) with
               | Some o => o <=? now - queueBlockerResampleAfter
               | None => true
               end in
  let sampled := take queueBlockerSampleLimit
    (sort_by (sampled_leb (trail db))
       (List.filter (fun c => negb (is_empty_str (ca_reason c)) && due c) all)) in
  {| sel_jobID := default EmptyString (ca_id <$> chosen);
     sel_reason := default "QUEUE_EMPTY"%string (ca_reason <$> chosen);
     sel_blockers := sort_by (fun x y => str_leb x.1 y.1) ((fun c => (ca_id c, ca_reason c)) <$> sampled);
     sel_observedAt := now |}.

Definition validQueueBlockerReason (reason : string) : bool :=
  bool_decide (reason ∈ ["PLACEMENT_MISMATCH"; "NO_RESOURCE_FIT"; "PROJECT_QUOTA"; "SWEEP_CONCURRENCY";
                         "PROJECT_DISABLED"; "RETRY_BACKOFF"]%string).

(** The slot to write: a vacant one, or that of the oldest observation. *)
Definition blocker_slot (t : Trail) (job : string) : Z :=
  let age slot := bl_id <$> blockers t !! (job, slot) in
  default 0 (head (sort_by (fun x y =>
      match age x, age y with
      | None, Some _ => true
      | Some _, None => false
      | ax, ay => lex (Z.compare (default 0 ax) (default 0 ay)) (x <=? y)
      end) (Z.of_nat <$> seq 0 QueueBlockerHistoryLimit))).

Definition recordQueueBlocker (job worker session request reason : string) (observedAt : Z) : tx unit :=
  if negb (canonicalUUID job) || negb (canonicalUUID worker) || negb (canonicalUUID session)
     || negb (canonicalUUID request) || negb (validQueueBlockerReason reason) || (observedAt =? zero_time)
  then st_err ErrInvalid
  else
    let! db := st_gets id in
    let same '((j, _), b) := bool_decide (j = job) && bool_decide (bl_worker b = worker)
                             && bool_decide (bl_session b = session) && bool_decide (bl_request b = request) in
    match List.find same (map_to_list (blockers (trail db))) with
    | Some (_, b) => guard (bool_decide (bl_reason b = reason)) ErrConflict
    | None =>
        let! j := row (jobs (core db) !! job) ErrInvalid in
        let! _ := guard (queued (jb_state j) && negb (jb_cancel j)) ErrInvalid in
        let n := blocker_sequence (trail db) + 1 in
        let! _ := exec (on_blocker_sequence (fun _ => n)) in
        exec (on_blockers <[(job, blocker_slot (trail db) job) :=
          {| bl_id := n; bl_worker := worker; bl_session := session; bl_request := request;
             bl_counter := jb_counter j; bl_reason := reason; bl_observed := observedAt |}]>)
    end.

Record WorkAssignment := {
  wa_Authority : Authority;
  wa_Job : SpecJob;
  wa_Inputs : list JobInputBinding;
  wa_CanonicalSpec : bytes;
  wa_SpecHash : string;
  wa_LeaseExpiresAt : Z;
  wa_PhaseDeadline : Z;
  wa_ServerTime : Z;
}.

Record AcquisitionResult := {
  ac_Assignment : option WorkAssignment;
  ac_NoWorkReason : string;
  ac_Decision : option Decision_.t;
}.

Definition no_work (reason : string) : AcquisitionResult :=
  {| ac_Assignment := None; ac_NoWorkReason := reason; ac_Decision := None |}.

Definition refused (d : Decision_.t) : AcquisitionResult :=
  {| ac_Assignment := None; ac_NoWorkReason := EmptyString; ac_Decision := Some d |}.

Definition assigned (a : WorkAssignment) : AcquisitionResult :=
  {| ac_Assignment := Some a; ac_NoWorkReason := EmptyString; ac_Decision := None |}.

(** [job.Canonical()] and the comparison with the stored hash. *)
Definition canonical_spec (job : SpecJob) (specHash : string) : tx bytes :=
  match Canonical marshal_job sha256 job with
  | Ok (canonical, computed) => if bool_decide (computed = specHash) then st_ret canonical else st_err ErrInvalid
  | Err _ => st_err ErrInvalid
  end.

Definition replayAssignment (worker session attempt : string) (now : Z) : tx AcquisitionResult :=
  let! a := query (fun db => attempts (core db) !! attempt) ErrNoRows in
  let! j := query (fun db => jobs (core db) !! at_job a) ErrNoRows in
  let! _ := readAcquisitionWorker worker session in
  if negb (bool_decide (at_worker a = worker)) || negb (bool_decide (at_session a = session))
  then st_err ErrFenced
  else if negb (active (at_state a)) then st_ret (refused Decision_.AlreadyTerminal)
  else if negb (bool_decide (jb_current j = Some attempt)) || (at_lease a <=? now)
  then st_ret (refused Decision_.Fenced)
  else if jb_cancel j || (at_phase a <=? now) then st_ret (refused Decision_.StopRequested)
  else
    let! canonical := canonical_spec (jb_spec j) (jb_spec_hash j) in
    let! inputs := loadJobInputs (jb_project j) (at_job a) (Inputs (Spec (jb_spec j))) in
    st_ret (assigned {| wa_Authority := row_authority attempt a; wa_Job := jb_spec j; wa_Inputs := inputs;
                        wa_CanonicalSpec := canonical; wa_SpecHash := jb_spec_hash j;
                        wa_LeaseExpiresAt := at_lease a; wa_PhaseDeadline := at_phase a; wa_ServerTime := now |}).

(** The checks under the final locks, each overruling the one before: the
    project's quota, the sweep's, the worker's capacity and its labels. *)
Definition final_reason (db : Db) (w : acquisitionWorker) (j : JobRow) (p : ProjectRow)
  (sweep : option (string * SweepRow)) (reason : string) : string :=
  let c := core db in
  let need := spec_Resources (Spec (jb_spec j)) in
  let reason := if negb (pj_enabled p)
                   || (pj_cpu_quota p - project_usage (fun r => CPUMillis (rv_resources r)) c (jb_project j)
                       <? CPUMillis need)
                   || (pj_memory_quota p - project_usage (fun r => MemoryMiB (rv_resources r)) c (jb_project j)
                       <? MemoryMiB need)
                   || (pj_concurrency_quota p <=? project_usage (fun _ => 1) c (jb_project j))
                then "PROJECT_QUOTA"%string else reason in
  let reason := match sweep with
                | Some (id, s) => if sw_max_concurrent s <=? sweep_usage c id then "SWEEP_CONCURRENCY"%string
                                  else reason
                | None => reason
                end in
  let reason := if (CPUMillis (aw_free w) <? CPUMillis need) || (MemoryMiB (aw_free w) <? MemoryMiB need)
                   || (ScratchMiB (aw_free w) <? ScratchMiB need) || (aw_slots w <? 1)
                then "NO_RESOURCE_FIT"%string else reason in
  if labels_match (aw_labels w) (PlacementLabels (Spec (jb_spec j))) then reason else "PLACEMENT_MISMATCH".

Definition new_attempt (job : string) (number : Z) (worker session : string) (lease phase created : Z)
  : AttemptRow :=
  {| at_job := job; at_number := number; at_worker := worker; at_session := session;
     at_state := AttemptState.Assigned; at_lease := lease; at_phase := phase; at_exit := None;
     at_reason := None; at_completion := None; at_digest := None; at_cleanup := false;
     at_created := created; at_finished := None; at_container := None |}.

Definition set_assigned (attempt : string) (number : Z) (j : JobRow) : JobRow :=
  {| jb_project := jb_project j; jb_spec := jb_spec j; jb_spec_hash := jb_spec_hash j;
     jb_state := J_ACTIVE; jb_resources := jb_resources j; jb_priority := jb_priority j;
     jb_eligible := jb_eligible j; jb_counter := number; jb_current := Some attempt;
     jb_cancel := jb_cancel j; jb_accepted := jb_accepted j; jb_manifest := jb_manifest j;
     jb_events := jb_events j + 1; jb_created := jb_created j; jb_sweep := jb_sweep j |}.

(** The statements that create an attempt; [id] is [uuid.NewString()], [created]
    the column's default. *)
Definition assign (worker session jobID : string) (j : JobRow) (id : string) (now created : Z)
  : tx WorkAssignment :=
  let job := jb_spec j in
  let number := jb_counter j + 1 in
  let lease := now + InitialLease in
  let phase := now + StartupSeconds (spec_Timeouts (Spec job)) * second in
  let! _ := guard ((jb_counter j <? MaxAttempts (spec_Retry (Spec job))) && pinnedImage (Image (Spec job)))
              ErrInvalid in
  let! canonical := canonical_spec job (jb_spec_hash j) in
  let! inputs := loadJobInputs (jb_project j) jobID (Inputs (Spec job)) in
  let! c := st_gets core in
  let! _ := guard (bool_decide (attempts c !! id = None) && bool_decide (reservations c !! id = None)) ErrUnique in
  let! _ := exec (on_core (set_attempts
              <[id := new_attempt jobID number worker session lease phase created]>)) in
  let! _ := exec (on_core (set_reservations
              <[id := {| rv_worker := worker; rv_resources := spec_Resources (Spec job); rv_state := R_active |}]>)) in
  let! _ := update_job_event (set_assigned id number) jobID (ASSIGNED id worker session number) in
  let! t := st_gets trail in
  let! _ := guard (bool_decide (is_Some (cursor t))) ErrInvalid in
  let! _ := exec (on_cursor (fun _ => Some (Some (jb_project j)))) in
  st_ret {| wa_Authority := {| JobID := jobID; AttemptID := id; Generation := number; WorkerID := worker;
                               SessionID := session |};
            wa_Job := job; wa_Inputs := inputs; wa_CanonicalSpec := canonical; wa_SpecHash := jb_spec_hash j;
            wa_LeaseExpiresAt := lease; wa_PhaseDeadline := phase; wa_ServerTime := now |}.

(** The clock readings of one acquisition: the first check, the queue scan, the
    final check, and the default of [created_at]. *)
Record Clocks := { first_check : Z; scan : Z; final_check : Z; creation : Z }.

(** The candidate and the reason there is none, with the blockers recorded. *)
Definition choose (worker : string) (w : acquisitionWorker) (session request : string) (allow_soft : bool)
  (t : Clocks) : tx (string * string) :=
  let reason := readiness w (first_check t) allow_soft in
  if negb (is_empty_str reason) then st_ret (EmptyString, reason)
  else
    let! cursor := query (fun db => cursor (trail db)) ErrInvalid in
    let! db := st_gets id in
    let s := selectAcquisitionCandidate db worker w cursor (scan t) in
    let! _ := for_each (fun '(job, why) =>
                recordQueueBlocker job worker session request why (sel_observedAt s)) (sel_blockers s) in
    st_ret (sel_jobID s, sel_reason s).

Definition AcquireWork_body (identity : WorkerIdentity) (session request : string) (allow_soft : bool)
  (t : Clocks) (id : string) : tx (Done AcquisitionResult) :=
  let worker := identity_WorkerID identity in
  let key := (worker, session, request) in
  let hash := hex (sha256 (str_bytes "dispatch.worker.v1.AcquireWork")) in
  let! _ := authorizeWorkerTx identity in
  let! saved := st_gets (fun db => worker_requests (replay db) !! key) in
  let! _ := guard (match saved with Some q => bool_decide (rq_hash q = hash) | None => true end) ErrConflict in
  match saved ≫= rq_attempt with
  | Some attempt =>
      let! r := replayAssignment worker session attempt (final_check t) in
      st_ret (Commit r)
  | None =>
      let! w := readAcquisitionWorker worker session in
      match saved with
      | Some q => st_ret (Return (no_work (default EmptyString (rq_reason q))))
      | None =>
          let! '(jobID, reason) := choose worker w session request allow_soft t in
          let! candidate := if is_empty_str jobID then st_ret None
            else
              let! j := query (fun db => jobs (core db) !! jobID) ErrNoRows in
              let! _ := guard (is_ok (Validate (jb_spec j))) ErrInvalid in
              st_ret (Some j) in
          let! w := readAcquisitionWorker worker session in
          let! reason := match candidate with
            | None => st_ret reason
            | Some j =>
                let! p := query (fun db => projects (catalog db) !! jb_project j) ErrNoRows in
                let! sweep := match jb_sweep j with
                  | None => st_ret None
                  | Some s => let! r := query (fun db => sweeps (catalog db) !! s) ErrNoRows in
                              st_ret (Some (s, r))
                  end in
                let! db := st_gets (fun db => db) in
                st_ret (final_reason db w j p sweep reason)
            end in
          let ready := readiness w (final_check t) allow_soft in
          let reason := if is_empty_str ready then reason else ready in
          let reason := match candidate with
            | Some j => if negb (queued (jb_state j)) || jb_cancel j || (final_check t <? jb_eligible j)
                        then "QUEUE_EMPTY"%string else reason
            | None => reason
            end in
          let! created := match candidate with
            | Some j => if is_empty_str reason
                        then let! a := assign worker session jobID j id (final_check t) (creation t) in
                             st_ret (Some a)
                        else st_ret None
            | None => let! _ := guard (negb (is_empty_str reason)) ErrInvalid in st_ret None
            end in
          let! _ := exec (on_worker_requests <[key :=
                      {| rq_hash := hash; rq_attempt := AttemptID ∘ wa_Authority <$> created;
                         rq_reason := if is_empty_str reason then None else Some reason |}]>) in
          st_ret (Commit match created with
                         | Some a => assigned a
                         | None => no_work reason
                         end)
      end
  end.

Definition AcquireWork (answer : TxAnswer) (identity : WorkerIdentity) (session request : string)
  (allow_soft : bool) (t : Clocks) (id : string) : tx AcquisitionResult :=
  if negb (canonicalUUID (identity_WorkerID identity)) || negb (canonicalUUID (identity_CredentialID identity))
  then st_err ErrUnauthorized
  else if negb (canonicalUUID session) || negb (canonicalUUID request) then st_err ErrInvalid
  else transact answer (AcquireWork_body identity session request allow_soft t id).

(** * Recovery of assignments *)

Definition MaxAssignmentPageSize : Z := 64.

Definition assignmentBudgetBytes (a : WorkAssignment) : Z :=
  foldl (fun bytes i => bytes + Z.of_N (len (marshal_dataset (ds_manifest (db_row (jib_Dataset i))))) + 65536 + 1024)
    (2 * Z.of_N (len (wa_CanonicalSpec a)) + 1024) (wa_Inputs a).

(** The references of one page and one more, ordered by job. *)
Definition assignment_references (c : Core) (worker session after : string) (limit : nat)
  : list (string * string) :=
  take limit (sort_by (fun x y => str_leb x.1 y.1)
    (omap (fun '(id, a) =>
        if bool_decide (at_worker a = worker) && bool_decide (at_session a = session) && active (at_state a)
           && (is_empty_str after || str_ltb after (at_job a)) && bool_decide (is_Some (jobs c !! at_job a))
        then Some (at_job a, id) else None) (map_to_list (attempts c)))).

Definition pageBudget : Z := 4 * 1024 * 1024 - 64 * 1024.

(** The loop over the references: what is recovered so far, its size, the last
    job passed, and whether it stopped for lack of room. *)
Fixpoint fill_page (worker session : string) (clock : nat -> Z) (n : nat) (refs : list (string * string))
  (page : list WorkAssignment) (bytes : Z) (last : string) : tx (list WorkAssignment * string * bool) :=
  match refs with
  | [] => st_ret (page, last, false)
  | (job, attempt) :: rest =>
      let! r := replayAssignment worker session attempt (clock n) in
      match ac_Assignment r with
      | Some a =>
          let size := assignmentBudgetBytes a in
          if negb (bool_decide (page = [])) && (pageBudget <? bytes + size) then st_ret (page, last, true)
          else fill_page worker session clock (Datatypes.S n) rest (page ++ [a]) (bytes + size) job
      | None => fill_page worker session clock (Datatypes.S n) rest page bytes job
      end
  end.

Definition ListAssignments (answer : TxAnswer) (identity : WorkerIdentity) (session after : string)
  (pageSize : Z) (clock : nat -> Z) : tx (list WorkAssignment * string) :=
  let worker := identity_WorkerID identity in
  if negb (canonicalUUID worker) || negb (canonicalUUID (identity_CredentialID identity))
  then st_err ErrUnauthorized
  else if negb (canonicalUUID session) || (negb (is_empty_str after) && negb (canonicalUUID after))
       || (pageSize <? 0) || (MaxAssignmentPageSize <? pageSize) then st_err ErrInvalid
  else
    let size := Z.to_nat (if pageSize =? 0 then 32 else pageSize) in
    transact answer (
      let! _ := authorizeWorkerTx identity in
      let! refs := st_gets (fun db => assignment_references (core db) worker session after (Datatypes.S size)) in
      let! _ := readAcquisitionWorker worker session in
      let! '(page, last, stopped) := fill_page worker session clock 0 (take size refs) [] 0 after in
      let more := (size <? List.length refs)%nat || stopped in
      st_ret (Commit (page, if more then last else EmptyString))).

(** * Cancellation and drain *)

Definition RequestCancellation (answer : TxAnswer) (project job : string) : tx JobRecord :=
  if negb (canonicalUUID project) || negb (canonicalUUID job) then st_err ErrNotFound
  else
    let! _ := transact answer (
      let! j := query (fun db => match jobs (core db) !! job with
                                 | Some j => if bool_decide (jb_project j = project) then Some j else None
                                 | None => None
                                 end) ErrNotFound in
      let! _ := if queued (jb_state j) || bool_decide (jb_state j = J_ACTIVE) then
                  let next := cancelled_state (jb_state j) in
                  let! _ := update_job_event (set_cancelled next) job (CANCEL_REQUESTED (jb_state j) next) in
                  exec (on_audit (fun l => l ++ [(project, "JOB_CANCEL_REQUESTED"%string)]))
                else st_ret tt in
      st_ret (Commit tt)) in
    GetJob project job.

Record Principal := { ProjectID : string; TokenID : string; Operator : bool }.
Record WorkerDrain := { drain_State : WorkerState; DrainRequested : bool }.

Definition set_drain (state : WorkerState) (w : WorkerRow) : WorkerRow :=
  {| wk_state := state; wk_labels := wk_labels w; wk_capabilities := wk_capabilities w;
     wk_resources := wk_resources w; wk_slots := wk_slots w; wk_current := wk_current w;
     wk_drain := true; wk_heartbeat := wk_heartbeat w; wk_reconciled := wk_reconciled w;
     wk_healthy := wk_healthy w; wk_pressure := wk_pressure w |}.

Definition RequestWorkerDrain (answer : TxAnswer) (p : Principal) (worker : string) : tx WorkerDrain :=
  if negb (Operator p) || negb (canonicalUUID (ProjectID p)) || negb (canonicalUUID (TokenID p))
  then st_err ErrUnauthorized
  else if negb (canonicalUUID worker) then st_err ErrNotFound
  else transact answer (
    let! db := st_gets id in
    let! _ := guard (match tokens (catalog db) !! TokenID p, projects (catalog db) !! ProjectID p with
                     | Some t, Some pr => bool_decide (to_project t = ProjectID p) && to_operator t
                                          && negb (to_revoked t) && pj_enabled pr
                     | _, _ => false
                     end) ErrUnauthorized in
    let! w := row (workers (core db) !! worker) ErrNotFound in
    let! _ := guard (bool_decide ((worker, ProjectID p) ∈ worker_projects (catalog db))) ErrNotFound in
    let state := if negb (wk_drain w) && bool_decide (wk_state w = W_READY) then W_DRAINING else wk_state w in
    let! _ := if wk_drain w then st_ret tt
              else
                let! _ := exec (on_core (set_workers (alter (set_drain state) worker))) in
                let! _ := worker_event worker "WORKER_DRAIN_REQUESTED" in
                exec (on_audit (fun l => l ++ [(ProjectID p, "WORKER_DRAIN_REQUESTED:" +:+ worker)])) in
    st_ret (Commit {| drain_State := state; DrainRequested := true |})).

End Acquire.
