(* ===== verification/StoreComplete.v ===== *)
(** Completions ([internal/store/completion_contract.go],
    [internal/store/completion.go]): the normal form of a completion and its
    digest, and the transaction that ends an attempt with its worker's result. *)

From S2P Require Import Prelude Strings Protocol Control SpecJob Store StoreLeases StoreRecovery.
Open Scope Z_scope.

(** * The contract *)

Definition metric_class (b : byte) : bool :=
  is_ascii_alphanumeric b || bool_decide (byte_val b ∈ [95; 46; 58; 47; 45]%N).

(** [`^[A-Za-z0-9][A-Za-z0-9_.:/-]{0,127}$`]. *)
Definition metricNamePattern (s : string) : bool :=
  match str_bytes s with
  | [] => false
  | b :: rest => is_ascii_alphanumeric b && (len rest <=? 127)%N && forallb metric_class rest
  end.

(** The mantissa before [e] or [E], and whether more than signs, dots and zeros
    is left of it. *)
Fixpoint mantissa (s : string) : string :=
  match s with
  | EmptyString => EmptyString
  | String a s' => if bool_decide (a = "e"%char) || bool_decide (a = "E"%char) then EmptyString
                   else String a (mantissa s')
  end.

Definition zero_digits (s : string) : bool :=
  forallb (fun b => bool_decide (byte_val b ∈ [45; 43; 46; 48]%N)) (str_bytes s).

Section Complete.
Context `{GoLib}.

(** The loop of [decoder.More()]: members up to the closing brace, after which
    nothing may follow. *)
Fixpoint metric_members (metrics : list (string * string)) (l : list Token) (ended : bool)
  : option (list (string * string)) :=
  match l with
  | [Delim c] => if bool_decide (c = "}"%char) && ended then Some metrics else None
  | TString key :: TNumber text :: rest =>
      if negb (metricNamePattern key) || (256 <=? len metrics)%N || bool_decide (key ∈ metrics.*1)
         || (1024 <? str_len text)%N then None
      else match float64_zero text with
      | None => None
      | Some false => metric_members (metrics ++ [(key, text)]) rest ended
      | Some true => if zero_digits (mantissa text)
                     then metric_members (metrics ++ [(key, "0"%string)]) rest ended else None
      end
  | _ => None
  end.

Definition completionMetrics (body : bytes) : result StoreError (list (string * string)) :=
  if bool_decide (body = []) then Ok []
  else if (65536 <? len body)%N || negb (utf8_valid body) then Err ErrInvalid
  else match json_tokens body with
  | (Delim c :: rest, ended) =>
      if bool_decide (c = "{"%char) then ok_or (metric_members [] rest ended) ErrInvalid else Err ErrInvalid
  | _ => Err ErrInvalid
  end.

Definition completion_reasons : list string :=
  [EmptyString; "RUNTIME_UNAVAILABLE"; "TRANSFER_FAILED"; "APPLICATION_EXIT"; "OOM"; "STARTUP_TIMEOUT";
   "EXECUTION_TIMEOUT"; "OUTPUT_INVALID"; "USER_CANCELLED"; "FINALIZATION_TIMEOUT"]%string.

(** Outputs in name order, each name and each artifact once. *)
Fixpoint check_completion_outputs (ids : list string) (previous : option string) (l : list CompletionOutput)
  : bool :=
  match l with
  | [] => true
  | o :: rest =>
      namePattern (co_Name o) && canonicalUUID (co_ArtifactID o)
      && negb (bool_decide (co_ArtifactID o ∈ ids)) && negb (bool_decide (previous = Some (co_Name o)))
      && check_completion_outputs (co_ArtifactID o :: ids) (Some (co_Name o)) rest
  end.

(** Gaps in order, those of a stream disjoint. *)
Fixpoint check_completion_gaps (previous : option CompletionLogGap) (l : list CompletionLogGap) : bool :=
  match l with
  | [] => true
  | g :: rest =>
      bool_decide (gap_Stream g ∈ ["stdout"; "stderr"]%string) && (1 <=? gap_First g)
      && (gap_First g <=? gap_Last g)
      && match previous with
         | Some p => negb (bool_decide (gap_Stream p = gap_Stream g) && (gap_First g <=? gap_Last p))
         | None => true
         end
      && check_completion_gaps (Some g) rest
  end.

Definition gap_leb (a b : CompletionLogGap) : bool :=
  match String.compare (gap_Stream a) (gap_Stream b) with
  | Lt => true
  | Gt => false
  | Eq => gap_First a <=? gap_First b
  end.

Definition normalizeCompletion (r : CompletionRequest) : result StoreError completionPayload :=
  let a := cr_Authority r in
  if negb (canonicalUUID (CompletionID r)) || negb (canonicalUUID (JobID a)) || negb (canonicalUUID (AttemptID a))
     || negb (canonicalUUID (WorkerID a)) || negb (canonicalUUID (SessionID a)) || (Generation a <? 1)
     || (64 <? len (Outputs r))%N || (1024 <? len (Gaps r))%N
     || match cr_ExitCode r with Some c => (c <? 0) || (255 <? c) | None => false end
  then Err ErrInvalid
  else if negb (bool_decide (Reason r ∈ completion_reasons)) then Err ErrInvalid
  else if (is_empty_str (Reason r) && (negb (bool_decide (cr_ExitCode r = Some 0)) || negb (Stopped r)))
       || (bool_decide (Reason r = "APPLICATION_EXIT"%string)
           && (bool_decide (cr_ExitCode r = None) || bool_decide (cr_ExitCode r = Some 0)))
  then Err ErrInvalid
  else
    let outputs := sort_by (fun x y => str_leb (co_Name x) (co_Name y)) (Outputs r) in
    if negb (check_completion_outputs [] None outputs) then Err ErrInvalid
    else if LogsComplete r && negb (bool_decide (Gaps r = [])) then Err ErrInvalid
    else
      let gaps := sort_by gap_leb (Gaps r) in
      if negb (check_completion_gaps None gaps) then Err ErrInvalid
      else
        let? metrics := completionMetrics (MetricsJSON r) in
        Ok {| cp_Authority := a; cp_ExitCode := cr_ExitCode r; cp_Reason := Reason r; cp_Stopped := Stopped r;
              cp_Outputs := outputs; cp_LogsComplete := LogsComplete r; cp_Gaps := gaps; cp_Metrics := metrics;
              cp_MetricsSourceSHA256 := if bool_decide (MetricsJSON r = []) then EmptyString
                                        else hex (sha256 (MetricsJSON r)) |}.

Definition CompletionDigest (r : CompletionRequest) : result StoreError string :=
  let? payload := normalizeCompletion r in
  Ok (digest_of ("dispatch.worker.v1.CompleteAttempt" +:+ String "010" EmptyString) (marshal_completion payload)).

(** * The decision *)

Record CompletionResult := {
  cres_Decision : Decision_.t;
  cres_State : AttemptState.t;
  cres_Manifest : option bytes;
}.

Definition completionDecision (r : CompletionRequest) (job : leaseJob) (attempt : leaseAttempt) (now : Z)
  : Decision_.t :=
  let decision := leaseDecision (cr_Authority r) job attempt now in
  if bool_decide (decision = Decision_.StopRequested) && lj_cancelled job
     && bool_decide (Reason r = "USER_CANCELLED"%string) && Stopped r && (now <? la_expires attempt)
     && (now <? la_phase attempt)
  then Decision_.Accepted else decision.

Definition validateCompletionPhase (r : CompletionRequest) (state : AttemptState.t) (exit : option Z)
  (cancelled : bool) : result StoreError unit :=
  if negb (bool_decide (exit = cr_ExitCode r)) then Err ErrConflict
  else if bool_decide (Reason r ∈ [EmptyString; "APPLICATION_EXIT"; "OOM"; "OUTPUT_INVALID";
                                   "FINALIZATION_TIMEOUT"]%string) then
    if bool_decide (state = AttemptState.Finalizing) then Ok tt else Err ErrConflict
  else if bool_decide (Reason r = "STARTUP_TIMEOUT"%string) then
    if bool_decide (state = AttemptState.Assigned) || bool_decide (state = AttemptState.Starting)
    then Ok tt else Err ErrConflict
  else if bool_decide (Reason r = "EXECUTION_TIMEOUT"%string) then
    if bool_decide (state = AttemptState.Running) || bool_decide (state = AttemptState.Finalizing)
    then Ok tt else Err ErrConflict
  else if bool_decide (Reason r = "USER_CANCELLED"%string) then
    if cancelled && Stopped r then Ok tt else Err ErrConflict
  else Ok tt.

(** * The manifest *)

(** Whether the claimed gaps, in order, cover a registered one. *)
Fixpoint completionCoversSegmentGap (claims : list CompletionLogGap) (stream : string) (next last : Z) : bool :=
  match claims with
  | [] => false
  | claim :: rest =>
      if negb (bool_decide (gap_Stream claim = stream)) || (gap_Last claim <? next)
      then completionCoversSegmentGap rest stream next last
      else if next <? gap_First claim then false
      else if last <=? gap_Last claim then true
      else completionCoversSegmentGap rest stream (gap_Last claim + 1) last
  end.

(** A row of [artifacts] joined with one of [artifact_uploads]. *)
Definition publication (c : Catalog) (artifact upload : string) : option publishedArtifact :=
  match artifacts c !! artifact, uploads c !! upload with
  | Some ar, Some u => Some
      {| pa_Name := up_name u; pa_ArtifactID := artifact; pa_Key := up_key u; pa_Version := ar_version ar;
         pa_SizeBytes := up_size u; pa_SHA256 := up_sha256 u; pa_UploadID := upload; pa_Kind := up_kind u |}
  | _, _ => None
  end.

(** The artifact, if its upload is the attempt's. *)
Definition own_artifact (c : Catalog) (artifact attempt : string) : option publishedArtifact :=
  match artifacts c !! artifact with
  | Some ar =>
      match uploads c !! ar_upload ar with
      | Some u => if bool_decide (up_attempt u = attempt) then publication c artifact (ar_upload ar) else None
      | None => None
      end
  | None => None
  end.

(** The loop over the reported outputs: what is published, which declarations
    are left, and the metrics artifact. *)
Fixpoint publish_outputs (c : Catalog) (r : CompletionRequest) (p : completionPayload) (l : list CompletionOutput)
  (declared : list SpecOutput) (metrics : string)
  : result StoreError (list publishedArtifact * list SpecOutput * string) :=
  match l with
  | [] => Ok ([], declared, metrics)
  | o :: rest =>
      let? definition := ok_or (List.find (fun d => bool_decide (output_Name d = co_Name o)) declared) ErrInvalid in
      let? a := ok_or (own_artifact c (co_ArtifactID o) (AttemptID (cr_Authority r))) ErrInvalid in
      if negb (bool_decide (pa_Kind a = ArtifactKind.Output)) || negb (bool_decide (pa_Name a = co_Name o))
           || (output_MaxBytes definition <? pa_SizeBytes a) then Err ErrInvalid
      else
        let is_metrics := bool_decide (co_Name o = "metrics"%string) in
        if is_metrics && (bool_decide (MetricsJSON r = [])
                          || negb (bool_decide (pa_SHA256 a = cp_MetricsSourceSHA256 p))
                          || negb (pa_SizeBytes a =? Z.of_N (len (MetricsJSON r)))) then Err ErrInvalid
        else
          let? '(outputs, remaining, m) := publish_outputs c r p rest
            (List.filter (fun d => negb (bool_decide (output_Name d = co_Name o))) declared)
            (if is_metrics then pa_ArtifactID a else metrics) in
          Ok (a :: outputs, remaining, m)
  end.

(** The registered segments of the attempt by stream and first number, with the
    artifact of each. *)
Definition attempt_segments (c : Catalog) (attempt : string) : list (SegmentRow * publishedArtifact) :=
  omap (fun '(_, s) => (fun a => (s, a)) <$> publication c (sg_artifact s) (sg_upload s))
    (sort_by (fun x y => match String.compare (sg_stream x.2) (sg_stream y.2) with
                         | Lt => true | Gt => false | Eq => sg_first x.2 <=? sg_first y.2 end)
      (List.filter (fun '(_, s) => bool_decide (sg_attempt s = attempt)) (map_to_list (segments c)))).

(** A log upload of the attempt without a verified, cataloged segment. *)
Definition log_pending (c : Catalog) (attempt : string) : bool :=
  existsb (fun '(id, u) =>
      bool_decide (up_attempt u = attempt) && bool_decide (up_kind u = ArtifactKind.Log)
      && let mine := List.filter (fun '(_, ar) => bool_decide (ar_upload ar = id)) (map_to_list (artifacts c)) in
         bool_decide (mine = [])
         || existsb (fun '(a, _) => negb (existsb (fun '(_, s) => bool_decide (sg_artifact s = a))
                                            (map_to_list (segments c)))) mine)
    (map_to_list (uploads c)).

Definition result_attempts (c : Core) (r : CompletionRequest) (state : AttemptState.t) (now : Z)
  : list resultAttempt :=
  (fun '(id, a) =>
     let own := bool_decide (id = AttemptID (cr_Authority r)) in
     {| ra_AttemptID := id; ra_Number := at_number a; ra_State := if own then state else at_state a;
        ra_Reason := if own then Some (Reason r) else at_reason a;
        ra_ExitCode := if own then cr_ExitCode r else at_exit a; ra_CreatedAt := at_created a;
        ra_FinishedAt := if own then Some now else at_finished a |})
  <$> sort_by (fun x y => at_number x.2 <=? at_number y.2)
        (List.filter (fun '(_, a) => bool_decide (at_job a = JobID (cr_Authority r))) (map_to_list (attempts c))).

Definition completionManifest (db : Db) (r : CompletionRequest) (p : completionPayload) (j : JobRow)
  (state : AttemptState.t) (now : Z) : result StoreError (bytes * list publishedArtifact) :=
  let c := catalog db in
  let job := jb_spec j in
  let attempt := AttemptID (cr_Authority r) in
  let? '(outputs, remaining, metrics) := publish_outputs c r p (cp_Outputs p) (spec_Outputs (Spec job)) EmptyString in
  if is_empty_str (Reason r) && existsb output_Required remaining then Err ErrInvalid
  else if negb (bool_decide (MetricsJSON r = [])) && is_empty_str metrics then Err ErrInvalid
  else
    let logs := attempt_segments c attempt in
    if existsb (fun '(s, a) => existsb (fun '(first, last) =>
         negb (completionCoversSegmentGap (cp_Gaps p) (pa_Name a) first last)) (sg_gaps s)) logs then Err ErrInvalid
    else if LogsComplete r && log_pending c attempt then Err ErrInvalid
    else
      let body := marshal_manifest
        {| rm_Authority := cr_Authority r; rm_ProjectID := jb_project j; rm_Spec := job;
           rm_SpecSHA256 := jb_spec_hash j; rm_State := state; rm_ExitCode := cr_ExitCode r;
           rm_Reason := Reason r; rm_CompletedAt := now; rm_CleanupPending := negb (Stopped r);
           rm_Outputs := outputs; rm_LogArtifacts := logs.*2; rm_LogsComplete := LogsComplete r;
           rm_Gaps := cp_Gaps p; rm_Metrics := cp_Metrics p; rm_MetricsArtifactID := metrics;
           rm_Attempts := result_attempts (core db) r state now |} in
      if (2097152 <? len body)%N then Err ErrInvalid else Ok (body, outputs ++ logs.*2).

(** * The transaction *)

Definition set_completed (r : CompletionRequest) (state : AttemptState.t) (digest : string) (now : Z)
  (a : AttemptRow) : AttemptRow :=
  {| at_job := at_job a; at_number := at_number a; at_worker := at_worker a; at_session := at_session a;
     at_state := state; at_lease := at_lease a; at_phase := at_phase a; at_exit := cr_ExitCode r;
     at_reason := if is_empty_str (Reason r) then None else Some (Reason r);
     at_completion := Some (CompletionID r); at_digest := Some digest; at_cleanup := negb (Stopped r);
     at_created := at_created a; at_finished := Some now; at_container := at_container a |}.

(** What becomes of the attempt and of the job. *)
Definition completed_outcome (r : CompletionRequest) (job : SpecJob) : AttemptState.t * JobState :=
  if is_empty_str (Reason r) then (AttemptState.Succeeded, J_SUCCEEDED)
  else if bool_decide (Reason r = "USER_CANCELLED"%string) then (AttemptState.Cancelled, J_CANCELLED)
  else if (Generation (cr_Authority r) <? MaxAttempts (spec_Retry (Spec job)))
          && bool_decide (Reason r ∈ On (spec_Retry (Spec job)))
  then (AttemptState.Failed, J_RETRY_WAIT)
  else (AttemptState.Failed, J_FAILED).

(** The statements after the last check of authority. *)
Definition conclude (r : CompletionRequest) (digest : string) (state : AttemptState.t) (jobState : JobState)
  (manifest : bytes) (now eligible : Z) : tx unit :=
  let attempt := AttemptID (cr_Authority r) in
  let job := JobID (cr_Authority r) in
  let succeeded := bool_decide (state = AttemptState.Succeeded) in
  let! _ := update_attempt (set_completed r state digest now) attempt in
  let! _ := end_reservation (if Stopped r then R_released else R_quarantined) attempt ErrConflict in
  let! _ := update_job_event
    (set_ended jobState (if succeeded then Some attempt else None) (if succeeded then Some manifest else None)
       eligible) job
    (ATTEMPT_COMPLETED attempt (CompletionID r) state jobState (Reason r) (negb (Stopped r)) eligible) in
  if bool_decide (jobState = J_FAILED) then applySweepFailFast job else st_ret tt.

Definition CompleteAttempt_body (id : WorkerIdentity) (r : CompletionRequest) (digest : string)
  (p : completionPayload) (now published : Z) : tx (Done CompletionResult) :=
  let a := cr_Authority r in
  let worker := identity_WorkerID id in
  let answer d s m := {| cres_Decision := d; cres_State := s; cres_Manifest := m |} in
  let! _ := authorizeWorkerTx id in
  let! db := st_gets (fun db => db) in
  let batch := lockLeaseBatch [a] (core db) in
  let attempt := batch.2 (AttemptID a) in
  let job := batch.1 (JobID a) in
  if negb (bool_decide (la_authority attempt = a))
  then st_ret (Return (answer Decision_.Fenced AttemptState.Unspecified None))
  else match completions (core db) !! AttemptID a with
  | Some saved =>
      if negb (bool_decide (co_id saved = CompletionID r)) || negb (bool_decide (co_digest saved = digest))
      then st_err ErrConflict
      else st_ret (Return (answer Decision_.Accepted (co_state saved)
             (if bool_decide (co_state saved = AttemptState.Succeeded) then Some (co_manifest saved) else None)))
  | None =>
      let claimed := existsb (fun '(_, c) => bool_decide (co_worker c = worker)
          && bool_decide (co_session c = SessionID a) && bool_decide (co_id c = CompletionID r))
        (map_to_list (completions (core db))) in
      if claimed then st_err ErrConflict
      else if negb (active (la_state attempt))
      then st_ret (Return (answer Decision_.AlreadyTerminal (la_state attempt) None))
      else
        let! j := row (jobs (core db) !! JobID a) ErrNoRows in
        let! _ := guard (is_ok (Validate (jb_spec j))) ErrInvalid in
        let! stored := row (attempts (core db) !! AttemptID a) ErrNoRows in
        let! _ := requireCurrentWorkerSession worker (SessionID a) in
        let decision := completionDecision r job attempt now in
        if negb (bool_decide (decision = Decision_.Accepted))
        then st_ret (Return (answer decision (la_state attempt) None))
        else
          let! _ := st_lift (validateCompletionPhase r (la_state attempt) (at_exit stored) (lj_cancelled job)) in
          let '(state, jobState) := completed_outcome r (jb_spec j) in
          let! '(manifest, refs) := st_lift (completionManifest db r p j state now) in
          let! _ := exec (on_core (set_completions <[AttemptID a :=
              {| co_job := JobID a; co_worker := worker; co_session := SessionID a;
                 co_generation := Generation a; co_id := CompletionID r; co_digest := digest;
                 co_state := state; co_manifest := manifest |}]>)) in
          let! _ := for_each (fun ref => exec (on_completion_artifacts
              <[(AttemptID a, pa_ArtifactID ref) := (pa_UploadID ref, pa_Name ref, pa_Kind ref)]>)) refs in
          let decision := completionDecision r job attempt published in
          if negb (bool_decide (decision = Decision_.Accepted))
          then st_ret (Return (answer decision (la_state attempt) None))
          else
            let eligible := if bool_decide (jobState = J_RETRY_WAIT)
                            then published + retryDelay (spec_Retry (Spec (jb_spec j))) (Generation a) (AttemptID a)
                            else now in
            let! _ := conclude r digest state jobState manifest now eligible in
            st_ret (Commit (answer Decision_.Accepted state
              (if bool_decide (state = AttemptState.Succeeded) then Some manifest else None)))
  end.

Definition CompleteAttempt (answer : TxAnswer) (id : WorkerIdentity) (r : CompletionRequest)
  (now published : Z) : tx CompletionResult :=
  if negb (canonicalUUID (identity_WorkerID id)) || negb (canonicalUUID (identity_CredentialID id))
     || negb (bool_decide (WorkerID (cr_Authority r) = identity_WorkerID id)) then st_err ErrUnauthorized
  else match CompletionDigest r with
  | Err _ => st_err ErrInvalid
  | Ok digest =>
      if negb (hashPattern (PayloadSHA256 r)) || negb (bool_decide (digest = PayloadSHA256 r)) then st_err ErrInvalid
      else
        let! p := st_lift (normalizeCompletion r) in
        transact answer (CompleteAttempt_body id r digest p now published)
  end.

End Complete.
