(* ===== verification/Ledger.v ===== *)
(** The ledger of the control plane: what may happen to jobs, attempts,
    reservations and sessions, one change at a time.

    [lstep t c c'] is the specification the transactions of [internal/store]
    implement ([StoreFacts]): a job is admitted or cancelled; an attempt is
    assigned to a live session, renewed, moved to its next phase, fenced,
    completed or cleaned up; a session replaces another; a worker's health
    changes.  [sound] is what these changes keep: it implies every check on
    ownership of the schema ([check_job_ownership], [protect_job_identity],
    [protect_attempt_identity], the partial unique index and the [CHECK]s of
    [migrations/0001_core.up.sql], [check_accepted_manifest]). *)

From S2P Require Import Prelude Strings Protocol SpecJob Store StoreLeases StoreRecovery.
From S2P Require Import StoreSessions StoreAcquire StoreComplete.
Open Scope Z_scope.

(** * Changes *)

Definition current_session (c : Core) (worker session : string) : Prop :=
  exists w s, workers c !! worker = Some w /\ sessions c !! session = Some s
    /\ wk_current w = Some session /\ se_worker s = worker /\ se_fenced s = None.

Definition fenced_session (c : Core) (session : string) : Prop :=
  exists s, sessions c !! session = Some s /\ se_fenced s <> None.

(** A job by itself: admitted, asked to stop, or given the number of one more
    event. *)
Inductive job_change : option JobRow -> JobRow -> Prop :=
| jc_submit j :
    jb_state j = J_QUEUED -> jb_current j = None -> jb_cancel j = false -> jb_counter j = 0 ->
    jb_accepted j = None -> jb_manifest j = None -> jb_resources j = spec_Resources (Spec (jb_spec j)) ->
    job_change None j
| jc_cancel j :
    queued (jb_state j) = true \/ jb_state j = J_ACTIVE ->
    job_change (Some j) (set_cancelled (cancelled_state (jb_state j)) j)
| jc_event j :
    job_change (Some j) (bump_events j).

Section Ledger.
Context `{GoLib}.

(** Authority at [t]: the attempt is its job's current one, active, with a
    running lease, and its session is the worker's. *)
Definition live (c : Core) (t : Z) (id : string) (j : JobRow) (a : AttemptRow) : Prop :=
  jb_current j = Some id /\ active (at_state a) = true /\ t < at_lease a
  /\ current_session c (at_worker a) (at_session a).

(** A job's attempt with its reservation, and the completion it gets. *)
Inductive attempt_change (c : Core) (t : Z) (id : string) (j : JobRow) (a : AttemptRow) (r : ReservationRow)
  : JobRow -> AttemptRow -> ReservationRow -> option CompletionRow -> Prop :=
| ch_renew :
    live c t id j a -> jb_cancel j = false -> t < at_phase a ->
    attempt_change c t id j a r j (set_lease (t + InitialLease) a) r None
| ch_phase state container exit deadline :
    live c t id j a -> jb_cancel j = false -> t < at_phase a -> active state = true ->
    attempt_change c t id j a r (bump_events j) (set_phase state container exit deadline a) r None
| ch_fence state attempt reason eligible :
    jb_current j = Some id -> active (at_state a) = true ->
    (at_lease a <= t \/ at_phase a <= t \/ is_Some (takeovers c !! (at_worker a, at_session a))) ->
    lost_outcome (jb_spec j) (jb_cancel j) (jb_counter j) id (at_state a) (at_lease a) (at_phase a) t
      = (state, attempt, reason, eligible) ->
    attempt_change c t id j a r (set_ended state (jb_accepted j) (jb_manifest j) eligible j)
      (set_lost attempt reason t a) (set_reservation R_quarantined r) None
| ch_complete q digest state attempt manifest now eligible :
    live c t id j a -> t < at_phase a -> now <= t ->
    completions c !! id = None -> cr_Authority q = row_authority id a ->
    (jb_cancel j = true <-> Reason q = "USER_CANCELLED"%string) ->
    (Reason q = EmptyString -> Stopped q = true) ->
    completed_outcome q (jb_spec j) = (attempt, state) ->
    attempt_change c t id j a r
      (set_ended state (if bool_decide (attempt = AttemptState.Succeeded) then Some id else None)
         (if bool_decide (attempt = AttemptState.Succeeded) then Some manifest else None) eligible j)
      (set_completed q attempt digest now a)
      (set_reservation (if Stopped q then R_released else R_quarantined) r)
      (Some {| co_job := at_job a; co_worker := at_worker a; co_session := at_session a;
               co_generation := at_number a; co_id := CompletionID q; co_digest := digest;
               co_state := attempt; co_manifest := manifest |})
| ch_release :
    active (at_state a) = false -> rv_state r = R_quarantined -> fenced_session c (at_session a) ->
    attempt_change c t id j a r j (set_cleanup false a) (set_reservation R_released r) None.

(** The core with the rows of one attempt and its job replaced. *)
Definition put (jid : string) (j : JobRow) (id : string) (a : AttemptRow) (r : ReservationRow)
  (co : option CompletionRow) (c : Core) : Core :=
  {| jobs := <[jid := j]> (jobs c); attempts := <[id := a]> (attempts c);
     reservations := <[id := r]> (reservations c);
     completions := match co with Some x => <[id := x]> (completions c) | None => completions c end;
     sessions := sessions c; workers := workers c; takeovers := takeovers c |}.

(** One change; every clock reading it depends on is between [lo] and [hi]. *)
Inductive lstep (lo hi : Z) (c : Core) : Core -> Prop :=
| l_job jid j :
    job_change (jobs c !! jid) j ->
    lstep lo hi c (set_jobs <[jid := j]> c)
| l_attempt t id j a r j' a' r' co :
    lo <= t <= hi ->
    attempts c !! id = Some a -> jobs c !! at_job a = Some j -> reservations c !! id = Some r ->
    attempt_change c t id j a r j' a' r' co ->
    lstep lo hi c (put (at_job a) j' id a' r' co c)
| l_assign jid j id worker session t created :
    jobs c !! jid = Some j -> queued (jb_state j) = true -> jb_cancel j = false ->
    attempts c !! id = None -> reservations c !! id = None ->
    current_session c worker session -> lo <= t <= created -> created <= hi ->
    lstep lo hi c (put jid (set_assigned id (jb_counter j + 1) j) id
                     (new_attempt jid (jb_counter j + 1) worker session (t + InitialLease)
                        (t + StartupSeconds (spec_Timeouts (Spec (jb_spec j))) * second) created)
                     {| rv_worker := worker; rv_resources := spec_Resources (Spec (jb_spec j)); rv_state := R_active |}
                     None c)
| l_worker worker w w' :
    workers c !! worker = Some w -> wk_current w' = wk_current w ->
    lstep lo hi c (set_workers <[worker := w']> c)
| l_new_worker worker w :
    workers c !! worker = None -> wk_current w = None ->
    lstep lo hi c (set_workers <[worker := w]> c)
| l_heartbeat session s sequence request hash :
    sessions c !! session = Some s -> se_sequence s < sequence ->
    lstep lo hi c (set_sessions <[session := set_heartbeat sequence request hash s]> c)
| l_takeover worker from to :
    takeovers c !! (worker, from) = None ->
    lstep lo hi c (set_takeovers <[(worker, from) := {| tk_to := to; tk_used := None |}]> c)
| l_register t worker w w' session s used :
    (** the worker has no active attempt left; its sessions are fenced, a take-over
        is used up, and the new session becomes current *)
    workers c !! worker = Some w -> sessions c !! session = None ->
    (forall id a, attempts c !! id = Some a -> at_worker a = worker -> active (at_state a) = false) ->
    se_worker s = worker -> se_fenced s = None -> wk_current w' = Some session -> lo <= t <= hi ->
    (forall k, is_Some (used !! k) <-> is_Some (takeovers c !! k)) ->
    lstep lo hi c
      {| jobs := jobs c; attempts := attempts c; reservations := reservations c; completions := completions c;
         sessions := <[session := s]> (fence_session worker t <$> sessions c);
         workers := <[worker := w']> (workers c); takeovers := used |}.

(** * Soundness *)

(** Rows by themselves. *)
Definition job_ok (j : JobRow) : Prop :=
  owning (jb_state j) = bool_decide (is_Some (jb_current j))
  /\ (jb_cancel j = true <-> jb_state j = J_CANCELLING \/ jb_state j = J_CANCELLED)
  /\ (is_Some (jb_accepted j) <-> jb_state j = J_SUCCEEDED)
  /\ (is_Some (jb_manifest j) <-> jb_state j = J_SUCCEEDED)
  /\ jb_resources j = spec_Resources (Spec (jb_spec j)) /\ 0 <= jb_counter j.

(** A job's current attempt. *)
Definition owned (c : Core) (jid : string) (j : JobRow) (id : string) : Prop :=
  exists a, attempts c !! id = Some a /\ at_job a = jid /\ active (at_state a) = true
    /\ at_number a = jb_counter j
    /\ reservations c !! id = Some {| rv_worker := at_worker a; rv_resources := jb_resources j; rv_state := R_active |}.

Definition accepted_ok (c : Core) (jid : string) (j : JobRow) (id : string) : Prop :=
  exists a co, attempts c !! id = Some a /\ at_job a = jid /\ at_state a = AttemptState.Succeeded
    /\ completions c !! id = Some co /\ co_state co = AttemptState.Succeeded
    /\ jb_manifest j = Some (co_manifest co).

(** An attempt's row and its job's. *)
Definition attempt_ok (c : Core) (id : string) (a : AttemptRow) : Prop :=
  (exists j, jobs c !! at_job a = Some j /\ 1 <= at_number a <= jb_counter j
     /\ (active (at_state a) = true -> jb_current j = Some id))
  /\ (exists r, reservations c !! id = Some r /\ rv_worker r = at_worker a
     /\ (rv_state r = R_active -> active (at_state a) = true)
     /\ (rv_state r = R_released -> is_Some (completions c !! id) \/ fenced_session c (at_session a)))
  /\ (exists s, sessions c !! at_session a = Some s /\ se_worker s = at_worker a
     /\ (active (at_state a) = true -> se_fenced s = None))
  /\ at_state a <> AttemptState.Unspecified.

Definition completion_ok (c : Core) (id : string) (co : CompletionRow) : Prop :=
  exists a, attempts c !! id = Some a /\ active (at_state a) = false /\ at_state a = co_state co
    /\ co_job co = at_job a /\ co_worker co = at_worker a /\ co_session co = at_session a
    /\ co_generation co = at_number a /\ at_completion a = Some (co_id co) /\ at_digest a = Some (co_digest co).

Record sound (c : Core) : Prop := {
  s_jobs : forall jid j, jobs c !! jid = Some j -> job_ok j;
  s_owned : forall jid j id, jobs c !! jid = Some j -> jb_current j = Some id -> owned c jid j id;
  s_accepted : forall jid j id, jobs c !! jid = Some j -> jb_accepted j = Some id -> accepted_ok c jid j id;
  s_attempts : forall id a, attempts c !! id = Some a -> attempt_ok c id a;
  s_numbers : forall id1 id2 a1 a2, attempts c !! id1 = Some a1 -> attempts c !! id2 = Some a2 ->
    at_job a1 = at_job a2 -> at_number a1 = at_number a2 -> id1 = id2;
  s_completions : forall id co, completions c !! id = Some co -> completion_ok c id co;
  s_sessions : forall s r, sessions c !! s = Some r -> se_fenced r = None ->
    exists w, workers c !! se_worker r = Some w /\ wk_current w = Some s;
  s_workers : forall w r s, workers c !! w = Some r -> wk_current r = Some s -> current_session c w s;
}.

(** * Preservation *)

(** What a change of one attempt and its job must respect. *)
Record local_ok (c : Core) (jid : string) (j : JobRow) (id : string) (j' : JobRow) (a' : AttemptRow)
  (r' : ReservationRow) (co : option CompletionRow) : Prop := {
  lo_job : job_ok j';
  lo_at_job : at_job a' = jid;
  lo_was : forall x, jb_current j = Some x -> x = id \/ jb_current j' = Some x;
  lo_current : forall x, jb_current j' = Some x ->
    (x = id /\ active (at_state a') = true /\ at_number a' = jb_counter j'
     /\ r' = {| rv_worker := at_worker a'; rv_resources := jb_resources j'; rv_state := R_active |})
    \/ (x <> id /\ j' = j);
  lo_active : active (at_state a') = true -> jb_current j' = Some id;
  lo_number : 1 <= at_number a' <= jb_counter j' /\ jb_counter j <= jb_counter j';
  lo_reservation : rv_worker r' = at_worker a' /\ (rv_state r' = R_active -> active (at_state a') = true)
    /\ (rv_state r' = R_released ->
        is_Some (completions (put jid j' id a' r' co c) !! id) \/ fenced_session c (at_session a'));
  lo_session : exists s, sessions c !! at_session a' = Some s /\ se_worker s = at_worker a'
    /\ (active (at_state a') = true -> se_fenced s = None);
  lo_state : at_state a' <> AttemptState.Unspecified;
  lo_identity : match attempts c !! id with
                | Some a => at_job a = jid /\ at_number a' = at_number a
                | None => jb_counter j < at_number a'
                end;
  lo_accepted : forall x, jb_accepted j' = Some x ->
    (x = id /\ accepted_ok (put jid j' id a' r' co c) jid j' id)
    \/ (x <> id /\ jb_accepted j = Some x /\ jb_manifest j' = jb_manifest j);
  lo_completion : forall x, completions (put jid j' id a' r' co c) !! id = Some x ->
    completion_ok (put jid j' id a' r' co c) id x;
}.

Lemma put_completions_ne jid j id a r co c k :
  k <> id -> completions (put jid j id a r co c) !! k = completions c !! k.
Proof. intros. destruct co; cbn; [by rewrite lookup_insert_ne|done]. Qed.

Section Put.
Context (c : Core) (jid id : string) (j j' : JobRow) (a' : AttemptRow) (r' : ReservationRow)
  (co : option CompletionRow).
Hypothesis Hs : sound c.
Hypothesis Hj : jobs c !! jid = Some j.
Hypothesis Hl : local_ok c jid j id j' a' r' co.
Let c' := put jid j' id a' r' co c.

(** Rows of other attempts keep their job's row, up to what they rely on. *)
Lemma put_other_attempt k a : k <> id -> attempts c !! k = Some a -> attempt_ok c' k a.
Proof.
  intros Hk Ha. destruct (s_attempts _ Hs _ _ Ha) as ((jk & Hjk & Hn & Hc) & (r & Hr & Hw & Hra & Hrr) & Hse & Hst).
  split; [|split; [|done]].
  - destruct (decide (at_job a = jid)) as [E|E].
    + exists j'. cbn. rewrite E, lookup_insert_eq. rewrite E in Hjk. rewrite Hj in Hjk. injection Hjk as <-.
      destruct (lo_number _ _ _ _ _ _ _ _ Hl) as [_ Hle]. split_and!; [done|lia..|].
      intros Hact. apply Hc in Hact. by apply (lo_was _ _ _ _ _ _ _ _ Hl) in Hact as [|].
    + exists jk. cbn. by rewrite lookup_insert_ne.
  - exists r. cbn. rewrite lookup_insert_ne by done. split_and!; try done.
    intros Hrel. destruct (Hrr Hrel) as [Hco|Hf]; [left|by right].
    change (is_Some (completions c' !! k)). unfold c'. by rewrite put_completions_ne.
Qed.

Lemma put_own_attempt : attempt_ok c' id a'.
Proof.
  destruct Hl as [Hjob Hat Hwas Hcur Hact Hnum Hres Hse Hst Hid Hacc Hco]. split; [|split; [|done]].
  - exists j'. cbn. rewrite Hat, lookup_insert_eq. split_and!; [done|lia..|done].
  - exists r'. split; [by apply lookup_insert_eq|]. done.
Qed.

Lemma put_owned k jk x :
  jobs c' !! k = Some jk -> jb_current jk = Some x -> owned c' k jk x.
Proof.
  intros Hk Hx. destruct (decide (k = jid)) as [->|Hne].
  - cbn in Hk. rewrite lookup_insert_eq in Hk. injection Hk as <-.
    destruct (lo_current _ _ _ _ _ _ _ _ Hl _ Hx) as [(-> & Ha & Hn & Hr)|(Hxi & E)].
    + exists a'. cbn. rewrite !lookup_insert_eq. split_and!; [done|apply Hl|done|done|by f_equal].
    + rewrite E in Hx. destruct (s_owned _ Hs _ _ _ Hj Hx) as (a & Ha & Hrest). exists a. cbn.
      rewrite !lookup_insert_ne by done. by rewrite E.
  - cbn in Hk. rewrite lookup_insert_ne in Hk by done.
    destruct (s_owned _ Hs _ _ _ Hk Hx) as (a & Ha & Hj' & Hrest). exists a. cbn.
    assert (x <> id) as Hxi.
    { intros ->. pose proof (lo_identity _ _ _ _ _ _ _ _ Hl) as Hid. rewrite Ha in Hid. destruct Hid. congruence. }
    by rewrite !lookup_insert_ne.
Qed.

Lemma put_accepted k jk x :
  jobs c' !! k = Some jk -> jb_accepted jk = Some x -> accepted_ok c' k jk x.
Proof.
  intros Hk Hx.
  assert (forall k0 j0, k0 = jid \/ k0 <> jid -> jobs c !! k0 = Some j0 -> jb_accepted j0 = Some x -> x <> id ->
    jb_manifest jk = jb_manifest j0 -> accepted_ok c' k0 jk x) as Hold.
  { intros k0 j0 _ Hk0 Hx0 Hxi Hm. destruct (s_accepted _ Hs _ _ _ Hk0 Hx0) as (a & co0 & Ha & Hj0 & Hst & Hco & Hcs & Hman).
    exists a, co0. unfold c'. rewrite put_completions_ne by done. cbn. rewrite lookup_insert_ne by done.
    rewrite Hm. done. }
  destruct (decide (k = jid)) as [->|Hne].
  - cbn in Hk. rewrite lookup_insert_eq in Hk. injection Hk as <-.
    destruct (lo_accepted _ _ _ _ _ _ _ _ Hl _ Hx) as [[-> Hok]|(Hxi & Hx0 & Hm)]; [done|]. by apply (Hold jid j); auto.
  - cbn in Hk. rewrite lookup_insert_ne in Hk by done. apply (Hold k jk); auto. intros ->.
    destruct (s_accepted _ Hs _ _ _ Hk Hx) as (a & co0 & Ha & Hj0 & _).
    pose proof (lo_identity _ _ _ _ _ _ _ _ Hl) as Hid. rewrite Ha in Hid. destruct Hid. congruence.
Qed.

Lemma put_numbers id1 id2 a1 a2 :
  attempts c' !! id1 = Some a1 -> attempts c' !! id2 = Some a2 ->
  at_job a1 = at_job a2 -> at_number a1 = at_number a2 -> id1 = id2.
Proof.
  assert (forall k a, k <> id -> attempts c !! k = Some a -> at_job a = jid -> at_number a = at_number a' -> False) as Hno.
  { intros k a Hk Ha Hja Hna. pose proof (lo_identity _ _ _ _ _ _ _ _ Hl) as Hid.
    destruct (attempts c !! id) as [a0|] eqn:E.
    - destruct Hid as [? ?]. apply Hk. apply (s_numbers _ Hs k id a a0); congruence.
    - destruct (s_attempts _ Hs _ _ Ha) as ((jk & Hjk & Hnk & _) & _). rewrite Hja, Hj in Hjk.
      injection Hjk as <-. lia. }
  cbn. intros H1 H2 Hjj Hnn.
  pose proof (lo_at_job _ _ _ _ _ _ _ _ Hl) as Hat.
  apply lookup_insert_Some in H1 as [[<- <-]|[E1 H1]], H2 as [[<- <-]|[E2 H2]]; [done|..].
  - exfalso. apply (Hno id2 a2); congruence.
  - exfalso. apply (Hno id1 a1); congruence.
  - by apply (s_numbers _ Hs _ _ a1 a2).
Qed.

Lemma put_completions_ok k x : completions c' !! k = Some x -> completion_ok c' k x.
Proof.
  intros Hx. destruct (decide (k = id)) as [->|Hne]; [by apply Hl|].
  unfold c' in Hx. rewrite put_completions_ne in Hx by done.
  destruct (s_completions _ Hs _ _ Hx) as (a & Ha & Hrest). exists a. cbn. by rewrite lookup_insert_ne.
Qed.

Lemma sound_put : sound c'.
Proof.
  split.
  - intros k jk Hk. cbn in Hk. apply lookup_insert_Some in Hk as [[<- <-]|[_ Hk]]; [apply Hl|by eapply s_jobs].
  - apply put_owned.
  - apply put_accepted.
  - intros k a Ha. destruct (decide (k = id)) as [->|Hne]; cbn in Ha.
    + rewrite lookup_insert_eq in Ha. injection Ha as <-. apply put_own_attempt.
    + rewrite lookup_insert_ne in Ha by done. by apply put_other_attempt.
  - apply put_numbers.
  - apply put_completions_ok.
  - apply (s_sessions _ Hs).
  - apply (s_workers _ Hs).
Qed.
End Put.

Lemma accepted_iff {A : Type} (x : A) (s : AttemptState.t) :
  is_Some (if bool_decide (s = AttemptState.Succeeded) then Some x else None) <-> s = AttemptState.Succeeded.
Proof. case_bool_decide as E; split; [done|by eexists|by intros []|done]. Qed.

(** A successful or refused result of a change of an attempt's row. *)
Lemma completed_outcome_terminal q job attempt state :
  completed_outcome q job = (attempt, state) -> active attempt = false /\ attempt <> AttemptState.Unspecified
    /\ owning state = false /\ state <> J_QUEUED
    /\ (attempt = AttemptState.Succeeded <-> state = J_SUCCEEDED)
    /\ (state = J_CANCELLED <-> Reason q = "USER_CANCELLED"%string)
    /\ (state = J_SUCCEEDED -> Reason q = EmptyString).
Proof.
  unfold completed_outcome, is_empty_str.
  destruct (decide (Reason q = EmptyString)) as [E|E].
  { rewrite bool_decide_true by done. intros [= <- <-]. rewrite E. naive_solver. }
  rewrite bool_decide_false by done. case_bool_decide as Hu; [intros [= <- <-]; naive_solver|].
  destruct (_ && _); intros [= <- <-]; naive_solver.
Qed.

Lemma lost_outcome_terminal job cancelled number id s lease phase t state attempt reason eligible :
  lost_outcome job cancelled number id s lease phase t = (state, attempt, reason, eligible) ->
  active attempt = false /\ attempt <> AttemptState.Unspecified /\ attempt <> AttemptState.Succeeded
    /\ owning state = false /\ state <> J_SUCCEEDED /\ state <> J_QUEUED
    /\ (state = J_CANCELLED <-> cancelled = true).
Proof.
  unfold lost_outcome. destruct cancelled; [intros [= <- <- <- <-]; naive_solver|].
  destruct (expiredPhaseReason s lease phase t); [intros [= <- <- <- <-]; naive_solver|].
  destruct (_ && _); intros [= <- <- <- <-]; naive_solver.
Qed.

Lemma active_current c id a :
  sound c -> attempts c !! id = Some a -> active (at_state a) = true ->
  exists j, jobs c !! at_job a = Some j /\ jb_current j = Some id.
Proof. intros Hs Ha Hact. destruct (s_attempts _ Hs _ _ Ha) as ((j & Hj & _ & Hc) & _). eauto. Qed.

(** An active attempt has no completion. *)
Lemma active_no_completion c id a :
  sound c -> attempts c !! id = Some a -> active (at_state a) = true -> completions c !! id = None.
Proof.
  intros Hs Ha Hact. destruct (completions c !! id) as [co|] eqn:E; [|done].
  destruct (s_completions _ Hs _ _ E) as (a0 & Ha0 & Hn & _). congruence.
Qed.

Section Change.
Context (c : Core) (t : Z) (id : string) (j : JobRow) (a : AttemptRow) (r : ReservationRow).
Hypothesis Hs : sound c.
Hypothesis Ha : attempts c !! id = Some a.
Hypothesis Hj : jobs c !! at_job a = Some j.
Hypothesis Hr : reservations c !! id = Some r.

(** A change that keeps the attempt active and the job its owner. *)
Lemma keep_local j' a' :
  jb_current j = Some id -> active (at_state a) = true ->
  job_ok j' -> jb_current j' = jb_current j -> jb_counter j' = jb_counter j -> jb_accepted j' = jb_accepted j ->
  jb_resources j' = jb_resources j ->
  at_job a' = at_job a -> at_number a' = at_number a -> at_worker a' = at_worker a ->
  at_session a' = at_session a -> active (at_state a') = true ->
  local_ok c (at_job a) j id j' a' r None.
Proof.
  intros Hcur Hact Hok Ec Ecn Eacc Eres Ej En Ew Es Hact'.
  destruct (s_owned _ Hs _ _ _ Hj Hcur) as (a0 & Ha0 & _ & _ & Hn0 & Hr0). rewrite Ha in Ha0. injection Ha0 as <-.
  destruct (s_attempts _ Hs _ _ Ha) as ((j0 & Hj0 & Hnum & _) & _ & (s & Hse & Hsw & Hsf) & _).
  rewrite Hj in Hj0. injection Hj0 as <-. rewrite Hr in Hr0. injection Hr0 as Hr0.
  split; try done.
  - rewrite Hcur. intros x [= <-]. by left.
  - rewrite Ec, Hcur. intros x [= <-]. left. rewrite En, Ew, Ecn, Eres. done.
  - by rewrite Ec.
  - rewrite En, Ecn. lia.
  - rewrite Ew, Hr0. done.
  - exists s. rewrite Es, Ew. naive_solver.
  - intros E. by rewrite E in Hact'.
  - by rewrite Ha, En.
  - destruct (s_jobs _ Hs _ _ Hj) as (Hown & _ & Hacc & _). intros x Hx. exfalso.
    rewrite Eacc in Hx. assert (jb_state j = J_SUCCEEDED) as E by (apply Hacc; eauto).
    rewrite E, Hcur in Hown. done.
  - intros x Hx. cbn in Hx. rewrite (active_no_completion c id a) in Hx by done. done.
Qed.
(** A change that ends the attempt. *)
Lemma end_local j' a' state co :
  jb_current j = Some id -> active (at_state a) = true ->
  job_ok j' -> jb_current j' = None -> jb_counter j' = jb_counter j ->
  at_job a' = at_job a -> at_number a' = at_number a -> at_worker a' = at_worker a ->
  at_session a' = at_session a -> active (at_state a') = false -> at_state a' <> AttemptState.Unspecified ->
  state <> R_active -> (state = R_released -> is_Some co) ->
  (forall x, jb_accepted j' = Some x -> x = id /\ at_state a' = AttemptState.Succeeded
     /\ exists co0, co = Some co0 /\ co_state co0 = AttemptState.Succeeded
        /\ jb_manifest j' = Some (co_manifest co0)) ->
  (forall x, co = Some x -> at_state a' = co_state x
     /\ co_job x = at_job a /\ co_worker x = at_worker a /\ co_session x = at_session a
     /\ co_generation x = at_number a /\ at_completion a' = Some (co_id x) /\ at_digest a' = Some (co_digest x)) ->
  local_ok c (at_job a) j id j' a' (set_reservation state r) co.
Proof.
  intros Hcur Hact Hok Ec Ecn Ej En Ew Es Hact' Hst Hra Hrel Hacc Hco.
  destruct (s_attempts _ Hs _ _ Ha) as ((j0 & Hj0 & Hnum & _) & (r0 & Hr0 & Hrw & _) & (s & Hse & Hsw & _) & _).
  rewrite Hj in Hj0. injection Hj0 as <-. rewrite Hr in Hr0. injection Hr0 as <-.
  pose proof (active_no_completion c id a Hs Ha Hact) as Hnone.
  split; try done.
  - rewrite Hcur. intros x [= <-]. by left.
  - rewrite Ec. done.
  - rewrite Hact'. done.
  - rewrite En, Ecn. lia.
  - rewrite Ew. split_and!; [done|done|]. cbn. intros E. left. destruct (Hrel E) as [x ->]. rewrite lookup_insert_eq. by eexists.
  - exists s. rewrite Es, Ew, Hact'. done.
  - by rewrite Ha, En.
  - intros x Hx. left. destruct (Hacc x Hx) as (-> & Hsu & co0 & -> & Hcs & Hm). split; [done|].
    exists a', co0. cbn. rewrite !lookup_insert_eq. done.
  - intros x Hx. destruct co as [x0|]; cbn in Hx; [|congruence]. rewrite lookup_insert_eq in Hx. injection Hx as <-.
    destruct (Hco _ eq_refl) as (? & ? & ? & ? & ? & ? & ?). exists a'. cbn. rewrite lookup_insert_eq.
    split_and!; congruence.
Qed.

Lemma release_local :
  active (at_state a) = false -> rv_state r = R_quarantined -> fenced_session c (at_session a) ->
  local_ok c (at_job a) j id j (set_cleanup false a) (set_reservation R_released r) None.
Proof.
  intros Hact Hq Hf.
  destruct (s_attempts _ Hs _ _ Ha) as ((j0 & Hj0 & Hnum & Hcj) & (r0 & Hr0 & Hrw & _) & (s & Hse & Hsw & _) & Hst).
  rewrite Hj in Hj0. injection Hj0 as <-. rewrite Hr in Hr0. injection Hr0 as <-.
  assert (forall x, jb_current j = Some x -> x <> id) as Hcn.
  { intros x Hx ->. destruct (s_owned _ Hs _ _ _ Hj Hx) as (a0 & Ha0 & _ & Hact0 & _). congruence. }
  split; try done.
  - by eapply s_jobs.
  - by right.
  - intros x Hx. right. eauto.
  - cbn. split_and!; [done|congruence|by right].
  - exists s. cbn. split_and!; [done|done|congruence].
  - by rewrite Ha.
  - intros x Hx. destruct (decide (x = id)) as [->|Hne]; [left|right; done]. split; [done|].
    destruct (s_accepted _ Hs _ _ _ Hj Hx) as (a0 & co0 & Ha0 & ? & ? & Hco & ? & ?).
    exists (set_cleanup false a), co0. cbn. rewrite lookup_insert_eq. rewrite Ha in Ha0. injection Ha0 as <-. done.
  - intros x Hx. destruct (s_completions _ Hs _ _ Hx) as (a0 & Ha0 & Hrest). rewrite Ha in Ha0. injection Ha0 as <-.
    exists (set_cleanup false a). cbn. by rewrite lookup_insert_eq.
Qed.

Lemma change_local j' a' r' co :
  attempt_change c t id j a r j' a' r' co -> local_ok c (at_job a) j id j' a' r' co.
Proof.
  destruct (s_jobs _ Hs _ _ Hj) as (Hown & Hcan & Hacc & Hman & Hres & Hcnt).
  intros [(Hcur & Hact & _) _ _|st ct ex dl (Hcur & Hact & _) _ _ Hst|st at' reason el Hcur Hact _ Hout
    |q digest st at' manifest now el (Hcur & Hact & _) _ _ _ _ Hc Hstop Hout|Hact Hq Hf].
  - by apply keep_local.
  - by apply keep_local.
  - apply lost_outcome_terminal in Hout as (Ho1 & Ho2 & Ho3 & Ho4 & Ho5 & Ho6 & Ho7).
    assert (jb_accepted j = None) as En.
    { destruct (jb_accepted j) eqn:E; [|done]. assert (jb_state j = J_SUCCEEDED) as E' by (by apply Hacc).
      rewrite E', Hcur in Hown. done. }
    assert (jb_manifest j = None) as Em.
    { destruct (jb_manifest j) eqn:E; [|done]. assert (jb_state j = J_SUCCEEDED) as E' by (by apply Hman).
      rewrite E', Hcur in Hown. done. }
    apply end_local; try done; cbn.
    + split_and!; cbn; try done; rewrite ?En, ?Em.
      * rewrite Ho7. split; [by right|]. intros [->|]; [done|done].
      * split; [by intros []|done].
      * split; [by intros []|done].
    + rewrite En. done.
  - apply completed_outcome_terminal in Hout as (Ho1 & Ho2 & Ho3 & Ho4 & Ho5 & Ho6 & Ho7).
    apply end_local; try done; cbn.
    + split_and!; cbn; try done.
      * rewrite Hc, <-Ho6. split; [by right|]. intros [->|]; done.
      * rewrite <-Ho5. apply accepted_iff.
      * rewrite <-Ho5. apply accepted_iff.
    + by destruct (Stopped q).
    + intros x. destruct (decide (at' = AttemptState.Succeeded)) as [E|E];
        [rewrite bool_decide_true by done|by rewrite bool_decide_false].
      intros [= <-]. split_and!; [done|done|]. by eexists.
    + intros x [= <-]. done.
  - by apply release_local.
Qed.
End Change.

Lemma queued_not_owning s : queued s = true -> owning s = false.
Proof. by destruct s. Qed.

Lemma assign_local c jid j id worker session lease phase created :
  sound c -> jobs c !! jid = Some j -> queued (jb_state j) = true -> jb_cancel j = false ->
  attempts c !! id = None -> current_session c worker session ->
  local_ok c jid j id (set_assigned id (jb_counter j + 1) j)
    (new_attempt jid (jb_counter j + 1) worker session lease phase created)
    {| rv_worker := worker; rv_resources := spec_Resources (Spec (jb_spec j)); rv_state := R_active |} None.
Proof.
  intros Hs Hj Hq Hc Ha (w & s & Hw & Hse & Hcur & Hsw & Hsf).
  destruct (s_jobs _ Hs _ _ Hj) as (Hown & Hcan & Hacc & Hman & Hres & Hcnt).
  rewrite queued_not_owning in Hown by done. symmetry in Hown. apply bool_decide_eq_false in Hown.
  assert (jb_state j <> J_SUCCEEDED) as Hns by (by intros E; rewrite E in Hq).
  split; try done.
  - split_and!; cbn; try done; try lia.
    + rewrite Hc. split; [done|by intros []].
    + rewrite Hacc. split; [done|done].
    + rewrite Hman. split; [done|done].
  - intros x Hx. exfalso. apply Hown. eauto.
  - cbn. intros x [= <-]. left. by rewrite Hres.
  - cbn. lia.
  - exists s. done.
  - rewrite Ha. cbn. lia.
  - cbn. intros x Hx. exfalso. apply Hns, Hacc. eauto.
  - cbn. intros x Hx. destruct (s_completions _ Hs _ _ Hx) as (a & Ha' & _). congruence.
Qed.

(** A change of a job alone. *)
Lemma sound_job c jid j' :
  sound c -> job_ok j' ->
  match jobs c !! jid with
  | Some j => jb_current j' = jb_current j /\ jb_counter j' = jb_counter j /\ jb_resources j' = jb_resources j
              /\ jb_accepted j' = jb_accepted j /\ jb_manifest j' = jb_manifest j
  | None => jb_current j' = None /\ jb_accepted j' = None
  end -> sound (set_jobs <[jid := j']> c).
Proof.
  intros Hs Hok Hsame. destruct Hs as [H1 H2 H3 H4 H5 H6 H7 H8]. split; try done; cbn.
  - intros k jk [[_ <-]|[_ Hk]]%lookup_insert_Some; [done|by eapply H1].
  - intros k jk x [[<- <-]|[_ Hk]]%lookup_insert_Some Hx; [|by apply H2].
    destruct (jobs c !! jid) as [j|] eqn:Hj; [|destruct Hsame; congruence].
    destruct Hsame as (E1 & E2 & E3 & _). rewrite E1 in Hx.
    destruct (H2 _ _ _ Hj Hx) as (a & Ha & Hrest). exists a. cbn. by rewrite E2, E3.
  - intros k jk x [[<- <-]|[_ Hk]]%lookup_insert_Some Hx; [|by apply H3].
    destruct (jobs c !! jid) as [j|] eqn:Hj; [|destruct Hsame; congruence].
    destruct Hsame as (_ & _ & _ & E4 & E5). rewrite E4 in Hx.
    destruct (H3 _ _ _ Hj Hx) as (a & co & Hrest). exists a, co. cbn. by rewrite E5.
  - intros k a Ha. destruct (H4 _ _ Ha) as ((j & Hj & Hn & Hc) & Hrest). split; [|done].
    destruct (decide (at_job a = jid)) as [<-|Hne].
    + rewrite Hj in Hsame. destruct Hsame as (E1 & E2 & _). exists j'. cbn. rewrite lookup_insert_eq, E1, E2. done.
    + exists j. cbn. by rewrite lookup_insert_ne.
Qed.

Lemma job_change_ok c jid j' :
  sound c -> job_change (jobs c !! jid) j' -> sound (set_jobs <[jid := j']> c).
Proof.
  intros Hs Hc. apply sound_job; [done|..].
  - remember (jobs c !! jid) as jo eqn:E. destruct Hc as [j Hst Hcur Hcan Hcnt Hacc Hman Hres|j Hst|j].
    + split_and!; try done; rewrite ?Hst, ?Hcur, ?Hcan, ?Hacc, ?Hman, ?Hcnt; try done.
      split; [done|by intros []].
    + destruct (s_jobs _ Hs jid j) as (Hown & Hcan & Hacc & Hman & Hres & Hcnt); [done|].
      split_and!; cbn; try done.
      * rewrite <-Hown. destruct (jb_state j); naive_solver.
      * destruct (jb_state j); naive_solver.
      * rewrite Hacc. destruct (jb_state j); naive_solver.
      * rewrite Hman. destruct (jb_state j); naive_solver.
    + exact (s_jobs _ Hs jid j (eq_sym E)).
  - by destruct Hc.
Qed.

Lemma fence_session_worker worker t s : se_worker (fence_session worker t s) = se_worker s.
Proof. unfold fence_session. by destruct (_ && _). Qed.

Lemma fence_session_fenced worker t s :
  se_fenced (fence_session worker t s) = None <-> se_fenced s = None /\ se_worker s <> worker.
Proof.
  unfold fence_session. destruct (decide (se_worker s = worker)) as [E|E].
  - rewrite bool_decide_true by done. cbn [andb]. case_bool_decide; naive_solver.
  - rewrite bool_decide_false by done. naive_solver.
Qed.

Lemma attempt_ok_sessions c c' id a :
  attempt_ok c id a -> jobs c' = jobs c -> reservations c' = reservations c -> completions c' = completions c ->
  (forall s, fenced_session c s -> fenced_session c' s) ->
  (forall s, sessions c !! at_session a = Some s ->
     exists s', sessions c' !! at_session a = Some s' /\ se_worker s' = se_worker s
       /\ (active (at_state a) = true -> se_fenced s = None -> se_fenced s' = None)) ->
  attempt_ok c' id a.
Proof.
  intros (Hj & (r & Hr & Hrw & Hra & Hrr) & (s & Hse & Hsw & Hsf) & Hst) Ej Er Ec Hf Hmap.
  split; [by rewrite Ej|]. split; [|split; [|done]].
  - exists r. rewrite Er, Ec. split_and!; try done. intros Hrel. destruct (Hrr Hrel); auto.
  - destruct (Hmap _ Hse) as (s' & Hs' & Hw' & Hf'). exists s'. rewrite Hw'. naive_solver.
Qed.

Lemma sound_worker c worker w w' :
  sound c -> workers c !! worker = Some w -> wk_current w' = wk_current w ->
  sound (set_workers <[worker := w']> c).
Proof.
  intros [H1 H2 H3 H4 H5 H6 H7 H8] Hw Hc. split; try done; cbn.
  - intros s r Hs Hf. destruct (H7 _ _ Hs Hf) as (w0 & Hw0 & Hcur).
    destruct (decide (se_worker r = worker)) as [E|Hne].
    + exists w'. rewrite E, lookup_insert_eq. split; [done|]. congruence.
    + exists w0. by rewrite lookup_insert_ne.
  - intros k r s [[<- <-]|[Hne Hk]]%lookup_insert_Some Hr.
    + rewrite Hc in Hr. destruct (H8 _ _ _ Hw Hr) as (w0 & s0 & Hw0 & Hs0 & Hrest).
      exists w', s0. cbn. rewrite lookup_insert_eq, Hc. naive_solver congruence.
    + destruct (H8 _ _ _ Hk Hr) as (w0 & s0 & Hw0 & Hs0 & Hrest). exists w0, s0. cbn.
      by rewrite lookup_insert_ne.
Qed.

Lemma sound_new_worker c worker w :
  sound c -> workers c !! worker = None -> wk_current w = None -> sound (set_workers <[worker := w]> c).
Proof.
  intros [H1 H2 H3 H4 H5 H6 H7 H8] Hw Hc. split; try done; cbn.
  - intros s r Hs Hf. destruct (H7 _ _ Hs Hf) as (w0 & Hw0 & Hcur). exists w0.
    rewrite lookup_insert_ne; [done|]. intros E. by rewrite E, Hw0 in Hw.
  - intros k r s [[<- <-]|[Hne Hk]]%lookup_insert_Some Hr; [congruence|].
    destruct (H8 _ _ _ Hk Hr) as (w0 & s0 & Hw0 & Hs0 & Hrest). exists w0, s0. cbn.
    by rewrite lookup_insert_ne.
Qed.

Lemma sound_heartbeat c session s sequence request hash :
  sound c -> sessions c !! session = Some s ->
  sound (set_sessions <[session := set_heartbeat sequence request hash s]> c).
Proof.
  set (s' := set_heartbeat sequence request hash s).
  assert (se_worker s' = se_worker s) as Ew by done. assert (se_fenced s' = se_fenced s) as Ef by done.
  clearbody s'. intros [H1 H2 H3 H4 H5 H6 H7 H8] Hse. split; try done; cbn.
  - intros id a Ha. eapply attempt_ok_sessions; [by apply H4|done..|cbn|cbn].
    + intros x (r & Hr & Hf). destruct (decide (x = session)) as [->|Hne].
      * exists s'. cbn. rewrite lookup_insert_eq. split; [done|]. congruence.
      * exists r. cbn. by rewrite lookup_insert_ne.
    + intros r Hr. destruct (decide (at_session a = session)) as [E|Hne].
      * exists s'. rewrite E, lookup_insert_eq. rewrite E in Hr. split_and!; congruence.
      * exists r. by rewrite lookup_insert_ne.
  - intros x r [[<- <-]|[Hne Hx]]%lookup_insert_Some Hf; [|by eapply H7].
    rewrite Ew. apply (H7 session s); congruence.
  - intros k r x Hk Hr. destruct (H8 _ _ _ Hk Hr) as (w0 & s0 & Hw0 & Hs0 & Hcur & Hsw & Hsf).
    destruct (decide (x = session)) as [->|Hne].
    + exists w0, s'. cbn. rewrite lookup_insert_eq. split_and!; congruence.
    + exists w0, s0. cbn. by rewrite lookup_insert_ne.
Qed.

Lemma sound_register c t worker w w' session s used :
  sound c -> workers c !! worker = Some w -> sessions c !! session = None ->
  (forall id a, attempts c !! id = Some a -> at_worker a = worker -> active (at_state a) = false) ->
  se_worker s = worker -> se_fenced s = None -> wk_current w' = Some session ->
  sound {| jobs := jobs c; attempts := attempts c; reservations := reservations c; completions := completions c;
           sessions := <[session := s]> (fence_session worker t <$> sessions c);
           workers := <[worker := w']> (workers c); takeovers := used |}.
Proof.
  intros [H1 H2 H3 H4 H5 H6 H7 H8] Hw Hnew Hidle Hsw Hsf Hcur. split; try done; cbn.
  - intros id a Ha. eapply attempt_ok_sessions; [by apply H4|done..|cbn|cbn].
    + intros x (r & Hr & Hf). destruct (decide (x = session)) as [->|Hne]; [congruence|].
      exists (fence_session worker t r). cbn. rewrite lookup_insert_ne, lookup_fmap, Hr by done. split; [done|].
      rewrite fence_session_fenced. naive_solver.
    + intros r Hr. exists (fence_session worker t r).
      rewrite lookup_insert_ne, lookup_fmap, Hr by congruence. rewrite fence_session_worker.
      split_and!; [done|done|]. intros Hact Hf. rewrite fence_session_fenced. split; [done|]. intros E.
      destruct (H4 _ _ Ha) as (_ & _ & (s0 & Hs0 & Hw0 & _) & _). rewrite Hr in Hs0. injection Hs0 as <-.
      rewrite (Hidle id a Ha) in Hact by congruence. done.
  - intros x r [[<- <-]|[Hne Hx]]%lookup_insert_Some Hf.
    + exists w'. by rewrite Hsw, lookup_insert_eq.
    + rewrite lookup_fmap in Hx. destruct (sessions c !! x) as [r0|] eqn:Hx0; [|done]. injection Hx as <-.
      apply fence_session_fenced in Hf as [Hf Hw0]. rewrite fence_session_worker.
      destruct (H7 _ _ Hx0 Hf) as (wr & Hwr & Hc0). exists wr. by rewrite lookup_insert_ne.
  - intros k r x [[<- <-]|[Hne Hk]]%lookup_insert_Some Hr.
    + exists w', s. cbn. rewrite Hcur in Hr. injection Hr as <-. by rewrite !lookup_insert_eq.
    + destruct (H8 _ _ _ Hk Hr) as (w0 & s0 & Hw0 & Hs0 & Hc0 & Hsw0 & Hsf0).
      exists w0, (fence_session worker t s0). cbn.
      rewrite lookup_insert_ne by done.
      rewrite lookup_insert_ne by (intros E; by rewrite E, Hs0 in Hnew). rewrite lookup_fmap, Hs0.
      rewrite fence_session_worker, fence_session_fenced. split_and!; try done; congruence.
Qed.

(** Every change keeps the ledger sound. *)
Lemma sound_step lo hi c c' : sound c -> lstep lo hi c c' -> sound c'.
Proof.
  intros Hs [jid j Hc|t id j a r j' a' r' co _ Ha Hj Hr Hc|jid j id worker session t created Hj Hq Hcan Ha Hr Hcur _ _
    |worker w w' Hw Hc|worker w Hw Hc|session s sq rq h Hse _|worker from to Ht
    |t worker w w' session s used Hw Hnew Hidle Hsw Hsf Hcur _ _].
  - by apply job_change_ok.
  - eapply sound_put; [done|done|]. by eapply change_local.
  - eapply sound_put; [done|done|]. by apply assign_local.
  - by eapply sound_worker.
  - by eapply sound_new_worker.
  - by apply sound_heartbeat.
  - by destruct Hs.
  - by eapply sound_register.
Qed.

(** * Exclusion

    An attempt yields when its lease ends, its worker completes it, or an
    operator lets another session take over. *)
Definition yielded (c : Core) (t : Z) (id : string) (a : AttemptRow) : Prop :=
  at_lease a <= t \/ is_Some (completions c !! id) \/ is_Some (takeovers c !! (at_worker a, at_session a)).

Record exclusive (t : Z) (c : Core) : Prop := {
  e_past : forall id a, attempts c !! id = Some a -> at_created a <= t /\ at_lease a <= t + InitialLease;
  e_waiting : forall id a j, attempts c !! id = Some a -> jobs c !! at_job a = Some j ->
    final (jb_state j) = false -> jb_current j <> Some id -> yielded c t id a;
  e_order : forall id1 id2 a1 a2, attempts c !! id1 = Some a1 -> attempts c !! id2 = Some a2 ->
    at_job a1 = at_job a2 -> at_number a1 < at_number a2 -> yielded c (at_created a2) id1 a1;
}.

Lemma yielded_mono c c' t t' id a a' :
  t <= t' -> at_lease a' = at_lease a -> at_worker a' = at_worker a -> at_session a' = at_session a ->
  (is_Some (completions c !! id) -> is_Some (completions c' !! id)) ->
  (forall k, is_Some (takeovers c !! k) -> is_Some (takeovers c' !! k)) ->
  yielded c t id a -> yielded c' t' id a'.
Proof. intros Ht El Ew Es Hco Htk [H1|[H1|H1]]; unfold yielded; rewrite El, Ew, Es; [left; lia|auto..]. Qed.

(** A fenced attempt whose job may run again had lost its lease, or was taken
    over: a phase that ran out first ends the job. *)
Lemma retried_lost_its_lease job cancelled number id s lease phase t state attempt reason eligible :
  active s = true ->
  lost_outcome job cancelled number id s lease phase t = (state, attempt, reason, eligible) ->
  final state = false -> lease <= t \/ phase <= t -> lease <= t.
Proof.
  intros Hs Hout Hf [Hl|Hp]; [done|]. revert Hout. unfold lost_outcome.
  destruct cancelled; [by intros [= <- _ _ _]|]. unfold expiredPhaseReason.
  destruct (Z.ltb_spec t phase); [lia|]. destruct (Z.ltb_spec lease phase); [lia|]. cbn [orb].
  destruct s; try done; by intros [= <- _ _ _].
Qed.

Record tame (c : Core) (t : Z) (id : string) (j : JobRow) (a : AttemptRow) (j' : JobRow) (a' : AttemptRow)
  (co : option CompletionRow) : Prop := {
  t_identity : at_job a' = at_job a /\ at_number a' = at_number a /\ at_worker a' = at_worker a
    /\ at_session a' = at_session a /\ at_created a' = at_created a;
  t_lease : at_lease a' = at_lease a \/ (active (at_state a) = true /\ at_lease a' = t + InitialLease);
  t_own : final (jb_state j') = false -> jb_current j' <> Some id ->
    at_lease a' <= t \/ is_Some co \/ is_Some (takeovers c !! (at_worker a, at_session a))
    \/ (j' = j /\ at_lease a' = at_lease a);
  t_other : final (jb_state j') = false ->
    j' = j \/ jb_current j = Some id \/ (jb_current j' = jb_current j /\ jb_state j' = jb_state j);
}.

Lemma change_tame c t id j a r j' a' r' co :
  attempt_change c t id j a r j' a' r' co -> tame c t id j a j' a' co.
Proof.
  intros [(Hcur & Hact & _) _ _|st ct ex dl (Hcur & Hact & _) _ _ Hst|st at' reason el Hcur Hact Hwhy Hout
    |q digest st at' manifest now el (Hcur & Hact & _) _ _ _ _ Hc Hstop Hout|Hact Hq Hf]; split; cbn; auto;
    try (intros _ _; right; left; by eexists).
  - done.
  - done.
  - intros Hf _. destruct Hwhy as [Hl|[Hp|Htk]]; [by left| |auto].
    left. eapply retried_lost_its_lease; eauto.
Qed.

Section Exclusive.
Context (lo hi : Z) (c : Core).
Hypothesis Hle : lo <= hi.
Hypothesis Hs : sound c.
Hypothesis He : exclusive lo c.

Lemma exclusive_change t id j a r j' a' r' co :
  lo <= t <= hi -> attempts c !! id = Some a -> jobs c !! at_job a = Some j -> reservations c !! id = Some r ->
  attempt_change c t id j a r j' a' r' co -> exclusive hi (put (at_job a) j' id a' r' co c).
Proof.
  intros Ht Ha Hj Hr Hc. pose proof (change_tame _ _ _ _ _ _ _ _ _ _ Hc) as [(Ej & En & Ew & Es & Ecr) Hlease Hown Hother].
  set (c' := put _ _ _ _ _ _ _).
  assert (forall k, is_Some (completions c !! k) -> is_Some (completions c' !! k)) as Hco.
  { intros k Hk. destruct (decide (k = id)) as [->|Hne]; [|by unfold c'; rewrite put_completions_ne].
    destruct co; cbn; [rewrite lookup_insert_eq; by eexists|done]. }
  assert (final (jb_state j) = false \/ j' = j) as Hfin.
  { assert (jb_current j = Some id \/ j' = j) as [E|E]; [destruct Hc; unfold live in *; naive_solver| |auto].
    destruct (s_jobs _ Hs _ _ Hj) as (Hon & _). left. rewrite E in Hon. by destruct (jb_state j). }
  split; cbn.
  - intros k b [[<- <-]|[_ Hk]]%lookup_insert_Some.
    + destruct (e_past _ _ He _ _ Ha). rewrite Ecr. destruct Hlease as [->|[_ ->]]; lia.
    + destruct (e_past _ _ He _ _ Hk). lia.
  - intros k b jb [[<- <-]|[Hne Hk]]%lookup_insert_Some Hjb Hf Hcur.
    + rewrite Ej, lookup_insert_eq in Hjb. injection Hjb as <-.
      destruct (Hown Hf Hcur) as [Hl|[Hl|[Hl|[E El]]]].
      * left. lia.
      * right; left. destruct co; [cbn; rewrite lookup_insert_eq; by eexists|by destruct Hl].
      * right; right. by rewrite Ew, Es.
      * subst j'. eapply (yielded_mono c c' lo hi id a a'); auto. by eapply e_waiting.
    + eapply (yielded_mono c c' lo hi k b b); auto.
      apply lookup_insert_Some in Hjb as [[E <-]|[_ Hjb]]; [|by eapply e_waiting].
      eapply (e_waiting _ _ He k b j); [done|by rewrite <-E|..].
      * by destruct Hfin as [|<-].
      * destruct (Hother Hf) as [<-|[E1|[E1 _]]]; congruence.
  - intros id1 id2 a1 a2 H1 H2 Hjj Hnn.
    assert (exists b1, attempts c !! id1 = Some b1 /\ at_job a1 = at_job b1 /\ at_number a1 = at_number b1
      /\ at_worker a1 = at_worker b1 /\ at_session a1 = at_session b1
      /\ (at_lease a1 = at_lease b1 \/ active (at_state b1) = true /\ at_lease a1 = t + InitialLease)) as (b1 & Hb1 & E1 & E2 & E3 & E4 & E5).
    { apply lookup_insert_Some in H1 as [[<- <-]|[_ H1]]; [exists a|exists a1]; split_and!; auto. }
    assert (exists b2, attempts c !! id2 = Some b2 /\ at_job a2 = at_job b2 /\ at_number a2 = at_number b2
      /\ at_created a2 = at_created b2) as (b2 & Hb2 & F1 & F2 & F3).
    { apply lookup_insert_Some in H2 as [[<- <-]|[_ H2]]; [exists a|exists a2]; split_and!; auto. }
    assert (at_lease a1 = at_lease b1) as El.
    { destruct E5 as [|[Hact _]]; [done|exfalso]. destruct (active_current _ _ _ Hs Hb1 Hact) as (j1 & Hj1 & Hc1).
      destruct (s_owned _ Hs _ _ _ Hj1 Hc1) as (x & Hx & _ & _ & Hn & _).
      destruct (s_attempts _ Hs _ _ Hb2) as ((j2 & Hj2 & Hn2 & _) & _).
      assert (j2 = j1) as -> by congruence. assert (x = b1) as -> by congruence. lia. }
    eapply (yielded_mono c c' (at_created b2) (at_created a2) id1 b1 a1); auto; [lia|].
    eapply (e_order _ _ He id1 id2); [done|done|congruence|congruence].
Qed.

Lemma exclusive_assign jid j id worker session t created r :
  jobs c !! jid = Some j -> queued (jb_state j) = true -> attempts c !! id = None ->
  lo <= t <= created -> created <= hi ->
  exclusive hi (put jid (set_assigned id (jb_counter j + 1) j) id
    (new_attempt jid (jb_counter j + 1) worker session (t + InitialLease)
       (t + StartupSeconds (spec_Timeouts (Spec (jb_spec j))) * second) created) r None c).
Proof.
  intros Hj Hq Ha Ht Hcr.
  assert (jb_current j = None) as Hnone.
  { destruct (s_jobs _ Hs _ _ Hj) as (Hon & _). rewrite queued_not_owning in Hon by done.
    symmetry in Hon. apply bool_decide_eq_false in Hon. by apply eq_None_not_Some. }
  assert (forall k b, k <> id -> attempts c !! k = Some b -> at_job b = jid -> yielded c lo k b) as Hold.
  { intros k b Hk Hb E. apply (e_waiting _ _ He k b j); [done|by rewrite E|by destruct (jb_state j)|].
    by rewrite Hnone. }
  split; cbn.
  - intros k b [[_ <-]|[_ Hk]]%lookup_insert_Some; [cbn; lia|]. destruct (e_past _ _ He _ _ Hk). lia.
  - intros k b jb [[<- <-]|[Hne Hk]]%lookup_insert_Some Hjb Hf Hcur.
    + cbn in Hjb. rewrite lookup_insert_eq in Hjb. injection Hjb as <-. done.
    + eapply (yielded_mono c _ lo hi k b b); auto.
      apply lookup_insert_Some in Hjb as [[E _]|[_ Hjb]]; [by apply Hold|by eapply e_waiting].
  - intros id1 id2 a1 a2 [[<- <-]|[Hn1 H1]]%lookup_insert_Some [[<- <-]|[Hn2 H2]]%lookup_insert_Some Hjj Hnn; cbn in *.
    + lia.
    + destruct (s_attempts _ Hs _ _ H2) as ((j2 & Hj2 & Hnum & _) & _). rewrite <-Hjj, Hj in Hj2. injection Hj2 as <-. lia.
    + eapply (yielded_mono c _ lo created id1 a1 a1); auto; lia.
    + eapply (yielded_mono c _ (at_created a2) (at_created a2) id1 a1 a1); auto; try lia. by eapply e_order.
Qed.

(** Changes that leave attempts and completions alone. *)
Lemma exclusive_frame c' :
  attempts c' = attempts c -> completions c' = completions c ->
  (forall k, is_Some (takeovers c !! k) -> is_Some (takeovers c' !! k)) ->
  (forall id a j', attempts c !! id = Some a -> jobs c' !! at_job a = Some j' -> final (jb_state j') = false ->
     exists j, jobs c !! at_job a = Some j /\ final (jb_state j) = false /\ jb_current j = jb_current j') ->
  exclusive hi c'.
Proof.
  intros Ea Ec Htk Hjobs. split; rewrite ?Ea.
  - intros k b Hk. destruct (e_past _ _ He _ _ Hk). lia.
  - intros k b jb Hk Hjb Hf Hcur. destruct (Hjobs _ _ _ Hk Hjb Hf) as (j & Hj & Hfj & E).
    eapply (yielded_mono c c' lo hi k b b); auto; [by rewrite Ec|]. eapply e_waiting; [done..|by rewrite E].
  - intros id1 id2 a1 a2 H1 H2 Hjj Hnn.
    eapply (yielded_mono c c' (at_created a2) (at_created a2) id1 a1 a1); auto; try lia; [by rewrite Ec|].
    by eapply e_order.
Qed.

Lemma exclusive_step c' : lstep lo hi c c' -> exclusive hi c'.
Proof.
  intros [jid j Hc|t id j a r j' a' r' co Ht Ha Hj Hr Hc|jid j id worker session t created Hj Hq Hcan Ha Hr Hcur Ht Hcr
    |worker w w' Hw Hc|worker w Hw Hc|session s sq rq h Hse _|worker from to Ht
    |t worker w w' session s used Hw Hnew Hidle Hsw Hsf Hcur _ Hu].
  - apply exclusive_frame; try done. intros k b j' Hb Hj' Hf. cbn in Hj'.
    destruct (s_attempts _ Hs _ _ Hb) as ((jb & Hjb & _) & _).
    apply lookup_insert_Some in Hj' as [[E <-]|[_ Hj']]; [|by exists j'].
    rewrite E, Hjb in Hc. exists jb. split; [done|]. inversion Hc as [|j0 Hst Ej Ej'|]; subst; [|done].
    cbn in Hf |- *. by destruct (jb_state jb).
  - by eapply exclusive_change.
  - by apply exclusive_assign.
  - apply exclusive_frame; try done. intros k b j' _ Hj' Hf. by exists j'.
  - apply exclusive_frame; try done. intros k b j' _ Hj' Hf. by exists j'.
  - apply exclusive_frame; try done. intros k b j' _ Hj' Hf. by exists j'.
  - apply exclusive_frame; try done; [|intros k b j' _ Hj' Hf; by exists j'].
    intros k Hk. cbn. destruct (decide (k = (worker, from))) as [->|Hne];
      [rewrite lookup_insert_eq; by eexists|by rewrite lookup_insert_ne].
  - apply exclusive_frame; try done; [|intros k b j' _ Hj' Hf; by exists j']. intros k. cbn. apply Hu.
Qed.

End Exclusive.

End Ledger.
