(* ===== verification/LedgerFacts.v ===== *)
(** The history of the ledger: runs of changes, the checks of the schema
    ([migrations/0001_core.up.sql], [0004], [0006], [0008], [0011], [0015]) as
    functions of rows, and what is never undone. *)

From S2P Require Import Prelude Strings Protocol SpecJob Store StoreLeases StoreRecovery.
From S2P Require Import StoreSessions StoreAcquire StoreComplete Ledger.
Open Scope Z_scope.

(** * The checks of the schema *)

(** The [CHECK]s of [jobs] that tie its columns together. *)
Definition jobs_checks (j : JobRow) : bool :=
  eqb (owning (jb_state j)) (bool_decide (is_Some (jb_current j)))
  && eqb (bool_decide (jb_state j = J_SUCCEEDED))
       (bool_decide (is_Some (jb_accepted j)) && bool_decide (is_Some (jb_manifest j)))
  && (bool_decide (jb_state j = J_SUCCEEDED)
      || (bool_decide (jb_accepted j = None) && bool_decide (jb_manifest j = None)))
  && (negb (bool_decide (jb_state j = J_SUCCEEDED)) || negb (jb_cancel j)).

(** [true]: the update goes through. *)
Definition protect_job_identity (old new : JobRow) : bool :=
  bool_decide (jb_project old = jb_project new) && bool_decide (jb_spec old = jb_spec new)
  && bool_decide (jb_spec_hash old = jb_spec_hash new) && bool_decide (jb_resources old = jb_resources new)
  && bool_decide (jb_sweep old = jb_sweep new)
  && (negb (final (jb_state old))
      || (bool_decide (jb_state old = jb_state new) && bool_decide (jb_accepted old = jb_accepted new)
          && bool_decide (jb_manifest old = jb_manifest new) && bool_decide (jb_cancel old = jb_cancel new)
          && (jb_counter old =? jb_counter new))).

Definition terminal (s : AttemptState.t) : bool :=
  match s with
  | AttemptState.Succeeded | AttemptState.Failed | AttemptState.Lost | AttemptState.Cancelled => true
  | _ => false
  end.

Definition protect_attempt_identity (old new : AttemptRow) : bool :=
  bool_decide (at_job old = at_job new) && bool_decide (at_worker old = at_worker new)
  && bool_decide (at_session old = at_session new) && (at_number old =? at_number new)
  && (negb (terminal (at_state old))
      || (bool_decide (at_state old = at_state new) && bool_decide (at_exit old = at_exit new)
          && bool_decide (at_reason old = at_reason new) && bool_decide (at_completion old = at_completion new)
          && bool_decide (at_digest old = at_digest new) && (at_lease old =? at_lease new))).

Definition protect_attempt_container (old new : AttemptRow) : bool :=
  match at_container old with
  | Some _ => bool_decide (at_container new = at_container old)
  | None => true
  end.

Definition protect_worker_session (old new : SessionRow) : bool :=
  bool_decide (se_worker old = se_worker new) && (se_generation old =? se_generation new)
  && bool_decide (se_hash old = se_hash new) && (se_created old =? se_created new)
  && (bool_decide (se_fenced old = None) || bool_decide (se_fenced old = se_fenced new)).

Definition protect_heartbeat_order (old new : SessionRow) : bool :=
  negb ((se_sequence new <? se_sequence old)
        || ((se_sequence new =? se_sequence old)
            && negb (bool_decide (se_request new = se_request old)
                     && bool_decide (se_report_hash new = se_report_hash old)))).

(** The active attempts of a job. *)
Definition active_of (c : Core) (job : string) : list (string * AttemptRow) :=
  List.filter (fun '(_, a) => bool_decide (at_job a = job) && active (at_state a)) (map_to_list (attempts c)).

(** [one_active_attempt_per_job]. *)
Definition one_active_attempt_per_job (c : Core) (job : string) : bool :=
  (List.length (active_of c job) <=? 1)%nat.

Definition check_job_ownership (c : Core) (job : string) : bool :=
  match jobs c !! job with
  | None => true
  | Some j =>
      match active_of c job with
      | [] => bool_decide (jb_current j = None)
      | (id, a) :: _ =>
          bool_decide (jb_current j = Some id)
          && match reservations c !! id with
             | Some r => bool_decide (rv_state r = R_active) && bool_decide (rv_worker r = at_worker a)
                         && bool_decide (rv_resources r = jb_resources j) && (jb_counter j =? at_number a)
             | None => false
             end
      end
      && (negb (bool_decide (jb_state j = J_SUCCEEDED))
          || match jb_accepted j with
             | Some id => match attempts c !! id with
                          | Some a => bool_decide (at_state a = AttemptState.Succeeded)
                          | None => false
                          end
             | None => false
             end)
  end.

Definition check_accepted_manifest (c : Core) (job : string) : bool :=
  match jobs c !! job with
  | Some j =>
      negb (bool_decide (jb_state j = J_SUCCEEDED))
      || match jb_accepted j with
         | Some id => match completions c !! id with
                      | Some co => bool_decide (co_job co = job)
                                   && bool_decide (co_state co = AttemptState.Succeeded)
                                   && bool_decide (Some (co_manifest co) = jb_manifest j)
                      | None => false
                      end
         | None => false
         end
  | None => true
  end.

(** What the schema asks of a state. *)
Definition schema_holds (c : Core) : Prop :=
  forall job j, jobs c !! job = Some j ->
    jobs_checks j = true /\ one_active_attempt_per_job c job = true /\ check_job_ownership c job = true
    /\ check_accepted_manifest c job = true.

Lemma active_of_spec c job id a :
  (id, a) ∈ active_of c job <-> attempts c !! id = Some a /\ at_job a = job /\ active (at_state a) = true.
Proof.
  unfold active_of. rewrite list_elem_of_In, filter_In, <-list_elem_of_In, elem_of_map_to_list, andb_true_iff,
    bool_decide_eq_true. done.
Qed.

Lemma active_of_NoDup c job : NoDup (active_of c job).*1.
Proof.
  unfold active_of. generalize (NoDup_fst_map_to_list (attempts c)).
  induction (map_to_list (attempts c)) as [|[k a] l IH]; [done|]. cbn. intros [Hk Hl]%NoDup_cons.
  destruct (_ && _); [|by apply IH]. cbn. constructor; [|by apply IH]. intros Hin. apply Hk.
  apply list_elem_of_fmap in Hin as ([k' a'] & -> & Hin). apply list_elem_of_In, filter_In in Hin as [Hin _].
  apply list_elem_of_fmap. exists (k', a'). split; [done|]. by apply list_elem_of_In.
Qed.

(** The active attempts of a job are its current one. *)
Lemma active_of_current c job j :
  sound c -> jobs c !! job = Some j ->
  match jb_current j with
  | Some id => exists a, active_of c job = [(id, a)] /\ attempts c !! id = Some a
  | None => active_of c job = []
  end.
Proof.
  intros Hs Hj.
  assert (forall id a, (id, a) ∈ active_of c job -> jb_current j = Some id) as Hone.
  { intros id a (Ha & Hja & Hact)%active_of_spec. destruct (active_current _ _ _ Hs Ha Hact) as (j0 & Hj0 & Hc).
    congruence. }
  destruct (jb_current j) as [id|] eqn:Hc.
  - destruct (s_owned _ Hs _ _ _ Hj Hc) as (a & Ha & Hja & Hact & _). exists a. split; [|done].
    assert ((id, a) ∈ active_of c job) as Hin by (by apply active_of_spec).
    pose proof (active_of_NoDup c job) as Hnd. destruct (active_of c job) as [|[k1 a1] [|[k2 a2] l]]; [set_solver|..].
    + apply list_elem_of_singleton in Hin as ->. done.
    + exfalso. assert (Some id = Some k1) as E1 by (apply (Hone k1 a1); set_solver).
      assert (Some id = Some k2) as E2 by (apply (Hone k2 a2); set_solver).
      cbn in Hnd. apply NoDup_cons in Hnd as [Hnd _]. apply Hnd. set_solver.
  - destruct (active_of c job) as [|[k a] l]; [done|]. exfalso.
    assert (None = Some k) by (apply (Hone k a); set_solver). done.
Qed.

Lemma sound_schema c : sound c -> schema_holds c.
Proof.
  intros Hs job j Hj. destruct (s_jobs _ Hs _ _ Hj) as (Hown & Hcan & Hacc & Hman & Hres & Hcnt).
  pose proof (active_of_current _ _ _ Hs Hj) as Hact. unfold check_job_ownership, check_accepted_manifest, one_active_attempt_per_job.
  rewrite Hj. assert (forall id, jb_accepted j = Some id -> accepted_ok c job j id) as Hok by (intros; by eapply s_accepted).
  split_and!.
  - unfold jobs_checks. rewrite Hown, eqb_reflx. cbn [andb].
    assert (bool_decide (is_Some (jb_accepted j)) = bool_decide (jb_state j = J_SUCCEEDED)) as -> by (by apply bool_decide_ext).
    assert (bool_decide (is_Some (jb_manifest j)) = bool_decide (jb_state j = J_SUCCEEDED)) as -> by (by apply bool_decide_ext).
    destruct (decide (jb_state j = J_SUCCEEDED)) as [E|E].
    + rewrite bool_decide_true by done. cbn. destruct (jb_cancel j); [|done]. destruct Hcan as [[|] _]; congruence.
    + rewrite (bool_decide_false (jb_state j = J_SUCCEEDED)) by done. cbn. rewrite !bool_decide_true; [done|..].
      * apply eq_None_not_Some. by rewrite Hman.
      * apply eq_None_not_Some. by rewrite Hacc.
  - destruct (jb_current j) as [id|]; [destruct Hact as (a & -> & _)|rewrite Hact]; done.
  - apply andb_true_iff. split.
    + destruct (jb_current j) as [id|] eqn:Hc; [|rewrite Hact; by rewrite bool_decide_true].
      destruct Hact as (a & -> & Ha). destruct (s_owned _ Hs _ _ _ Hj Hc) as (a' & Ha' & _ & _ & Hn & Hr).
      rewrite Hr. assert (a' = a) as -> by congruence. cbn. rewrite !bool_decide_true by done. cbn. lia.
    + destruct (decide (jb_state j = J_SUCCEEDED)) as [E|E]; [|by rewrite bool_decide_false].
      rewrite bool_decide_true by done. cbn. destruct Hacc as [_ [id Hid]]; [done|]. rewrite Hid.
      destruct (Hok _ Hid) as (a & co & -> & _ & Hst & _). by rewrite bool_decide_true.
  - destruct (decide (jb_state j = J_SUCCEEDED)) as [E|E]; [|by rewrite bool_decide_false].
    rewrite bool_decide_true by done. cbn. destruct Hacc as [_ [id Hid]]; [done|]. rewrite Hid.
    destruct (Hok _ Hid) as (a & co & Ha & Hja & _ & Hco & Hcs & Hm). rewrite Hco.
    destruct (s_completions _ Hs _ _ Hco) as (a' & Ha' & _ & _ & Hcj & _).
    rewrite !bool_decide_true; [done|congruence..].
Qed.

(** * What is never undone *)

(** Every row stays, and every update of it passes the triggers. *)
Record evolves (c c' : Core) : Prop := {
  ev_jobs : forall jid j, jobs c !! jid = Some j ->
    exists j', jobs c' !! jid = Some j' /\ protect_job_identity j j' = true /\ jb_counter j <= jb_counter j';
  ev_attempts : forall id a, attempts c !! id = Some a ->
    exists a', attempts c' !! id = Some a' /\ protect_attempt_identity a a' = true
      /\ protect_attempt_container a a' = true /\ at_lease a <= at_lease a' /\ at_created a' = at_created a;
  ev_completions : forall id co, completions c !! id = Some co -> completions c' !! id = Some co;
  ev_sessions : forall id s, sessions c !! id = Some s ->
    exists s', sessions c' !! id = Some s' /\ protect_worker_session s s' = true
      /\ protect_heartbeat_order s s' = true;
  ev_takeovers : forall k, is_Some (takeovers c !! k) -> is_Some (takeovers c' !! k);
}.

Ltac triggers :=
  repeat match goal with
  | H : _ && _ = true |- _ => apply andb_true_iff in H; destruct H
  | H : bool_decide _ = true |- _ => apply bool_decide_eq_true in H
  | H : (_ =? _) = true |- _ => apply Z.eqb_eq in H
  end.

Lemma protect_job_refl j : protect_job_identity j j = true.
Proof.
  unfold protect_job_identity. rewrite !bool_decide_true by done. rewrite Z.eqb_refl. by destruct (negb _).
Qed.

Lemma protect_job_trans j1 j2 j3 :
  protect_job_identity j1 j2 = true -> protect_job_identity j2 j3 = true -> protect_job_identity j1 j3 = true.
Proof.
  unfold protect_job_identity. intros H1 H2. triggers.
  rewrite !bool_decide_true by congruence. cbn. destruct (final (jb_state j1)) eqn:F1; [|done]. cbn in *. triggers.
  assert (final (jb_state j2) = true) as F2 by congruence. rewrite F2 in *. cbn in *. triggers.
  rewrite !bool_decide_true by congruence. cbn. lia.
Qed.

Lemma protect_attempt_refl a : protect_attempt_identity a a = true.
Proof.
  unfold protect_attempt_identity. rewrite !bool_decide_true by done. rewrite !Z.eqb_refl. by destruct (negb _).
Qed.

Lemma protect_attempt_trans a1 a2 a3 :
  protect_attempt_identity a1 a2 = true -> protect_attempt_identity a2 a3 = true ->
  protect_attempt_identity a1 a3 = true.
Proof.
  unfold protect_attempt_identity. intros H1 H2. triggers.
  rewrite !bool_decide_true by congruence. cbn.
  assert ((at_number a1 =? at_number a3) = true) as -> by lia. cbn.
  destruct (terminal (at_state a1)) eqn:F1; [|done]. cbn in *. triggers.
  assert (terminal (at_state a2) = true) as F2 by congruence. rewrite F2 in *. cbn in *. triggers.
  rewrite !bool_decide_true by congruence. cbn. lia.
Qed.

Lemma protect_container_trans a1 a2 a3 :
  protect_attempt_container a1 a2 = true -> protect_attempt_container a2 a3 = true ->
  protect_attempt_container a1 a3 = true.
Proof.
  unfold protect_attempt_container. destruct (at_container a1) as [x|] eqn:E1; [|done].
  intros H1 H2. triggers. rewrite H1 in H2. triggers. by rewrite bool_decide_true.
Qed.

Lemma protect_session_spec old new :
  protect_worker_session old new = true <->
  se_worker old = se_worker new /\ se_generation old = se_generation new /\ se_hash old = se_hash new
  /\ se_created old = se_created new /\ (se_fenced old = None \/ se_fenced old = se_fenced new).
Proof.
  unfold protect_worker_session. rewrite !andb_true_iff, orb_true_iff, !bool_decide_eq_true, !Z.eqb_eq. tauto.
Qed.

Lemma protect_heartbeat_spec old new :
  protect_heartbeat_order old new = true <->
  se_sequence old < se_sequence new
  \/ (se_sequence new = se_sequence old /\ se_request new = se_request old
      /\ se_report_hash new = se_report_hash old).
Proof.
  unfold protect_heartbeat_order.
  rewrite negb_true_iff, orb_false_iff, andb_false_iff, negb_false_iff, andb_true_iff, !bool_decide_eq_true,
    Z.ltb_ge, Z.eqb_neq. split.
  - intros [? [?|[]]]; [left; lia|]. destruct (decide (se_sequence old < se_sequence new)); [by left|right]. split_and!; [lia|done|done].
  - intros [?|(? & ? & ?)]; (split; [lia|]); [left; lia|by right].
Qed.

#[global] Instance evolves_preorder : PreOrder evolves.
Proof.
  split.
  - intros c. split; try done.
    + intros jid j Hj. exists j. rewrite protect_job_refl. split_and!; (done || lia).
    + intros id a Ha. exists a. rewrite protect_attempt_refl. split_and!; try (done || lia).
      unfold protect_attempt_container. destruct (at_container a) eqn:E; [by rewrite bool_decide_true|done].
    + intros id s Hs. exists s. rewrite protect_session_spec, protect_heartbeat_spec. split_and!; auto.
  - intros c1 c2 c3 [J1 A1 C1 S1 T1] [J2 A2 C2 S2 T2]. split; auto.
    + intros jid j Hj. destruct (J1 _ _ Hj) as (j' & Hj' & ? & ?). destruct (J2 _ _ Hj') as (j'' & ? & ? & ?).
      exists j''. split_and!; [done|by eapply protect_job_trans|lia].
    + intros id a Ha. destruct (A1 _ _ Ha) as (a' & Ha' & ? & ? & ? & ?). destruct (A2 _ _ Ha') as (a'' & ? & ? & ? & ? & ?).
      exists a''. split_and!; [done|by eapply protect_attempt_trans|by eapply protect_container_trans|lia|congruence].
    + intros id s Hs. destruct (S1 _ _ Hs) as (s' & Hs' & P1 & Q1). destruct (S2 _ _ Hs') as (s'' & ? & P2 & Q2).
      exists s''. rewrite protect_session_spec, protect_heartbeat_spec in *. split_and!; [done|..];
        try (destruct_and!; congruence).
      * destruct_and!. naive_solver congruence.
      * destruct Q1 as [|(? & ? & ?)], Q2 as [|(? & ? & ?)]; [left; lia..|right; split_and!; congruence].
Qed.

(** * Changes never undo *)

Section History.
Context `{GoLib}.

Lemma evolves_put c jid j id j' a' r' co :
  jobs c !! jid = Some j -> protect_job_identity j j' = true -> jb_counter j <= jb_counter j' ->
  match attempts c !! id with
  | Some a => protect_attempt_identity a a' = true /\ protect_attempt_container a a' = true
              /\ at_lease a <= at_lease a' /\ at_created a' = at_created a
  | None => True
  end ->
  (is_Some co -> completions c !! id = None) ->
  evolves c (put jid j' id a' r' co c).
Proof.
  intros Hj Hpj Hcnt Ha Hco. destruct (reflexivity c : evolves c c) as [J A C S T]. split; try done; cbn.
  - intros k jk Hk. destruct (decide (k = jid)) as [->|Hne].
    + exists j'. rewrite lookup_insert_eq. assert (jk = j) as -> by congruence. done.
    + destruct (J _ _ Hk) as (x & ? & ? & ?). exists x. by rewrite lookup_insert_ne.
  - intros k b Hk. destruct (decide (k = id)) as [->|Hne].
    + exists a'. rewrite lookup_insert_eq. rewrite Hk in Ha. naive_solver.
    + destruct (A _ _ Hk) as (x & ? & ? & ? & ?). exists x. by rewrite lookup_insert_ne.
  - intros k x Hk. destruct co as [y|]; [|done]. destruct (decide (k = id)) as [->|Hne].
    + rewrite Hco in Hk; [done|by eexists].
    + by rewrite lookup_insert_ne.
Qed.

(** An update of a row that is not final keeps its identity. *)
Lemma protect_job_live j j' :
  final (jb_state j) = false -> jb_project j' = jb_project j -> jb_spec j' = jb_spec j ->
  jb_spec_hash j' = jb_spec_hash j -> jb_resources j' = jb_resources j -> jb_sweep j' = jb_sweep j ->
  protect_job_identity j j' = true.
Proof.
  intros Hf E1 E2 E3 E4 E5. unfold protect_job_identity. rewrite E1, E2, E3, E4, E5, Hf. cbn [negb orb].
  by rewrite !bool_decide_true.
Qed.

Lemma protect_attempt_live a a' :
  active (at_state a) = true -> at_job a' = at_job a -> at_worker a' = at_worker a ->
  at_session a' = at_session a -> at_number a' = at_number a -> protect_attempt_identity a a' = true.
Proof.
  intros Hact E1 E2 E3 E4. unfold protect_attempt_identity. rewrite E1, E2, E3, E4, Z.eqb_refl.
  assert (terminal (at_state a) = false) as -> by (by destruct (at_state a)). cbn [negb orb].
  by rewrite !bool_decide_true.
Qed.

Lemma owning_not_final j id : job_ok j -> jb_current j = Some id -> final (jb_state j) = false.
Proof. intros (Hown & _) Hc. rewrite Hc in Hown. by destruct (jb_state j). Qed.

Lemma protect_container_same a a' : at_container a' = at_container a -> protect_attempt_container a a' = true.
Proof. unfold protect_attempt_container. intros ->. destruct (at_container a); [by rewrite bool_decide_true|done]. Qed.

Lemma change_evolves lo c t id j a r j' a' r' co :
  sound c -> exclusive lo c -> lo <= t -> attempts c !! id = Some a -> jobs c !! at_job a = Some j ->
  reservations c !! id = Some r -> attempt_change c t id j a r j' a' r' co ->
  evolves c (put (at_job a) j' id a' r' co c).
Proof.
  intros Hs He Hlo Ha Hj Hr Hc. pose proof (s_jobs _ Hs _ _ Hj) as Hok.
  destruct (e_past _ _ He _ _ Ha) as [_ Hlease].
  assert (forall x, jb_current j = Some x -> final (jb_state j) = false) as Hfin by (intros x; by apply owning_not_final).
  destruct Hc as [(Hcur & Hact & _) _ _|st ct ex dl (Hcur & Hact & _) _ _ Hst|st at' reason el Hcur Hact _ Hout
    |q digest st at' manifest now el (Hcur & Hact & _) _ _ Hco _ Hc Hstop Hout|Hact Hq Hf];
    (eapply evolves_put; [done|..]; rewrite ?Ha).
  - by apply protect_job_refl.
  - lia.
  - cbn. split_and!; [by apply protect_attempt_live|by apply protect_container_same|lia|done].
  - by intros [].
  - apply protect_job_live; eauto.
  - done.
  - cbn. split_and!; [by apply protect_attempt_live| |lia|done].
    unfold protect_attempt_container. cbn. destruct (at_container a); [by rewrite bool_decide_true|done].
  - by intros [].
  - apply protect_job_live; eauto.
  - done.
  - cbn. split_and!; [by apply protect_attempt_live|by apply protect_container_same|lia|done].
  - by intros [].
  - apply protect_job_live; eauto.
  - done.
  - cbn. split_and!; [by apply protect_attempt_live|by apply protect_container_same|lia|done].
  - done.
  - by apply protect_job_refl.
  - lia.
  - cbn. split_and!; [|by apply protect_container_same|lia|done].
    pose proof (protect_attempt_refl a) as Hrefl. exact Hrefl.
  - by intros [].
Qed.

Lemma lstep_evolves lo hi c c' : sound c -> exclusive lo c -> lstep lo hi c c' -> evolves c c'.
Proof.
  intros Hs He Hstep. destruct (reflexivity c : evolves c c) as [J A C S T].
  destruct Hstep as [jid j Hc|t id j a r j' a' r' co Ht Ha Hj Hr Hc|jid j id worker session t created Hj Hq Hcan Ha Hr Hcur Ht Hcr
    |worker w w' Hw Hc|worker w Hw Hc|session s sq rq h Hse Hsq|worker from to Ht
    |t worker w w' session s used Hw Hnew Hidle Hsw Hsf Hcur Ht Hu]; try (split; done).
  - split; try done. cbn. intros k jk Hk. destruct (decide (k = jid)) as [->|Hne].
    + rewrite Hk in Hc. inversion Hc as [|j0 Hst Ej Ej'|]; subst; eexists; rewrite lookup_insert_eq;
        (split_and!; [done| |cbn; lia]); [|exact (protect_job_refl jk)].
      apply protect_job_live; try done. by destruct Hst as [Hst| ->]; [destruct (jb_state jk)|].
    + destruct (J _ _ Hk) as (x & ? & ? & ?). exists x. by rewrite lookup_insert_ne.
  - eapply (change_evolves lo c t id j a r); [done|done|lia|done..].
  - eapply evolves_put; [done| |cbn; lia|by rewrite Ha|by intros []].
    apply protect_job_live; try done. by destruct (jb_state j).
  - split; try done. cbn. intros k x Hk. destruct (decide (k = session)) as [->|Hne].
    + exists (set_heartbeat sq rq h x). rewrite lookup_insert_eq. assert (x = s) as -> by congruence.
      rewrite protect_session_spec, protect_heartbeat_spec. cbn. split_and!; auto.
    + destruct (S _ _ Hk) as (y & ? & ?). exists y. by rewrite lookup_insert_ne.
  - split; try done. cbn. intros k Hk. destruct (decide (k = (worker, from))) as [->|Hne];
      [rewrite lookup_insert_eq; by eexists|by rewrite lookup_insert_ne].
  - split; try done; cbn; [|intros k; by apply Hu]. intros k x Hk. exists (fence_session worker t x).
    rewrite lookup_insert_ne by (intros <-; congruence). rewrite lookup_fmap, Hk.
    split; [done|]. rewrite protect_session_spec, protect_heartbeat_spec. unfold fence_session.
    destruct (decide (se_fenced x = None)) as [E|E].
    + rewrite (bool_decide_true (se_fenced x = None)) by done. destruct (bool_decide (se_worker x = worker)); cbn;
        (split; [split_and!; auto|right; split_and!; done]).
    + rewrite (bool_decide_false (se_fenced x = None)) by done. rewrite andb_false_r.
      split; [split_and!; auto|right; split_and!; done].
Qed.

(** * Runs *)

Inductive lsteps : Z -> Z -> Core -> Core -> Prop :=
| ls_nil lo hi c : lo <= hi -> lsteps lo hi c c
| ls_cons lo mid hi c c1 c2 : lo <= mid -> lstep lo mid c c1 -> lsteps mid hi c1 c2 -> lsteps lo hi c c2.

Lemma lsteps_le lo hi c c' : lsteps lo hi c c' -> lo <= hi.
Proof. induction 1; lia. Qed.

Lemma lstep_weaken lo lo' hi hi' c c' : lo' <= lo -> hi <= hi' -> lstep lo hi c c' -> lstep lo' hi' c c'.
Proof.
  intros H1 H2 [|t id j a r j' a' r' co Ht|jid j id worker session t created Hj Hq Hcan Ha Hr Hcur Ht Hcr| | | |
    |t worker w w' session s used Hw Hnew Hidle Hsw Hsf Hcur Ht Hu]; try (by econstructor; eauto).
  - eapply l_attempt with (t := t); [lia|done..].
  - eapply l_assign; eauto; lia.
  - eapply l_register; eauto; lia.
Qed.

Lemma lsteps_earlier lo lo' hi c c' : lo' <= lo -> lsteps lo hi c c' -> lsteps lo' hi c c'.
Proof.
  intros Hle Hsteps. revert Hle. destruct Hsteps as [l h x ?|l m h x y z ? Hst Hrest]; intros Hle; [constructor; lia|].
  apply (ls_cons lo' m h x y z); [lia| |done]. apply (lstep_weaken l lo' m m); [lia|lia|done].
Qed.

Lemma lsteps_app lo mid hi c1 c2 c3 : lsteps lo mid c1 c2 -> lsteps mid hi c2 c3 -> lsteps lo hi c1 c3.
Proof.
  intros H1. revert hi c3. induction H1 as [lo mid c Hle|lo m mid c c1 c2 Hle Hst _ IH]; intros hi c3 H2.
  - by eapply lsteps_earlier.
  - eapply ls_cons; eauto.
Qed.

Lemma lsteps_one lo t hi c c' : lo <= t <= hi -> lstep lo t c c' -> lsteps lo hi c c'.
Proof. intros Ht Hst. eapply ls_cons; [|done|constructor]; lia. Qed.

(** A run in which the triggers see every change: a change updates a row at most
    once, and the row it leaves passes them against the row it found. *)
Inductive checked_run : Z -> Z -> Core -> Core -> Prop :=
| cr_nil lo hi c : lo <= hi -> checked_run lo hi c c
| cr_cons lo mid hi c c1 c2 :
    lo <= mid -> lstep lo mid c c1 -> evolves c c1 -> checked_run mid hi c1 c2 -> checked_run lo hi c c2.

(** A run keeps the ledger sound and its attempts exclusive, and undoes nothing. *)
Lemma lsteps_keep lo hi c c' :
  lsteps lo hi c c' -> sound c -> exclusive lo c -> sound c' /\ exclusive hi c' /\ evolves c c'.
Proof.
  induction 1 as [lo hi c Hle|lo mid hi c c1 c2 Hle Hst _ IH]; intros Hs He.
  - split_and!; [done| |done]. by apply (exclusive_frame lo hi c); eauto.
  - destruct IH as (? & ? & ?); [by eapply sound_step|by eapply exclusive_step|].
    split_and!; [done|done|]. etransitivity; [by eapply lstep_evolves|done].
Qed.

Lemma lsteps_checked lo hi c c' : lsteps lo hi c c' -> sound c -> exclusive lo c -> checked_run lo hi c c'.
Proof.
  induction 1 as [lo hi c Hle|lo mid hi c c1 c2 Hle Hst _ IH]; intros Hs He; [by constructor|].
  eapply cr_cons; [done|exact Hst|by eapply lstep_evolves|].
  apply IH; [by eapply sound_step|by eapply exclusive_step].
Qed.

End History.
