(* ===== verification/StoreRun.v ===== *)
(** Running transactions: what a committed body did to the core, statement by
    statement, and the changes of the ledger its parts amount to. *)

From S2P Require Import Prelude Strings Protocol SpecJob Store StoreLeases StoreRecovery.
From S2P Require Import StoreSessions StoreAcquire StoreComplete Ledger LedgerFacts.
Open Scope Z_scope.

(** * Running a body *)

Lemma bind_gets {A B} (f : Db -> A) (k : A -> tx B) db : st_bind (st_gets f) k db = k (f db) db.
Proof. done. Qed.

Lemma bind_exec {B} f (k : unit -> tx B) db : st_bind (exec f) k db = k tt (f db).
Proof. done. Qed.

Lemma bind_ret {A B} (a : A) (k : A -> tx B) db : st_bind (st_ret a) k db = k a db.
Proof. done. Qed.

Lemma ret_Ok {A} (a x : A) (db db' : Db) : st_ret (E:=StoreError) a db = (Ok x, db') -> x = a /\ db' = db.
Proof. by intros [= <- <-]. Qed.

Lemma bind_lifted {A B} (a : A) (k : A -> tx B) db : st_bind (st_lift (Ok a)) k db = k a db.
Proof. done. Qed.

Lemma bind_assoc {A B C} (m : tx A) (k : A -> tx B) (l : B -> tx C) db :
  st_bind (st_bind m k) l db = st_bind m (fun a => st_bind (k a) l) db.
Proof. unfold st_bind. by destruct (m db) as [[a|e] s]. Qed.

Lemma bind_guard_Ok {B} b e (k : unit -> tx B) db x db' :
  st_bind (guard b e) k db = (Ok x, db') -> b = true /\ k tt db = (Ok x, db').
Proof. by destruct b. Qed.

Lemma bind_row_Ok {A B} (o : option A) e (k : A -> tx B) db x db' :
  st_bind (row o e) k db = (Ok x, db') -> exists a, o = Some a /\ k a db = (Ok x, db').
Proof. destruct o as [a|]; [by exists a|done]. Qed.

Lemma bind_query_Ok {A B} (f : Db -> option A) e (k : A -> tx B) db x db' :
  st_bind (query f e) k db = (Ok x, db') -> exists a, f db = Some a /\ k a db = (Ok x, db').
Proof. unfold st_bind, query. destruct (f db) as [a|]; [by exists a|done]. Qed.

Lemma bind_lift_Ok {A B} (m : result StoreError A) (k : A -> tx B) db x db' :
  st_bind (st_lift m) k db = (Ok x, db') -> exists a, m = Ok a /\ k a db = (Ok x, db').
Proof. destruct m as [a|]; [by exists a|done]. Qed.

Lemma transact_inv {A} answer (body : tx (Done A)) db x db' :
  transact answer body db = (x, db') -> db' = db \/ exists a, body db = (Ok (Commit a), db').
Proof.
  unfold transact. destruct answer, (body db) as [[[a|a]|e] db1]; intros [= _ <-]; eauto.
Qed.

(** Follows a body along the statements that succeed. *)
Ltac run H :=
  repeat (cbn beta iota in H; match type of H with
  | st_bind (st_gets _) _ _ = _ => rewrite bind_gets in H
  | st_bind (exec _) _ _ = _ => rewrite bind_exec in H
  | st_bind (st_ret _) _ _ = _ => rewrite bind_ret in H
  | st_bind (st_bind _ _) _ _ = _ => rewrite bind_assoc in H
  | st_bind (guard _ _) _ _ = (Ok _, _) => let G := fresh "G" in apply bind_guard_Ok in H as [G H]
  | st_bind (row _ _) _ _ = (Ok _, _) =>
      let x := fresh "x" in let G := fresh "G" in apply bind_row_Ok in H as (x & G & H)
  | st_bind (query _ _) _ _ = (Ok _, _) =>
      let x := fresh "x" in let G := fresh "G" in apply bind_query_Ok in H as (x & G & H)
  | st_bind (st_lift _) _ _ = (Ok _, _) =>
      let x := fresh "x" in let G := fresh "G" in apply bind_lift_Ok in H as (x & G & H)
  | st_err _ _ = (Ok _, _) => discriminate H
  | st_bind (st_err _) _ _ = (Ok _, _) => discriminate H
  end).

(** * Statements that leave a part of the database alone *)

Definition keeps {X A} (f : Db -> X) (m : tx A) : Prop := forall db x db', m db = (Ok x, db') -> f db' = f db.

(** Statements that only read. *)
Definition reads {A} (m : tx A) : Prop := keeps (fun db => db) m.

Create HintDb keeps.

Section Keeps.
Context {X : Type} (f : Db -> X).

Lemma tx_keeps_ret {A} (a : A) : keeps f (st_ret a).
Proof. by intros db x db' [= _ <-]. Qed.

Lemma tx_keeps_err {A} e : keeps (A:=A) f (st_err e).
Proof. done. Qed.

Lemma tx_keeps_gets {A} (g : Db -> A) : keeps f (st_gets g).
Proof. by intros db x db' [= _ <-]. Qed.

Lemma tx_keeps_guard b e : keeps f (guard b e).
Proof. destruct b; [apply tx_keeps_ret|apply tx_keeps_err]. Qed.

Lemma tx_keeps_row {A} (o : option A) e : keeps f (row o e).
Proof. destruct o; [apply tx_keeps_ret|apply tx_keeps_err]. Qed.

Lemma tx_keeps_lift {A} (m : result StoreError A) : keeps f (st_lift m).
Proof. destruct m; [apply tx_keeps_ret|apply tx_keeps_err]. Qed.

Lemma tx_keeps_query {A} (g : Db -> option A) e : keeps f (query g e).
Proof. intros db x db'. unfold query. destruct (g db); by intros [= _ <-]. Qed.

Lemma tx_keeps_exec g : (forall db, f (g db) = f db) -> keeps f (exec g).
Proof. by intros Hf db x db' [= _ <-]. Qed.

Lemma tx_keeps_bind {A B} (m : tx A) (k : A -> tx B) :
  keeps f m -> (forall a, keeps f (k a)) -> keeps f (st_bind m k).
Proof. intros Hm Hk db x db' (a & db1 & H1 & H2)%st_bind_Ok. by rewrite (Hk _ _ _ _ H2), (Hm _ _ _ H1). Qed.

Lemma keeps_each {A} (g : A -> tx unit) l : (forall a, keeps f (g a)) -> keeps f (for_each g l).
Proof. intros Hf. induction l; [apply tx_keeps_ret|]. by apply tx_keeps_bind. Qed.
End Keeps.

#[export] Hint Resolve tx_keeps_ret tx_keeps_err tx_keeps_gets tx_keeps_guard tx_keeps_row tx_keeps_lift tx_keeps_query tx_keeps_exec : keeps.

(** Statement by statement, along every branch. *)
Ltac keep :=
  repeat (intros; cbn beta iota; match goal with
    | |- keeps _ (st_bind _ _) => apply tx_keeps_bind
    | |- keeps _ (for_each _ _) => apply keeps_each
    | |- keeps _ (match ?x with _ => _ end) => destruct x
    | |- keeps _ _ => solve [eauto 2 with keeps]
    | |- _ => reflexivity
    end).

(** * Shared statements *)

Lemma authorize_bind {B} id (k : unit -> tx B) db x db' :
  st_bind (authorizeWorkerTx id) k db = (Ok x, db') -> k tt db = (Ok x, db').
Proof. unfold authorizeWorkerTx. intros Hr. by run Hr. Qed.

Lemma require_session_bind {B} worker session (k : unit -> tx B) db x db' :
  st_bind (requireCurrentWorkerSession worker session) k db = (Ok x, db') ->
  current_session (core db) worker session /\ k tt db = (Ok x, db').
Proof.
  unfold requireCurrentWorkerSession. intros Hr. run Hr. split; [|done].
  unfold Datatypes.id in *. destruct (workers (core db) !! worker) as [w|] eqn:Hw; [|done].
  destruct (sessions (core db) !! session) as [s|] eqn:Hs; [|done]. bools. destruct G as [[G1 G2] G3].
  by exists w, s.
Qed.

Lemma alter_insert_row {A} (f : A -> A) k x (m : gmap string A) :
  m !! k = Some x -> alter f k m = <[k := f x]> m.
Proof.
  intros Hk. apply map_eq. intros i. destruct (decide (i = k)) as [->|Hne].
  - by rewrite lookup_alter_eq, lookup_insert_eq, Hk.
  - by rewrite lookup_alter_ne, lookup_insert_ne.
Qed.

(** The update of a job with its event touches the job's row only. *)
Lemma update_job_event_Ok f jid e db u db' :
  update_job_event f jid e db = (Ok u, db') ->
  exists j, jobs (core db) !! jid = Some j /\ core db' = set_jobs <[jid := f j]> (core db)
    /\ catalog db' = catalog db.
Proof.
  unfold update_job_event, update_job, insert_event. intros Hr. run Hr. injection Hr as _ <-.
  exists x. split; [done|]. split; [|done]. cbn. unfold set_jobs. cbn. by rewrite (alter_insert_row f jid x).
Qed.

Lemma NoDup_filter_keys {A} (f : string * A -> bool) (l : list (string * A)) :
  NoDup l.*1 -> NoDup (List.filter f l).*1.
Proof.
  induction l as [|[k c] l IH]; [done|]. cbn. intros [Hk Hl]%NoDup_cons. destruct (f (k, c)); [|by apply IH].
  cbn. constructor; [|by apply IH]. intros Hin. apply Hk. apply list_elem_of_fmap in Hin as ([k' a] & -> & Hin).
  apply list_elem_of_In, filter_In in Hin as [Hin _]. apply list_elem_of_fmap. exists (k', a).
  split; [done|]. by apply list_elem_of_In.
Qed.

Section Run.
Context `{GoLib}.

(** * Cancelling *)

Lemma cancel_step lo hi c jid j :
  jobs c !! jid = Some j -> queued (jb_state j) = true \/ jb_state j = J_ACTIVE -> lo <= hi ->
  lsteps lo hi c (set_jobs <[jid := set_cancelled (cancelled_state (jb_state j)) j]> c).
Proof.
  intros Hj Hst Hle. apply (lsteps_one lo lo hi); [lia|]. apply l_job. rewrite Hj. by constructor.
Qed.

(** What a change of jobs alone leaves in place. *)
Definition same_rows (c c' : Core) : Prop :=
  attempts c' = attempts c /\ reservations c' = reservations c /\ completions c' = completions c
  /\ sessions c' = sessions c /\ workers c' = workers c /\ takeovers c' = takeovers c.

Lemma fail_fast_loop t failed sweep s l db u db' :
  NoDup l.*1 ->
  (forall id c, (id, c) ∈ l -> jobs (core db) !! id = Some c /\ fail_fast_candidate failed sweep s id c = true) ->
  for_each (fun '(id, c) =>
      let next := cancelled_state (jb_state c) in
      update_job_event (set_cancelled next) id (SWEEP_FAIL_FAST sweep failed (jb_state c) next)) l db = (Ok u, db') ->
  lsteps t t (core db) (core db') /\ same_rows (core db) (core db') /\ catalog db' = catalog db.
Proof.
  revert db. induction l as [|[id c] l IH]; intros db Hnd Hl Hr; cbn in Hr.
  { injection Hr as _ <-. split; [constructor; lia|done]. }
  apply st_bind_Ok in Hr as (u1 & db1 & H1 & Hr). apply update_job_event_Ok in H1 as (j & Hj & Hc1 & Hcat1).
  apply NoDup_cons in Hnd as [Hnin Hnd]. destruct (Hl id c) as [Hjc Hcand]; [left|].
  assert (j = c) as -> by congruence.
  destruct (IH db1 Hnd) as (Hs & Hsame & Hcat); [|done|].
  { intros id' c' Hin. destruct (Hl id' c') as [Hj' ?]; [by right|]. split; [|done]. rewrite Hc1. cbn.
    rewrite lookup_insert_ne; [done|]. intros ->. apply Hnin. apply list_elem_of_fmap. by exists (id', c'). }
  rewrite Hc1 in Hs, Hsame. split; [|split; [done|congruence]].
  eapply lsteps_app; [|exact Hs]. apply cancel_step; [done| |lia].
  unfold fail_fast_candidate in Hcand. bools. destruct Hcand as [_ [?|[? _]]]; auto.
Qed.

Lemma fail_fast_steps t failed db u db' :
  applySweepFailFast failed db = (Ok u, db') ->
  lsteps t t (core db) (core db') /\ same_rows (core db) (core db') /\ catalog db' = catalog db.
Proof.
  unfold applySweepFailFast. intros Hr. run Hr. unfold Datatypes.id in Hr.
  assert (forall u0 : unit, (@Ok StoreError unit u0, db) = (Ok u, db') -> lsteps t t (core db) (core db')
    /\ same_rows (core db) (core db') /\ catalog db' = catalog db) as Hno.
  { intros u0 [= _ <-]. split; [constructor; lia|done]. }
  destruct (jobs (core db) !! failed) as [j|]; [|by eapply Hno].
  destruct (jb_sweep j) as [sweep|]; [|by eapply Hno].
  destruct (sweeps (catalog db) !! sweep) as [s|]; [|by eapply Hno].
  destruct (_ && _); [|by eapply Hno]. eapply fail_fast_loop; [| |exact Hr].
  - apply NoDup_filter_keys, NoDup_fst_map_to_list.
  - intros id c Hin. apply list_elem_of_In, filter_In in Hin as [Hin Hc]. split; [|done].
    apply elem_of_map_to_list. by apply list_elem_of_In.
Qed.

Lemma lsteps_sound lo hi c c' : lsteps lo hi c c' -> sound c -> sound c'.
Proof. induction 1; intros Hs; [done|]. eauto using sound_step. Qed.

Lemma worker_step lo hi f worker c :
  (forall w, wk_current (f w) = wk_current w) -> lo <= hi -> lsteps lo hi c (set_workers (alter f worker) c).
Proof.
  intros Hf Hle. unfold set_workers. destruct (workers c !! worker) as [w|] eqn:E.
  - rewrite (alter_insert_row _ _ w) by done. apply (lsteps_one lo lo hi); [lia|]. by apply (l_worker _ _ _ _ w).
  - rewrite alter_id' by done. destruct c. by constructor.
Qed.

(** * Fencing *)

(** A fence touches its own attempt, and jobs. *)
Definition fence_frame (id : string) (c c' : Core) : Prop :=
  (forall k, k <> id -> attempts c' !! k = attempts c !! k)
  /\ (forall a, attempts c !! id = Some a -> exists a', attempts c' !! id = Some a' /\ active (at_state a') = false)
  /\ sessions c' = sessions c /\ workers c' = workers c /\ takeovers c' = takeovers c.

Lemma update_attempt_bind {B} f id a (k : unit -> tx B) db :
  attempts (core db) !! id = Some a ->
  st_bind (update_attempt f id) k db = k tt (on_core (set_attempts <[id := f a]>) db).
Proof.
  intros Ha. unfold update_attempt. rewrite bind_exec. unfold on_core, set_attempts. by rewrite (alter_insert_row f id a).
Qed.

Lemma end_reservation_bind {B} s id e (k : unit -> tx B) db x db' :
  st_bind (end_reservation s id e) k db = (Ok x, db') ->
  exists r, reservations (core db) !! id = Some r
    /\ k tt (on_core (set_reservations <[id := set_reservation s r]>) db) = (Ok x, db').
Proof.
  unfold end_reservation. intros Hr. run Hr. unfold Datatypes.id in *.
  destruct (reservations (core db) !! id) as [r|] eqn:E; [|done]. exists r. split; [done|].
  unfold on_core, set_reservations in *. by rewrite (alter_insert_row _ id r) in Hr.
Qed.

Lemma fence_steps a now r db u db' :
  sound (core db) -> attempts (core db) !! rec_ID a = Some r -> at_job r = rec_JobID a ->
  at_lease r <= now \/ at_phase r <= now \/ is_Some (takeovers (core db) !! (at_worker r, at_session r)) ->
  fenceLostAttempt a now db = (Ok u, db') ->
  lsteps now now (core db) (core db') /\ fence_frame (rec_ID a) (core db) (core db') /\ catalog db' = catalog db.
Proof.
  intros Hs Ha Hjr Hwhy. unfold fenceLostAttempt. intros Hr. run Hr. rewrite Ha in G0. injection G0 as <-.
  destruct (jobs (core db) !! rec_JobID a) as [j|] eqn:Hj; [|done].
  destruct (decide (jb_current j = Some (rec_ID a))) as [Hcur|Hcur];
    [rewrite bool_decide_true in G by done|by rewrite bool_decide_false in G]. injection G as <-.
  destruct (lost_outcome _ _ _ _ _ _ _ _) as [[[state attempt] reason] eligible] eqn:Hout.
  rewrite (update_attempt_bind _ _ r) in Hr by done. apply end_reservation_bind in Hr as (rv & Hrv & Hr).
  apply st_bind_Ok in Hr as (u1 & db1 & H1 & Hr). apply update_job_event_Ok in H1 as (j1 & Hj1 & Hc1 & Hcat1).
  cbn in Hj1, Hrv. rewrite Hj in Hj1. injection Hj1 as <-.
  destruct (s_owned _ Hs _ _ _ Hj Hcur) as (r0 & Hr0 & _ & Hact & _). rewrite Ha in Hr0. injection Hr0 as <-.
  assert (lsteps now now (core db) (core db1)) as Hst.
  { rewrite Hc1. apply (lsteps_one now now now); [lia|]. rewrite <- Hjr in Hj |- *.
    apply (l_attempt now now (core db) now (rec_ID a) j r rv _ _ _ None); [lia|done..|]. by constructor. }
  assert (fence_frame (rec_ID a) (core db) (core db1)) as Hfr.
  { rewrite Hc1. split_and!; cbn; [|intros|done..]; [by intros; rewrite lookup_insert_ne|].
    eexists. rewrite lookup_insert_eq. split; [done|]. by apply lost_outcome_terminal in Hout as [? _]. }
  destruct (bool_decide (state = J_FAILED)).
  - apply (fail_fast_steps now) in Hr as (Hst2 & (E1 & _ & _ & E2 & E3 & E4) & Hcat). split_and!.
    + by eapply lsteps_app.
    + unfold fence_frame. rewrite E1, E2, E3, E4. exact Hfr.
    + by rewrite Hcat, Hcat1.
  - injection Hr as _ <-. by rewrite Hcat1.
Qed.

(** The reaper fences an attempt whose deadline has passed. *)
Lemma reap_steps scanned now db a db' :
  sound (core db) -> reapOneExpiredAttempt_body scanned now db = (Ok (Commit a), db') ->
  lsteps now now (core db) (core db').
Proof.
  intros Hs. unfold reapOneExpiredAttempt_body. intros Hr. run Hr.
  destruct (sort_by _ _) as [|[id candidate] l] eqn:E; [done|].
  run Hr. destruct (_ || _) eqn:Hif; [by inversion Hr|]. bools. destruct Hif as [[Hcur Hact] Hexp].
  apply st_bind_Ok in Hr as (u1 & db1 & H1 & Hr). run Hr. injection Hr as _ <-.
  destruct (s_owned _ Hs _ _ _ G Hcur) as (r0 & Hr0 & Hjr & _). rewrite G0 in Hr0. injection Hr0 as <-.
  apply (fence_steps _ now x0) in H1 as (Hst & (_ & _ & _ & Hw & _) & _); [|done|done|done|].
  2: { destruct Hexp; auto. }
  eapply lsteps_app; [exact Hst|]. by apply worker_step.
Qed.
End Run.
