(* ===== verification/StoreSessionRun.v ===== *)
(** Registration, recovery and heartbeats of sessions as changes of the ledger. *)

From S2P Require Import Prelude Strings Protocol SpecJob Store StoreLeases StoreRecovery.
From S2P Require Import StoreSessions StoreAcquire StoreComplete Ledger LedgerFacts StoreRun.
Open Scope Z_scope.

Section Sessions.
Context `{GoLib}.

(** * Recovery *)

(** The attempts [l] are fenced, and only they. *)
Definition fenced_all (l : list string) (c c' : Core) : Prop :=
  (forall k, k ∉ l -> attempts c' !! k = attempts c !! k)
  /\ (forall k a, k ∈ l -> attempts c !! k = Some a ->
       exists a', attempts c' !! k = Some a' /\ active (at_state a') = false)
  /\ sessions c' = sessions c /\ workers c' = workers c /\ takeovers c' = takeovers c.

Definition may_fence (c : Core) (now : Z) (a : recoveryAttempt) : Prop :=
  exists r, attempts c !! rec_ID a = Some r /\ at_job r = rec_JobID a
    /\ (at_lease r <= now \/ is_Some (takeovers c !! (at_worker r, at_session r))).

Lemma fence_loop now l db u db' :
  sound (core db) -> NoDup (rec_ID <$> l) -> Forall (may_fence (core db) now) l ->
  for_each (fun a => fenceLostAttempt a now) l db = (Ok u, db') ->
  lsteps now now (core db) (core db') /\ fenced_all (rec_ID <$> l) (core db) (core db').
Proof.
  revert db. induction l as [|a l IH]; intros db Hs Hnd Hall Hr.
  { injection Hr as _ <-. split; [by constructor|]. split_and!; try done. intros k r Hk. by apply elem_of_nil in Hk. }
  apply st_bind_Ok in Hr as (u1 & db1 & H1 & Hr). apply NoDup_cons in Hnd as [Hni Hnd].
  apply Forall_cons in Hall as [(r & Ha & Hj & Hwhy) Hall].
  apply (fence_steps _ _ r) in H1 as (Hst & (Hoth & Hown & Ese & Ew & Et) & _); [|done|done|done|tauto].
  apply IH in Hr as (Hst2 & Hoth2 & Hin2 & Ese2 & Ew2 & Et2); [|by eapply lsteps_sound|done|].
  - split; [by eapply lsteps_app|]. split_and!; [| |congruence..].
    + intros k Hk. cbn in Hk. apply not_elem_of_cons in Hk as [Hk1 Hk2]. rewrite Hoth2 by done. by apply Hoth.
    + intros k x Hk Hx. cbn in Hk. apply elem_of_cons in Hk as [->|Hk].
      * rewrite Hoth2 by done. by eapply Hown.
      * destruct (decide (k = rec_ID a)) as [->|Hne]; [by destruct Hni|]. apply (Hin2 k x); [done|]. by rewrite Hoth.
  - rewrite Forall_forall in Hall |- *. intros b Hb. destruct (Hall b Hb) as (rb & Hrb & Hjb & Hwb). exists rb.
    rewrite Et, Hoth; [done|]. intros E. apply Hni. rewrite <- E. by apply list_elem_of_fmap_2.
Qed.

Lemma lockWorkerAttempts_elem c worker b :
  b ∈ lockWorkerAttempts c worker <->
  exists a, attempts c !! rec_ID b = Some a /\ at_worker a = worker /\ active (at_state a) = true
    /\ rec_JobID b = at_job a /\ rec_LeaseExpiry b = at_lease a.
Proof.
  unfold lockWorkerAttempts. rewrite list_elem_of_fmap. split.
  - intros ([k a] & -> & Hin). rewrite sort_by_Permutation in Hin. apply list_elem_of_In, filter_In in Hin as [Hin Hb].
    bools. destruct Hb. exists a. cbn. split_and!; try done. apply elem_of_map_to_list. by apply list_elem_of_In.
  - intros (a & Ha & Hw & Hact & Hj & Hl). exists (rec_ID b, a). split; [by destruct b; cbn in *; subst|].
    rewrite sort_by_Permutation. apply list_elem_of_In, filter_In.
    split; [by apply list_elem_of_In, elem_of_map_to_list|]. by rewrite Hact, bool_decide_true.
Qed.

Lemma lockWorkerAttempts_NoDup c worker : NoDup (rec_ID <$> lockWorkerAttempts c worker).
Proof.
  unfold lockWorkerAttempts. rewrite <- list_fmap_compose, sort_by_Permutation.
  rewrite (list_fmap_ext _ fst) by (by intros ? [k a] _). apply NoDup_filter_keys, NoDup_fst_map_to_list.
Qed.

(** An active attempt of a worker is of its current session. *)
Lemma active_session c id a w :
  sound c -> attempts c !! id = Some a -> active (at_state a) = true -> workers c !! at_worker a = Some w ->
  wk_current w = Some (at_session a).
Proof.
  intros Hs Ha Hact Hw. destruct (s_attempts _ Hs _ _ Ha) as (_ & _ & (s & Hse & Hsw & Hsf) & _).
  destruct (s_sessions _ Hs _ _ Hse (Hsf Hact)) as (w' & Hw' & Hc). congruence.
Qed.

(** After a recovery the worker has no active attempt, and its sessions are fenced. *)
Definition recovered (worker : string) (now : Z) (c c' : Core) : Prop :=
  exists c1, lsteps now now c c1
    /\ (forall id a, attempts c1 !! id = Some a -> at_worker a = worker -> active (at_state a) = false)
    /\ sessions c1 = sessions c /\ workers c1 = workers c
    /\ (forall k, is_Some (takeovers c' !! k) <-> is_Some (takeovers c1 !! k))
    /\ c' = {| jobs := jobs c1; attempts := attempts c1; reservations := reservations c1;
               completions := completions c1; sessions := fence_session worker now <$> sessions c1;
               workers := workers c1; takeovers := takeovers c' |}.

Lemma fenced_idle worker c c' :
  fenced_all (rec_ID <$> lockWorkerAttempts c worker) c c' ->
  forall id a, attempts c' !! id = Some a -> at_worker a = worker -> active (at_state a) = false.
Proof.
  intros (Hoth & Hin & _) id a Ha Hw. destruct (decide (id ∈ rec_ID <$> lockWorkerAttempts c worker)) as [Hi|Hi].
  - pose proof Hi as (b & -> & (a0 & Ha0 & _)%lockWorkerAttempts_elem)%list_elem_of_fmap.
    destruct (Hin _ _ Hi Ha0) as (a' & Ha' & ?). congruence.
  - rewrite Hoth in Ha by done. destruct (active (at_state a)) eqn:E; [|done]. exfalso. apply Hi.
    apply list_elem_of_fmap. exists {| rec_JobID := at_job a; rec_ID := id; rec_LeaseExpiry := at_lease a |}.
    split; [done|]. apply lockWorkerAttempts_elem. by exists a.
Qed.

Lemma recover_session worker from to now db u db' :
  sound (core db) -> recoverSession worker from to now db = (Ok u, db') -> recovered worker now (core db) (core db').
Proof.
  intros Hs. unfold recoverSession. intros Hr. run Hr. unfold Datatypes.id in *. bools. destruct G1 as [Hcur Hsw].
  apply st_bind_Ok in Hr as (u1 & db1 & H1 & Hr).
  set (approved := match takeovers (core db) !! (worker, from) with Some _ => _ | None => _ end) in *.
  assert (db1 = db /\ Forall (may_fence (core db) now) (lockWorkerAttempts (core db) worker)) as [-> Hall].
  { destruct (s_workers _ Hs _ _ _ G Hcur) as (w0 & s0 & _ & Hs0 & _ & _ & Hf). rewrite G0 in Hs0. injection Hs0 as <-.
    rewrite bool_decide_true, andb_true_r in H1 by done.
    assert (db1 = db) as ->.
    { destruct (negb approved); [|by injection H1]. run H1. unfold guard in H1.
      destruct (negb _); [by injection H1|done]. }
    split; [done|]. apply Forall_forall. intros b Hb.
    pose proof Hb as (a & Ha & Hw & Hact & Hj & Hl)%lockWorkerAttempts_elem. exists a. split_and!; [done..|].
    destruct approved eqn:Happ; cbn in H1.
    - right. rewrite <- Hw in G. rewrite (active_session _ _ _ _ Hs Ha Hact G) in Hcur. injection Hcur as Hcur.
      rewrite Hw, Hcur. unfold approved in Happ. by destruct (takeovers (core db) !! (worker, from)).
    - left. run H1. unfold guard in H1. destruct (existsb _ _) eqn:E; [done|]. destruct (Z.lt_ge_cases now (at_lease a)) as [Hlt|]; [|done].
      exfalso. apply not_true_iff_false in E. apply E, existsb_exists. exists b.
      split; [by apply list_elem_of_In|]. rewrite Hl. by apply Z.ltb_lt. }
  apply st_bind_Ok in Hr as (u2 & db2 & H2 & Hr).
  apply fence_loop in H2 as (Hst & Hf); [|done|apply lockWorkerAttempts_NoDup|done].
  pose proof (fenced_idle _ _ _ Hf) as Hidle. destruct Hf as (_ & _ & Ese & Ew & Et).
  rewrite bind_exec in Hr. exists (core db2). split_and!; try done;
    destruct approved; run Hr; injection Hr as _ <-; try done; cbn.
  intros k. by rewrite lookup_alter_is_Some.
Qed.

(** * Registration *)

(** A worker without a current session has nothing to recover. *)
Lemma nothing_to_recover worker now c w :
  sound c -> workers c !! worker = Some w -> wk_current w = None -> recovered worker now c c.
Proof.
  intros Hs Hw Hc. exists c. split; [by constructor|]. split_and!; try done.
  - intros id a Ha <-. destruct (active (at_state a)) eqn:E; [|done].
    rewrite (active_session _ _ _ _ Hs Ha E Hw) in Hc. done.
  - enough (fence_session worker now <$> sessions c = sessions c) as -> by (by destruct c).
    apply map_eq. intros k. rewrite lookup_fmap. destruct (sessions c !! k) as [s|] eqn:Hk; [cbn|done]. f_equal.
    unfold fence_session. destruct (decide (se_fenced s = None)) as [E|E];
      [|by rewrite (bool_decide_false (se_fenced s = None)), andb_false_r].
    destruct (s_sessions _ Hs _ _ Hk E) as (w' & Hw' & Hc').
    rewrite bool_decide_false; [done|]. intros E2. rewrite E2 in Hw'. congruence.
Qed.

Lemma register_steps identity r hash now created seen db a db' :
  sound (core db) -> RegisterSession_body identity r hash now created seen db = (Ok (Commit a), db') ->
  lsteps now now (core db) (core db').
Proof.
  intros Hs. unfold RegisterSession_body. intros Hr. apply authorize_bind in Hr. run Hr. unfold Datatypes.id in *.
  set (worker := identity_WorkerID identity) in *.
  assert (forall e (k : unit -> tx (Done Session)), st_bind (match registrations (replay db) !! (worker, reg_RequestID r) with
    | Some (saved, savedHash) => guard (bool_decide (saved = reg_SessionID r) && bool_decide (savedHash = hash)) e
    | None => st_ret tt end) k db = (Ok (Commit a), db') -> k tt db = (Ok (Commit a), db')) as Hskip.
  { intros e k Hk. destruct (registrations _ !! _) as [[saved h]|]; run Hk; done. }
  apply Hskip in Hr. clear Hskip. destruct (sessions (core db) !! reg_SessionID r) as [s|] eqn:Hse.
  { destruct (bool_decide (se_worker s = worker)).
    - run Hr. unfold recordRegistration in Hr. run Hr. injection Hr as _ <-. by constructor.
    - apply st_bind_Ok in Hr as (u1 & db1 & _ & Hr). done. }
  apply st_bind_Ok in Hr as (u1 & db1 & H1 & Hr).
  assert (recovered worker now (core db) (core db1)) as (c1 & Hst & Hidle & Ese & Ew & Etk & Ec).
  { destruct (wk_current x) as [current|] eqn:E; [by eapply recover_session|].
    injection H1 as _ <-. by eapply nothing_to_recover. }
  run Hr. unfold recordRegistration, worker_event in Hr. run Hr. injection Hr as _ <-.
  eapply lsteps_app; [exact Hst|]. apply (lsteps_one now now now); [lia|]. cbn.
  rewrite <- Ew in G. rewrite <- Ese in Hse.
  unfold set_workers, set_sessions. rewrite (alter_insert_row _ worker x) by (by rewrite Ec).
  rewrite Ec. cbn. by apply (l_register _ _ c1 now worker x).
Qed.

(** * Heartbeats *)

(** A listed attempt as its rows have it. *)
Definition listed_row (c : Core) (id : string) (h : heartbeatAttempt) : Prop :=
  exists a j r s, attempts c !! id = Some a /\ jobs c !! at_job a = Some j /\ reservations c !! id = Some r
    /\ sessions c !! at_session a = Some s
    /\ ha_Authority h = row_authority id a /\ ha_State h = at_state a /\ ha_Reservation h = rv_state r
    /\ ha_LeaseExpiry h = at_lease a /\ ha_Current h = jb_current j /\ ha_Fenced h = se_fenced s
    /\ ha_Cancelled h = jb_cancel j.

Lemma heartbeatAttempts_row c worker inventory id h :
  heartbeatAttempts c worker inventory !! id = Some h -> listed_row c id h.
Proof.
  unfold heartbeatAttempts. rewrite map_lookup_imap. destruct (attempts c !! id) as [a|] eqn:Ha; [cbn|done].
  destruct (jobs c !! at_job a) as [j|] eqn:Hj; [|done]. destruct (reservations c !! id) as [r|] eqn:Hr; [|done].
  destruct (sessions c !! at_session a) as [s|] eqn:Hs; [|done]. destruct (_ && _); [|done].
  intros [= <-]. by exists a, j, r, s.
Qed.

Lemma release_step now c id a j r :
  attempts c !! id = Some a -> jobs c !! at_job a = Some j -> reservations c !! id = Some r ->
  active (at_state a) = false -> rv_state r = R_quarantined -> fenced_session c (at_session a) ->
  lsteps now now c (set_attempts (alter (set_cleanup false) id)
                      (set_reservations (alter (set_reservation R_released) id) c)).
Proof.
  intros Ha Hj Hr Hact Hq Hf. apply (lsteps_one now now now); [lia|].
  unfold set_attempts, set_reservations. cbn. rewrite (alter_insert_row _ _ a), (alter_insert_row _ _ r) by done.
  rewrite <- (insert_id (jobs c) (at_job a) j) at 1 by done.
  apply (l_attempt now now c now id j a r _ _ _ None); [lia|done..|]. by constructor.
Qed.

Lemma release_loop now session canRelease l db u db' :
  NoDup l.*1 -> (forall id h, (id, h) ∈ l -> listed_row (core db) id h /\ ha_Reservation h = R_quarantined) ->
  for_each (fun '(id, a) =>
      if canRelease && releasable session a then
        let! _ := exec (on_core (set_reservations (alter (set_reservation R_released) id))) in
        update_attempt (set_cleanup false) id
      else st_ret tt) l db = (Ok u, db') ->
  lsteps now now (core db) (core db') /\ sessions (core db') = sessions (core db)
    /\ workers (core db') = workers (core db).
Proof.
  revert db. induction l as [|[id h] l IH]; intros db Hnd Hl Hr.
  { injection Hr as _ <-. split; [by constructor|done]. }
  apply st_bind_Ok in Hr as (u1 & db1 & H1 & Hr). apply NoDup_cons in Hnd as [Hni Hnd].
  destruct (canRelease && releasable session h) eqn:E.
  2: { injection H1 as _ <-. apply IH in Hr; [done|done|]. intros id' h' Hin. apply Hl. by right. }
  unfold update_attempt in H1. run H1. injection H1 as _ <-. apply andb_true_iff in E as [_ E].
  unfold releasable in E. bools. destruct E as [[_ Hf] Hact].
  destruct (Hl id h) as [(a & j & r & s & Ha & Hj & Hrv & Hs & _ & Est & Erv & _ & _ & Efe & _) Hq]; [left|].
  apply IH in Hr as (Hst & Ese & Ew); [|done|].
  - split; [|done]. eapply lsteps_app; [|exact Hst]. eapply release_step; [done..| | |]; [congruence..|].
    exists s. split; [done|congruence].
  - intros id' h' Hin. destruct (Hl id' h') as [(a' & j' & r' & s' & Ha' & Hj' & Hr' & Hrest) ?]; [by right|].
    assert (id' <> id) by (intros ->; apply Hni, list_elem_of_fmap; by exists (id, h')).
    split; [|done]. exists a', j', r', s'. cbn. by rewrite !lookup_alter_ne.
Qed.

Lemma heartbeat_steps identity h hash now db a db' :
  sound (core db) -> RecordHeartbeat_body identity h hash now db = (Ok (Commit a), db') ->
  lsteps now now (core db) (core db').
Proof.
  intros Hs. unfold RecordHeartbeat_body. intros Hr. apply authorize_bind in Hr. run Hr. unfold Datatypes.id in *.
  apply st_bind_Ok in Hr as (u1 & db1 & H1 & Hr). apply (release_loop now) in H1 as (Hst & Ese & Ew).
  - eapply lsteps_app; [exact Hst|]. apply st_bind_Ok in Hr as (u2 & db2 & H2 & Hr). injection Hr as _ <-.
    destruct (Sequence h =? se_sequence x0) eqn:Eseq; [injection H2 as _ <-; by constructor|].
    apply Z.eqb_neq in Eseq. apply Z.leb_le in G2. rewrite !bind_exec in H2.
    assert (lsteps now now (core db1) (core (on_core (set_sessions (alter (set_heartbeat (Sequence h) (hb_RequestID h) hash)
       (hb_SessionID h))) db1))) as Hst1.
    { apply (lsteps_one now now now); [lia|]. cbn. unfold set_sessions.
      rewrite (alter_insert_row _ _ x0) by congruence. apply l_heartbeat; [congruence|lia]. }
    eapply lsteps_app; [exact Hst1|]. match type of H2 with (if ?b then _ else _) _ = _ => destruct b end;
      injection H2 as _ <-; by apply worker_step.
  - apply NoDup_filter_keys, NoDup_fst_map_to_list.
  - intros id h' Hin. apply list_elem_of_In, filter_In in Hin as [Hin Hb]. bools. split; [|done].
    eapply heartbeatAttempts_row, elem_of_map_to_list. by apply list_elem_of_In.
Qed.

(** * Take-overs *)

Lemma takeover_steps t answer worker from to db x db' :
  ApproveSessionTakeover answer worker from to db = (x, db') -> lsteps t t (core db) (core db').
Proof.
  unfold ApproveSessionTakeover. destruct (_ || _); [intros [= _ <-]; by constructor|].
  intros [->|(a & Hr)]%transact_inv; [by constructor|]. run Hr. unfold Datatypes.id in *.
  destruct (takeovers (core db) !! (worker, from)) as [tk|] eqn:E; [by destruct (bool_decide _)|].
  unfold worker_event in Hr. run Hr. injection Hr as _ <-. apply (lsteps_one t t t); [lia|]. by apply l_takeover.
Qed.
End Sessions.
