(* ===== verification/StoreWorkRun.v ===== *)
(** Leases, phases, completions and assignments as changes of the ledger. *)

From S2P Require Import Prelude Strings Protocol SpecJob Store StoreLeases StoreRecovery.
From S2P Require Import StoreSessions StoreAcquire StoreComplete Ledger LedgerFacts StoreRun.
Open Scope Z_scope.

Section Work.
Context `{GoLib}.

(** * Authority *)

Lemma active_is_current c id a :
  sound c -> attempts c !! id = Some a -> active (at_state a) = true ->
  current_session c (at_worker a) (at_session a).
Proof.
  intros Hs Ha Hact. destruct (s_attempts _ Hs _ _ Ha) as (_ & _ & (s & Hse & Hsw & Hsf) & _).
  destruct (s_sessions _ Hs _ _ Hse (Hsf Hact)) as (w & Hw & Hc). rewrite Hsw in Hw. exists w, s. split_and!; auto.
Qed.

(** The row behind a locked attempt that is active, and its job's. *)
Lemma locked_rows l c a :
  a ∈ l -> a = la_authority ((lockLeaseBatch l c).2 (AttemptID a)) ->
  active (la_state ((lockLeaseBatch l c).2 (AttemptID a))) = true ->
  exists r, attempts c !! AttemptID a = Some r /\ a = row_authority (AttemptID a) r
    /\ (lockLeaseBatch l c).2 (AttemptID a)
       = {| la_authority := row_authority (AttemptID a) r; la_state := at_state r;
            la_expires := at_lease r; la_phase := at_phase r |}.
Proof.
  intros Hin. cbn. destruct (attempts c !! AttemptID a) as [r|]; [|done].
  destruct (_ && _); [cbn|done]. intros Ha _. by exists r.
Qed.

Lemma locked_job l c a j :
  a ∈ l -> jobs c !! JobID a = Some j ->
  (lockLeaseBatch l c).1 (JobID a) = {| lj_current := jb_current j; lj_cancelled := jb_cancel j |}.
Proof. intros Hin Hj. cbn. rewrite Hj, bool_decide_true; [done|]. by apply list_elem_of_fmap_2. Qed.

Definition renewable (c : Core) (now : Z) (a : Authority) (r : AttemptRow) : Prop :=
  attempts c !! AttemptID a = Some r /\ a = row_authority (AttemptID a) r
  /\ exists j, jobs c !! at_job r = Some j /\ live c now (AttemptID a) j r /\ jb_cancel j = false /\ now < at_phase r.

Lemma leaseDecision_Accepted a job attempt now :
  leaseDecision a job attempt now = Decision_.Accepted ->
  a = la_authority attempt /\ active (la_state attempt) = true /\ lj_current job = Some (AttemptID a)
  /\ now < la_expires attempt /\ lj_cancelled job = false /\ now < la_phase attempt.
Proof.
  unfold leaseDecision. destruct (negb (bool_decide (a = la_authority attempt))) eqn:E1; [done|].
  destruct (negb (active _)) eqn:E2; [done|]. destruct (_ || _) eqn:E3; [done|].
  destruct (lj_cancelled job || _) eqn:E4; [done|]. bools. naive_solver.
Qed.

Lemma accepted_renewable l c now a :
  sound c -> a ∈ l ->
  leaseDecision a ((lockLeaseBatch l c).1 (JobID a)) ((lockLeaseBatch l c).2 (AttemptID a)) now = Decision_.Accepted ->
  exists r, renewable c now a r
    /\ (lockLeaseBatch l c).2 (AttemptID a)
       = {| la_authority := row_authority (AttemptID a) r; la_state := at_state r;
            la_expires := at_lease r; la_phase := at_phase r |}.
Proof.
  intros Hs Hin (Ha & Hact & Hcur & Hlease & Hcan & Hph)%leaseDecision_Accepted.
  destruct (locked_rows l c a Hin Ha Hact) as (r & Hr & Har & Hrow). rewrite Hrow in *. cbn in *.
  exists r. split; [|done]. split; [done|]. split; [done|].
  destruct (active_current c (AttemptID a) r Hs Hr Hact) as (j & Hj & Hc). exists j. split; [done|].
  assert (JobID a = at_job r) as Ej by (by rewrite Har). rewrite Ej, Hj in Hcan, Hcur. 
  rewrite bool_decide_true in Hcan by (rewrite <- Ej; by apply list_elem_of_fmap_2).
  split; [|done]. split_and!; try done. by eapply active_is_current.
Qed.

(** * Renewal *)

(** Leases were extended, nothing else. *)
Definition extended (now : Z) (c c' : Core) : Prop :=
  same_rows c (set_attempts (fun _ => attempts c) c') /\ jobs c' = jobs c
  /\ forall id a, attempts c !! id = Some a ->
       attempts c' !! id = Some a \/ attempts c' !! id = Some (set_lease (now + InitialLease) a).

Lemma extend_step now c a r :
  sound c -> renewable c now a r ->
  lstep now now c (set_attempts <[AttemptID a := set_lease (now + InitialLease) r]> c).
Proof.
  intros Hs (Hr & _ & j & Hj & Hlive & Hcan & Hph).
  destruct (s_attempts _ Hs _ _ Hr) as (_ & (rv & Hrv & _) & _). unfold set_attempts.
  rewrite <- (insert_id (jobs c) (at_job r) j) at 1 by done.
  rewrite <- (insert_id (reservations c) (AttemptID a) rv) at 1 by done.
  apply (l_attempt now now c now (AttemptID a) j r rv _ _ _ None); [lia|done..|]. by constructor.
Qed.

Lemma extended_renewable now c c' a r :
  renewable c now a r -> extended now c c' -> exists r', renewable c' now a r'
    /\ set_lease (now + InitialLease) r' = set_lease (now + InitialLease) r.
Proof.
  intros (Hr & Har & j & Hj & (Hcur & Hact & Hl & w & s & Hw & Hse & Hrest) & Hcan & Hph)
    ((_ & Erv & Eco & Ese & Ew & Etk) & Ej & Hat). cbn in Erv, Eco, Ese, Ew, Etk.
  assert (forall r', attempts c' !! AttemptID a = Some r' -> at_job r' = at_job r -> at_number r' = at_number r ->
    at_worker r' = at_worker r -> at_session r' = at_session r -> at_state r' = at_state r ->
    at_phase r' = at_phase r -> now < at_lease r' -> renewable c' now a r') as Hmk.
  { intros r' Hr' E1 E2 E3 E4 E5 E6 Hl'. split; [done|]. split; [rewrite Har at 1; unfold row_authority; congruence|].
    exists j. rewrite E1, Ej, E6. split; [done|]. split; [|done]. split_and!; try done; [by rewrite E5|].
    exists w, s. rewrite E3, E4, Ew, Ese. done. }
  destruct (Hat _ _ Hr) as [Hr'|Hr']; eexists; (split; [eapply Hmk; [exact Hr'|done..|]|done]); [done|].
  cbn. unfold InitialLease, second. lia.
Qed.

Lemma extended_step now c c' a r :
  extended now c c' -> attempts c' !! AttemptID a = Some r ->
  (forall r0, attempts c !! AttemptID a = Some r0 ->
     set_lease (now + InitialLease) r = set_lease (now + InitialLease) r0) ->
  extended now c (set_attempts <[AttemptID a := set_lease (now + InitialLease) r]> c').
Proof.
  intros (Hsame & Ej & Hat) Hr Heq. split; [done|]. split; [done|]. intros id x Hx. cbn.
  destruct (decide (id = AttemptID a)) as [->|Hne].
  - rewrite lookup_insert_eq. right. f_equal. by apply Heq.
  - rewrite lookup_insert_ne by done. by apply Hat.
Qed.

Lemma renew_loop now all c0 l db gs db' :
  sound c0 -> sound (core db) -> (forall a, a ∈ l -> a ∈ all) -> extended now c0 (core db) ->
  renew_members None (lockLeaseBatch all c0) now l db = (Ok gs, db') ->
  lsteps now now (core db) (core db').
Proof.
  intros Hs0. revert db gs. induction l as [|a l IH]; intros db gs Hs Hl Hext Hr.
  { injection Hr as _ <-. by constructor. }
  cbn [renew_members] in Hr. apply st_bind_Ok in Hr as (u1 & db1 & H1 & Hr).
  apply st_bind_Ok in Hr as (gs1 & db2 & H2 & Hr). injection Hr as _ <-.
  assert (forall b, b ∈ l -> b ∈ all) as Hl' by (intros; apply Hl; by right).
  assert (a ∈ all) as Hin by (apply Hl; left).
  rewrite bool_decide_true in H1 by done. cbn [fmap option_fmap option_map member_grant] in H1.
  destruct (decide (leaseDecision a ((lockLeaseBatch all c0).1 (JobID a)) ((lockLeaseBatch all c0).2 (AttemptID a)) now
    = Decision_.Accepted)) as [Hd|Hd].
  - rewrite (bool_decide_true (leaseDecision _ _ _ _ = _)) in H1 by done. cbn -[lockLeaseBatch] in H1.
    destruct (accepted_renewable all c0 now a Hs0 Hin Hd) as (r & Hren & _).
    destruct (extended_renewable _ _ _ _ _ Hren Hext) as (r' & Hren' & Heq). pose proof Hren as [Hr0 _].
    pose proof (proj1 Hren') as Hr'. unfold update_attempt in H1. injection H1 as _ <-.
    assert (core (on_core (set_attempts (alter (set_lease (now + InitialLease)) (AttemptID a))) db)
      = set_attempts <[AttemptID a := set_lease (now + InitialLease) r']> (core db)) as Ec.
    { cbn. unfold set_attempts. by rewrite (alter_insert_row _ _ r'). }
    pose proof (extend_step _ _ _ _ Hs Hren') as Hstep. eapply ls_cons; [reflexivity|exact Hstep|].
    rewrite <- Ec. eapply IH; [|exact Hl'| |exact H2]; rewrite Ec.
    + by eapply sound_step.
    + apply extended_step; [done..|]. intros r0 Hr1. rewrite Hr0 in Hr1. by injection Hr1 as <-.
  - rewrite (bool_decide_false (leaseDecision _ _ _ _ = _)) in H1 by done. cbn -[lockLeaseBatch] in H1.
    rewrite bool_decide_false in H1 by done. injection H1 as _ <-. by eapply IH.
Qed.

(** A replayed request changes no lease. *)
Lemma replay_loop saved batch now l db gs db' :
  renew_members (Some saved) batch now l db = (Ok gs, db') -> db' = db.
Proof.
  revert gs. induction l as [|a l IH]; intros gs Hr; cbn [renew_members] in Hr; [by injection Hr|].
  rewrite (bool_decide_false (Some saved = None)) in Hr by done. cbn [andb] in Hr. rewrite bind_ret in Hr.
  apply st_bind_Ok in Hr as (gs1 & db2 & H2 & Hr).
  injection Hr as _ <-. by eapply IH.
Qed.

Lemma renew_steps id r hash now db gs db' :
  sound (core db) -> RenewLeases_body id r hash now db = (Ok (Commit gs), db') -> lsteps now now (core db) (core db').
Proof.
  intros Hs. unfold RenewLeases_body. intros Hr. apply authorize_bind in Hr.
  apply require_session_bind in Hr as [_ Hr]. rewrite bind_gets in Hr.
  destruct (lease_requests (replay db) !! _) as [q|]; run Hr; apply require_session_bind in Hr as [_ Hr];
    apply st_bind_Ok in Hr as (gs1 & db1 & H1 & Hr).
  - apply replay_loop in H1 as ->. injection Hr as _ <-. by constructor.
  - apply renew_loop in H1; [|done|done|done|].
    + run Hr. by injection Hr as _ <-.
    + split; [done|]. split; [done|]. auto.
Qed.

(** * Phases *)

Lemma next_phase_active r attempt container exit job now d :
  nextPhaseDeadline r attempt container exit job now = Ok d -> la_state attempt <> Phase r -> active (Phase r) = true.
Proof.
  unfold nextPhaseDeadline. destruct (match container with Some _ => _ | None => _ end); [done|].
  intros Hd Hne. rewrite bool_decide_false in Hd by done. by destruct (la_state attempt), (Phase r).
Qed.

Lemma phase_steps id r hash now db x db' :
  sound (core db) -> ReportPhase_body id r hash now db = (Ok (Commit x), db') -> lsteps now now (core db) (core db').
Proof.
  intros Hs. unfold ReportPhase_body. intros Hr. apply authorize_bind in Hr.
  apply require_session_bind in Hr as [_ Hr]. rewrite bind_gets in Hr.
  apply require_session_bind in Hr as [_ Hr]. set (a := phase_Authority r) in *.
  destruct (negb _); [done|]. run Hr.
  set (d := leaseDecision a _ _ now) in *.
  destruct (phase_reports (replay db) !! _) as [old|]; run Hr; destruct (decide (d = Decision_.Accepted)) as [Hd|Hd];
    [rewrite bool_decide_true in Hr by done|by rewrite bool_decide_false in Hr
    |rewrite bool_decide_true in Hr by done|by rewrite bool_decide_false in Hr]; cbn [negb] in Hr.
  { injection Hr as _ <-. by constructor. }
  run Hr. apply st_bind_Ok in Hr as (u1 & db1 & H1 & Hr). injection Hr as _ <-.
  destruct (accepted_renewable [a] (core db) now a Hs) as (row & Hren & Erow); [left|done|].
  rewrite Erow in *. cbn [la_state] in *.
  destruct (decide (at_state row = Phase r)) as [E|E]; [rewrite bool_decide_true in H1 by done|rewrite bool_decide_false in H1 by done].
  { injection H1 as _ <-. by constructor. }
  pose proof (next_phase_active _ _ _ _ _ _ _ G2 E) as Hact.
  destruct Hren as (Hrow & Har & j & Hj & Hlive & Hcan & Hph). rewrite G in Hrow. injection Hrow as <-.
  rewrite (update_attempt_bind _ _ x0) in H1 by done. unfold appendPhaseEvent in H1.
  apply update_job_event_Ok in H1 as (j1 & Hj1 & Hc1 & _). rewrite Hc1. cbn in Hj1 |- *. fold a in Hj1 |- *.
  assert (JobID a = at_job x0) as Ej by (by rewrite Har). rewrite Ej in Hj1 |- *. rewrite Hj in Hj1. injection Hj1 as <-.
  destruct (s_attempts _ Hs _ _ G) as (_ & (rv & Hrv & _) & _).
  apply (lsteps_one now now now); [lia|]. unfold set_jobs, set_attempts. cbn.
  rewrite <- (insert_id (reservations (core db)) (AttemptID a) rv) at 1 by done.
  apply (l_attempt now now (core db) now (AttemptID a) j x0 rv _ _ _ None); [lia|done..|]. by constructor.
Qed.

(** * Completions *)

Lemma completionDecision_Accepted r job attempt now :
  completionDecision r job attempt now = Decision_.Accepted ->
  cr_Authority r = la_authority attempt /\ active (la_state attempt) = true
  /\ lj_current job = Some (AttemptID (cr_Authority r)) /\ now < la_expires attempt /\ now < la_phase attempt
  /\ (lj_cancelled job = true -> Reason r = "USER_CANCELLED"%string).
Proof.
  unfold completionDecision. destruct (_ && _) eqn:E.
  - intros _. bools. destruct E as [[[[[Hd Hcan] Hre] Hst] Hl] Hp]. unfold leaseDecision in Hd.
    destruct (decide (cr_Authority r = la_authority attempt)) as [Ha|Ha];
      [rewrite (bool_decide_true (cr_Authority r = _)) in Hd by done|by rewrite (bool_decide_false (cr_Authority r = _)) in Hd].
    cbn [negb] in Hd. destruct (active (la_state attempt)); [cbn [negb] in Hd|done].
    destruct (decide (lj_current job = Some (AttemptID (cr_Authority r)))) as [Hc|Hc];
      [|by rewrite (bool_decide_false (lj_current _ = _)) in Hd]. done.
  - intros (Ha & Hact & Hcur & Hl & Hcan & Hp)%leaseDecision_Accepted. split_and!; try done. by rewrite Hcan.
Qed.

Lemma phase_cancelled r state exit cancelled :
  validateCompletionPhase r state exit cancelled = Ok tt -> Reason r = "USER_CANCELLED"%string -> cancelled = true.
Proof.
  unfold validateCompletionPhase. destruct (negb _); [done|]. intros Hv Hr. rewrite Hr in Hv.
  destruct cancelled; [done|]. by vm_compute in Hv.
Qed.

Lemma normalized_success_stopped r p : normalizeCompletion r = Ok p -> Reason r = EmptyString -> Stopped r = true.
Proof.
  unfold normalizeCompletion. intros Hn Hr. rewrite Hr in Hn. destruct (_ || _); [done|].
  destruct (negb _); [done|]. destruct (Stopped r); [done|]. by rewrite orb_true_r in Hn.
Qed.

Lemma artifacts_loop {A} (f : A -> Db -> Db) (l : list A) db u db' :
  (forall x d, core (f x d) = core d) ->
  for_each (fun x => exec (f x)) l db = (Ok u, db') -> core db' = core db.
Proof.
  intros Hf. revert db. induction l as [|x l IH]; intros db Hr; [by injection Hr as _ <-|].
  cbn [for_each] in Hr. rewrite bind_exec in Hr. apply IH in Hr. by rewrite Hr, Hf.
Qed.

Lemma accepted_completion c r row j now :
  sound c -> let a := cr_Authority r in
  attempts c !! AttemptID a = Some row -> jobs c !! JobID a = Some j ->
  completionDecision r ((lockLeaseBatch [a] c).1 (JobID a)) ((lockLeaseBatch [a] c).2 (AttemptID a)) now
    = Decision_.Accepted ->
  a = row_authority (AttemptID a) row /\ live c now (AttemptID a) j row /\ now < at_phase row
  /\ lj_cancelled ((lockLeaseBatch [a] c).1 (JobID a)) = jb_cancel j
  /\ (jb_cancel j = true -> Reason r = "USER_CANCELLED"%string).
Proof.
  intros Hs a Hrow Hj (Ha & Hact & Hcur & Hl & Hp & Hcan)%completionDecision_Accepted. fold a in Ha, Hact, Hcur, Hl, Hp.
  assert (a ∈ [a]) as Hin by left. rewrite (locked_job [a] c a j Hin Hj) in *. cbn [lj_current lj_cancelled] in *.
  destruct (locked_rows [a] c a Hin Ha Hact) as (row' & Hrow' & Har & Erow). rewrite Hrow in Hrow'. injection Hrow' as <-.
  rewrite Erow in *. cbn [la_state la_expires la_phase] in *. split_and!; try done.
  split_and!; try done. by eapply active_is_current.
Qed.

Lemma conclude_steps r digest state jobState manifest now published eligible j row c db u db' :
  let a := cr_Authority r in
  sound c -> attempts c !! AttemptID a = Some row -> jobs c !! at_job row = Some j -> completions c !! AttemptID a = None ->
  a = row_authority (AttemptID a) row -> live c published (AttemptID a) j row -> published < at_phase row -> now <= published ->
  (jb_cancel j = true <-> Reason r = "USER_CANCELLED"%string) -> (Reason r = EmptyString -> Stopped r = true) ->
  completed_outcome r (jb_spec j) = (state, jobState) ->
  core db = set_completions <[AttemptID a :=
      {| co_job := JobID a; co_worker := WorkerID a; co_session := SessionID a; co_generation := Generation a;
         co_id := CompletionID r; co_digest := digest; co_state := state; co_manifest := manifest |}]> c ->
  conclude r digest state jobState manifest now eligible db = (Ok u, db') ->
  lsteps published published c (core db').
Proof.
  intros a Hs Hrow Hj Hco Har Hlive Hph Hle Hcan Hst Hout Hdb. unfold conclude. fold a. intros Hr.
  rewrite (update_attempt_bind _ _ row) in Hr by (by rewrite Hdb).
  apply end_reservation_bind in Hr as (rv & Hrv & Hr). cbn in Hrv. rewrite Hdb in Hrv. cbn in Hrv.
  apply st_bind_Ok in Hr as (u1 & db1 & H1 & Hr). apply update_job_event_Ok in H1 as (j1 & Hj1 & Hc1 & _).
  cbn in Hj1. rewrite Hdb in Hj1. cbn in Hj1. assert (JobID a = at_job row) as Ej by (by rewrite Har).
  rewrite Ej, Hj in Hj1. injection Hj1 as <-.
  assert (lsteps published published c (core db1)) as Hst1.
  { rewrite Hc1. cbn. rewrite Hdb. cbn. assert (WorkerID a = at_worker row) as -> by (by rewrite Har).
    assert (SessionID a = at_session row) as -> by (by rewrite Har).
    assert (Generation a = at_number row) as -> by (by rewrite Har). rewrite Ej.
    apply (lsteps_one published published published); [lia|].
    apply (l_attempt published published c published (AttemptID a) j row rv _ _ _ (Some _)); [lia|done..|].
    by apply ch_complete. }
  destruct (bool_decide (jobState = J_FAILED)).
  - apply (fail_fast_steps published) in Hr as (Hst2 & _). by eapply lsteps_app.
  - by injection Hr as _ <-.
Qed.

Lemma complete_steps id r digest p now published db x db' :
  sound (core db) -> now <= published -> identity_WorkerID id = WorkerID (cr_Authority r) ->
  normalizeCompletion r = Ok p ->
  CompleteAttempt_body id r digest p now published db = (Ok (Commit x), db') ->
  lsteps published published (core db) (core db').
Proof.
  intros Hs Hle Hid Hp. unfold CompleteAttempt_body. intros Hr. apply authorize_bind in Hr. rewrite bind_gets in Hr.
  set (a := cr_Authority r) in *. destruct (negb _); [done|].
  destruct (completions (core db) !! AttemptID a) as [saved|] eqn:Hco; [by destruct (_ || _)|].
  destruct (existsb _ _); [done|]. destruct (negb (active _)) eqn:Hact; [done|]. run Hr.
  apply require_session_bind in Hr as [_ Hr].
  destruct (negb (bool_decide (completionDecision _ _ _ now = _))); [done|]. run Hr.
  destruct (completed_outcome r (jb_spec x0)) as [state jobState] eqn:Hout. run Hr. destruct x3 as [manifest refs].
  run Hr. apply st_bind_Ok in Hr as (u1 & db1 & H1 & Hr). apply artifacts_loop in H1; [|done].
  destruct (decide (completionDecision r ((lockLeaseBatch [a] (core db)).1 (JobID a))
    ((lockLeaseBatch [a] (core db)).2 (AttemptID a)) published = Decision_.Accepted)) as [Hd|Hd];
    [rewrite bool_decide_true in Hr by done|by rewrite bool_decide_false in Hr].
  apply st_bind_Ok in Hr as (u2 & db2 & H2 & Hr). injection Hr as _ <-.
  destruct (accepted_completion _ _ _ _ _ Hs G1 G Hd) as (Har & Hlive & Hph & Elj & Hcan).
  destruct x2. fold a in Elj. rewrite Elj in G2. assert (JobID a = at_job x1) as Ej by (unfold a; by rewrite Har).
  eapply (conclude_steps r digest state jobState manifest now published); [done|exact G1|by rewrite <- Ej|done|done|done|done|done| | | | |].
  - split; [done|]. by eapply phase_cancelled.
  - by eapply normalized_success_stopped.
  - exact Hout.
  - rewrite H1. cbn. by rewrite Hid.
  - exact H2.
Qed.

(** * Assignment *)

Lemma keeps_blocker {X} (f : Db -> X) job worker session request reason t :
  (forall g db, f (on_blocker_sequence g db) = f db) -> (forall g db, f (on_blockers g db) = f db) ->
  keeps f (recordQueueBlocker job worker session request reason t).
Proof. intros H1 H2. unfold recordQueueBlocker. keep. Qed.

Lemma keeps_choose {X} (f : Db -> X) worker w session request soft t :
  (forall g db, f (on_blocker_sequence g db) = f db) -> (forall g db, f (on_blockers g db) = f db) ->
  keeps f (choose worker w session request soft t).
Proof. intros H1 H2. unfold choose. keep. by apply keeps_blocker. Qed.

Lemma keeps_inputs project job expected : reads (loadJobInputs project job expected).
Proof. unfold loadJobInputs, reads. keep. Qed.

Lemma keeps_canonical job hash : reads (canonical_spec job hash).
Proof. unfold canonical_spec, reads. keep. Qed.

Lemma keeps_worker worker session : reads (readAcquisitionWorker worker session).
Proof. unfold readAcquisitionWorker, reads. keep. Qed.

Lemma keeps_replay worker session attempt now : reads (replayAssignment worker session attempt now).
Proof. unfold replayAssignment, reads. keep; (apply keeps_worker || apply keeps_canonical || apply keeps_inputs). Qed.

Lemma worker_is_current worker session db w db' :
  readAcquisitionWorker worker session db = (Ok w, db') -> current_session (core db) worker session.
Proof.
  unfold readAcquisitionWorker. intros Hr. run Hr.
  destruct (sessions (core db) !! session) as [s|] eqn:Hs; [|done]. bools. destruct G0 as [[? ?] ?]. by exists x, s.
Qed.

(** [assign] leaves exactly these rows. *)
Lemma assign_rows worker session jobID j id now created db a db' :
  jobs (core db) !! jobID = Some j ->
  assign worker session jobID j id now created db = (Ok a, db') ->
  attempts (core db) !! id = None /\ reservations (core db) !! id = None
  /\ wa_Authority a = {| JobID := jobID; AttemptID := id; Generation := jb_counter j + 1; WorkerID := worker;
                          SessionID := session |}
  /\ wa_LeaseExpiresAt a = now + InitialLease /\ wa_ServerTime a = now
  /\ core db' = put jobID (set_assigned id (jb_counter j + 1) j) id
       (new_attempt jobID (jb_counter j + 1) worker session (now + InitialLease)
          (now + StartupSeconds (spec_Timeouts (Spec (jb_spec j))) * second) created)
       {| rv_worker := worker; rv_resources := spec_Resources (Spec (jb_spec j)); rv_state := R_active |} None (core db).
Proof.
  intros Hj. unfold assign. intros Hr. run Hr.
  apply st_bind_Ok in Hr as (canonical & db1 & H1 & Hr). apply keeps_canonical in H1. subst db1.
  apply st_bind_Ok in Hr as (inputs & db2 & H2 & Hr). apply keeps_inputs in H2. subst db2.
  run Hr. bools. destruct G0 as [Hna Hnr].
  apply st_bind_Ok in Hr as (u & db3 & H3 & Hr). apply update_job_event_Ok in H3 as (j' & Hj' & Hc3 & _).
  run Hr. injection Hr as <- <-. cbn in Hj' |- *. rewrite Hj in Hj'. injection Hj' as <-. rewrite Hc3.
  by split_and!.
Qed.
Lemma assign_steps worker session jobID j id now created db a db' :
  jobs (core db) !! jobID = Some j -> queued (jb_state j) = true -> jb_cancel j = false ->
  current_session (core db) worker session -> now <= created ->
  assign worker session jobID j id now created db = (Ok a, db') ->
  lsteps now created (core db) (core db').
Proof.
  intros Hj Hq Hc Hcur Hle (Hna & Hnr & _ & _ & _ & ->)%assign_rows; [|done].
  apply (lsteps_one now created created); [lia|].
  apply (l_assign now created (core db) jobID j id worker session now created); (done || lia).
Qed.

(** The clock does not run backwards within a transaction. *)
Definition monotone (t : Clocks) : Prop := first_check t <= scan t <= final_check t /\ final_check t <= creation t.

(** What an assignment was checked against. *)
Record assignment_made (identity : WorkerIdentity) (session : string) (soft : bool) (t : Clocks) (id : string)
  (db db' : Db) (jobID : string) (j : JobRow) (a : WorkAssignment) : Prop := {
  am_job : jobs (core db) !! jobID = Some j;
  am_valid : is_ok (Validate (jb_spec j)) = true;
  am_queued : queued (jb_state j) = true /\ jb_cancel j = false /\ jb_eligible j <= final_check t;
  am_worker : exists w p, readAcquisitionWorker (identity_WorkerID identity) session db = (Ok w, db)
    /\ readiness w (final_check t) soft = EmptyString
    /\ projects (catalog db) !! jb_project j = Some p
    /\ exists sweep reason, final_reason db w j p sweep reason = EmptyString
       /\ match jb_sweep j with
          | Some s => exists r, sweeps (catalog db) !! s = Some r /\ sweep = Some (s, r)
          | None => sweep = None
          end;
  am_assign : assign (identity_WorkerID identity) session jobID j id (final_check t) (creation t) db = (Ok a, db');
}.

Lemma is_empty_str_true s : is_empty_str s = true <-> s = EmptyString.
Proof. by destruct s. Qed.

Lemma empty_reason j (now : Z) ready reason :
  is_empty_str (if negb (queued (jb_state j)) || jb_cancel j || (now <? jb_eligible j) then "QUEUE_EMPTY"
                else if is_empty_str ready then reason else ready) = true ->
  (queued (jb_state j) = true /\ jb_cancel j = false /\ jb_eligible j <= now) /\ ready = EmptyString /\ reason = EmptyString.
Proof.
  destruct (_ || _) eqn:E; [done|]. bools. destruct E as [[? ?] ?].
  destruct (is_empty_str ready) eqn:Er; rewrite is_empty_str_true.
  - intros ->. apply is_empty_str_true in Er. auto.
  - intros ->. done.
Qed.

(** An acquisition that commits changes no row of the core, and what it returns is
    the replay of an earlier one, or assigns one job. *)
Lemma acquire_inv identity session request soft t id db r db' :
  AcquireWork_body identity session request soft t id db = (Ok (Commit r), db') ->
  (core db' = core db
   /\ forall w, ac_Assignment r = Some w ->
        exists attempt, replayAssignment (identity_WorkerID identity) session attempt (final_check t) db = (Ok r, db'))
  \/ exists db1 db2 jobID j a, core db1 = core db /\ catalog db1 = catalog db
       /\ assignment_made identity session soft t id db1 db2 jobID j a
       /\ core db' = core db2 /\ r = assigned a
       /\ exists q, worker_requests (replay db') !! (identity_WorkerID identity, session, request) = Some q
          /\ rq_attempt q = Some (AttemptID (wa_Authority a)).
Proof.
  unfold AcquireWork_body. intros Hr. apply authorize_bind in Hr. run Hr.
  set (worker := identity_WorkerID identity) in *.
  destruct (worker_requests (replay db) !! _) as [q|] eqn:Hsaved; cbn [mbind option_bind] in Hr.
  { left. destruct (rq_attempt q) as [attempt|]; apply st_bind_Ok in Hr as (r1 & db1 & H1 & Hr); [|done].
    apply ret_Ok in Hr as [[= ->] ->]. split; [|by exists attempt]. by rewrite (keeps_replay _ _ _ _ _ _ _ H1). }
  apply st_bind_Ok in Hr as (w0 & db0 & H0 & Hr). apply keeps_worker in H0. subst db0.
  apply st_bind_Ok in Hr as ([jobID why] & db1 & H1 & Hr).
  pose proof (keeps_choose core _ _ _ _ _ _ ltac:(done) ltac:(done) _ _ _ H1) as Ecore.
  pose proof (keeps_choose catalog _ _ _ _ _ _ ltac:(done) ltac:(done) _ _ _ H1) as Ecat.
  destruct (is_empty_str jobID).
  { left. run Hr. apply st_bind_Ok in Hr as (w1 & db2 & H2 & Hr). apply keeps_worker in H2. subst db2.
    run Hr. by injection Hr as <- <-. }
  run Hr. apply st_bind_Ok in Hr as (w1 & db2 & H2 & Hr). assert (db2 = db1) as -> by (by apply keeps_worker in H2).
  run Hr. apply st_bind_Ok in Hr as (sweep & db2 & H3 & Hr).
  assert (db2 = db1 /\ match jb_sweep x with
    | Some s => exists r, sweeps (catalog db1) !! s = Some r /\ sweep = Some (s, r)
    | None => sweep = None end) as [-> Hsweep].
  { destruct (jb_sweep x) as [s|]; run H3; injection H3 as <- <-; eauto. }
  run Hr. destruct (is_empty_str _) eqn:Hempty.
  - right. run Hr. apply st_bind_Ok in Hr as (a & db2 & H4 & Hr). run Hr. injection Hr as <- <-.
    exists db1, db2, jobID, x, a. split_and!; try done; [|eexists; cbn; by rewrite lookup_insert_eq].
    apply empty_reason in Hempty as (Hq & Hready & Hfinal).
    split; try done. exists w1, x0. split_and!; try done. by exists sweep, why.
  - left. run Hr. by injection Hr as <- <-.
Qed.

Lemma acquire_steps identity session request soft t id db a db' :
  monotone t ->
  AcquireWork_body identity session request soft t id db = (Ok (Commit a), db') ->
  lsteps (final_check t) (creation t) (core db) (core db').
Proof.
  intros Ht [[-> _]|(db1 & db2 & jobID & j & x & Ec & _ & Hm & -> & _)]%acquire_inv; [constructor; apply Ht|].
  rewrite <- Ec. destruct Hm as [Hj _ (Hq & Hcan & _) (w & p & Hw & _) Has].
  eapply assign_steps; [done..| |apply Ht|done]. by eapply worker_is_current.
Qed.

(** * Admission, cancellation, drain and listing *)

Lemma submit_steps t answer key requestHash job bindings jobID now db x db' :
  SubmitJobResolved answer key requestHash job bindings jobID now db = (x, db') -> lsteps t t (core db) (core db').
Proof.
  assert (lsteps t t (core db) (core db)) as Hnil by (by constructor).
  unfold SubmitJobResolved. destruct (_ || _); [by intros [= _ <-]|].
  destruct (Canonical _ _ job) as [[body hash]|]; [|by intros [= _ <-]]. destruct (_ || _); [by intros [= _ <-]|].
  destruct (existsb _ _); [by intros [= _ <-]|]. intros [->|(a & Hr)]%transact_inv; [done|].
  run Hr. destruct x0 as [project p]. run Hr. destruct (idempotency_keys _ !! _).
  { apply st_bind_Ok in Hr as (? & ? & _ & Hr). done. }
  run Hr. apply bool_decide_eq_true in G2. apply st_bind_Ok in Hr as (u & db1 & H1 & Hr).
  assert (keeps core (for_each (fun '(position, ((bound, name), i)) =>
    let! db := st_gets Datatypes.id in
    let! _ := guard (match datasets (catalog db) !! bound with
                     | Some d => bool_decide (ds_project d = project) && bool_decide (ds_name d = name)
                     | None => false end) ErrNotFound in
    exec (on_job_inputs <[(jobID, Z.of_nat position) :=
      {| ji_project := project; ji_dataset := bound; ji_mount := MountPath i |}]>))
    (imap pair (zip bindings (Inputs (Spec job)))))) as Hkeep by keep.
  apply Hkeep in H1. unfold insert_event in Hr. run Hr. injection Hr as _ <-. cbn. rewrite H1. cbn in G2 |- *.
  apply (lsteps_one t t t); [lia|]. apply l_job. rewrite G2. by constructor.
Qed.

Lemma cancellation_steps t answer project job db x db' :
  RequestCancellation answer project job db = (x, db') -> lsteps t t (core db) (core db').
Proof.
  unfold RequestCancellation. destruct (_ || _); [intros [= _ <-]; by constructor|].
  unfold st_bind at 1. destruct (transact _ _ db) as [r db1] eqn:E.
  assert (lsteps t t (core db) (core db1)) as Hst.
  { apply transact_inv in E as [->|(a & Hr)]; [by constructor|]. run Hr.
    destruct (jobs (core db) !! job) as [j|] eqn:Hj; [|done]. destruct (bool_decide _); [injection G as <-|done].
    apply st_bind_Ok in Hr as (u & db2 & H2 & Hr). injection Hr as _ <-.
    destruct (_ || _) eqn:Hst; [|injection H2 as _ <-; by constructor]. bools.
    apply st_bind_Ok in H2 as (u2 & db3 & H3 & H2). injection H2 as _ <-.
    apply update_job_event_Ok in H3 as (j' & Hj' & Hc3 & _). rewrite Hj in Hj'. injection Hj' as <-.
    cbn. rewrite Hc3. by apply cancel_step. }
  destruct r; [|by intros [= _ <-]]. unfold GetJob, query. destruct (jobs _ !! job) as [j|]; [|by intros [= _ <-]].
  destruct (bool_decide _); by intros [= _ <-].
Qed.

Lemma drain_steps t answer p worker db x db' :
  RequestWorkerDrain answer p worker db = (x, db') -> lsteps t t (core db) (core db').
Proof.
  unfold RequestWorkerDrain. destruct (_ || _); [intros [= _ <-]; by constructor|].
  destruct (negb _); [intros [= _ <-]; by constructor|]. intros [->|(a & Hr)]%transact_inv; [by constructor|].
  run Hr. apply st_bind_Ok in Hr as (u & db1 & H1 & Hr). injection Hr as _ <-.
  destruct (wk_drain x0); [injection H1 as _ <-; by constructor|].
  unfold worker_event in H1. run H1. injection H1 as _ <-. by apply worker_step.
Qed.

Lemma keeps_page worker session clock n refs page bytes last :
  reads (fill_page worker session clock n refs page bytes last).
Proof.
  revert n page bytes last. induction refs as [|[job attempt] refs IH]; intros; [apply tx_keeps_ret|].
  cbn [fill_page]. unfold reads. keep; [apply keeps_replay|apply IH|apply IH].
Qed.

Lemma list_keeps answer identity session after size clock db x db' :
  ListAssignments answer identity session after size clock db = (x, db') -> db' = db.
Proof.
  unfold ListAssignments. destruct (_ || _); [by intros [= _ <-]|]. destruct (_ || _); [by intros [= _ <-]|].
  intros [->|(a & Hr)]%transact_inv; [done|]. apply authorize_bind in Hr. run Hr.
  apply st_bind_Ok in Hr as (w & db1 & H1 & Hr). apply keeps_worker in H1. subst db1.
  apply st_bind_Ok in Hr as ([[page last] stopped] & db1 & H1 & Hr). apply keeps_page in H1. subst db1.
  by injection Hr as _ <-.
Qed.
End Work.
