(* ===== verification/StoreFacts.v ===== *)
(** The transactions of the store, run one after the other, implement the ledger:
    every call is a sequence of its changes, so the checks of the schema never
    fail and its history is never rewritten. *)

From S2P Require Import Prelude Strings Protocol SpecJob Store StoreLeases StoreRecovery.
From S2P Require Import StoreSessions StoreAcquire StoreComplete Ledger LedgerFacts StoreRun.
From S2P Require Import StoreSessionRun StoreWorkRun.
Open Scope Z_scope.

Section Transactions.
Context `{GoLib}.

(** One call, with whatever the connection answers; its clock readings are
    between [lo] and [hi].  The last four constructors stand for the
    transactions that are not modelled.  A sweep admits its jobs ([sweeps.go],
    [sweep_retry.go]).  A worker is provisioned ([workers.go]).  An upload or an
    artifact is recorded, which takes the next event number of its job
    ([uploads.go], [artifacts.go], [multipart_completion.go]; here of any job, at
    any time).  The others leave jobs, attempts, reservations, completions,
    sessions, workers and take-overs alone. *)
Inductive transaction (lo hi : Z) (db : Db) : Db -> Prop :=
| t_renew answer id r now x db' :
    lo <= now <= hi -> RenewLeases answer id r now db = (x, db') -> transaction lo hi db db'
| t_phase answer id r now x db' :
    lo <= now <= hi -> ReportPhase answer id r now db = (x, db') -> transaction lo hi db db'
| t_complete answer id r now published x db' :
    lo <= now <= published -> published <= hi ->
    CompleteAttempt answer id r now published db = (x, db') -> transaction lo hi db db'
| t_acquire answer id session request soft t attempt x db' :
    lo <= first_check t -> monotone t -> creation t <= hi ->
    AcquireWork answer id session request soft t attempt db = (x, db') -> transaction lo hi db db'
| t_list answer id session after size clock x db' :
    lo <= hi -> ListAssignments answer id session after size clock db = (x, db') -> transaction lo hi db db'
| t_register answer id r now created seen x db' :
    lo <= now <= hi -> RegisterSession answer id r now created seen db = (x, db') -> transaction lo hi db db'
| t_heartbeat answer id h now x db' :
    lo <= now <= hi -> RecordHeartbeat answer id h now db = (x, db') -> transaction lo hi db db'
| t_takeover answer worker from to x db' :
    lo <= hi -> ApproveSessionTakeover answer worker from to db = (x, db') -> transaction lo hi db db'
| t_reap answer scanned now x db' :
    lo <= scanned <= now -> now <= hi ->
    reapOneExpiredAttempt answer scanned now db = (x, db') -> transaction lo hi db db'
| t_submit answer key hash job bindings jobID now x db' :
    lo <= hi -> SubmitJobResolved answer key hash job bindings jobID now db = (x, db') -> transaction lo hi db db'
| t_cancel answer project job x db' :
    lo <= hi -> RequestCancellation answer project job db = (x, db') -> transaction lo hi db db'
| t_drain answer p worker x db' :
    lo <= hi -> RequestWorkerDrain answer p worker db = (x, db') -> transaction lo hi db db'
| t_sweep (l : list (string * JobRow)) db' :
    lo <= hi -> NoDup l.*1 -> (forall jid j, (jid, j) ∈ l -> jobs (core db) !! jid = None /\ job_change None j) ->
    core db' = foldr (fun '(jid, j) => set_jobs <[jid := j]>) (core db) l -> transaction lo hi db db'
| t_provision worker w db' :
    lo <= hi -> workers (core db) !! worker = None -> wk_current w = None ->
    core db' = set_workers <[worker := w]> (core db) -> transaction lo hi db db'
| t_event job j db' :
    lo <= hi -> jobs (core db) !! job = Some j ->
    core db' = set_jobs <[job := bump_events j]> (core db) -> transaction lo hi db db'
| t_other db' :
    lo <= hi -> core db' = core db -> transaction lo hi db db'.

Lemma lsteps_within lo lo' hi hi' c c' : lo' <= lo -> hi <= hi' -> lsteps lo hi c c' -> lsteps lo' hi' c c'.
Proof.
  intros Hlo Hhi Hst. apply (lsteps_earlier lo); [done|]. eapply lsteps_app; [exact Hst|]. by constructor.
Qed.

(** A transaction whose body is a run of the ledger is one, whatever happens to
    its commit. *)
Lemma transact_steps {A} lo hi answer (body : tx (Done A)) db x db' :
  lo <= hi -> (forall a, body db = (Ok (Commit a), db') -> lsteps lo hi (core db) (core db')) ->
  transact answer body db = (x, db') -> lsteps lo hi (core db) (core db').
Proof. intros Hle Hb [->|(a & Ha)]%transact_inv; [by constructor|by eapply Hb]. Qed.

Lemma renew_call lo hi answer id r now db x db' :
  sound (core db) -> lo <= now <= hi -> RenewLeases answer id r now db = (x, db') ->
  lsteps lo hi (core db) (core db').
Proof.
  intros Hs Ht. unfold RenewLeases. destruct (_ || _); [intros [= _ <-]; constructor; lia|].
  destruct (LeaseRenewal_hash _ _) as [hash|]; [|intros [= _ <-]; constructor; lia]. rewrite bind_lifted.
  apply transact_steps; [lia|]. intros a Ha. apply (lsteps_within now lo now hi); [lia..|]. by eapply renew_steps.
Qed.

Lemma phase_call lo hi answer id r now db x db' :
  sound (core db) -> lo <= now <= hi -> ReportPhase answer id r now db = (x, db') ->
  lsteps lo hi (core db) (core db').
Proof.
  intros Hs Ht. unfold ReportPhase. destruct (_ || _); [intros [= _ <-]; constructor; lia|].
  destruct (PhaseReport_hash _ _) as [hash|]; [|intros [= _ <-]; constructor; lia]. rewrite bind_lifted.
  apply transact_steps; [lia|]. intros a Ha. apply (lsteps_within now lo now hi); [lia..|]. by eapply phase_steps.
Qed.

Lemma complete_call lo hi answer id r now published db x db' :
  sound (core db) -> lo <= now <= published -> published <= hi ->
  CompleteAttempt answer id r now published db = (x, db') -> lsteps lo hi (core db) (core db').
Proof.
  intros Hs Ht Hp. unfold CompleteAttempt. destruct (_ || _) eqn:E; [intros [= _ <-]; constructor; lia|].
  bools. destruct E as [_ Hw]. destruct (CompletionDigest r) as [digest|]; [|intros [= _ <-]; constructor; lia].
  destruct (_ || _); [intros [= _ <-]; constructor; lia|].
  destruct (normalizeCompletion r) as [p|] eqn:Hn; [|intros [= _ <-]; constructor; lia]. rewrite bind_lifted.
  apply transact_steps; [lia|]. intros a Ha. apply (lsteps_within published lo published hi); [lia..|].
  eapply (complete_steps id r digest p now); [done|lia|by symmetry|exact Hn|exact Ha].
Qed.

Lemma acquire_call lo hi answer id session request soft t attempt db x db' :
  lo <= first_check t -> monotone t -> creation t <= hi ->
  AcquireWork answer id session request soft t attempt db = (x, db') -> lsteps lo hi (core db) (core db').
Proof.
  intros Hlo Ht Hhi. destruct Ht as [[? ?] ?] eqn:E. unfold AcquireWork.
  destruct (_ || _); [intros [= _ <-]; constructor; lia|]. destruct (_ || _); [intros [= _ <-]; constructor; lia|].
  apply transact_steps; [lia|]. intros a Ha. apply (lsteps_within (final_check t) lo (creation t) hi); [lia..|].
  by eapply acquire_steps.
Qed.

Lemma register_call lo hi answer id r now created seen db x db' :
  sound (core db) -> lo <= now <= hi -> RegisterSession answer id r now created seen db = (x, db') ->
  lsteps lo hi (core db) (core db').
Proof.
  intros Hs Ht. unfold RegisterSession. destruct (Registration_hash r) as [hash|]; [|intros [= _ <-]; constructor; lia].
  rewrite bind_lifted. destruct (_ || _); [intros [= _ <-]; constructor; lia|].
  destruct (transact _ _ db) as [y db1] eqn:E. intros Hx.
  assert (db' = db1) as -> by (destruct y as [|[]]; by injection Hx).
  revert E. apply transact_steps; [lia|]. intros a Ha. apply (lsteps_within now lo now hi); [lia..|].
  by eapply register_steps.
Qed.

Lemma heartbeat_call lo hi answer id h now db x db' :
  sound (core db) -> lo <= now <= hi -> RecordHeartbeat answer id h now db = (x, db') ->
  lsteps lo hi (core db) (core db').
Proof.
  intros Hs Ht. unfold RecordHeartbeat. destruct (_ || _); [intros [= _ <-]; constructor; lia|].
  destruct (HeartbeatReport_hash _ _) as [hash|]; [|intros [= _ <-]; constructor; lia]. rewrite bind_lifted.
  apply transact_steps; [lia|]. intros a Ha. apply (lsteps_within now lo now hi); [lia..|]. by eapply heartbeat_steps.
Qed.

Lemma sweep_steps lo hi l c :
  lo <= hi -> NoDup l.*1 -> (forall jid j, (jid, j) ∈ l -> jobs c !! jid = None /\ job_change None j) ->
  lsteps lo hi c (foldr (fun '(jid, j) => set_jobs <[jid := j]>) c l).
Proof.
  intros Hle. induction l as [|[jid j] l IH]; intros Hnd Hl; [by constructor|]. apply NoDup_cons in Hnd as [Hni Hnd].
  eapply (lsteps_app lo hi hi); [apply IH; [done|]; intros; apply Hl; by right|].
  apply (lsteps_one hi hi hi); [lia|]. cbn. destruct (Hl jid j) as [Hj Hc]; [left|].
  apply l_job. enough (jobs (foldr (fun '(jid, j) => set_jobs <[jid := j]>) c l) !! jid = None) as -> by done.
  clear -Hni Hj. induction l as [|[k x] l IH]; [done|]. cbn in Hni |- *. apply not_elem_of_cons in Hni as [? ?].
  rewrite lookup_insert_ne by done. by apply IH.
Qed.

Lemma transaction_steps lo hi db db' :
  sound (core db) -> transaction lo hi db db' -> lsteps lo hi (core db) (core db').
Proof.
  intros Hs Htx. destruct Htx.
  - by eapply renew_call.
  - by eapply phase_call.
  - by eapply complete_call.
  - by eapply acquire_call.
  - apply list_keeps in H1 as ->. by constructor.
  - by eapply register_call.
  - by eapply heartbeat_call.
  - apply (lsteps_within lo lo lo hi); [lia..|]. by eapply takeover_steps.
  - revert H2. apply transact_steps; [lia|]. intros a Ha. apply (lsteps_within now lo now hi); [lia..|]. by eapply reap_steps.
  - apply (lsteps_within lo lo lo hi); [lia..|]. by eapply submit_steps.
  - apply (lsteps_within lo lo lo hi); [lia..|]. by eapply cancellation_steps.
  - apply (lsteps_within lo lo lo hi); [lia..|]. by eapply drain_steps.
  - rewrite H3. by apply sweep_steps.
  - rewrite H3. apply (lsteps_one lo lo hi); [lia|]. by apply l_new_worker.
  - rewrite H2. apply (lsteps_one lo lo hi); [lia|]. apply l_job. rewrite H1. constructor.
  - rewrite H1. by constructor.
Qed.

(** * Histories *)

(** Transactions one after the other, on a clock that does not run backwards. *)
Inductive history : Z -> Db -> Z -> Db -> Prop :=
| h_now t db : history t db t db
| h_later lo mid hi db db1 db2 : transaction lo mid db db1 -> history mid db1 hi db2 -> history lo db hi db2.

Lemma history_app lo mid hi db1 db2 db3 :
  history lo db1 mid db2 -> history mid db2 hi db3 -> history lo db1 hi db3.
Proof. induction 1; [done|]. intros. eapply h_later; eauto. Qed.

(** A database after its migrations and the first provisioning: workers without
    a session, and no work. *)
Definition fresh (c : Core) : Prop :=
  jobs c = ∅ /\ attempts c = ∅ /\ reservations c = ∅ /\ completions c = ∅ /\ sessions c = ∅ /\ takeovers c = ∅
  /\ forall k w, workers c !! k = Some w -> wk_current w = None.

Lemma fresh_sound c : fresh c -> sound c.
Proof.
  intros (Ej & Ea & Er & Ec & Es & _ & Hw). split; rewrite ?Ej, ?Ea, ?Ec, ?Es; try (intros *; by rewrite lookup_empty).
  intros w r s Hk Hc. by rewrite (Hw _ _ Hk) in Hc.
Qed.

Lemma fresh_exclusive t c : fresh c -> exclusive t c.
Proof. intros (Ej & Ea & _). split; rewrite Ea; intros *; by rewrite lookup_empty. Qed.

Lemma history_steps lo hi db db' :
  sound (core db) -> history lo db hi db' -> lsteps lo hi (core db) (core db').
Proof.
  intros Hs Hh. induction Hh as [t db|lo mid hi db db1 db2 Htx _ IH]; [by constructor|].
  pose proof (transaction_steps _ _ _ _ Hs Htx) as Hst. eapply lsteps_app; [exact Hst|].
  apply IH. by eapply lsteps_sound.
Qed.

(** What holds of every database the store can reach, and of what follows. *)
Record reached (t : Z) (db : Db) : Prop := {
  rc_sound : sound (core db);
  rc_exclusive : exclusive t (core db);
}.

Lemma history_reached t0 db0 t db : fresh (core db0) -> history t0 db0 t db -> reached t db.
Proof.
  intros Hf Hh. pose proof (fresh_sound _ Hf) as Hs. pose proof (history_steps _ _ _ _ Hs Hh) as Hst.
  destruct (lsteps_keep _ _ _ _ Hst Hs (fresh_exclusive _ _ Hf)) as (? & ? & _). by split.
Qed.

Lemma history_evolves lo hi db db' :
  reached lo db -> history lo db hi db' -> reached hi db' /\ evolves (core db) (core db').
Proof.
  intros [Hs He] Hh. pose proof (history_steps _ _ _ _ Hs Hh) as Hst.
  destruct (lsteps_keep _ _ _ _ Hst Hs He) as (? & ? & ?). by split.
Qed.

(** C3: Whatever sequence of calls the store serves from a freshly provisioned
    database, with commits applied, lost or unanswered, its tables went through a
    run of the ledger's changes, and the row-protection triggers accept each
    change of the run: those of the calls served so far and those of any next call.
    At every commit the constraints and deferred triggers of the schema hold. *)
Theorem store_refines_the_ledger t0 db0 t db :
  fresh (core db0) -> history t0 db0 t db ->
  checked_run t0 t (core db0) (core db) /\ schema_holds (core db)
  /\ forall hi db', transaction t hi db db' ->
       checked_run t hi (core db) (core db') /\ schema_holds (core db') /\ evolves (core db) (core db').
Proof.
  intros Hf Hh. pose proof (history_reached _ _ _ _ Hf Hh) as Hr. split_and!.
  - apply lsteps_checked; [|by apply fresh_sound|by apply fresh_exclusive].
    by eapply history_steps; [apply fresh_sound|].
  - apply sound_schema, Hr.
  - intros hi db' Htx. destruct (history_evolves t hi db db' Hr) as [Hr' Hev];
      [eapply h_later; [exact Htx|constructor]|].
    split_and!; [|apply sound_schema, Hr'|done]. apply lsteps_checked; [|apply Hr..].
    by eapply transaction_steps; [apply Hr|].
Qed.

(** C9: A job that succeeded, failed or was cancelled keeps that outcome, its
    accepted attempt and its manifest through every later call; an attempt that
    ended keeps its state, exit code, reason and completion; a stored completion is
    never replaced. *)
Theorem outcomes_are_final t0 db0 t db t' db' :
  fresh (core db0) -> history t0 db0 t db -> history t db t' db' ->
  (forall id j, jobs (core db) !! id = Some j -> final (jb_state j) = true ->
     exists j', jobs (core db') !! id = Some j' /\ jb_state j' = jb_state j /\ jb_accepted j' = jb_accepted j
       /\ jb_manifest j' = jb_manifest j /\ jb_current j' = None)
  /\ (forall id a, attempts (core db) !! id = Some a -> terminal (at_state a) = true ->
     exists a', attempts (core db') !! id = Some a' /\ at_state a' = at_state a /\ at_exit a' = at_exit a
       /\ at_reason a' = at_reason a /\ at_completion a' = at_completion a)
  /\ (forall id co, completions (core db) !! id = Some co -> completions (core db') !! id = Some co).
Proof.
  intros Hf Hh Hh'. pose proof (history_reached _ _ _ _ Hf Hh) as Hr.
  destruct (history_evolves _ _ _ _ Hr Hh') as [[Hs' _] [Hj Ha Hco _ _]]. split_and!; [| |done].
  - intros id j Hid Hfin. destruct (Hj _ _ Hid) as (j' & Hj' & Hp & _). unfold protect_job_identity in Hp.
    rewrite Hfin in Hp. cbn [negb orb] in Hp. triggers. exists j'. split_and!; try done.
    destruct (s_jobs _ Hs' _ _ Hj') as (Hown & _). destruct (jb_current j'); [|done].
    rewrite bool_decide_true in Hown by eauto. destruct (jb_state j), (jb_state j'); done.
  - intros id a Hid Hfin. destruct (Ha _ _ Hid) as (a' & Ha' & Hp & _). unfold protect_attempt_identity in Hp.
    rewrite Hfin in Hp. cbn [negb orb] in Hp. triggers. by exists a'.
Qed.
End Transactions.
