(* ===== verification/StoreAssign.v ===== *)
(** What an assignment is checked against ([acquisition.go],
    [acquisition_selection.go]): the capacity of the worker, the quotas of the
    project, the concurrency of the sweep; and what a repeated request finds. *)

From S2P Require Import Prelude Strings Protocol SpecJob Store StoreLeases StoreRecovery.
From S2P Require Import StoreSessions StoreAcquire StoreComplete Ledger LedgerFacts StoreRun.
From S2P Require Import StoreWorkRun.
Open Scope Z_scope.

(** * Sums over rows *)

Lemma sum_rows_insert {A} (f : string -> A -> Z) k a m :
  m !! k = None -> sum_rows f (<[k := a]> m) = f k a + sum_rows f m.
Proof. intros Hk. unfold sum_rows. rewrite map_fold_insert_L; [done|intros; lia|done]. Qed.

Lemma sum_rows_ext {A} (f g : string -> A -> Z) m :
  (forall k a, m !! k = Some a -> f k a = g k a) -> sum_rows f m = sum_rows g m.
Proof.
  induction m as [|k a m Hk IH] using map_ind; [done|]. intros Hfg.
  rewrite !sum_rows_insert by done. f_equal; [apply Hfg, lookup_insert_eq|]. apply IH. intros k' a' Hk'.
  apply Hfg. rewrite lookup_insert_ne; [done|]. intros ->. congruence.
Qed.

Section Assign.
Context `{GoLib}.

(** * The rows of an assignment *)

Section Rows.
Context (c : Core) (jobID id worker session : string) (j : JobRow) (lease phase created : Z).
Hypothesis Hj : jobs c !! jobID = Some j.
Hypothesis Ha : attempts c !! id = None.
Hypothesis Hr : reservations c !! id = None.
Let need := spec_Resources (Spec (jb_spec j)).
Let number := jb_counter j + 1.
Let r : ReservationRow := {| rv_worker := worker; rv_resources := need; rv_state := R_active |}.
Let c' := put jobID (set_assigned id number j) id (new_attempt jobID number worker session lease phase created) r None c.

Lemma held_assigned f : held f c' worker = f r + held f c worker.
Proof. unfold held, c'. cbn. rewrite sum_rows_insert by done. cbn. by rewrite bool_decide_true. Qed.

(** The jobs of older attempts keep their project and their sweep. *)
Lemma assigned_job k : (jb_project <$> jobs c' !! k) = (jb_project <$> jobs c !! k)
  /\ (jb_sweep <$> jobs c' !! k) = (jb_sweep <$> jobs c !! k).
Proof.
  unfold c'. cbn. destruct (decide (k = jobID)) as [->|Hne]; [by rewrite lookup_insert_eq, Hj|].
  by rewrite lookup_insert_ne.
Qed.

Lemma project_usage_assigned f : project_usage f c' (jb_project j) = f r + project_usage f c (jb_project j).
Proof.
  unfold project_usage. unfold c' at 3. cbn [attempts put]. rewrite sum_rows_insert by done. f_equal.
  - unfold c'. cbn. rewrite !lookup_insert_eq. cbn. by rewrite bool_decide_true.
  - apply sum_rows_ext. intros k a Hk. destruct (active (at_state a)); [|done].
    assert (k <> id) as Hne by (intros ->; congruence). destruct (assigned_job (at_job a)) as [Ep _].
    unfold c' at 2. cbn [reservations put]. rewrite lookup_insert_ne by done.
    destruct (jobs c' !! at_job a), (jobs c !! at_job a); try done. injection Ep as Ep. by rewrite Ep.
Qed.

Lemma sweep_usage_assigned sweep : jb_sweep j = Some sweep -> sweep_usage c' sweep = 1 + sweep_usage c sweep.
Proof.
  intros Hsw. unfold sweep_usage, count_rows. unfold c' at 2. cbn [attempts put]. rewrite sum_rows_insert by done. f_equal.
  - unfold c'. cbn. rewrite lookup_insert_eq. cbn. by rewrite Hsw, bool_decide_true.
  - apply sum_rows_ext. intros k a Hk. destruct (active (at_state a)); [cbn [andb]|done].
    destruct (assigned_job (at_job a)) as [_ Es].
    destruct (jobs c' !! at_job a), (jobs c !! at_job a); try done. injection Es as Es. by rewrite Es.
Qed.
End Rows.


(** * What was checked *)

(** Every check of [final_reason] passed. *)
Lemma final_reason_empty db w j p sweep reason :
  final_reason db w j p sweep reason = EmptyString ->
  let c := core db in let need := spec_Resources (Spec (jb_spec j)) in
  (CPUMillis need <= CPUMillis (aw_free w) /\ MemoryMiB need <= MemoryMiB (aw_free w)
   /\ ScratchMiB need <= ScratchMiB (aw_free w) /\ 1 <= aw_slots w)
  /\ labels_match (aw_labels w) (PlacementLabels (Spec (jb_spec j))) = true
  /\ (pj_enabled p = true
      /\ CPUMillis need + project_usage (fun r => CPUMillis (rv_resources r)) c (jb_project j) <= pj_cpu_quota p
      /\ MemoryMiB need + project_usage (fun r => MemoryMiB (rv_resources r)) c (jb_project j) <= pj_memory_quota p
      /\ project_usage (fun _ => 1) c (jb_project j) < pj_concurrency_quota p)
  /\ match sweep with Some (id, s) => sweep_usage c id < sw_max_concurrent s | None => True end.
Proof.
  unfold final_reason. intros Hf. destruct (labels_match _ _); [|done].
  destruct (_ || (aw_slots w <? 1)) eqn:Efit; [done|].
  match type of Hf with context [if ?b then "PROJECT_QUOTA"%string else reason] => destruct b eqn:Equota end.
  { destruct sweep as [[id s]|]; [|done]. by destruct (sw_max_concurrent s <=? _). }
  assert (match sweep with Some (id, s) => sweep_usage (core db) id < sw_max_concurrent s | None => True end) as Hsw.
  { destruct sweep as [[id s]|]; [|done]. by destruct (Z.leb_spec (sw_max_concurrent s) (sweep_usage (core db) id)). }
  bools. split_and!; try done; destruct_and?; try lia; done.
Qed.

Lemma readiness_empty w now soft :
  readiness w now soft = EmptyString ->
  aw_state w = W_READY /\ aw_healthy w = true /\ aw_reconciled w = true /\ aw_pressure w = false /\ aw_drain w = false
  /\ exists t, aw_heartbeat w = Some t /\ now - t < WorkerSuspectAfter.
Proof.
  unfold readiness. destruct (_ || match aw_heartbeat w with _ => _ end) eqn:E; [done|]. intros _. bools.
  destruct E as [[[[[? ?] ?] ?] ?] Ht]. destruct (aw_heartbeat w) as [t|]; [|done]. split_and!; try done.
  exists t. split; [done|]. by apply Z.leb_gt in Ht.
Qed.

Lemma read_worker worker session db w db' :
  readAcquisitionWorker worker session db = (Ok w, db') ->
  exists row, workers (core db) !! worker = Some row
    /\ w = {| aw_heartbeat := wk_heartbeat row; aw_state := wk_state row; aw_healthy := wk_healthy row;
              aw_reconciled := wk_reconciled row; aw_pressure := wk_pressure row; aw_drain := wk_drain row;
              aw_free := free_resources (core db) worker row; aw_slots := wk_slots row - held (fun _ => 1) (core db) worker;
              aw_labels := wk_labels row; aw_capabilities := wk_capabilities row |}.
Proof. unfold readAcquisitionWorker. intros Hr. run Hr. injection Hr as <- _. eauto. Qed.

Lemma acquire_call_inv answer identity session request soft t id db x db' :
  AcquireWork answer identity session request soft t id db = (x, db') ->
  db' = db \/ exists r, AcquireWork_body identity session request soft t id db = (Ok (Commit r), db').
Proof.
  unfold AcquireWork. destruct (_ || _); [intros [= _ <-]; by left|]. destruct (_ || _); [intros [= _ <-]; by left|].
  apply transact_inv.
Qed.

(** C8: An acquisition leaves the tables as they were, or it makes exactly one
    assignment: to a worker that is ready, not draining, has reported recently and
    carries the job's labels; and with the new reservation counted, what its worker
    holds fits its registered CPU, memory, scratch and slots, what its enabled
    project uses fits the project's quotas, and its sweep stays within its
    concurrency. *)
Theorem assignment_fits answer identity session request soft t id db x db' :
  AcquireWork answer identity session request soft t id db = (x, db') ->
  let worker := identity_WorkerID identity in let c := core db' in
  c = core db \/
  exists a j w p, attempts (core db) !! id = None /\ attempts c !! id = Some a
    /\ at_worker a = worker /\ at_session a = session /\ jobs (core db) !! at_job a = Some j
    /\ workers c !! worker = Some w /\ projects (catalog db) !! jb_project j = Some p
    /\ (wk_state w = W_READY /\ wk_drain w = false
        /\ labels_match (wk_labels w) (PlacementLabels (Spec (jb_spec j))) = true
        /\ exists h, wk_heartbeat w = Some h /\ final_check t - h < WorkerSuspectAfter)
    /\ (held (fun r => CPUMillis (rv_resources r)) c worker <= CPUMillis (wk_resources w)
        /\ held (fun r => MemoryMiB (rv_resources r)) c worker <= MemoryMiB (wk_resources w)
        /\ held (fun r => ScratchMiB (rv_resources r)) c worker <= ScratchMiB (wk_resources w)
        /\ held (fun _ => 1) c worker <= wk_slots w)
    /\ (pj_enabled p = true
        /\ project_usage (fun r => CPUMillis (rv_resources r)) c (jb_project j) <= pj_cpu_quota p
        /\ project_usage (fun r => MemoryMiB (rv_resources r)) c (jb_project j) <= pj_memory_quota p
        /\ project_usage (fun _ => 1) c (jb_project j) <= pj_concurrency_quota p)
    /\ (forall sweep s, jb_sweep j = Some sweep -> sweeps (catalog db) !! sweep = Some s ->
          sweep_usage c sweep <= sw_max_concurrent s).
Proof.
  intros Hcall worker c. apply acquire_call_inv in Hcall as [->|(r & Hr)]; [by left|].
  apply acquire_inv in Hr as [[Hr _]|(db1 & db2 & jobID & j & wa & Ec & Ecat & Hm & Ec2 & _)]; [by left|right].
  destruct Hm as [Hj _ _ (w & p & Hw & Hready & Hp & sweep & why & Hfin & Hsw) Has].
  destruct (read_worker _ _ _ _ _ Hw) as (row & Hrow & Ew).
  destruct (readiness_empty _ _ _ Hready) as (R1 & _ & _ & _ & R2 & R3).
  destruct (final_reason_empty _ _ _ _ _ _ Hfin) as ((F1 & F2 & F3 & F4) & Fl & (P1 & P2 & P3 & P4) & Fs).
  destruct (assign_rows _ _ _ _ _ _ _ _ _ _ Hj Has) as (Hna & Hnr & _ & _ & _ & Ec').
  rewrite Ew in *. cbn in R1, R2, R3, F1, F2, F3, F4, Fl. rewrite Ec in *. rewrite Ecat in *.
  unfold c. rewrite Ec2, Ec'. eexists (new_attempt jobID _ worker session _ _ _), j, row, p.
  split; [done|]. split; [cbn; by rewrite lookup_insert_eq|]. do 5 (split; [done|]). split; [done|].
  rewrite !held_assigned by done. rewrite !project_usage_assigned by done. cbn. fold worker in F1, F2, F3, F4.
  split; [split_and!; lia|]. split; [split_and!; (done || lia)|].
  intros s r' Hs Hr'. rewrite (sweep_usage_assigned _ _ _ _ _ _ _ _ _ Hj Hna s Hs). rewrite Hs in Hsw.
  destruct Hsw as (r0 & Hr0 & ->). rewrite Hr' in Hr0. injection Hr0 as <-. lia.
Qed.

(** * Repeated requests *)

Lemma replay_same worker session attempt now db r db' :
  replayAssignment worker session attempt now db = (Ok r, db') ->
  exists a, attempts (core db) !! attempt = Some a
    /\ match ac_Assignment r with
       | Some w => wa_Authority w = row_authority attempt a /\ wa_LeaseExpiresAt w = at_lease a
                   /\ active (at_state a) = true /\ now < at_lease a /\ now < at_phase a
       | None => ac_NoWorkReason r = EmptyString /\ is_Some (ac_Decision r)
       end.
Proof.
  unfold replayAssignment. intros Hr. run Hr. exists x. split; [done|].
  apply st_bind_Ok in Hr as (w & db1 & H1 & Hr). apply keeps_worker in H1. subst db1.
  destruct (_ || _); [done|]. destruct (active (at_state x)); cbn [negb] in Hr; [|injection Hr as <- _; by split].
  destruct (_ || _) eqn:E1; [injection Hr as <- _; by split|]. bools.
  destruct (_ || _) eqn:E2; [injection Hr as <- _; by split|]. bools.
  apply st_bind_Ok in Hr as (canonical & db1 & H1 & Hr). apply keeps_canonical in H1. subst db1.
  apply st_bind_Ok in Hr as (inputs & db1 & H1 & Hr). injection Hr as <- _. cbn. naive_solver.
Qed.

Lemma replay_time worker session attempt now db r db' w :
  replayAssignment worker session attempt now db = (Ok r, db') -> ac_Assignment r = Some w -> wa_ServerTime w = now.
Proof.
  unfold replayAssignment. intros Hr Hw. run Hr. apply st_bind_Ok in Hr as (v & db1 & _ & Hr).
  destruct (_ || _); [done|]. destruct (negb _); [by injection Hr as <- _|].
  destruct (_ || _); [by injection Hr as <- _|]. destruct (_ || _); [by injection Hr as <- _|].
  apply st_bind_Ok in Hr as (canonical & db2 & _ & Hr). apply st_bind_Ok in Hr as (inputs & db3 & _ & Hr).
  injection Hr as <- _. cbn in Hw. by injection Hw as <-.
Qed.

(** C11: A worker that repeats an acquisition whose commit went through, whether or
    not the answer arrived, is never given a second attempt: in any later database
    that keeps the request's row the repeated call changes no job, attempt or
    reservation, and what it returns is the attempt of the first call under the
    lease now stored, still running, or a refusal. *)
Theorem acquisition_is_idempotent answer identity session request soft t id db x db1 db2 answer' soft' t' id' y db3 :
  let key := (identity_WorkerID identity, session, request) in
  AcquireWork answer identity session request soft t id db = (x, db1) -> core db1 <> core db ->
  worker_requests (replay db2) !! key = worker_requests (replay db1) !! key ->
  AcquireWork answer' identity session request soft' t' id' db2 = (y, db3) ->
  core db3 = core db2
  /\ forall r, y = Ok r ->
       exists a, attempts (core db2) !! id = Some a
         /\ match ac_Assignment r with
            | Some w => wa_Authority w = row_authority id a /\ wa_LeaseExpiresAt w = at_lease a
                        /\ active (at_state a) = true /\ final_check t' < at_lease a /\ final_check t' < at_phase a
            | None => ac_NoWorkReason r = EmptyString /\ is_Some (ac_Decision r)
            end.
Proof.
  intros key Hcall Hne Hkey. apply acquire_call_inv in Hcall as [->|(r & Hr)]; [done|].
  apply acquire_inv in Hr as [[Hr _]|(da & dc & jobID & j & wa & _ & _ & Hm & _ & _ & q & Hq & Hqa)]; [done|].
  destruct (assign_rows _ _ _ _ _ _ _ _ _ _ (am_job _ _ _ _ _ _ _ _ _ _ Hm) (am_assign _ _ _ _ _ _ _ _ _ _ Hm))
    as (_ & _ & Ewa & _). rewrite Ewa in Hqa. cbn in Hqa. fold key in Hq. rewrite Hq in Hkey.
  unfold AcquireWork. destruct (_ || _); [intros [= <- <-]; split; [done|by intros ? [=]]|].
  destruct (_ || _); [intros [= <- <-]; split; [done|by intros ? [=]]|].
  assert (forall d db4, AcquireWork_body identity session request soft' t' id' db2 = (Ok d, db4) ->
    db4 = db2 /\ exists r, d = Commit r /\ replayAssignment (identity_WorkerID identity) session id (final_check t') db2 = (Ok r, db2)) as Hbody.
  { intros d db4. unfold AcquireWork_body. intros Hb. apply authorize_bind in Hb. run Hb. fold key in Hb. rewrite Hkey in Hb.
    cbn [mbind option_bind] in Hb. rewrite Hqa in Hb. apply st_bind_Ok in Hb as (r2 & db5 & H5 & Hb). injection Hb as <- <-.
    assert (db5 = db2) as -> by (by apply keeps_replay in H5). eauto. }
  unfold transact. destruct answer'; [|by intros [= <- <-]|];
    (destruct (AcquireWork_body _ _ _ _ _ _ db2) as [[d|e] db4] eqn:Hd;
     [destruct (Hbody _ _ eq_refl) as (-> & r2 & -> & Hrep)|]; intros [= <- <-]; (split; [done|]); intros r3 [=]);
    subst; by eapply replay_same.
Qed.
End Assign.
