(* ===== verification/StoreDecide.v ===== *)
(** Completions are decided once ([completion.go]): whatever becomes of the first
    answer, the same completion is answered with the stored decision for good.
    Also the bounds of the delay before a retry ([recovery.go]). *)

From S2P Require Import Prelude Strings Protocol SpecJob Store StoreLeases StoreRecovery.
From S2P Require Import StoreSessions StoreAcquire StoreComplete Ledger LedgerFacts StoreRun.
From S2P Require Import StoreWorkRun StoreFacts.
Open Scope Z_scope.

Section Decide.
Context `{GoLib}.

(** * The completion row *)

Lemma conclude_keeps r digest state jobState manifest now eligible :
  keeps (fun db => completions (core db)) (conclude r digest state jobState manifest now eligible).
Proof.
  unfold conclude, update_attempt, end_reservation, update_job_event, update_job, insert_event, applySweepFailFast.
  keep; unfold update_job_event, update_job, insert_event; keep.
Qed.

Lemma completed_row id r digest p now published db x db' :
  CompleteAttempt_body id r digest p now published db = (Ok (Commit x), db') ->
  exists co row, completions (core db') !! AttemptID (cr_Authority r) = Some co
    /\ co_id co = CompletionID r /\ co_digest co = digest
    /\ attempts (core db) !! AttemptID (cr_Authority r) = Some row
    /\ cr_Authority r = row_authority (AttemptID (cr_Authority r)) row.
Proof.
  unfold CompleteAttempt_body. intros Hr. apply authorize_bind in Hr. rewrite bind_gets in Hr.
  set (a := cr_Authority r) in *. destruct (negb (bool_decide (la_authority _ = a))) eqn:Ha; [done|].
  destruct (completions (core db) !! AttemptID a) as [saved|]; [by destruct (_ || _)|].
  destruct (existsb _ _); [done|]. destruct (negb (active _)) eqn:Hact; [done|]. run Hr.
  apply require_session_bind in Hr as [_ Hr].
  destruct (negb (bool_decide (completionDecision _ _ _ now = _))); [done|]. run Hr.
  destruct (completed_outcome r (jb_spec x0)) as [state jobState]. run Hr. destruct x3 as [manifest refs].
  run Hr. apply st_bind_Ok in Hr as (u1 & db1 & H1 & Hr). apply artifacts_loop in H1; [|done].
  destruct (negb (bool_decide (completionDecision _ _ _ published = _))); [done|]. apply st_bind_Ok in Hr as (u2 & db2 & H2 & Hr). apply ret_Ok in Hr as [_ ->].
  apply conclude_keeps in H2. eexists _, x1. rewrite H2, H1. cbn. rewrite lookup_insert_eq.
  apply negb_false_iff, bool_decide_eq_true in Ha. apply negb_false_iff in Hact.
  assert (a ∈ [a]) as Hin by left. destruct (locked_rows [a] (core db) a Hin (eq_sym Ha) Hact) as (row & Hrow & Har & _).
  rewrite G1 in Hrow. injection Hrow as <-. done.
Qed.

(** The answer a stored completion gives. *)
Definition stored_answer (co : CompletionRow) : CompletionResult :=
  {| cres_Decision := Decision_.Accepted; cres_State := co_state co;
     cres_Manifest := if bool_decide (co_state co = AttemptState.Succeeded) then Some (co_manifest co) else None |}.

(** A stored completion answers its own request. *)
Lemma replayed_completion id r digest p now published db d db' co row :
  let a := cr_Authority r in
  attempts (core db) !! AttemptID a = Some row -> a = row_authority (AttemptID a) row ->
  completions (core db) !! AttemptID a = Some co -> co_id co = CompletionID r -> co_digest co = digest ->
  CompleteAttempt_body id r digest p now published db = (Ok d, db') ->
  d = Return (stored_answer co).
Proof.
  intros a Hrow Har Hco Hid Hdig. unfold CompleteAttempt_body. fold a. intros Hr. apply authorize_bind in Hr.
  rewrite bind_gets in Hr. assert (la_authority ((lockLeaseBatch [a] (core db)).2 (AttemptID a)) = a) as E.
  { cbn. rewrite Hrow. assert (at_job row = JobID a) as -> by (by rewrite Har).
    rewrite !bool_decide_true by (apply list_elem_of_singleton; done). cbn. by rewrite <- Har. }
  rewrite (bool_decide_true (la_authority _ = a)) in Hr by done. cbn [negb] in Hr. rewrite Hco in Hr.
  rewrite (bool_decide_true (co_id co = _)), (bool_decide_true (co_digest co = _)) in Hr by done. cbn [negb orb] in Hr.
  by apply ret_Ok in Hr as [-> _].
Qed.

(** C10: A completion is decided once.  When a call stored a completion of an
    attempt, then in every later database of the history the same request, whoever
    lost the first answer, is answered with the state and manifest stored then,
    and changes no job, attempt, reservation or completion. *)
Theorem completion_is_decided_once
  t0 db0 t1 db answer id r now published x db1 co t2 db2 answer' now' published' y db3 :
  let attempt := AttemptID (cr_Authority r) in
  fresh (core db0) -> history t0 db0 t1 db -> t1 <= now <= published ->
  completions (core db) !! attempt = None ->
  CompleteAttempt answer id r now published db = (x, db1) -> completions (core db1) !! attempt = Some co ->
  history published db1 t2 db2 ->
  CompleteAttempt answer' id r now' published' db2 = (y, db3) ->
  core db3 = core db2
  /\ forall res, y = Ok res -> res = stored_answer co.
Proof.
  intros attempt Hf Hh Ht Hnone Hcall Hco Hh2 Hcall2.
  assert (history t1 db published db1) as Hh1.
  { eapply h_later; [|constructor]. eapply t_complete; [| |exact Hcall]; lia. }
  pose proof (history_reached _ _ _ _ Hf Hh) as Hr. destruct (history_evolves _ _ _ _ Hr Hh1) as [Hr1 Hev1].
  destruct (history_evolves _ _ _ _ Hr1 Hh2) as [_ Hev2].
  unfold CompleteAttempt in Hcall, Hcall2. destruct (_ || _); [by injection Hcall2 as <- <-|].
  destruct (CompletionDigest r) as [digest|]; [|by injection Hcall2 as <- <-].
  destruct (_ || _); [by injection Hcall2 as <- <-|].
  destruct (normalizeCompletion r) as [p|]; [rewrite bind_lifted in Hcall, Hcall2|by injection Hcall2 as <- <-].
  apply transact_inv in Hcall as [->|(a & Hb)]; [congruence|].
  destruct (completed_row _ _ _ _ _ _ _ _ _ Hb) as (co' & row & Hco' & Hid & Hdig & Hrow & Har).
  fold attempt in Hco', Hrow. rewrite Hco in Hco'. injection Hco' as <-.
  destruct (ev_attempts _ _ (transitivity Hev1 Hev2) _ _ Hrow) as (row2 & Hrow2 & Hp & _).
  unfold protect_attempt_identity in Hp. triggers.
  assert (cr_Authority r = row_authority attempt row2) as Har2.
  { rewrite Har at 1. unfold row_authority, attempt. congruence. }
  pose proof (ev_completions _ _ Hev2 _ _ Hco) as Hco2.
  assert (forall d db4, CompleteAttempt_body id r digest p now' published' db2 = (Ok d, db4) -> d = Return (stored_answer co)) as Hbody.
  { intros d db4. by eapply replayed_completion. }
  unfold transact in Hcall2. destruct answer'; [|by injection Hcall2 as <- <-|];
    (destruct (CompleteAttempt_body _ _ _ _ _ _ db2) as [[d|e] db4] eqn:Hd; [|by injection Hcall2 as <- <-]);
    pose proof (Hbody _ _ eq_refl) as ->; injection Hcall2 as <- <-; (split; [done|]); by intros res [= <-].
Qed.

(** * Retries *)

Lemma backoff_bounds steps base maximum :
  0 <= base -> base <= maximum -> base <= backoff steps base maximum <= maximum.
Proof.
  revert base. induction steps as [|n IH]; intros base H0 Hm; cbn; [lia|].
  destruct (Z.ltb_spec base maximum); [|lia]. destruct (IH (Z.min (base * 2) maximum)); lia.
Qed.

(** C40: The delay before a lost or failed attempt is retried is at least half the
    policy's initial backoff and at most its maximal backoff, whatever the number
    and the identifier of the attempt. *)
Theorem retry_waits_within_policy policy number id :
  1 <= InitialBackoffSeconds policy <= MaxBackoffSeconds policy ->
  InitialBackoffSeconds policy * second / 2 <= retryDelay policy number id <= MaxBackoffSeconds policy * second.
Proof.
  intros Hp. unfold retryDelay. set (base := backoff _ _ _).
  assert (InitialBackoffSeconds policy * second <= base <= MaxBackoffSeconds policy * second) as Hb
    by (apply backoff_bounds; unfold second; lia).
  set (x := Z.of_N _). assert (InitialBackoffSeconds policy * second / 2 <= base / 2) by (apply Z.div_le_mono; lia).
  assert (0 <= base) by (unfold second in Hb; lia). assert (0 <= base / 2 <= base) by
    (split; [apply Z.div_pos; lia|apply Z.div_le_upper_bound; lia]).
  pose proof (Z.mod_pos_bound x (base - base / 2 + 1)). lia.
Qed.
End Decide.
