(* ===== verification/WorkerApi.v ===== *)
(** The worker service of the control plane ([internal/workerapi]): who may call
    what for whom ([auth.go]), how wire requests become calls of the store and its
    results become wire responses ([service.go], [leases.go], [acquisition.go],
    [assignments.go], [phases.go], [completion.go]).

    The messages are those of [Protocol]; a [nil] member of a repeated field has
    no counterpart there.  A handler is a state transformer of the database. *)

From stdpp Require Import pretty.
From S2P Require Import Prelude Strings Protocol Control SpecJob Store StoreLeases StoreRecovery.
From S2P Require Import StoreSessions StoreAcquire StoreComplete.
Open Scope Z_scope.

Definition handler (A : Type) : Type := st Db Status A.

Definition status (c : Code) (m : string) : Status := {| code := c; message := m |}.

(** * Errors *)

(** Whether the request's context has ended: the driver's errors wrap it. *)
Inductive ContextState : Type := Live | Canceled | DeadlinePassed.

Definition rpcError (context : ContextState) (e : StoreError) : Status :=
  match e, context with
  | ErrDatabase, Canceled => status Cancelled "REQUEST_CANCELLED"
  | ErrDatabase, DeadlinePassed => status DeadlineExceeded "DEADLINE_EXCEEDED"
  | ErrUnauthorized, _ => status Unauthenticated "UNAUTHORIZED_WORKER"
  | ErrInvalid, _ => status InvalidArgument "INVALID_ARGUMENT"
  | ErrConflict, _ => status AlreadyExists "REQUEST_CONFLICT"
  | ErrSessionActive, _ => status FailedPrecondition "SESSION_ACTIVE"
  | ErrFenced, _ => status FailedPrecondition "SESSION_FENCED"
  | ErrStaleHeartbeat, _ => status Aborted "STALE_HEARTBEAT"
  | ErrNotFound, _ => status NotFound "NOT_FOUND"
  | _, _ => status Unavailable "DATABASE_UNAVAILABLE"
  end.

(** A call of the store within a handler. *)
Definition call {A : Type} (context : ContextState) (m : tx A) : handler A :=
  fun db => match m db with
            | (Ok a, db') => (Ok a, db')
            | (Err e, db') => (Err (rpcError context e), db')
            end.

(** * Binding *)

Inductive WorkerRequest : Type :=
| ForRegister (r : RegisterWorkerRequest)
| ForHeartbeat (r : HeartbeatRequest)
| ForAcquire (r : AcquireWorkRequest)
| ForList (r : ListAssignmentsRequest)
| ForPhase (r : ReportPhaseRequest)
| ForRenew (r : RenewLeasesRequest)
| ForComplete (r : CompleteAttemptRequest).

(** The getters of a missing message give zero values. *)
Definition get_worker (s : option WorkerSession) : string := default EmptyString (ws_worker_id <$> s).
Definition get_session (s : option WorkerSession) : string := default EmptyString (ws_session_id <$> s).
Definition get_authority_worker (a : option AttemptAuthority) : string := default EmptyString (aa_worker_id <$> a).

Definition requestWorkerID (request : WorkerRequest) : string :=
  match request with
  | ForRegister r => rw_worker_id r
  | ForHeartbeat r => get_worker (hb_session r)
  | ForAcquire r => get_worker (Protocol.aw_session r)
  | ForList r => get_worker (la_session r)
  | ForPhase r => get_authority_worker (rp_authority r)
  | ForRenew r => get_worker (rl_session r)
  | ForComplete r => get_authority_worker (ca_authority r)
  end.

Definition bindWorker (request : WorkerRequest) (id : string) : result Status unit :=
  let claimed := requestWorkerID request in
  if is_empty_str claimed then Err (status InvalidArgument "worker identity required")
  else if negb (bool_decide (claimed = id)) then Err (status PermissionDenied "worker identity mismatch")
  else match request with
  | ForHeartbeat r =>
      if existsb (fun e => negb (bool_decide (get_authority_worker (ei_authority e) = id))) (hb_inventory r)
      then Err (status PermissionDenied "inventory host mismatch") else Ok tt
  | ForRenew r =>
      if existsb (fun a => negb (bool_decide (aa_worker_id a = id))
                           || negb (bool_decide (aa_session_id a = get_session (rl_session r)))) (rl_attempts r)
      then Err (status PermissionDenied "renewal host or session mismatch") else Ok tt
  | _ => Ok tt
  end.

(** The first lines of every handler: the identity the interceptor authenticated. *)
Definition bound (identity : option WorkerIdentity) (request : WorkerRequest) : handler WorkerIdentity :=
  let! id := st_lift (ok_or identity (status Unauthenticated "UNAUTHORIZED_WORKER")) in
  let! _ := st_lift (bindWorker request (identity_WorkerID id)) in
  st_ret id.

(** * Conversions *)

Definition from_wire (a : AttemptAuthority) : Authority :=
  {| JobID := aa_job_id a; AttemptID := aa_attempt_id a; Generation := Z.of_N (aa_generation a);
     WorkerID := aa_worker_id a; SessionID := aa_session_id a |}.

(** [uint64] of a generation. *)
Definition to_wire (a : Authority) : AttemptAuthority :=
  {| aa_job_id := JobID a; aa_attempt_id := AttemptID a; aa_generation := Z.to_N (Generation a mod 2 ^ 64);
     aa_worker_id := WorkerID a; aa_session_id := SessionID a |}.

Definition wire_authority (a : option AttemptAuthority) : AttemptAuthority :=
  default {| aa_job_id := EmptyString; aa_attempt_id := EmptyString; aa_generation := 0; aa_worker_id := EmptyString;
             aa_session_id := EmptyString |} a.

(** [time.Time.Sub], saturating; [Duration.Milliseconds], truncating;
    [Time.UnixMilli]. *)
Definition sub_time (t u : Z) : Z := Z.max (- 2 ^ 63) (Z.min (2 ^ 63 - 1) (t - u)).
Definition milliseconds (d : Z) : Z := Z.quot d 1000000.
Definition unix_milli (t : Z) : Z := t / 1000000.

Definition invalid_argument (context : ContextState) : Status := rpcError context ErrInvalid.

Section WorkerApi.
Context `{GoLib}.

(** * Leases *)

Definition lease_result (g : LeaseGrant) : result Status LeaseResult :=
  let invalid := status Internal "INVALID_LEASE_RESULT" in
  let result d lease phase :=
    {| lres_authority := Some (to_wire (grant_Authority g)); lres_decision := Decision_.to_i32 d;
       lres_remaining_ms := lease; lres_server_time_unix_ms := unix_milli (grant_ServerTime g);
       lres_phase_remaining_ms := phase |} in
  if bool_decide (grant_Decision g = Decision_.Unspecified) || (Generation (grant_Authority g) <? 1)
     || (grant_ServerTime g =? zero_time) then Err invalid
  else if bool_decide (grant_Decision g = Decision_.Accepted) then
    let lease := sub_time (grant_LeaseExpiresAt g) (grant_ServerTime g) in
    let phase := milliseconds (sub_time (grant_PhaseDeadline g) (grant_ServerTime g)) in
    if InitialLease <? lease then Err invalid
    else if milliseconds lease <=? 0 then Ok (result Decision_.Fenced 0%N 0%N)
    else if phase <=? 0 then Ok (result Decision_.StopRequested 0%N 0%N)
    else Ok (result Decision_.Accepted (Z.to_N (milliseconds lease)) (Z.to_N phase))
  else Ok (result (grant_Decision g) 0%N 0%N).

Definition leaseResponse (grants : list LeaseGrant) : result Status (list LeaseResult) :=
  if (len grants <? 1)%N || (MaxLeaseRenewalBatch <? len grants)%N
  then Err (status Internal "INVALID_LEASE_RESULT")
  else rmap lease_result grants.

Definition RenewLeases_rpc (context : ContextState) (answer : TxAnswer) (identity : option WorkerIdentity)
  (request : RenewLeasesRequest) (now : Z) : handler (list LeaseResult) :=
  let! id := bound identity (ForRenew request) in
  if (len (rl_attempts request) <? 1)%N || (MaxLeaseRenewalBatch <? len (rl_attempts request))%N
     || existsb (fun a => (I64_MAX <? aa_generation a)%N) (rl_attempts request)
  then st_err (invalid_argument context)
  else
    let! grants := call context (RenewLeases answer id
      {| renew_SessionID := get_session (rl_session request); renew_RequestID := rl_request_id request;
         Attempts := from_wire <$> rl_attempts request |} now) in
    st_lift (leaseResponse grants).

(** * Sessions *)

Definition mib : N := 1048576.

Definition RegisterWorker_rpc (context : ContextState) (answer : TxAnswer) (identity : option WorkerIdentity)
  (r : RegisterWorkerRequest) (now created seen : Z) : handler RegisterWorkerResponse :=
  let! id := bound identity (ForRegister r) in
  match rw_allocatable r with
  | None => st_err (invalid_argument context)
  | Some resources =>
      if negb (rs_memory_bytes resources mod mib =? 0)%N || negb (rs_scratch_bytes resources mod mib =? 0)%N
         || (1000 <? rw_execution_slots r)%N then st_err (invalid_argument context)
      else
        let! session := call context (RegisterSession answer id
          {| reg_RequestID := rw_request_id r; reg_SessionID := rw_requested_session_id r;
             ProtocolVersion := Z.of_N (rw_protocol_version r);
             reg_Resources := {| CPUMillis := Z.of_N (rs_cpu_millis resources);
                                 MemoryMiB := Z.of_N (rs_memory_bytes resources / mib);
                                 ScratchMiB := Z.of_N (rs_scratch_bytes resources / mib) |};
             Slots := Z.of_N (rw_execution_slots r); Labels := rw_labels r; Capabilities := rw_capabilities r |}
          now created seen) in
        st_ret {| rr_session := Some {| ws_worker_id := session_WorkerID session;
                                        ws_session_id := session_SessionID session |};
                  rr_session_generation := Z.to_N (session_Generation session mod 2 ^ 64); rr_protocol_version := 1;
                  rr_cleanup_required := CleanupRequired session |}
  end.

(** The loop over the inventory. *)
Fixpoint inventory_records (l : list ExecutionInventory) : option (list ExecutionRecord) :=
  match l with
  | [] => Some []
  | e :: rest =>
      match ei_authority e with
      | Some a =>
          if (I64_MAX <? aa_generation a)%N then None
          else (fun records => {| record_Authority := from_wire a; record_ContainerID := ei_container_id e;
                                  record_Running := ei_running e |} :: records) <$> inventory_records rest
      | None => None
      end
  end.

Definition Heartbeat_rpc (context : ContextState) (answer : TxAnswer) (identity : option WorkerIdentity)
  (r : HeartbeatRequest) (now : Z) : handler HeartbeatResponse :=
  let! id := bound identity (ForHeartbeat r) in
  if (I64_MAX <? hb_report_sequence r)%N || (1024 <? len (hb_inventory r))%N then st_err (invalid_argument context)
  else
    let! inventory := st_lift (ok_or (inventory_records (hb_inventory r)) (invalid_argument context)) in
    let! result := call context (RecordHeartbeat answer id
      {| hb_RequestID := hb_request_id r; hb_SessionID := get_session (hb_session r);
         Sequence := Z.of_N (hb_report_sequence r); RuntimeHealthy := hb_runtime_healthy r;
         DiskPressure := hb_disk_pressure r; ReconciliationComplete := hb_reconciliation_complete r;
         Inventory := inventory |} now) in
    st_ret {| hr_drain := Drain result; hr_reconcile := Reconcile result; hr_stop := to_wire <$> Stop result |}.

(** * Assignments *)

(** [pb.NoWorkReason_value]; [0] and unknown names are refused. *)
Definition NoWorkReason_value (reason : string) : option Z :=
  if bool_decide (reason = "QUEUE_EMPTY"%string) then Some 1
  else if bool_decide (reason = "NO_RESOURCE_FIT"%string) then Some 2
  else if bool_decide (reason = "PROJECT_QUOTA"%string) then Some 3
  else if bool_decide (reason = "SWEEP_CONCURRENCY"%string) then Some 4
  else if bool_decide (reason = "PLACEMENT_MISMATCH"%string) then Some 5
  else if bool_decide (reason = "WORKER_NOT_READY"%string) then Some 6
  else None.

Definition MaxSinglePartBytes : Z := 64 * 1024 * 1024.

Definition input_manifest (input : JobInputBinding) (declared : SpecInput) : option InputManifest :=
  let d := db_row (jib_Dataset input) in
  if is_empty_str (db_ID (jib_Dataset input)) || negb (bool_decide (ds_name d = Dataset declared))
     || negb (bool_decide (jib_MountPath input = MountPath declared)) || (ds_size d <? 1)
     || (MaxSinglePartBytes <? ds_size d) || (2 * 1024 * 1024 <? len (marshal_dataset (ds_manifest d)))%N
  then None
  else Some {| im_dataset_id := db_ID (jib_Dataset input); im_mount_path := jib_MountPath input;
               im_archive := Some {| ov_key := ds_key d; ov_version_id := ds_version d;
                                     ov_size_bytes := Z.to_N (ds_size d); ov_sha256 := ds_sha256 d |};
               im_file_manifest_json := marshal_dataset (ds_manifest d); im_download_url := EmptyString;
               im_expires_unix_ms := 0; im_dataset_name := ds_name d |}.

Fixpoint input_manifests (inputs : list JobInputBinding) (declared : list SpecInput) : option (list InputManifest) :=
  match inputs, declared with
  | [], [] => Some []
  | i :: inputs', d :: declared' =>
      match input_manifest i d, input_manifests inputs' declared' with
      | Some m, Some rest => Some (m :: rest)
      | _, _ => None
      end
  | _, _ => None
  end.

(** [uint64(x) << 20]. *)
Definition mib_bytes (x : Z) : N := Z.to_N (Z.shiftl x 20 mod 2 ^ 64).

Definition acquisitionResponse (outcome : AcquisitionResult) : result Status AcquireOutcome :=
  let invalid := status Internal "INVALID_ACQUISITION_RESULT" in
  let rejected d := Ok (OutcomeRejected (Decision_.to_i32 d)) in
  match ac_Assignment outcome, is_empty_str (ac_NoWorkReason outcome), ac_Decision outcome with
  | None, false, None =>
      match NoWorkReason_value (ac_NoWorkReason outcome) with
      | Some value => Ok (OutcomeNoWork value)
      | None => Err invalid
      end
  | None, true, Some d =>
      match d with
      | Decision_.Fenced | Decision_.StopRequested | Decision_.AlreadyTerminal => rejected d
      | _ => Err invalid
      end
  | Some a, true, None =>
      let lease := milliseconds (sub_time (wa_LeaseExpiresAt a) (wa_ServerTime a)) in
      let phase := milliseconds (sub_time (wa_PhaseDeadline a) (wa_ServerTime a)) in
      if lease <=? 0 then rejected Decision_.Fenced
      else if phase <=? 0 then rejected Decision_.StopRequested
      else
        let job := Spec (wa_Job a) in
        let r := spec_Resources job in
        match input_manifests (wa_Inputs a) (Inputs job) with
        | None => Err invalid
        | Some inputs => Ok (OutcomeAssignment
            {| as_authority := Some (to_wire (wa_Authority a)); as_image_digest := Image job;
               as_argv := Command job ++ Args job;
               as_resources := Some {| rs_cpu_millis := Z.to_N (CPUMillis r mod 2 ^ 32);
                                       rs_memory_bytes := mib_bytes (MemoryMiB r);
                                       rs_scratch_bytes := mib_bytes (ScratchMiB r) |};
               as_canonical_job_spec_json := wa_CanonicalSpec a; as_spec_sha256 := wa_SpecHash a;
               as_lease_duration_ms := Z.to_N lease; as_server_time_unix_ms := unix_milli (wa_ServerTime a);
               as_phase_remaining_ms := Z.to_N phase; as_inputs := inputs |})
        end
  | _, _, _ => Err invalid
  end.

(** What the object store signs, and [proto.Size]. *)
Record Grant := { URL : string; Method : string; Headers : list (string * nat); grant_ExpiresAt : Z }.
Context (objects : option (ObjectVersion -> option Grant)).
Context (acquire_size : AcquireOutcome -> N) (page_size : ListAssignmentsResponse -> N).

Definition maxWorkerMessageBytes : N := 4194304.

(** [strings.EqualFold(name, "Host")]; the long s folds to [s]. *)
Definition is_host (name : string) : bool :=
  match chars (str_bytes name) with
  | [h; o; s; t] => bool_decide (h ∈ [72; 104]%N) && bool_decide (o ∈ [79; 111]%N)
                    && bool_decide (s ∈ [83; 115; 383]%N) && bool_decide (t ∈ [84; 116]%N)
  | _ => false
  end.

Definition sign_input (now : Z) (input : InputManifest) : result Status InputManifest :=
  match im_archive input, objects with
  | Some archive, Some presign =>
      if (ov_size_bytes archive =? 0)%N || (Z.to_N MaxSinglePartBytes <? ov_size_bytes archive)%N
      then Err (status Internal "INVALID_DATASET_ASSIGNMENT")
      else match presign archive with
      | None => Err (status Unavailable "DATASET_GRANT_UNAVAILABLE")
      | Some g =>
          if existsb (fun '(name, values) => negb (is_host name) || negb (values =? 1)%nat) (Headers g)
          then Err (status Internal "UNSUPPORTED_DATASET_GRANT")
          else if negb (bool_decide (Method g = "GET"%string)) || (65536 <? str_len (URL g))%N || (grant_ExpiresAt g <=? now)
          then Err (status Internal "INVALID_DATASET_GRANT")
          else Ok {| im_dataset_id := im_dataset_id input; im_mount_path := im_mount_path input;
                     im_archive := im_archive input; im_file_manifest_json := im_file_manifest_json input;
                     im_download_url := URL g; im_expires_unix_ms := unix_milli (grant_ExpiresAt g);
                     im_dataset_name := im_dataset_name input |}
      end
  | None, Some _ => Err (status Internal "INVALID_DATASET_ASSIGNMENT")
  | _, None => Err (status Unavailable "DATASET_GRANT_UNAVAILABLE")
  end.

Definition with_inputs (inputs : list InputManifest) (a : Assignment) : Assignment :=
  {| as_authority := as_authority a; as_image_digest := as_image_digest a; as_argv := as_argv a;
     as_resources := as_resources a; as_canonical_job_spec_json := as_canonical_job_spec_json a;
     as_spec_sha256 := as_spec_sha256 a; as_lease_duration_ms := as_lease_duration_ms a;
     as_server_time_unix_ms := as_server_time_unix_ms a; as_phase_remaining_ms := as_phase_remaining_ms a;
     as_inputs := inputs |}.

Definition signInputGrants (now : Z) (a : Assignment) : result Status Assignment :=
  let? inputs := rmap (sign_input now) (as_inputs a) in Ok (with_inputs inputs a).

(** [signed] is the clock of the signing host. *)
Definition AcquireWork_rpc (context : ContextState) (answer : TxAnswer) (identity : option WorkerIdentity)
  (request : AcquireWorkRequest) (allow_soft : bool) (t : Clocks) (attempt : string) (signed : Z)
  : handler AcquireOutcome :=
  let! id := bound identity (ForAcquire request) in
  let! result := call context (AcquireWork answer id (get_session (Protocol.aw_session request))
                                 (Protocol.aw_request_id request) allow_soft t attempt) in
  let! response := st_lift (acquisitionResponse result) in
  match response with
  | OutcomeAssignment a =>
      let! a := st_lift (signInputGrants signed a) in
      if (maxWorkerMessageBytes <? acquire_size (OutcomeAssignment a))%N
      then st_err (status ResourceExhausted "ASSIGNMENT_TOO_LARGE")
      else st_ret (OutcomeAssignment a)
  | _ => st_ret response
  end.

(** Assignments that ran out since they were read are left out. *)
Definition assignmentPageResponse (page : list WorkAssignment) (next : string)
  : result Status ListAssignmentsResponse :=
  let? outcomes := rmap (fun a => acquisitionResponse (assigned a)) page in
  let response :=
    {| lr_assignments := omap (fun o => match o with OutcomeAssignment a => Some a | _ => None end) outcomes;
       lr_next_after_job_id := next |} in
  if (maxWorkerMessageBytes <? page_size response)%N
  then Err (status ResourceExhausted "ASSIGNMENT_PAGE_TOO_LARGE") else Ok response.

Definition ListAssignments_rpc (context : ContextState) (answer : TxAnswer) (identity : option WorkerIdentity)
  (request : ListAssignmentsRequest) (clock : nat -> Z) (signed : Z) : handler ListAssignmentsResponse :=
  let! id := bound identity (ForList request) in
  if (Z.to_N MaxAssignmentPageSize <? la_page_size request)%N then st_err (invalid_argument context)
  else
    let! '(page, next) := call context (ListAssignments answer id (get_session (la_session request))
      (la_after_job_id request) (Z.of_N (la_page_size request)) clock) in
    let! response := st_lift (assignmentPageResponse page next) in
    let! l := st_lift (rmap (signInputGrants signed) (lr_assignments response)) in
    let response := {| lr_assignments := l; lr_next_after_job_id := next |} in
    if (maxWorkerMessageBytes <? page_size response)%N
    then st_err (status ResourceExhausted "ASSIGNMENT_PAGE_TOO_LARGE")
    else st_ret response.

(** * Phases and completions *)

(** The unspecified state stands for the empty string of the store. *)
Definition wire_terminal (s : AttemptState.t) : bool :=
  bool_decide (s ∈ [AttemptState.Succeeded; AttemptState.Failed; AttemptState.Lost; AttemptState.Cancelled]).

Definition phaseResponse (r : MutationResult) : result Status MutationResponse :=
  let s := mr_State r in
  let valid := match mr_Decision r with
    | Decision_.Accepted => active s && negb (bool_decide (s = AttemptState.Assigned))
    | Decision_.Fenced => active s || bool_decide (s = AttemptState.Unspecified)
    | Decision_.StopRequested => active s
    | Decision_.AlreadyTerminal => wire_terminal s
    | Decision_.Unspecified => false
    end in
  if valid then Ok {| mr_decision := Decision_.to_i32 (mr_Decision r); mr_state := AttemptState.to_i32 s |}
  else Err (status Internal "INVALID_PHASE_RESULT").

Definition ReportPhase_rpc (context : ContextState) (answer : TxAnswer) (identity : option WorkerIdentity)
  (r : ReportPhaseRequest) (now : Z) : handler MutationResponse :=
  let! id := bound identity (ForPhase r) in
  let a := wire_authority (rp_authority r) in
  match AttemptState.try_from (rp_phase r) with
  | Some ((AttemptState.Starting | AttemptState.Running | AttemptState.Finalizing) as phase) =>
      if (I64_MAX <? aa_generation a)%N then st_err (invalid_argument context)
      else
        let! result := call context (ReportPhase answer id
          {| phase_Authority := from_wire a; EventID := rp_event_id r; Phase := phase;
             ContainerID := rp_container_id r; ExitCode := rp_exit_code r |} now) in
        st_lift (phaseResponse result)
  | _ => st_err (invalid_argument context)
  end.

(** [r.GetReason().String()]: a value without a name is its number. *)
Definition reason_name (value : Z) : string :=
  match FailureReason.try_from value with
  | Some FailureReason.Unspecified => EmptyString
  | Some r => FailureReason.as_str_name r
  | None => pretty value
  end.

Definition completion_gap (g : LogGap) : option CompletionLogGap :=
  if (I64_MAX <? lg_first_sequence g)%N || (I64_MAX <? lg_last_sequence g)%N then None
  else match LogStream.try_from (lg_stream g) with
  | Some LogStream.Stdout => Some {| gap_Stream := "stdout"; gap_First := Z.of_N (lg_first_sequence g);
                                     gap_Last := Z.of_N (lg_last_sequence g) |}
  | Some LogStream.Stderr => Some {| gap_Stream := "stderr"; gap_First := Z.of_N (lg_first_sequence g);
                                     gap_Last := Z.of_N (lg_last_sequence g) |}
  | _ => None
  end.

Definition completionRequest (r : CompleteAttemptRequest) : result StoreError CompletionRequest :=
  let? a := ok_or (ca_authority r) ErrInvalid in
  if (I64_MAX <? aa_generation a)%N || (64 <? len (ca_outputs r))%N || (1024 <? len (ca_gaps r))%N
     || (65536 <? len (ca_metrics_json r))%N then Err ErrInvalid
  else
    let? gaps := rmap (fun g => ok_or (completion_gap g) ErrInvalid) (ca_gaps r) in
    Ok {| cr_Authority := from_wire a; CompletionID := ca_completion_id r; PayloadSHA256 := ca_payload_sha256 r;
          cr_ExitCode := ca_exit_code r; Reason := reason_name (Protocol.ca_reason r); Stopped := ca_stopped r;
          Outputs := (fun o => {| co_Name := or_name o; co_ArtifactID := or_artifact_id o |}) <$> ca_outputs r;
          LogsComplete := ca_logs_complete r; Gaps := gaps; MetricsJSON := ca_metrics_json r |}.

(** Whether the bytes, without white space around them, are a JSON object:
    [bytes.TrimSpace], the first byte, and [json.Valid]. *)
Context (json_object : bytes -> bool).

Definition completionResponse (r : CompletionResult) : result Status CompleteAttemptResponse :=
  let s := cres_State r in
  let manifest := default [] (cres_Manifest r) in
  let valid := match cres_Decision r with
    | Decision_.Accepted => wire_terminal s && negb (bool_decide (s = AttemptState.Lost))
    | Decision_.AlreadyTerminal => wire_terminal s
    | Decision_.Fenced => active s || bool_decide (s = AttemptState.Unspecified)
    | Decision_.StopRequested => active s
    | Decision_.Unspecified => false
    end in
  let valid :=
    if bool_decide (cres_Decision r = Decision_.Accepted) && bool_decide (s = AttemptState.Succeeded)
    then valid && (len manifest <=? 2 * 1024 * 1024)%N && json_object manifest
    else valid && (len manifest =? 0)%N in
  if valid then Ok {| cs_decision := Decision_.to_i32 (cres_Decision r); cs_state := AttemptState.to_i32 s;
                      cs_accepted_manifest_json := manifest |}
  else Err (status Internal "INVALID_COMPLETION_RESULT").

Definition CompleteAttempt_rpc (context : ContextState) (answer : TxAnswer) (identity : option WorkerIdentity)
  (r : CompleteAttemptRequest) (now published : Z) : handler CompleteAttemptResponse :=
  let! id := bound identity (ForComplete r) in
  let! request := call context (st_lift (completionRequest r)) in
  let! result := call context (CompleteAttempt answer id request now published) in
  st_lift (completionResponse result).
End WorkerApi.
