(* ===== verification/EndToEnd.v ===== *)
(** The worker and the control plane together: authority over an attempt, as the
    worker computes it from a reply of the service, ends before the store lets
    another attempt of the job begin.

    [k] places the worker's monotonic clock on the clock of the database: the
    reading [s] is taken at [k + s].  The only assumption about the two hosts is
    that a request is sent before the transaction that serves it reads its clock;
    both clocks run at the same rate. *)

From S2P Require Import Prelude Strings Protocol Lease Control Renew Work SpecJob Store StoreLeases.
From S2P Require Import StoreRecovery StoreSessions StoreAcquire StoreComplete Ledger LedgerFacts.
From S2P Require Import StoreRun StoreWorkRun StoreFacts StoreAssign WorkerApi.
Open Scope Z_scope.

(** * Time on the wire *)

Lemma milliseconds_floor x y :
  0 < milliseconds (sub_time x y) -> milliseconds (sub_time x y) * 1000000 <= x - y.
Proof.
  unfold milliseconds, sub_time. intros Hp. set (d := Z.max _ _) in *.
  assert (0 < d) as Hd.
  { destruct (Z.lt_ge_cases 0 d) as [|Hle]; [done|]. pose proof (Z.quot_le_mono d 0 1000000 ltac:(lia) Hle) as Hq.
    rewrite Z.quot_0_l in Hq; lia. }
  assert (d <= x - y) by lia. pose proof (Z.mul_quot_le d 1000000). lia.
Qed.

(** The worker's deadline, on the database's clock, is five seconds short of the
    lease it was granted. *)
Lemma deadline_short k s r p w L now :
  0 < milliseconds (sub_time L now) -> k + Z.of_N s <= now ->
  from_grant s r (Z.to_N (milliseconds (sub_time L now))) p = Ok w ->
  k + Z.of_N (deadline w) + 5 * second <= L.
Proof.
  intros Hms Hk (_ & Hl & _ & _ & _ & ->)%from_grant_Ok. cbn. pose proof (milliseconds_floor _ _ Hms).
  set (ms := milliseconds (sub_time L now)) in *. unfold from_millis, second in *. lia.
Qed.

Section EndToEnd.
Context `{GoLib}.

(** * What the store granted *)

Lemma fresh_grant job attempt now a :
  grant_Decision (member_grant None job attempt now a) = Decision_.Accepted ->
  grant_LeaseExpiresAt (member_grant None job attempt now a) = now + InitialLease
  /\ leaseDecision a job attempt now = Decision_.Accepted.
Proof. cbn. case_bool_decide as E; [done|]. cbn. intros E'. by destruct E. Qed.

(** A replayed grant is no longer than the lease on record. *)
Lemma replayed_grant g job attempt now a :
  grant_Decision (member_grant (Some g) job attempt now a) = Decision_.Accepted ->
  grant_LeaseExpiresAt (member_grant (Some g) job attempt now a) <= la_expires attempt
  /\ leaseDecision a job attempt now = Decision_.Accepted.
Proof.
  cbn. destruct (decide (grant_Decision g = Decision_.Accepted)) as [E|E];
    [rewrite (bool_decide_true (grant_Decision g = _)) by done|rewrite (bool_decide_false (grant_Decision g = _)) by done].
  - case_bool_decide as Ed; [|cbn; intros; by destruct Ed]. destruct (_ <=? now); [done|]. destruct (_ <=? now); [done|].
    cbn. intros _. split; [lia|done].
  - rewrite bool_decide_false by done. cbn. by intros E'.
Qed.

Lemma member_authority old job attempt now a : grant_Authority (member_grant old job attempt now a) = a.
Proof. unfold member_grant. repeat case_match; done. Qed.

Lemma member_time old job attempt now a : grant_ServerTime (member_grant old job attempt now a) = now.
Proof. unfold member_grant. repeat case_match; done. Qed.

(** One step of the loop moves leases to the end of a new one only. *)
Lemma renew_one saved batch now a db u db1 :
  (if bool_decide (saved = None)
      && bool_decide (grant_Decision (member_grant ((fun gs => saved_grant gs (AttemptID a)) <$> saved)
                        (batch.1 (JobID a)) (batch.2 (AttemptID a)) now a) = Decision_.Accepted)
   then update_attempt (set_lease (grant_LeaseExpiresAt (member_grant ((fun gs => saved_grant gs (AttemptID a)) <$> saved)
                        (batch.1 (JobID a)) (batch.2 (AttemptID a)) now a))) (AttemptID a)
   else st_ret tt) db = (Ok u, db1) ->
  db1 = db \/ db1 = on_core (set_attempts (alter (set_lease (now + InitialLease)) (AttemptID a))) db.
Proof.
  destruct saved as [gs|]; [rewrite bool_decide_false by done; intros [= _ <-]; by left|].
  rewrite (bool_decide_true (None = None)) by done. cbn [fmap option_fmap option_map andb].
  case_bool_decide as E; [|intros [= _ <-]; by left]. apply fresh_grant in E as [-> _]. intros [= _ <-]. by right.
Qed.

Lemma renew_keeps_leases saved batch now l db gs db' id row :
  renew_members saved batch now l db = (Ok gs, db') -> attempts (core db) !! id = Some row ->
  exists row', attempts (core db') !! id = Some row' /\ (row' = row \/ row' = set_lease (now + InitialLease) row).
Proof.
  revert db gs row. induction l as [|a l IH]; intros db gs row Hr Hrow; cbn [renew_members] in Hr.
  { injection Hr as _ <-. eauto. }
  apply st_bind_Ok in Hr as (u & db1 & H1 & Hr). apply st_bind_Ok in Hr as (gs1 & db2 & H2 & Hr). injection Hr as _ <-.
  apply renew_one in H1 as [->| ->]; [by eapply IH|]. destruct (decide (id = AttemptID a)) as [->|Hne].
  - eapply IH in H2 as (row' & Hrow' & Hcase); [|cbn; by rewrite lookup_alter_eq, Hrow]. exists row'. split; [done|].
    right. by destruct Hcase as [->| ->].
  - eapply IH; [exact H2|]. cbn. by rewrite lookup_alter_ne.
Qed.

(** What every member's grant says. *)
Definition member_ok (now : Z) (c : Core) (a : Authority) (g : LeaseGrant) : Prop :=
  grant_Authority g = a /\ grant_ServerTime g = now
  /\ (grant_Decision g = Decision_.Accepted ->
      exists row, attempts c !! AttemptID a = Some row /\ grant_LeaseExpiresAt g <= at_lease row).

Lemma clear_refusal_ok now c a g :
  grant_Authority g = a -> grant_ServerTime g = now ->
  (grant_Decision g = Decision_.Accepted ->
     exists row, attempts c !! AttemptID a = Some row /\ grant_LeaseExpiresAt g <= at_lease row) ->
  member_ok now c a (clear_refusal g).
Proof. intros Ea Et Hg. unfold clear_refusal. by case_bool_decide as E. Qed.

Lemma extended_alter now c c' k :
  extended now c c' -> extended now c (set_attempts (alter (set_lease (now + InitialLease)) k) c').
Proof.
  intros (Hsame & Ej & Hat). split; [done|]. split; [done|]. intros id a Ha. cbn.
  destruct (decide (id = k)) as [->|Hne]; [|rewrite lookup_alter_ne by done; by apply Hat].
  rewrite lookup_alter_eq. destruct (Hat _ _ Ha) as [->| ->]; by right.
Qed.

Lemma fresh_granted all c0 now l db gs db' :
  sound c0 -> (forall a, a ∈ l -> a ∈ all) -> extended now c0 (core db) ->
  renew_members None (lockLeaseBatch all c0) now l db = (Ok gs, db') ->
  Forall2 (member_ok now (core db')) l gs.
Proof.
  intros Hs. revert db gs. induction l as [|a l IH]; intros db gs Hl Hext Hr; cbn [renew_members] in Hr.
  { injection Hr as <- <-. constructor. }
  apply st_bind_Ok in Hr as (u & db1 & H1 & Hr). apply st_bind_Ok in Hr as (gs1 & db2 & H2 & Hr).
  apply ret_Ok in Hr as [-> ->].
  assert (a ∈ all) as Hin by (apply Hl; left).
  constructor.
  - apply clear_refusal_ok; [by rewrite member_authority|by rewrite member_time|]. intros Hacc.
    cbn [fmap option_fmap option_map] in H1, Hacc |- *. set (g := member_grant _ _ _ _ _) in *.
    rewrite (bool_decide_true (None = None)), (bool_decide_true (grant_Decision g = _)) in H1 by done. cbn [andb] in H1.
    apply fresh_grant in Hacc as [EL Hd]. fold g in EL. rewrite EL in H1 |- *.
    destruct (accepted_renewable all c0 now a Hs Hin Hd) as (r & (Hr0 & _) & _). injection H1 as _ <-.
    destruct Hext as (_ & _ & Hat). eapply renew_keeps_leases in H2 as (row' & Hrow' & Hcase).
    2: { cbn. rewrite lookup_alter_eq. by destruct (Hat _ _ Hr0) as [->| ->]. }
    exists row'. split; [done|]. by destruct Hcase as [->| ->].
  - eapply IH; [intros; apply Hl; by right| |exact H2].
    apply renew_one in H1 as [->| ->]; [done|]. by apply extended_alter.
Qed.

Lemma replay_granted saved all now l db gs db' :
  sound (core db) -> (forall a, a ∈ l -> a ∈ all) ->
  renew_members (Some saved) (lockLeaseBatch all (core db)) now l db = (Ok gs, db') ->
  Forall2 (member_ok now (core db')) l gs.
Proof.
  intros Hs. revert gs. induction l as [|a l IH]; intros gs Hl Hr.
  { injection Hr as <- <-. constructor. }
  pose proof (replay_loop _ _ _ _ _ _ _ Hr) as ->. cbn [renew_members] in Hr.
  rewrite (bool_decide_false (Some saved = None)) in Hr by done. cbn [andb] in Hr. rewrite bind_ret in Hr.
  apply st_bind_Ok in Hr as (gs1 & db2 & H2 & Hr). apply ret_Ok in Hr as [-> <-].
  constructor; [|eapply IH; [intros; apply Hl; by right|exact H2]].
  apply clear_refusal_ok; [by rewrite member_authority|by rewrite member_time|]. intros Hacc. cbn [fmap option_fmap option_map] in *.
  apply replayed_grant in Hacc as [HL Hd].
  assert (a ∈ all) as Hin by (apply Hl; left).
  destruct (accepted_renewable all (core db) now a Hs Hin Hd) as (r & (Hr0 & _) & Erow).
  exists r. split; [done|]. etransitivity; [exact HL|]. by rewrite Erow.
Qed.

Lemma renew_granted id r hash now db gs db' :
  sound (core db) -> RenewLeases_body id r hash now db = (Ok (Commit gs), db') ->
  Forall2 (member_ok now (core db')) (Attempts r) gs.
Proof.
  intros Hs. unfold RenewLeases_body. intros Hr. apply authorize_bind in Hr.
  apply require_session_bind in Hr as [_ Hr]. rewrite bind_gets in Hr.
  destruct (lease_requests (replay db) !! _) as [q|]; run Hr; apply require_session_bind in Hr as [_ Hr];
    apply st_bind_Ok in Hr as (gs1 & db1 & H1 & Hr).
  - injection Hr as <- <-. by eapply replay_granted.
  - run Hr. injection Hr as <- <-. cbn. eapply fresh_granted; [| | |exact H1]; [done|done|].
    split; [done|]. split; [done|]. auto.
Qed.

(** * The reply of the service *)

Lemma transact_Ok {A} answer (body : tx (Done A)) db a db' :
  transact answer body db = (Ok a, db') ->
  body db = (Ok (Commit a), db') \/ ((exists db1, body db = (Ok (Return a), db1)) /\ db' = db).
Proof. unfold transact. destruct answer, (body db) as [[[x|x]|e] db1]; intros [=]; subst; eauto. Qed.

Lemma renew_never_returns id r hash now db gs db' : RenewLeases_body id r hash now db <> (Ok (Return gs), db').
Proof.
  unfold RenewLeases_body. intros Hr. apply authorize_bind in Hr. apply require_session_bind in Hr as [_ Hr].
  rewrite bind_gets in Hr. destruct (lease_requests (replay db) !! _) as [q|]; run Hr;
    apply require_session_bind in Hr as [_ Hr]; apply st_bind_Ok in Hr as (gs1 & db1 & H1 & Hr); run Hr; done.
Qed.

Lemma renew_call_granted answer id r now db gs db' :
  sound (core db) -> RenewLeases answer id r now db = (Ok gs, db') -> Forall2 (member_ok now (core db')) (Attempts r) gs.
Proof.
  intros Hs. unfold RenewLeases. destruct (_ || _); [done|]. destruct (LeaseRenewal_hash _ _) as [hash|]; [|done].
  rewrite bind_lifted. intros [Hb|[(db1 & Hb) _]]%transact_Ok; [by eapply renew_granted|].
  by apply renew_never_returns in Hb.
Qed.

Lemma call_Ok {A} context (m : tx A) db a db' : call context m db = (Ok a, db') -> m db = (Ok a, db').
Proof. unfold call. destruct (m db) as [[x|e] d]; [by intros [= <- <-]|done]. Qed.

Lemma bound_Ok identity request db id db' : bound identity request db = (Ok id, db') -> db' = db.
Proof.
  unfold bound, st_bind. destruct identity as [i|]; [cbn|done]. by destruct (bindWorker _ _); [intros [= _ <-]|].
Qed.

Lemma renew_served context answer identity request now db results db' :
  sound (core db) -> RenewLeases_rpc context answer identity request now db = (Ok results, db') ->
  (forall lo, lo <= now -> transaction lo now db db')
  /\ Forall2 (fun a res => exists g, member_ok now (core db') (from_wire a) g /\ lease_result g = Ok res)
    (rl_attempts request) results.
Proof.
  intros Hs. unfold RenewLeases_rpc. intros Hr. apply st_bind_Ok in Hr as (id & db0 & H0 & Hr).
  apply bound_Ok in H0 as ->. destruct (_ || _); [done|]. apply st_bind_Ok in Hr as (gs & db1 & H1 & Hr).
  apply call_Ok in H1. assert (leaseResponse gs = Ok results /\ db1 = db') as [Hl ->].
  { unfold st_lift in Hr. by injection Hr as -> ->. }
  split; [intros lo Hlo; eapply t_renew; [|exact H1]; lia|]. apply renew_call_granted in H1; [|done]. cbn in H1.
  unfold leaseResponse in Hl. destruct (_ || _); [done|]. rewrite rmap_Ok in Hl.
  rewrite Forall2_fmap_l in H1. clear -H1 Hl. revert results Hl.
  induction H1 as [|a g l gs Hm _ IH]; intros results Hl; inversion Hl; subst; constructor; eauto.
Qed.

(** An accepted result carries the floor of the lease it was granted. *)
Lemma accepted_result g res :
  lease_result g = Ok res -> lres_decision res = Decision_.to_i32 Decision_.Accepted ->
  grant_Decision g = Decision_.Accepted /\ lres_authority res = Some (to_wire (grant_Authority g))
  /\ 0 < milliseconds (sub_time (grant_LeaseExpiresAt g) (grant_ServerTime g))
  /\ lres_remaining_ms res = Z.to_N (milliseconds (sub_time (grant_LeaseExpiresAt g) (grant_ServerTime g))).
Proof.
  unfold lease_result. destruct (_ || _); [done|].
  destruct (decide (grant_Decision g = Decision_.Accepted)) as [E|E];
    [rewrite bool_decide_true by done|rewrite bool_decide_false by done].
  - destruct (_ <? _); [done|]. destruct (Z.leb_spec (milliseconds (sub_time (grant_LeaseExpiresAt g) (grant_ServerTime g))) 0);
      [by intros [= <-]|]. destruct (_ <=? 0); [by intros [= <-]|]. by intros [= <-].
  - intros [= <-]. cbn. intros Hd. by destruct (grant_Decision g).
Qed.

Lemma renew_windows request sent received results late outcomes :
  renew request (Ok sent) (Delivered results) (Ok received) late = Ok outcomes ->
  Forall2 (outcome_of sent received) results outcomes.
Proof.
  unfold renew. intros Hr. apply rbind_Ok_inv in Hr as (? & _ & Hr). cbn in Hr. apply rbind_Ok_inv in Hr as (dec & Hd & Hr).
  unfold decode_renewals in Hd. destruct (negb _) eqn:E; [done|]. apply negb_false_iff, N.eqb_eq in E.
  apply Forall2_decode_members in Hd as [_ Hd]; [|unfold len in E; lia]. by eapply rmap_recheck in Hr as (_ & Hall & _).
Qed.

(** * Exclusion across hosts *)

(** A window computed from a lease on record is over five seconds before a later
    attempt of the job is created. *)
Lemma window_before_successor k s r p w L now tau d t db t' db' id row id2 a a2 :
  reached t db -> history t db t' db' -> attempts (core db) !! id = Some row -> L <= at_lease row ->
  0 < milliseconds (sub_time L now) -> k + Z.of_N s <= now ->
  from_grant s r (Z.to_N (milliseconds (sub_time L now))) p = Ok w -> remaining_at w tau = Ok d ->
  attempts (core db') !! id = Some a -> attempts (core db') !! id2 = Some a2 ->
  at_job a = at_job a2 -> at_number a < at_number a2 ->
  k + Z.of_N (tau + d) + 5 * second <= at_created a2 \/ is_Some (completions (core db') !! id)
  \/ is_Some (takeovers (core db') !! (at_worker a, at_session a)).
Proof.
  intros Hr Hh Hrow HL Hms Hk Hw Hrem Ha Ha2 Hj Hn. apply (deadline_short k) in Hw; [|done|done].
  apply remaining_at_Ok in Hrem as (_ & Hlt & ->).
  destruct (history_evolves _ _ _ _ Hr Hh) as [[_ He] [_ Hat _ _ _]].
  destruct (Hat _ _ Hrow) as (a' & Ha' & _ & _ & Hle & _). rewrite Ha in Ha'. injection Ha' as <-.
  destruct (e_order _ _ He _ _ _ _ Ha Ha2 Hj Hn) as [Hl|[Hc|Ht]]; [left|auto..].
  replace (tau + (deadline w - tau))%N with (deadline w) by lia. lia.
Qed.

(** C1: End to end, over every history of the store from a fresh database: a
    window of authority the worker computes from a renewal the service answered is
    over, on the database's clock, at least five seconds before any later attempt
    of the same job is created; unless the attempt's own worker completed it, or an
    operator approved a take-over of its session. *)
Theorem renewed_authority_ends_before_a_successor
  t0 db0 t1 db1 context answer identity request now db2 results
  k sent received late outcomes g tau d t3 db3 id2 a a2 :
  fresh (core db0) -> history t0 db0 t1 db1 -> t1 <= now ->
  RenewLeases_rpc context answer identity request now db1 = (Ok results, db2) ->
  renew request (Ok sent) (Delivered results) (Ok received) late = Ok outcomes ->
  k + Z.of_N sent <= now -> Renewed g ∈ outcomes -> remaining_at (rn_authority g) tau = Ok d ->
  history now db2 t3 db3 ->
  let id := aa_attempt_id (rn_identity g) in
  attempts (core db3) !! id = Some a -> attempts (core db3) !! id2 = Some a2 ->
  at_job a = at_job a2 -> at_number a < at_number a2 ->
  k + Z.of_N (tau + d) + 5 * second <= at_created a2
  \/ is_Some (completions (core db3) !! id)
  \/ is_Some (takeovers (core db3) !! (at_worker a, at_session a)).
Proof.
  intros Hf Hh Ht Hrpc Hrenew Hk Hg Hrem Hh3 id Ha Ha2 Hj Hn.
  pose proof (history_reached _ _ _ _ Hf Hh) as Hreach.
  destruct (renew_served _ _ _ _ _ _ _ _ (rc_sound _ _ Hreach) Hrpc) as [Htx Hres].
  assert (reached now db2) as Hreach2.
  { eapply (history_reached t0 db0); [done|]. eapply history_app; [exact Hh|].
    eapply h_later; [by apply Htx|constructor]. }
  apply renew_windows in Hrenew. apply list_elem_of_lookup in Hg as [n Hg].
  destruct (Forall2_lookup_r _ _ _ _ _ Hrenew Hg) as (res & Hres_n & Hout).
  destruct (Forall2_lookup_r _ _ _ _ _ Hres Hres_n) as (member & Hmem & gr & (Eg & Et & Hrow) & Hlr).
  inversion Hout as [x w Hauth Hdec Hgrant| |]; subst.
  destruct (accepted_result _ _ Hlr Hdec) as (Hacc & Hauth' & Hpos & Hms).
  destruct (Hrow Hacc) as (row & Hrow' & HL). rewrite Hauth in Hauth'. injection Hauth' as ->.
  rewrite Hms in Hgrant. rewrite <- Eg in Hrow'.
  by eapply (window_before_successor k sent received _ w (grant_LeaseExpiresAt gr) (grant_ServerTime gr)).
Qed.

(** * Acquisition *)

Lemma acquire_returns identity session request soft t id db r db' :
  AcquireWork_body identity session request soft t id db = (Ok (Return r), db') -> ac_Assignment r = None.
Proof.
  unfold AcquireWork_body. intros Hr. apply authorize_bind in Hr. run Hr.
  destruct (worker_requests (replay db) !! _) as [q|]; cbn [mbind option_bind] in Hr.
  - destruct (rq_attempt q) as [attempt|]; apply st_bind_Ok in Hr as (x & db1 & _ & Hr); [done|].
    by injection Hr as <- _.
  - apply st_bind_Ok in Hr as (w & db1 & _ & Hr). apply st_bind_Ok in Hr as ([job why] & db2 & _ & Hr).
    do 4 (apply st_bind_Ok in Hr as (? & ? & _ & Hr)). run Hr. by destruct x1.
Qed.

Lemma acquire_granted answer identity session request soft t id db r db' w :
  AcquireWork answer identity session request soft t id db = (Ok r, db') -> ac_Assignment r = Some w ->
  wa_ServerTime w = final_check t
  /\ exists row, attempts (core db') !! AttemptID (wa_Authority w) = Some row /\ wa_LeaseExpiresAt w <= at_lease row.
Proof.
  unfold AcquireWork. destruct (_ || _); [done|]. destruct (_ || _); [done|]. intros Hr Hw.
  apply transact_Ok in Hr as [Hr|[(db1 & Hr) _]]; [|apply acquire_returns in Hr; congruence].
  apply acquire_inv in Hr as [[Ec Hrep]|(db1 & db2 & jobID & j & a & Ec & _ & Hm & Ec2 & -> & _)].
  - destruct (Hrep w Hw) as (attempt & Hr). split; [by eapply replay_time|].
    apply replay_same in Hr as (row & Hrow & Hr). rewrite Hw in Hr. destruct Hr as (-> & -> & _).
    exists row. by rewrite Ec.
  - injection Hw as <-. pose proof (am_job _ _ _ _ _ _ _ _ _ _ Hm) as Hj.
    destruct (assign_rows _ _ _ _ _ _ _ _ _ _ Hj (am_assign _ _ _ _ _ _ _ _ _ _ Hm)) as (_ & _ & -> & -> & -> & Ec').
    split; [done|]. rewrite Ec2, Ec'. eexists. cbn. by rewrite lookup_insert_eq.
Qed.

(** The service passes on the authority and the floor of the lease. *)
Lemma acquisition_result r a :
  acquisitionResponse r = Ok (OutcomeAssignment a) ->
  exists w, ac_Assignment r = Some w /\ as_authority a = Some (to_wire (wa_Authority w))
    /\ 0 < milliseconds (sub_time (wa_LeaseExpiresAt w) (wa_ServerTime w))
    /\ as_lease_duration_ms a = Z.to_N (milliseconds (sub_time (wa_LeaseExpiresAt w) (wa_ServerTime w))).
Proof.
  unfold acquisitionResponse. destruct (ac_Assignment r) as [w|]; destruct (is_empty_str _);
    destruct (ac_Decision r) as [[]|]; try done; [|by destruct (NoWorkReason_value _)].
  destruct (Z.leb_spec (milliseconds (sub_time (wa_LeaseExpiresAt w) (wa_ServerTime w))) 0); [done|].
  destruct (_ <=? 0); [done|]. destruct (input_manifests _ _); [|done]. intros [= <-]. by exists w.
Qed.

Lemma acquire_served objects size context answer identity request soft t attempt signed db a db' :
  AcquireWork_rpc objects size context answer identity request soft t attempt signed db = (Ok (OutcomeAssignment a), db') ->
  (forall lo, lo <= first_check t -> monotone t -> transaction lo (creation t) db db')
  /\ exists L row au, as_authority a = Some au /\ attempts (core db') !! aa_attempt_id au = Some row /\ L <= at_lease row
     /\ 0 < milliseconds (sub_time L (final_check t))
     /\ as_lease_duration_ms a = Z.to_N (milliseconds (sub_time L (final_check t))).
Proof.
  unfold AcquireWork_rpc. intros Hr. apply st_bind_Ok in Hr as (id & db0 & H0 & Hr). apply bound_Ok in H0 as ->.
  apply st_bind_Ok in Hr as (r & db1 & H1 & Hr). apply call_Ok in H1.
  apply st_bind_Ok in Hr as (o & db2 & H2 & Hr). unfold st_lift in H2. injection H2 as Ho <-.
  destruct o as [b|v|v]; [|done|done]. apply st_bind_Ok in Hr as (c & db3 & H3 & Hr). unfold st_lift in H3. injection H3 as Hs <-.
  destruct (_ <? _)%N; [done|]. assert (a = c /\ db' = db1) as [-> ->] by (by injection Hr as -> ->).
  split; [intros lo Hlo Hm; eapply t_acquire; [exact Hlo|exact Hm|done|exact H1]|].
  apply acquisition_result in Ho as (w & Hw & Hau & Hpos & Hms).
  destruct (acquire_granted _ _ _ _ _ _ _ _ _ _ _ H1 Hw) as (Et & row & Hrow & HL). rewrite Et in *.
  unfold signInputGrants in Hs. apply rbind_Ok_inv in Hs as (inputs & _ & Hs). injection Hs as <-.
  exists (wa_LeaseExpiresAt w), row, (to_wire (wa_Authority w)). by split_and!.
Qed.

(** C2: End to end, over every history of the store from a fresh database: a
    window of authority the worker computes from an assignment the service sent,
    new or replayed, is over, on the database's clock, at least five seconds before
    any later attempt of the same job is created; unless the attempt's own worker
    completed it, or an operator approved a take-over of its session. *)
Theorem assigned_authority_ends_before_a_successor
  t0 db0 t1 db1 objects size context answer identity request soft t attempt signed outcome db2
  sha from_value from_job parse_url from_manifest session k sent received l g au tau d t3 db3 id2 a a2 :
  fresh (core db0) -> history t0 db0 t1 db1 -> t1 <= first_check t -> monotone t ->
  AcquireWork_rpc objects size context answer identity request soft t attempt signed db1 = (Ok outcome, db2) ->
  decode_acquisition sha from_value from_job parse_url from_manifest session (Some outcome) sent received l
    = Ok (Work.WorkAssignment g) ->
  k + Z.of_N sent <= final_check t -> as_authority (ga_assignment g) = Some au ->
  remaining_at (ga_authority g) tau = Ok d -> history (creation t) db2 t3 db3 ->
  attempts (core db3) !! aa_attempt_id au = Some a -> attempts (core db3) !! id2 = Some a2 ->
  at_job a = at_job a2 -> at_number a < at_number a2 ->
  k + Z.of_N (tau + d) + 5 * second <= at_created a2
  \/ is_Some (completions (core db3) !! aa_attempt_id au)
  \/ is_Some (takeovers (core db3) !! (at_worker a, at_session a)).
Proof.
  intros Hf Hh Ht Hm Hrpc Hdec Hk Hau Hrem Hh3 Ha Ha2 Hj Hn. cbn in Hdec.
  destruct outcome as [x|v|v]; [|by repeat case_match|by repeat case_match].
  apply check_assignment_Ok in Hdec as (au' & _ & _ & _ & _ & <- & _ & Hgrant & _).
  destruct (acquire_served _ _ _ _ _ _ _ _ _ _ _ _ _ Hrpc) as (Htx & L & row & au2 & Hau2 & Hrow & HL & Hpos & Hms).
  rewrite Hau in Hau2. injection Hau2 as <-. rewrite Hms in Hgrant.
  assert (reached (creation t) db2) as Hreach.
  { eapply (history_reached t0 db0); [done|]. eapply history_app; [exact Hh|]. eapply h_later; [by apply Htx|constructor]. }
  by eapply (window_before_successor k sent received _ (ga_authority g) L (final_check t)).
Qed.
End EndToEnd.
