(* ===== verification/StoreExample.v ===== *)
(** A run of the store and of a worker: a job is submitted, assigned to one
    worker, renewed, lost, and assigned to another.  The theorems about the
    control plane are applied to it. *)

From S2P Require Import Prelude Strings Protocol Lease Control Execution DatasetInputs Renew Work.
From S2P Require Import SpecJob Store StoreLeases StoreRecovery StoreSessions StoreAcquire.
From S2P Require Import StoreComplete Ledger LedgerFacts StoreRun StoreWorkRun StoreFacts.
From S2P Require Import StoreAssign StoreDecide WorkerApi EndToEnd.
Open Scope Z_scope.

(** * The run *)

#[local] Instance example_lib : GoLib := {
  sha256 := flat_digest;
  marshal_job := fun _ => str_bytes "{}";
  marshal_authorities := fun _ => [];
  marshal_phase := fun _ => [];
  marshal_registration := fun _ => [];
  marshal_heartbeat := fun _ => [];
  marshal_completion := fun _ => [];
  marshal_manifest := fun _ => str_bytes "{}";
  marshal_dataset := fun _ => str_bytes "{}";
  json_tokens := fun _ => ([], true);
  float64_zero := fun _ => None;
}.

Definition worker_a : string := "00000000-0000-0000-0000-00000000000a".
Definition worker_b : string := "00000000-0000-0000-0000-00000000000b".
Definition session_a : string := "00000000-0000-0000-0000-0000000000a1".
Definition session_b : string := "00000000-0000-0000-0000-0000000000b1".
Definition project_p : string := "00000000-0000-0000-0000-0000000000f0".
Definition job_x : string := "00000000-0000-0000-0000-0000000000e0".
Definition attempt_1 : string := "00000000-0000-0000-0000-0000000000c1".
Definition attempt_2 : string := "00000000-0000-0000-0000-0000000000c2".
Definition request_1 : string := "00000000-0000-0000-0000-0000000000d1".
Definition request_2 : string := "00000000-0000-0000-0000-0000000000d2".

(** Each worker authenticates with a credential of the same identifier. *)
Definition identity_of (worker : string) : WorkerIdentity :=
  {| identity_WorkerID := worker; identity_CredentialID := worker |}.

Definition host_labels : gmap string string := {["os" := "linux"; "architecture" := "amd64"]}%string.
Definition host_resources : SpecJob.Resources := {| CPUMillis := 8000; MemoryMiB := 16384; ScratchMiB := 65536 |}.

Definition new_worker : WorkerRow :=
  {| wk_state := W_REGISTERING; wk_labels := host_labels; wk_capabilities := ∅; wk_resources := host_resources;
     wk_slots := 2; wk_current := None; wk_drain := false; wk_heartbeat := None; wk_reconciled := false;
     wk_healthy := false; wk_pressure := false |}.

Definition simple_job : SpecJob :=
  {| APIVersion := "dispatch.dev/v1alpha1"; Kind := "Job";
     job_Metadata := {| meta_Name := "train"; meta_Project := "vision"; meta_Labels := ∅ |};
     Spec :=
       {| Priority := 1; Image := image_fixture; Command := ["/bin/train"]; Args := []; SpecJob.Env := ∅;
          spec_Resources := {| CPUMillis := 2000; MemoryMiB := 4096; ScratchMiB := 1024 |};
          PlacementLabels := ∅; Inputs := []; spec_Outputs := [];
          spec_Timeouts := {| StartupSeconds := 600; ExecutionSeconds := 3600; FinalizationSeconds := 600 |};
          spec_Retry := {| MaxAttempts := 3; On := ["WORKER_LOST"]; InitialBackoffSeconds := 10;
                           MaxBackoffSeconds := 60 |};
          TerminationGraceSeconds := 10; Network := "disabled" |} |}%string.

Definition empty_core : Core :=
  {| jobs := ∅; attempts := ∅; reservations := ∅; completions := ∅; sessions := ∅;
     workers := {[worker_a := new_worker; worker_b := new_worker]}; takeovers := ∅ |}.

Definition db_start : Db :=
  {| core := empty_core;
     replay := {| worker_requests := ∅; lease_requests := ∅; phase_reports := ∅; registrations := ∅;
                  idempotency_keys := ∅ |};
     catalog :=
       {| projects := {[project_p := {| pj_name := "vision"; pj_cpu_quota := 16000; pj_memory_quota := 65536;
                                        pj_concurrency_quota := 4; pj_enabled := true |}]};
          sweeps := ∅;
          authorizations := {[worker_a := {| au_limit := host_resources; au_slots := 2; au_labels := host_labels |};
                              worker_b := {| au_limit := host_resources; au_slots := 2; au_labels := host_labels |}]};
          credentials := {[worker_a := {| cr_worker := worker_a; cr_revoked := false |};
                           worker_b := {| cr_worker := worker_b; cr_revoked := false |}]};
          worker_projects := {[(worker_a, project_p); (worker_b, project_p)]};
          tokens := ∅; datasets := ∅; job_inputs := ∅; uploads := ∅; artifacts := ∅; segments := ∅ |};
     trail := {| job_events := ∅; completion_artifacts := ∅; worker_audit := []; audit := []; blockers := ∅;
                 blocker_sequence := 0; cursor := Some None |} |}.

Definition registration_of (session : string) : Registration :=
  {| reg_RequestID := request_1; reg_SessionID := session; ProtocolVersion := 1; reg_Resources := host_resources;
     Slots := 2; Labels := host_labels;
     Capabilities := ["docker.v1"; "cpu.hard"; "memory.hard"; "pids.hard"; "scratch.quota"]%string |}.

Definition clean_report (session : string) : HeartbeatReport :=
  {| hb_RequestID := request_1; hb_SessionID := session; Sequence := 1; RuntimeHealthy := true;
     DiskPressure := false; ReconciliationComplete := true; Inventory := [] |}.

Definition at_second (t : Z) : Clocks :=
  {| first_check := t * second; scan := t * second; final_check := t * second; creation := t * second |}.

Definition acquire_request (worker session : string) : AcquireWorkRequest :=
  {| Protocol.aw_session := Some {| ws_worker_id := worker; ws_session_id := session |};
     Protocol.aw_request_id := request_1 |}.

Definition renewal : RenewLeasesRequest :=
  {| rl_session := Some {| ws_worker_id := worker_a; ws_session_id := session_a |}; rl_request_id := request_2;
     rl_attempts := [{| aa_job_id := job_x; aa_attempt_id := attempt_1; aa_generation := 1;
                        aa_worker_id := worker_a; aa_session_id := session_a |}] |}.

Abbreviation submitted :=
  (SubmitJobResolved TxApplied "first" (hex (flat_digest [])) simple_job [] job_x (100 * second) db_start).
Abbreviation registered_a :=
  (RegisterSession TxApplied (identity_of worker_a) (registration_of session_a) (100 * second) (100 * second)
     (100 * second) submitted.2).
Abbreviation reported_a :=
  (RecordHeartbeat TxApplied (identity_of worker_a) (clean_report session_a) (101 * second) registered_a.2).
Abbreviation acquired_1 :=
  (AcquireWork_rpc None (fun _ => 1000%N) Live TxApplied (Some (identity_of worker_a))
     (acquire_request worker_a session_a) false (at_second 102) attempt_1 0 reported_a.2).
Abbreviation renewed_1 :=
  (RenewLeases_rpc Live TxApplied (Some (identity_of worker_a)) renewal (110 * second) acquired_1.2).
Abbreviation reaped_1 := (reapOneExpiredAttempt TxApplied (141 * second) (141 * second) renewed_1.2).
Abbreviation registered_b :=
  (RegisterSession TxApplied (identity_of worker_b) (registration_of session_b) (150 * second) (150 * second)
     (150 * second) reaped_1.2).
Abbreviation reported_b :=
  (RecordHeartbeat TxApplied (identity_of worker_b) (clean_report session_b) (151 * second) registered_b.2).
Abbreviation acquired_2 :=
  (AcquireWork TxUnknown (identity_of worker_b) session_b request_1 false (at_second 155) attempt_2 reported_b.2).

(** * Its history *)

(** Clock readings are in order. *)
Ltac in_order := repeat split; vm_compute; discriminate.

Lemma call_step {A} (lo mid hi : Z) db (m : result StoreError A * Db) db' :
  (forall x db1, m = (x, db1) -> transaction lo mid db db1) -> history mid m.2 hi db' -> history lo db hi db'.
Proof. intros Htx Hh. eapply h_later; [|exact Hh]. eapply Htx. apply surjective_pairing. Qed.

(** The reply of a handler, and the database it leaves. *)
Lemma answered {A} (m : result Status A * Db) a : m.1 = Ok a -> m = (Ok a, m.2).
Proof. destruct m as [r d]. cbn. by intros ->. Qed.

Lemma start_fresh : fresh (core db_start).
Proof.
  split_and!; try done. intros k w Hk. cbn in Hk. apply lookup_insert_Some in Hk as [[_ <-]|[_ Hk]]; [done|].
  by apply lookup_singleton_Some in Hk as [_ <-].
Qed.

Lemma until_reported : history (100 * second) db_start (101 * second) reported_a.2.
Proof.
  apply (call_step _ (100 * second) _ _ submitted); [intros x d Hx; eapply t_submit; [in_order|exact Hx]|].
  apply (call_step _ (100 * second) _ _ registered_a); [intros x d Hx; eapply t_register; [|exact Hx]; in_order|].
  apply (call_step _ (101 * second) _ _ reported_a); [intros x d Hx; eapply t_heartbeat; [|exact Hx]; in_order|]. constructor.
Qed.

Lemma monotone_at t : monotone (at_second t).
Proof. unfold monotone. cbn. lia. Qed.

Definition authority_1 : AttemptAuthority :=
  {| aa_job_id := job_x; aa_attempt_id := attempt_1; aa_generation := 1; aa_worker_id := worker_a;
     aa_session_id := session_a |}.

Definition assignment_1 : Assignment :=
  {| as_authority := Some authority_1; as_image_digest := image_fixture; as_argv := ["/bin/train"%string];
     as_resources := Some {| rs_cpu_millis := 2000; rs_memory_bytes := 4294967296; rs_scratch_bytes := 1073741824 |};
     as_canonical_job_spec_json := str_bytes "{}"; as_spec_sha256 := hex (flat_digest []);
     as_lease_duration_ms := 30000; as_server_time_unix_ms := 102000; as_phase_remaining_ms := 600000; as_inputs := [] |}.

Definition lease_1 : LeaseResult :=
  {| lres_authority := Some authority_1; lres_decision := 1; lres_remaining_ms := 30000;
     lres_server_time_unix_ms := 110000; lres_phase_remaining_ms := 592000 |}.

Lemma acquired_1_Ok : acquired_1 = (Ok (OutcomeAssignment assignment_1), acquired_1.2).
Proof. apply answered. vm_compute. reflexivity. Qed.

Lemma renewed_1_Ok : renewed_1 = (Ok [lease_1], renewed_1.2).
Proof. apply answered. vm_compute. reflexivity. Qed.

Lemma until_acquired : history (100 * second) db_start (102 * second) acquired_1.2.
Proof.
  eapply history_app; [exact until_reported|]. eapply (h_later _ (102 * second)); [|constructor].
  destruct (acquire_served _ _ _ _ _ _ _ _ _ _ _ _ _ acquired_1_Ok) as [Htx _]. apply Htx; [in_order|apply monotone_at].
Qed.

Lemma after_renewal : history (110 * second) renewed_1.2 (155 * second) acquired_2.2.
Proof.
  apply (call_step _ (141 * second) _ _ reaped_1); [intros x d Hx; eapply t_reap; [| |exact Hx]; in_order|].
  apply (call_step _ (150 * second) _ _ registered_b); [intros x d Hx; eapply t_register; [|exact Hx]; in_order|].
  apply (call_step _ (151 * second) _ _ reported_b); [intros x d Hx; eapply t_heartbeat; [|exact Hx]; in_order|].
  apply (call_step _ (155 * second) _ _ acquired_2); [|constructor].
  intros x d Hx. eapply t_acquire; [| | |exact Hx]; [in_order|apply monotone_at|in_order].
Qed.

Lemma acquired_1_sound : sound (core acquired_1.2).
Proof. apply (history_reached _ _ _ _ start_fresh until_acquired). Qed.

Lemma after_acquisition : history (102 * second) acquired_1.2 (155 * second) acquired_2.2.
Proof.
  eapply (h_later _ (110 * second)); [|exact after_renewal].
  destruct (renew_served _ _ _ _ _ _ _ _ acquired_1_sound renewed_1_Ok) as [Htx _]. apply Htx. in_order.
Qed.

(** * The theorems on the run *)

(** The row of an attempt at the end. *)
Abbreviation row_of id :=
  (default (new_attempt EmptyString 0 EmptyString EmptyString 0 0 0) (attempts (core acquired_2.2) !! id)).

Definition window_1 : RenewedLease :=
  {| rn_identity := authority_1; rn_authority := {| sent := 109000000000%N; deadline := 134000000000%N |} |}.

Lemma renewed_authority_ends_before_a_successor_witness :
  134 * second + 5 * second <= at_created (row_of attempt_2).
Proof.
  destruct (renewed_authority_ends_before_a_successor (100 * second) db_start (102 * second) acquired_1.2
    Live TxApplied (Some (identity_of worker_a)) renewal (110 * second) renewed_1.2 [lease_1]
    0 109000000000%N 111000000000%N (fun _ => Ok 112000000000%N) [Renewed window_1] window_1
    130000000000%N 4000000000%N (155 * second) acquired_2.2 attempt_2 (row_of attempt_1) (row_of attempt_2)) as [Hle|[Hc|Ht]].
  - exact start_fresh.
  - exact until_acquired.
  - in_order.
  - exact renewed_1_Ok.
  - vm_compute. reflexivity.
  - in_order.
  - left.
  - vm_compute. reflexivity.
  - exact after_renewal.
  - vm_compute. reflexivity.
  - vm_compute. reflexivity.
  - vm_compute. reflexivity.
  - vm_compute. reflexivity.
  - exact Hle.
  - exfalso. vm_compute in Hc. by destruct Hc.
  - exfalso. vm_compute in Ht. by destruct Ht.
Defined.

Definition raw_simple : RawJob :=
  {| raw_labels := []; raw_env := []; raw_placement := []; raw_job := fun _ _ _ => worker_job simple_job |}.

Definition granted_1 : GrantedAssignment :=
  {| ga_assignment := assignment_1; ga_authority := {| sent := 101500000000%N; deadline := 126500000000%N |};
     ga_execution := {| es_job := worker_job simple_job; es_sha256 := hex (flat_digest []) |} |}.

Lemma assigned_authority_ends_before_a_successor_witness :
  126 * second + 5 * second <= at_created (row_of attempt_2).
Proof.
  destruct (assigned_authority_ends_before_a_successor (100 * second) db_start (101 * second) reported_a.2
    None (fun _ => 1000%N) Live TxApplied (Some (identity_of worker_a)) (acquire_request worker_a session_a) false
    (at_second 102) attempt_1 0 (OutcomeAssignment assignment_1) acquired_1.2
    flat_digest (fun _ => Some value_fixture) (fun _ => Some raw_simple) (fun _ => None) (fun _ => None)
    {| ws_worker_id := worker_a; ws_session_id := session_a |} 0 101500000000%N 103000000000%N
    {| wall := fun _ => Some 100000%N; clock := Ok 104000000000%N; client_built := true |} granted_1 authority_1
    126000000000%N 500000000%N (155 * second) acquired_2.2 attempt_2 (row_of attempt_1) (row_of attempt_2))
    as [Hle|[Hc|Ht]].
  - exact start_fresh.
  - exact until_reported.
  - in_order.
  - apply monotone_at.
  - exact acquired_1_Ok.
  - vm_compute. reflexivity.
  - in_order.
  - reflexivity.
  - vm_compute. reflexivity.
  - exact after_acquisition.
  - vm_compute. reflexivity.
  - vm_compute. reflexivity.
  - vm_compute. reflexivity.
  - vm_compute. reflexivity.
  - etransitivity; [|exact Hle]. in_order.
  - exfalso. vm_compute in Hc. by destruct Hc.
  - exfalso. vm_compute in Ht. by destruct Ht.
Defined.

Lemma store_refines_the_ledger_witness : one_active_attempt_per_job (core acquired_2.2) job_x = true.
Proof.
  destruct (store_refines_the_ledger (100 * second) db_start (155 * second) acquired_2.2 start_fresh
    (history_app _ _ _ _ _ _ until_acquired after_acquisition)) as (_ & Hs & _).
  assert (jb_state <$> jobs (core acquired_2.2) !! job_x = Some J_ACTIVE) as (j & E & _)%fmap_Some
    by (vm_compute; reflexivity).
  exact (proj1 (proj2 (Hs _ _ E))).
Defined.

Abbreviation cancelled := (RequestCancellation TxApplied project_p job_x submitted.2).
Abbreviation cancelled_then := (RegisterSession TxApplied (identity_of worker_a) (registration_of session_a)
  (102 * second) (102 * second) (102 * second) cancelled.2).

Lemma until_cancelled : history (100 * second) db_start (101 * second) cancelled.2.
Proof.
  apply (call_step _ (100 * second) _ _ submitted); [intros x d Hx; eapply t_submit; [in_order|exact Hx]|].
  apply (call_step _ (101 * second) _ _ cancelled); [intros x d Hx; eapply t_cancel; [in_order|exact Hx]|]. constructor.
Qed.

Lemma after_cancellation : history (101 * second) cancelled.2 (102 * second) cancelled_then.2.
Proof.
  apply (call_step _ (102 * second) _ _ cancelled_then); [intros x d Hx; eapply t_register; [|exact Hx]; in_order|].
  constructor.
Qed.

Lemma outcomes_are_final_witness :
  exists j, jobs (core cancelled_then.2) !! job_x = Some j /\ jb_state j = J_CANCELLED.
Proof.
  destruct (outcomes_are_final (100 * second) db_start (101 * second) cancelled.2 (102 * second) cancelled_then.2
    start_fresh until_cancelled after_cancellation) as (Hj & _).
  assert (jb_state <$> jobs (core cancelled.2) !! job_x = Some J_CANCELLED) as (j & E & Es)%fmap_Some
    by (vm_compute; reflexivity).
  destruct (Hj job_x j E) as (j' & Hj' & Est & _); [by rewrite <- Es|]. exists j'. rewrite Est. exact (conj Hj' (eq_sym Es)).
Defined.

Lemma assignment_fits_witness : held (fun r => MemoryMiB (rv_resources r)) (core acquired_2.2) worker_b <= 16384.
Proof.
  destruct (assignment_fits TxUnknown (identity_of worker_b) session_b request_1 false (at_second 155) attempt_2
    reported_b.2 acquired_2.1 acquired_2.2 (surjective_pairing _))
    as [Hc|(a & j & w & p & _ & _ & _ & _ & _ & Hw & _ & _ & (_ & Hm & _) & _)].
  - exfalso. apply (f_equal (fun c => bool_decide (attempts c !! attempt_2 = None))) in Hc. by vm_compute in Hc.
  - assert ((fun v => MemoryMiB (wk_resources v)) <$> workers (core acquired_2.2) !! worker_b = Some 16384) as (v & Hv & Ev)%fmap_Some
      by (vm_compute; reflexivity).
    change (identity_WorkerID (identity_of worker_b)) with worker_b in Hw.
    rewrite Ev. etransitivity; [exact Hm|]. assert (w = v) as -> by congruence. reflexivity.
Defined.

Abbreviation repeated :=
  (AcquireWork TxApplied (identity_of worker_b) session_b request_1 false (at_second 160) attempt_1 acquired_2.2).

Lemma acquisition_is_idempotent_witness :
  core repeated.2 = core acquired_2.2
  /\ exists w, (ac_Assignment <$> match repeated.1 with Ok r => Some r | Err _ => None end) = Some (Some w)
       /\ AttemptID (wa_Authority w) = attempt_2.
Proof.
  destruct (acquisition_is_idempotent TxUnknown (identity_of worker_b) session_b request_1 false (at_second 155) attempt_2
    reported_b.2 acquired_2.1 acquired_2.2 acquired_2.2 TxApplied false (at_second 160) attempt_1 repeated.1 repeated.2)
    as [Hc Hr].
  - apply surjective_pairing.
  - intros Hc. apply (f_equal (fun c => bool_decide (attempts c !! attempt_2 = None))) in Hc. by vm_compute in Hc.
  - reflexivity.
  - apply surjective_pairing.
  - split; [exact Hc|].
    assert (match repeated.1 with Ok r => AttemptID ∘ wa_Authority <$> ac_Assignment r | Err _ => None end = Some attempt_2)
      as E by (vm_compute; reflexivity).
    destruct (repeated.1) as [r|e]; [|discriminate E]. destruct (Hr r eq_refl) as (a & _ & Hw).
    destruct (ac_Assignment r) as [w|] eqn:Ew; [|discriminate E].
    exists w. split; [exact (f_equal Some Ew)|]. destruct Hw as (-> & _). reflexivity.
Defined.

(** The attempt runs to its end, and the answer to its completion is lost. *)
Definition phase_report (phase : AttemptState.t) (event container : string) (exit : option Z) : PhaseReport :=
  {| phase_Authority := from_wire authority_1; EventID := event; Phase := phase; ContainerID := container;
     ExitCode := exit |}.

Definition container_1 : string := hex (flat_digest []).

Definition completion_1 : CompletionRequest :=
  {| cr_Authority := from_wire authority_1; CompletionID := request_1; PayloadSHA256 := hex (flat_digest []);
     cr_ExitCode := Some 0; Reason := EmptyString; Stopped := true; Outputs := []; LogsComplete := true; Gaps := [];
     MetricsJSON := [] |}.

Abbreviation started_1 := (ReportPhase TxApplied (identity_of worker_a)
  (phase_report AttemptState.Starting request_1 EmptyString None) (103 * second) acquired_1.2).
Abbreviation running_1 := (ReportPhase TxApplied (identity_of worker_a)
  (phase_report AttemptState.Running request_2 container_1 None) (104 * second) started_1.2).
Abbreviation finalizing_1 := (ReportPhase TxApplied (identity_of worker_a)
  (phase_report AttemptState.Finalizing attempt_2 container_1 (Some 0)) (105 * second) running_1.2).
Abbreviation completed_1 :=
  (CompleteAttempt TxUnknown (identity_of worker_a) completion_1 (106 * second) (106 * second) finalizing_1.2).
Abbreviation completed_again :=
  (CompleteAttempt TxApplied (identity_of worker_a) completion_1 (200 * second) (200 * second) completed_1.2).

Lemma until_finalizing : history (100 * second) db_start (105 * second) finalizing_1.2.
Proof.
  eapply history_app; [exact until_acquired|].
  apply (call_step _ (103 * second) _ _ started_1); [intros x d Hx; eapply t_phase; [|exact Hx]; in_order|].
  apply (call_step _ (104 * second) _ _ running_1); [intros x d Hx; eapply t_phase; [|exact Hx]; in_order|].
  apply (call_step _ (105 * second) _ _ finalizing_1); [intros x d Hx; eapply t_phase; [|exact Hx]; in_order|].
  constructor.
Qed.

Lemma completion_is_decided_once_witness :
  match completed_again.1 with Ok r => cres_State r | Err _ => AttemptState.Unspecified end = AttemptState.Succeeded.
Proof.
  assert (co_state <$> completions (core completed_1.2) !! attempt_1 = Some AttemptState.Succeeded) as (co & Hco & Es)%fmap_Some
    by (vm_compute; reflexivity).
  destruct (completion_is_decided_once (100 * second) db_start (105 * second) finalizing_1.2 TxUnknown (identity_of worker_a)
    completion_1 (106 * second) (106 * second) completed_1.1 completed_1.2 co (106 * second) completed_1.2
    TxApplied (200 * second) (200 * second) completed_again.1 completed_again.2) as [_ Hr].
  - exact start_fresh.
  - exact until_finalizing.
  - in_order.
  - vm_compute. reflexivity.
  - apply surjective_pairing.
  - exact Hco.
  - constructor.
  - apply surjective_pairing.
  - assert (is_ok completed_again.1 = true) as E by (vm_compute; reflexivity).
    destruct (completed_again.1) as [r|e]; [|discriminate E]. rewrite (Hr r eq_refl). symmetry. exact Es.
Defined.

Lemma retry_waits_within_policy_witness :
  5 * second <= retryDelay (spec_Retry (Spec simple_job)) 4 attempt_1 <= 60 * second.
Proof. apply (retry_waits_within_policy (spec_Retry (Spec simple_job)) 4 attempt_1). cbn. lia. Defined.

(** * A dataset the control plane registers and the worker refuses *)

(** The manifest as the worker decodes it. *)
Definition worker_manifest (m : DatasetManifest) : DatasetInputs.DatasetManifest :=
  {| DatasetInputs.dm_format := Format m;
     DatasetInputs.dm_files := (fun f =>
       {| DatasetInputs.df_path := file_Path f; DatasetInputs.df_size_bytes := Z.to_N (file_SizeBytes f);
          DatasetInputs.df_sha256 := file_SHA256 f |}) <$> Files m |}.

Definition empty_file (path : string) : DatasetFile :=
  {| file_Path := path; file_SizeBytes := 0; file_SHA256 := hex (flat_digest (str_bytes path)) |}.

(** [a] is a file and [a/c] needs a directory of that name.  In the order of
    the manifest [a-b] stands between them, and [DatasetManifest.validate]
    compares a path with the one before it only. *)
Definition overlapping_manifest : DatasetManifest :=
  {| Format := "tar.v1"; Files := empty_file <$> ["a"; "a-b"; "a/c"]%string |}.

Example registered_manifest_may_overlap :
  DatasetManifest_validate overlapping_manifest 1024 = Ok tt
  /\ DatasetInputs.validate_manifest (worker_manifest overlapping_manifest) = Err DatasetInputs.InvalidManifest.
Proof. split; vm_compute; reflexivity. Qed.
